(* ===== verification/_CoqProject ===== *)
-Q . S2P
Prelude.v
CutilsH.v
CString.v
Utf8.v
LinkedList.v
Args.v
DynBuf.v
CharRange.v
UnicodeTables.v
CaseConv.v
UnicodeIndex.v
Rqsort.v
UnicodeSet.v
UnicodeData.v
UnicodeProp.v
UnicodeNorm.v
UnicodeCompose.v
JsKeys.v
JsMap.v
JsMapSpec.v
BfLimbs.v
BfDiv.v
BfRecip.v
BfSqrt.v
BfNum.v
BfRound.v
BfVal.v
BfArith.v
BfCmp.v
BfAdd.v
BfProg.v
BfConv.v
GcHeap.v
GcCycles.v
RegexpCode.v
RegexpExec.v
RegexpParse.v
RegexpLex.v
RegexpChars.v
RegexpSafe.v
RegexpStatic.v
RegexpRange.v
RegexpExamples.v
