(* ===== verification/Prelude.v ===== *)
(** * Verification library for the Partikle runtime

    Partikle is a JavaScript runtime in C, a fork of QuickJS.  This library models the
    parts of it below the engine: the utility layer ([cutils.c], [cutils.h], [list.h]),
    the Unicode library ([libunicode.c] with its tables), the regular expression compiler
    and matcher ([libregexp.c]), the arithmetic of big numbers ([libbf.c]) and the parser
    of the command line ([ptklargs.c]); and, of the engine ([quickjs.c]), the parts with a
    contract of their own: the cycle collector, the equality of values, and [Map] and
    [Set].

    ** How the parts interact

    [lre_compile] reads a pattern with the UTF-8 decoder, collects character classes in
    [CharRange] sets (closed under case with the case-conversion tables, sorted with
    [rqsort]) and writes bytecode into a [DynBuf].  Three analyses of the emitted code
    ([re_is_simple_quantifier], [re_need_check_advance], [compute_stack_size]) choose
    the instructions and the stack size.  [lre_exec] runs the bytecode on a string with
    an explicit stack of saved states, and does not check the bytecode at run time: it
    relies on what the compiler guarantees.  Every buffer grows through one reallocation
    callback, which may fail at any call.  Escapes such as [\p{...}] ask the Unicode
    library for the characters of a property, a category or a script.

    In the engine every heap object carries a reference count; [mark_children] enumerates
    the objects that an object refers to (with a mark function per class), and the
    collector uses it to find the cycles that counting misses.  A [Map] keeps its records
    in a list, in the order of insertion, and in a hash table keyed by [map_hash_key] and
    compared with [js_same_value_zero]; iterators lock the record they stand on.

    A big number is a sign, an exponent and a mantissa, an array of 64-bit limbs that is
    normalized so that its top bit is set.  The operations on numbers ([bf_add], [bf_mul],
    [bf_div], [bf_sqrt]) call loops on arrays of limbs ([mp_add], [mp_mul], [mp_divnorm],
    [mp_sqrtrem]), put what the loops drop into a sticky bit, and end in one rounding
    function.  Their results and their statuses go back to [BigInt], to the conversions
    of doubles and to the functions built on them.

    ** Files

    - [Prelude]: C integers at their width ([u8] .. [u64], [i8] .. [i64]), lists as
      C arrays with failing access ([zget], [zset], [zslice], [zsplice]), the monad
      [outcome], tactics, hints and generic lemmas.
    - [CutilsH]: [cutils.h] (loads and stores, byte swaps, surrogates, bit counts).
    - [CString]: [pstrcpy], [pstrcat], [strstart], [has_suffix] of [cutils.c].
    - [Utf8]: [unicode_to_utf8], [unicode_from_utf8] of [cutils.c].
    - [LinkedList]: [list.h], on an explicit memory.
    - [Args]: [parse_runtime_args] of [ptklargs.c].
    - [DynBuf]: the [dbuf_*] functions of [cutils.c] and [dbuf_insert] of
      [libregexp.c], over the class [Allocator] of reallocation callbacks.
    - [CharRange]: the [cr_*] functions of [libunicode.c] and [libunicode.h].
    - [UnicodeTables]: the tables of [libunicode-table.h] that the next files read.
    - [CaseConv]: [lre_case_conv], [lre_canonicalize], [lre_is_in_table], the predicates
      on identifiers and spaces of [libunicode.c] and [libunicode.h].
    - [UnicodeIndex]: a reference decoder of the property tables.
    - [Rqsort]: [rqsort], [heapsortx] and the exchange functions of [cutils.c].
    - [UnicodeSet]: [unicode_case1], [cr_sort_and_remove_overlap],
      [cr_regexp_canonicalize] of [libunicode.c].
    - [UnicodeData]: the tables of properties, categories, scripts, decompositions and
      combining classes of [libunicode-table.h].
    - [UnicodeProp]: [unicode_script], [unicode_general_category], [unicode_prop] of
      [libunicode.c], and what the sets they compute mean.
    - [UnicodeNorm]: decomposition, composition, combining classes, [sort_cc] and
      [unicode_normalize] of [libunicode.c]; [UnicodeCompose]: the theorems on them.
    - [JsKeys]: [js_string_compare], [js_strict_eq2], [map_normalize_key],
      [map_hash_key] of [quickjs.c].
    - [JsMap]: [Map], [Set], [WeakMap] and [WeakSet] with their iterators, of
      [quickjs.c], over the class [MapKeys] of keys; [JsMapSpec]: the entries of the
      language definition and the refinement.
    - [GcHeap]: the heap objects of [quickjs.c], the mark functions of all classes and
      [mark_children]; [GcCycles]: [gc_decref] and [gc_scan].
    - [BfLimbs]: the arithmetic on arrays of limbs of [libbf.c]; [BfDiv], [BfRecip]: the
      division of arrays by the schoolbook method and by Newton's reciprocal; [BfSqrt]:
      the recursive square root.
    - [BfNum]: the numbers [bf_t], their assignments and [bf_round]; [BfRound], [BfVal]:
      the value of a number and the theorems on rounding.
    - [BfArith]: [bf_mul], [bf_div], [bf_sqrt]; [BfCmp]: the comparisons; [BfAdd]:
      [bf_add], [bf_sub] and the operations with a machine integer; [BfConv]: conversions
      to and from doubles and machine integers.
    - [BfProg]: sequences of operations on a file of registers.
    - [RegexpCode]: the opcodes of [libregexp-opcode.h], the bytecode header and the
      three analyses of [libregexp.c].
    - [RegexpExec]: [lre_exec], [lre_exec_backtrack], [push_state] and the character
      macros of [libregexp.c], one definition per group of instructions.
    - [RegexpParse]: the compiler of [libregexp.c], [lre_compile] and everything it calls,
      in the monad [parser] (state [REParseState], failure [-1]).
    - [RegexpLex], [RegexpChars], [RegexpSafe], [RegexpStatic], [RegexpRange]: theorems
      on the compiler and the matcher; [RegexpExamples]: whole runs, by evaluation.

    ** Conventions

    A pointer into an array is an index into a list; the pattern carries its NUL.  An
    operation that the C code leaves undefined (an access outside an object, a failed
    [assert], [abort()]) is [None] in the type [option] or [Stuck] in the type
    [outcome], so that a theorem that a result exists is a theorem of memory safety.
    The allocator is a class with a state and an arbitrary answer to each request, so
    the theorems hold for every pattern of allocation failures; the predicate
    [alloc_total] says that it never fails.  The numbers of [libbf.c] add two classes:
    [FftMul] for the multiplication of long arrays by a number-theoretic transform, whose
    law is that it gives the product, and [Realloc], reallocation that keeps the old block
    when it fails ([ShrinkOk]: it never fails to shrink one).  [lre_check_stack_overflow], which the
    embedder supplies, is a parameter.  In the models of the engine an object is named by
    its address, the heap is a [gmap], and a list of the C code is a list of addresses.

    Loops that are not structural take fuel, and running out of it is [Timeout] (in
    [outcome]) or [None] (in [option]).  The fuel of a function is computed from the size
    of its input, and the theorems on it show that the result is there, so the fuel
    suffices: the length of the array for [rqsort], of the point lists for [cr_op], of
    the pattern for the lexer, of [argv] for the command line, of the mantissas for the
    loops of [libbf.c].  Three loops of [libbf.c] correct an estimate: their fuel is a
    constant ([ADD_BACK_FUEL], [RECIP_FIX_FUEL], [LARGE_FIX_FUEL]) and the theorems bound
    the error of the estimate by it.  The exception is
    [lre_exec], which takes its fuel as an argument because backtracking has no useful
    bound: its safety theorem holds for every fuel.

    ** What the theorems show

    - Matcher: memory safety on checked bytecode, restoration of the state by
      backtracking, characters read back and forth, the binary search of ranges
      ([RegexpSafe], [RegexpChars]).
    - Compiler: character classes mean the set they were compiled from ([RegexpRange]);
      the three analyses are sound for the matcher ([RegexpStatic]); the lexer stays
      inside the pattern ([RegexpLex]).
    - Unicode: set operations, case closure and indexed lookup against set-theoretic
      references ([CharRange], [UnicodeSet], [UnicodeIndex], [CaseConv]); properties,
      categories and scripts against a decoding of their tables, name by name
      ([UnicodeProp]); canonical ordering and the four normal forms against the full
      decomposition of a text ([UnicodeNorm], [UnicodeCompose]).
    - Engine: the collector keeps exactly the objects that can be reached, and restores
      the counts ([GcCycles]); a map with its iterators returns what the list of entries
      of the language definition returns, for every sequence of operations ([JsMapSpec]).
    - Big numbers: division and square root of arrays are exact ([BfRecip], [BfSqrt]);
      [bf_round] is correct in every mode ([BfVal]) and the operations give the exact
      result rounded once ([BfAdd], [BfArith]), so that any sequence of them computes what
      the same sequence computes on values, stays well formed, and reports every refused
      request ([BfProg]); comparison is the order of the values ([BfCmp]); doubles survive
      a round trip and integers are truncated, limited or wrapped ([BfConv]).
    - Utilities: [rqsort] sorts, permutes and ends within its stack; a [DynBuf] written
      without tests and tested once at the end holds all that was written; UTF-8 round
      trips and rejects long forms; the linked lists refine sequences; the command line
      parser stays in range and leaves the arguments of the script alone.

    Five theorems of [RegexpExamples], two of [JsMapSpec] and one each of [UnicodeSet],
    [UnicodeCompose], [BfVal], [BfAdd] and [BfConv] record runs in which the code does not do what it means to.

    ** What is not modelled, and what is planned

    Not modelled: the rest of the engine (parser, bytecode compiler, interpreter, property
    operations, the other built-ins; of the collector the freeing of the cycles it found;
    of maps the functions that call user code), the decimal numbers, the transcendental
    functions, the conversion to and from text, the remainders, the bitwise operations and
    the number-theoretic transform of [libbf.c], the modules and programs around them ([quickjs-libc.c], [ptkl.c], [ptklc.c], [run-test262.c]), the
    table generator ([unicode_gen.c]), [lre_dump_bytecode], the text that [help] prints.
    Planned, in this order: self-contained parts of the engine (shapes and property
    tables, atoms, conversions of numbers, the serialization of bytecode), the rest of
    [libbf.c], and that the bytecode of every compiled pattern passes the
    checker of [RegexpSafe]. *)

From stdpp Require Export base tactics numbers list list_numbers sorting gmap.
From Stdlib Require Export ZArith Lia Sorting.Permutation.

Declare Scope cmach_scope.
Delimit Scope cmach_scope with cmach.
#[global] Open Scope Z_scope.
#[global] Open Scope cmach_scope.

Infix ".&" := Z.land (at level 40, left associativity) : cmach_scope.
Infix ".|" := Z.lor (at level 50, left associativity) : cmach_scope.
Infix ".^" := Z.lxor (at level 50, left associativity) : cmach_scope.

(** ** Machine integers *)

(** Conversion to an unsigned type of [w] bits: the value modulo [2^w]. *)
Definition wrapu (w x : Z) : Z := x mod 2 ^ w.

(** Conversion to a signed (two's complement) type of [w] bits. *)
Definition wraps (w x : Z) : Z :=
  let y := x mod 2 ^ w in if y <? 2 ^ (w - 1) then y else y - 2 ^ w.

Definition u8 (x : Z) : Z := wrapu 8 x.
Definition u16 (x : Z) : Z := wrapu 16 x.
Definition u32 (x : Z) : Z := wrapu 32 x.
Definition u64 (x : Z) : Z := wrapu 64 x.
Definition i8 (x : Z) : Z := wraps 8 x.
Definition i16 (x : Z) : Z := wraps 16 x.
Definition i32 (x : Z) : Z := wraps 32 x.
Definition i64 (x : Z) : Z := wraps 64 x.

Definition UINT32_MAX : Z := 4294967295.
Definition INT32_MAX : Z := 2147483647.

(** The C integer a [BOOL] expression evaluates to. *)
Definition b2z (b : bool) : Z := if b then 1 else 0.

(** A value of an unsigned type of [w] bits, and a byte. *)
Definition in_u (w x : Z) : Prop := 0 <= x < 2 ^ w.
Definition is_byte (x : Z) : Prop := 0 <= x < 256.
Abbreviation bytes_ok l := (Forall is_byte l).

(** ** Lists as C arrays, indexed by integers *)

Definition zlen {A} (l : list A) : Z := Z.of_nat (length l).

(** [p[i]]; [None] is an access outside the object. *)
Definition zget {A} (l : list A) (i : Z) : option A :=
  if i <? 0 then None else l !! Z.to_nat i.

(** [p[i] = v]; [None] is a write outside the object. *)
Definition zset {A} (l : list A) (i : Z) (v : A) : option (list A) :=
  if (0 <=? i) && (i <? zlen l) then Some (<[Z.to_nat i := v]> l) else None.

(** The [n] elements from index [p] on, if they are all inside the object. *)
Definition zslice {A} (l : list A) (p n : Z) : option (list A) :=
  if (0 <=? p) && (0 <=? n) && (p + n <=? zlen l)
  then Some (take (Z.to_nat n) (drop (Z.to_nat p) l)) else None.

(** [memcpy(l + p, bs, length bs)]; [None] when it would leave the object. *)
Definition zsplice {A} (l : list A) (p : Z) (bs : list A) : option (list A) :=
  if (0 <=? p) && (p + zlen bs <=? zlen l)
  then Some (take (Z.to_nat p) l ++ bs ++ drop (Z.to_nat p + length bs) l) else None.

(** A read of a constant table, whose index is always in range. *)
Definition ztab (l : list Z) (i : Z) : Z := nth (Z.to_nat i) l 0.

(** ** Automation *)

(** Case analysis on the boolean integer tests of the goal and hypotheses. *)
Ltac bool_cases :=
  repeat match goal with
  | |- context [?a <? ?b] => destruct (Z.ltb_spec a b)
  | |- context [?a <=? ?b] => destruct (Z.leb_spec a b)
  | |- context [?a =? ?b] => destruct (Z.eqb_spec a b)
  | H : context [?a <? ?b] |- _ => destruct (Z.ltb_spec a b)
  | H : context [?a <=? ?b] |- _ => destruct (Z.leb_spec a b)
  | H : context [?a =? ?b] |- _ => destruct (Z.eqb_spec a b)
  end; simpl in *.

(** Turn boolean facts in the hypotheses into propositions. *)
Ltac bool_props :=
  repeat match goal with
  | H : (_ && _)%bool = true |- _ => apply andb_prop in H as [? ?]
  | H : (_ || _)%bool = false |- _ => apply Bool.orb_false_elim in H as [? ?]
  | H : (_ <? _) = true |- _ => apply Z.ltb_lt in H
  | H : (_ <? _) = false |- _ => apply Z.ltb_ge in H
  | H : (_ <=? _) = true |- _ => apply Z.leb_le in H
  | H : (_ <=? _) = false |- _ => apply Z.leb_gt in H
  | H : (_ =? _) = true |- _ => apply Z.eqb_eq in H
  | H : (_ =? _) = false |- _ => apply Z.eqb_neq in H
  | H : negb _ = true |- _ => apply negb_true_iff in H
  | H : negb _ = false |- _ => apply negb_false_iff in H
  | H : bool_decide _ = true |- _ => apply bool_decide_eq_true_1 in H
  end.

(** Linear arithmetic with division and remainder by constants. *)
Ltac zdm := Z.to_euclidean_division_equations; lia.

Create HintDb cmach.
Create Rewrite HintDb cmach.
Create Rewrite HintDb zlen.

(** ** Bit operations as arithmetic *)

Lemma land_mask a n : 0 <= n -> a .& Z.ones n = a mod 2 ^ n.
Proof. apply Z.land_ones. Qed.

Lemma shiftr_div a n : 0 <= n -> a ≫ n = a / 2 ^ n.
Proof. apply Z.shiftr_div_pow2. Qed.

Lemma shiftl_mul a n : 0 <= n -> a ≪ n = a * 2 ^ n.
Proof. apply Z.shiftl_mul_pow2. Qed.

(** Or-ing parts that do not overlap is an addition. *)
Lemma lor_add n a b :
  0 <= n -> 0 <= a < 2 ^ n -> b mod 2 ^ n = 0 -> a .| b = a + b.
Proof.
  intros Hn Ha Hb. symmetry. apply Z.add_nocarry_lor, Z.bits_inj_0. intros i.
  rewrite Z.land_spec. destruct (Z.ltb_spec i 0); [by rewrite Z.testbit_neg_r|].
  destruct (Z.ltb_spec i n) as [Hi|Hi].
  - rewrite <- (Z.mod_pow2_bits_low b n i Hi), Hb, Z.testbit_0_l. apply andb_false_r.
  - rewrite (proj1 (Z.bounded_iff_bits_nonneg n a Hn ltac:(lia)) ltac:(lia) i Hi).
    reflexivity.
Qed.

Lemma lor_add_comm n a b :
  0 <= n -> 0 <= a < 2 ^ n -> b mod 2 ^ n = 0 -> b .| a = b + a.
Proof. intros. rewrite Z.lor_comm, (lor_add n) by done. lia. Qed.

(** ** Wrap-around *)

Lemma wrapu_range w x : 0 <= w -> 0 <= wrapu w x < 2 ^ w.
Proof. intros. apply Z.mod_pos_bound. lia. Qed.

Lemma wrapu_small w x : 0 <= x < 2 ^ w -> wrapu w x = x.
Proof. apply Z.mod_small. Qed.

Lemma u32_small x : 0 <= x < 4294967296 -> u32 x = x.
Proof. apply Z.mod_small. Qed.

Lemma u16_small x : 0 <= x < 65536 -> u16 x = x.
Proof. apply Z.mod_small. Qed.

Lemma u8_small x : 0 <= x < 256 -> u8 x = x.
Proof. apply Z.mod_small. Qed.

Lemma u32_range x : 0 <= u32 x < 4294967296.
Proof. apply Z.mod_pos_bound. lia. Qed.

Lemma u8_range x : is_byte (u8 x).
Proof. apply Z.mod_pos_bound. lia. Qed.

#[export] Hint Rewrite u32_small u16_small u8_small using lia : cmach.
#[export] Hint Resolve u8_range : cmach.

(** ** Array access *)

Lemma zlen_nonneg {A} (l : list A) : 0 <= zlen l.
Proof. unfold zlen. lia. Qed.
#[export] Hint Resolve zlen_nonneg : cmach.

Lemma zlen_nil {A} : zlen (@nil A) = 0.
Proof. reflexivity. Qed.

Lemma zlen_cons {A} (x : A) l : zlen (x :: l) = 1 + zlen l.
Proof. unfold zlen. simpl. lia. Qed.

Lemma zlen_app {A} (l1 l2 : list A) : zlen (l1 ++ l2) = zlen l1 + zlen l2.
Proof. unfold zlen. rewrite length_app. lia. Qed.

Lemma zlen_take {A} (l : list A) n : zlen (take n l) = Z.min (Z.of_nat n) (zlen l).
Proof. unfold zlen. rewrite length_take. lia. Qed.

Lemma zlen_drop {A} (l : list A) n : zlen (drop n l) = Z.max 0 (zlen l - Z.of_nat n).
Proof. unfold zlen. rewrite length_drop. lia. Qed.

#[export] Hint Rewrite @zlen_nil @zlen_cons @zlen_app @zlen_take @zlen_drop
  @length_app @length_take @length_drop @length_insert @length_replicate : zlen.

(** Arithmetic on array lengths. *)
Ltac zlen_lia :=
  autorewrite with zlen in *; unfold zlen in *;
  repeat progress (cbn [length] in *; autorewrite with zlen in *); lia.

Lemma zget_lookup {A} (l : list A) i : 0 <= i -> zget l i = l !! Z.to_nat i.
Proof. intros. unfold zget. destruct (Z.ltb_spec i 0); [lia|done]. Qed.

Lemma zget_Some_range {A} (l : list A) i x : zget l i = Some x -> 0 <= i < zlen l.
Proof.
  unfold zget, zlen. destruct (Z.ltb_spec i 0); [done|].
  intros Hl%lookup_lt_Some. lia.
Qed.

Lemma zget_in_range {A} (l : list A) i : 0 <= i < zlen l -> exists x, zget l i = Some x.
Proof.
  unfold zlen. intros. rewrite zget_lookup by lia.
  destruct (lookup_lt_is_Some_2 l (Z.to_nat i)) as [x ->]; [lia|eauto].
Qed.

Lemma zget_app_l {A} (l1 l2 : list A) i : i < zlen l1 -> zget (l1 ++ l2) i = zget l1 i.
Proof.
  unfold zget, zlen. destruct (Z.ltb_spec i 0); [done|].
  intros. apply lookup_app_l. lia.
Qed.

Lemma zget_app_r {A} (l1 l2 : list A) i :
  zlen l1 <= i -> zget (l1 ++ l2) i = zget l2 (i - zlen l1).
Proof.
  unfold zlen. intros. rewrite !zget_lookup by lia.
  rewrite lookup_app_r by lia. f_equal. lia.
Qed.

Lemma zget_cons_0 {A} (x : A) l : zget (x :: l) 0 = Some x.
Proof. reflexivity. Qed.

Lemma zset_spec {A} (l : list A) i v l' :
  zset l i v = Some l' -> 0 <= i < zlen l /\ l' = <[Z.to_nat i := v]> l.
Proof. unfold zset. case_match; [|done]. bool_props. intros [= <-]. auto. Qed.

Lemma zget_byte l i v : bytes_ok l -> zget l i = Some v -> 0 <= v < 256.
Proof. rewrite Forall_lookup. intros Hl. unfold zget. case_match; [done|]. apply Hl. Qed.

Lemma zget_replicate {A} n (x : A) i : 0 <= i < Z.of_nat n -> zget (replicate n x) i = Some x.
Proof. intros Hi. unfold zget. destruct (Z.ltb_spec i 0); [lia|]. apply lookup_replicate. split; [done|lia]. Qed.

Lemma zlen_replicate {A} n (x : A) : zlen (replicate n x) = Z.of_nat n.
Proof. unfold zlen. by rewrite length_replicate. Qed.

Lemma zset_in_range {A} (l : list A) i v :
  0 <= i < zlen l -> zset l i v = Some (<[Z.to_nat i := v]> l).
Proof. intros. unfold zset. bool_cases; done || lia. Qed.

(** Splitting an array at an in-range slice. *)
Lemma zslice_spec {A} (l : list A) p n s :
  zslice l p n = Some s ->
  0 <= p /\ zlen s = n /\ l = take (Z.to_nat p) l ++ s ++ drop (Z.to_nat (p + n)) l.
Proof.
  unfold zslice. case_match; [|done]. bool_props. intros [= <-].
  split_and!; [done|zlen_lia|].
  rewrite <- (take_drop (Z.to_nat p) l) at 1. f_equal.
  rewrite Z2Nat.inj_add, <- drop_drop by lia. by rewrite take_drop.
Qed.

Lemma zslice_app {A} (l1 s l2 : list A) :
  zslice (l1 ++ s ++ l2) (zlen l1) (zlen s) = Some s.
Proof.
  unfold zslice. rewrite (proj2 (andb_true_iff _ _)).
  - unfold zlen. rewrite !Nat2Z.id, drop_app_length, take_app_length. done.
  - rewrite andb_true_iff, !Z.leb_le. zlen_lia.
Qed.

Lemma zsplice_app {A} (l1 s l2 t : list A) :
  length s = length t -> zsplice (l1 ++ s ++ l2) (zlen l1) t = Some (l1 ++ t ++ l2).
Proof.
  intros Hl. unfold zsplice. rewrite (proj2 (andb_true_iff _ _)).
  - unfold zlen. rewrite !Nat2Z.id, take_app_length.
    replace (length l1 + length t)%nat with (length (l1 ++ s)) by (rewrite length_app; lia).
    by rewrite (app_assoc l1 s l2), drop_app_length.
  - rewrite !Z.leb_le. unfold zlen. rewrite !length_app. lia.
Qed.

Lemma zsplice_spec {A} (l : list A) p bs l' :
  zsplice l p bs = Some l' ->
  zlen l' = zlen l /\ zslice l' p (zlen bs) = Some bs /\
  (forall i, i < p \/ p + zlen bs <= i -> zget l' i = zget l i).
Proof.
  unfold zsplice. case_match; [|done]. bool_props. intros [= <-].
  assert (Hp : p = zlen (take (Z.to_nat p) l)) by zlen_lia.
  split_and!.
  - zlen_lia.
  - pose proof (zslice_app (take (Z.to_nat p) l) bs (drop (Z.to_nat p + length bs) l)) as Hz.
    by rewrite <- Hp in Hz.
  - intros i Hi. unfold zget. destruct (Z.ltb_spec i 0); [done|].
    unfold zlen in *. destruct Hi.
    + rewrite lookup_app_l by (rewrite length_take; lia). apply lookup_take_lt. lia.
    + rewrite !lookup_app_r by (rewrite ?length_take; lia).
      rewrite length_take, lookup_drop. f_equal. lia.
Qed.

(** Reading an in-range slice one element at a time. *)
Lemma zslice_0 {A} (l : list A) p : 0 <= p <= zlen l -> zslice l p 0 = Some [].
Proof.
  intros. unfold zslice. rewrite (proj2 (andb_true_iff _ _)); [done|].
  rewrite andb_true_iff, !Z.leb_le. lia.
Qed.

Lemma zslice_cons {A} (l : list A) p n x s :
  0 <= n -> zget l p = Some x -> zslice l (p + 1) n = Some s ->
  zslice l p (n + 1) = Some (x :: s).
Proof.
  intros Hn Hx (Hp & Hs & Hl)%zslice_spec. pose proof (zget_Some_range _ _ _ Hx).
  rewrite Hl. rewrite zget_lookup in Hx by lia.
  replace (Z.to_nat (p + 1)) with (S (Z.to_nat p)) by lia.
  rewrite (take_S_r _ _ x), <- app_assoc by done.
  pose proof (zslice_app (take (Z.to_nat p) l) (x :: s) (drop (Z.to_nat (p + 1 + n)) l)) as Hz.
  rewrite zlen_take, zlen_cons, Hs in Hz. simpl in Hz |- *.
  rewrite <- Hz. f_equal; lia.
Qed.

Lemma zslice_in_range {A} (l : list A) p n :
  0 <= p -> 0 <= n -> p + n <= zlen l ->
  zslice l p n = Some (take (Z.to_nat n) (drop (Z.to_nat p) l)).
Proof.
  intros. unfold zslice. rewrite (proj2 (andb_true_iff _ _)); [done|].
  rewrite andb_true_iff, !Z.leb_le. lia.
Qed.

Lemma zsplice_in_range {A} (l : list A) p bs :
  0 <= p -> p + zlen bs <= zlen l ->
  zsplice l p bs = Some (take (Z.to_nat p) l ++ bs ++ drop (Z.to_nat p + length bs) l).
Proof.
  intros. unfold zsplice. rewrite (proj2 (andb_true_iff _ _)); [done|].
  rewrite !Z.leb_le. lia.
Qed.

(** The first bytes after a store. *)
Lemma take_zsplice {A} (l : list A) p bs l' :
  zsplice l p bs = Some l' ->
  take (Z.to_nat (p + zlen bs)) l' = take (Z.to_nat p) l ++ bs.
Proof.
  unfold zsplice. case_match; [|done]. bool_props. intros [= <-].
  rewrite app_assoc, take_app_length'; [done|].
  rewrite length_app, length_take. unfold zlen in *. lia.
Qed.

Lemma zget_mid {A} (l1 : list A) x l2 i : i = zlen l1 -> zget (l1 ++ x :: l2) i = Some x.
Proof. intros ->. by rewrite zget_app_r, Z.sub_diag by lia. Qed.

Lemma zset_mid {A} (l1 : list A) x l2 i v :
  i = zlen l1 -> zset (l1 ++ x :: l2) i v = Some (l1 ++ v :: l2).
Proof.
  intros ->. rewrite zset_in_range by zlen_lia. f_equal. unfold zlen. rewrite Nat2Z.id.
  rewrite insert_app_r_alt by lia. by rewrite Nat.sub_diag.
Qed.

(** The elements after a known prefix. *)
Lemma zget_mid1 {A} (l1 : list A) y x l2 i : i = zlen l1 + 1 -> zget (l1 ++ y :: x :: l2) i = Some x.
Proof. intros ->. rewrite (cons_middle y l1), (app_assoc l1 [y]). apply zget_mid. zlen_lia. Qed.

Lemma zget_mid2 {A} (l1 : list A) z y x l2 i :
  i = zlen l1 + 2 -> zget (l1 ++ z :: y :: x :: l2) i = Some x.
Proof. intros ->. rewrite (cons_middle z l1), (app_assoc l1 [z]). apply zget_mid1. zlen_lia. Qed.

Lemma zset_mid1 {A} (l1 : list A) y x l2 i v :
  i = zlen l1 + 1 -> zset (l1 ++ y :: x :: l2) i v = Some (l1 ++ y :: v :: l2).
Proof.
  intros ->. rewrite (cons_middle y l1), (app_assoc l1 [y]), zset_mid by zlen_lia.
  by rewrite <- app_assoc.
Qed.

(** A list that is longer than a prefix of it by two or more. *)
Lemma split_two {A} (out pre : list A) x y l1 l2 :
  out ++ l1 = pre ++ x :: y :: l2 -> zlen out <= zlen pre ->
  exists w0 w1 w, pre ++ x :: y :: l2 = out ++ w0 :: w1 :: w ++ l2 /\ zlen w = zlen pre - zlen out.
Proof.
  intros H Hle. apply app_eq_inv in H as [(k & -> & H)|(k & -> & H)].
  - destruct k; [|zlen_lia]. simpl in H. rewrite app_nil_r. exists x, y, [].
    split; [done|zlen_lia].
  - destruct k as [|k0 [|k1 k]].
    + exists x, y, []. rewrite app_nil_r. split; [done|zlen_lia].
    + exists k0, x, [y]. rewrite <- app_assoc. split; [done|zlen_lia].
    + exists k0, k1, (k ++ [x; y]). rewrite <- !app_assoc. split; [done|zlen_lia].
Qed.

(** Element-wise views of stores and slices. *)
Lemma zget_zset {A} (l l' : list A) i v k :
  zset l i v = Some l' -> zget l' k = if k =? i then Some v else zget l k.
Proof.
  intros [Hi ->]%zset_spec. unfold zget, zlen in *. destruct (Z.eqb_spec k i) as [->|].
  - case_match; bool_props; [lia|]. apply list_lookup_insert_eq. lia.
  - case_match; bool_props; [done|]. apply list_lookup_insert_ne. lia.
Qed.

Lemma zlen_zset {A} (l l' : list A) i v : zset l i v = Some l' -> zlen l' = zlen l.
Proof. intros [? ->]%zset_spec. unfold zlen. by rewrite length_insert. Qed.

Lemma zget_zslice {A} (l s : list A) p n k :
  zslice l p n = Some s -> 0 <= k < n -> zget s k = zget l (p + k).
Proof.
  intros (Hp & Hl & Heq)%zslice_spec Hk. rewrite Heq at 1.
  assert (zlen (take (Z.to_nat p) l) = p).
  { apply (f_equal zlen) in Heq. rewrite !zlen_app, !zlen_take, !zlen_drop in *. lia. }
  rewrite zget_app_r, zget_app_l by lia. f_equal. lia.
Qed.

Lemma zget_zsplice {A} (l l' : list A) p bs k :
  zsplice l p bs = Some l' ->
  zget l' k = if (p <=? k) && (k <? p + zlen bs) then zget bs (k - p) else zget l k.
Proof.
  intros (Hl & Hs & Hf)%zsplice_spec. case_match; bool_props.
  - rewrite (zget_zslice _ _ _ _ _ Hs) by lia. f_equal. lia.
  - apply Hf. rewrite andb_false_iff in *. bool_cases; lia || (destruct_or?; done).
Qed.

Lemma zlen_zslice {A} (l s : list A) p n : zslice l p n = Some s -> zlen s = n.
Proof. by intros (? & ? & ?)%zslice_spec. Qed.

Lemma zget_ext {A} (l1 l2 : list A) :
  zlen l1 = zlen l2 -> (forall k, 0 <= k < zlen l1 -> zget l1 k = zget l2 k) -> l1 = l2.
Proof.
  unfold zlen. intros Hl H. apply list_eq_same_length with (length l1); [lia|lia|].
  intros i x y Hi Hx Hy. specialize (H (Z.of_nat i)).
  rewrite !zget_lookup, Nat2Z.id, Hx, Hy in H by lia. specialize (H ltac:(lia)). congruence.
Qed.

Lemma zget_take {A} (l : list A) n k : k < n -> zget (take (Z.to_nat n) l) k = zget l k.
Proof. intros. unfold zget. case_match; bool_props; [done|]. apply lookup_take_lt. lia. Qed.

Lemma zget_drop {A} (l : list A) n k :
  0 <= n -> 0 <= k -> zget (drop (Z.to_nat n) l) k = zget l (n + k).
Proof. intros. rewrite !zget_lookup, lookup_drop by lia. f_equal. lia. Qed.

(** ** Binary search *)

(** The search loop shared by the table look-ups: the intervals
    [lo i <= x < hi i] are in increasing order. *)
Section BinarySearch.
Context (lo hi : Z -> Z).

Fixpoint bsearch (fuel : nat) (c idx_min idx_max : Z) : option Z :=
  match fuel with
  | O => None
  | S fuel' =>
      if idx_min <=? idx_max then
        let idx := (idx_max + idx_min) / 2 in
        if c <? lo idx then bsearch fuel' c idx_min (idx - 1)
        else if hi idx <=? c then bsearch fuel' c (idx + 1) idx_max
        else Some idx
      else None
  end.

(** The search decides whether some interval of the range holds [c], given that
    they are ordered and enough fuel for one step per interval. *)
Lemma bsearch_spec fuel c i j :
  (forall k l, i <= k -> k < l -> l <= j -> hi k <= lo l) ->
  (forall k, i <= k <= j -> lo k < hi k) ->
  j - i + 1 < Z.of_nat fuel ->
  match bsearch fuel c i j with
  | Some k => i <= k <= j /\ lo k <= c < hi k
  | None => forall k, i <= k <= j -> ~ (lo k <= c < hi k)
  end.
Proof.
  revert i j. induction fuel as [|fuel IH]; intros i j Hord Hne Hf; simpl.
  { intros k Hk. lia. }
  destruct (Z.leb_spec i j) as [Hij|]; [|intros k Hk; lia].
  set (m := (j + i) / 2). assert (Hm : i <= m <= j) by (subst m; zdm). clearbody m.
  destruct (Z.ltb_spec c (lo m)); [|destruct (Z.leb_spec (hi m) c)].
  - specialize (IH i (m - 1)). destruct (bsearch fuel c i (m - 1)) as [k|].
    + destruct IH; [intros; apply Hord; lia|intros; apply Hne; lia|lia|]. lia.
    + intros k Hk Hc. destruct (Z.ltb_spec k m).
      * revert Hc. apply IH; [intros; apply Hord; lia|intros; apply Hne; lia|lia|lia].
      * destruct (Z.eq_dec k m) as [->|]; [lia|].
        pose proof (Hord m k ltac:(lia) ltac:(lia) ltac:(lia)). pose proof (Hne m Hm). lia.
  - specialize (IH (m + 1) j). destruct (bsearch fuel c (m + 1) j) as [k|].
    + destruct IH; [intros; apply Hord; lia|intros; apply Hne; lia|lia|]. lia.
    + intros k Hk Hc. destruct (Z.ltb_spec m k).
      * revert Hc. apply IH; [intros; apply Hord; lia|intros; apply Hne; lia|lia|lia].
      * destruct (Z.eq_dec k m) as [->|]; [lia|].
        pose proof (Hord k m ltac:(lia) ltac:(lia) ltac:(lia)). lia.
  - auto.
Qed.
End BinarySearch.

(** ** Outcomes of code that may loop or go wrong *)

(** [Stuck] is undefined behaviour, a failed [assert] or [abort()]; [Timeout]
    means that the fuel of the interpreter was too small. *)
Inductive outcome (A : Type) : Type :=
  | Ok (a : A)
  | Stuck
  | Timeout.
Arguments Ok {A} a.
Arguments Stuck {A}.
Arguments Timeout {A}.

#[export] Instance outcome_ret : MRet outcome := fun A a => Ok a.
#[export] Instance outcome_bind : MBind outcome := fun A B f m =>
  match m with Ok a => f a | Stuck => Stuck | Timeout => Timeout end.

Definition of_opt {A} (o : option A) : outcome A :=
  match o with Some a => Ok a | None => Stuck end.

(** [assert(b)]. *)
Definition assert_ (b : bool) : outcome unit := if b then Ok tt else Stuck.
