(* ===== verification/CutilsH.v ===== *)
(** The inline helpers of [cutils.h]: unaligned little-endian access to byte
    buffers, byte swapping, UTF-16 surrogates, hexadecimal digits and the
    minimum/maximum functions.  A buffer is a [list Z] of bytes, a pointer into
    it an index; [None] is an access outside the buffer. *)

From S2P Require Import Prelude.

(** ** Little-endian codes *)

(** The bytes of a [w]-byte packed struct and the value they hold
    ([struct packed_u16/u32/u64] on a little-endian target). *)
Fixpoint le_split (n : nat) (x : Z) : list Z :=
  match n with O => [] | S n' => x mod 256 :: le_split n' (x / 256) end.

Fixpoint le_combine (l : list Z) : Z :=
  match l with [] => 0 | b :: l' => b + 256 * le_combine l' end.

(** ** Definitions of cutils.h *)

Definition max_int (a b : Z) : Z := if b <? a then a else b.
Definition min_int (a b : Z) : Z := if a <? b then a else b.
Definition max_uint32 (a b : Z) : Z := if b <? a then a else b.
Definition min_uint32 (a b : Z) : Z := if a <? b then a else b.
Definition max_int64 (a b : Z) : Z := if b <? a then a else b.
Definition min_int64 (a b : Z) : Z := if a <? b then a else b.

(** [__builtin_clz] and friends: undefined ([None]) on zero. *)
Definition clz32 (a : Z) : option Z := if a =? 0 then None else Some (31 - Z.log2 a).
Definition clz64 (a : Z) : option Z := if a =? 0 then None else Some (63 - Z.log2 a).

Fixpoint ctz_pos (p : positive) : Z :=
  match p with xO p' => 1 + ctz_pos p' | _ => 0 end.
Definition ctz32 (a : Z) : option Z :=
  match a with Zpos p => Some (ctz_pos p) | _ => None end.
Definition ctz64 (a : Z) : option Z :=
  match a with Zpos p => Some (ctz_pos p) | _ => None end.

Definition get_u64 (tab : list Z) (p : Z) : option Z := le_combine <$> zslice tab p 8.
Definition get_i64 (tab : list Z) (p : Z) : option Z := i64 <$> get_u64 tab p.
Definition put_u64 (tab : list Z) (p val : Z) : option (list Z) :=
  zsplice tab p (le_split 8 (u64 val)).
Definition get_u32 (tab : list Z) (p : Z) : option Z := le_combine <$> zslice tab p 4.
Definition get_i32 (tab : list Z) (p : Z) : option Z := i32 <$> get_u32 tab p.
Definition put_u32 (tab : list Z) (p val : Z) : option (list Z) :=
  zsplice tab p (le_split 4 (u32 val)).
Definition get_u16 (tab : list Z) (p : Z) : option Z := le_combine <$> zslice tab p 2.
Definition get_i16 (tab : list Z) (p : Z) : option Z := i16 <$> get_u16 tab p.
Definition put_u16 (tab : list Z) (p val : Z) : option (list Z) :=
  zsplice tab p (le_split 2 (u16 val)).
Definition get_u8 (tab : list Z) (p : Z) : option Z := zget tab p.
Definition get_i8 (tab : list Z) (p : Z) : option Z := i8 <$> zget tab p.
Definition put_u8 (tab : list Z) (p val : Z) : option (list Z) := zset tab p (u8 val).

Definition bswap16 (x : Z) : Z := u16 ((x ≫ 8) .| (x ≪ 8)).

Definition bswap32 (v : Z) : Z :=
  u32 (((v .& 0xff000000) ≫ 24) .| ((v .& 0x00ff0000) ≫ 8) .|
       ((v .& 0x0000ff00) ≪ 8) .| ((v .& 0x000000ff) ≪ 24)).

Definition bswap64 (v : Z) : Z :=
  u64 (((v .& (0xff ≪ (7 * 8))) ≫ (7 * 8)) .|
       ((v .& (0xff ≪ (6 * 8))) ≫ (5 * 8)) .|
       ((v .& (0xff ≪ (5 * 8))) ≫ (3 * 8)) .|
       ((v .& (0xff ≪ (4 * 8))) ≫ (1 * 8)) .|
       ((v .& (0xff ≪ (3 * 8))) ≪ (1 * 8)) .|
       ((v .& (0xff ≪ (2 * 8))) ≪ (3 * 8)) .|
       ((v .& (0xff ≪ (1 * 8))) ≪ (5 * 8)) .|
       ((v .& (0xff ≪ (0 * 8))) ≪ (7 * 8))).

Definition is_surrogate (c : Z) : bool := (c ≫ 11) =? (0xD800 ≫ 11).
Definition is_hi_surrogate (c : Z) : bool := (c ≫ 10) =? (0xD800 ≫ 10).
Definition is_lo_surrogate (c : Z) : bool := (c ≫ 10) =? (0xDC00 ≫ 10).
Definition get_hi_surrogate (c : Z) : Z := u32 ((c ≫ 10) - (0x10000 ≫ 10) + 0xD800).
Definition get_lo_surrogate (c : Z) : Z := (c .& 0x3FF) .| 0xDC00.
Definition from_surrogate (hi lo : Z) : Z :=
  u32 (0x10000 + 0x400 * (hi - 0xD800) + (lo - 0xDC00)).

Definition from_hex (c : Z) : Z :=
  if (48 <=? c) && (c <=? 57) then c - 48
  else if (65 <=? c) && (c <=? 70) then c - 65 + 10
  else if (97 <=? c) && (c <=? 102) then c - 97 + 10
  else -1.

(** ** Little-endian codes are inverse to each other *)

Lemma length_le_split n x : length (le_split n x) = n.
Proof. revert x; induction n; simpl; auto. Qed.

Lemma zlen_le_split n x : zlen (le_split n x) = Z.of_nat n.
Proof. unfold zlen. by rewrite length_le_split. Qed.
#[export] Hint Rewrite zlen_le_split : zlen.

Lemma le_split_bytes n x : bytes_ok (le_split n x).
Proof.
  revert x; induction n as [|n IH]; intros x; simpl; constructor; [|apply IH].
  apply Z.mod_pos_bound. lia.
Qed.

Lemma le_combine_split n x : le_combine (le_split n x) = x mod 2 ^ (8 * Z.of_nat n).
Proof.
  revert x; induction n as [|n IH]; intros x; simpl le_split; simpl le_combine.
  - by rewrite Z.mod_1_r.
  - rewrite IH. replace (8 * Z.of_nat (S n)) with (8 + 8 * Z.of_nat n) by lia.
    rewrite Z.pow_add_r by lia. change (2 ^ 8) with 256.
    rewrite Z.rem_mul_r by lia. lia.
Qed.

Lemma le_combine_range l : bytes_ok l -> 0 <= le_combine l < 2 ^ (8 * zlen l).
Proof.
  induction 1 as [|b l Hb Hl IH]; [done|]. simpl le_combine.
  rewrite zlen_cons, Z.mul_add_distr_l, Z.pow_add_r by zlen_lia.
  change (2 ^ (8 * 1)) with 256. unfold is_byte in Hb. nia.
Qed.

Lemma le_split_combine l : bytes_ok l -> le_split (length l) (le_combine l) = l.
Proof.
  induction 1 as [|b l Hb Hl IH]; [done|]. simpl. unfold is_byte in Hb.
  replace (b + 256 * le_combine l) with (le_combine l * 256 + b) by lia.
  rewrite Z.add_comm, Z.mod_add, Z.mod_small, Z.div_add, Z.div_small by lia.
  by rewrite Z.add_0_l, IH.
Qed.

(** Reading back what was stored; nothing else of the buffer changes. *)
Lemma splice_le_slice tab p n w v tab' :
  w = Z.of_nat n -> zsplice tab p (le_split n v) = Some tab' ->
  le_combine <$> zslice tab' p w = Some (v mod 2 ^ (8 * w)) /\ zlen tab' = zlen tab /\
  (forall i, i < p \/ p + w <= i -> zget tab' i = zget tab i).
Proof.
  intros -> (Hl & Hs & Hf)%zsplice_spec. rewrite zlen_le_split in Hs, Hf.
  rewrite Hs. simpl. by rewrite le_combine_split.
Qed.

(** ** Byte order *)

(** A byte of [v] in place. *)
Lemma land_byte v k : 0 <= k -> v .& (0xff ≪ k) = ((v / 2 ^ k) mod 256) * 2 ^ k.
Proof.
  intros Hk. change 256 with (2 ^ 8). rewrite <- shiftr_div, <- land_mask, <- shiftl_mul by lia.
  rewrite Z.shiftl_land, <- Z.ldiff_ones_r by done. change (Z.ones 8) with 0xff.
  apply Z.bits_inj'. intros i Hi. rewrite !Z.land_spec, Z.ldiff_spec.
  destruct (Z.ltb_spec i k); [|by rewrite (Z.ones_spec_high k i), andb_true_r by lia].
  by rewrite (Z.shiftl_spec_low 0xff k i), !andb_false_r by done.
Qed.

(** The bytes of a value, most significant first. *)
Lemma bytes32 v :
  0 <= v < 2 ^ 32 ->
  exists a b c d, is_byte a /\ is_byte b /\ is_byte c /\ is_byte d /\
    v = a + b * 2 ^ 8 + c * 2 ^ 16 + d * 2 ^ 24.
Proof.
  intros Hv. exists (v mod 256), ((v / 2 ^ 8) mod 256), ((v / 2 ^ 16) mod 256), (v / 2 ^ 24).
  unfold is_byte. split_and!; zdm.
Qed.

Lemma bswap32_bytes a b c d :
  is_byte a -> is_byte b -> is_byte c -> is_byte d ->
  bswap32 (a + b * 2 ^ 8 + c * 2 ^ 16 + d * 2 ^ 24) = d + c * 2 ^ 8 + b * 2 ^ 16 + a * 2 ^ 24.
Proof.
  unfold is_byte. intros Ha Hb Hc Hd. unfold bswap32. set (v := a + _ + _ + _).
  change 0xff000000 with (0xff ≪ 24). change 0x00ff0000 with (0xff ≪ 16).
  change 0x0000ff00 with (0xff ≪ 8). change 0x000000ff with (0xff ≪ 0). rewrite !land_byte by lia.
  replace ((v / 2 ^ 24) mod 256) with d by (subst v; zdm). replace ((v / 2 ^ 16) mod 256) with c by (subst v; zdm).
  replace ((v / 2 ^ 8) mod 256) with b by (subst v; zdm). replace ((v / 2 ^ 0) mod 256) with a by (subst v; zdm).
  rewrite !shiftr_div, !shiftl_mul by lia. clear v.
  replace (d * 2 ^ 24 / 2 ^ 24) with d by zdm. replace (c * 2 ^ 16 / 2 ^ 8) with (c * 2 ^ 8) by zdm.
  rewrite (lor_add 8 d), (lor_add 16 (d + _)), (lor_add 24 (d + _ + _)) by (lia || zdm).
  rewrite u32_small by lia. lia.
Qed.

Lemma le_split_bytes32 a b c d :
  is_byte a -> is_byte b -> is_byte c -> is_byte d ->
  le_split 4 (a + b * 2 ^ 8 + c * 2 ^ 16 + d * 2 ^ 24) = [a; b; c; d].
Proof.
  unfold is_byte. intros Ha Hb Hc Hd. pose proof (le_split_combine [a; b; c; d]) as H. cbn [length le_combine] in H.
  rewrite <- H by (repeat constructor; unfold is_byte; lia). f_equal. lia.
Qed.

(** ** Surrogates *)

Lemma surrogate_parts c :
  0x10000 <= c <= 0x10FFFF ->
  get_hi_surrogate c = 0xD800 + (c - 0x10000) / 0x400 /\ get_lo_surrogate c = 0xDC00 + c mod 0x400.
Proof.
  intros Hc. unfold get_hi_surrogate, get_lo_surrogate. split.
  - rewrite shiftr_div by lia. change (0x10000 ≫ 10) with 64. change (2 ^ 10) with 1024. rewrite u32_small by zdm. zdm.
  - change 0x3FF with (Z.ones 10). rewrite land_mask by lia. change (2 ^ 10) with 1024.
    rewrite (lor_add 10); [lia|lia|zdm|reflexivity].
Qed.

(** ** Properties *)

(** a store followed by a load of the same width at the same place gives the
    value back, truncated to 32 bits, and changes no other byte of the memory. *)
Theorem put_get_u32 tab p v tab' :
  put_u32 tab p v = Some tab' ->
  get_u32 tab' p = Some (u32 v) /\ zlen tab' = zlen tab /\
  (forall i, i < p \/ p + 4 <= i -> zget tab' i = zget tab i).
Proof.
  intros (H & ?)%(splice_le_slice _ _ _ 4); [|done]. split; [|done].
  unfold get_u32. rewrite H. unfold u32, wrapu. by rewrite Z.mod_mod.
Qed.

Lemma put_get_u32_witness :
  exists tab', put_u32 [1; 2; 3; 4; 5; 6] 1 (-2) = Some tab' /\ get_u32 tab' 1 = Some (u32 (-2)).
Proof. eexists. split; [reflexivity|]. apply (put_get_u32 [1; 2; 3; 4; 5; 6] 1 (-2)). reflexivity. Defined.

(** [bswap32] reverses the four bytes of its argument, so loading a value stored
    in the other byte order is [bswap32] of the load, and it is its own inverse. *)
Theorem bswap32_reverses v :
  0 <= v < 2 ^ 32 -> le_split 4 (bswap32 v) = rev (le_split 4 v) /\ bswap32 (bswap32 v) = v.
Proof.
  intros Hv. destruct (bytes32 v Hv) as (a & b & c & d & Ha & Hb & Hc & Hd & ->).
  rewrite !bswap32_bytes by done. split; [|done]. by rewrite !le_split_bytes32.
Qed.

Lemma bswap32_reverses_witness :
  le_split 4 (bswap32 0x01020304) = rev (le_split 4 0x01020304) /\ bswap32 (bswap32 0x01020304) = 0x01020304.
Proof. apply (bswap32_reverses 0x01020304). lia. Defined.

(** every code point outside the basic plane is the pair of surrogates that
    [get_hi_surrogate] and [get_lo_surrogate] give, recognised as such, and
    [from_surrogate] gives the code point back. *)
Theorem surrogate_roundtrip c :
  0x10000 <= c <= 0x10FFFF ->
  is_hi_surrogate (get_hi_surrogate c) = true /\ is_lo_surrogate (get_lo_surrogate c) = true /\
  from_surrogate (get_hi_surrogate c) (get_lo_surrogate c) = c.
Proof.
  intros Hc. destruct (surrogate_parts c Hc) as [-> ->]. unfold is_hi_surrogate, is_lo_surrogate, from_surrogate.
  rewrite !shiftr_div, !Z.eqb_eq by lia. change (2 ^ 10) with 1024. split_and!; [zdm|zdm|].
  rewrite u32_small by zdm. zdm.
Qed.

Lemma surrogate_roundtrip_witness : from_surrogate (get_hi_surrogate 0x1F600) (get_lo_surrogate 0x1F600) = 0x1F600.
Proof. apply (surrogate_roundtrip 0x1F600). lia. Defined.
