(* ===== verification/CString.v ===== *)
(** The string helpers of [cutils.c].  A [char *] is the list of the bytes from the
    pointer to the end of the object it points into; [None] is a read or write
    outside the object. *)

From S2P Require Import Prelude.
From Stdlib Require Ascii String.
Export String.StringSyntax Ascii.AsciiSyntax.

(** Character and string constants. *)
Definition ch (a : Ascii.ascii) : Z := Z.of_N (Ascii.N_of_ascii a).
Arguments ch _%_char_scope.
Definition str (s : String.string) : list Z := map ch (String.list_ascii_of_string s).
Arguments str _%_string_scope.

(** ** Definitions *)

(** [strlen] (C library). *)
Fixpoint strlen (s : list Z) : option Z :=
  match s with
  | [] => None
  | c :: s' => if c =? 0 then Some 0 else n ← strlen s'; Some (n + 1)
  end.

(** The characters of the string a pointer points to. *)
Definition cstr (s : list Z) : option (list Z) := n ← strlen s; Some (take (Z.to_nat n) s).

(** [strcmp(s, t) == 0]. *)
Definition streq (s t : list Z) : option bool :=
  a ← cstr s; b ← cstr t; Some (bool_decide (a = b)).

(** The loop of [pstrcpy]: [q] characters have been stored. *)
Fixpoint pstrcpy_loop (buf : list Z) (buf_size q : Z) (s : list Z) : option (list Z) :=
  match s with
  | [] => None
  | c :: s' =>
      if (c =? 0) || (buf_size - 1 <=? q) then zset buf q 0
      else buf ← zset buf q c; pstrcpy_loop buf buf_size (q + 1) s'
  end.

Definition pstrcpy (buf : list Z) (buf_size : Z) (s : list Z) : option (list Z) :=
  if buf_size <=? 0 then Some buf else pstrcpy_loop buf buf_size 0 s.

Definition pstrcat (buf : list Z) (buf_size : Z) (s : list Z) : option (list Z) :=
  len ← strlen buf;
  if len <? buf_size then
    tl ← pstrcpy (drop (Z.to_nat len) buf) (buf_size - len) s;
    Some (take (Z.to_nat len) buf ++ tl)
  else Some buf.

(** [strstart]: [Some (Some p)] when [s] starts with [val], with the rest of [s]. *)
Fixpoint strstart (s val : list Z) : option (option (list Z)) :=
  match val with
  | [] => None
  | q :: val' =>
      if q =? 0 then Some (Some s)
      else
        match s with
        | [] => None
        | p :: s' => if p =? q then strstart s' val' else Some None
        end
  end.

Definition has_suffix (s suffix : list Z) : option bool :=
  len ← strlen s;
  slen ← strlen suffix;
  if slen <=? len then
    a ← zslice s (len - slen) slen;
    b ← zslice suffix 0 slen;
    Some (bool_decide (a = b))
  else Some false.

(** ** Strings in memory *)

(** [s] holds the string [t], followed by anything. *)
Definition holds (s t : list Z) : Prop := exists rest, s = t ++ 0 :: rest /\ Forall (fun c => c <> 0) t.

Lemma strlen_holds s t : holds s t -> strlen s = Some (zlen t).
Proof.
  intros (rest & -> & Ht). induction Ht as [|c t Hc _ IH]; simpl; [done|].
  rewrite IH. destruct (Z.eqb_spec c 0); [done|]. simpl. f_equal. zlen_lia.
Qed.

Lemma cstr_holds s t : holds s t -> cstr s = Some t.
Proof.
  intros H. unfold cstr. rewrite (strlen_holds _ _ H). destruct H as (rest & -> & _). simpl.
  unfold zlen. by rewrite Nat2Z.id, take_app_length.
Qed.

Lemma pstrcpy_loop_spec out mid tail s t size :
  holds s t -> 0 <= zlen out < size -> size <= zlen out + zlen mid ->
  let n := Z.to_nat (Z.min (zlen t) (size - 1 - zlen out)) in
  exists mid', pstrcpy_loop (out ++ mid ++ tail) size (zlen out) s = Some (out ++ mid' ++ tail) /\
    zlen mid' = zlen mid /\ exists rest, mid' = take n t ++ 0 :: rest.
Proof.
  intros (rest & -> & Ht). revert out mid. induction Ht as [|c t Hc _ IH]; intros out mid Ho Hm n.
  - cbn [app pstrcpy_loop]. rewrite Z.eqb_refl. cbn [orb].
    destruct mid as [|x mid]; [zlen_lia|]. cbn [app]. rewrite zset_mid by done.
    exists (0 :: mid). split; [done|]. split; [zlen_lia|]. subst n. exists mid. by destruct (Z.to_nat _).
  - cbn [app pstrcpy_loop]. destruct (Z.eqb_spec c 0); [done|]. cbn [orb].
    destruct mid as [|x mid]; [zlen_lia|]. destruct (Z.leb_spec (size - 1) (zlen out)); cbn [app].
    + rewrite zset_mid by done. exists (0 :: mid). split; [done|]. split; [zlen_lia|].
      exists mid. subst n. replace (Z.to_nat _) with 0%nat by zlen_lia. done.
    + rewrite zset_mid by done. cbn [mbind option_bind].
      destruct (IH (out ++ [c]) mid) as (mid' & H1 & H2 & rest' & H3); [zlen_lia..|].
      rewrite <- !app_assoc in H1. cbn [app] in H1.
      replace (zlen (out ++ [c])) with (zlen out + 1) in * by zlen_lia.
      exists (c :: mid'). split; [done|]. split; [zlen_lia|].
      exists rest'. subst n. rewrite H3.
      replace (Z.to_nat (Z.min (zlen (c :: t)) (size - 1 - zlen out)))
        with (S (Z.to_nat (Z.min (zlen t) (size - 1 - (zlen out + 1))))) by zlen_lia. done.
Qed.

Lemma pstrcpy_spec buf size s t :
  holds s t -> 0 < size <= zlen buf ->
  exists buf', pstrcpy buf size s = Some buf' /\ zlen buf' = zlen buf /\
    holds buf' (take (Z.to_nat (size - 1)) t).
Proof.
  intros Hs Hb. unfold pstrcpy. destruct (Z.leb_spec size 0); [lia|].
  destruct (pstrcpy_loop_spec [] buf [] s t size) as (buf' & H1 & H2 & rest & H3); [done|zlen_lia..|].
  rewrite !app_nil_r in H1. exists buf'. split; [exact H1|]. split; [done|].
  exists rest. split.
  - rewrite H3. f_equal. destruct (Z.leb_spec (zlen t) (size - 1)).
    + rewrite !take_ge; [done|unfold zlen in *; simpl; lia..].
    + f_equal. unfold zlen in *. simpl in *. lia.
  - destruct Hs as (? & _ & Ht). by apply Forall_take.
Qed.

(** ** Properties *)

(** [pstrcat] never writes outside the destination buffer and always leaves a
    terminated string in it: the old string followed by the longest prefix of the source
    that fits. *)
Theorem pstrcat_truncates buf size s old t :
  holds buf old -> holds s t -> zlen old < size <= zlen buf ->
  exists buf', pstrcat buf size s = Some buf' /\ zlen buf' = zlen buf /\
    holds buf' (old ++ take (Z.to_nat (size - zlen old - 1)) t).
Proof.
  intros Hb Hs Hsz. unfold pstrcat. rewrite (strlen_holds _ _ Hb). cbn [mbind option_bind].
  destruct (Z.ltb_spec (zlen old) size); [|lia]. destruct Hb as (rest & -> & Ho).
  replace (Z.to_nat (zlen old)) with (length old) by (unfold zlen; lia).
  rewrite drop_app_length, take_app_length.
  destruct (pstrcpy_spec (0 :: rest) (size - zlen old) s t) as (tl & -> & Hl & rest' & -> & Ht);
    [done|zlen_lia|]. cbn [mbind option_bind].
  eexists. split; [done|]. split; [zlen_lia|].
  exists rest'. split; [by rewrite <- app_assoc|]. by apply Forall_app.
Qed.

Lemma holds_str buf t : holds (t ++ 0 :: buf) t <-> Forall (fun c => c <> 0) t.
Proof. split; [|by exists buf]. intros (rest & H & Ht). done. Qed.

Lemma pstrcat_truncates_witness :
  exists buf', pstrcat (str "lib" ++ [0; 7; 7; 7; 7]) 6 (str "path" ++ [0]) = Some buf' /\
    zlen buf' = 8 /\ holds buf' (str "libpa").
Proof.
  refine (pstrcat_truncates _ 6 _ (str "lib") (str "path") _ _ _).
  - apply holds_str. repeat constructor; discriminate.
  - apply holds_str. repeat constructor; discriminate.
  - vm_compute. done.
Defined.

(** The prefix test decides what its name says. *)
Lemma strstart_spec s val t v :
  holds s t -> holds val v ->
  (v `prefix_of` t -> strstart s val = Some (Some (drop (length v) s))) /\
  (~ v `prefix_of` t -> strstart s val = Some None).
Proof.
  intros (rs & -> & Ht) (rv & -> & Hv). revert t Ht. induction Hv as [|q v Hq _ IH]; intros t Ht.
  - split; [intros _; by destruct t|]. intros []. apply prefix_nil.
  - destruct Ht as [|p t Hp Ht]; cbn [app strstart]; (destruct (Z.eqb_spec q 0); [done|]).
    + destruct (Z.eqb_spec 0 q); [congruence|]. split; [|done]. by intros [k Hk].
    + destruct (Z.eqb_spec p q) as [->|Hne].
      * destruct (IH t Ht) as [IH1 IH2]. split.
        { intros ?%prefix_cons_inv_2. by apply IH1. }
        { intros Hn. apply IH2. intros ?. by apply Hn, prefix_cons. }
      * split; [|done]. by intros ?%prefix_cons_inv_1.
Qed.
