(* ===== verification/Utf8.v ===== *)
(** UTF-8 coding of [cutils.c]: [unicode_to_utf8] and [unicode_from_utf8]. *)

From S2P Require Import Prelude.

(** ** Definitions *)

Definition UTF8_CHAR_LEN_MAX : Z := 6.

(** The bytes stored at [buf]; the C function returns their number, which is 0
    for a code that needs more than 31 bits. *)
Definition unicode_to_utf8 (c : Z) : list Z :=
  if c <? 0x80 then [u8 c]
  else if c <? 0x800 then
    [u8 ((c ≫ 6) .| 0xc0); u8 ((c .& 0x3f) .| 0x80)]
  else if c <? 0x10000 then
    [u8 ((c ≫ 12) .| 0xe0); u8 (((c ≫ 6) .& 0x3f) .| 0x80); u8 ((c .& 0x3f) .| 0x80)]
  else if c <? 0x00200000 then
    [u8 ((c ≫ 18) .| 0xf0); u8 (((c ≫ 12) .& 0x3f) .| 0x80);
     u8 (((c ≫ 6) .& 0x3f) .| 0x80); u8 ((c .& 0x3f) .| 0x80)]
  else if c <? 0x04000000 then
    [u8 ((c ≫ 24) .| 0xf8); u8 (((c ≫ 18) .& 0x3f) .| 0x80); u8 (((c ≫ 12) .& 0x3f) .| 0x80);
     u8 (((c ≫ 6) .& 0x3f) .| 0x80); u8 ((c .& 0x3f) .| 0x80)]
  else if c <? 0x80000000 then
    [u8 ((c ≫ 30) .| 0xfc); u8 (((c ≫ 24) .& 0x3f) .| 0x80); u8 (((c ≫ 18) .& 0x3f) .| 0x80);
     u8 (((c ≫ 12) .& 0x3f) .| 0x80); u8 (((c ≫ 6) .& 0x3f) .| 0x80); u8 ((c .& 0x3f) .| 0x80)]
  else [].

Definition utf8_min_code : list Z := [0x80; 0x800; 0x10000; 0x00200000; 0x04000000].
Definition utf8_first_code_mask : list Z := [0x1f; 0xf; 0x7; 0x3; 0x1].

(** The [switch] on the first byte: the number of continuation bytes. *)
Definition utf8_cont_len (c : Z) : option Z :=
  if (0xc0 <=? c) && (c <=? 0xdf) then Some 1
  else if (0xe0 <=? c) && (c <=? 0xef) then Some 2
  else if (0xf0 <=? c) && (c <=? 0xf7) then Some 3
  else if (0xf8 <=? c) && (c <=? 0xfb) then Some 4
  else if (0xfc <=? c) && (c <=? 0xfd) then Some 5
  else None.

(** The loop over the continuation bytes: [None] is a read outside the buffer,
    [Some None] a byte that is not a continuation byte. *)
Fixpoint utf8_cont_loop (l : nat) (buf : list Z) (p c : Z) : option (option Z) :=
  match l with
  | O => Some (Some c)
  | S l' =>
      b ← zget buf p;
      if (b <? 0x80) || (0xc0 <=? b) then Some None
      else utf8_cont_loop l' buf (p + 1) ((c ≪ 6) .| (b .& 0x3f))
  end.

(** The returned code (-1 if error) and the value of [*pp] afterwards, which is
    [p] when the sequence is rejected. *)
Definition unicode_from_utf8 (buf : list Z) (p max_len : Z) : option (Z * Z) :=
  c ← zget buf p;
  if c <? 0x80 then Some (c, p + 1)
  else match utf8_cont_len c with
  | None => Some (-1, p)
  | Some l =>
      if max_len - 1 <? l then Some (-1, p)
      else
        r ← utf8_cont_loop (Z.to_nat l) buf (p + 1) (c .& ztab utf8_first_code_mask (l - 1));
        match r with
        | None => Some (-1, p)
        | Some c' =>
            if c' <? ztab utf8_min_code (l - 1) then Some (-1, p) else Some (c', p + 1 + l)
        end
  end.

(** ** The bytes as arithmetic *)

(** The continuation byte carrying bits [6k .. 6k+5] of [c]. *)
Definition utf8_cont (k c : Z) : Z := (c / 64 ^ k) mod 64 + 0x80.

Lemma utf8_cont_range k c : 0x80 <= utf8_cont k c < 0xc0.
Proof. unfold utf8_cont. pose proof (Z.mod_pos_bound (c / 64 ^ k) 64). lia. Qed.

Lemma utf8_cont_eq k c : 0 <= k -> u8 (((c ≫ (6 * k)) .& 0x3f) .| 0x80) = utf8_cont k c.
Proof.
  intros Hk. change 0x3f with (Z.ones 6). rewrite land_mask, shiftr_div by lia.
  rewrite Z.pow_mul_r by lia. change (2 ^ 6) with 64. unfold utf8_cont.
  pose proof (Z.mod_pos_bound (c / 64 ^ k) 64 ltac:(lia)).
  rewrite (lor_add 6) by (done || lia). apply u8_small. lia.
Qed.

Lemma utf8_cont_eq0 c : u8 ((c .& 0x3f) .| 0x80) = utf8_cont 0 c.
Proof. apply (utf8_cont_eq 0). lia. Qed.

(** The first byte: the tag [t] and the high bits of [c]. *)
Lemma utf8_lead_eq n m t c :
  0 <= n -> 0 <= m <= 8 -> t mod 2 ^ m = 0 -> 0 <= c -> c / 2 ^ n < 2 ^ m ->
  t + 2 ^ m <= 256 -> 0 <= t -> u8 ((c ≫ n) .| t) = c / 2 ^ n + t.
Proof.
  intros. rewrite shiftr_div by lia.
  assert (0 <= c / 2 ^ n) by (apply Z.div_pos; lia).
  rewrite (lor_add m) by lia. apply u8_small. lia.
Qed.

(** What is written, by length class. *)
Lemma unicode_to_utf8_eq c :
  0 <= c ->
  unicode_to_utf8 c =
    if c <? 0x80 then [c]
    else if c <? 0x800 then [c / 2 ^ 6 + 0xc0; utf8_cont 0 c]
    else if c <? 0x10000 then [c / 2 ^ 12 + 0xe0; utf8_cont 1 c; utf8_cont 0 c]
    else if c <? 0x00200000 then
      [c / 2 ^ 18 + 0xf0; utf8_cont 2 c; utf8_cont 1 c; utf8_cont 0 c]
    else if c <? 0x04000000 then
      [c / 2 ^ 24 + 0xf8; utf8_cont 3 c; utf8_cont 2 c; utf8_cont 1 c; utf8_cont 0 c]
    else if c <? 0x80000000 then
      [c / 2 ^ 30 + 0xfc; utf8_cont 4 c; utf8_cont 3 c; utf8_cont 2 c; utf8_cont 1 c;
       utf8_cont 0 c]
    else [].
Proof.
  intros Hc. unfold unicode_to_utf8.
  rewrite utf8_cont_eq0, <- !utf8_cont_eq by lia.
  repeat case_match; bool_props; repeat f_equal;
    try (apply u8_small; lia);
    [apply (utf8_lead_eq 6 5)|apply (utf8_lead_eq 12 4)|apply (utf8_lead_eq 18 3)
    |apply (utf8_lead_eq 24 2)|apply (utf8_lead_eq 30 1)]; try (done || lia);
    simpl Z.pow; zdm.
Qed.

(** ** The continuation loop *)

(** The value of a run of continuation bytes appended to [c]. *)
Fixpoint utf8_digits (c : Z) (bs : list Z) : Z :=
  match bs with [] => c | b :: bs' => utf8_digits (c * 64 + (b - 0x80)) bs' end.

Definition is_cont (b : Z) : Prop := 0x80 <= b < 0xc0.

Lemma utf8_cont_step c b : 0 <= c -> is_cont b -> (c ≪ 6) .| (b .& 0x3f) = c * 64 + (b - 0x80).
Proof.
  intros Hc Hb. unfold is_cont in Hb. change 0x3f with (Z.ones 6).
  rewrite land_mask, shiftl_mul by lia. change (2 ^ 6) with 64.
  replace (b mod 64) with (b - 0x80) by zdm.
  apply (lor_add_comm 6); [lia|lia|]. apply Z.mod_mul. done.
Qed.

Lemma utf8_cont_loop_run bs pre rest c :
  0 <= c -> Forall is_cont bs ->
  utf8_cont_loop (length bs) (pre ++ bs ++ rest) (zlen pre) c = Some (Some (utf8_digits c bs)).
Proof.
  intros Hc Hbs. revert pre c Hc. induction Hbs as [|b bs Hb Hbs IH]; intros pre c Hc; [done|].
  simpl. rewrite zget_app_r, Z.sub_diag by lia. simpl.
  assert (((b <? 128) || (192 <=? b)) = false) as -> by (unfold is_cont in Hb; lia).
  rewrite utf8_cont_step by done.
  specialize (IH (pre ++ [b]) (c * 64 + (b - 0x80)) ltac:(unfold is_cont in Hb; lia)).
  rewrite <- app_assoc in IH. simpl in IH. rewrite <- IH. f_equal. zlen_lia.
Qed.

(** A successful run of the loop has read that many continuation bytes. *)
Lemma utf8_cont_loop_inv l buf p c c' :
  0 <= c -> 0 <= p <= zlen buf -> utf8_cont_loop l buf p c = Some (Some c') ->
  exists bs, zslice buf p (Z.of_nat l) = Some bs /\ length bs = l /\
    Forall is_cont bs /\ c' = utf8_digits c bs.
Proof.
  revert p c. induction l as [|l IH]; intros p c Hc Hp; simpl.
  - intros [= <-]. exists []. by rewrite zslice_0.
  - destruct (zget buf p) as [b|] eqn:Hb; simpl; [|done].
    destruct ((b <? 128) || (192 <=? b)) eqn:Hr; [done|]. bool_props.
    assert (Hcont : is_cont b) by (unfold is_cont; lia).
    rewrite utf8_cont_step by done. intros Hl.
    pose proof (zget_Some_range _ _ _ Hb). unfold is_cont in *.
    apply IH in Hl as (bs & Hs & Hlen & Hbs & ->); [|lia..].
    exists (b :: bs). split_and!; [|by simpl; f_equal|by constructor|done].
    replace (Z.of_nat (S l)) with (Z.of_nat l + 1) by lia. apply zslice_cons; [lia|done..].
Qed.

(** The number of bytes of the coding of [c]. *)
Lemma unicode_to_utf8_len c :
  0 <= c < 0x80000000 -> 1 <= zlen (unicode_to_utf8 c) <= UTF8_CHAR_LEN_MAX.
Proof.
  intros. rewrite unicode_to_utf8_eq by lia. unfold UTF8_CHAR_LEN_MAX.
  repeat case_match; bool_props; unfold zlen; simpl; lia.
Qed.

(** [unicode_from_utf8] on a lead byte and the continuation bytes it announces. *)
Lemma unicode_from_utf8_run buf pre rest lead bs max_len c0 l :
  buf = pre ++ (lead :: bs) ++ rest -> 0x80 <= lead ->
  utf8_cont_len lead = Some l -> l = zlen bs -> l <= max_len - 1 -> Forall is_cont bs ->
  c0 = lead .& ztab utf8_first_code_mask (l - 1) -> 0 <= c0 ->
  unicode_from_utf8 buf (zlen pre) max_len =
    if utf8_digits c0 bs <? ztab utf8_min_code (l - 1) then Some (-1, zlen pre)
    else Some (utf8_digits c0 bs, zlen pre + 1 + l).
Proof.
  intros -> Hlead Hlen Hl Hmax Hbs Hc0 Hpos. unfold unicode_from_utf8.
  rewrite zget_app_r, Z.sub_diag by lia. simpl.
  destruct (Z.ltb_spec lead 0x80); [lia|]. rewrite Hlen.
  destruct (Z.ltb_spec (max_len - 1) l); [lia|].
  rewrite <- Hc0. replace (Z.to_nat l) with (length bs) by zlen_lia.
  pose proof (utf8_cont_loop_run bs (pre ++ [lead]) rest c0 Hpos Hbs) as Hrun.
  rewrite <- app_assoc in Hrun. simpl in Hrun.
  replace (zlen (pre ++ [lead])) with (zlen pre + 1) in Hrun by zlen_lia.
  by rewrite Hrun.
Qed.

(** The mask applied to the lead byte removes its tag. *)
Lemma utf8_lead_mask n t m : 0 <= n -> 0 <= m < 2 ^ n -> t mod 2 ^ n = 0 -> (m + t) .& Z.ones n = m.
Proof.
  intros. rewrite land_mask by lia. rewrite Z.add_mod, H1, Z.add_0_r, Z.mod_mod by lia.
  by apply Z.mod_small.
Qed.

(** The [k] low continuation bytes of [c], most significant first. *)
Fixpoint utf8_conts (k : nat) (c : Z) : list Z :=
  match k with O => [] | S k' => utf8_cont (Z.of_nat k') c :: utf8_conts k' c end.

Lemma utf8_conts_is_cont k c : Forall is_cont (utf8_conts k c).
Proof. induction k; simpl; constructor; [apply utf8_cont_range|done]. Qed.

Lemma length_utf8_conts k c : length (utf8_conts k c) = k.
Proof. induction k; simpl; auto. Qed.

Lemma utf8_digits_conts k c : 0 <= c -> utf8_digits (c / 64 ^ Z.of_nat k) (utf8_conts k c) = c.
Proof.
  intros Hc. induction k as [|k IH]; [apply Z.div_1_r|]. simpl utf8_conts. cbn [utf8_digits].
  etransitivity; [|exact IH]. f_equal. unfold utf8_cont.
  replace (Z.of_nat (S k)) with (Z.of_nat k + 1) by lia.
  rewrite Z.pow_add_r, <- Z.div_div by lia. change (64 ^ 1) with 64.
  generalize (c / 64 ^ Z.of_nat k). intros. zdm.
Qed.

(** The tag of a lead byte announcing [k] continuation bytes. *)
Definition utf8_tag (k : nat) : Z := 256 - 2 ^ (7 - Z.of_nat k).

(** A code of the class of [k] continuation bytes. *)
Definition utf8_class (k : nat) (c : Z) : Prop :=
  (1 <= k <= 5)%nat /\ ztab utf8_min_code (Z.of_nat k - 1) <= c /\
  c / 64 ^ Z.of_nat k < 2 ^ (6 - Z.of_nat k).

#[local] Ltac utf8_eval t := let v := eval vm_compute in t in change t with v in *.
#[local] Ltac utf8_consts :=
  unfold utf8_tag in *;
  repeat match goal with
  | |- context [64 ^ Z.of_nat ?k] => utf8_eval (64 ^ Z.of_nat k)
  | _ : context [64 ^ Z.of_nat ?k] |- _ => utf8_eval (64 ^ Z.of_nat k)
  | |- context [2 ^ (?a - Z.of_nat ?k)] => utf8_eval (2 ^ (a - Z.of_nat k))
  | _ : context [2 ^ (?a - Z.of_nat ?k)] |- _ => utf8_eval (2 ^ (a - Z.of_nat k))
  | |- context [ztab ?t ?i] => utf8_eval (ztab t i)
  | _ : context [ztab ?t ?i] |- _ => utf8_eval (ztab t i)
  end; cbn [Z.sub Z.add Z.opp Z.pos_sub] in *.

Lemma utf8_class_exists c : 0x80 <= c < 0x80000000 -> exists k, utf8_class k c.
Proof.
  intros. unfold utf8_class.
  destruct (Z.ltb_spec c 0x800); [exists 1%nat|].
  2: destruct (Z.ltb_spec c 0x10000); [exists 2%nat|].
  3: destruct (Z.ltb_spec c 0x200000); [exists 3%nat|].
  4: destruct (Z.ltb_spec c 0x4000000); [exists 4%nat|exists 5%nat].
  all: split; [lia|]; utf8_consts; split; [lia|zdm].
Qed.

(** A class is an interval of codes. *)
Lemma utf8_class_bounds k c :
  utf8_class k c -> ztab utf8_min_code (Z.of_nat k - 1) <= c < 64 ^ Z.of_nat k * 2 ^ (6 - Z.of_nat k).
Proof.
  intros (Hk & Hmin & Hmax). split; [done|].
  destruct k as [|[|[|[|[|[|k]]]]]]; try lia; utf8_consts; zdm.
Qed.

(** The coding of a code of class [k] and how its lead byte is decoded. *)
Lemma utf8_class_coding k c :
  utf8_class k c ->
  unicode_to_utf8 c = (c / 64 ^ Z.of_nat k + utf8_tag k) :: utf8_conts k c.
Proof.
  intros Hcl. pose proof (utf8_class_bounds _ _ Hcl) as Hb. destruct Hcl as [Hk _].
  destruct k as [|[|[|[|[|[|k]]]]]]; try lia; utf8_consts;
    rewrite unicode_to_utf8_eq by lia;
    repeat (case_match; bool_props; [first [reflexivity|lia]|]); lia.
Qed.

Lemma utf8_class_lead k c :
  utf8_class k c ->
  let lead := c / 64 ^ Z.of_nat k + utf8_tag k in
  0x80 <= lead /\ utf8_cont_len lead = Some (Z.of_nat k) /\
  lead .& ztab utf8_first_code_mask (Z.of_nat k - 1) = c / 64 ^ Z.of_nat k.
Proof.
  intros Hcl. pose proof (utf8_class_bounds _ _ Hcl) as Hb. destruct Hcl as [Hk [_ Hmax]].
  assert (Hq : 0 <= c / 64 ^ Z.of_nat k).
  { apply Z.div_pos; [|lia]. destruct k as [|[|[|[|[|[|k]]]]]]; try lia; utf8_consts; lia. }
  cbv zeta. clear Hb. revert Hmax Hq. generalize (c / 64 ^ Z.of_nat k). intros q Hmax Hq.
  unfold utf8_cont_len.
  destruct k as [|[|[|[|[|[|k]]]]]]; try lia; utf8_consts;
    (split_and!; [lia|repeat (case_match; bool_props; [first [done|lia]|]); lia|]).
  - by apply (utf8_lead_mask 5).
  - by apply (utf8_lead_mask 4).
  - by apply (utf8_lead_mask 3).
  - by apply (utf8_lead_mask 2).
  - by apply (utf8_lead_mask 1).
Qed.

(** Decoding the coding of a code gives it back and stops after it. *)
Lemma utf8_decode_encode pre c rest max_len :
  0 <= c < 0x80000000 -> zlen (unicode_to_utf8 c) <= max_len ->
  unicode_from_utf8 (pre ++ unicode_to_utf8 c ++ rest) (zlen pre) max_len =
    Some (c, zlen pre + zlen (unicode_to_utf8 c)).
Proof.
  intros Hc Hmax. destruct (Z.ltb_spec c 0x80).
  - rewrite unicode_to_utf8_eq by lia. destruct (Z.ltb_spec c 0x80); [|lia].
    unfold unicode_from_utf8. rewrite zget_app_r, Z.sub_diag by lia. simpl.
    destruct (Z.ltb_spec c 0x80); [|lia]. do 2 f_equal.
  - destruct (utf8_class_exists c) as [k Hk]; [lia|].
    pose proof (utf8_class_coding _ _ Hk) as Hcod. rewrite Hcod in Hmax |- *.
    destruct (utf8_class_lead _ _ Hk) as (H80 & Hlen & Hmask).
    pose proof (length_utf8_conts k c) as Hlk.
    erewrite (unicode_from_utf8_run _ _ _ _ _ _ _ (Z.of_nat k)); [|done|done|done|..|symmetry; exact Hmask|].
    + rewrite utf8_digits_conts by lia. destruct Hk as (_ & Hmin & _).
      destruct (Z.ltb_spec c (ztab utf8_min_code (Z.of_nat k - 1))); [lia|].
      do 2 f_equal. zlen_lia.
    + zlen_lia.
    + zlen_lia.
    + apply utf8_conts_is_cont.
    + apply Z.div_pos; lia.
Qed.

(** The digits of a run of continuation bytes are recovered from its value. *)
Lemma utf8_digits_spec bs q :
  0 <= q -> Forall is_cont bs ->
  utf8_digits q bs / 64 ^ Z.of_nat (length bs) = q /\
  utf8_conts (length bs) (utf8_digits q bs) = bs /\ 0 <= utf8_digits q bs.
Proof.
  intros Hq Hbs. revert q Hq. induction Hbs as [|b bs Hb Hbs IH]; intros q Hq.
  - simpl. by rewrite Z.div_1_r.
  - unfold is_cont in Hb. destruct (IH (q * 64 + (b - 128)) ltac:(lia)) as (Hd & Hc & Hp).
    cbn [length utf8_digits utf8_conts]. split_and!; [|f_equal; [|done]|done].
    + replace (Z.of_nat (S (length bs))) with (Z.of_nat (length bs) + 1) by lia.
      rewrite Z.pow_add_r, <- Z.div_div, Hd by lia. change (64 ^ 1) with 64. zdm.
    + unfold utf8_cont. rewrite Hd. zdm.
Qed.

(** The classes of lead bytes. *)
Lemma utf8_cont_len_inv lead l :
  is_byte lead -> utf8_cont_len lead = Some l ->
  exists k q, l = Z.of_nat k /\ (1 <= k <= 5)%nat /\ lead = q + utf8_tag k /\
    0 <= q < 2 ^ (6 - Z.of_nat k) /\
    lead .& ztab utf8_first_code_mask (l - 1) = q.
Proof.
  intros Hb. unfold utf8_cont_len.
  assert (Hk : forall k, (1 <= k <= 5)%nat -> 0 <= lead - utf8_tag k < 2 ^ (6 - Z.of_nat k) ->
    exists k' q, Z.of_nat k = Z.of_nat k' /\ (1 <= k' <= 5)%nat /\ lead = q + utf8_tag k' /\
      0 <= q < 2 ^ (6 - Z.of_nat k') /\
      lead .& ztab utf8_first_code_mask (Z.of_nat k - 1) = q).
  { intros k Hk Hq. exists k, (lead - utf8_tag k). split_and!; try lia.
    replace (ztab _ _) with (Z.ones (6 - Z.of_nat k)).
    - rewrite <- (utf8_lead_mask (6 - Z.of_nat k) (utf8_tag k) (lead - utf8_tag k)); [|lia|lia|].
      + f_equal. lia.
      + by destruct k as [|[|[|[|[|[|k]]]]]]; try lia.
    - by destruct k as [|[|[|[|[|[|k]]]]]]; try lia. }
  repeat (case_match; bool_props); [..|done]; intros [= <-];
    [apply (Hk 1%nat)|apply (Hk 2%nat)|apply (Hk 3%nat)|apply (Hk 4%nat)|apply (Hk 5%nat)];
    try lia; utf8_consts; lia.
Qed.

(** An accepted sequence is the coding of the code it stands for: there are no
    overlong forms. *)
Lemma utf8_encode_decode buf p max_len c p' :
  bytes_ok buf -> unicode_from_utf8 buf p max_len = Some (c, p') -> 0 <= c ->
  c < 0x80000000 /\ zslice buf p (p' - p) = Some (unicode_to_utf8 c) /\ p' - p <= Z.max 1 max_len.
Proof.
  intros Hok. unfold unicode_from_utf8.
  destruct (zget buf p) as [lead|] eqn:Hg; simpl; [|done].
  pose proof (zget_Some_range _ _ _ Hg) as Hr.
  assert (Hb : is_byte lead).
  { rewrite zget_lookup in Hg by lia. by eapply Forall_lookup_1 in Hg. }
  destruct (Z.ltb_spec lead 0x80) as [Hlt|Hge].
  - intros [= <- <-] _. unfold is_byte in Hb. rewrite unicode_to_utf8_eq by lia.
    destruct (Z.ltb_spec lead 0x80); [|lia]. split_and!; [lia| |lia].
    replace (p + 1 - p) with (0 + 1) by lia. apply zslice_cons; [lia|done|]. apply zslice_0. lia.
  - destruct (utf8_cont_len lead) as [l|] eqn:Hl; [|intros [= <-]; lia].
    destruct (Z.ltb_spec (max_len - 1) l) as [|Hmax]; [intros [= <-]; lia|].
    destruct (utf8_cont_len_inv _ _ Hb Hl) as (k & q & -> & Hk & Hlead & Hq & ->).
    rewrite Nat2Z.id.
    destruct (utf8_cont_loop k buf (p + 1) q) as [[c'|]|] eqn:Hloop; simpl; [|intros [= <-]; lia|done].
    destruct (Z.ltb_spec c' (ztab utf8_min_code (Z.of_nat k - 1))) as [|Hmin]; [intros [= <-]; lia|].
    intros [= <- <-] _.
    apply utf8_cont_loop_inv in Hloop as (bs & Hs & Hlen & Hbs & ->); [|lia..].
    destruct (utf8_digits_spec bs q ltac:(lia) Hbs) as (Hd & Hc & Hpos). rewrite Hlen in Hd, Hc.
    assert (Hcl : utf8_class k (utf8_digits q bs)) by (split_and!; [lia..|]; rewrite Hd; lia).
    pose proof (utf8_class_bounds _ _ Hcl) as [_ Hub].
    split_and!; [destruct k as [|[|[|[|[|[|k]]]]]]; try lia; utf8_consts; lia| |lia].
    rewrite (utf8_class_coding _ _ Hcl), Hd, Hc, <- Hlead.
    replace (p + 1 + Z.of_nat k - p) with (Z.of_nat k + 1) by lia.
    apply zslice_cons; [lia|done..].
Qed.

(** ** Reads stay inside a zero-terminated buffer *)

Lemma utf8_cont_loop_total l buf p c i :
  bytes_ok buf -> 0 <= p <= i -> zget buf i = Some 0 -> is_Some (utf8_cont_loop l buf p c).
Proof.
  intros Hok Hp Hi. revert p c Hp. induction l as [|l IH]; intros p c Hp; simpl; [eauto|].
  pose proof (zget_Some_range _ _ _ Hi).
  destruct (zget_in_range buf p) as [b Hb]; [lia|]. rewrite Hb. simpl.
  destruct ((b <? 128) || (192 <=? b)) eqn:Hr; [eauto|]. apply IH.
  destruct (decide (p = i)) as [->|]; [|lia]. rewrite Hi in Hb. injection Hb as <-. done.
Qed.

Lemma unicode_from_utf8_total buf p max_len i :
  bytes_ok buf -> 0 <= p <= i -> zget buf i = Some 0 ->
  is_Some (unicode_from_utf8 buf p max_len).
Proof.
  intros Hok Hp Hi. pose proof (zget_Some_range _ _ _ Hi). unfold unicode_from_utf8.
  destruct (zget_in_range buf p) as [b Hb]; [lia|]. rewrite Hb. simpl.
  destruct (Z.ltb_spec b 0x80) as [|Hge]; [eauto|].
  assert (p <> i) by (intros ->; rewrite Hi in Hb; injection Hb as <-; lia).
  destruct (utf8_cont_len b) as [l|]; [|eauto]. destruct (_ <? _); [eauto|].
  destruct (utf8_cont_loop_total (Z.to_nat l) buf (p + 1)
    (b .& ztab utf8_first_code_mask (l - 1)) i) as [r ->]; [done|lia|done|].
  simpl. destruct r; [case_match|]; eauto.
Qed.

Lemma unicode_from_utf8_end buf p max_len c p' :
  bytes_ok buf -> unicode_from_utf8 buf p max_len = Some (c, p') ->
  (c = -1 /\ p' = p) \/ (0 <= c /\ p < p' <= zlen buf).
Proof.
  intros Hok Hd. destruct (Z.ltb_spec c 0) as [Hneg|Hpos].
  - left. unfold unicode_from_utf8 in Hd.
    destruct (zget buf p) as [b|] eqn:Hb; simpl in Hd; [|done].
    assert (0 <= b).
    { pose proof (zget_Some_range _ _ _ Hb). rewrite zget_lookup in Hb by lia.
      eapply Forall_lookup_1 in Hb; [|done]. unfold is_byte in Hb. lia. }
    destruct (b <? 0x80); [injection Hd; lia|].
    destruct (utf8_cont_len b) as [l|]; [|by injection Hd].
    destruct (_ <? _); [by injection Hd|].
    destruct (utf8_cont_loop _ _ _ _) as [[c'|]|]; simpl in Hd; [|by injection Hd|done].
    destruct (Z.ltb_spec c' (ztab utf8_min_code (l - 1))) as [|Hm]; [by injection Hd|].
    injection Hd as <- <-. exfalso.
    assert (0 <= ztab utf8_min_code (l - 1)); [|lia].
    unfold ztab. destruct (Z.to_nat (l - 1)) as [|[|[|[|[|]]]]]; simpl; lia || (destruct n; lia).
  - right. destruct (utf8_encode_decode _ _ _ _ _ Hok Hd Hpos) as (Hc & Hs & _).
    pose proof (unicode_to_utf8_len c ltac:(lia)) as Hl.
    apply zslice_spec in Hs as (Hp & Hz & Heq).
    apply (f_equal zlen) in Heq. zlen_lia.
Qed.

(** ** Properties *)

(** C37: decoding the UTF-8 coding of any code of at most 31 bits, wherever it
    stands in a buffer and whatever follows it, returns that code and moves the
    pointer just past it; the coding has between 1 and [UTF8_CHAR_LEN_MAX] bytes. *)
Theorem utf8_roundtrip pre c rest max_len :
  0 <= c < 0x80000000 -> zlen (unicode_to_utf8 c) <= max_len ->
  1 <= zlen (unicode_to_utf8 c) <= UTF8_CHAR_LEN_MAX /\
  unicode_from_utf8 (pre ++ unicode_to_utf8 c ++ rest) (zlen pre) max_len =
    Some (c, zlen pre + zlen (unicode_to_utf8 c)).
Proof. intros. split; [by apply unicode_to_utf8_len|by apply utf8_decode_encode]. Qed.

Lemma utf8_roundtrip_witness :
  unicode_from_utf8 ([65] ++ unicode_to_utf8 0x1F600 ++ [66]) 1 6 = Some (0x1F600, 5).
Proof. refine (proj2 (utf8_roundtrip [65] 0x1F600 [66] 6 _ _)); [lia|vm_compute; congruence]. Defined.

(** The decoder accepts only shortest forms: whenever it returns a code, the
    bytes it consumed are exactly the coding of that code, the code has at most 31
    bits, and at most [max_len] bytes were consumed. *)
Theorem utf8_canonical buf p max_len c p' :
  bytes_ok buf -> unicode_from_utf8 buf p max_len = Some (c, p') -> 0 <= c ->
  c < 0x80000000 /\ zslice buf p (p' - p) = Some (unicode_to_utf8 c) /\ p' - p <= Z.max 1 max_len.
Proof. apply utf8_encode_decode. Qed.

Lemma utf8_canonical_witness :
  zslice [0xe2; 0x82; 0xac; 0] 0 3 = Some (unicode_to_utf8 0x20ac).
Proof.
  refine (proj1 (proj2 (utf8_canonical [0xe2; 0x82; 0xac; 0] 0 6 0x20ac 3 _ _ _)));
    [repeat constructor; unfold is_byte; lia|reflexivity|lia].
Defined.

(** on a buffer that holds a zero byte at or after the read position, decoding
    never reads past that byte, whatever [max_len] and whatever the bytes before. *)
Theorem utf8_no_overread buf p max_len i :
  bytes_ok buf -> 0 <= p <= i -> zget buf i = Some 0 ->
  exists c p', unicode_from_utf8 (take (Z.to_nat (i + 1)) buf) p max_len = Some (c, p') /\
    p <= p' <= i + 1.
Proof.
  intros Hok Hp Hi. pose proof (zget_Some_range _ _ _ Hi).
  assert (Hok' : bytes_ok (take (Z.to_nat (i + 1)) buf)) by by apply Forall_take.
  destruct (unicode_from_utf8_total (take (Z.to_nat (i + 1)) buf) p max_len i) as [[c p'] Hd]; [done..| |].
  - rewrite zget_lookup in Hi |- * by lia. rewrite lookup_take_lt by lia. done.
  - exists c, p'. split; [done|].
    destruct (unicode_from_utf8_end _ _ _ _ _ Hok' Hd) as [[_ ->]|[_ ?]]; [lia|zlen_lia].
Qed.

Lemma utf8_no_overread_witness :
  exists c p', unicode_from_utf8 [0xf0; 0x9f; 0] 0 6 = Some (c, p') /\ 0 <= p' <= 3.
Proof.
  exact (utf8_no_overread [0xf0; 0x9f; 0; 0x80; 0x80] 0 6 2
    ltac:(repeat constructor; unfold is_byte; lia) ltac:(lia) eq_refl).
Defined.
