(* ===== verification/LinkedList.v ===== *)
(** The circular doubly linked lists of [list.h], on an explicit memory.

    A node is an address; the memory maps an address to its two pointers.  An operation
    is [None] when it dereferences an address outside the memory ([NULL] included).  The
    abstraction of a list head is the sequence of addresses reached from it; the
    operations refine insertion and removal in that sequence. *)

From S2P Require Import Prelude.

Record list_head := { prev : Z; next : Z }.
Definition NULL : Z := 0.
Abbreviation memory := (gmap Z list_head).

(** ** Operations *)

Definition set_prev (m : memory) (p v : Z) : option memory :=
  n ← m !! p; Some (<[p := {| prev := v; next := next n |}]> m).
Definition set_next (m : memory) (p v : Z) : option memory :=
  n ← m !! p; Some (<[p := {| prev := prev n; next := v |}]> m).

Definition init_list_head (m : memory) (head : Z) : option memory :=
  m ← set_prev m head head;
  set_next m head head.

(** [__list_add]: insert [el] between [p] and [n]. *)
Definition list_add_between (m : memory) (el p n : Z) : option memory :=
  m ← set_next m p el;
  m ← set_prev m el p;
  m ← set_next m el n;
  set_prev m n el.

Definition list_add (m : memory) (el head : Z) : option memory :=
  h ← m !! head;
  list_add_between m el head (next h).

Definition list_add_tail (m : memory) (el head : Z) : option memory :=
  h ← m !! head;
  list_add_between m el (prev h) head.

Definition list_del (m : memory) (el : Z) : option memory :=
  e ← m !! el;
  m ← set_next m (prev e) (next e);
  m ← set_prev m (next e) (prev e);
  m ← set_prev m el NULL;
  set_next m el NULL.

Definition list_empty (m : memory) (el : Z) : option bool :=
  e ← m !! el; Some (next e =? el).

(** [list_for_each] and [list_for_each_prev]: the nodes visited. *)
Fixpoint list_for_each_from (fuel : nat) (step : list_head -> Z) (m : memory) (el head : Z) : option (list Z) :=
  match fuel with
  | O => None
  | S fuel' =>
      if el =? head then Some []
      else
        n ← m !! el;
        l ← list_for_each_from fuel' step m (step n) head;
        Some (el :: l)
  end.
Definition list_for_each (fuel : nat) (m : memory) (head : Z) : option (list Z) :=
  h ← m !! head; list_for_each_from fuel next m (next h) head.
Definition list_for_each_prev (fuel : nat) (m : memory) (head : Z) : option (list Z) :=
  h ← m !! head; list_for_each_from fuel prev m (prev h) head.

(** ** Abstraction *)

Definition nxt (m : memory) (p : Z) : option Z := next <$> m !! p.
Definition prv (m : memory) (p : Z) : option Z := prev <$> m !! p.

(** Consecutive nodes point to each other. *)
Fixpoint links (m : memory) (l : list Z) : Prop :=
  match l with
  | a :: (b :: _) as l' => nxt m a = Some b /\ prv m b = Some a /\ links m l'
  | _ => True
  end.

(** The list at [h] holds the nodes [xs], in order. *)
Definition is_list (m : memory) (h : Z) (xs : list Z) : Prop :=
  NoDup (h :: xs) /\ links m (h :: xs ++ [h]).

(** Links depend only on the [next] of all nodes but the last and the [prev] of all
    but the first. *)
Lemma links_ext m m' a l :
  links m (a :: l) ->
  (forall x, x ∈ removelast (a :: l) -> nxt m' x = nxt m x) -> (forall x, x ∈ l -> prv m' x = prv m x) ->
  links m' (a :: l).
Proof.
  revert a. induction l as [|b l IH]; intros a Hl Hn Hp; [done|]. destruct Hl as (H1 & H2 & Hl).
  split; [rewrite Hn; [done|by left]|]. split; [rewrite Hp; [done|by left]|].
  apply IH; [done|intros x Hx; apply Hn; by right|intros x Hx; apply Hp; by right].
Qed.

Lemma links_app m l1 p l2 : links m (l1 ++ p :: l2) <-> links m (l1 ++ [p]) /\ links m (p :: l2).
Proof.
  induction l1 as [|a l1 IH]; [by split; [|intros []]; cbn|]. destruct l1 as [|b l1]; cbn [app links] in *; [tauto|].
  cbn [app] in IH. tauto.
Qed.

(** ** Stores *)

Definition allocated (m : memory) (p : Z) : Prop := is_Some (m !! p).

Lemma set_next_spec m p v :
  allocated m p -> exists m', set_next m p v = Some m' /\
    (forall a, nxt m' a = if a =? p then Some v else nxt m a) /\ (forall a, prv m' a = prv m a) /\
    (forall a, allocated m' a <-> allocated m a).
Proof.
  intros [n Hn]. unfold set_next. rewrite Hn. eexists. split; [done|].
  unfold nxt, prv, allocated. split_and!; intros a; destruct (Z.eqb_spec a p) as [->|Hne];
    rewrite ?lookup_insert_eq, ?lookup_insert_ne by done; rewrite ?Hn; try done; split; eauto.
Qed.

Lemma set_prev_spec m p v :
  allocated m p -> exists m', set_prev m p v = Some m' /\
    (forall a, prv m' a = if a =? p then Some v else prv m a) /\ (forall a, nxt m' a = nxt m a) /\
    (forall a, allocated m' a <-> allocated m a).
Proof.
  intros [n Hn]. unfold set_prev. rewrite Hn. eexists. split; [done|].
  unfold nxt, prv, allocated. split_and!; intros a; destruct (Z.eqb_spec a p) as [->|Hne];
    rewrite ?lookup_insert_eq, ?lookup_insert_ne by done; rewrite ?Hn; try done; split; eauto.
Qed.

(** One store: name the new memory and its fields. *)
Ltac store spec :=
  let m := fresh "m" in let E := fresh "E" in let Hf := fresh "Hf" in let Hk := fresh "Hk" in let Ha := fresh "Ha" in
  match goal with
  | |- context [set_next ?m0 ?p ?v] => destruct (set_next_spec m0 p v) as (m & E & Hf & Hk & Ha)
  | |- context [set_prev ?m0 ?p ?v] => destruct (set_prev_spec m0 p v) as (m & E & Hf & Hk & Ha)
  end; [spec|rewrite E; cbn [mbind option_bind]].

Lemma list_add_between_spec m el p n :
  el <> p -> el <> n -> allocated m el -> allocated m p -> allocated m n ->
  exists m', list_add_between m el p n = Some m' /\
    (forall a, nxt m' a = if a =? el then Some n else if a =? p then Some el else nxt m a) /\
    (forall a, prv m' a = if a =? el then Some p else if a =? n then Some el else prv m a) /\
    (forall a, allocated m' a <-> allocated m a).
Proof.
  intros Hp Hn Ael Ap An. unfold list_add_between.
  store ltac:(done). store ltac:(by apply Ha). store ltac:(by apply Ha0, Ha).
  destruct (set_prev_spec m2 n el) as (m3 & E2 & Hf2 & Hk2 & Ha2); [by apply Ha1, Ha0, Ha|].
  exists m3. split; [done|]. split_and!; intros a.
  - rewrite Hk2, Hf1, Hk0, Hf. done.
  - rewrite Hf2, Hk1, Hf0, Hk. destruct (Z.eqb_spec a n), (Z.eqb_spec a el); congruence.
  - rewrite Ha2, Ha1, Ha0, Ha. done.
Qed.

Lemma nxt_allocated m p v : nxt m p = Some v -> allocated m p.
Proof. unfold nxt, allocated. destruct (m !! p); [eauto|done]. Qed.

Lemma prv_allocated m p v : prv m p = Some v -> allocated m p.
Proof. unfold prv, allocated. destruct (m !! p); [eauto|done]. Qed.

(** ** Refinement *)

(** The two ends of a place in the cyclic sequence. *)
Lemma list_split (h : Z) (xs1 xs2 : list Z) :
  exists l1 p n l2, h :: xs1 = l1 ++ [p] /\ xs2 ++ [h] = n :: l2 /\ h :: (xs1 ++ xs2) ++ [h] = l1 ++ p :: n :: l2.
Proof.
  destruct (exists_last (l := h :: xs1)) as (l1 & p & E); [done|]. destruct (xs2 ++ [h]) as [|n l2] eqn:E2.
  { by destruct xs2. }
  exists l1, p, n, l2. split; [done|]. split; [done|]. rewrite <- app_assoc, E2, (app_comm_cons xs1 (n :: l2) h), E, <- app_assoc. done.
Qed.

Lemma removelast_snoc {A} (l : list A) x : removelast (l ++ [x]) = l.
Proof. by rewrite removelast_app, app_nil_r. Qed.

(** The place between [xs1] and [xs2]: its ends, and why no other link of the list
    depends on the fields that an operation there changes. *)
Lemma at_place m h xs1 xs2 :
  is_list m h (xs1 ++ xs2) ->
  exists l1 p n l2, h :: xs1 = l1 ++ [p] /\ xs2 ++ [h] = n :: l2 /\
    links m (l1 ++ [p]) /\ links m (n :: l2) /\ nxt m p = Some n /\ prv m n = Some p /\
    (p ∉ l1) /\ (n ∉ xs1) /\ (p ∉ removelast (n :: l2)) /\ (n ∉ l2).
Proof.
  intros [Hnd Hl]. destruct (list_split h xs1 xs2) as (l1 & p & n & l2 & E1 & E2 & E). rewrite E in Hl.
  apply links_app in Hl as [Hl1 (Hpn & Hnp & Hl2)].
  exists l1, p, n, l2. split_and!; try done.
  - rewrite app_comm_cons in Hnd. apply NoDup_app in Hnd as [Hnd _]. rewrite E1 in Hnd.
    apply NoDup_app in Hnd as (_ & Hd & _). intros Hp. apply (Hd p Hp). by left.
  - assert (Hr : NoDup (xs1 ++ xs2 ++ [h])).
    { apply NoDup_cons in Hnd as [Hh Hnd]. rewrite app_assoc. apply NoDup_app. split; [done|]. split; [|apply NoDup_singleton].
      intros x Hx Hx'%list_elem_of_singleton. by subst. }
    rewrite E2 in Hr. apply NoDup_app in Hr as (_ & Hd & _). intros Hn. apply (Hd n Hn). by left.
  - rewrite <- E2, removelast_snoc. rewrite app_comm_cons in Hnd. apply NoDup_app in Hnd as (_ & Hd & _).
    apply Hd. rewrite E1. apply elem_of_app. right. by left.
  - assert (Hr : NoDup (xs2 ++ [h])).
    { apply NoDup_cons in Hnd as [Hh Hnd]. apply NoDup_app in Hnd as (_ & _ & Hnd). apply NoDup_app. split; [done|].
      split; [|apply NoDup_singleton]. intros x Hx ->%list_elem_of_singleton. apply Hh, elem_of_app. by right. }
    rewrite E2 in Hr. by apply NoDup_cons in Hr as [? _].
Qed.

(** Inserting [el] at a place. *)
Lemma insert_between m h xs1 xs2 el p n :
  is_list m h (xs1 ++ xs2) -> el ∉ h :: xs1 ++ xs2 -> allocated m el ->
  List.last (h :: xs1) 0 = p -> List.hd 0 (xs2 ++ [h]) = n ->
  exists m', list_add_between m el p n = Some m' /\ is_list m' h (xs1 ++ el :: xs2) /\
    (forall a, allocated m' a <-> allocated m a).
Proof.
  intros Hl Hel Ael Hlast Hhd. destruct (at_place _ _ _ _ Hl) as (l1 & p' & n' & l2 & E1 & E2 & L1 & L2 & Hpn & Hnp & P1 & N1 & P2 & N2).
  rewrite E1, List.last_last in Hlast. rewrite E2 in Hhd. simpl in Hhd. subst p' n'.
  assert (Hin : forall x, x ∈ l1 ++ [p] \/ x ∈ n :: l2 -> el <> x).
  { intros x Hx <-. apply Hel. rewrite <- E1, <- E2 in Hx. rewrite !elem_of_cons, !elem_of_app, list_elem_of_singleton in *. tauto. }
  assert (el <> p) by (apply Hin; left; apply elem_of_app; right; by left).
  assert (el <> n) by (apply Hin; right; by left).
  destruct (list_add_between_spec m el p n) as (m' & E & Hn & Hp & Ha);
    [done|done|done|by eapply nxt_allocated|by eapply prv_allocated|].
  exists m'. split; [done|]. split; [|done]. split.
  - destruct Hl as [Hnd _]. rewrite app_comm_cons in *. apply NoDup_app in Hnd as (H1 & H2 & H3). apply NoDup_app.
    split; [done|]. split; [|apply NoDup_cons; split; [|done]; intros ?; apply Hel, elem_of_app; by right].
    intros x Hx [->|Hx']%elem_of_cons; [apply Hel, elem_of_app; by left|by apply (H2 x)].
  - replace (h :: (xs1 ++ el :: xs2) ++ [h]) with (l1 ++ p :: el :: n :: l2).
    2:{ rewrite <- app_assoc, app_comm_cons, E1. cbn [app]. rewrite E2, <- app_assoc. done. }
    assert (L2' : links m' (n :: l2)).
    { apply (links_ext m); [done| |].
      * intros x Hx. rewrite Hn. destruct (Z.eqb_spec x el) as [->|].
        { destruct (Hin el); [right; rewrite <- E2, removelast_snoc in *; apply elem_of_app; by left|done]. }
        destruct (Z.eqb_spec x p) as [->|]; [done|done].
      * intros x Hx. rewrite Hp. destruct (Z.eqb_spec x el) as [->|]; [destruct (Hin el); [right; by right|done]|].
        destruct (Z.eqb_spec x n) as [->|]; [done|done]. }
    apply links_app. split.
    + destruct l1 as [|a l1]; [done|]. cbn [app] in *. injection E1 as <- E1. apply (links_ext m); [done| |].
      * rewrite app_comm_cons, removelast_snoc. intros x Hx. rewrite Hn.
        destruct (Z.eqb_spec x el) as [->|]; [destruct (Hin el); [left; rewrite app_comm_cons; apply elem_of_app; by left|done]|].
        destruct (Z.eqb_spec x p) as [->|]; [done|done].
      * rewrite <- E1. intros x Hx. rewrite Hp.
        destruct (Z.eqb_spec x el) as [->|]; [destruct (Hin el); [left; rewrite <- E1; by right|done]|].
        destruct (Z.eqb_spec x n) as [->|]; [done|done].
    + split; [|split; [|split; [|split; [|exact L2']]]].
      * rewrite Hn, Z.eqb_refl. by destruct (Z.eqb_spec p el); [congruence|].
      * by rewrite Hp, Z.eqb_refl.
      * by rewrite Hn, Z.eqb_refl.
      * rewrite Hp, Z.eqb_refl. by destruct (Z.eqb_spec n el); [congruence|].
Qed.

(** Removing the node [el]. *)
Lemma list_del_spec m el p n :
  nxt m el = Some n -> prv m el = Some p -> el <> p -> el <> n -> allocated m p -> allocated m n ->
  exists m', list_del m el = Some m' /\
    (forall a, nxt m' a = if a =? el then Some NULL else if a =? p then Some n else nxt m a) /\
    (forall a, prv m' a = if a =? el then Some NULL else if a =? n then Some p else prv m a) /\
    (forall a, allocated m' a <-> allocated m a).
Proof.
  intros Hn Hp Hep Hen Ap An. pose proof (nxt_allocated _ _ _ Hn) as Ael. unfold list_del. unfold nxt in Hn. unfold prv in Hp.
  destruct (m !! el) as [[p0 n0]|] eqn:Hel; [|done]. simpl in Hn, Hp. injection Hn as ->. injection Hp as ->.
  cbn [mbind option_bind prev next]. store ltac:(done). store ltac:(by apply Ha). store ltac:(by apply Ha0, Ha).
  destruct (set_next_spec m2 el NULL) as (m3 & E2 & Hf2 & Hk2 & Ha2); [by apply Ha1, Ha0, Ha|].
  exists m3. split; [done|]. split_and!; intros a.
  - rewrite Hf2, Hk1, Hk0, Hf. done.
  - rewrite Hk2, Hf1, Hf0, Hk. done.
  - rewrite Ha2, Ha1, Ha0, Ha. done.
Qed.

Lemma remove_node m h xs1 xs2 el :
  is_list m h (xs1 ++ el :: xs2) ->
  exists m', list_del m el = Some m' /\ is_list m' h (xs1 ++ xs2) /\
    nxt m' el = Some NULL /\ prv m' el = Some NULL /\ (forall a, allocated m' a <-> allocated m a).
Proof.
  intros Hl. destruct (at_place _ _ _ _ Hl) as (l1 & p & n' & l2' & E1 & E2' & L1 & L2 & Hpe & Hep & P1 & N1 & P2 & N2).
  cbn [app] in E2'. injection E2' as <- <-. rewrite app_comm_cons, removelast_snoc in P2.
  assert (Hl' : is_list m h ((xs1 ++ [el]) ++ xs2)) by (by rewrite <- app_assoc).
  destruct (at_place _ _ _ _ Hl') as (l1'' & p'' & n & l2 & E1'' & E2 & _ & L3 & Hen & Hne & _ & N3 & _ & N4).
  assert (p'' = el) as ->. { rewrite app_comm_cons in E1''. by apply app_inj_tail in E1'' as [_ ->]. }
  assert (Hin : forall x, x ∈ l1 ++ [p] \/ x ∈ n :: l2 -> el <> x).
  { intros x Hx <-. rewrite <- E1, <- E2 in Hx. destruct Hx as [[->|Hx]%elem_of_cons|Hx]; [|done|done].
    destruct Hl as [Hnd _]. apply NoDup_cons in Hnd as [Hh _]. apply Hh, elem_of_app. right. by left. }
  assert (el <> p) by (apply Hin; left; apply elem_of_app; right; by left).
  assert (el <> n) by (apply Hin; right; by left).
  destruct (list_del_spec m el p n Hen Hep) as (m' & E & Hn & Hp & Ha);
    [done|done|by eapply nxt_allocated|by eapply prv_allocated|].
  exists m'. split; [done|]. split; [|rewrite Hn, Hp, !Z.eqb_refl; done]. split.
  - destruct Hl as [Hnd _]. rewrite app_comm_cons in *. apply NoDup_app in Hnd as (H1 & H2 & [H3 H4]%NoDup_cons).
    apply NoDup_app. split; [done|]. split; [|done]. intros x Hx Hx'. apply (H2 x Hx). by right.
  - replace (h :: (xs1 ++ xs2) ++ [h]) with (l1 ++ p :: n :: l2)
      by (rewrite <- app_assoc, E2, (app_comm_cons xs1 (n :: l2) h), E1, <- app_assoc; done).
    apply links_app. split.
    + destruct l1 as [|a l1]; [done|]. cbn [app] in *. injection E1 as <- E1. apply (links_ext m); [done| |].
      * rewrite app_comm_cons, removelast_snoc. intros x Hx. rewrite Hn.
        destruct (Z.eqb_spec x el) as [->|]; [destruct (Hin el); [left; rewrite app_comm_cons; apply elem_of_app; by left|done]|].
        destruct (Z.eqb_spec x p) as [->|]; [done|done].
      * rewrite <- E1. intros x Hx. rewrite Hp. destruct (Z.eqb_spec x el) as [->|]; [done|].
        destruct (Z.eqb_spec x n) as [->|]; [|done]. destruct N3. apply elem_of_app. by left.
    + split; [|split].
      * rewrite Hn, Z.eqb_refl. by destruct (Z.eqb_spec p el); [congruence|].
      * rewrite Hp, Z.eqb_refl. by destruct (Z.eqb_spec n el); [congruence|].
      * apply (links_ext m); [done| |].
        { rewrite <- E2, removelast_snoc. intros x Hx. rewrite Hn. destruct (Z.eqb_spec x el) as [->|].
          - destruct N2. apply elem_of_app. by left.
          - destruct (Z.eqb_spec x p) as [->|]; [|done]. destruct P2. by right. }
        intros x Hx. rewrite Hp. destruct (Z.eqb_spec x el) as [->|]; [destruct (Hin el); [right; by right|done]|].
        destruct (Z.eqb_spec x n) as [->|]; [done|done].
Qed.

(** ** Traversal *)

Lemma for_each_links m h xs fuel x :
  links m (x :: xs ++ [h]) -> h ∉ x :: xs -> (S (length xs) < fuel)%nat ->
  list_for_each_from fuel next m x h = Some (x :: xs).
Proof.
  revert fuel x. induction xs as [|y xs IH]; intros fuel x Hl Hh Hf;
    (destruct fuel as [|fuel]; [simpl in Hf; lia|]); cbn [list_for_each_from];
    (destruct (Z.eqb_spec x h) as [->|]; [destruct Hh; by left|]); destruct Hl as (Hn & _ & Hl); unfold nxt in Hn;
    (destruct (m !! x) as [nd|]; [|done]); simpl in Hn; injection Hn as Hn; cbn [mbind option_bind]; rewrite Hn.
  - destruct fuel as [|fuel]; [simpl in Hf; lia|]. cbn [list_for_each_from]. by rewrite Z.eqb_refl.
  - rewrite IH; [done|done| |simpl in Hf; lia]. intros Hx. apply Hh. by right.
Qed.

Lemma for_each_prev_links m h xs fuel x :
  links m (h :: xs ++ [x]) -> h ∉ xs ++ [x] -> (S (length xs) < fuel)%nat ->
  list_for_each_from fuel prev m x h = Some (x :: rev xs).
Proof.
  revert fuel x. induction xs as [|y xs IH] using rev_ind; intros fuel x Hl Hh Hf;
    (destruct fuel as [|fuel]; [rewrite ?length_app in Hf; simpl in Hf; lia|]); cbn [list_for_each_from];
    (destruct (Z.eqb_spec x h) as [->|]; [destruct Hh; apply elem_of_app; right; by left|]).
  - destruct Hl as (_ & Hp & _). unfold prv in Hp. destruct (m !! x) as [nd|]; [|done]. simpl in Hp. injection Hp as Hp.
    cbn [mbind option_bind]. rewrite Hp. destruct fuel as [|fuel]; [simpl in Hf; lia|]. cbn [list_for_each_from].
    by rewrite Z.eqb_refl.
  - assert (Hl' : links m ((h :: xs) ++ y :: [x])) by (by rewrite <- app_assoc in Hl).
    apply links_app in Hl' as [Hl1 (_ & Hp & _)]. unfold prv in Hp. destruct (m !! x) as [nd|]; [|done]. simpl in Hp.
    injection Hp as Hp. cbn [mbind option_bind]. rewrite Hp, rev_app_distr. rewrite IH; [done|done| |].
    + intros Hx. apply Hh. apply elem_of_app. by left.
    + rewrite length_app in Hf. simpl in Hf. lia.
Qed.

Lemma head_next m h xs : is_list m h xs -> nxt m h = Some (List.hd 0 (xs ++ [h])).
Proof. intros [_ Hl]. destruct (xs ++ [h]) as [|n l] eqn:E; [by destruct xs|]. by destruct Hl. Qed.

Lemma head_prev m h xs : is_list m h xs -> exists l p, h :: xs = l ++ [p] /\ prv m h = Some p.
Proof.
  intros Hl. rewrite <- (app_nil_r xs) in Hl.
  destruct (at_place _ _ _ _ Hl) as (l1 & p & n & l2 & E1 & E2 & _ & _ & _ & Hnp & _). injection E2 as <- _. eauto.
Qed.

(** ** Claims *)

(** [list_add] and [list_add_tail] insert a node at the front and at the back.  On
    a well-formed list and an allocated node outside it, both succeed, the list is again
    well formed with the node at the right end and the others in place, and no memory is
    created or lost. *)
Theorem list_add_refines m h xs el :
  is_list m h xs -> el ∉ h :: xs -> allocated m el ->
  (exists m', list_add m el h = Some m' /\ is_list m' h (el :: xs) /\ (forall a, allocated m' a <-> allocated m a)) /\
  (exists m', list_add_tail m el h = Some m' /\ is_list m' h (xs ++ [el]) /\ (forall a, allocated m' a <-> allocated m a)).
Proof.
  intros Hl Hel Ael. split.
  - pose proof (head_next _ _ _ Hl) as Hn. unfold list_add, nxt in *. destruct (m !! h) as [nd|]; [|done].
    cbn [mbind option_bind]. simpl in Hn. injection Hn as ->. by apply (insert_between m h [] xs el).
  - destruct (head_prev _ _ _ Hl) as (l & p & E & Hp). unfold list_add_tail, prv in *. destruct (m !! h) as [nd|]; [|done].
    cbn [mbind option_bind]. cbn [fmap option_fmap option_map] in Hp. injection Hp as ->.
    apply (insert_between m h xs [] el); rewrite ?app_nil_r; try done. rewrite E. apply List.last_last.
Qed.

(** C39: [list_del] unlinks a node wherever it is in the list: the other nodes keep
    their order, and the pointers of the node are [NULL]. *)
Theorem list_del_refines m h xs1 xs2 el :
  is_list m h (xs1 ++ el :: xs2) ->
  exists m', list_del m el = Some m' /\ is_list m' h (xs1 ++ xs2) /\
    nxt m' el = Some NULL /\ prv m' el = Some NULL /\ (forall a, allocated m' a <-> allocated m a).
Proof. apply remove_node. Qed.

(** the traversals end and visit every node once: [list_for_each] in the order of
    the list, [list_for_each_prev] in the opposite order, and [list_empty] tells whether
    there is one. *)
Theorem list_for_each_visits m h xs fuel :
  is_list m h xs -> (S (length xs) < fuel)%nat ->
  list_for_each fuel m h = Some xs /\ list_for_each_prev fuel m h = Some (rev xs) /\
  list_empty m h = Some (bool_decide (xs = [])).
Proof.
  intros Hl Hf. pose proof (head_next _ _ _ Hl) as Hn. destruct (head_prev _ _ _ Hl) as (l1 & p & E & Hp).
  destruct Hl as [[Hh Hnd]%NoDup_cons Hl]. unfold list_for_each, list_for_each_prev, list_empty, nxt, prv in *.
  destruct (m !! h) as [nd|] eqn:Em; [|done]. cbn [fmap option_fmap option_map mbind option_bind] in *.
  injection Hn as Hn. injection Hp as Hp. rewrite Hn, Hp. split_and!.
  - destruct xs as [|x xs]; cbn [app List.hd].
    + destruct fuel as [|fuel]; [lia|]. cbn [list_for_each_from]. by rewrite Z.eqb_refl.
    + apply for_each_links; [by destruct Hl as (_ & _ & Hl)|done|simpl in Hf; lia].
  - destruct l1 as [|a l1]; cbn [app] in E; injection E as -> E.
    + subst xs. destruct fuel as [|fuel]; [lia|]. cbn [list_for_each_from]. by rewrite Z.eqb_refl.
    + subst xs. rewrite rev_app_distr. cbn [rev app]. apply for_each_prev_links; [|done|rewrite length_app in Hf; simpl in Hf; lia].
      rewrite <- app_assoc in Hl. change (a :: l1 ++ [p] ++ [a]) with ((a :: l1) ++ p :: [a]) in Hl.
      by apply links_app in Hl as [Hl _].
  - destruct xs as [|x xs]; cbn [app List.hd]; [by rewrite Z.eqb_refl|]. rewrite bool_decide_false by done.
    destruct (Z.eqb_spec x h) as [->|]; [destruct Hh; by left|done].
Qed.

(** ** Concrete lists *)

(** A head at 8 with the nodes 16 and 24, and a free node at 32. *)
Definition list_example : memory :=
  <[8 := {| prev := 24; next := 16 |}]> (<[16 := {| prev := 8; next := 24 |}]>
    (<[24 := {| prev := 16; next := 8 |}]> (<[32 := {| prev := 0; next := 0 |}]> ∅))).

Lemma list_example_ok : is_list list_example 8 [16; 24].
Proof. split; [repeat constructor; set_solver|vm_compute; tauto]. Qed.

Lemma list_add_refines_witness :
  (exists m', list_add list_example 32 8 = Some m' /\ is_list m' 8 [32; 16; 24] /\
     (forall a, allocated m' a <-> allocated list_example a)) /\
  (exists m', list_add_tail list_example 32 8 = Some m' /\ is_list m' 8 [16; 24; 32] /\
     (forall a, allocated m' a <-> allocated list_example a)).
Proof.
  apply (list_add_refines list_example 8 [16; 24] 32); [apply list_example_ok|set_solver|].
  exists {| prev := 0; next := 0 |}. reflexivity.
Defined.

Lemma list_del_refines_witness :
  exists m', list_del list_example 16 = Some m' /\ is_list m' 8 [24] /\
    nxt m' 16 = Some NULL /\ prv m' 16 = Some NULL /\ (forall a, allocated m' a <-> allocated list_example a).
Proof. apply (list_del_refines list_example 8 [] [24] 16). apply list_example_ok. Defined.

Lemma list_for_each_visits_witness :
  list_for_each 4 list_example 8 = Some [16; 24] /\ list_for_each_prev 4 list_example 8 = Some [24; 16] /\
  list_empty list_example 8 = Some false.
Proof. apply (list_for_each_visits list_example 8 [16; 24] 4); [apply list_example_ok|simpl; lia]. Defined.
