(* ===== verification/Args.v ===== *)
(** The command line of the runtime, [ptklargs.c].

    An argument is the list of its bytes, without the terminating NUL; [argv] has
    [argc] of them.  The functions that print and call [exit] end the run with the exit
    code.  [strtod] of the C library, as converted to [size_t], is a parameter.  The
    counters are [int]s in the code, which fewer than 2^31 option letters cannot
    overflow; here they are unbounded. *)

From S2P Require Import Prelude CString.

Record runtime_opts := {
  expr : option (list Z);
  interactive : Z;
  dump_memory : Z;
  trace_memory : Z;
  empty_run : Z;
  module_ : Z;
  load_std : Z;
  dump_unhandled_promise_rejection : Z;
  memory_limit : Z;
  include_list : list (option (list Z));
  include_count : Z;
  stack_size : Z;
  bignum_ext : Z
}.

(** The result of [parse_runtime_args]: [optind] and the options, or an exit. *)
Inductive args_result :=
  | Parsed (optind : Z) (opts : runtime_opts)
  | Exit (code : Z).

(** One iteration of the option loop: go on, leave the loop, or exit. *)
Inductive opt_result :=
  | OptNext (optind : Z) (opts : runtime_opts)
  | OptBreak (optind : Z) (opts : runtime_opts)
  | OptExit (code : Z).

Definition help (exit_code : Z) : opt_result := OptExit exit_code.
Definition version : opt_result := OptExit 0.

(** The initial options; [include_list] is not initialised by the code. *)
Definition init_opts (include_list : list (option (list Z))) : runtime_opts :=
  {| expr := None; interactive := 0; dump_memory := 0; trace_memory := 0; empty_run := 0;
     module_ := -1; load_std := 1; dump_unhandled_promise_rejection := 0; memory_limit := 0;
     include_list := include_list; include_count := 0; stack_size := 0; bignum_ext := 0 |}.

Definition INCLUDE_MAX : Z := 32.

Section Args.
Context (strtod : list Z -> Z) (argv : list (list Z)).

Abbreviation argc := (zlen argv).

(** The body of the [for] loop: [opt] is 0 for a long option, [arg] is what follows
    the letter. *)
Definition parse_opt (opt : Z) (longopt arg : list Z) (optind : Z) (o : runtime_opts) : outcome opt_result :=
  let isopt (c : Z) (name : list Z) := (opt =? c) || bool_decide (longopt = name) in
  let long (name : list Z) := bool_decide (longopt = name) in
  let upd ex dm tm er mo ls du ml il ic ss bi :=
    {| expr := ex; interactive := interactive o; dump_memory := dm; trace_memory := tm; empty_run := er;
       module_ := mo; load_std := ls; dump_unhandled_promise_rejection := du; memory_limit := ml;
       include_list := il; include_count := ic; stack_size := ss; bignum_ext := bi |} in
  let '(Build_runtime_opts ex _ dm tm er mo ls du ml il ic ss bi) := o in
  if (opt =? ch "h") || (opt =? ch "?") || long (str "help") then Ok (help 0)
  else if isopt (ch "e") (str "eval") then
    match arg with
    | _ :: _ => Ok (OptBreak optind (upd (Some arg) dm tm er mo ls du ml il ic ss bi))
    | [] =>
        if optind <? argc then
          a ← of_opt (zget argv optind);
          Ok (OptBreak (optind + 1) (upd (Some a) dm tm er mo ls du ml il ic ss bi))
        else Ok (OptExit 1)
    end
  else if isopt (ch "I") (str "include") then
    if argc <=? optind then Ok (OptExit 1)
    else if INCLUDE_MAX <=? ic then Ok (OptExit 1)
    else
      a ← of_opt (zget argv optind);
      il ← of_opt (zset il ic (Some a));
      Ok (OptNext (optind + 1) (upd ex dm tm er mo ls du ml il (ic + 1) ss bi))
  else if isopt (ch "m") (str "module") then Ok (OptNext optind (upd ex dm tm er 1 ls du ml il ic ss bi))
  else if long (str "script") then Ok (OptNext optind (upd ex dm tm er 0 ls du ml il ic ss bi))
  else if isopt (ch "d") (str "dump") then Ok (OptNext optind (upd ex (dm + 1) tm er mo ls du ml il ic ss bi))
  else if isopt (ch "T") (str "trace") then Ok (OptNext optind (upd ex dm (tm + 1) er mo ls du ml il ic ss bi))
  else if long (str "std") then Ok (OptNext optind (upd ex dm tm er mo 1 du ml il ic ss bi))
  else if long (str "unhandled-rejection") then Ok (OptNext optind (upd ex dm tm er mo ls 1 ml il ic ss bi))
  else if long (str "bignum") then Ok (OptNext optind (upd ex dm tm er mo ls du ml il ic ss 1))
  else if isopt (ch "q") (str "quit") then Ok (OptNext optind (upd ex dm tm (er + 1) mo ls du ml il ic ss bi))
  else if long (str "memory-limit") then
    if argc <=? optind then Ok (OptExit 1)
    else a ← of_opt (zget argv optind);
         Ok (OptNext (optind + 1) (upd ex dm tm er mo ls du (strtod a) il ic ss bi))
  else if long (str "stack-size") then
    if argc <=? optind then Ok (OptExit 1)
    else a ← of_opt (zget argv optind);
         Ok (OptNext (optind + 1) (upd ex dm tm er mo ls du ml il ic (strtod a) bi))
  else if isopt (ch "v") (str "version") then Ok version
  else Ok (help 1).

(** The [for] loop over the letters of [arg]. *)
Fixpoint parse_letters (arg : list Z) (optind : Z) (o : runtime_opts) : outcome opt_result :=
  match arg with
  | [] => Ok (OptNext optind o)
  | opt :: arg' =>
      r ← parse_opt opt [] arg' optind o;
      match r with
      | OptNext optind o => parse_letters arg' optind o
      | _ => Ok r
      end
  end.

(** The [while] loop over the arguments. *)
Fixpoint parse_loop (fuel : nat) (optind : Z) (o : runtime_opts) : outcome args_result :=
  match fuel with
  | O => Timeout
  | S fuel' =>
      if optind <? argc then
        a ← of_opt (zget argv optind);
        match a with
        | c :: arg =>
            if c =? ch "-" then
              match arg with
              | [] => Ok (Parsed optind o)
              | d :: longopt =>
                  if d =? ch "-" then
                    match longopt with
                    | [] => Ok (Parsed (optind + 1) o)
                    | _ =>
                        r ← parse_opt 0 longopt [] (optind + 1) o;
                        match r with
                        | OptNext optind o | OptBreak optind o => parse_loop fuel' optind o
                        | OptExit code => Ok (Exit code)
                        end
                    end
                  else
                    r ← parse_letters arg (optind + 1) o;
                    match r with
                    | OptNext optind o | OptBreak optind o => parse_loop fuel' optind o
                    | OptExit code => Ok (Exit code)
                    end
              end
            else Ok (Parsed optind o)
        | [] => Ok (Parsed optind o)
        end
      else Ok (Parsed optind o)
  end.

Definition parse_runtime_args (include_list : list (option (list Z))) : outcome args_result :=
  parse_loop (S (length argv)) 1 (init_opts include_list).
End Args.

(** ** The invariant: the includes read so far are arguments, in a table of 32. *)
Definition opts_ok (argv : list (list Z)) (o : runtime_opts) : Prop :=
  zlen (include_list o) = INCLUDE_MAX /\ 0 <= include_count o <= INCLUDE_MAX /\
  forall i, 0 <= i < include_count o -> exists a, zget (include_list o) i = Some (Some a) /\ a ∈ argv.

Definition opt_result_ok (argv : list (list Z)) (optind : Z) (r : opt_result) : Prop :=
  match r with
  | OptNext i o | OptBreak i o => optind <= i <= zlen argv /\ opts_ok argv o
  | OptExit code => code = 0 \/ code = 1
  end.

Definition args_result_ok (argv : list (list Z)) (r : args_result) : Prop :=
  match r with
  | Parsed i o => 1 <= i <= Z.max 1 (zlen argv) /\ opts_ok argv o
  | Exit code => code = 0 \/ code = 1
  end.

(** The places where scanning may stop. *)
Definition scan_stops (argv : list (list Z)) (i : Z) : Prop :=
  zlen argv <= i \/
  (exists a, zget argv i = Some a /\ (head a <> Some (ch "-") \/ a = str "-")) \/
  zget argv (i - 1) = Some (str "--").

Lemma of_opt_zget {A} (l : list A) i :
  0 <= i < zlen l -> exists a, of_opt (zget l i) = Ok a /\ a ∈ l.
Proof.
  intros [a Ha]%zget_in_range. exists a. rewrite Ha. split; [done|].
  pose proof (zget_Some_range _ _ _ Ha). rewrite zget_lookup in Ha by lia.
  by eapply list_elem_of_lookup_2.
Qed.

Lemma include_ok argv o a :
  opts_ok argv o -> include_count o < INCLUDE_MAX -> a ∈ argv ->
  exists il, of_opt (zset (include_list o) (include_count o) (Some a)) = Ok il /\
    zlen il = INCLUDE_MAX /\
    forall i, 0 <= i < include_count o + 1 -> exists b, zget il i = Some (Some b) /\ b ∈ argv.
Proof.
  intros (Hl & Hc & Hi) Hlt Ha.
  assert (Hz := zset_in_range (include_list o) (include_count o) (Some a) ltac:(lia)).
  eexists. rewrite Hz. split; [done|]. split; [by rewrite (zlen_zset _ _ _ _ Hz)|].
  intros i Hr. rewrite (zget_zset _ _ _ _ _ Hz). bool_cases; [by exists a|]. apply Hi. lia.
Qed.

Lemma init_opts_ok argv include_list : zlen include_list = INCLUDE_MAX -> opts_ok argv (init_opts include_list).
Proof. unfold opts_ok, INCLUDE_MAX; cbn. auto with lia. Qed.

(** Walks down the chain of option tests. *)
Ltac opt_cases :=
  repeat match goal with
  | |- context [if ?b then _ else _] =>
      lazymatch b with context [if _ then _ else _] => fail | _ => destruct b eqn:? end
  end.

(** Closes a branch that returns options with an unchanged or extended include table. *)
Ltac opt_result :=
  eexists; split; [reflexivity|]; unfold opt_result_ok, opts_ok; cbn; auto 6 with lia.

Lemma parse_opt_ok strtod argv opt longopt arg optind o :
  opts_ok argv o -> 0 <= optind <= zlen argv ->
  exists r, parse_opt strtod argv opt longopt arg optind o = Ok r /\ opt_result_ok argv optind r.
Proof.
  intros Ho Hi. pose proof Ho as (Hl & Hc & Hin). unfold parse_opt.
  destruct o as [ex it dm tm er mo ls du ml il ic ss bi]; cbn in *.
  assert (Harg : optind < zlen argv -> exists a, of_opt (zget argv optind) = Ok a /\ a ∈ argv)
    by (intros; apply of_opt_zget; lia).
  opt_cases; bool_props; try destruct arg; try solve [opt_result];
    (destruct Harg as (a & -> & Ha); [lia|]); try solve [opt_result];
    destruct (include_ok _ _ _ Ho ltac:(cbn; lia) Ha) as (il' & Hz & ? & ?); cbn in Hz |- *; rewrite Hz;
    opt_result.
Qed.

Lemma parse_letters_ok strtod argv arg optind o :
  opts_ok argv o -> 0 <= optind <= zlen argv ->
  exists r, parse_letters strtod argv arg optind o = Ok r /\ opt_result_ok argv optind r.
Proof.
  revert optind o. induction arg as [|c arg IH]; intros optind o Ho Hi.
  { eexists; split; [done|]. cbn; auto with lia. }
  cbn [parse_letters]. destruct (parse_opt_ok strtod argv c [] arg optind o Ho Hi) as (r & -> & Hr). cbn.
  destruct r as [i o'|i o'|code]; [|by eexists..].
  destruct Hr as [Hi' Ho']. destruct (IH i o' Ho' ltac:(lia)) as (r & -> & Hr).
  exists r. split; [done|]. destruct r; cbn in *; auto; destruct Hr; auto with lia.
Qed.

Lemma head_dash (a : list Z) c : head (c :: a) = Some (ch "-") <-> c = ch "-".
Proof. cbn. split; [by intros [= ->]|by intros ->]. Qed.

Lemma parse_loop_ok strtod argv fuel optind o :
  opts_ok argv o -> 1 <= optind <= zlen argv \/ optind = 1 ->
  Z.max 0 (zlen argv - optind) < Z.of_nat fuel ->
  exists r, parse_loop strtod argv fuel optind o = Ok r /\ args_result_ok argv r /\
    match r with Parsed i _ => scan_stops argv i | Exit _ => True end.
Proof.
  revert optind o. induction fuel as [|fuel IH]; intros optind o Ho Hi Hf.
  { exfalso. lia. }
  cbn [parse_loop]. destruct (Z.ltb_spec optind (zlen argv)).
  2:{ eexists; split; [done|]. cbn. unfold scan_stops. split_and!; auto with lia. }
  destruct (zget_in_range argv optind ltac:(lia)) as [a Ha]. rewrite Ha. cbn.
  assert (Hstop : forall a', a' = a -> head a' <> Some (ch "-") \/ a' = str "-" -> scan_stops argv optind).
  { intros ? -> Hs. right. left. by exists a. }
  destruct a as [|c arg].
  { eexists; split; [done|]. cbn. split_and!; auto with lia. eapply Hstop; [done|]. by left. }
  destruct (Z.eqb_spec c (ch "-")) as [->|Hc].
  2:{ eexists; split; [done|]. cbn. split_and!; auto with lia. eapply Hstop; [done|]. left. by rewrite head_dash. }
  assert (Hnext : forall r, opt_result_ok argv (optind + 1) r -> exists r',
    match r with
    | OptNext i o | OptBreak i o => parse_loop strtod argv fuel i o
    | OptExit code => Ok (Exit code)
    end = Ok r' /\ args_result_ok argv r' /\ match r' with Parsed i _ => scan_stops argv i | Exit _ => True end).
  { intros r Hr. destruct r as [i o'|i o'|code]; cbn in Hr; [destruct Hr; apply IH; auto with lia..|by eexists]. }
  destruct arg as [|d longopt].
  { eexists; split; [done|]. cbn. split_and!; auto with lia. eapply Hstop; [done|]. by right. }
  destruct (Z.eqb_spec d (ch "-")) as [->|Hd].
  - destruct longopt as [|e longopt].
    { eexists; split; [done|]. cbn. split_and!; auto with lia. do 2 right. by rewrite Z.add_simpl_r. }
    destruct (parse_opt_ok strtod argv 0 (e :: longopt) [] (optind + 1) o Ho ltac:(lia)) as (r & -> & Hr).
    cbn. by apply Hnext.
  - destruct (parse_letters_ok strtod argv (d :: longopt) (optind + 1) o Ho ltac:(lia)) as (r & Hr & Hok).
    rewrite Hr. cbn. by apply Hnext.
Qed.

(** ** What the parse depends on: the arguments up to the one where it stopped. *)
Definition goes_on (r : opt_result) (i : Z) : Prop :=
  match r with OptNext j _ | OptBreak j _ => j = i | OptExit _ => False end.

(** Walks down both runs of an option test; [Hp] is the run that went on. *)
Ltac opt_runs Hp :=
  revert Hp; opt_cases; bool_props; intros Hp;
  repeat match type of Hp with
  | context [of_opt ?x] => destruct x eqn:?; [cbn in Hp|done]
  end.

Lemma parse_opt_mono strtod argv opt longopt arg optind o r i :
  parse_opt strtod argv opt longopt arg optind o = Ok r -> goes_on r i -> optind <= i.
Proof.
  intros Hp Hr. unfold parse_opt in Hp. destruct o as [ex it dm tm er mo ls du ml il ic ss bi].
  opt_runs Hp; try destruct arg; try (destruct (zget argv optind); [cbn in Hp|done]);
    injection Hp as <-; cbn in Hr; done || lia.
Qed.

Lemma parse_letters_mono strtod argv arg optind o r i :
  parse_letters strtod argv arg optind o = Ok r -> goes_on r i -> optind <= i.
Proof.
  revert optind o. induction arg as [|c arg IH]; intros optind o Hp Hr; cbn [parse_letters] in *.
  { injection Hp as <-. cbn in Hr. lia. }
  destruct (parse_opt strtod argv c [] arg optind o) as [r1| |] eqn:Hp1; [|done..]. cbn in Hp.
  destruct r1 as [i1 o1|i1 o1|code].
  - pose proof (parse_opt_mono _ _ _ _ _ _ _ _ i1 Hp1 eq_refl). pose proof (IH _ _ Hp Hr). lia.
  - injection Hp as <-. by apply (parse_opt_mono _ _ _ _ _ _ _ _ _ Hp1).
  - by injection Hp as <-.
Qed.

Lemma parse_loop_mono strtod argv fuel optind o k o' :
  parse_loop strtod argv fuel optind o = Ok (Parsed k o') -> optind <= k.
Proof.
  revert optind o. induction fuel as [|fuel IH]; intros optind o Hp; [done|]. cbn [parse_loop] in Hp.
  destruct (optind <? zlen argv); [|injection Hp; lia].
  destruct (zget argv optind) as [a|]; [cbn in Hp|done].
  destruct a as [|c [|d longopt]]; [injection Hp; lia|destruct (c =? ch "-"); injection Hp; lia|].
  destruct (c =? ch "-"); [|injection Hp; lia].
  destruct (d =? ch "-"); [destruct longopt as [|e longopt]; [injection Hp; lia|]|].
  - destruct (parse_opt strtod argv _ _ _ _ _) as [[i o1|i o1|]| |] eqn:Ho; try done; cbn in Hp;
      apply IH in Hp; pose proof (parse_opt_mono _ _ _ _ _ _ _ _ i Ho eq_refl); lia.
  - destruct (parse_letters strtod argv _ _ _) as [[i o1|i o1|]| |] eqn:Ho; try done; cbn in Hp;
      apply IH in Hp; pose proof (parse_letters_mono _ _ _ _ _ _ i Ho eq_refl); lia.
Qed.

Section Prefix.
Context (strtod : list Z -> Z) (argv argv' : list (list Z)) (k : Z).
Context (Hagree : forall i, 0 <= i <= k -> zget argv' i = zget argv i) (Hlen : k < zlen argv').

Lemma parse_opt_prefix opt longopt arg optind o r i :
  0 <= optind -> parse_opt strtod argv opt longopt arg optind o = Ok r -> goes_on r i -> i <= k ->
  parse_opt strtod argv' opt longopt arg optind o = Ok r.
Proof.
  intros H0 Hp Hr Hi. unfold parse_opt in *. destruct o as [ex it dm tm er mo ls du ml il ic ss bi].
  opt_runs Hp; try destruct arg; try (destruct (zget argv optind) eqn:Hz; [cbn in Hp|done]);
    injection Hp as <-; cbn in Hr; try done; try lia; rewrite Hagree by lia;
    repeat match goal with H : _ = Some _ |- _ => rewrite H; cbn end; simplify_eq; done.
Qed.

Lemma parse_letters_prefix arg optind o r i :
  0 <= optind -> parse_letters strtod argv arg optind o = Ok r -> goes_on r i -> i <= k ->
  parse_letters strtod argv' arg optind o = Ok r.
Proof.
  revert optind o. induction arg as [|c arg IH]; intros optind o H0 Hp Hr Hi; cbn [parse_letters] in *.
  { done. }
  destruct (parse_opt strtod argv c [] arg optind o) as [r1| |] eqn:Hp1; [|done..]. cbn in Hp.
  destruct r1 as [i1 o1|i1 o1|code].
  - pose proof (parse_letters_mono _ _ _ _ _ _ _ Hp Hr).
    pose proof (parse_opt_mono _ _ _ _ _ _ _ _ i1 Hp1 eq_refl).
    rewrite (parse_opt_prefix _ _ _ _ _ _ i1 H0 Hp1 eq_refl) by lia. apply IH; auto with lia.
  - injection Hp as <-. by rewrite (parse_opt_prefix _ _ _ _ _ _ _ H0 Hp1 Hr Hi).
  - by injection Hp as <-.
Qed.

Lemma parse_loop_prefix fuel fuel' optind o o' :
  0 <= optind -> parse_loop strtod argv fuel optind o = Ok (Parsed k o') ->
  Z.max 0 (zlen argv' - optind) < Z.of_nat fuel' ->
  parse_loop strtod argv' fuel' optind o = Ok (Parsed k o').
Proof.
  revert fuel' optind o. induction fuel as [|fuel IH]; intros fuel' optind o H0 Hp Hf; [done|].
  pose proof (parse_loop_mono _ _ _ _ _ _ _ Hp) as Hle.
  destruct fuel' as [|fuel']; [lia|]. cbn [parse_loop] in *.
  destruct (Z.ltb_spec optind (zlen argv')); [|lia]. rewrite Hagree by lia.
  destruct (optind <? zlen argv) eqn:Hlt; bool_props.
  2:{ injection Hp as -> ->. destruct (zget_in_range argv' k ltac:(lia)) as [a Ha].
      rewrite Hagree in Ha by lia. apply zget_Some_range in Ha. lia. }
  destruct (zget argv optind) as [a|] eqn:Ha; [cbn in Hp |- *|done].
  destruct a as [|c [|d longopt]]; [done|by destruct (c =? ch "-")|].
  assert (H1 : 0 <= optind + 1) by lia.
  destruct (c =? ch "-"); [|done]. destruct (d =? ch "-"); [destruct longopt as [|e longopt]; [done|]|].
  - destruct (parse_opt strtod argv _ _ _ _ _) as [[i o1|i o1|]| |] eqn:Ho; try done; cbn in Hp;
      pose proof (parse_loop_mono _ _ _ _ _ _ _ Hp);
      pose proof (parse_opt_mono _ _ _ _ _ _ _ _ i Ho eq_refl);
      rewrite (parse_opt_prefix _ _ _ _ _ _ i H1 Ho eq_refl) by lia; apply IH; auto with lia.
  - destruct (parse_letters strtod argv _ _ _) as [[i o1|i o1|]| |] eqn:Ho; try done; cbn in Hp;
      pose proof (parse_loop_mono _ _ _ _ _ _ _ Hp);
      pose proof (parse_letters_mono _ _ _ _ _ _ i Ho eq_refl);
      rewrite (parse_letters_prefix _ _ _ _ i H1 Ho eq_refl) by lia; apply IH; auto with lia.
Qed.
End Prefix.

(** C40: with a table of 32 includes, parsing the command line always returns: it never
    reads an argument or writes a table entry out of range.  It either exits with code 0
    or 1, or gives an index between 1 and [argc] and options whose includes are
    arguments. *)
Theorem parse_runtime_args_safe strtod argv include_list :
  zlen include_list = INCLUDE_MAX ->
  exists r, parse_runtime_args strtod argv include_list = Ok r /\ args_result_ok argv r.
Proof.
  intros Hl. destruct (parse_loop_ok strtod argv (S (length argv)) 1 (init_opts include_list)) as (r & Hr & Hok & _);
    [by apply init_opts_ok|by right|unfold zlen; lia|by exists r].
Qed.

Lemma parse_runtime_args_safe_witness :
  exists r, parse_runtime_args (fun _ => 0) [str "ptkl"; str "-dI"; str "a.js"; str "b.js"] (replicate 32 None) = Ok r /\
    args_result_ok [str "ptkl"; str "-dI"; str "a.js"; str "b.js"] r.
Proof. apply parse_runtime_args_safe. vm_compute. reflexivity. Defined.

(** The scan of options stops only at the end of the arguments, at one that does not
    begin with a dash, at a single dash, or after a double dash; and the index and the
    options it gives do not depend on the arguments behind that place, which are left to
    the script. *)
Theorem parse_runtime_args_prefix strtod argv include_list k o rest :
  zlen include_list = INCLUDE_MAX ->
  parse_runtime_args strtod argv include_list = Ok (Parsed k o) ->
  scan_stops argv k /\
  (k < zlen argv ->
   parse_runtime_args strtod (take (Z.to_nat (k + 1)) argv ++ rest) include_list = Ok (Parsed k o)).
Proof.
  intros Hl Hp. unfold parse_runtime_args in *. split.
  - destruct (parse_loop_ok strtod argv (S (length argv)) 1 (init_opts include_list)) as (r & Hr & _ & Hs);
      [by apply init_opts_ok|by right|unfold zlen; lia|].
    rewrite Hp in Hr. by injection Hr as <-.
  - intros Hk. pose proof (parse_loop_mono _ _ _ _ _ _ _ Hp).
    eapply (parse_loop_prefix strtod argv); [..|lia|exact Hp|unfold zlen; lia].
    + intros i Hi. rewrite zget_app_l by (unfold zlen in *; rewrite length_take; lia). apply zget_take. lia.
    + unfold zlen in *. rewrite length_app, length_take. lia.
Qed.

Lemma parse_runtime_args_prefix_witness :
  exists o, parse_runtime_args (fun _ => 0) (take 3 [str "ptkl"; str "-d"; str "a.js"; str "-q"] ++ [str "-x"])
    (replicate 32 None) = Ok (Parsed 2 o).
Proof.
  eexists. eapply (parse_runtime_args_prefix (fun _ => 0) [str "ptkl"; str "-d"; str "a.js"; str "-q"] (replicate 32 None) 2);
    [vm_compute; reflexivity|vm_compute; reflexivity|reflexivity].
Defined.
