(* ===== verification/DynBuf.v ===== *)
(** The dynamic buffers of [cutils.c] ([DynBuf]).  A buffer is the list of the
    bytes of its allocated block, the used size, the allocated size and the sticky
    error flag; the memory allocator behind [realloc_func]/[opaque] is a parameter.
    Every operation returns the new buffer and the C return value; [None] is a
    memory access outside the allocated block (or an overlapping [memcpy]). *)

From S2P Require Import Prelude CutilsH.

(** ** The allocator *)

(** What is behind [realloc_func] and its [opaque] pointer: a state and, for a
    request of a number of elements, either failure ([NULL]) or the contents of
    the part of the new block that was not in the old one. *)
Class Allocator := {
  aopaque : Type;
  realloc_func : aopaque -> Z -> aopaque * option (nat -> Z) }.

(** [realloc]: the new block keeps the common prefix of the old one. *)
Definition realloc_block (old : list Z) (n : Z) (fill : nat -> Z) : list Z :=
  take (Z.to_nat n) old ++
  map fill (seq (length old) (Z.to_nat n - length old)).

(** An allocator that always succeeds, handing out zeroed memory. *)
Definition malloc_ok : Allocator := {| aopaque := unit; realloc_func := fun o _ => (o, Some (fun _ => 0)) |}.

(** An allocator with a limit on the size of one block. *)
Definition malloc_limit (lim : Z) : Allocator :=
  {| aopaque := unit;
     realloc_func := fun o n => (o, if n <=? lim then Some (fun _ => 0) else None) |}.

(** ** State *)

Record DynBuf `{!Allocator} := mkDynBuf {
  db_buf : list Z;
  db_size : Z;
  db_allocated_size : Z;
  db_error : bool;
  db_opaque : aopaque }.

Section DynBuf.
Context `{!Allocator}.

(** ** Operations *)

Definition dbuf_init2 (o : aopaque) : DynBuf := mkDynBuf _ [] 0 0 false o.

(** The callback is the default one, [realloc]; [o] is the state of the C heap. *)
Definition dbuf_init (o : aopaque) : DynBuf := dbuf_init2 o.

Definition dbuf_error (s : DynBuf) : bool := db_error s.
Definition dbuf_set_error (s : DynBuf) : DynBuf :=
  mkDynBuf _ (db_buf s) (db_size s) (db_allocated_size s) true (db_opaque s).

Definition dbuf_realloc (s : DynBuf) (new_size : Z) : DynBuf * Z :=
  if db_allocated_size s <? new_size then
    if db_error s then (s, -1)
    else
      let size := u64 (db_allocated_size s * 3) / 2 in
      let new_size := if new_size <? size then size else new_size in
      let '(o, r) := realloc_func (db_opaque s) new_size in
      match r with
      | None => (mkDynBuf _ (db_buf s) (db_size s) (db_allocated_size s) true o, -1)
      | Some fill =>
          (mkDynBuf _ (realloc_block (db_buf s) new_size fill) (db_size s) new_size false o, 0)
      end
  else (s, 0).

(** The assignments [s->buf = ...] and [s->size = ...]. *)
Definition set_buf (s : DynBuf) (b : list Z) : DynBuf :=
  mkDynBuf _ b (db_size s) (db_allocated_size s) (db_error s) (db_opaque s).
Definition set_size (s : DynBuf) (n : Z) : DynBuf :=
  mkDynBuf _ (db_buf s) n (db_allocated_size s) (db_error s) (db_opaque s).

Definition dbuf_write (s : DynBuf) (offset : Z) (data : list Z) : option (DynBuf * Z) :=
  let end_ := u64 (offset + zlen data) in
  let '(s, r) := dbuf_realloc s end_ in
  if r <? 0 then Some (s, -1)
  else
    b ← zsplice (db_buf s) offset data;
    let s := set_buf s b in
    Some (if db_size s <? end_ then set_size s end_ else s, 0).

Definition dbuf_put (s : DynBuf) (data : list Z) : option (DynBuf * Z) :=
  let len := zlen data in
  let '(s, r) :=
    if db_allocated_size s <? u64 (db_size s + len)
    then dbuf_realloc s (u64 (db_size s + len)) else (s, 0) in
  if r <? 0 then Some (s, -1)
  else
    b ← (if len =? 0 then Some (db_buf s) else zsplice (db_buf s) (db_size s) data);
    Some (set_size (set_buf s b) (u64 (db_size s + len)), 0).

Definition dbuf_put_self (s : DynBuf) (offset len : Z) : option (DynBuf * Z) :=
  let '(s, r) :=
    if db_allocated_size s <? u64 (db_size s + len)
    then dbuf_realloc s (u64 (db_size s + len)) else (s, 0) in
  if r <? 0 then Some (s, -1)
  else
    data ← zslice (db_buf s) offset len;
    if (offset + len <=? db_size s) || (db_size s + len <=? offset) then
      b ← zsplice (db_buf s) (db_size s) data;
      Some (set_size (set_buf s b) (u64 (db_size s + len)), 0)
    else None.

Definition dbuf_putc (s : DynBuf) (c : Z) : option (DynBuf * Z) := dbuf_put s [u8 c].

(** [str] is the C string without its terminator. *)
Definition dbuf_putstr (s : DynBuf) (str : list Z) : option (DynBuf * Z) := dbuf_put s str.

Definition dbuf_put_u16 (s : DynBuf) (val : Z) : option (DynBuf * Z) :=
  dbuf_put s (le_split 2 (u16 val)).
Definition dbuf_put_u32 (s : DynBuf) (val : Z) : option (DynBuf * Z) :=
  dbuf_put s (le_split 4 (u32 val)).
Definition dbuf_put_u64 (s : DynBuf) (val : Z) : option (DynBuf * Z) :=
  dbuf_put s (le_split 8 (u64 val)).

(** [text] is what the format and its arguments expand to; [vsnprintf] stores at
    most [n - 1] of its characters and a terminator. *)
Definition vsnprintf (b : list Z) (p n : Z) (text : list Z) : option (list Z) :=
  if n =? 0 then Some b else zsplice b p (take (Z.to_nat (n - 1)) text ++ [0]).

Definition dbuf_printf (s : DynBuf) (text : list Z) : option (DynBuf * Z) :=
  let len := zlen text in
  if len <? 128 then dbuf_put s text
  else
    let '(s, r) := dbuf_realloc s (u64 (db_size s + len + 1)) in
    if r <? 0 then Some (s, -1)
    else
      b ← vsnprintf (db_buf s) (db_size s) (db_allocated_size s - db_size s) text;
      Some (set_size (set_buf s b) (u64 (db_size s + len)), 0).

Definition dbuf_free (s : DynBuf) : DynBuf :=
  match db_buf s with
  | [] => mkDynBuf _ [] 0 0 false (db_opaque s)
  | _ => mkDynBuf _ [] 0 0 false (realloc_func (db_opaque s) 0).1
  end.

(** [dbuf_insert] of [libregexp.c]: opens a hole of [len] bytes at [pos]
    ([memmove]). *)
Definition dbuf_insert (s : DynBuf) (pos len : Z) : option (DynBuf * Z) :=
  let '(s, r) := dbuf_realloc s (u64 (db_size s + len)) in
  if r <? 0 then Some (s, -1)
  else
    tail ← zslice (db_buf s) pos (db_size s - pos);
    b ← zsplice (db_buf s) (pos + len) tail;
    Some (set_size (set_buf s b) (u64 (db_size s + len)), 0).

(** ** Invariant and abstraction *)

(** The block has the recorded size, holds bytes, and the used part is inside. *)
Record db_ok (s : DynBuf) : Prop := {
  db_ok_len : zlen (db_buf s) = db_allocated_size s;
  db_ok_size : 0 <= db_size s <= db_allocated_size s;
  db_ok_u64 : db_allocated_size s < 2 ^ 64 }.

(** What the buffer stands for: the bytes in use. *)
Definition contents (s : DynBuf) : list Z := take (Z.to_nat (db_size s)) (db_buf s).

Lemma zlen_realloc_block old n fill : 0 <= n -> zlen (realloc_block old n fill) = n.
Proof.
  intros. unfold realloc_block, zlen.
  rewrite length_app, length_take, length_map, length_seq. lia.
Qed.

Lemma take_realloc_block old n fill k :
  0 <= k <= zlen old -> k <= n -> take (Z.to_nat k) (realloc_block old n fill) = take (Z.to_nat k) old.
Proof.
  intros. unfold realloc_block, zlen in *.
  rewrite take_app_le by (rewrite length_take; lia). rewrite take_take. f_equal. lia.
Qed.

Lemma zlen_contents s : db_ok s -> zlen (contents s) = db_size s.
Proof. intros [Hl Hs _]. unfold contents. zlen_lia. Qed.

(** The outcome of a growth request. *)
Lemma dbuf_realloc_spec s n s' r :
  db_ok s -> n < 2 ^ 64 -> dbuf_realloc s n = (s', r) ->
  db_ok s' /\ contents s' = contents s /\ db_size s' = db_size s /\
  ((r = 0 /\ n <= db_allocated_size s' /\ db_error s' = db_error s) \/
   (r = -1 /\ db_error s' = true /\ db_allocated_size s < n)).
Proof.
  intros Hok Hn. destruct Hok as [Hl Hs Hu]. unfold dbuf_realloc.
  destruct (Z.ltb_spec (db_allocated_size s) n) as [Hlt|Hge].
  2: { intros [= <- <-]. split; [by split|]. split_and!; auto. }
  destruct (db_error s) eqn:He.
  { intros [= <- <-]. split; [by split|]. split_and!; auto. }
  set (m := if n <? _ then _ else n).
  assert (Hm : n <= m < 2 ^ 64).
  { subst m. pose proof (wrapu_range 64 (db_allocated_size s * 3) ltac:(lia)) as Hw.
    change (2 ^ 64) with 18446744073709551616 in *.
    case_match; bool_props; [|lia]. split; [lia|]. unfold u64. zdm. }
  destruct (realloc_func (db_opaque s) m) as [o [fill|]]; intros [= <- <-].
  - split; [split; simpl; [apply zlen_realloc_block; lia|lia..]|].
    unfold contents. simpl. rewrite take_realloc_block by lia. split_and!; auto.
    left. simpl. split_and!; auto; lia.
  - split; [by split|]. split_and!; auto.
Qed.

Lemma dbuf_grow_eq s n :
  (if db_allocated_size s <? n then dbuf_realloc s n else (s, 0)) = dbuf_realloc s n.
Proof. unfold dbuf_realloc. by destruct (db_allocated_size s <? n). Qed.

Lemma u64_small x : 0 <= x < 2 ^ 64 -> u64 x = x.
Proof. apply Z.mod_small. Qed.

(** Storing at the end of the used part once the block is large enough. *)
Lemma append_spec s data b :
  db_ok s -> db_size s + zlen data <= db_allocated_size s ->
  zsplice (db_buf s) (db_size s) data = Some b ->
  let s' := set_size (set_buf s b) (db_size s + zlen data) in
  db_ok s' /\ contents s' = contents s ++ data.
Proof.
  intros [Hl Hs Hu] Hle Hb. pose proof (zsplice_spec _ _ _ _ Hb) as [Hlb _]. cbv zeta.
  split; [split; simpl; [lia|zlen_lia|lia]|]. unfold contents. simpl. by apply take_zsplice.
Qed.

Lemma dbuf_put_spec s data :
  db_ok s -> db_size s + zlen data < 2 ^ 64 ->
  exists s' r, dbuf_put s data = Some (s', r) /\ db_ok s' /\
    ((r = 0 /\ contents s' = contents s ++ data /\ db_error s' = db_error s) \/
     (r = -1 /\ contents s' = contents s /\ db_error s' = true /\
      db_allocated_size s < db_size s + zlen data)).
Proof.
  intros Hok Hu. pose proof (db_ok_size _ Hok). pose proof (zlen_nonneg data).
  unfold dbuf_put. rewrite dbuf_grow_eq, u64_small by lia.
  destruct (dbuf_realloc s _) as [s1 r] eqn:Hr.
  apply dbuf_realloc_spec in Hr as (Hok1 & Hc & Hsz & Hcase); [|done..].
  destruct Hcase as [(-> & Hle & He)|(-> & He & Hlt)]; simpl.
  2: { exists s1, (-1). split_and!; auto. }
  rewrite <- Hsz in Hle.
  assert (exists b, (if zlen data =? 0 then Some (db_buf s1)
    else zsplice (db_buf s1) (db_size s1) data) = Some b /\
    zsplice (db_buf s1) (db_size s1) data = Some b) as (b & -> & Hb).
  { destruct Hok1 as [Hl1 Hs1 _]. rewrite zsplice_in_range by lia.
    destruct (Z.eqb_spec (zlen data) 0); [|eauto].
    destruct data; [|zlen_lia]. eexists; split; [done|]. simpl.
    by rewrite Nat.add_0_r, take_drop. }
  simpl. rewrite Hsz. rewrite u64_small by lia. rewrite <- Hsz.
  destruct (append_spec s1 data b Hok1 Hle Hb) as [Hok2 Hc2].
  do 2 eexists. split; [done|]. split; [done|]. left. rewrite Hc2, Hc. split_and!; auto.
Qed.

(** A buffer rebuilt after a growth request. *)
Lemma rebuilt_ok s b n :
  db_ok s -> zlen b = zlen (db_buf s) -> 0 <= n <= db_allocated_size s ->
  db_ok (set_size (set_buf s b) n).
Proof. intros [Hl Hs Hu] Hb Hn. split; simpl; lia. Qed.

(** The part of the block in use, as a split of the block. *)
Lemma contents_split s : db_ok s -> db_buf s = contents s ++ drop (length (contents s)) (db_buf s).
Proof.
  intros Hok. pose proof (zlen_contents s Hok) as Hz. unfold contents at 1.
  replace (length (contents s)) with (Z.to_nat (db_size s)) by (unfold zlen in Hz; lia).
  by rewrite take_drop.
Qed.

Lemma dbuf_insert_spec s pos len :
  db_ok s -> 0 <= pos <= db_size s -> 0 <= len -> db_size s + len < 2 ^ 64 ->
  exists s' r, dbuf_insert s pos len = Some (s', r) /\ db_ok s' /\
    ((r = 0 /\ db_error s' = db_error s /\
      exists hole, zlen hole = len /\
        contents s' = take (Z.to_nat pos) (contents s) ++ hole ++ drop (Z.to_nat pos) (contents s)) \/
     (r = -1 /\ contents s' = contents s /\ db_error s' = true)).
Proof.
  intros Hok Hpos Hlen Hu. pose proof (db_ok_size _ Hok).
  unfold dbuf_insert. rewrite u64_small by lia.
  destruct (dbuf_realloc s _) as [s1 r] eqn:Hr.
  apply dbuf_realloc_spec in Hr as (Hok1 & Hc & Hsz & [(-> & Hle & He)|(-> & He & Hlt)]); [|simpl; eauto 10..|done|done].
  pose proof (contents_split s1 Hok1) as Hspl. pose proof (zlen_contents s1 Hok1) as Hz1.
  rewrite Hc in Hspl, Hz1. set (c := contents s) in *. set (d := drop (length c) (db_buf s1)) in *.
  clearbody d. clearbody c.
  assert (Hzd : len <= zlen d) by (pose proof (db_ok_len _ Hok1) as Hl; rewrite Hspl in Hl; zlen_lia).
  simpl. rewrite Hspl.
  assert (Ht : zslice (c ++ d) pos (db_size s1 - pos) = Some (drop (Z.to_nat pos) c)).
  { pose proof (zslice_app (take (Z.to_nat pos) c) (drop (Z.to_nat pos) c) d) as Hs.
    rewrite app_assoc, take_drop in Hs. rewrite <- Hs. f_equal; zlen_lia. }
  rewrite Ht. simpl.
  rewrite zsplice_in_range by zlen_lia. simpl.
  do 2 eexists. split; [done|]. split.
  - apply rebuilt_ok; [done|rewrite Hspl; zlen_lia|].
    rewrite u64_small by lia. lia.
  - left. split_and!; [done|by simpl|].
    exists (drop (Z.to_nat pos) (take (Z.to_nat (pos + len)) (c ++ d))).
    split; [zlen_lia|]. unfold contents. simpl. rewrite u64_small by lia.
    rewrite app_assoc, take_app_length'.
    2: { rewrite length_app, length_take, length_drop, length_app. zlen_lia. }
    rewrite app_assoc. f_equal.
    rewrite <- (take_drop (Z.to_nat pos) (take (Z.to_nat (pos + len)) (c ++ d))) at 1.
    f_equal. rewrite take_take, take_app_le by zlen_lia. f_equal. lia.
Qed.

Lemma dbuf_put_self_spec s offset len :
  db_ok s -> 0 <= offset -> 0 <= len -> offset + len <= db_size s -> db_size s + len < 2 ^ 64 ->
  exists s' r, dbuf_put_self s offset len = Some (s', r) /\ db_ok s' /\
    ((r = 0 /\ db_error s' = db_error s /\
      contents s' = contents s ++ take (Z.to_nat len) (drop (Z.to_nat offset) (contents s))) \/
     (r = -1 /\ contents s' = contents s /\ db_error s' = true)).
Proof.
  intros Hok Ho Hlen Hle0 Hu. pose proof (db_ok_size _ Hok).
  unfold dbuf_put_self. rewrite dbuf_grow_eq, u64_small by lia.
  destruct (dbuf_realloc s _) as [s1 r] eqn:Hr.
  apply dbuf_realloc_spec in Hr as (Hok1 & Hc & Hsz & [(-> & Hle & He)|(-> & He & Hlt)]); [|simpl; eauto 10..|done|done].
  pose proof (contents_split s1 Hok1) as Hspl. pose proof (zlen_contents s1 Hok1) as Hz1.
  pose proof (db_ok_len _ Hok1) as Hl1. simpl. rewrite Hsz.
  rewrite zslice_in_range by lia. simpl.
  rewrite (proj2 (Z.leb_le (offset + len) (db_size s)) Hle0). simpl.
  set (data := take _ (drop _ (db_buf s1))).
  assert (data = take (Z.to_nat len) (drop (Z.to_nat offset) (contents s)) /\ zlen data = len)
    as [Hd Hzd].
  { split; [|subst data; zlen_lia]. subst data. rewrite <- Hc. rewrite Hspl at 1.
    rewrite drop_app_le by zlen_lia. rewrite take_app_le; [done|].
    rewrite length_drop. zlen_lia. }
  rewrite <- Hsz. rewrite zsplice_in_range by lia. simpl. rewrite u64_small by lia.
  destruct (append_spec s1 data _ Hok1 ltac:(lia) (zsplice_in_range (db_buf s1) (db_size s1) data
    ltac:(lia) ltac:(lia))) as [Hok2 Hc2]. rewrite Hzd in Hok2, Hc2.
  do 2 eexists. split; [done|]. split; [done|]. left. rewrite Hc2, Hc, Hd. by split_and!.
Qed.

Lemma dbuf_write_spec s offset data :
  db_ok s -> 0 <= offset <= db_size s -> offset + zlen data < 2 ^ 64 ->
  exists s' r, dbuf_write s offset data = Some (s', r) /\ db_ok s' /\
    ((r = 0 /\ db_error s' = db_error s /\
      contents s' = take (Z.to_nat offset) (contents s) ++ data ++
                    drop (Z.to_nat offset + length data) (contents s)) \/
     (r = -1 /\ contents s' = contents s /\ db_error s' = true)).
Proof.
  intros Hok Ho Hu. pose proof (db_ok_size _ Hok). pose proof (zlen_nonneg data).
  unfold dbuf_write. rewrite u64_small by lia.
  destruct (dbuf_realloc s _) as [s1 r] eqn:Hr.
  apply dbuf_realloc_spec in Hr as (Hok1 & Hc & Hsz & [(-> & Hle & He)|(-> & He & Hlt)]); [|simpl; eauto 10..|done|done].
  pose proof (db_ok_len _ Hok1) as Hl1. simpl.
  rewrite zsplice_in_range by lia. simpl. rewrite Hsz.
  assert (Hto : take (Z.to_nat offset) (db_buf s1) = take (Z.to_nat offset) (contents s)).
  { rewrite <- Hc. unfold contents. rewrite take_take. f_equal. lia. }
  do 2 eexists. split; [done|].
  destruct (Z.ltb_spec (db_size s) (offset + zlen data)).
  - split; [apply rebuilt_ok; [done|zlen_lia|lia]|]. left. split_and!; [done|done|].
    unfold contents at 1. simpl.
    rewrite (drop_ge (contents s)) by (pose proof (zlen_contents s Hok); zlen_lia).
    rewrite app_nil_r, app_assoc, take_app_length'; [by rewrite Hto|].
    rewrite length_app, length_take. zlen_lia.
  - assert (Hok2 : db_ok (set_buf s1 (take (Z.to_nat offset) (db_buf s1) ++ data ++
      drop (Z.to_nat offset + length data) (db_buf s1)))).
    { destruct Hok1. split; simpl; zlen_lia. }
    split; [done|]. left. split_and!; [done|done|].
    unfold contents at 1. simpl. rewrite Hsz, Hto, !take_app, length_take.
    rewrite take_ge by (rewrite length_take; lia). f_equal.
    rewrite take_ge by (pose proof (zlen_contents s Hok); zlen_lia). f_equal.
    rewrite <- Hc. unfold contents. rewrite skipn_firstn_comm. rewrite Hsz.
    f_equal. pose proof (db_ok_size _ Hok1). zlen_lia.
Qed.

(** ** Sequences of writes *)

(** The writes the clients of a buffer make, ignoring the return value. *)
Inductive dbuf_op :=
  | OpPut (data : list Z)
  | OpPutc (c : Z)
  | OpPutstr (str : list Z)
  | OpPutU16 (v : Z)
  | OpPutU32 (v : Z)
  | OpPutU64 (v : Z).

Definition op_bytes (op : dbuf_op) : list Z :=
  match op with
  | OpPut d => d
  | OpPutc c => [u8 c]
  | OpPutstr t => t
  | OpPutU16 v => le_split 2 (u16 v)
  | OpPutU32 v => le_split 4 (u32 v)
  | OpPutU64 v => le_split 8 (u64 v)
  end.

Definition exec_op (s : DynBuf) (op : dbuf_op) : option (DynBuf * Z) :=
  match op with
  | OpPut d => dbuf_put s d
  | OpPutc c => dbuf_putc s c
  | OpPutstr t => dbuf_putstr s t
  | OpPutU16 v => dbuf_put_u16 s v
  | OpPutU32 v => dbuf_put_u32 s v
  | OpPutU64 v => dbuf_put_u64 s v
  end.

Fixpoint exec_ops (s : DynBuf) (ops : list dbuf_op) : option DynBuf :=
  match ops with
  | [] => Some s
  | op :: ops' => '(s', _) ← exec_op s op; exec_ops s' ops'
  end.

Definition ops_bytes (ops : list dbuf_op) : list Z := concat (map op_bytes ops).

Lemma exec_op_put s op : exec_op s op = dbuf_put s (op_bytes op).
Proof. by destruct op. Qed.

Lemma exec_ops_spec ops s :
  db_ok s -> db_size s + zlen (ops_bytes ops) < 2 ^ 64 ->
  exists s', exec_ops s ops = Some s' /\ db_ok s' /\
    (db_error s = true -> db_error s' = true) /\
    (db_error s' = false -> contents s' = contents s ++ ops_bytes ops).
Proof.
  revert s. induction ops as [|op ops IH]; intros s Hok Hsz; simpl.
  - exists s. split_and!; auto. by rewrite app_nil_r.
  - unfold ops_bytes in *. simpl in *. rewrite zlen_app in Hsz.
    pose proof (zlen_nonneg (concat (map op_bytes ops))).
    rewrite exec_op_put.
    destruct (dbuf_put_spec s (op_bytes op) Hok ltac:(lia)) as (s1 & r & -> & Hok1 & Hc). simpl.
    pose proof (zlen_contents _ Hok) as Hz. pose proof (zlen_contents _ Hok1) as Hz1.
    destruct (IH s1 Hok1) as (s' & He & Hok' & Hst & Hcont).
    { destruct Hc as [(_ & Hc & _)|(_ & Hc & _)]; rewrite Hc in Hz1; zlen_lia. }
    exists s'. split_and!; auto.
    + intros Hs. apply Hst. destruct Hc as [(_ & _ & Hx)|(_ & _ & Hx & _)]; congruence.
    + intros Hs. destruct Hc as [(_ & Hx & _)|(_ & _ & Hx & _)].
      * rewrite Hcont, Hx by done. by rewrite app_assoc.
      * rewrite Hst in Hs by done. done.
Qed.

Lemma exec_ops_app s ops1 ops2 : exec_ops s (ops1 ++ ops2) = exec_ops s ops1 ≫= fun s' => exec_ops s' ops2.
Proof.
  revert s. induction ops1 as [|op ops1 IH]; intros s; [done|]. cbn [app exec_ops].
  destruct (exec_op s op) as [[s' r]|]; [|done]. cbn [mbind option_bind]. apply IH.
Qed.

(** ** Where an error comes from *)

(** The allocator refuses some request. *)
Definition alloc_refuses : Prop := exists o n o', realloc_func o n = (o', None).

Lemma dbuf_realloc_error s n s' r :
  dbuf_realloc s n = (s', r) -> db_error s = false ->
  (r = 0 /\ db_error s' = false) \/ (r = -1 /\ alloc_refuses).
Proof.
  unfold dbuf_realloc. intros Hx He. rewrite He in Hx. destruct (_ <? _); [|by simplify_eq; left].
  destruct (realloc_func _ _) as [o [fill|]] eqn:Hr; simplify_eq; [by left|]. right. split; [done|]. by do 3 eexists.
Qed.

Lemma exec_ops_error ops s s' :
  exec_ops s ops = Some s' -> db_error s = false -> db_error s' = false \/ alloc_refuses.
Proof.
  revert s. induction ops as [|op ops IH]; intros s Hx He; cbn [exec_ops] in Hx; [simplify_eq; by left|].
  rewrite exec_op_put in Hx. unfold dbuf_put in Hx. rewrite dbuf_grow_eq in Hx.
  destruct (dbuf_realloc s _) as [s1 r] eqn:Hr. apply dbuf_realloc_error in Hr as [[-> He1]|[-> Hr]]; [|by right|done].
  cbn in Hx. destruct (if _ =? 0 then _ else _) as [b|]; [|done]. cbn [mbind option_bind] in Hx. eapply IH; [done|done].
Qed.
End DynBuf.

(** ** Properties *)

(** C22: the clients of a buffer write a sequence of items without looking at the
    return values and test [dbuf_error] once at the end.  For every allocator and
    every sequence whose total size fits in a [size_t], the writes stay inside the
    allocated block, the error flag is never lost, and if it is still clear at the
    end the buffer holds exactly the bytes of all the items, in order. *)
Theorem dbuf_error_reliable `{!Allocator} ops s :
  db_ok s -> db_size s + zlen (ops_bytes ops) < 2 ^ 64 ->
  exists s', exec_ops s ops = Some s' /\ db_ok s' /\
    (db_error s = true -> db_error s' = true) /\
    (db_error s' = false -> contents s' = contents s ++ ops_bytes ops).
Proof. apply exec_ops_spec. Qed.

Lemma dbuf_init_ok `{!Allocator} o : db_ok (dbuf_init2 o).
Proof. split; simpl; rewrite ?zlen_nil; lia. Qed.

Lemma dbuf_error_reliable_witness :
  exists s', @exec_ops malloc_ok (dbuf_init2 (tt : @aopaque malloc_ok)) [OpPutc 7; OpPutU32 513] = Some s' /\
    db_ok s' /\ (false = true -> db_error s' = true) /\
    (db_error s' = false -> contents s' = [7; 1; 2; 0; 0]).
Proof.
  exact (@dbuf_error_reliable malloc_ok [OpPutc 7; OpPutU32 513] (dbuf_init2 (tt : @aopaque malloc_ok))
    (@dbuf_init_ok malloc_ok tt) ltac:(vm_compute; reflexivity)).
Defined.

(** [dbuf_insert] opens a hole of exactly [len] bytes at [pos] and moves the
    rest of the contents up unchanged, or reports failure, sets the error flag and
    leaves the contents as they were. *)
Theorem dbuf_insert_opens_hole `{!Allocator} s pos len :
  db_ok s -> 0 <= pos <= db_size s -> 0 <= len -> db_size s + len < 2 ^ 64 ->
  exists s' r, dbuf_insert s pos len = Some (s', r) /\ db_ok s' /\
    ((r = 0 /\ db_error s' = db_error s /\
      exists hole, zlen hole = len /\
        contents s' = take (Z.to_nat pos) (contents s) ++ hole ++ drop (Z.to_nat pos) (contents s)) \/
     (r = -1 /\ contents s' = contents s /\ db_error s' = true)).
Proof. apply dbuf_insert_spec. Qed.

(** A buffer holding three bytes. *)
Definition dbuf_example : @DynBuf malloc_ok :=
  @mkDynBuf malloc_ok [1; 2; 3; 0] 3 4 false (tt : @aopaque malloc_ok).

Lemma dbuf_example_ok : @db_ok malloc_ok dbuf_example.
Proof. split; vm_compute; intuition congruence. Qed.

Lemma dbuf_insert_opens_hole_witness :
  exists s' r, dbuf_insert dbuf_example 1 5 = Some (s', r) /\ db_ok s' /\
    ((r = 0 /\ db_error s' = false /\
      exists hole, zlen hole = 5 /\ contents s' = [1] ++ hole ++ [2; 3]) \/
     (r = -1 /\ contents s' = [1; 2; 3] /\ db_error s' = true)).
Proof.
  exact (@dbuf_insert_opens_hole malloc_ok dbuf_example 1 5 dbuf_example_ok
    ltac:(simpl; lia) ltac:(lia) ltac:(simpl; lia)).
Defined.

(** [dbuf_write] replaces the bytes at [offset] and extends the contents when
    the data goes past their end; every other byte is kept, and a failed growth
    changes nothing but the error flag. *)
Theorem dbuf_write_overwrites `{!Allocator} s offset data :
  db_ok s -> 0 <= offset <= db_size s -> offset + zlen data < 2 ^ 64 ->
  exists s' r, dbuf_write s offset data = Some (s', r) /\ db_ok s' /\
    ((r = 0 /\ db_error s' = db_error s /\
      contents s' = take (Z.to_nat offset) (contents s) ++ data ++
                    drop (Z.to_nat offset + length data) (contents s)) \/
     (r = -1 /\ contents s' = contents s /\ db_error s' = true)).
Proof. apply dbuf_write_spec. Qed.

Lemma dbuf_write_overwrites_witness :
  exists s' r, dbuf_write dbuf_example 2 [8; 9] = Some (s', r) /\ db_ok s' /\
    ((r = 0 /\ db_error s' = false /\ contents s' = [1; 2; 8; 9]) \/
     (r = -1 /\ contents s' = [1; 2; 3] /\ db_error s' = true)).
Proof.
  exact (@dbuf_write_overwrites malloc_ok dbuf_example 2 [8; 9] dbuf_example_ok
    ltac:(simpl; lia) ltac:(vm_compute; reflexivity)).
Defined.
