(* ===== verification/CharRange.v ===== *)
(** Character sets of [libunicode.c]: a [CharRange] is a sorted array of points;
    consecutive pairs of points are half-open intervals.  Operations return the new
    set and the C return value; [None] is an access outside the [points] array (or
    a loop that ran out of fuel, which the theorems exclude). *)

From S2P Require Import Prelude CutilsH DynBuf.
From Stdlib Require Import Btauto.

(** ** State *)

Record CharRange `{!Allocator} := mkCharRange {
  cr_len : Z;
  cr_size : Z;
  cr_points : list Z;
  cr_opaque : aopaque }.

Inductive CharRangeOpEnum := CR_OP_UNION | CR_OP_INTER | CR_OP_XOR.

Section CharRange.
Context `{!Allocator}.

(** ** Operations *)

Definition cr_init (o : aopaque) : CharRange := mkCharRange _ 0 0 [] o.

Definition cr_realloc (cr : CharRange) (size : Z) : CharRange * Z :=
  if cr_size cr <? size then
    let new_size := max_int size (cr_size cr * 3 / 2) in
    let '(o, r) := realloc_func (cr_opaque cr) (new_size * 4) in
    match r with
    | None => (mkCharRange _ (cr_len cr) (cr_size cr) (cr_points cr) o, -1)
    | Some fill => (mkCharRange _ (cr_len cr) new_size (realloc_block (cr_points cr) new_size fill) o, 0)
    end
  else (cr, 0).

Definition set_points (cr : CharRange) (l : list Z) (n : Z) : CharRange :=
  mkCharRange _ n (cr_size cr) l (cr_opaque cr).

Definition cr_add_point (cr : CharRange) (v : Z) : option (CharRange * Z) :=
  let '(cr, r) := if cr_size cr <=? cr_len cr then cr_realloc cr (cr_len cr + 1) else (cr, 0) in
  if r <? 0 then Some (cr, -1)
  else
    l ← zset (cr_points cr) (cr_len cr) v;
    Some (set_points cr l (cr_len cr + 1), 0).

Definition cr_add_interval (cr : CharRange) (c1 c2 : Z) : option (CharRange * Z) :=
  let '(cr, r) := if cr_size cr <? cr_len cr + 2 then cr_realloc cr (cr_len cr + 2) else (cr, 0) in
  if r <? 0 then Some (cr, -1)
  else
    l ← zset (cr_points cr) (cr_len cr) c1;
    l ← zset l (cr_len cr + 1) c2;
    Some (set_points cr l (cr_len cr + 2), 0).

(** The points in use: what other functions receive as [cr->points, cr->len]. *)
Definition pts (cr : CharRange) : list Z := take (Z.to_nat (cr_len cr)) (cr_points cr).

Definition cr_copy (cr cr1 : CharRange) : option (CharRange * Z) :=
  let '(cr, r) := cr_realloc cr (cr_len cr1) in
  if r <? 0 then Some (cr, -1)
  else
    src ← zslice (cr_points cr1) 0 (cr_len cr1);
    l ← zsplice (cr_points cr) 0 src;
    Some (set_points cr l (cr_len cr1), 0).

(** The allocator state after the points have been released. *)
Definition cr_free (cr : CharRange) : aopaque := (realloc_func (cr_opaque cr) 0).1.

(** The inner loop of [cr_compress]: skip intervals that touch the next one. *)
Fixpoint cr_compress_skip (fuel : nat) (pt : list Z) (len j : Z) : option Z :=
  match fuel with
  | O => None
  | S fuel' =>
      if j + 3 <? len then
        a ← zget pt (j + 1);
        b ← zget pt (j + 2);
        if a =? b then cr_compress_skip fuel' pt len (j + 2) else Some j
      else Some j
  end.

Fixpoint cr_compress_loop (fuel : nat) (pt : list Z) (len i k : Z) : option (list Z * Z) :=
  match fuel with
  | O => None
  | S fuel' =>
      if i + 1 <? len then
        a ← zget pt i;
        b ← zget pt (i + 1);
        if a =? b then cr_compress_loop fuel' pt len (i + 2) k
        else
          j ← cr_compress_skip fuel' pt len i;
          e ← zget pt (j + 1);
          pt ← zset pt k a;
          pt ← zset pt (k + 1) e;
          cr_compress_loop fuel' pt len (j + 2) (k + 2)
      else Some (pt, k)
  end.

Definition cr_compress (cr : CharRange) : option CharRange :=
  '(l, k) ← cr_compress_loop (S (Z.to_nat (cr_len cr))) (cr_points cr) (cr_len cr) 0 0;
  Some (set_points cr l k).

(** The in/out status after the points seen so far. *)
Definition cr_op_in (op : CharRangeOpEnum) (a b : Z) : Z :=
  match op with CR_OP_UNION => a .| b | CR_OP_INTER => a .& b | CR_OP_XOR => a .^ b end.

(** One more point from [a] or [b] in increasing order, and the new indices;
    [Some None] when both are exhausted. *)
Definition cr_op_next (a b : list Z) (a_idx b_idx : Z) : option (option (Z * Z * Z)) :=
  if (a_idx <? zlen a) && (b_idx <? zlen b) then
    va ← zget a a_idx;
    vb ← zget b b_idx;
    Some (Some (if va <? vb then (va, a_idx + 1, b_idx)
                else if va =? vb then (va, a_idx + 1, b_idx + 1)
                else (vb, a_idx, b_idx + 1)))
  else if a_idx <? zlen a then va ← zget a a_idx; Some (Some (va, a_idx + 1, b_idx))
  else if b_idx <? zlen b then vb ← zget b b_idx; Some (Some (vb, a_idx, b_idx + 1))
  else Some None.

Fixpoint cr_op_loop (fuel : nat) (cr : CharRange) (a b : list Z) (a_idx b_idx : Z)
    (op : CharRangeOpEnum) : option (CharRange * Z) :=
  match fuel with
  | O => None
  | S fuel' =>
      nxt ← cr_op_next a b a_idx b_idx;
      match nxt with
      | None => Some (cr, 0)
      | Some (v, a_idx, b_idx) =>
          let is_in := cr_op_in op (a_idx .& 1) (b_idx .& 1) in
          if negb (is_in =? cr_len cr .& 1) then
            '(cr, r) ← cr_add_point cr v;
            if r <? 0 then Some (cr, -1) else cr_op_loop fuel' cr a b a_idx b_idx op
          else cr_op_loop fuel' cr a b a_idx b_idx op
      end
  end.

Definition cr_op (cr : CharRange) (a b : list Z) (op : CharRangeOpEnum) : option (CharRange * Z) :=
  '(cr, r) ← cr_op_loop (S (length a + length b)) cr a b 0 0 op;
  if r <? 0 then Some (cr, -1)
  else cr ← cr_compress cr; Some (cr, 0).

Definition cr_union1 (cr : CharRange) (b : list Z) : option (CharRange * Z) :=
  '(cr', ret) ← cr_op (mkCharRange _ 0 0 [] (cr_opaque cr)) (pts cr) b CR_OP_UNION;
  Some (mkCharRange _ (cr_len cr') (cr_size cr') (cr_points cr') (cr_free cr'), ret).

Definition cr_union_interval (cr : CharRange) (c1 c2 : Z) : option (CharRange * Z) :=
  cr_union1 cr [c1; u32 (c2 + 1)].

Definition cr_invert (cr : CharRange) : option (CharRange * Z) :=
  let len := cr_len cr in
  let '(cr, r) := cr_realloc cr (len + 2) in
  if r <? 0 then Some (cr, -1)
  else
    old ← zslice (cr_points cr) 0 len;
    l ← zsplice (cr_points cr) 1 old;
    l ← zset l 0 0;
    l ← zset l (len + 1) UINT32_MAX;
    cr ← cr_compress (set_points cr l (len + 2));
    Some (cr, 0).

(** ** Specification *)

(** The set a sorted list of points stands for: [c] is in it when an odd number
    of points are at or below [c]. *)
Fixpoint cr_mem (l : list Z) (c : Z) : bool :=
  match l with [] => false | p :: l' => xorb (p <=? c) (cr_mem l' c) end.

(** Sorted points, possibly with empty or touching intervals. *)
Definition cr_sorted (l : list Z) : Prop := StronglySorted Z.le l /\ Nat.Even (length l).

(** The canonical form: strictly increasing points. *)
Definition cr_canonical (l : list Z) : Prop := StronglySorted Z.lt l /\ Nat.Even (length l).

(** The array has the recorded size and the used part is inside. *)
Record cr_ok (cr : CharRange) : Prop := {
  cr_ok_len : zlen (cr_points cr) = cr_size cr;
  cr_ok_size : 0 <= cr_len cr <= cr_size cr }.

(** The boolean operation behind a set operation. *)
Definition op_bool (op : CharRangeOpEnum) (a b : bool) : bool :=
  match op with CR_OP_UNION => a || b | CR_OP_INTER => a && b | CR_OP_XOR => xorb a b end.

(** Every request of the allocator succeeds. *)
Definition alloc_total : Prop := forall o n, is_Some (realloc_func o n).2.


(** ** [cr_compress] *)

(** The same computation on lists: [cur] is the interval being extended. *)
Fixpoint compress_go (cur : option (Z * Z)) (l : list Z) : list Z :=
  match l with
  | a :: b :: t =>
      match cur with
      | None => if a =? b then compress_go None t else compress_go (Some (a, b)) t
      | Some (s, e) =>
          if e =? a then compress_go (Some (s, b)) t
          else s :: e :: (if a =? b then compress_go None t else compress_go (Some (a, b)) t)
      end
  | _ => match cur with None => [] | Some (s, e) => [s; e] end
  end.

Lemma compress_skip_spec fuel t pre x s b tail :
  (length t < fuel)%nat ->
  exists pre2 x' e t', pre ++ x :: b :: t = pre2 ++ x' :: e :: t' /\ zlen pre <= zlen pre2 /\
    cr_compress_skip fuel (pre ++ x :: b :: t ++ tail) (zlen pre + 2 + zlen t) (zlen pre) =
      Some (zlen pre2) /\
    (length t' <= length t)%nat /\
    compress_go (Some (s, b)) t = s :: e :: compress_go None t'.
Proof.
  revert fuel t pre x b. induction fuel as [|fuel IH]; intros t pre x b Hf; [lia|].
  cbn [cr_compress_skip].
  destruct t as [|c [|d t]].
  - exists pre, x, b, []. rewrite (proj2 (Z.ltb_ge _ _)) by zlen_lia. split_and!; done || lia.
  - exists pre, x, b, [c]. rewrite (proj2 (Z.ltb_ge _ _)) by zlen_lia. split_and!; done || lia.
  - rewrite (proj2 (Z.ltb_lt _ _)) by zlen_lia.
    assert (zget (pre ++ x :: b :: (c :: d :: t) ++ tail) (zlen pre + 1) = Some b) as ->.
    { by apply zget_mid1. }
    assert (zget (pre ++ x :: b :: (c :: d :: t) ++ tail) (zlen pre + 2) = Some c) as ->.
    { by apply zget_mid2. }
    simpl. destruct (Z.eqb_spec b c) as [->|Hne].
    + destruct (IH t (pre ++ [x; c]) c d ltac:(simpl in Hf; lia)) as (pre2 & x' & e & t' & H1 & H2 & H3 & H4 & H5).
      rewrite <- app_assoc in H1, H3. simpl in H1, H3.
      exists pre2, x', e, t'. split_and!; [done|zlen_lia| |lia|done].
      rewrite <- H3. f_equal; zlen_lia.
    + exists pre, x, b, (c :: d :: t). split_and!; done || lia.
Qed.

Lemma compress_loop_spec fuel rest out mid tail :
  (length rest < fuel)%nat ->
  exists pt', cr_compress_loop fuel (out ++ mid ++ rest ++ tail)
      (zlen out + zlen mid + zlen rest) (zlen out + zlen mid) (zlen out) =
    Some (pt', zlen (out ++ compress_go None rest)) /\
    zlen pt' = zlen (out ++ mid ++ rest ++ tail) /\
    exists gap, pt' = (out ++ compress_go None rest) ++ gap.
Proof.
  revert rest out mid. induction fuel as [|fuel IH]; intros rest out mid Hf; [lia|].
  cbn [cr_compress_loop].
  destruct rest as [|a [|b t]].
  1,2: rewrite (proj2 (Z.ltb_ge _ _)) by zlen_lia; simpl; rewrite app_nil_r; eauto.
  rewrite (proj2 (Z.ltb_lt _ _)) by zlen_lia.
  assert (zget (out ++ mid ++ (a :: b :: t) ++ tail) (zlen out + zlen mid) = Some a) as ->.
  { rewrite app_assoc. apply zget_mid. zlen_lia. }
  assert (zget (out ++ mid ++ (a :: b :: t) ++ tail) (zlen out + zlen mid + 1) = Some b) as ->.
  { rewrite app_assoc. apply zget_mid1. zlen_lia. }
  simpl. destruct (Z.eqb_spec a b) as [->|Hne].
  - destruct (IH t out (mid ++ [b; b]) ltac:(simpl in Hf; lia)) as (pt' & H1 & H2 & H3).
    rewrite <- app_assoc in H1, H2. simpl in H1, H2.
    exists pt'. split_and!; [|done..]. rewrite <- H1. f_equal; zlen_lia.
  - destruct (compress_skip_spec fuel t (out ++ mid) a a b tail ltac:(simpl in Hf; lia))
      as (pre2 & x' & e & t' & H1 & H2 & H3 & H4 & H5).
    rewrite <- !app_assoc in H3. rewrite zlen_app in H3.
    replace (zlen out + zlen mid + zlen (a :: b :: t)) with (zlen out + zlen mid + 2 + zlen t) by zlen_lia.
    rewrite H3. simpl.
    assert (Hpt : out ++ mid ++ a :: b :: t ++ tail = pre2 ++ x' :: e :: t' ++ tail).
    { apply (f_equal (fun l => l ++ tail)) in H1. rewrite <- !app_assoc in H1. exact H1. }
    rewrite Hpt.
    assert (zget (pre2 ++ x' :: e :: t' ++ tail) (zlen pre2 + 1) = Some e) as ->.
    { by apply zget_mid1. }
    destruct (split_two out pre2 x' e _ _ Hpt ltac:(zlen_lia)) as (w0 & w1 & w & Hw & Hwl).
    rewrite Hw. simpl. rewrite zset_mid by done. simpl.
    rewrite zset_mid1 by done. simpl.
    destruct (IH t' (out ++ [a; e]) w ltac:(simpl in Hf; lia)) as (pt' & G1 & G2 & G3).
    rewrite H5. rewrite <- !app_assoc in *. simpl in *.
    apply (f_equal zlen) in H1. exists pt'. split_and!; [|zlen_lia|done].
    rewrite <- G1. f_equal; zlen_lia.
Qed.

Lemma compress_go_mem cur l c :
  Nat.Even (length l) ->
  cr_mem (compress_go cur l) c =
  xorb (match cur with None => false | Some (s, e) => xorb (s <=? c) (e <=? c) end) (cr_mem l c).
Proof.
  remember (length l) as n eqn:Hn. revert cur l Hn.
  induction (lt_wf n) as [n _ IH]. intros cur l -> He.
  destruct l as [|a [|b t]]; [|destruct He; simpl in *; lia|].
  - destruct cur as [[s e]|]; simpl; btauto.
  - assert (He' : Nat.Even (length t)) by (destruct He as [k Hk]; exists (k - 1)%nat; simpl in Hk; lia).
    pose proof (fun cur => IH (length t) ltac:(simpl; lia) cur t eq_refl He') as IHt.
    cbn [compress_go cr_mem]. destruct cur as [[s e]|].
    + destruct (Z.eqb_spec e a) as [->|]; [rewrite IHt; simpl; btauto|].
      destruct (Z.eqb_spec a b) as [->|]; simpl; rewrite IHt; simpl; btauto.
    + destruct (Z.eqb_spec a b) as [->|]; rewrite IHt; simpl; btauto.
Qed.

Lemma sorted_pair s e : s < e -> StronglySorted Z.lt [s; e].
Proof. intros. repeat constructor; lia. Qed.

(** A list whose elements are all at least [x] stays so under compression, and
    the result is strictly increasing. *)
Lemma compress_go_sorted cur l :
  StronglySorted Z.le (match cur with None => l | Some (s, e) => s :: e :: l end) ->
  match cur with None => True | Some (s, e) => s < e end ->
  StronglySorted Z.lt (compress_go cur l) /\
  (forall x, Forall (Z.le x) (match cur with None => l | Some (s, e) => s :: e :: l end) ->
     Forall (Z.le x) (compress_go cur l)) /\
  Nat.Even (length (compress_go cur l)).
Proof.
  remember (length l) as n eqn:Hn. revert cur l Hn.
  induction (lt_wf n) as [n _ IH]. intros cur l -> Hs Hlt.
  destruct l as [|a [|b t]].
  1,2: destruct cur as [[s e]|]; simpl; split_and!; try apply sorted_pair; auto using SSorted_nil;
    try (by exists 1%nat); try (by exists 0%nat);
    intros x Hx; repeat (apply Forall_cons in Hx as [? Hx]); auto.
  pose proof (fun cur => IH (length t) ltac:(simpl; lia) cur t eq_refl) as IHt.
  assert (Hnone : StronglySorted Z.le (a :: b :: t) ->
    let R := if a =? b then compress_go None t else compress_go (Some (a, b)) t in
    StronglySorted Z.lt R /\ (forall x, Forall (Z.le x) (a :: b :: t) -> Forall (Z.le x) R) /\
    Nat.Even (length R)).
  { intros Hab. pose proof Hab as Hab0. cbv zeta. inversion_clear Hab as [|?? Hb Ha]. inversion_clear Hb as [|?? Ht Hbt].
    destruct (Z.eqb_spec a b) as [->|Hne].
    - destruct (IHt None Ht I) as (H1 & H2 & H3). split_and!; [done| |done].
      intros x Hx. apply H2. by do 2 apply Forall_inv_tail in Hx.
    - apply (IHt (Some (a, b))); [done|]. inversion_clear Ha. lia. }
  destruct cur as [[s e]|]; simpl compress_go; [|by apply Hnone].
  inversion_clear Hs as [|?? Hs1 Hse]. inversion_clear Hs1 as [|?? Hs2 He]. inversion_clear Hse as [|?? _ Hsl].
  destruct (Z.eqb_spec e a) as [->|Hne].
  - inversion_clear Hs2 as [|?? Hb Hab]. apply Forall_cons in Hab as [? ?].
    apply Forall_cons in Hsl as [? Hsl].
    destruct (IHt (Some (s, b))) as (G1 & G2 & G3); [|lia|].
    + by constructor.
    + split_and!; [done| |done]. intros x Hx. apply G2.
      inversion_clear Hx as [|?? Hx1 Hx2]. constructor; [done|]. by do 2 apply Forall_inv_tail in Hx2.
  - destruct (Hnone Hs2) as (H1 & H2 & [k H3]).
    assert (Hge : Forall (Z.le a) (if a =? b then compress_go None t else compress_go (Some (a, b)) t)).
    { apply H2. constructor; [lia|]. by inversion_clear Hs2. }
    assert (e < a) by (inversion_clear He; lia).
    split_and!.
    + constructor; [constructor; [done|]|constructor; [done|]];
        (eapply Forall_impl; [exact Hge|simpl; intros; lia]).
    + intros x Hx. inversion_clear Hx as [|?? Hx1 Hx2]. inversion_clear Hx2 as [|?? Hx3 Hx4].
      constructor; [done|]. constructor; [done|]. by apply H2.
    + exists (S k). simpl. lia.
Qed.

(** Compressing a sorted set keeps its members and makes it canonical. *)
Lemma cr_compress_spec cr :
  cr_ok cr -> cr_sorted (pts cr) ->
  exists cr', cr_compress cr = Some cr' /\ cr_ok cr' /\ cr_opaque cr' = cr_opaque cr /\
    cr_canonical (pts cr') /\ (forall c, cr_mem (pts cr') c = cr_mem (pts cr) c) /\
    cr_size cr' = cr_size cr.
Proof.
  intros [Hl Hs] [Hso Hev]. unfold cr_compress.
  pose proof (take_drop (Z.to_nat (cr_len cr)) (cr_points cr)) as Hsplit.
  fold (pts cr) in Hsplit.
  assert (Hlp : zlen (pts cr) = cr_len cr) by (unfold pts; zlen_lia).
  destruct (compress_loop_spec (S (Z.to_nat (cr_len cr))) (pts cr) [] []
    (drop (Z.to_nat (cr_len cr)) (cr_points cr)) ltac:(zlen_lia)) as (pt' & H1 & H2 & gap & H3).
  rewrite !app_nil_l in *. rewrite Hsplit in H1, H2.
  rewrite !(zlen_nil (A := Z)), !Z.add_0_l, Hlp in H1. rewrite H1. cbn [mbind option_bind].
  eexists. split; [done|].
  assert (Hp : pts (set_points cr pt' (zlen (compress_go None (pts cr)))) = compress_go None (pts cr)).
  { unfold pts at 1. simpl. rewrite H3. unfold zlen. by rewrite Nat2Z.id, take_app_length. }
  rewrite Hp. destruct (compress_go_sorted None (pts cr) Hso I) as (G1 & _ & G3).
  split_and!; [split; simpl|done|by split| |done].
  - lia.
  - rewrite H3 in H2. zlen_lia.
  - intros c. by rewrite compress_go_mem.
Qed.

(** ** Growing a set *)

Lemma cr_realloc_spec cr n cr' r :
  cr_ok cr -> cr_realloc cr n = (cr', r) ->
  cr_ok cr' /\ pts cr' = pts cr /\ cr_len cr' = cr_len cr /\
  ((r = 0 /\ n <= cr_size cr') \/ (r = -1 /\ ~ alloc_total)).
Proof.
  intros [Hl Hs]. unfold cr_realloc. destruct (Z.ltb_spec (cr_size cr) n) as [Hlt|Hge].
  2: { intros [= <- <-]. split; [by split|]. split_and!; auto. }
  set (m := max_int _ _). assert (n <= m) by (subst m; unfold max_int; case_match; bool_props; lia).
  clearbody m. destruct (realloc_func (cr_opaque cr) (m * 4)) as [o [fill|]] eqn:Hr; intros [= <- <-].
  - split; [split; simpl; [apply zlen_realloc_block; lia|lia]|].
    unfold pts. simpl. rewrite take_realloc_block by lia. split_and!; auto.
  - split; [by split|]. split_and!; auto. right. split; [done|]. intros Ht.
    destruct (Ht (cr_opaque cr) (m * 4)) as [x Hx]. rewrite Hr in Hx. done.
Qed.

(** Appending inside the array. *)
Lemma pts_app_set cr l n vs :
  cr_ok cr -> zlen l = zlen (cr_points cr) -> n = cr_len cr + zlen vs -> n <= cr_size cr ->
  take (Z.to_nat n) l = pts cr ++ vs ->
  cr_ok (set_points cr l n) /\ pts (set_points cr l n) = pts cr ++ vs.
Proof.
  intros [Hl Hs] Hz Hn Hle Ht. pose proof (zlen_nonneg vs).
  split; [split; simpl; lia|]. exact Ht.
Qed.

Lemma zlen_pts cr : cr_ok cr -> zlen (pts cr) = cr_len cr.
Proof. intros [Hl Hs]. unfold pts. zlen_lia. Qed.

(** The array as the points in use and the rest. *)
Lemma points_split cr : cr_ok cr -> exists rest, cr_points cr = pts cr ++ rest /\ zlen rest = cr_size cr - cr_len cr.
Proof.
  intros [Hl Hs]. exists (drop (Z.to_nat (cr_len cr)) (cr_points cr)).
  unfold pts. rewrite take_drop. split; [done|zlen_lia].
Qed.

Lemma cr_add_point_spec cr v :
  cr_ok cr ->
  exists cr' r, cr_add_point cr v = Some (cr', r) /\ cr_ok cr' /\
    ((r = 0 /\ pts cr' = pts cr ++ [v]) \/ (r = -1 /\ ~ alloc_total)).
Proof.
  intros Hok. unfold cr_add_point.
  assert (exists cr1 r, (if cr_size cr <=? cr_len cr then cr_realloc cr (cr_len cr + 1) else (cr, 0)) = (cr1, r) /\
    cr_ok cr1 /\ pts cr1 = pts cr /\ cr_len cr1 = cr_len cr /\
    ((r = 0 /\ cr_len cr1 + 1 <= cr_size cr1) \/ (r = -1 /\ ~ alloc_total))) as (cr1 & r & -> & Hok1 & Hp & Hlen & Hcase).
  { destruct (Z.leb_spec (cr_size cr) (cr_len cr)).
    - destruct (cr_realloc cr (cr_len cr + 1)) as [cr1 r] eqn:Hr.
      apply cr_realloc_spec in Hr as (? & ? & Hl1 & ?); [|done]. rewrite <- Hl1 in *. eauto 10.
    - exists cr, 0. split_and!; [done..|]. left. split; [done|lia]. }
  destruct Hcase as [[-> Hle]|[-> Hf]]; [|exists cr1, (-1); split_and!; auto].
  simpl. destruct (points_split cr1 Hok1) as (rest & Hsp & Hrest).
  destruct rest as [|x rest]; [zlen_lia|]. rewrite Hsp, zset_mid by (by rewrite zlen_pts).
  simpl. pose proof (zlen_pts _ Hok1).
  destruct (pts_app_set cr1 (pts cr1 ++ v :: rest) (cr_len cr1 + 1) [v]) as [G1 G2]; [done|rewrite Hsp; zlen_lia|done|lia| |].
  - rewrite (cons_middle v), app_assoc. apply take_app_length'. zlen_lia.
  - do 2 eexists. split; [done|]. split; [done|]. left. split; [done|]. by rewrite G2, Hp.
Qed.

Lemma cr_add_interval_spec cr c1 c2 :
  cr_ok cr ->
  exists cr' r, cr_add_interval cr c1 c2 = Some (cr', r) /\ cr_ok cr' /\
    ((r = 0 /\ pts cr' = pts cr ++ [c1; c2]) \/ (r = -1 /\ ~ alloc_total)).
Proof.
  intros Hok. unfold cr_add_interval.
  assert (exists cr1 r, (if cr_size cr <? cr_len cr + 2 then cr_realloc cr (cr_len cr + 2) else (cr, 0)) = (cr1, r) /\
    cr_ok cr1 /\ pts cr1 = pts cr /\ cr_len cr1 = cr_len cr /\
    ((r = 0 /\ cr_len cr1 + 2 <= cr_size cr1) \/ (r = -1 /\ ~ alloc_total))) as (cr1 & r & -> & Hok1 & Hp & Hlen & Hcase).
  { destruct (Z.ltb_spec (cr_size cr) (cr_len cr + 2)).
    - destruct (cr_realloc cr (cr_len cr + 2)) as [cr1 r] eqn:Hr.
      apply cr_realloc_spec in Hr as (? & ? & Hl1 & ?); [|done]. rewrite <- Hl1 in *. eauto 10.
    - exists cr, 0. split_and!; [done..|]. left. split; [done|lia]. }
  destruct Hcase as [[-> Hle]|[-> Hf]]; [|exists cr1, (-1); split_and!; auto].
  simpl. destruct (points_split cr1 Hok1) as (rest & Hsp & Hrest).
  destruct rest as [|x [|y rest]]; [zlen_lia..|].
  rewrite Hsp, zset_mid by (by rewrite zlen_pts). simpl.
  rewrite zset_mid1 by (by rewrite zlen_pts). simpl. pose proof (zlen_pts _ Hok1).
  destruct (pts_app_set cr1 (pts cr1 ++ c1 :: c2 :: rest) (cr_len cr1 + 2) [c1; c2]) as [G1 G2]; [done|rewrite Hsp; zlen_lia|done|lia| |].
  - change (pts cr1 ++ c1 :: c2 :: rest) with (pts cr1 ++ [c1; c2] ++ rest).
    rewrite app_assoc. apply take_app_length'. zlen_lia.
  - do 2 eexists. split; [done|]. split; [done|]. left. split; [done|]. by rewrite G2, Hp.
Qed.

(** ** [cr_op] *)

Lemma land_1 x : x .& 1 = b2z (Z.odd x).
Proof. change 1 with (Z.ones 1) at 1. rewrite land_mask by lia. rewrite Zmod_odd. by destruct (Z.odd x). Qed.

Lemma cr_op_in_bool op p q : cr_op_in op (b2z p) (b2z q) = b2z (op_bool op p q).
Proof. by destruct op, p, q. Qed.

Lemma cr_mem_above l c : Forall (fun p => c < p) l -> cr_mem l c = false.
Proof.
  induction 1 as [|p l Hp _ IH]; simpl; [done|].
  rewrite IH. by destruct (Z.leb_spec p c); [lia|].
Qed.

Lemma cr_mem_app l1 l2 c : cr_mem (l1 ++ l2) c = xorb (cr_mem l1 c) (cr_mem l2 c).
Proof. induction l1 as [|p l1 IH]; simpl; [by destruct (cr_mem l2 c)|]. by rewrite IH, xorb_assoc. Qed.

Definition take_if (t : bool) (v : Z) (l : list Z) : list Z := if t then v :: l else l.

(** The next point: the smallest of the heads, taken from every list it heads. *)
Lemma cr_op_next_spec a1 a' b1 b' :
  StronglySorted Z.le a' -> StronglySorted Z.le b' ->
  (cr_op_next (a1 ++ a') (b1 ++ b') (zlen a1) (zlen b1) = Some None /\ a' = [] /\ b' = []) \/
  exists v (ta tb : bool) a2 b2,
    cr_op_next (a1 ++ a') (b1 ++ b') (zlen a1) (zlen b1) =
      Some (Some (v, zlen a1 + b2z ta, zlen b1 + b2z tb)) /\
    a' = take_if ta v a2 /\ b' = take_if tb v b2 /\ ta || tb = true /\
    Forall (Z.le v) a2 /\ Forall (Z.le v) b2.
Proof.
  intros Ha Hb. unfold cr_op_next. rewrite !zlen_app.
  destruct a' as [|x a2], b' as [|y b2].
  - left. rewrite zlen_nil, !Z.add_0_r, !Z.ltb_irrefl. done.
  - right. exists y, false, true, [], b2. rewrite zlen_nil, Z.add_0_r, Z.ltb_irrefl. simpl.
    rewrite (proj2 (Z.ltb_lt (zlen b1) _)), zget_mid by zlen_lia. simpl.
    rewrite Z.add_0_r. inversion_clear Hb. split_and!; auto.
  - right. exists x, true, false, a2, []. rewrite zlen_nil, Z.add_0_r, Z.ltb_irrefl, andb_false_r. simpl.
    rewrite (proj2 (Z.ltb_lt (zlen a1) _)), zget_mid by zlen_lia. simpl.
    rewrite Z.add_0_r. inversion_clear Ha. split_and!; auto.
  - right. rewrite (proj2 (Z.ltb_lt (zlen a1) _)), (proj2 (Z.ltb_lt (zlen b1) _)) by zlen_lia.
    rewrite !zget_mid by done. simpl. inversion_clear Ha as [|?? Ha1 Ha2]. inversion_clear Hb as [|?? Hb1 Hb2].
    destruct (Z.ltb_spec x y); [|destruct (Z.eqb_spec x y) as [->|]].
    + exists x, true, false, a2, (y :: b2). simpl. rewrite Z.add_0_r. split_and!; auto.
      constructor; [lia|]. eapply Forall_impl; [exact Hb2|simpl; lia].
    + exists y, true, true, a2, b2. split_and!; auto.
    + exists y, false, true, (x :: a2), b2. simpl. rewrite Z.add_0_r. split_and!; auto.
      constructor; [lia|]. eapply Forall_impl; [exact Ha2|simpl; lia].
Qed.

Lemma sorted_take_if t v l : StronglySorted Z.le (take_if t v l) -> StronglySorted Z.le l.
Proof. destruct t; simpl; [|done]. by inversion 1. Qed.

Lemma odd_add_b2z x t : Z.odd (x + b2z t) = xorb (Z.odd x) t.
Proof. rewrite Z.odd_add. by destruct t. Qed.

Lemma Forall_take_if P t v l : Forall P (take_if t v l) -> Forall P l.
Proof. destruct t; simpl; [|done]. by apply Forall_inv_tail. Qed.

Lemma cr_mem_take_if t v l c : cr_mem (take_if t v l) c = xorb (t && (v <=? c)) (cr_mem l c).
Proof. destruct t; simpl; [done|by destruct (cr_mem l c)]. Qed.

Lemma b2z_neq p q : negb (b2z p =? b2z q) = xorb p q.
Proof. by destruct p, q. Qed.

(** What the merge loop appends, from status [pl] and parities [pa], [pb] of the
    points already consumed: the sorted points where the combined status changes. *)
Definition merged (op : CharRangeOpEnum) (pl pa pb : bool) (a b out : list Z) : Prop :=
  StronglySorted Z.le out /\
  (forall x, Forall (Z.le x) a -> Forall (Z.le x) b -> Forall (Z.le x) out) /\
  (forall c, xorb pl (cr_mem out c) =
     op_bool op (xorb pa (cr_mem a c)) (xorb pb (cr_mem b c))).

Lemma merged_step op pl pa pb (ta tb : bool) v a b out :
  ta || tb = true -> Forall (Z.le v) a -> Forall (Z.le v) b -> pl = op_bool op pa pb ->
  let is_in := op_bool op (xorb pa ta) (xorb pb tb) in
  merged op is_in (xorb pa ta) (xorb pb tb) a b out ->
  merged op pl pa pb (take_if ta v a) (take_if tb v b) (take_if (xorb is_in pl) v out).
Proof.
  intros Ht Hva Hvb -> is_in (G1 & G2 & G3). pose proof (G2 v Hva Hvb) as Hvout. split_and!.
  - destruct (xorb is_in _); simpl; [by constructor|done].
  - intros x Hxa Hxb.
    assert (Forall (Z.le x) out) by (apply G2; by eapply Forall_take_if).
    destruct (xorb is_in _); simpl; [|done]. constructor; [|done].
    destruct ta; [by inversion Hxa|]. destruct tb; [by inversion Hxb|done].
  - intros c. rewrite !cr_mem_take_if. destruct (Z.leb_spec v c) as [Hle|Hgt].
    + specialize (G3 c). rewrite !andb_true_r. rewrite !(xorb_assoc _ _ (cr_mem _ c)) in G3.
      rewrite <- G3. by destruct (op_bool op pa pb), is_in, (cr_mem out c).
    + assert (Habove : forall l, Forall (Z.le v) l -> cr_mem l c = false).
      { intros l Hl. apply cr_mem_above. eapply Forall_impl; [exact Hl|simpl; lia]. }
      by rewrite !andb_false_r, !Habove, !xorb_false_r by done.
Qed.

Lemma take_if_app t v (l1 l2 : list Z) :
  l1 ++ take_if t v l2 = (l1 ++ take_if t v []) ++ l2 /\ zlen l1 + b2z t = zlen (l1 ++ take_if t v []).
Proof. destruct t; simpl; rewrite <- ?app_assoc, ?app_nil_r; split; auto; zlen_lia. Qed.

Lemma cr_op_loop_spec op fuel cr a1 a' b1 b' :
  cr_ok cr -> StronglySorted Z.le a' -> StronglySorted Z.le b' ->
  (length a' + length b' < fuel)%nat ->
  Z.odd (cr_len cr) = op_bool op (Z.odd (zlen a1)) (Z.odd (zlen b1)) ->
  exists cr' r, cr_op_loop fuel cr (a1 ++ a') (b1 ++ b') (zlen a1) (zlen b1) op = Some (cr', r) /\
    cr_ok cr' /\
    ((r = -1 /\ ~ alloc_total) \/
     (r = 0 /\ exists out, pts cr' = pts cr ++ out /\
       merged op (Z.odd (cr_len cr)) (Z.odd (zlen a1)) (Z.odd (zlen b1)) a' b' out /\
       Z.odd (cr_len cr') = op_bool op (Z.odd (zlen (a1 ++ a'))) (Z.odd (zlen (b1 ++ b'))))).
Proof.
  revert cr a1 a' b1 b'. induction fuel as [|fuel IH]; intros cr a1 a' b1 b' Hok Ha Hb Hf Hpar; [lia|].
  cbn [cr_op_loop].
  destruct (cr_op_next_spec a1 a' b1 b' Ha Hb) as [(-> & -> & ->)|(v & ta & tb & a2 & b2 & -> & -> & -> & Ht & Hva & Hvb)].
  { simpl. exists cr, 0. split_and!; auto. right. split; [done|]. exists [].
    rewrite !app_nil_r. split_and!; auto. split_and!; auto using SSorted_nil.
    intros c. simpl. by rewrite !xorb_false_r. }
  cbn [mbind option_bind]. rewrite !land_1, cr_op_in_bool, b2z_neq, !odd_add_b2z.
  destruct (take_if_app ta v a1 a2) as [-> Hza]. destruct (take_if_app tb v b1 b2) as [-> Hzb].
  rewrite Hza, Hzb. set (is_in := op_bool op (xorb _ ta) (xorb _ tb)).
  pose proof (odd_add_b2z (zlen a1) ta) as Hoa. pose proof (odd_add_b2z (zlen b1) tb) as Hob.
  rewrite Hza in Hoa. rewrite Hzb in Hob.
  assert (Hfu : (length a2 + length b2 < fuel)%nat) by (destruct ta, tb; simpl in *; try done; lia).
  assert (Heq : is_in = op_bool op (Z.odd (zlen (a1 ++ take_if ta v []))) (Z.odd (zlen (b1 ++ take_if tb v []))))
    by (by rewrite Hoa, Hob).
  pose proof (fun cr1 (Hok1 : cr_ok cr1) (Hpar1 : Z.odd (cr_len cr1) = is_in) =>
    IH cr1 (a1 ++ take_if ta v []) a2 (b1 ++ take_if tb v []) b2 Hok1
       (sorted_take_if _ _ _ Ha) (sorted_take_if _ _ _ Hb) Hfu (eq_trans Hpar1 Heq)) as Hrest.
  clear IH. destruct (xorb is_in (Z.odd (cr_len cr))) eqn:Hx.
  - destruct (cr_add_point_spec cr v Hok) as (cr1 & r & -> & Hok1 & [[-> Hp1]|[-> Hna]]); simpl.
    2: { exists cr1, (-1). split_and!; auto. }
    assert (Hpar1 : Z.odd (cr_len cr1) = is_in).
    { apply (f_equal zlen) in Hp1. rewrite zlen_app, !zlen_pts in Hp1 by done.
      rewrite Hp1. change (zlen [v]) with (b2z true). rewrite odd_add_b2z.
      by destruct is_in, (Z.odd (cr_len cr)). }
    destruct (Hrest cr1 Hok1 Hpar1) as (cr' & r & -> & Hok' & Hcase).
    exists cr', r. split_and!; [done..|]. destruct Hcase as [?|(-> & out & G1 & G2 & G3)]; [by left|].
    right. split; [done|]. exists (v :: out). split_and!; [by rewrite G1, Hp1, <- app_assoc| |done].
    rewrite Hpar1, Hoa, Hob in G2.
    pose proof (merged_step op _ _ _ ta tb v a2 b2 out Ht Hva Hvb Hpar G2) as Hm. fold is_in in Hm.
    by rewrite Hx in Hm.
  - assert (Hpar1 : Z.odd (cr_len cr) = is_in) by by destruct is_in, (Z.odd (cr_len cr)).
    destruct (Hrest cr Hok Hpar1) as (cr' & r & -> & Hok' & Hcase).
    exists cr', r. split_and!; [done..|]. destruct Hcase as [?|(-> & out & G1 & G2 & G3)]; [by left|].
    right. split; [done|]. exists out. split_and!; [done| |done].
    rewrite Hpar1, Hoa, Hob in G2.
    pose proof (merged_step op _ _ _ ta tb v a2 b2 out Ht Hva Hvb Hpar G2) as Hm. fold is_in in Hm.
    by rewrite Hx in Hm.
Qed.

Lemma even_odd_len (l : list Z) : Nat.Even (length l) <-> Z.odd (zlen l) = false.
Proof.
  unfold zlen. split.
  - intros [k ->]. rewrite Nat2Z.inj_mul, Z.odd_mul. done.
  - rewrite <- Z.negb_even, negb_false_iff, Z.even_spec. intros [m Hm]. exists (Z.to_nat m). lia.
Qed.

Lemma cr_op_spec cr a b op :
  cr_ok cr -> cr_len cr = 0 -> cr_sorted a -> cr_sorted b ->
  exists cr' r, cr_op cr a b op = Some (cr', r) /\ cr_ok cr' /\
    ((r = -1 /\ ~ alloc_total) \/
     (r = 0 /\ cr_canonical (pts cr') /\
      forall c, cr_mem (pts cr') c = op_bool op (cr_mem a c) (cr_mem b c))).
Proof.
  intros Hok Hlen [Ha Hae] [Hb Hbe]. apply even_odd_len in Hae, Hbe. unfold cr_op.
  destruct (cr_op_loop_spec op (S (length a + length b)) cr [] a [] b) as (cr1 & r & Hl & Hok1 & Hcase);
    [done|done|done|lia|rewrite Hlen; by destruct op|].
  simpl app in *. change (zlen (@nil Z)) with 0 in *. rewrite Hl. cbn [mbind option_bind].
  destruct Hcase as [[-> Hna]|(-> & out & Hp & (Hso & _ & Hm) & Hodd)]; simpl.
  { exists cr1, (-1). split_and!; auto. }
  assert (Hnil : pts cr = []) by (unfold pts; by rewrite Hlen). rewrite Hnil in Hp. simpl in Hp.
  rewrite Hae, Hbe in Hodd. rewrite Hlen in Hm.
  destruct (cr_compress_spec cr1 Hok1) as (cr' & -> & Hok' & _ & Hcan & Hmem & _).
  { rewrite Hp. split; [done|]. apply even_odd_len. rewrite <- Hp, zlen_pts by done.
    rewrite Hodd. by destruct op. }
  simpl. exists cr', 0. split_and!; auto. right. split_and!; auto.
  intros c. rewrite Hmem, Hp. specialize (Hm c).
  by rewrite !xorb_false_l in Hm.
Qed.

Lemma cr_canonical_sorted l : cr_canonical l -> cr_sorted l.
Proof.
  intros [H1 H2]. split; [|done]. clear H2. induction H1 as [|x l Hl IH Hx]; constructor; [done|].
  eapply Forall_impl; [exact Hx|simpl; lia].
Qed.

Lemma cr_mem_range l c lo hi :
  Forall (fun p => lo <= p <= hi) l -> Nat.Even (length l) -> cr_mem l c = true -> lo <= c < hi.
Proof.
  intros Hf He Hm. split.
  - destruct (Z.leb_spec lo c); [done|]. rewrite cr_mem_above in Hm; [done|].
    eapply Forall_impl; [exact Hf|simpl; lia].
  - destruct (Z.ltb_spec c hi); [done|]. assert (Hodd : cr_mem l c = Nat.odd (length l)).
    { clear He Hm. induction Hf as [|p l Hp Hl IH]; [done|]. cbn [cr_mem length].
      rewrite IH, Nat.odd_succ, <- Nat.negb_odd. destruct (Z.leb_spec p c); [|lia].
      by destruct (Nat.odd (length l)). }
    rewrite Hodd, <- Nat.negb_even in Hm. apply Nat.even_spec in He. by rewrite He in Hm.
Qed.

Lemma cr_invert_spec cr :
  cr_ok cr -> cr_sorted (pts cr) -> Forall (in_u 32) (pts cr) ->
  exists cr' r, cr_invert cr = Some (cr', r) /\ cr_ok cr' /\
    ((r = -1 /\ ~ alloc_total) \/
     (r = 0 /\ cr_canonical (pts cr') /\
      forall c, cr_mem (pts cr') c = (0 <=? c) && (c <? UINT32_MAX) && negb (cr_mem (pts cr) c))).
Proof.
  intros Hok [Hso Hev] Hu. unfold cr_invert.
  destruct (cr_realloc cr (cr_len cr + 2)) as [cr1 r] eqn:Hr.
  apply cr_realloc_spec in Hr as (Hok1 & Hp & Hlen & [[-> Hsz]|[-> Hna]]); [|simpl; eauto 10|done].
  pose proof (zlen_pts _ Hok1) as Hz. destruct (points_split _ Hok1) as (rest & Hsp & Hrest).
  destruct rest as [|x [|y rest]]; [zlen_lia..|]. simpl.
  pose proof (zslice_app [] (pts cr1) (x :: y :: rest)) as Hsl.
  rewrite app_nil_l in Hsl. change (zlen (@nil Z)) with 0 in Hsl.
  rewrite Hsp, <- Hlen, <- Hz, Hsl. simpl.
  rewrite zsplice_in_range by zlen_lia. cbn [mbind option_bind].
  assert (exists h, take (Z.to_nat 1) (pts cr1 ++ x :: y :: rest) = [h]) as [h ->].
  { destruct (pts cr1) as [|h t]; [by exists x|by exists h]. }
  assert (drop (Z.to_nat 1 + length (pts cr1)) (pts cr1 ++ x :: y :: rest) = y :: rest) as ->.
  { rewrite (cons_middle x), app_assoc. apply drop_app_length'. zlen_lia. }
  change ([h] ++ pts cr1 ++ y :: rest) with ([] ++ h :: (pts cr1 ++ y :: rest)).
  rewrite zset_mid by done. cbn [mbind option_bind app].
  change (0 :: pts cr1 ++ y :: rest) with ((0 :: pts cr1) ++ y :: rest).
  rewrite zset_mid by zlen_lia. cbn [mbind option_bind].
  set (l := (0 :: pts cr1) ++ UINT32_MAX :: rest).
  assert (Hpts : pts (set_points cr1 l (zlen (pts cr1) + 2)) = 0 :: pts cr1 ++ [UINT32_MAX]).
  { unfold pts at 1. simpl cr_len. simpl cr_points. subst l.
    rewrite (cons_middle UINT32_MAX), app_assoc. apply take_app_length'. zlen_lia. }
  destruct (cr_compress_spec (set_points cr1 l (zlen (pts cr1) + 2))) as (cr' & -> & Hok' & _ & Hcan & Hmem & _).
  { destruct Hok1 as [H1 H2]. split; simpl; subst l; [rewrite <- H1, Hsp|]; zlen_lia. }
  { rewrite Hpts, Hp. split.
    - rewrite Forall_forall in Hu. unfold in_u in Hu. constructor.
      + apply StronglySorted_app_2; [|done|repeat constructor].
        intros x1 x2 Hx1 ->%list_elem_of_singleton. specialize (Hu x1 Hx1).
        unfold UINT32_MAX. lia.
      + apply Forall_app. split; [|repeat constructor; done].
        apply Forall_forall. intros x1 Hx1. specialize (Hu x1 Hx1). lia.
    - apply even_odd_len in Hev. apply even_odd_len.
      replace (zlen (0 :: pts cr ++ [UINT32_MAX])) with (zlen (pts cr) + 2) by zlen_lia.
      rewrite Z.odd_add, Hev. done. }
  simpl. exists cr', 0. split_and!; auto. right. split_and!; auto. intros c.
  rewrite Hmem, Hpts, Hp. simpl. rewrite cr_mem_app. simpl.
  assert (Hrange : cr_mem (pts cr) c = true -> 0 <= c < UINT32_MAX).
  { apply cr_mem_range; [|done]. eapply Forall_impl; [exact Hu|]. unfold in_u, UINT32_MAX. simpl. lia. }
  destruct (cr_mem (pts cr) c); [specialize (Hrange eq_refl)|];
    destruct (Z.leb_spec 0 c), (Z.leb_spec UINT32_MAX c), (Z.ltb_spec c UINT32_MAX); simpl; try done; try lia.
  unfold UINT32_MAX in *. lia.
Qed.
End CharRange.

(** ** Properties *)

(** C4: [cr_op] computes the union, intersection or symmetric difference of two
    sorted sets: for every allocator it either reports an allocation failure or
    leaves in [cr] a canonical list of points (strictly increasing, of even length)
    whose members are exactly those of the combined sets; it reports no failure
    when the allocator does not fail. *)
Theorem cr_op_correct `{!Allocator} cr a b op :
  cr_ok cr -> cr_len cr = 0 -> cr_sorted a -> cr_sorted b ->
  exists cr' r, cr_op cr a b op = Some (cr', r) /\ cr_ok cr' /\
    ((r = -1 /\ ~ alloc_total) \/
     (r = 0 /\ cr_canonical (pts cr') /\
      forall c, cr_mem (pts cr') c = op_bool op (cr_mem a c) (cr_mem b c))).
Proof. apply cr_op_spec. Qed.

Lemma cr_init_ok `{!Allocator} o : cr_ok (cr_init o).
Proof. split; done. Qed.

(** Concrete sorted lists are recognised by computation. *)
Fixpoint sortedb (l : list Z) : bool :=
  match l with x :: (y :: _) as t => (x <=? y) && sortedb t | _ => true end.

Lemma sortedb_sorted l : sortedb l = true -> StronglySorted Z.le l.
Proof.
  induction l as [|x [|y t] IH]; intros Hs; [constructor|repeat constructor|].
  apply andb_prop in Hs as [Hxy Hs]. apply Z.leb_le in Hxy. specialize (IH Hs).
  constructor; [done|]. inversion_clear IH as [|?? _ Hy]. constructor; [done|].
  eapply Forall_impl; [exact Hy|simpl; lia].
Qed.

Lemma cr_sorted_dec l : sortedb l && Nat.even (length l) = true -> cr_sorted l.
Proof. intros [? ?]%andb_prop. split; [by apply sortedb_sorted|by apply Nat.even_spec]. Qed.

Lemma cr_op_correct_witness :
  exists cr' r, @cr_op malloc_ok (@cr_init malloc_ok tt) [1; 5; 5; 9] [3; 7] CR_OP_XOR = Some (cr', r) /\
    cr_ok cr' /\
    ((r = -1 /\ ~ @alloc_total malloc_ok) \/
     (r = 0 /\ cr_canonical (pts cr') /\
      forall c, cr_mem (pts cr') c = xorb (cr_mem [1; 5; 5; 9] c) (cr_mem [3; 7] c))).
Proof.
  exact (@cr_op_correct malloc_ok (@cr_init malloc_ok tt) [1; 5; 5; 9] [3; 7] CR_OP_XOR
    (@cr_init_ok malloc_ok tt) eq_refl (cr_sorted_dec [1; 5; 5; 9] eq_refl) (cr_sorted_dec [3; 7] eq_refl)).
Defined.

(** [cr_invert] complements a sorted set of 32-bit points on the whole range
    below [UINT32_MAX] (which stands for infinity), in canonical form; nothing outside that
    range is a member of the result. *)
Theorem cr_invert_correct `{!Allocator} cr :
  cr_ok cr -> cr_sorted (pts cr) -> Forall (in_u 32) (pts cr) ->
  exists cr' r, cr_invert cr = Some (cr', r) /\ cr_ok cr' /\
    ((r = -1 /\ ~ alloc_total) \/
     (r = 0 /\ cr_canonical (pts cr') /\
      forall c, cr_mem (pts cr') c = (0 <=? c) && (c <? UINT32_MAX) && negb (cr_mem (pts cr) c))).
Proof. apply cr_invert_spec. Qed.

(** The digits, as a set. *)
Definition cr_digits : @CharRange malloc_ok :=
  @mkCharRange malloc_ok 2 2 [48; 58] (tt : @aopaque malloc_ok).

Lemma cr_invert_correct_witness :
  exists cr' r, cr_invert cr_digits = Some (cr', r) /\ cr_ok cr' /\
    ((r = -1 /\ ~ @alloc_total malloc_ok) \/
     (r = 0 /\ cr_canonical (pts cr') /\
      forall c, cr_mem (pts cr') c = (0 <=? c) && (c <? UINT32_MAX) && negb (cr_mem [48; 58] c))).
Proof.
  refine (@cr_invert_correct malloc_ok cr_digits _ (cr_sorted_dec [48; 58] eq_refl) _).
  - split; vm_compute; intuition congruence.
  - repeat constructor; vm_compute; congruence.
Defined.
