(* ===== verification/UnicodeTables.v ===== *)
(** Tables of [libunicode-table.h] (written there by [unicode_gen.c]): case
    conversion and the run-length encoded character properties that identifiers
    and case operations use. *)

From S2P Require Import Prelude.

Definition case_conv_table1 : list Z := [
  2136624; 3185152; 5931379; 6297392; 7079728; 7307699; 7345920; 8128256; 8356096; 8400960; 9961923; 9994640; 10028608; 10260544; 10781108; 10825280;
  12321072; 12355136; 12550512; 12583168; 12615984; 12649536; 12779824; 12812864; 12878384; 12943936; 13041968; 13074736; 13107504; 13140544; 13205808; 13238576;
  13271296; 13304112; 13336880; 13369920; 13435136; 13500720; 13533488; 13566208; 13599024; 13633088; 13828400; 13861440; 13926704; 14025280; 14090544; 14123584;
  14189104; 14255168; 14385456; 14418496; 14549568; 14647552; 14811984; 14910288; 15008592; 15110208; 15630592; 15667776; 16253364; 16286544; 16384576; 16449840;
  16482608; 16525376; 17826096; 17896000; 18678065; 18711104; 18776368; 18809137; 18842113; 18907712; 18972976; 19005744; 19038512; 19073600; 19398913; 19431681;
  19464449; 19497216; 19529984; 19595776; 19693824; 19759360; 19792129; 19923200; 19955969; 20021504; 20087041; 20119809; 20185344; 20218112; 20250881; 20283649;
  20316417; 20414720; 20480257; 20513024; 20611328; 20873473; 20971776; 21037313; 21070080; 21201153; 21233920; 21266688; 21299712; 21364992; 21561600; 21922049;
  21954817; 27427187; 28836928; 29033024; 29197056; 29327664; 29557040; 29623088; 29753648; 29819440; 29884880; 29921584; 30509360; 30802176; 30835456; 30933459;
  30970112; 31523187; 31557888; 31850752; 31883776; 31949104; 31981939; 32014707; 32145779; 32178547; 32211200; 32249920; 33030515; 33063283; 33095936; 33128704;
  33161632; 33194355; 33260096; 33325360; 33358400; 33456944; 33558576; 34086960; 35135488; 36179968; 36708928; 38090304; 39846192; 39882304; 40337664; 40394816;
  43558448; 45131264; 46367157; 139470385; 140738865; 140935473; 141044480; 142508800; 164646929; 167249424; 167511584; 239075700; 239108468; 239141236; 239174004; 239206772;
  239239540; 239272308; 239305088; 239337856; 239610672; 241074992; 247234817; 247365889; 247922945; 251690560; 255793216; 256573877; 256606646; 256639414; 256672182; 256704951;
  256737664; 256835888; 256925760; 260048896; 260311088; 260572672; 260834864; 261097472; 261359664; 261621760; 261883952; 262145536; 262407728; 262668720; 262701312; 262734291;
  262766848; 262799827; 262832384; 262865363; 262897920; 262963504; 263029040; 263094576; 263160112; 263194624; 263456816; 263717376; 263783424; 263913984; 263979521; 264045057;
  264110593; 264243383; 264505447; 264767672; 265029736; 265291960; 265554024; 265814528; 265879993; 265912753; 265945529; 266011057; 266043863; 266076720; 266142256; 266207585;
  266273139; 266404281; 266437042; 266469818; 266535346; 266568152; 266601520; 266731874; 266863104; 266928592; 266961360; 267059632; 267092432; 267125296; 267190832; 267387393;
  267452883; 267485651; 267518394; 267550977; 267583920; 267616723; 267649584; 267715120; 267780401; 267977146; 268009906; 268042683; 268108210; 268141017; 268173872; 268239408;
  268304738; 278069664; 278200736; 278233504; 278462769; 279380225; 279973937; 280498177; 281117248; 307960369; 308812289; 369111089; 370683905; 372245056; 372310320; 372343088;
  372375856; 372408576; 372441344; 372475456; 372670768; 372703536; 372736304; 372769072; 372834880; 372933184; 373228080; 373318720; 376800320; 377029184; 377497088; 378765568;
  378962176; 1394617920; 1396710464; 1402015296; 1402551872; 1404863552; 1404993840; 1405028928; 1405452864; 1405518128; 1405617216; 1405747457; 1405817920; 1406468400; 1406501168; 1406533936;
  1406566704; 1406599472; 1406665008; 1406697776; 1406730544; 1406763313; 1406799936; 1407320369; 1407353136; 1407385904; 1407419456; 1407713856; 1407910976; 1408926272; 1437171969; 1438142496;
  2105541042; 2105573810; 2105606578; 2105639386; 2105672154; 2105704883; 2105737651; 2106163643; 2106196411; 2106229179; 2106261948; 2106294715; 2140183089; 2141231617; 2181048369; 2182359041;
  2186814513; 2188125185; 2193099569; 2193493809; 2194016049; 2194276913; 2194377473; 2194771713; 2195293953; 2195554817; 2252354353; 2254451457; 2354061361; 2355109889; 3072335921; 3073384449;
  4102038065; 4103152129].

Definition case_conv_table2 : list Z := [
  1; 0; 156; 6; 7; 77; 3; 4; 16; 0; 143; 11; 0; 0; 17; 0;
  8; 0; 83; 74; 81; 0; 82; 0; 83; 0; 58; 84; 85; 0; 87; 89;
  63; 93; 92; 0; 70; 97; 99; 66; 100; 0; 102; 0; 104; 0; 106; 0;
  108; 0; 110; 0; 0; 64; 0; 0; 0; 0; 26; 0; 147; 0; 0; 32;
  53; 0; 39; 0; 33; 0; 36; 34; 42; 0; 19; 107; 109; 0; 38; 36;
  39; 20; 22; 24; 27; 28; 62; 30; 63; 31; 57; 61; 34; 33; 65; 30;
  64; 37; 37; 38; 40; 32; 42; 72; 44; 67; 46; 75; 48; 76; 50; 68;
  66; 153; 0; 0; 149; 143; 125; 126; 131; 132; 18; 128; 130; 118; 119; 18;
  123; 163; 124; 120; 121; 138; 146; 152; 166; 160; 133; 0; 154; 161; 147; 117;
  51; 149; 0; 142; 0; 116; 153; 152; 151; 150; 0; 0; 158; 0; 156; 0;
  161; 160; 21; 46; 47; 48; 180; 181; 79; 170; 169; 18; 20; 30; 33; 34;
  34; 42; 52; 53; 166; 167; 54; 31; 73; 0; 0; 151; 1; 90; 218; 29;
  54; 5; 0; 196; 195; 198; 197; 200; 199; 202; 201; 204; 203; 196; 213; 69;
  214; 66; 215; 70; 216; 206; 208; 210; 212; 218; 217; 238; 246; 254; 14; 7;
  15; 128; 159; 0; 33; 128; 163; 237; 0; 192; 64; 198; 96; 231; 219; 230;
  153; 192; 0; 0; 6; 96; 220; 41; 253; 21; 18; 6; 22; 248; 221; 6;
  21; 18; 132; 8; 198; 22; 255; 223; 3; 192; 64; 0; 70; 96; 222; 224;
  109; 55; 56; 57; 21; 20; 23; 22; 0; 26; 25; 28; 27; 0; 95; 183;
  101; 68; 71; 0; 79; 98; 78; 80; 0; 0; 72; 0; 0; 0; 163; 164;
  165; 0; 0; 0; 0; 0; 182; 0; 0; 90; 0; 71; 0; 91; 86; 88;
  96; 94; 112; 105; 111; 78; 0; 59; 103; 184; 0; 0; 0; 0; 69; 168;
  138; 139; 140; 171; 172; 88; 88; 175; 148; 176; 111; 178; 93; 92; 95; 94;
  97; 96; 102; 103; 104; 105; 98; 99; 100; 101; 107; 106; 109; 108; 111; 110;
  113; 112].

Definition case_conv_ext : list Z := [
  921; 776; 769; 933; 787; 768; 834; 913; 919; 937; 70; 73; 76; 83; 105; 775;
  700; 78; 74; 780; 1333; 1362; 72; 817; 84; 87; 778; 89; 65; 702; 7944; 8064;
  7976; 8080; 8040; 8096; 8122; 902; 8115; 8138; 905; 8131; 929; 8186; 911; 8179; 1348; 1350;
  1339; 1358; 1341; 952; 1122; 42570; 7776; 969; 107; 229].

Definition unicode_prop_Cased1_table : list Z := [
  64; 169; 128; 142; 128; 252; 128; 211; 128; 140; 128; 141; 129; 141; 2; 128;
  225; 128; 145; 133; 154; 1; 0; 1; 17; 0; 1; 4; 8; 1; 8; 48;
  8; 1; 21; 32; 0; 57; 153; 49; 157; 132; 64; 148; 128; 214; 130; 166;
  128; 65; 98; 128; 166; 128; 75; 114; 128; 76; 2; 248; 2; 128; 143; 128;
  176; 64; 219; 8; 128; 65; 208; 128; 140; 128; 143; 140; 228; 3; 1; 137;
  0; 20; 40; 16; 17; 2; 1; 24; 11; 36; 75; 38; 1; 1; 134; 229;
  128; 96; 121; 182; 129; 64; 145; 129; 189; 136; 148; 5; 128; 152; 128; 162;
  0; 128; 155; 18; 130; 67; 52; 162; 6; 128; 141; 96; 92; 21; 1; 16;
  169; 128; 136; 96; 204; 68; 212; 128; 198; 1; 8; 9; 11; 128; 139; 0;
  6; 128; 192; 3; 15; 6; 128; 155; 3; 4; 0; 22; 128; 65; 83; 129;
  152; 128; 152; 128; 158; 128; 152; 128; 158; 128; 152; 128; 158; 128; 152; 128;
  158; 128; 152; 7; 71; 51; 137; 128; 147; 45; 65; 4; 189; 80; 193; 153;
  133; 153; 133; 153].

Definition unicode_prop_Cased1_index : list Z := [
  185; 2; 224; 192; 29; 32; 229; 44; 32; 177; 7; 33; 193; 214; 33; 74;
  241; 1; 138; 241; 1].

Definition unicode_prop_Case_Ignorable_table : list Z := [
  166; 5; 128; 138; 128; 162; 0; 128; 198; 3; 0; 3; 1; 129; 65; 246;
  64; 191; 25; 24; 136; 8; 128; 64; 250; 134; 64; 206; 4; 128; 176; 172;
  0; 1; 1; 0; 171; 128; 138; 133; 137; 138; 0; 162; 128; 137; 148; 143;
  128; 228; 56; 137; 3; 160; 0; 128; 157; 154; 218; 138; 185; 138; 24; 8;
  151; 151; 170; 130; 171; 6; 13; 135; 168; 185; 182; 0; 3; 59; 2; 134;
  137; 129; 140; 128; 142; 128; 185; 3; 31; 128; 147; 129; 153; 1; 129; 184;
  3; 11; 9; 18; 128; 157; 10; 128; 138; 129; 184; 3; 32; 11; 128; 147;
  129; 149; 40; 128; 185; 1; 0; 31; 6; 129; 138; 129; 157; 128; 188; 128;
  139; 128; 177; 2; 128; 182; 0; 20; 16; 30; 129; 138; 129; 156; 128; 185;
  1; 5; 4; 129; 147; 129; 155; 129; 184; 11; 31; 128; 147; 129; 156; 128;
  199; 6; 16; 128; 217; 1; 134; 138; 136; 225; 1; 136; 136; 0; 134; 200;
  129; 154; 0; 0; 128; 182; 141; 4; 1; 132; 138; 128; 163; 136; 128; 229;
  24; 40; 9; 129; 152; 11; 130; 143; 131; 140; 1; 13; 128; 142; 128; 221;
  128; 66; 95; 130; 67; 177; 130; 156; 129; 157; 129; 157; 129; 191; 8; 55;
  1; 138; 16; 32; 172; 132; 178; 128; 192; 129; 161; 128; 245; 19; 129; 136;
  5; 130; 64; 218; 9; 128; 185; 0; 48; 0; 1; 61; 137; 8; 166; 7;
  158; 176; 131; 175; 0; 32; 4; 128; 167; 136; 139; 129; 159; 25; 8; 130;
  183; 0; 10; 0; 130; 185; 57; 129; 191; 133; 209; 16; 140; 6; 24; 40;
  17; 177; 190; 140; 128; 161; 228; 65; 188; 0; 130; 138; 130; 140; 130; 140;
  130; 140; 129; 139; 39; 129; 137; 1; 1; 132; 176; 32; 137; 0; 140; 128;
  143; 140; 178; 160; 75; 138; 129; 240; 130; 252; 128; 142; 128; 223; 159; 174;
  128; 65; 212; 128; 163; 26; 36; 128; 220; 133; 220; 130; 96; 111; 21; 128;
  68; 225; 133; 65; 13; 128; 225; 24; 137; 0; 155; 131; 207; 129; 141; 161;
  205; 128; 150; 130; 230; 18; 15; 2; 3; 128; 152; 12; 128; 64; 150; 129;
  153; 145; 140; 128; 165; 135; 152; 138; 173; 130; 175; 1; 25; 129; 144; 128;
  148; 129; 193; 41; 9; 129; 139; 7; 128; 162; 128; 138; 128; 178; 0; 17;
  12; 8; 128; 154; 128; 141; 12; 8; 128; 227; 132; 136; 130; 248; 1; 3;
  128; 96; 79; 47; 128; 64; 146; 144; 66; 60; 143; 16; 139; 143; 161; 1;
  128; 64; 168; 6; 5; 128; 138; 128; 162; 0; 128; 174; 128; 172; 129; 194;
  128; 148; 130; 66; 0; 128; 64; 225; 128; 64; 148; 132; 68; 4; 40; 169;
  128; 136; 66; 69; 16; 12; 131; 167; 19; 128; 64; 164; 129; 66; 60; 131;
  65; 130; 129; 207; 130; 197; 138; 176; 131; 250; 128; 181; 142; 168; 1; 129;
  137; 130; 176; 25; 9; 3; 128; 137; 128; 177; 130; 163; 32; 135; 189; 128;
  139; 129; 179; 136; 137; 25; 128; 222; 17; 0; 13; 1; 128; 64; 156; 2;
  135; 148; 129; 184; 10; 128; 164; 50; 132; 64; 194; 57; 16; 128; 150; 128;
  211; 40; 3; 8; 129; 64; 237; 29; 8; 129; 154; 129; 212; 57; 0; 129;
  233; 0; 1; 40; 128; 228; 17; 24; 132; 65; 2; 136; 1; 64; 255; 8;
  3; 128; 64; 143; 25; 11; 128; 159; 137; 167; 41; 31; 128; 136; 41; 130;
  173; 140; 1; 65; 149; 48; 40; 128; 209; 149; 14; 1; 1; 249; 42; 0;
  8; 48; 128; 199; 10; 0; 128; 65; 90; 129; 138; 129; 179; 36; 0; 128;
  84; 236; 144; 133; 142; 96; 54; 153; 132; 186; 134; 136; 131; 68; 10; 128;
  190; 144; 191; 8; 129; 96; 64; 10; 24; 48; 129; 76; 157; 8; 131; 82;
  91; 173; 129; 150; 66; 31; 130; 136; 143; 14; 157; 131; 64; 147; 130; 71;
  186; 182; 131; 177; 56; 141; 128; 149; 32; 142; 69; 79; 48; 144; 14; 1;
  4; 132; 189; 160; 128; 64; 159; 141; 65; 111; 128; 188; 131; 65; 250; 132;
  67; 223; 134; 236; 135; 74; 174; 132; 108; 12; 0; 128; 157; 223; 255; 64;
  239].

Definition unicode_prop_Case_Ignorable_index : list Z := [
  190; 5; 0; 254; 7; 0; 82; 10; 160; 193; 11; 0; 130; 13; 0; 63;
  16; 128; 212; 23; 64; 207; 26; 32; 245; 28; 0; 128; 32; 0; 22; 160;
  0; 198; 168; 0; 194; 170; 96; 86; 254; 32; 177; 7; 1; 117; 16; 1;
  235; 18; 33; 65; 22; 1; 92; 26; 1; 67; 31; 1; 46; 207; 65; 37;
  224; 1; 240; 1; 14].

Definition unicode_prop_ID_Start_table : list Z := [
  192; 153; 133; 153; 174; 128; 137; 3; 4; 150; 128; 158; 128; 65; 201; 131;
  139; 141; 38; 0; 128; 64; 128; 32; 9; 24; 5; 0; 16; 0; 147; 128;
  210; 128; 64; 138; 135; 64; 165; 128; 165; 8; 133; 168; 198; 154; 27; 172;
  170; 162; 8; 226; 0; 142; 14; 129; 137; 17; 128; 143; 0; 157; 156; 216;
  138; 128; 151; 160; 136; 11; 4; 149; 24; 136; 2; 128; 150; 152; 134; 138;
  132; 151; 5; 144; 169; 185; 181; 16; 145; 6; 137; 142; 143; 31; 9; 129;
  149; 6; 0; 19; 16; 143; 128; 140; 8; 130; 141; 129; 137; 7; 43; 9;
  149; 6; 1; 1; 1; 158; 24; 128; 146; 130; 143; 136; 2; 128; 149; 6;
  1; 4; 16; 145; 128; 142; 129; 150; 128; 138; 57; 9; 149; 6; 1; 4;
  16; 157; 8; 130; 142; 128; 144; 0; 42; 16; 26; 8; 0; 10; 10; 18;
  139; 149; 128; 179; 56; 16; 150; 128; 143; 16; 153; 17; 1; 129; 157; 3;
  56; 16; 150; 128; 137; 4; 16; 158; 8; 129; 142; 129; 144; 136; 2; 128;
  168; 8; 143; 4; 23; 130; 151; 44; 145; 130; 151; 128; 136; 0; 14; 185;
  175; 1; 139; 134; 185; 8; 0; 32; 151; 0; 128; 137; 1; 136; 1; 32;
  128; 148; 131; 159; 128; 190; 56; 163; 154; 132; 242; 170; 147; 128; 143; 43;
  26; 2; 14; 19; 140; 139; 128; 144; 165; 0; 32; 129; 170; 128; 65; 76;
  3; 14; 0; 3; 129; 168; 3; 129; 160; 3; 14; 0; 3; 129; 142; 128;
  184; 3; 129; 194; 164; 143; 143; 213; 13; 130; 66; 107; 129; 144; 128; 153;
  132; 202; 130; 138; 134; 145; 140; 146; 141; 145; 141; 140; 2; 142; 179; 162;
  3; 128; 194; 216; 134; 168; 0; 132; 197; 137; 158; 176; 157; 12; 138; 171;
  131; 153; 181; 150; 136; 180; 209; 128; 220; 174; 144; 135; 181; 157; 140; 129;
  137; 171; 153; 163; 168; 130; 137; 163; 129; 136; 134; 170; 10; 168; 24; 40;
  10; 4; 64; 191; 191; 65; 21; 13; 129; 165; 13; 15; 0; 0; 0; 128;
  158; 129; 180; 6; 0; 18; 6; 19; 13; 131; 140; 34; 6; 243; 128; 140;
  128; 143; 140; 228; 3; 1; 137; 0; 13; 40; 0; 0; 128; 143; 11; 36;
  24; 144; 168; 74; 118; 64; 228; 43; 17; 139; 165; 0; 32; 129; 183; 48;
  143; 150; 136; 48; 48; 48; 48; 48; 48; 48; 134; 66; 37; 130; 152; 136;
  52; 12; 131; 213; 28; 128; 217; 3; 132; 170; 128; 221; 144; 159; 175; 143;
  65; 255; 89; 191; 191; 96; 86; 140; 194; 173; 129; 65; 12; 130; 143; 137;
  129; 147; 174; 143; 158; 129; 207; 166; 136; 129; 230; 129; 191; 33; 0; 4;
  151; 143; 2; 3; 128; 150; 156; 179; 141; 177; 189; 42; 0; 129; 138; 155;
  137; 150; 152; 156; 134; 174; 155; 128; 143; 32; 137; 137; 32; 168; 150; 16;
  135; 147; 150; 16; 130; 177; 0; 17; 12; 8; 0; 151; 17; 138; 50; 139;
  41; 41; 133; 136; 48; 48; 170; 128; 141; 133; 242; 156; 96; 43; 163; 139;
  150; 131; 176; 96; 33; 3; 65; 109; 129; 233; 165; 134; 139; 36; 0; 137;
  128; 140; 4; 0; 1; 1; 128; 235; 160; 65; 106; 145; 191; 129; 181; 167;
  139; 243; 32; 64; 134; 163; 153; 133; 153; 138; 216; 21; 13; 13; 10; 162;
  139; 128; 153; 128; 146; 1; 128; 142; 129; 141; 161; 250; 196; 180; 65; 10;
  156; 130; 176; 174; 159; 140; 157; 132; 165; 137; 157; 129; 163; 31; 4; 169;
  64; 157; 145; 163; 131; 163; 131; 167; 135; 179; 139; 138; 128; 142; 6; 1;
  128; 138; 128; 142; 6; 1; 194; 65; 54; 136; 149; 137; 135; 151; 40; 169;
  128; 136; 196; 41; 0; 171; 1; 16; 129; 150; 137; 150; 136; 158; 192; 146;
  1; 137; 149; 137; 153; 197; 183; 41; 191; 128; 142; 24; 16; 156; 169; 156;
  130; 156; 162; 56; 155; 154; 181; 137; 149; 137; 146; 140; 145; 237; 200; 182;
  178; 140; 178; 140; 163; 65; 91; 169; 41; 205; 156; 137; 7; 149; 169; 145;
  173; 148; 154; 150; 139; 180; 184; 9; 128; 140; 172; 159; 152; 153; 163; 156;
  1; 7; 162; 16; 139; 175; 141; 131; 148; 0; 128; 162; 145; 128; 152; 146;
  129; 190; 48; 0; 24; 142; 128; 137; 134; 174; 165; 57; 9; 149; 6; 1;
  4; 16; 145; 128; 139; 132; 64; 157; 180; 145; 131; 147; 130; 157; 175; 147;
  8; 128; 64; 183; 174; 168; 131; 163; 175; 147; 128; 186; 170; 140; 128; 198;
  154; 164; 134; 64; 184; 171; 243; 191; 158; 57; 1; 56; 8; 151; 142; 0;
  128; 221; 57; 166; 143; 0; 128; 155; 128; 137; 167; 48; 148; 128; 138; 173;
  146; 128; 145; 200; 65; 6; 136; 128; 164; 144; 128; 176; 157; 239; 48; 8;
  165; 148; 128; 152; 40; 8; 159; 141; 128; 65; 70; 146; 142; 0; 140; 128;
  161; 251; 128; 206; 67; 153; 229; 238; 144; 64; 195; 74; 75; 224; 142; 68;
  47; 144; 133; 79; 184; 66; 70; 96; 33; 184; 66; 56; 134; 158; 144; 206;
  144; 157; 145; 175; 143; 131; 158; 148; 132; 146; 66; 175; 191; 255; 202; 32;
  193; 140; 191; 8; 128; 155; 87; 247; 135; 68; 213; 169; 136; 96; 34; 230;
  24; 48; 8; 65; 34; 142; 128; 156; 17; 128; 141; 31; 65; 139; 73; 3;
  234; 132; 140; 130; 136; 134; 137; 87; 101; 212; 128; 198; 1; 8; 9; 11;
  128; 139; 0; 6; 128; 192; 3; 15; 6; 128; 155; 3; 4; 0; 22; 128;
  65; 83; 129; 152; 128; 152; 128; 158; 128; 152; 128; 158; 128; 152; 128; 158;
  128; 152; 128; 158; 128; 152; 7; 71; 51; 158; 45; 65; 4; 189; 64; 145;
  172; 137; 134; 143; 128; 65; 64; 157; 145; 171; 65; 227; 155; 66; 243; 48;
  24; 8; 142; 128; 64; 196; 186; 195; 48; 68; 179; 24; 154; 1; 0; 8;
  128; 137; 3; 0; 0; 40; 24; 0; 0; 2; 1; 0; 8; 0; 0; 0;
  0; 1; 0; 11; 6; 3; 3; 0; 128; 137; 128; 144; 34; 4; 128; 144;
  81; 67; 96; 166; 223; 159; 80; 57; 133; 64; 221; 129; 86; 129; 141; 93;
  48; 76; 30; 66; 29; 69; 225; 83; 74; 132; 80; 95].

Definition unicode_prop_ID_Start_index : list Z := [
  246; 3; 32; 166; 7; 0; 169; 9; 32; 177; 10; 0; 186; 11; 32; 59;
  13; 32; 199; 14; 32; 73; 18; 0; 155; 22; 0; 172; 25; 0; 192; 29;
  128; 128; 32; 32; 112; 45; 0; 0; 50; 0; 218; 167; 0; 76; 170; 32;
  199; 215; 32; 252; 253; 32; 157; 2; 33; 150; 5; 1; 243; 8; 1; 179;
  12; 33; 115; 17; 97; 52; 19; 1; 27; 23; 33; 138; 26; 1; 52; 31;
  33; 191; 106; 1; 35; 177; 161; 173; 212; 1; 111; 215; 1; 255; 231; 97;
  94; 238; 1; 225; 235; 34; 176; 35; 3].

Definition unicode_prop_ID_Continue1_table : list Z := [
  175; 137; 164; 128; 214; 128; 66; 71; 239; 150; 128; 64; 250; 132; 65; 8;
  172; 0; 1; 1; 0; 199; 138; 175; 158; 40; 228; 49; 41; 8; 25; 137;
  150; 128; 157; 154; 218; 138; 142; 137; 160; 136; 136; 128; 151; 24; 136; 2;
  4; 170; 130; 187; 135; 169; 151; 128; 160; 181; 16; 145; 6; 137; 9; 137;
  144; 130; 183; 0; 49; 9; 130; 136; 128; 137; 9; 137; 141; 1; 130; 183;
  0; 35; 9; 18; 128; 147; 139; 16; 138; 130; 183; 0; 56; 16; 130; 147;
  9; 137; 137; 40; 130; 183; 0; 49; 9; 22; 130; 137; 9; 137; 145; 128;
  186; 34; 16; 131; 136; 128; 141; 137; 143; 132; 182; 0; 48; 16; 30; 129;
  138; 9; 137; 144; 130; 183; 0; 48; 16; 30; 129; 138; 9; 137; 16; 139;
  131; 182; 8; 48; 16; 131; 136; 128; 137; 9; 137; 144; 130; 197; 3; 40;
  0; 61; 137; 9; 188; 1; 134; 139; 56; 137; 214; 1; 136; 138; 48; 137;
  189; 13; 137; 138; 0; 0; 3; 129; 176; 147; 1; 132; 138; 128; 163; 136;
  128; 227; 147; 128; 137; 139; 27; 16; 17; 50; 131; 140; 139; 128; 142; 66;
  190; 130; 136; 136; 67; 159; 131; 155; 130; 156; 129; 157; 129; 191; 159; 136;
  1; 137; 160; 16; 138; 64; 142; 128; 245; 139; 131; 139; 137; 137; 255; 138;
  187; 132; 184; 137; 128; 156; 129; 138; 133; 137; 149; 141; 128; 143; 176; 132;
  174; 144; 138; 137; 144; 136; 139; 130; 157; 140; 129; 137; 171; 141; 175; 147;
  135; 137; 133; 137; 245; 16; 148; 24; 40; 10; 64; 197; 191; 66; 62; 129;
  146; 128; 250; 140; 24; 130; 139; 75; 253; 130; 64; 140; 128; 223; 159; 66;
  41; 133; 232; 129; 96; 117; 132; 137; 196; 3; 137; 159; 129; 207; 129; 65;
  15; 2; 3; 128; 150; 35; 128; 210; 129; 177; 145; 137; 137; 133; 145; 140;
  138; 155; 135; 152; 140; 171; 131; 174; 141; 142; 137; 138; 128; 137; 137; 174;
  141; 139; 7; 9; 137; 160; 130; 177; 0; 17; 12; 8; 128; 168; 36; 129;
  64; 235; 56; 9; 137; 96; 79; 35; 128; 66; 224; 143; 143; 143; 17; 151;
  130; 64; 191; 137; 164; 128; 66; 188; 128; 64; 225; 128; 64; 148; 132; 65;
  36; 137; 69; 86; 16; 12; 131; 167; 19; 128; 64; 164; 129; 66; 60; 31;
  137; 65; 112; 129; 207; 130; 197; 138; 176; 131; 249; 130; 180; 142; 158; 138;
  9; 137; 131; 172; 138; 48; 172; 137; 42; 163; 141; 128; 137; 33; 171; 128;
  139; 130; 175; 141; 59; 128; 139; 209; 139; 40; 8; 64; 156; 139; 132; 137;
  43; 182; 8; 49; 9; 130; 136; 128; 137; 9; 50; 132; 64; 191; 145; 136;
  137; 24; 208; 147; 139; 137; 64; 212; 49; 136; 154; 129; 209; 144; 142; 137;
  208; 140; 135; 137; 210; 142; 131; 137; 64; 241; 142; 64; 164; 137; 197; 40;
  9; 24; 0; 129; 139; 137; 246; 49; 50; 128; 155; 137; 167; 48; 31; 128;
  136; 138; 173; 143; 65; 148; 56; 135; 143; 137; 183; 149; 128; 141; 249; 42;
  0; 8; 48; 7; 137; 175; 32; 8; 39; 137; 65; 72; 131; 136; 8; 128;
  175; 50; 132; 140; 137; 84; 229; 5; 142; 96; 54; 9; 137; 213; 137; 165;
  132; 186; 134; 152; 137; 67; 244; 0; 182; 51; 208; 128; 138; 129; 96; 76;
  170; 129; 82; 96; 173; 129; 150; 66; 29; 34; 47; 57; 134; 157; 131; 64;
  147; 130; 69; 136; 177; 65; 255; 182; 131; 177; 56; 141; 128; 149; 32; 142;
  69; 79; 48; 144; 14; 1; 4; 227; 128; 64; 159; 134; 136; 137; 65; 99;
  128; 188; 141; 65; 241; 141; 67; 213; 134; 236; 52; 137; 82; 149; 137; 108;
  5; 5; 64; 239].

Definition unicode_prop_ID_Continue1_index : list Z := [
  250; 6; 0; 112; 9; 0; 240; 10; 64; 87; 12; 0; 240; 13; 96; 199;
  15; 32; 234; 23; 64; 5; 27; 0; 65; 32; 0; 12; 168; 128; 55; 170;
  32; 80; 254; 32; 58; 13; 33; 116; 17; 1; 90; 20; 33; 68; 25; 129;
  90; 29; 161; 245; 106; 33; 69; 210; 65; 175; 226; 33; 240; 1; 14].

