(* ===== verification/CaseConv.v ===== *)
(** Case conversion, JS regexp canonicalization and property look-up of
    [libunicode.c], over the tables of [libunicode-table.h]. *)

From S2P Require Import Prelude UnicodeTables.

(** ** Definitions *)

Definition LRE_CC_RES_LEN_MAX : Z := 3.

(** [RUN_TYPE_*]: how the characters of a table entry are converted. *)
Inductive run_type :=
  | RUN_TYPE_U | RUN_TYPE_L | RUN_TYPE_UF | RUN_TYPE_LF | RUN_TYPE_UL | RUN_TYPE_LSU
  | RUN_TYPE_U2L_399_EXT2 | RUN_TYPE_UF_D20 | RUN_TYPE_UF_D1_EXT | RUN_TYPE_U_EXT
  | RUN_TYPE_LF_EXT | RUN_TYPE_UF_EXT2 | RUN_TYPE_LF_EXT2 | RUN_TYPE_UF_EXT3.

#[export] Instance run_type_eq_dec : EqDecision run_type.
Proof. solve_decision. Defined.

(** The [switch] of the C code: a type above 12 takes the default branch. *)
Definition run_type_of (t : Z) : run_type :=
  nth (Z.to_nat t)
    [RUN_TYPE_U; RUN_TYPE_L; RUN_TYPE_UF; RUN_TYPE_LF; RUN_TYPE_UL; RUN_TYPE_LSU;
     RUN_TYPE_U2L_399_EXT2; RUN_TYPE_UF_D20; RUN_TYPE_UF_D1_EXT; RUN_TYPE_U_EXT;
     RUN_TYPE_LF_EXT; RUN_TYPE_UF_EXT2; RUN_TYPE_LF_EXT2] RUN_TYPE_UF_EXT3.

(** The fields of an entry of [case_conv_table1]. *)
Definition cc_code (v : Z) : Z := v ≫ (32 - 17).
Definition cc_len (v : Z) : Z := (v ≫ (32 - 17 - 7)) .& 0x7f.
Definition cc_type (v : Z) : Z := (v ≫ (32 - 17 - 7 - 4)) .& 0xf.
Definition cc_data (idx v : Z) : Z := ((v .& 0xf) ≪ 8) .| ztab case_conv_table2 idx.

(** [lre_case_conv_entry]; [conv1] is the conversion to lower case it calls back
    ([lre_case_conv1(_, 1)]).  The result is the array [res]. *)
Definition lre_case_conv_entry (conv1 : Z -> Z) (c conv_type idx v : Z) : list Z :=
  let is_lower := b2z (negb (conv_type =? 0)) in
  let type := cc_type v in
  let data := cc_data idx v in
  let code := cc_code v in
  let ext i := ztab case_conv_ext i in
  let lower := fun c => if conv_type =? 2 then conv1 c else c in
  match run_type_of type with
  | RUN_TYPE_U | RUN_TYPE_L | RUN_TYPE_UF | RUN_TYPE_LF =>
      if (conv_type =? type .& 1) || ((2 <=? type) && (conv_type =? 2))
      then [u32 (c - code + (ztab case_conv_table1 data ≫ (32 - 17)))]
      else [c]
  | RUN_TYPE_UL =>
      let a := u32 (c - code) in
      if negb (a .& 1 =? 1 - is_lower) then [c] else [u32 ((a .^ 1) + code)]
  | RUN_TYPE_LSU =>
      let a := u32 (c - code) in
      if a =? 1 then [u32 (c + (2 * is_lower - 1))]
      else if a =? (1 - is_lower) * 2 then [u32 (c + (2 * is_lower - 1) * 2)]
      else [c]
  | RUN_TYPE_U2L_399_EXT2 =>
      if is_lower =? 0 then [u32 (c - code + ext (data ≫ 6)); 0x399]
      else [u32 (c - code + ext (data .& 0x3f))]
  | RUN_TYPE_UF_D20 =>
      if conv_type =? 1 then [c] else [u32 (data + b2z (conv_type =? 2) * 0x20)]
  | RUN_TYPE_UF_D1_EXT =>
      if conv_type =? 1 then [c] else [u32 (ext data + b2z (conv_type =? 2))]
  | RUN_TYPE_U_EXT | RUN_TYPE_LF_EXT =>
      if negb (is_lower =? type - 9) then [c] else [ext data]
  | RUN_TYPE_LF_EXT2 =>
      if is_lower =? 0 then [c] else [u32 (c - code + ext (data ≫ 6)); ext (data .& 0x3f)]
  | RUN_TYPE_UF_EXT2 =>
      if conv_type =? 1 then [c]
      else [lower (u32 (c - code + ext (data ≫ 6))); lower (ext (data .& 0x3f))]
  | RUN_TYPE_UF_EXT3 =>
      if conv_type =? 1 then [c]
      else [lower (ext (data ≫ 8)); lower (ext ((data ≫ 4) .& 0xf)); lower (ext (data .& 0xf))]
  end.

(** The binary search over [case_conv_table1]: the index and value of the entry
    that covers [c]. *)
Fixpoint case_conv_search (fuel : nat) (c idx_min idx_max : Z) : option (Z * Z) :=
  match fuel with
  | O => None
  | S fuel' =>
      if idx_min <=? idx_max then
        let idx := (idx_max + idx_min) / 2 in
        let v := ztab case_conv_table1 idx in
        if c <? cc_code v then case_conv_search fuel' c idx_min (idx - 1)
        else if cc_code v + cc_len v <=? c then case_conv_search fuel' c (idx + 1) idx_max
        else Some (idx, v)
      else None
  end.

Definition case_conv_find (c : Z) : option (Z * Z) :=
  case_conv_search (S (length case_conv_table1)) c 0 (zlen case_conv_table1 - 1).

(** ASCII letters. *)
Definition ascii_lower (c : Z) : Z := if (65 <=? c) && (c <=? 90) then c - 65 + 97 else c.
Definition ascii_upper (c : Z) : Z := if (97 <=? c) && (c <=? 122) then c - 97 + 65 else c.

(** The recursion of [lre_case_conv], [lre_case_conv_entry] and [lre_case_conv1]:
    a conversion with type 2 calls back the one with type 1, which does not call
    back, so a call depth of one is enough. *)
Fixpoint lre_case_conv_rec (depth : nat) (c conv_type : Z) : list Z :=
  if c <? 128 then [if negb (conv_type =? 0) then ascii_lower c else ascii_upper c]
  else
    let conv1 c := match depth with O => c | S d => hd 0 (lre_case_conv_rec d c 1) end in
    match case_conv_find c with
    | Some (idx, v) => lre_case_conv_entry conv1 c conv_type idx v
    | None => [c]
    end.

Definition lre_case_conv (c conv_type : Z) : list Z := lre_case_conv_rec 1 c conv_type.

Definition lre_case_conv1 (c conv_type : Z) : Z := hd 0 (lre_case_conv c conv_type).

Definition lre_case_folding_entry (c idx v : Z) (is_unicode : bool) : Z :=
  if is_unicode then
    match lre_case_conv_entry (fun c => lre_case_conv1 c 1) c 2 idx v with
    | [r] => r
    | _ =>
        if c =? 0xfb06 then 0xfb05
        else if c =? 0x01fd3 then 0x390
        else if c =? 0x01fe3 then 0x3b0
        else c
    end
  else if c <? 128 then ascii_upper c
  else match lre_case_conv_entry (fun c => lre_case_conv1 c 1) c 0 idx v with
  | [r] => if 128 <=? r then r else c
  | _ => c
  end.

Definition lre_canonicalize (c : Z) (is_unicode : bool) : Z :=
  if c <? 128 then if is_unicode then ascii_lower c else ascii_upper c
  else match case_conv_find c with
  | Some (idx, v) => lre_case_folding_entry c idx v is_unicode
  | None => c
  end.

Definition get_le24 (tab : list Z) (p : Z) : Z :=
  ztab tab p .| (ztab tab (p + 1) ≪ 8) .| (ztab tab (p + 2) ≪ 16).

Definition UNICODE_INDEX_BLOCK_LEN : Z := 32.

(** The binary search of [get_index_pos]; the invariant is
    [tab[idx_min] <= c < tab[idx_max]]. *)
Fixpoint index_search (fuel : nat) (c : Z) (tab : list Z) (idx_min idx_max : Z) : option Z :=
  match fuel with
  | O => None
  | S fuel' =>
      if 1 <? idx_max - idx_min then
        let idx := (idx_max + idx_min) / 2 in
        let code := get_le24 tab (idx * 3) .& (1 ≪ 21 - 1) in
        if c <? code then index_search fuel' c tab idx_min idx
        else index_search fuel' c tab idx idx_max
      else Some idx_min
  end.

(** The position in the run table and the code its runs start at; [Some (-1, _)]
    when [c] is past the table. *)
Definition get_index_pos (c : Z) (tab : list Z) (index_table_len : Z) : option (Z * Z) :=
  if c <? get_le24 tab 0 .& (1 ≪ 21 - 1) then Some (0, 0)
  else
    let idx_max := index_table_len - 1 in
    if get_le24 tab (idx_max * 3) <=? c then Some (-1, 0)
    else
      idx_min ← index_search (Z.to_nat index_table_len) c tab 0 idx_max;
      let v := get_le24 tab (idx_min * 3) in
      Some ((idx_min + 1) * UNICODE_INDEX_BLOCK_LEN + (v ≫ 21), v .& (1 ≪ 21 - 1)).

(** The run decoder of [lre_is_in_table]; [None] is a read outside the table. *)
Fixpoint in_table_loop (fuel : nat) (c : Z) (table : list Z) (p code : Z) (bit : bool) : option bool :=
  match fuel with
  | O => None
  | S fuel' =>
      b ← zget table p;
      if b <? 64 then
        let code := code + (b ≫ 3) + 1 in
        if c <? code then Some bit
        else
          let bit := negb bit in
          let code := code + (b .& 7) + 1 in
          if c <? code then Some bit else in_table_loop fuel' c table (p + 1) code (negb bit)
      else if 0x80 <=? b then
        let code := code + (b - 0x80) + 1 in
        if c <? code then Some bit else in_table_loop fuel' c table (p + 1) code (negb bit)
      else if b <? 0x60 then
        b1 ← zget table (p + 1);
        let code := code + (((b - 0x40) ≪ 8) .| b1) + 1 in
        if c <? code then Some bit else in_table_loop fuel' c table (p + 2) code (negb bit)
      else
        b1 ← zget table (p + 1);
        b2 ← zget table (p + 2);
        let code := code + (((b - 0x60) ≪ 16) .| (b1 ≪ 8) .| b2) + 1 in
        if c <? code then Some bit else in_table_loop fuel' c table (p + 3) code (negb bit)
  end.

Definition lre_is_in_table (c : Z) (table index_table : list Z) : option bool :=
  '(pos, code) ← get_index_pos c index_table (zlen index_table / 3);
  if pos <? 0 then Some false
  else in_table_loop (S (length table)) c table pos code false.

Definition lre_is_cased (c : Z) : option bool :=
  match case_conv_find c with
  | Some _ => Some true
  | None => lre_is_in_table c unicode_prop_Cased1_table unicode_prop_Cased1_index
  end.

Definition lre_is_case_ignorable (c : Z) : option bool :=
  lre_is_in_table c unicode_prop_Case_Ignorable_table unicode_prop_Case_Ignorable_index.

Definition lre_is_id_start (c : Z) : option bool :=
  lre_is_in_table c unicode_prop_ID_Start_table unicode_prop_ID_Start_index.

Definition lre_is_id_continue (c : Z) : option bool :=
  s ← lre_is_id_start c;
  if (s : bool) then Some true
  else lre_is_in_table c unicode_prop_ID_Continue1_table unicode_prop_ID_Continue1_index.

(** [lre_ctype_bits] and the tests on it (codes below 256). *)
Definition UNICODE_C_SPACE : Z := 1.
Definition UNICODE_C_DIGIT : Z := 2.
Definition UNICODE_C_UPPER : Z := 4.
Definition UNICODE_C_LOWER : Z := 8.
Definition UNICODE_C_UNDER : Z := 16.
Definition UNICODE_C_DOLLAR : Z := 32.
Definition UNICODE_C_XDIGIT : Z := 64.

Definition lre_ctype_bits : list Z := [
  0; 0; 0; 0; 0; 0; 0; 0; 0; 1; 1; 1; 1; 1; 0; 0;
  0; 0; 0; 0; 0; 0; 0; 0; 0; 0; 0; 0; 0; 0; 0; 0;
  1; 0; 0; 0; 32; 0; 0; 0; 0; 0; 0; 0; 0; 0; 0; 0;
  66; 66; 66; 66; 66; 66; 66; 66; 66; 66; 0; 0; 0; 0; 0; 0;
  0; 68; 68; 68; 68; 68; 68; 4; 4; 4; 4; 4; 4; 4; 4; 4;
  4; 4; 4; 4; 4; 4; 4; 4; 4; 4; 4; 0; 0; 0; 0; 16;
  0; 72; 72; 72; 72; 72; 72; 8; 8; 8; 8; 8; 8; 8; 8; 8;
  8; 8; 8; 8; 8; 8; 8; 8; 8; 8; 8; 0; 0; 0; 0; 0;
  0; 0; 0; 0; 0; 0; 0; 0; 0; 0; 0; 0; 0; 0; 0; 0;
  0; 0; 0; 0; 0; 0; 0; 0; 0; 0; 0; 0; 0; 0; 0; 0;
  1; 0; 0; 0; 0; 0; 0; 0; 0; 0; 0; 0; 0; 0; 0; 0;
  0; 0; 0; 0; 0; 0; 0; 0; 0; 0; 0; 0; 0; 0; 0; 0;
  0; 0; 0; 0; 0; 0; 0; 0; 0; 0; 0; 0; 0; 0; 0; 0;
  0; 0; 0; 0; 0; 0; 0; 0; 0; 0; 0; 0; 0; 0; 0; 0;
  0; 0; 0; 0; 0; 0; 0; 0; 0; 0; 0; 0; 0; 0; 0; 0;
  0; 0; 0; 0; 0; 0; 0; 0; 0; 0; 0; 0; 0; 0; 0; 0].

Definition lre_is_space_byte (c : Z) : bool :=
  negb (ztab lre_ctype_bits c .& UNICODE_C_SPACE =? 0).
Definition lre_is_id_start_byte (c : Z) : bool :=
  negb (ztab lre_ctype_bits c .&
    (UNICODE_C_UPPER .| UNICODE_C_LOWER .| UNICODE_C_UNDER .| UNICODE_C_DOLLAR) =? 0).
Definition lre_is_id_continue_byte (c : Z) : bool :=
  negb (ztab lre_ctype_bits c .&
    (UNICODE_C_UPPER .| UNICODE_C_LOWER .| UNICODE_C_UNDER .| UNICODE_C_DOLLAR .|
     UNICODE_C_DIGIT) =? 0).

(** [char_range_s] of [libunicode.c]: a count and pairs of bounds. *)
Definition char_range_s : list Z :=
  [10; 0x0009; 0x000D + 1; 0x0020; 0x0020 + 1; 0x00A0; 0x00A0 + 1; 0x1680; 0x1680 + 1;
   0x2000; 0x200A + 1; 0x2028; 0x2029 + 1; 0x202F; 0x202F + 1; 0x205F; 0x205F + 1;
   0x3000; 0x3000 + 1; 0xFEFF; 0xFEFF + 1].

Fixpoint space_loop (l : list Z) (c : Z) : bool :=
  match l with
  | low :: high :: l' => if c <? low then false else if c <? high then true else space_loop l' c
  | _ => false
  end.

Definition lre_is_space_non_ascii (c : Z) : bool := space_loop (drop 5 char_range_s) c.

Definition lre_is_space (c : Z) : bool :=
  if c <? 256 then lre_is_space_byte c else lre_is_space_non_ascii c.

Definition lre_js_is_ident_first (c : Z) : option bool :=
  if c <? 128 then Some (lre_is_id_start_byte c) else lre_is_id_start c.

Definition lre_js_is_ident_next (c : Z) : option bool :=
  if c <? 128 then Some (lre_is_id_continue_byte c)
  else if (0x200C <=? c) && (c <=? 0x200D) then Some true
  else lre_is_id_continue c.

(** ** The search finds the entry that covers a character *)

#[local] Opaque case_conv_table1.

Lemma case_conv_search_bsearch fuel c i j :
  case_conv_search fuel c i j =
  (fun k => (k, ztab case_conv_table1 k)) <$>
    bsearch (fun k => cc_code (ztab case_conv_table1 k))
      (fun k => cc_code (ztab case_conv_table1 k) + cc_len (ztab case_conv_table1 k)) fuel c i j.
Proof.
  revert i j. induction fuel as [|fuel IH]; intros i j; cbn [case_conv_search bsearch]; [reflexivity|].
  destruct (i <=? j); [|reflexivity]. cbv zeta.
  destruct (c <? _); [apply IH|]. destruct (_ <=? c); [apply IH|reflexivity].
Qed.

#[local] Transparent case_conv_table1.

(** The entries of the table are non-empty intervals in increasing order. *)
Fixpoint cc_table_sorted (l : list Z) : bool :=
  match l with
  | v :: t =>
      (0 <? cc_len v) &&
      match t with w :: _ => cc_code v + cc_len v <=? cc_code w | [] => true end && cc_table_sorted t
  | [] => true
  end.

Lemma case_conv_table1_sorted : cc_table_sorted case_conv_table1 = true.
Proof. vm_compute. reflexivity. Qed.

Section TableOrder.
Context (l : list Z) (Hs : cc_table_sorted l = true).

Lemma cc_sorted_nth i j :
  (i < j < length l)%nat -> cc_code (nth i l 0) + cc_len (nth i l 0) <= cc_code (nth j l 0).
Proof.
  revert Hs i j. induction l as [|v t IH]; simpl; [lia|].
  intros [[Hv Hh]%andb_prop Ht]%andb_prop i j Hij.
  destruct i as [|i], j as [|j]; try lia; [|apply IH; auto; lia].
  destruct t as [|w t]; simpl in *; [lia|]. apply Z.leb_le in Hh.
  destruct j as [|j]; [done|]. specialize (IH Ht 0%nat (S j) ltac:(lia)). simpl in IH.
  apply andb_prop in Ht as [[Hw _]%andb_prop _]. apply Z.ltb_lt in Hw. lia.
Qed.

Lemma cc_sorted_len i : (i < length l)%nat -> 0 < cc_len (nth i l 0).
Proof.
  revert Hs i. induction l as [|v t IH]; simpl; [lia|].
  intros [[Hv _]%andb_prop Ht]%andb_prop [|i] Hi; [by apply Z.ltb_lt|apply IH; auto; lia].
Qed.
End TableOrder.

Lemma case_conv_find_spec c :
  match case_conv_find c with
  | Some (idx, v) =>
      0 <= idx < zlen case_conv_table1 /\ v = ztab case_conv_table1 idx /\ cc_code v <= c < cc_code v + cc_len v
  | None => forall idx, 0 <= idx < zlen case_conv_table1 ->
      let v := ztab case_conv_table1 idx in ~ (cc_code v <= c < cc_code v + cc_len v)
  end.
Proof.
  unfold case_conv_find. rewrite case_conv_search_bsearch.
  pose proof (bsearch_spec (fun k => cc_code (ztab case_conv_table1 k))
    (fun k => cc_code (ztab case_conv_table1 k) + cc_len (ztab case_conv_table1 k))
    (S (length case_conv_table1)) c 0 (zlen case_conv_table1 - 1)) as Hb.
  pose proof (cc_sorted_nth _ case_conv_table1_sorted) as Hord.
  pose proof (cc_sorted_len _ case_conv_table1_sorted) as Hlen.
  revert Hb Hord Hlen. unfold ztab, zlen. generalize case_conv_table1. intros T Hb Hord Hlen.
  destruct (bsearch _ _ _ c 0 _) as [k|]; simpl.
  - destruct Hb as [Hk Hc]; [intros; apply Hord; lia|intros k' Hk'; specialize (Hlen (Z.to_nat k')); lia|lia|].
    split_and!; [lia..|done|lia|lia].
  - intros idx Hidx. apply Hb; [intros; apply Hord; lia|intros k' Hk'; specialize (Hlen (Z.to_nat k')); lia|lia|lia].
Qed.

(** Checking a property of every character the table covers. *)
Definition cc_forall (P : Z -> bool) : bool :=
  forallb (fun v => forallb (fun k => P (cc_code v + Z.of_nat k)) (seq 0 (Z.to_nat (cc_len v))))
    case_conv_table1.

Lemma cc_forall_spec P c idx v :
  cc_forall P = true -> case_conv_find c = Some (idx, v) -> P c = true.
Proof.
  intros HP Hf. pose proof (case_conv_find_spec c) as Hs. rewrite Hf in Hs.
  destruct Hs as (Hi & Hv & Hc). unfold cc_forall in HP. rewrite forallb_forall in HP.
  assert (Hin : In v case_conv_table1).
  { rewrite Hv. unfold ztab. apply nth_In. unfold zlen in Hi. lia. }
  specialize (HP v Hin). cbv beta in HP. rewrite forallb_forall in HP.
  specialize (HP (Z.to_nat (c - cc_code v))).
  replace (cc_code v + Z.of_nat (Z.to_nat (c - cc_code v))) with c in HP by lia.
  apply HP, in_seq. lia.
Qed.

Lemma canonicalize_idem_table (u : bool) :
  cc_forall (fun c => let d := lre_canonicalize c u in lre_canonicalize d u =? d) = true.
Proof. destruct u; vm_compute; reflexivity. Qed.

Lemma canonicalize_legacy_table :
  cc_forall (fun c => (c <? 128) || (128 <=? lre_canonicalize c false)) = true.
Proof. vm_compute. reflexivity. Qed.

Lemma lre_canonicalize_unmapped c u :
  128 <= c -> case_conv_find c = None -> lre_canonicalize c u = c.
Proof. intros Hc Hn. unfold lre_canonicalize. rewrite Hn. destruct (Z.ltb_spec c 128); [lia|done]. Qed.

Lemma lre_canonicalize_ascii c u :
  c < 128 -> lre_canonicalize c u = if u then ascii_lower c else ascii_upper c.
Proof. intros Hc. unfold lre_canonicalize. destruct (Z.ltb_spec c 128); [done|lia]. Qed.

(** ** Properties *)

(** the binary search of the case-conversion functions is exact: it returns an
    index of the table and the entry there, whose interval holds the character, and
    returns nothing only when no entry of the table covers the character. *)
Theorem case_conv_find_exact c :
  match case_conv_find c with
  | Some (idx, v) =>
      0 <= idx < zlen case_conv_table1 /\ v = ztab case_conv_table1 idx /\ cc_code v <= c < cc_code v + cc_len v
  | None => forall idx, 0 <= idx < zlen case_conv_table1 ->
      let v := ztab case_conv_table1 idx in ~ (cc_code v <= c < cc_code v + cc_len v)
  end.
Proof. apply case_conv_find_spec. Qed.

(** C36: regexp canonicalization picks one representative per class of characters
    that match each other under the [i] flag: it is idempotent on every character
    in both modes, and the legacy (non-unicode) mode never maps a non-ASCII
    character to an ASCII one. *)
Theorem lre_canonicalize_representative c u :
  lre_canonicalize (lre_canonicalize c u) u = lre_canonicalize c u /\
  (128 <= c -> 128 <= lre_canonicalize c false).
Proof.
  split.
  - destruct (Z.ltb_spec c 128) as [Hlt|Hge].
    + rewrite (lre_canonicalize_ascii c) by done. destruct u; unfold ascii_lower, ascii_upper;
        case_match; bool_props; rewrite lre_canonicalize_ascii by lia;
        unfold ascii_lower, ascii_upper; case_match; bool_props; try lia; congruence.
    + destruct (case_conv_find c) as [[idx v]|] eqn:Hf.
      * apply Z.eqb_eq. exact (cc_forall_spec _ _ _ _ (canonicalize_idem_table u) Hf).
      * by rewrite !(lre_canonicalize_unmapped c) by done.
  - intros Hc. destruct (case_conv_find c) as [[idx v]|] eqn:Hf.
    + pose proof (cc_forall_spec _ _ _ _ canonicalize_legacy_table Hf) as Hp. simpl in Hp.
      destruct (Z.ltb_spec c 128); [lia|]. by apply Z.leb_le in Hp.
    + by rewrite lre_canonicalize_unmapped.
Qed.
