(* ===== verification/UnicodeIndex.v ===== *)
(** The indexed lookup of character properties in [libunicode.c] against a reference.

    A property table is a run-length code of a set of characters; [get_index_pos]
    finds by binary search in a second table the position to start decoding at.  The
    reference decodes the whole table from the start into the points of a character
    set, with no index and no early exit, and membership is the parity of the points. *)

From S2P Require Import Prelude CutilsH CharRange UnicodeTables CaseConv.

(** One entry of the table at [p]: the ends of its runs, from [code], and its size. *)
Definition run_entry (table : list Z) (p code : Z) : option (list Z * Z) :=
  b ← zget table p;
  if b <? 64 then Some ([code + (b ≫ 3) + 1; code + (b ≫ 3) + 1 + (b .& 7) + 1], 1)
  else if 0x80 <=? b then Some ([code + (b - 0x80) + 1], 1)
  else if b <? 0x60 then
    b1 ← zget table (p + 1); Some ([code + (((b - 0x40) ≪ 8) .| b1) + 1], 2)
  else
    b1 ← zget table (p + 1);
    b2 ← zget table (p + 2);
    Some ([code + (((b - 0x60) ≪ 16) .| (b1 ≪ 8) .| b2) + 1], 3).

(** All the run ends from [p] on. *)
Fixpoint decode_runs (fuel : nat) (table : list Z) (p code : Z) : list Z :=
  match fuel with
  | O => []
  | S fuel' =>
      match run_entry table p code with
      | None => []
      | Some (ends, size) => ends ++ decode_runs fuel' table (p + size) (List.last ends 0)
      end
  end.

(** The set that a table stands for. *)
Definition table_points (table : list Z) : list Z := decode_runs (S (length table)) table 0 0.

(** ** The decoder with an early exit *)

Lemma in_table_loop_entry fuel c table p code bit :
  in_table_loop (S fuel) c table p code bit =
  ('(ends, size) ← run_entry table p code;
   match ends with
   | [x] => if c <? x then Some bit else in_table_loop fuel c table (p + size) x (negb bit)
   | [x; y] => if c <? x then Some bit else
               if c <? y then Some (negb bit) else in_table_loop fuel c table (p + size) y bit
   | _ => None
   end).
Proof.
  cbn [in_table_loop]. unfold run_entry. destruct (zget table p) as [b|]; [|done]. cbn [mbind option_bind].
  destruct (b <? 64); [cbn [mbind option_bind]; by rewrite negb_involutive|].
  destruct (0x80 <=? b); [done|]. destruct (b <? 0x60).
  - by destruct (zget table (p + 1)).
  - destruct (zget table (p + 1)); [|done]. cbn [mbind option_bind]. by destruct (zget table (p + 2)).
Qed.

Lemma run_entry_shape table p code ends size :
  run_entry table p code = Some (ends, size) -> (exists x, ends = [x]) \/ (exists x y, ends = [x; y]).
Proof.
  unfold run_entry. destruct (zget table p) as [b|]; [|done]. cbn [mbind option_bind].
  destruct (b <? 64); [intros [= <- <-]; eauto|]. destruct (0x80 <=? b); [intros [= <- <-]; eauto|].
  destruct (b <? 0x60); (destruct (zget table (p + 1)); [|done]); cbn [mbind option_bind]; [intros [= <- <-]; eauto|].
  destruct (zget table (p + 2)); [|done]. intros [= <- <-]; eauto.
Qed.

(** The decoder answers the parity of the run ends up to [c], if a later one exists. *)
Lemma in_table_loop_mem fuel c table p code bit :
  let L := decode_runs fuel table p code in
  StronglySorted Z.le L -> Exists (fun x => c < x) L ->
  in_table_loop fuel c table p code bit = Some (xorb bit (cr_mem L c)).
Proof.
  revert p code bit. induction fuel as [|fuel IH]; intros p code bit L Hs Hex; [by apply Exists_nil in Hex|].
  rewrite in_table_loop_entry. subst L. cbn [decode_runs] in *.
  destruct (run_entry table p code) as [[ends size]|] eqn:Hr; [|by apply Exists_nil in Hex].
  cbn [mbind option_bind].
  destruct (run_entry_shape _ _ _ _ _ Hr) as [[x ->]|(x & y & ->)]; cbn [app List.last cr_mem] in *.
  - apply StronglySorted_inv in Hs as [Hs Hf]. destruct (Z.ltb_spec c x), (Z.leb_spec x c); try lia.
    + rewrite cr_mem_above; [by destruct bit|]. eapply Forall_impl; [exact Hf|]. simpl. intros; lia.
    + apply Exists_cons in Hex as [?|Hex]; [lia|]. rewrite IH by done. by destruct bit, (cr_mem _ c).
  - apply StronglySorted_inv in Hs as [Hs Hf]. apply StronglySorted_inv in Hs as [Hs Hg].
    apply Forall_cons in Hf as [Hxy Hf]. destruct (Z.ltb_spec c x), (Z.leb_spec x c); try lia.
    + destruct (Z.leb_spec y c); [lia|]. rewrite cr_mem_above; [by destruct bit|].
      eapply Forall_impl; [exact Hf|]. simpl. intros; lia.
    + apply Exists_cons in Hex as [?|Hex]; [lia|]. destruct (Z.ltb_spec c y), (Z.leb_spec y c); try lia.
      * rewrite cr_mem_above; [by destruct bit|]. eapply Forall_impl; [exact Hg|]. simpl. intros; lia.
      * apply Exists_cons in Hex as [?|Hex]; [lia|]. rewrite IH by done. by destruct bit, (cr_mem _ c).
Qed.

(** ** The index *)

Section Index.
Context (table index : list Z).

Abbreviation n := (zlen index / 3).
Definition index_code (i : Z) : Z := get_le24 index (i * 3) .& (1 ≪ 21 - 1).
Definition index_pos (i : Z) : Z :=
  (i + 1) * UNICODE_INDEX_BLOCK_LEN + (get_le24 index (i * 3) ≫ 21).
Definition index_limit : Z := get_le24 index ((n - 1) * 3).

(** Decoding from the entry [i] of the index gives the end of the whole code, after
    an even number of run ends, all up to the code of the entry. *)
Definition entry_ok (i : Z) : bool :=
  let L := table_points table in
  let D := decode_runs (S (length table)) table (index_pos i) (index_code i) in
  let k := (length L - length D)%nat in
  bool_decide (drop k L = D) && Nat.even k && forallb (fun x => x <=? index_code i) (take k L).

Definition index_ok : bool :=
  let L := table_points table in
  sortedb L && Nat.even (length L) && (1 <? n) && (0 <? index_limit) &&
  (index_code 0 <=? index_limit) && (index_limit =? List.last L 0) && forallb (fun x => x <=? index_limit) L &&
  forallb (fun k => 0 <=? index_pos (Z.of_nat k)) (seq 0 (Z.to_nat (n - 1))) &&
  forallb (fun k => entry_ok (Z.of_nat k)) (seq 0 (Z.to_nat (n - 1))).

(** An even number of points that are all up to [c] cancel out. *)
Lemma cr_mem_below l c : Forall (fun x => x <= c) l -> cr_mem l c = negb (Nat.even (length l)).
Proof.
  induction 1 as [|x l Hx Hl IH]; [done|]. cbn [cr_mem length]. rewrite IH, Nat.even_succ, <- Nat.negb_even.
  destruct (Z.leb_spec x c); [|lia]. by destruct (Nat.even (length l)).
Qed.

Lemma index_search_spec fuel c i j :
  index_code i <= c -> i < j -> j - i <= Z.of_nat fuel ->
  exists k, index_search fuel c index i j = Some k /\ i <= k < j /\ index_code k <= c.
Proof.
  revert i j. induction fuel as [|fuel IH]; intros i j Hc Hij Hf; [lia|]. cbn [index_search].
  destruct (Z.ltb_spec 1 (j - i)); [|exists i; split; [done|lia]]. cbv zeta.
  assert (Hm : i < (j + i) / 2 < j) by zdm. set (m := (j + i) / 2) in *. clearbody m.
  fold (index_code m). destruct (Z.ltb_spec c (index_code m)).
  - destruct (IH i m) as (k & -> & Hk & Hkc); [done|lia|lia|]. exists k. split; [done|lia].
  - destruct (IH m j) as (k & -> & Hk & Hkc); [done|lia|lia|]. exists k. split; [done|lia].
Qed.

Lemma sorted_drop k (L : list Z) : StronglySorted Z.le L -> StronglySorted Z.le (drop k L).
Proof.
  revert L. induction k as [|k IH]; intros L Hs; [done|]. destruct Hs as [|x L Hs Hf]; [constructor|]. by apply IH.
Qed.

Lemma exists_above (L : list Z) c : L <> [] -> c < List.last L 0 -> Exists (fun x => c < x) L.
Proof.
  intros Hne Hlt. apply Exists_exists. exists (List.last L 0). split; [|done].
  destruct (exists_last Hne) as (l & x & ->). rewrite List.last_last. apply elem_of_app. right. by constructor.
Qed.

Lemma last_drop k (L : list Z) : drop k L <> [] -> List.last (drop k L) 0 = List.last L 0.
Proof.
  revert L. induction k as [|k IH]; intros L Hne; [done|]. destruct L as [|x L]; [done|]. cbn [drop] in *.
  rewrite IH by done. destruct L; [by rewrite drop_nil in Hne|done].
Qed.

Lemma last_above (L : list Z) c : 0 <= c -> c < List.last L 0 -> Exists (fun x => c < x) L.
Proof. intros Hc Hlt. apply exists_above; [|done]. intros ->. simpl in Hlt. lia. Qed.

(** Starting at an entry of the index. *)
Lemma entry_lookup i c :
  StronglySorted Z.le (table_points table) -> entry_ok i = true -> index_code i <= c -> 0 <= c ->
  c < List.last (table_points table) 0 ->
  in_table_loop (S (length table)) c table (index_pos i) (index_code i) false =
    Some (cr_mem (table_points table) c).
Proof.
  intros Hs He Hi Hc Hlast. unfold entry_ok in He. cbv zeta in He. bool_props. rewrite forallb_forall in *.
  set (L := table_points table) in *. set (D := decode_runs _ _ _ _) in *. set (k := (length L - length D)%nat) in *.
  assert (HD : D = drop k L) by done.
  assert (Hbelow : cr_mem (take k L) c = false).
  { rewrite cr_mem_below; [rewrite length_take, Nat.min_l by (subst k; lia)|].
    - match goal with Hev : Nat.even k = true |- _ => by rewrite Hev end.
    - apply Forall_forall. intros x Hx%list_elem_of_In.
      match goal with Ht : forall x, In x (take k L) -> _ |- _ => specialize (Ht x Hx) end. bool_props. lia. }
  assert (Hmem : cr_mem L c = cr_mem D c).
  { rewrite <- (take_drop k L) at 1. by rewrite cr_mem_app, Hbelow, HD, xorb_false_l. }
  assert (Hex : Exists (fun x => c < x) D).
  { pose proof (last_above L c Hc Hlast) as Hx. rewrite <- (take_drop k L), Exists_app, <- HD in Hx.
    destruct Hx as [Hx|Hx]; [|done]. apply Exists_exists in Hx as (x & Hx%list_elem_of_In & Hlt).
    match goal with Ht : forall x, In x (take k L) -> _ |- _ => specialize (Ht x Hx) end. bool_props. lia. }
  rewrite in_table_loop_mem; [|fold D; rewrite HD; by apply sorted_drop|done]. fold D. by rewrite Hmem, xorb_false_l.
Qed.

(** The lookup agrees with the decoded set. *)
Lemma lre_is_in_table_mem c :
  index_ok = true -> 0 <= c -> lre_is_in_table c table index = Some (cr_mem (table_points table) c).
Proof.
  unfold index_ok. cbv zeta. intros Hok Hc. bool_props. rewrite !forallb_forall in *.
  assert (Hs : StronglySorted Z.le (table_points table)) by (by apply sortedb_sorted).
  unfold lre_is_in_table, get_index_pos. cbv zeta.
  change (get_le24 index 0 .& (1 ≪ 21 - 1)) with (index_code 0). fold index_limit.
  destruct (Z.ltb_spec c (index_code 0)) as [Hlt|Hge].
  { cbn [mbind option_bind]. destruct (Z.ltb_spec 0 0); [lia|].
    rewrite in_table_loop_mem; [by rewrite xorb_false_l|done|].
    fold (table_points table). apply last_above; lia. }
  destruct (Z.leb_spec index_limit c) as [Hout|Hin].
  { cbn [mbind option_bind]. rewrite cr_mem_below.
    - match goal with Hev : Nat.even _ = true |- _ => by rewrite Hev end.
    - apply Forall_forall. intros x Hx%list_elem_of_In.
      match goal with Ht : forall x, In x (table_points table) -> _ |- _ => specialize (Ht x Hx) end. bool_props. lia. }
  destruct (index_search_spec (Z.to_nat n) c 0 (n - 1)) as (k & -> & Hk & Hkc); [done|lia|lia|].
  cbn [mbind option_bind]. fold (index_pos k) (index_code k).
  assert (Hk' : In (Z.to_nat k) (seq 0 (Z.to_nat (n - 1)))) by (apply in_seq; lia).
  repeat match goal with Ht : forall x, In x (seq _ _) -> _ |- _ => specialize (Ht _ Hk'); rewrite Z2Nat.id in Ht by lia end.
  bool_props. destruct (Z.ltb_spec (index_pos k) 0); [lia|]. apply entry_lookup; try done; lia.
Qed.
End Index.

Lemma Cased1_ok : index_ok unicode_prop_Cased1_table unicode_prop_Cased1_index = true.
Proof. vm_compute. reflexivity. Qed.

Lemma Case_Ignorable_ok : index_ok unicode_prop_Case_Ignorable_table unicode_prop_Case_Ignorable_index = true.
Proof. vm_compute. reflexivity. Qed.

Lemma ID_Start_ok : index_ok unicode_prop_ID_Start_table unicode_prop_ID_Start_index = true.
Proof. vm_compute. reflexivity. Qed.

Lemma ID_Continue1_ok : index_ok unicode_prop_ID_Continue1_table unicode_prop_ID_Continue1_index = true.
Proof. vm_compute. reflexivity. Qed.

(** Identifier characters: total, and by the decoded sets. *)
Lemma lre_is_id_start_mem c : 0 <= c -> lre_is_id_start c = Some (cr_mem (table_points unicode_prop_ID_Start_table) c).
Proof. intros. by apply lre_is_in_table_mem; [apply ID_Start_ok|]. Qed.

Lemma lre_is_id_continue_mem c :
  0 <= c -> lre_is_id_continue c = Some (cr_mem (table_points unicode_prop_ID_Start_table) c ||
                                          cr_mem (table_points unicode_prop_ID_Continue1_table) c).
Proof.
  intros Hc. unfold lre_is_id_continue. rewrite lre_is_id_start_mem by done. cbn [mbind option_bind].
  case_match; [done|]. by apply lre_is_in_table_mem; [apply ID_Continue1_ok|].
Qed.

(** C35: the indexed lookup of character properties is exact.  For each of the four
    compressed tables and every code point, [lre_is_in_table], which starts decoding at
    the position its binary search finds in the index, stays inside the tables and gives
    the answer of decoding the whole table from its start. *)
Theorem lre_is_in_table_exact c :
  0 <= c ->
  lre_is_in_table c unicode_prop_Cased1_table unicode_prop_Cased1_index =
    Some (cr_mem (table_points unicode_prop_Cased1_table) c) /\
  lre_is_in_table c unicode_prop_Case_Ignorable_table unicode_prop_Case_Ignorable_index =
    Some (cr_mem (table_points unicode_prop_Case_Ignorable_table) c) /\
  lre_is_in_table c unicode_prop_ID_Start_table unicode_prop_ID_Start_index =
    Some (cr_mem (table_points unicode_prop_ID_Start_table) c) /\
  lre_is_in_table c unicode_prop_ID_Continue1_table unicode_prop_ID_Continue1_index =
    Some (cr_mem (table_points unicode_prop_ID_Continue1_table) c).
Proof.
  intros Hc. split_and!.
  - apply lre_is_in_table_mem; [exact Cased1_ok|done].
  - apply lre_is_in_table_mem; [exact Case_Ignorable_ok|done].
  - apply lre_is_in_table_mem; [exact ID_Start_ok|done].
  - apply lre_is_in_table_mem; [exact ID_Continue1_ok|done].
Qed.

Lemma lre_is_in_table_exact_witness :
  lre_is_in_table 0x3b1 unicode_prop_ID_Start_table unicode_prop_ID_Start_index =
    Some (cr_mem (table_points unicode_prop_ID_Start_table) 0x3b1).
Proof. exact (proj1 (proj2 (proj2 (lre_is_in_table_exact 0x3b1 ltac:(lia))))). Defined.
