(* ===== verification/Rqsort.v ===== *)
(** The in-place sort of [cutils.c]: the exchange functions at the level of bytes,
    and [rqsort] (quicksort with a bounded explicit stack, [heapsortx] below a
    depth, insertion sort for short segments) at the level of array elements.

    An element is an index of a list instead of a multiple of [size]; the
    comparison function receives and returns the state behind [opaque], as a user
    callback may change it.  [Stuck] is an access outside the array or a push
    beyond the 50 slots of the local stack. *)

From S2P Require Import Prelude.

(** ** Exchanging bytes *)

(** One iteration of an exchange loop: [w] bytes at [a] and [b] change places. *)
Definition exchange_unit (w : Z) (m : list Z) (a b : Z) : option (list Z) :=
  t ← zslice m a w;
  u ← zslice m b w;
  m ← zsplice m a u;
  zsplice m b t.

(** The loop over [n] units of [w] bytes. *)
Fixpoint exchange_units (n : nat) (w : Z) (m : list Z) (a b : Z) : option (list Z) :=
  match n with
  | O => Some m
  | S n' => m ← exchange_unit w m a b; exchange_units n' w m (a + w) (b + w)
  end.

Inductive exchange_f :=
  | exchange_bytes | exchange_one_byte | exchange_int16s | exchange_one_int16
  | exchange_int32s | exchange_one_int32 | exchange_int64s | exchange_one_int64
  | exchange_int128s | exchange_one_int128.

(** What each exchange function does. *)
Definition run_exchange (f : exchange_f) (m : list Z) (a b size : Z) : option (list Z) :=
  match f with
  | exchange_bytes => exchange_units (Z.to_nat size) 1 m a b
  | exchange_one_byte => exchange_unit 1 m a b
  | exchange_int16s => exchange_units (Z.to_nat (size / 2)) 2 m a b
  | exchange_one_int16 => exchange_unit 2 m a b
  | exchange_int32s => exchange_units (Z.to_nat (size / 4)) 4 m a b
  | exchange_one_int32 => exchange_unit 4 m a b
  | exchange_int64s => exchange_units (Z.to_nat (size / 8)) 8 m a b
  | exchange_one_int64 => exchange_unit 8 m a b
  | exchange_int128s => exchange_units (Z.to_nat (size / (8 * 2))) 16 m a b
  | exchange_one_int128 => exchange_unit 16 m a b
  end.

Definition exchange_func (base size : Z) : exchange_f :=
  let k := (base .| size) .& 15 in
  if k =? 0 then if size =? 8 * 2 then exchange_one_int128 else exchange_int128s
  else if k =? 8 then if size =? 8 then exchange_one_int64 else exchange_int64s
  else if (k =? 4) || (k =? 12) then if size =? 4 then exchange_one_int32 else exchange_int32s
  else if (k =? 2) || (k =? 6) || (k =? 10) || (k =? 14) then
    if size =? 2 then exchange_one_int16 else exchange_int16s
  else if size =? 1 then exchange_one_byte else exchange_bytes.

(** ** Sorting *)

Section Sort.
Context {A St : Type} (cmp : A -> A -> St -> Z * St).

(** [cmp(base + i, base + j, opaque)]. *)
Definition cmp_at (l : list A) (i j : Z) (o : St) : outcome (Z * St) :=
  x ← of_opt (zget l i);
  y ← of_opt (zget l j);
  Ok (cmp x y o).

(** [swap(base + i, base + j, size)]. *)
Definition swap (l : list A) (i j : Z) : outcome (list A) :=
  x ← of_opt (zget l i);
  y ← of_opt (zget l j);
  l ← of_opt (zset l i y);
  of_opt (zset l j x).

(** [swap_block(base + i, base + j, n * size)]. *)
Fixpoint swap_block (n : nat) (l : list A) (i j : Z) : outcome (list A) :=
  match n with
  | O => Ok l
  | S n' => l ← swap l i j; swap_block n' l (i + 1) (j + 1)
  end.

(** *** heapsortx *)

(** The sift-down loop below node [r] of a heap of [n] elements at [base]. *)
Fixpoint sift (fuel : nat) (base n r : Z) (l : list A) (o : St) : outcome (list A * St) :=
  match fuel with
  | O => Timeout
  | S fuel' =>
      let c := r * 2 + 1 in
      if c <? n then
        '(c, o) ← (if c <? n - 1 then
                     '(d, o) ← cmp_at l (base + c) (base + (c + 1)) o;
                     Ok (if d <=? 0 then c + 1 else c, o)
                   else Ok (c, o));
        '(d, o) ← cmp_at l (base + r) (base + c) o;
        if 0 <? d then Ok (l, o)
        else l ← swap l (base + r) (base + c); sift fuel' base n c l o
      else Ok (l, o)
  end.

(** [while (i > 0) { i -= size; ... }]: [i] nodes are left. *)
Fixpoint heap_build (i : nat) (base n : Z) (l : list A) (o : St) : outcome (list A * St) :=
  match i with
  | O => Ok (l, o)
  | S i' =>
      '(l, o) ← sift (S (Z.to_nat n)) base n (Z.of_nat i') l o;
      heap_build i' base n l o
  end.

(** [for (i = n - size; i > 0; i -= size)]. *)
Fixpoint heap_drain (i : nat) (base : Z) (l : list A) (o : St) : outcome (list A * St) :=
  match i with
  | O => Ok (l, o)
  | S i' =>
      l ← swap l base (base + Z.of_nat i);
      '(l, o) ← sift (S i) base (Z.of_nat i) 0 l o;
      heap_drain i' base l o
  end.

Definition heapsortx (base nmemb : Z) (l : list A) (o : St) : outcome (list A * St) :=
  if 1 <? nmemb then
    '(l, o) ← heap_build (Z.to_nat (nmemb / 2)) base nmemb l o;
    heap_drain (Z.to_nat (nmemb - 1)) base l o
  else Ok (l, o).

(** *** Partition *)

(** The index of the median of three elements. *)
Definition med3 (a b c : Z) (l : list A) (o : St) : outcome (Z * St) :=
  '(d, o) ← cmp_at l a b o;
  if d <? 0 then
    '(d, o) ← cmp_at l b c o;
    if d <? 0 then Ok (b, o)
    else '(d, o) ← cmp_at l a c o; Ok (if d <? 0 then c else a, o)
  else
    '(d, o) ← cmp_at l b c o;
    if 0 <? d then Ok (b, o)
    else '(d, o) ← cmp_at l a c o; Ok (if d <? 0 then a else c, o).

(** [while (pi < pj && (c = cmp(ptr, pi, opaque)) >= 0)]: the new [lt] and [i]. *)
Fixpoint scan_up (fuel : nat) (ptr lt i j : Z) (l : list A) (o : St) : outcome (Z * Z * list A * St) :=
  match fuel with
  | O => Timeout
  | S fuel' =>
      if i <? j then
        '(c, o) ← cmp_at l ptr (ptr + i) o;
        if 0 <=? c then
          if c =? 0 then l ← swap l (ptr + lt) (ptr + i); scan_up fuel' ptr (lt + 1) (i + 1) j l o
          else scan_up fuel' ptr lt (i + 1) j l o
        else Ok (lt, i, l, o)
      else Ok (lt, i, l, o)
  end.

(** [while (pi < (pj -= size) && (c = cmp(ptr, pj, opaque)) <= 0)]: the new [j]
    and [gt]. *)
Fixpoint scan_down (fuel : nat) (ptr i j gt : Z) (l : list A) (o : St) : outcome (Z * Z * list A * St) :=
  match fuel with
  | O => Timeout
  | S fuel' =>
      let j := j - 1 in
      if i <? j then
        '(c, o) ← cmp_at l ptr (ptr + j) o;
        if c <=? 0 then
          if c =? 0 then
            let gt := gt - 1 in
            l ← swap l (ptr + gt) (ptr + j); scan_down fuel' ptr i j gt l o
          else scan_down fuel' ptr i j gt l o
        else Ok (j, gt, l, o)
      else Ok (j, gt, l, o)
  end.

(** The [for (;;)] loop: the final [lt], [i] and [gt]. *)
Fixpoint partition_loop (fuel : nat) (ptr lt i j gt : Z) (l : list A) (o : St)
    : outcome (Z * Z * Z * list A * St) :=
  match fuel with
  | O => Timeout
  | S fuel' =>
      '(lt, i, l, o) ← scan_up (S fuel') ptr lt i j l o;
      '(j, gt, l, o) ← scan_down (S fuel') ptr i j gt l o;
      if j <=? i then Ok (lt, i, gt, l, o)
      else l ← swap l (ptr + i) (ptr + j); partition_loop fuel' ptr lt (i + 1) j gt l o
  end.

(** One round: pivot selection, partition, and the elements equal to the pivot
    moved to the middle; the sizes of the smaller part and where the greater part
    starts. *)
Definition partition (ptr nmemb : Z) (l : list A) (o : St) : outcome (Z * Z * list A * St) :=
  let m4 := nmemb ≫ 2 in
  '(m, o) ← med3 (ptr + m4) (ptr + 2 * m4) (ptr + 3 * m4) l o;
  l ← swap l ptr m;
  '(lt, i, gt, l, o) ← partition_loop (S (Z.to_nat nmemb)) ptr 1 1 nmemb nmemb l o;
  let span := lt in
  let span2 := i - lt in
  let lt := i - lt in
  let span := if span2 <? span then span2 else span in
  l ← swap_block (Z.to_nat span) l ptr (ptr + i - span);
  let span := nmemb - gt in
  let span2 := gt - i in
  let gt := nmemb - (gt - i) in
  let span := if span2 <? span then span2 else span in
  l ← swap_block (Z.to_nat span) l (ptr + i) (ptr + nmemb - span);
  Ok (lt, gt, l, o).

(** *** Insertion sort of a short segment *)

(** [for (pj = pi; pj > ptr && cmp(pj - size, pj, opaque) > 0; pj -= size)]. *)
Fixpoint insert_down (j : nat) (ptr : Z) (l : list A) (o : St) : outcome (list A * St) :=
  match j with
  | O => Ok (l, o)
  | S j' =>
      '(c, o) ← cmp_at l (ptr + Z.of_nat j') (ptr + Z.of_nat j) o;
      if 0 <? c then
        l ← swap l (ptr + Z.of_nat j) (ptr + Z.of_nat j');
        insert_down j' ptr l o
      else Ok (l, o)
  end.

(** [for (pi = ptr + size; pi < top; pi += size)], [k] iterations from index [i]. *)
Fixpoint insertion (k i : nat) (ptr : Z) (l : list A) (o : St) : outcome (list A * St) :=
  match k with
  | O => Ok (l, o)
  | S k' => '(l, o) ← insert_down i ptr l o; insertion k' (S i) ptr l o
  end.

Definition insertion_sort (ptr nmemb : Z) (l : list A) (o : St) : outcome (list A * St) :=
  insertion (Z.to_nat (nmemb - 1)) 1 ptr l o.

(** *** rqsort *)

Record frame := mkFrame { f_base : Z; f_count : Z; f_depth : Z }.

Definition STACK_MAX : Z := 50.

(** [sp->base = ...; sp->count = ...; sp->depth = ...; sp++]; the top of the stack
    is the head of the list. *)
Definition push_frame (f : frame) (sp : list frame) : outcome (list frame) :=
  if zlen sp <? STACK_MAX then Ok (f :: sp) else Stuck.

(** The inner loop on one segment: the segment that is left for insertion sort. *)
Fixpoint quick_loop (fuel : nat) (ptr nmemb depth : Z) (sp : list frame) (l : list A) (o : St)
    : outcome (Z * Z * list frame * list A * St) :=
  match fuel with
  | O => Timeout
  | S fuel' =>
      if 6 <? nmemb then
        let depth := depth + 1 in
        if 50 <? depth then
          '(l, o) ← heapsortx ptr nmemb l o;
          Ok (ptr, 0, sp, l, o)
        else
          '(lt, gt, l, o) ← partition ptr nmemb l o;
          if nmemb - gt <? lt then
            sp ← push_frame (mkFrame ptr lt depth) sp;
            quick_loop fuel' (ptr + gt) (nmemb - gt) depth sp l o
          else
            sp ← push_frame (mkFrame (ptr + gt) (nmemb - gt) depth) sp;
            quick_loop fuel' ptr lt depth sp l o
      else Ok (ptr, nmemb, sp, l, o)
  end.

(** The outer loop on the stack. *)
Fixpoint rqsort_loop (fuel : nat) (sp : list frame) (l : list A) (o : St) : outcome (list A * St) :=
  match fuel with
  | O => Timeout
  | S fuel' =>
      match sp with
      | [] => Ok (l, o)
      | f :: sp =>
          '(ptr, nmemb, sp, l, o) ←
            quick_loop (S (length l)) (f_base f) (f_count f) (f_depth f) sp l o;
          '(l, o) ← insertion_sort ptr nmemb l o;
          rqsort_loop fuel' sp l o
      end
  end.

(** The whole array is sorted; every round of the outer loop finishes a segment
    that no other round works on, so [2 * nmemb + 2] rounds are enough. *)
Definition rqsort (l : list A) (o : St) : outcome (list A * St) :=
  if zlen l <? 2 then Ok (l, o)
  else rqsort_loop (S (S (2 * length l))) [mkFrame 0 (zlen l) 0] l o.
End Sort.

(** ** Exchanges, index by index *)

(** [m'] is [m] with the [n] elements at [a] and at [b] exchanged. *)
Definition exchanged {A} (m m' : list A) (a b n : Z) : Prop :=
  zlen m' = zlen m /\
  forall k, zget m' k =
    if (a <=? k) && (k <? a + n) then zget m (k - a + b)
    else if (b <=? k) && (k <? b + n) then zget m (k - b + a)
    else zget m k.

Lemma exchange_unit_spec w m a b :
  0 <= w -> 0 <= a -> 0 <= b -> a + w <= zlen m -> b + w <= zlen m ->
  a = b \/ a + w <= b \/ b + w <= a ->
  exists m', exchange_unit w m a b = Some m' /\ exchanged m m' a b w.
Proof.
  intros Hw Ha Hb Ham Hbm Hd. unfold exchange_unit.
  destruct (zslice m a w) as [t|] eqn:Ht; [|by rewrite zslice_in_range in Ht by lia].
  destruct (zslice m b w) as [u|] eqn:Hu; [|by rewrite zslice_in_range in Hu by lia].
  pose proof (zlen_zslice _ _ _ _ Ht). pose proof (zlen_zslice _ _ _ _ Hu). cbn.
  destruct (zsplice m a u) as [m1|] eqn:H1; [|by rewrite zsplice_in_range in H1 by lia]. cbn.
  pose proof (proj1 (zsplice_spec _ _ _ _ H1)) as Hl1.
  destruct (zsplice m1 b t) as [m2|] eqn:H2; [|by rewrite zsplice_in_range in H2 by lia].
  pose proof (proj1 (zsplice_spec _ _ _ _ H2)) as Hl2.
  exists m2. split; [done|]. split; [lia|]. intros k.
  rewrite (zget_zsplice _ _ _ _ _ H2), (zget_zsplice _ _ _ _ _ H1), H, H0.
  destruct (Z.leb_spec a k), (Z.ltb_spec k (a + w)), (Z.leb_spec b k), (Z.ltb_spec k (b + w)); simpl;
    try lia; try done;
    try (rewrite (zget_zslice _ _ _ _ _ Ht) by lia); try (rewrite (zget_zslice _ _ _ _ _ Hu) by lia);
    f_equal; lia.
Qed.

Lemma exchanged_step {A} (m m1 m2 : list A) a b w n :
  0 <= w -> 0 <= n -> a = b \/ a + (w + n) <= b \/ b + (w + n) <= a ->
  exchanged m m1 a b w -> exchanged m1 m2 (a + w) (b + w) n -> exchanged m m2 a b (w + n).
Proof.
  intros Hw Hn Hd [Hl1 H1] [Hl2 H2]. split; [lia|]. intros k. rewrite H2.
  repeat (case_match; bool_props; rewrite ?andb_false_iff in * ); rewrite H1;
    repeat (case_match; bool_props; rewrite ?andb_false_iff in * );
    try (f_equal; lia); destruct_or?; bool_props; try lia; f_equal; lia.
Qed.

Lemma exchange_units_spec n w m a b :
  0 <= w -> 0 <= a -> 0 <= b ->
  a + Z.of_nat n * w <= zlen m -> b + Z.of_nat n * w <= zlen m ->
  a = b \/ a + Z.of_nat n * w <= b \/ b + Z.of_nat n * w <= a ->
  exists m', exchange_units n w m a b = Some m' /\ exchanged m m' a b (Z.of_nat n * w).
Proof.
  revert m a b. induction n as [|n IH]; intros m a b Hw Ha Hb Ham Hbm Hd; simpl.
  { exists m. split; [done|]. split; [done|]. intros k.
    repeat (case_match; bool_props); (done || lia). }
  destruct (exchange_unit_spec w m a b) as (m1 & -> & H1); try lia.
  destruct (IH m1 (a + w) (b + w)) as (m2 & H2 & H3); destruct H1 as [Hl1 H1]; try lia.
  simpl. rewrite H2. exists m2. split; [done|].
  replace (Z.of_nat (S n) * w) with (w + Z.of_nat n * w) by lia.
  apply exchanged_step with m1; [lia|lia|lia|done|done].
Qed.

(** What the selection of an exchange function implies for the element size. *)
Lemma align_cases base size :
  0 <= base -> 0 <= size ->
  let k := (base .| size) .& 15 in
  (k = 0 -> size mod 16 = 0) /\ (k = 8 -> size mod 8 = 0) /\
  (k = 4 \/ k = 12 -> size mod 4 = 0) /\ (k = 2 \/ k = 6 \/ k = 10 \/ k = 14 -> size mod 2 = 0).
Proof.
  intros Hb Hs k.
  assert (Hk : k = Z.lor (base mod 16) (size mod 16)).
  { subst k. change 15 with (Z.ones 4). by rewrite Z.land_lor_distr_l, !land_mask by lia. }
  assert (Hall : forallb (fun x => forallb (fun y =>
      let k := Z.lor x y in
      implb (k =? 0) (y mod 16 =? 0) && implb (k =? 8) (y mod 8 =? 0) &&
      implb ((k =? 4) || (k =? 12)) (y mod 4 =? 0) &&
      implb ((k =? 2) || (k =? 6) || (k =? 10) || (k =? 14)) (y mod 2 =? 0))
    (map Z.of_nat (seq 0 16))) (map Z.of_nat (seq 0 16)) = true) by (vm_compute; reflexivity).
  assert (Hin : forall z, In (z mod 16) (map Z.of_nat (seq 0 16))).
  { intros z. pose proof (Z.mod_pos_bound z 16). apply in_map_iff.
    exists (Z.to_nat (z mod 16)). split; [lia|]. apply in_seq. lia. }
  rewrite forallb_forall in Hall. specialize (Hall _ (Hin base)).
  rewrite forallb_forall in Hall. specialize (Hall _ (Hin size)). cbv zeta in Hall.
  rewrite <- Hk in Hall. bool_props.
  assert (Hm : forall d, (d | 16) -> 0 < d -> size mod 16 mod d = size mod d).
  { intros d Hd _. by apply Z.mod_mod_divide. }
  rewrite !Hm in * by (lia || (exists (16 / 16); done) || (exists 2; done) || (exists 4; done) || (exists 8; done)).
  clearbody k. clear Hk Hin.
  repeat split; intros Hc; destruct_or?; rewrite Hc in *; simpl in *; bool_props; done.
Qed.

(** The selected function exchanges exactly the [size] bytes at [a] and [b]. *)
Lemma exchange_func_spec base size m a b :
  0 <= base -> 0 < size -> 0 <= a -> 0 <= b -> a + size <= zlen m -> b + size <= zlen m ->
  a = b \/ a + size <= b \/ b + size <= a ->
  exists m', run_exchange (exchange_func base size) m a b size = Some m' /\ exchanged m m' a b size.
Proof.
  intros Hbase Hsize Ha Hb Ham Hbm Hd.
  destruct (align_cases base size) as (H16 & H8 & H4 & H2); [lia|lia|].
  assert (Hu : forall w, 0 < w -> size mod w = 0 ->
    exists m', exchange_units (Z.to_nat (size / w)) w m a b = Some m' /\ exchanged m m' a b size).
  { intros w Hw Hmod. assert (Hsz : Z.of_nat (Z.to_nat (size / w)) * w = size) by zdm.
    destruct (exchange_units_spec (Z.to_nat (size / w)) w m a b) as (m' & ? & ?); rewrite ?Hsz in *; eauto; lia. }
  unfold exchange_func. cbv zeta.
  repeat match goal with |- context [run_exchange (if ?c then _ else _)] => destruct c eqn:? end;
    unfold run_exchange; rewrite ?orb_true_iff, ?Z.eqb_eq in *; bool_props; subst;
    try (apply exchange_unit_spec; lia);
    try (apply Hu; [lia|]; (by auto) || (apply H4; lia) || (apply H2; lia)).
  destruct (Hu 1) as (m' & ? & ?); [lia|apply Z.mod_1_r|]. rewrite Z.div_1_r in *. eauto.
Qed.

(** ** Rearrangements of a segment *)

(** [l'] is a rearrangement of [l] that only moves elements at [p .. p+n-1]. *)
Definition perm_in {A} (p n : Z) (l l' : list A) : Prop :=
  l ≡ₚ l' /\ forall k, k < p \/ p + n <= k -> zget l' k = zget l k.

(** All elements at [a .. b-1] satisfy [P]. *)
Definition all_in {A} (l : list A) (a b : Z) (P : A -> Prop) : Prop :=
  forall k x, a <= k < b -> zget l k = Some x -> P x.

Lemma perm_in_refl {A} p n (l : list A) : perm_in p n l l.
Proof. split; done. Qed.

Lemma perm_in_trans {A} p n (l1 l2 l3 : list A) :
  perm_in p n l1 l2 -> perm_in p n l2 l3 -> perm_in p n l1 l3.
Proof.
  intros [H1 H2] [H3 H4]. split; [by etrans|]. intros k Hk. by rewrite H4, H2.
Qed.

Lemma perm_in_mono {A} p n p' n' (l l' : list A) :
  perm_in p n l l' -> p' <= p -> p + n <= p' + n' -> perm_in p' n' l l'.
Proof. intros [H1 H2] ? ?. split; [done|]. intros k Hk. apply H2. lia. Qed.

Lemma perm_in_zlen {A} p n (l l' : list A) : perm_in p n l l' -> zlen l' = zlen l.
Proof. intros [H _]. unfold zlen. by rewrite H. Qed.
#[local] Hint Resolve perm_in_refl perm_in_trans : core.

(** The segment itself is permuted. *)
Lemma perm_in_segment {A} p n (l l' : list A) :
  0 <= p -> 0 <= n -> p + n <= zlen l -> perm_in p n l l' ->
  take (Z.to_nat n) (drop (Z.to_nat p) l) ≡ₚ take (Z.to_nat n) (drop (Z.to_nat p) l').
Proof.
  intros Hp Hn Hl Hpi. pose proof (perm_in_zlen _ _ _ _ Hpi) as Hlen. destruct Hpi as [Hperm Hout].
  assert (Ha : take (Z.to_nat p) l = take (Z.to_nat p) l').
  { apply zget_ext; [zlen_lia|]. intros k Hk. rewrite zlen_take in Hk.
    rewrite !zget_take by lia. symmetry. apply Hout. lia. }
  assert (Hb : drop (Z.to_nat (p + n)) l = drop (Z.to_nat (p + n)) l').
  { apply zget_ext; [zlen_lia|]. intros k Hk.
    rewrite !zget_drop by lia. symmetry. apply Hout. lia. }
  assert (Hsplit : forall m : list A, m = take (Z.to_nat p) m ++
      take (Z.to_nat n) (drop (Z.to_nat p) m) ++ drop (Z.to_nat (p + n)) m).
  { intros m. rewrite <- (take_drop (Z.to_nat p) m) at 1. f_equal.
    rewrite Z2Nat.inj_add, <- drop_drop by lia. by rewrite take_drop. }
  rewrite (Hsplit l), (Hsplit l'), Ha, Hb in Hperm.
  by apply Permutation_app_inv_l, Permutation_app_inv_r in Hperm.
Qed.

Lemma all_in_perm {A} p n (l l' : list A) P :
  0 <= p -> 0 <= n -> p + n <= zlen l -> perm_in p n l l' ->
  all_in l p (p + n) P -> all_in l' p (p + n) P.
Proof.
  intros Hp Hn Hl Hpi Hall k x Hk Hx.
  pose proof (perm_in_segment _ _ _ _ Hp Hn Hl Hpi) as Hs.
  assert (Hin : x ∈ take (Z.to_nat n) (drop (Z.to_nat p) l')).
  { apply list_elem_of_lookup. exists (Z.to_nat (k - p)). rewrite zget_lookup in Hx by lia.
    rewrite lookup_take_lt, lookup_drop by lia. rewrite <- Hx. f_equal. lia. }
  rewrite <- Hs in Hin. apply list_elem_of_lookup in Hin as [i Hi].
  apply lookup_take_Some in Hi as [Hi Hlt]. rewrite lookup_drop in Hi.
  apply (Hall (p + Z.of_nat i) x); [lia|]. rewrite zget_lookup by lia.
  rewrite <- Hi. f_equal. lia.
Qed.

Lemma exchanged_perm {A} (l l' : list A) i j :
  0 <= i < zlen l -> 0 <= j < zlen l -> exchanged l l' i j 1 -> l ≡ₚ l'.
Proof.
  intros Hi Hj [Hlen H]. unfold zlen in *. symmetry. apply Permutation_inj. split; [lia|].
  exists (fun k => if decide (Z.of_nat k = i) then Z.to_nat j
                   else if decide (Z.of_nat k = j) then Z.to_nat i else k). split.
  - intros k1 k2. repeat case_decide; lia.
  - intros k. specialize (H (Z.of_nat k)). rewrite zget_lookup, Nat2Z.id in H by lia. rewrite H.
    repeat case_match; bool_props; rewrite ?andb_false_iff in *; rewrite ?zget_lookup by lia;
      try (f_equal; lia); destruct_or?; bool_props; try lia; f_equal; lia.
Qed.

(** ** The loops stay inside the segment and rearrange it *)

Section SortProofs.
Context {A St : Type} (cmp : A -> A -> St -> Z * St).

Lemma cmp_at_spec l i j o :
  0 <= i < zlen l -> 0 <= j < zlen l ->
  exists x y, zget l i = Some x /\ zget l j = Some y /\ cmp_at cmp l i j o = Ok (cmp x y o).
Proof.
  intros Hi Hj. destruct (zget_in_range l i Hi) as [x Hx], (zget_in_range l j Hj) as [y Hy].
  exists x, y. unfold cmp_at. rewrite Hx, Hy. auto.
Qed.

Lemma swap_spec p n (l : list A) i j :
  0 <= p -> p + n <= zlen l -> p <= i < p + n -> p <= j < p + n ->
  exists l', swap l i j = Ok l' /\ perm_in p n l l' /\
    forall k, zget l' k = if k =? i then zget l j else if k =? j then zget l i else zget l k.
Proof.
  intros Hp Hl Hi Hj. unfold swap.
  destruct (zget_in_range l i ltac:(lia)) as [x Hx], (zget_in_range l j ltac:(lia)) as [y Hy].
  rewrite Hx, Hy. cbn.
  destruct (zset l i y) as [l1|] eqn:H1; [|by rewrite zset_in_range in H1 by lia]. cbn.
  pose proof (zlen_zset _ _ _ _ H1).
  destruct (zset l1 j x) as [l2|] eqn:H2; [|by rewrite zset_in_range in H2 by lia].
  pose proof (zlen_zset _ _ _ _ H2). exists l2.
  assert (Hk : forall k, zget l2 k = if k =? i then zget l j else if k =? j then zget l i else zget l k).
  { intros k. rewrite (zget_zset _ _ _ _ _ H2), (zget_zset _ _ _ _ _ H1).
    destruct (Z.eqb_spec k i), (Z.eqb_spec k j); subst; congruence. }
  split; [done|]. split; [|by rewrite <- Hx, <- Hy]. split.
  - apply exchanged_perm with i j; [lia|lia|]. split; [lia|]. intros k. rewrite Hk.
    repeat case_match; bool_props; rewrite ?andb_false_iff in *; destruct_or?; bool_props;
      subst; try lia; try done; f_equal; lia.
  - intros k Hko. rewrite Hk. repeat case_match; bool_props; [lia|lia|done].
Qed.

Lemma swap_block_spec n (l : list A) p m i j :
  0 <= p -> p + m <= zlen l -> p <= i -> i + Z.of_nat n <= j -> j + Z.of_nat n <= p + m ->
  exists l', swap_block n l i j = Ok l' /\ perm_in p m l l' /\ exchanged l l' i j (Z.of_nat n).
Proof.
  revert l i j. induction n as [|n IH]; intros l i j Hp Hl Hi Hij Hj.
  { exists l. split; [done|]. split; [done|]. split; [done|]. intros k.
    repeat (case_match; bool_props); (done || lia). }
  simpl. destruct (swap_spec p m l i j) as (l1 & -> & Hp1 & Hk1); try lia.
  pose proof (perm_in_zlen _ _ _ _ Hp1).
  destruct (IH l1 (i + 1) (j + 1)) as (l2 & H2 & Hp2 & He2); try lia.
  exists l2. split; [done|]. split; [by eapply perm_in_trans|].
  replace (Z.of_nat (S n)) with (1 + Z.of_nat n) by lia.
  apply exchanged_step with l1; [lia|lia|lia| |done]. split; [done|].
  intros k. rewrite Hk1. repeat case_match; bool_props; rewrite ?andb_false_iff in *;
    destruct_or?; bool_props; subst; try lia; try done; f_equal; lia.
Qed.

(** *** The order, when the comparison function has one *)

(** [cmp] returns the sign of a total preorder, whatever its state. *)
Record cmp_order (f : A -> A -> Z) : Prop := {
  co_cmp : forall x y o, (cmp x y o).1 = f x y;
  co_anti : forall x y, f x y <= 0 <-> 0 <= f y x;
  co_trans : forall x y z, f x y <= 0 -> f y z <= 0 -> f x z <= 0 }.

Definition le_at (f : A -> A -> Z) (l : list A) (i j : Z) : Prop :=
  forall x y, zget l i = Some x -> zget l j = Some y -> f x y <= 0.

Definition sorted_seg (f : A -> A -> Z) (l : list A) (p n : Z) : Prop :=
  forall a b, 0 <= a < b -> b < n -> le_at f l (p + a) (p + b).

Lemma co_flip f x y : cmp_order f -> 0 <= f x y -> f y x <= 0.
Proof. intros H ?. by apply (co_anti f H). Qed.

Lemma le_at_trans f l i j k y :
  cmp_order f -> zget l j = Some y -> le_at f l i j -> le_at f l j k -> le_at f l i k.
Proof. intros Ho Hy H1 H2 x z Hx Hz. apply (co_trans f Ho) with y; auto. Qed.

(** *** Insertion sort *)

(** All pairs up to [i] are in order, apart from those that end at [j]. *)
Definition sorted_but (f : A -> A -> Z) (l : list A) (ptr i j : Z) : Prop :=
  forall a b, 0 <= a < b -> b <= i -> b <> j -> le_at f l (ptr + a) (ptr + b).

Lemma sorted_but_stop f l ptr i j x :
  cmp_order f -> 0 <= j - 1 -> j <= i -> zget l (ptr + (j - 1)) = Some x ->
  le_at f l (ptr + (j - 1)) (ptr + j) -> sorted_but f l ptr i j ->
  sorted_seg f l ptr (i + 1).
Proof.
  intros Ho Hj Hi Hx Hle Hsb a b Hab Hb. destruct (Z.eq_dec b j) as [->|].
  - destruct (Z.eq_dec a (j - 1)) as [->|]; [done|].
    apply (le_at_trans _ _ _ (ptr + (j - 1)) _ x Ho Hx); [|done]. apply Hsb; lia.
  - apply Hsb; lia.
Qed.

Lemma insert_down_spec j ptr l o i :
  0 <= ptr -> Z.of_nat j <= i -> ptr + i < zlen l ->
  exists l' o', insert_down cmp j ptr l o = Ok (l', o') /\ perm_in ptr (i + 1) l l' /\
    forall f, cmp_order f -> sorted_but f l ptr i (Z.of_nat j) -> sorted_seg f l' ptr (i + 1).
Proof.
  revert l o. induction j as [|j IH]; intros l o Hp Hj Hi.
  { exists l, o. split; [done|]. split; [done|]. intros f Ho Hs a b Hab Hb. apply Hs; lia. }
  cbn [insert_down]. destruct (cmp_at_spec l (ptr + Z.of_nat j) (ptr + Z.of_nat (S j)) o)
    as (x & y & Hx & Hy & ->); [lia|lia|]. cbn.
  destruct (cmp x y o) as [c o1] eqn:Hc. cbn. destruct (Z.ltb_spec 0 c).
  - destruct (swap_spec ptr (i + 1) l (ptr + Z.of_nat (S j)) (ptr + Z.of_nat j))
      as (l1 & -> & Hp1 & Hk); [lia..|]. pose proof (perm_in_zlen _ _ _ _ Hp1).
    destruct (IH l1 o1) as (l2 & o2 & H2 & Hp2 & Hs2); [lia..|].
    exists l2, o2. split; [done|]. split; [by eapply perm_in_trans|].
    intros f Ho Hsb. apply Hs2; [done|]. intros a b Hab Hb Hbj u v Hu Hv.
    rewrite Hk in Hu, Hv. pose proof (co_cmp f Ho x y o) as Hf. rewrite Hc in Hf. cbn in Hf.
    destruct (Z.eqb_spec (ptr + b) (ptr + Z.of_nat (S j))) as [Hbs|].
    + destruct (Z.eqb_spec (ptr + a) (ptr + Z.of_nat (S j))); [lia|].
      destruct (Z.eqb_spec (ptr + a) (ptr + Z.of_nat j)).
      * simplify_eq. apply co_flip; [done|lia].
      * eapply (Hsb a (Z.of_nat j)); [lia|lia|lia|done|done].
    + destruct (Z.eqb_spec (ptr + b) (ptr + Z.of_nat j)); [lia|].
      repeat case_match; bool_props.
      * eapply (Hsb (Z.of_nat j) b); [lia|lia|lia|done|done].
      * eapply (Hsb (Z.of_nat (S j)) b); [lia|lia|lia|done|done].
      * eapply (Hsb a b); [lia|lia|lia|done|done].
  - exists l, o1. split; [done|]. split; [done|]. intros f Ho Hsb.
    assert (Z.of_nat (S j) - 1 = Z.of_nat j) as Hjj by lia.
    apply (sorted_but_stop f l ptr i (Z.of_nat (S j)) x); rewrite ?Hjj; try done; try lia.
    intros u v Hu Hv. replace u with x by congruence. replace v with y by congruence.
    rewrite <- (co_cmp f Ho x y o), Hc. cbn. lia.
Qed.

Lemma insertion_spec k i ptr l o :
  0 <= ptr -> ptr + Z.of_nat (i + k) <= zlen l -> (1 <= i)%nat ->
  exists l' o', insertion cmp k i ptr l o = Ok (l', o') /\ perm_in ptr (Z.of_nat (i + k)) l l' /\
    forall f, cmp_order f -> sorted_seg f l ptr (Z.of_nat i) -> sorted_seg f l' ptr (Z.of_nat (i + k)).
Proof.
  revert i l o. induction k as [|k IH]; intros i l o Hp Hl Hi.
  { exists l, o. rewrite Nat.add_0_r. split; [done|]. split; [done|]. auto. }
  simpl. destruct (insert_down_spec i ptr l o (Z.of_nat i)) as (l1 & o1 & -> & Hp1 & Hs1); [lia..|].
  pose proof (perm_in_zlen _ _ _ _ Hp1). simpl.
  destruct (IH (S i) l1 o1) as (l2 & o2 & -> & Hp2 & Hs2); [lia..|].
  exists l2, o2. replace (i + S k)%nat with (S i + k)%nat by lia. split; [done|]. split.
  - apply perm_in_trans with l1; [|done]. apply perm_in_mono with ptr (Z.of_nat i + 1); [done|lia|lia].
  - intros f Ho Hs. apply Hs2; [done|]. replace (Z.of_nat (S i)) with (Z.of_nat i + 1) by lia.
    apply Hs1; [done|]. intros a b Hab Hb Hne. apply Hs; lia.
Qed.

Lemma insertion_sort_spec ptr nmemb l o :
  0 <= ptr -> 0 <= nmemb -> ptr + nmemb <= zlen l ->
  exists l' o', insertion_sort cmp ptr nmemb l o = Ok (l', o') /\ perm_in ptr nmemb l l' /\
    forall f, cmp_order f -> sorted_seg f l' ptr nmemb.
Proof.
  intros Hp Hn Hl. unfold insertion_sort. destruct (Z.leb_spec nmemb 1).
  { replace (Z.to_nat (nmemb - 1)) with 0%nat by lia. exists l, o. split; [done|]. split; [done|].
    intros f Ho a b ? ?. lia. }
  destruct (insertion_spec (Z.to_nat (nmemb - 1)) 1 ptr l o) as (l' & o' & -> & Hp' & Hs); [lia..|].
  exists l', o'. replace (Z.of_nat (1 + Z.to_nat (nmemb - 1))) with nmemb in * by lia.
  split; [done|]. split; [done|]. intros f Ho. apply Hs; [done|]. intros a b ? ?. lia.
Qed.

(** *** Heap sort *)

Definition child (c k : Z) : Prop := c = k * 2 + 1 \/ c = k * 2 + 2.

(** Every node from [s] on, apart from [r], is at least as large as its children. *)
Definition heap_but (f : A -> A -> Z) (l : list A) (base n s r : Z) : Prop :=
  forall k c, s <= k -> k <> r -> child c k -> c < n -> le_at f l (base + c) (base + k).

(** The children of [r] are no larger than the parent of [r]. *)
Definition heap_skip (f : A -> A -> Z) (l : list A) (base n s r : Z) : Prop :=
  forall k c, s <= k -> child r k -> child c r -> c < n -> le_at f l (base + c) (base + k).

Definition heap (f : A -> A -> Z) (l : list A) (base n s : Z) : Prop :=
  forall k c, s <= k -> child c k -> c < n -> le_at f l (base + c) (base + k).

(** The larger child [c] of [r] that the loop compares with. *)
Lemma sift_child base n r l o :
  0 <= base -> base + n <= zlen l -> 0 <= r -> r * 2 + 1 < n ->
  exists c o',
    (if r * 2 + 1 <? n - 1 then
       '(d, o) ← cmp_at cmp l (base + (r * 2 + 1)) (base + (r * 2 + 1 + 1)) o;
       Ok (if d <=? 0 then r * 2 + 1 + 1 else r * 2 + 1, o)
     else Ok (r * 2 + 1, o)) = Ok (c, o') /\ child c r /\ c < n /\
    forall f, cmp_order f -> forall c', child c' r -> c' < n -> le_at f l (base + c') (base + c).
Proof.
  intros Hb Hl Hr Hc.
  assert (Hrefl : forall f i, cmp_order f -> le_at f l i i).
  { intros f i Ho x y Hx Hy. replace y with x by congruence. pose proof (co_anti f Ho x x). lia. }
  destruct (Z.ltb_spec (r * 2 + 1) (n - 1)).
  - destruct (cmp_at_spec l (base + (r * 2 + 1)) (base + (r * 2 + 1 + 1)) o)
      as (x & y & Hx & Hy & ->); [lia|lia|]. cbn. destruct (cmp x y o) as [d o1] eqn:Hd. cbn.
    assert (Hf : forall f, cmp_order f -> d = f x y).
    { intros f Ho. by rewrite <- (co_cmp f Ho x y o), Hd. }
    destruct (Z.leb_spec d 0); (eexists _, _; split; [done|]; split; [unfold child; lia|]; split; [lia|]);
      intros f Ho c' [->| ->] Hc'; rewrite (Hf f Ho) in *; try (by apply Hrefl).
    + intros u v Hu Hv. replace u with x by congruence. replace v with y by congruence. done.
    + replace (r * 2 + 2) with (r * 2 + 1 + 1) by lia. by apply Hrefl.
    + replace (r * 2 + 2) with (r * 2 + 1 + 1) by lia.
      intros u v Hu Hv. replace u with y by congruence. replace v with x by congruence.
      apply co_flip; [done|lia].
  - eexists _, _. split; [done|]. split; [unfold child; lia|]. split; [lia|].
    intros f Ho c' [->| ->] Hc'; [by apply Hrefl|lia].
Qed.

(** Exchanging [r] with its larger child keeps the heap property around [c]. *)
Lemma heap_step f l l' base n s r c x y :
  cmp_order f -> s <= r -> child c r -> c < n -> 0 <= r ->
  zget l (base + r) = Some x -> zget l (base + c) = Some y -> f x y <= 0 ->
  (forall c', child c' r -> c' < n -> le_at f l (base + c') (base + c)) ->
  (forall k, zget l' k = if k =? base + r then zget l (base + c)
                         else if k =? base + c then zget l (base + r) else zget l k) ->
  heap_but f l base n s r -> heap_skip f l base n s r ->
  heap_but f l' base n s c /\ heap_skip f l' base n s c.
Proof.
  intros Ho Hs Hc Hcn Hr Hx Hy Hxy Hmax Hk Hbut Hskip. unfold child in *. split.
  - intros k c' Hsk Hkc Hc' Hcn' u v Hu Hv. rewrite Hk in Hu, Hv. unfold child in Hc'.
    destruct (Z.eqb_spec (base + k) (base + r)) as [Hkr|].
    + assert (k = r) as -> by lia.
      destruct (Z.eqb_spec (base + c') (base + r)); [lia|].
      destruct (Z.eqb_spec (base + c') (base + c)); [congruence|].
      exact (Hmax c' Hc' Hcn' u v Hu Hv).
    + destruct (Z.eqb_spec (base + k) (base + c)); [lia|].
      destruct (Z.eqb_spec (base + c') (base + r)) as [Hcr|].
      * refine (Hskip k c Hsk _ Hc Hcn u v Hu Hv). unfold child. lia.
      * destruct (Z.eqb_spec (base + c') (base + c)); [lia|].
        exact (Hbut k c' Hsk ltac:(lia) Hc' Hcn' u v Hu Hv).
  - intros k c' Hsk Hck Hc' Hcn' u v Hu Hv. rewrite Hk in Hu, Hv. unfold child in *.
    assert (k = r) as -> by lia. rewrite Z.eqb_refl in Hv.
    destruct (Z.eqb_spec (base + c') (base + r)); [lia|].
    destruct (Z.eqb_spec (base + c') (base + c)); [lia|].
    exact (Hbut c c' ltac:(lia) ltac:(lia) Hc' Hcn' u v Hu Hv).
Qed.

(** When the loop stops at [r], no node is out of order any more. *)
Lemma heap_stop f l base n s r :
  (forall c, child c r -> c < n -> le_at f l (base + c) (base + r)) ->
  heap_but f l base n s r -> heap f l base n s.
Proof.
  intros Hr Hbut k c Hk Hc Hcn. destruct (Z.eq_dec k r) as [->|]; [by apply Hr|by apply Hbut].
Qed.

Lemma sift_spec fuel base n r l o :
  0 <= base -> base + n <= zlen l -> 0 <= r < n -> n - r < Z.of_nat fuel ->
  exists l' o', sift cmp fuel base n r l o = Ok (l', o') /\ perm_in base n l l' /\
    forall f s, cmp_order f -> s <= r -> heap_but f l base n s r -> heap_skip f l base n s r ->
      heap f l' base n s.
Proof.
  revert r l o. induction fuel as [|fuel IH]; intros r l o Hb Hl Hr Hf; [lia|].
  cbn [sift]. cbv zeta. destruct (Z.ltb_spec (r * 2 + 1) n) as [Hlt|Hge].
  2:{ exists l, o. split; [done|]. split; [done|]. intros f s Ho Hs Hbut Hskip.
      apply heap_stop with r; [|done]. intros c [->| ->]; lia. }
  destruct (sift_child base n r l o) as (c & o1 & -> & Hc & Hcn & Hmax); [lia..|].
  assert (Hcr : r < c) by (unfold child in Hc; lia). cbn.
  destruct (cmp_at_spec l (base + r) (base + c) o1) as (x & y & Hx & Hy & ->); [lia|lia|].
  cbn. destruct (cmp x y o1) as [d o2] eqn:Hd. cbn.
  assert (Hfd : forall f, cmp_order f -> d = f x y).
  { intros f Ho. by rewrite <- (co_cmp f Ho x y o1), Hd. }
  destruct (Z.ltb_spec 0 d).
  - exists l, o2. split; [done|]. split; [done|]. intros f s Ho Hs Hbut Hskip.
    apply heap_stop with r; [|done]. intros c' Hc' Hcn'.
    apply (le_at_trans f l _ (base + c) _ y Ho Hy); [by apply Hmax|].
    intros u v Hu Hv. replace u with y by congruence. replace v with x by congruence.
    apply co_flip; [done|]. rewrite <- (Hfd f Ho). lia.
  - destruct (swap_spec base n l (base + r) (base + c)) as (l1 & -> & Hp1 & Hk); [lia..|].
    pose proof (perm_in_zlen _ _ _ _ Hp1). cbn.
    destruct (IH c l1 o2) as (l2 & o3 & H2 & Hp2 & Hh2); [lia..|].
    exists l2, o3. split; [done|]. split; [by eapply perm_in_trans|].
    intros f s Ho Hs Hbut Hskip.
    destruct (heap_step f l l1 base n s r c x y) as [? ?]; try done; try lia;
      [rewrite <- (Hfd f Ho); lia|by apply Hmax|]. apply Hh2; [done|lia|done|done].
Qed.

Lemma heap_build_spec i base n l o :
  0 <= base -> base + n <= zlen l -> Z.of_nat i * 2 <= n ->
  exists l' o', heap_build cmp i base n l o = Ok (l', o') /\ perm_in base n l l' /\
    forall f, cmp_order f -> heap f l base n (Z.of_nat i) -> heap f l' base n 0.
Proof.
  revert l o. induction i as [|i IH]; intros l o Hb Hl Hi.
  { exists l, o. auto. }
  cbn [heap_build].
  destruct (sift_spec (S (Z.to_nat n)) base n (Z.of_nat i) l o) as (l1 & o1 & -> & Hp1 & Hh1); [lia..|].
  pose proof (perm_in_zlen _ _ _ _ Hp1). cbn.
  destruct (IH l1 o1) as (l2 & o2 & -> & Hp2 & Hh2); [lia..|].
  exists l2, o2. split; [done|]. split; [by eapply perm_in_trans|]. intros f Ho Hh.
  apply Hh2; [done|]. apply Hh1; [done|lia|..].
  - intros k c Hk Hki Hc Hcn. apply Hh; [lia|done|done].
  - intros k c Hk Hki. unfold child in Hki. lia.
Qed.

(** The root of a heap is its largest element. *)
Lemma heap_root f l base n k :
  cmp_order f -> 0 <= base -> base + n <= zlen l -> heap f l base n 0 -> 0 <= k < n ->
  le_at f l (base + k) (base + 0).
Proof.
  intros Ho Hb Hl Hh [Hk0 Hkn]. revert Hkn. pattern k. apply Zlt_0_ind; [|done].
  clear k Hk0. intros k IH Hk0 Hkn. destruct (Z.eq_dec k 0) as [->|].
  - intros x y Hx Hy. replace y with x by congruence. pose proof (co_anti f Ho x x). lia.
  - assert (Hq : exists q, 0 <= q < k /\ child k q) by (exists ((k - 1) / 2); unfold child; zdm).
    destruct Hq as (q & Hqk & Hq).
    destruct (zget_in_range l (base + q) ltac:(lia)) as [y Hy].
    apply (le_at_trans f l _ (base + q) _ y Ho Hy); [apply Hh; [lia|done|lia]|apply IH; lia].
Qed.

(** Pairs whose second element lies beyond [i] are in order. *)
Definition sorted_above (f : A -> A -> Z) (l : list A) (base n i : Z) : Prop :=
  forall a b, 0 <= a < b -> b < n -> i < b -> le_at f l (base + a) (base + b).

(** One round: the root goes to position [i]. *)
Lemma drain_swap f l l1 base n i :
  cmp_order f -> 0 <= base -> base + n <= zlen l -> 0 < i < n ->
  heap f l base (i + 1) 0 -> sorted_above f l base n i ->
  (forall k, zget l1 k = if k =? base then zget l (base + i)
                         else if k =? base + i then zget l base else zget l k) ->
  heap_but f l1 base i 0 0 /\ sorted_above f l1 base n (i - 1).
Proof.
  intros Ho Hb Hl Hi Hh Hs Hk. split.
  - intros k c Hk0 Hkne Hc Hci u v Hu Hv. unfold child in Hc. rewrite Hk in Hu, Hv.
    destruct (Z.eqb_spec (base + c) base), (Z.eqb_spec (base + c) (base + i)),
      (Z.eqb_spec (base + k) base), (Z.eqb_spec (base + k) (base + i)); try lia.
    refine (Hh k c Hk0 _ _ u v Hu Hv); [done|lia].
  - intros a b Hab Hb' Hib u v Hu Hv. rewrite Hk in Hu, Hv.
    destruct (Z.eqb_spec (base + b) base); [lia|].
    destruct (Z.eqb_spec (base + b) (base + i)) as [Hbi|].
    + rewrite <- (Z.add_0_r base) in Hv. destruct (Z.eqb_spec (base + a) base).
      * exact (heap_root f l base (i + 1) i Ho Hb ltac:(lia) Hh ltac:(lia) u v Hu Hv).
      * destruct (Z.eqb_spec (base + a) (base + i)); [lia|].
        exact (heap_root f l base (i + 1) a Ho Hb ltac:(lia) Hh ltac:(lia) u v Hu Hv).
    + destruct (Z.eqb_spec (base + a) base).
      * exact (Hs i b ltac:(lia) ltac:(lia) ltac:(lia) u v Hu Hv).
      * destruct (Z.eqb_spec (base + a) (base + i)).
        -- rewrite <- (Z.add_0_r base) in Hu. exact (Hs 0 b ltac:(lia) ltac:(lia) ltac:(lia) u v Hu Hv).
        -- exact (Hs a b ltac:(lia) ltac:(lia) ltac:(lia) u v Hu Hv).
Qed.

(** Rearranging the first [i] elements keeps the pairs beyond them in order. *)
Lemma sorted_above_perm f l l' base n i :
  0 <= base -> base + n <= zlen l -> 0 <= i < n -> perm_in base i l l' ->
  sorted_above f l base n (i - 1) -> sorted_above f l' base n (i - 1).
Proof.
  intros Hb Hl Hi Hp Hs a b Hab Hbn Hib u v Hu Hv.
  rewrite (proj2 Hp) in Hv by lia. destruct (Z.ltb_spec a i).
  - refine (all_in_perm base i l l' (fun x => f x v <= 0) Hb ltac:(lia) ltac:(lia) Hp _ (base + a) u _ Hu);
      [|lia]. intros k x Hk Hx. apply (Hs (k - base) b ltac:(lia) ltac:(lia) ltac:(lia) x v); [|done].
    rewrite <- Hx. f_equal. lia.
  - rewrite (proj2 Hp) in Hu by lia. exact (Hs a b Hab Hbn Hib u v Hu Hv).
Qed.

Lemma heap_drain_spec i base n l o :
  0 <= base -> base + n <= zlen l -> Z.of_nat i < n ->
  exists l' o', heap_drain cmp i base l o = Ok (l', o') /\ perm_in base n l l' /\
    forall f, cmp_order f -> heap f l base (Z.of_nat i + 1) 0 -> sorted_above f l base n (Z.of_nat i) ->
      sorted_above f l' base n 0.
Proof.
  revert l o. induction i as [|i IH]; intros l o Hb Hl Hi.
  { exists l, o. auto. }
  cbn [heap_drain].
  destruct (swap_spec base n l base (base + Z.of_nat (S i))) as (l1 & -> & Hp1 & Hk1); [lia..|].
  pose proof (perm_in_zlen _ _ _ _ Hp1). cbn [mbind outcome_bind].
  destruct (sift_spec (S (S i)) base (Z.of_nat (S i)) 0 l1 o) as (l2 & o2 & -> & Hp2 & Hh2); [lia..|].
  pose proof (perm_in_zlen _ _ _ _ Hp2). cbn [mbind outcome_bind].
  destruct (IH l2 o2) as (l3 & o3 & -> & Hp3 & Hs3); [lia..|].
  exists l3, o3. split; [done|]. split.
  - apply perm_in_trans with l1; [done|]. apply perm_in_trans with l2; [|done].
    apply perm_in_mono with base (Z.of_nat (S i)); [done|lia|lia].
  - intros f Ho Hh Hs. destruct (drain_swap f l l1 base n (Z.of_nat (S i))) as [Hbut Hs1]; try done; try lia.
    apply Hs3; [done|..].
    + replace (Z.of_nat i + 1) with (Z.of_nat (S i)) by lia. apply Hh2; [done|lia|done|].
      intros k c Hk Hki. unfold child in Hki. lia.
    + replace (Z.of_nat i) with (Z.of_nat (S i) - 1) by lia.
      apply sorted_above_perm with l1; [lia|lia|lia|done|done].
Qed.

Lemma heapsortx_spec base nmemb l o :
  0 <= base -> 0 <= nmemb -> base + nmemb <= zlen l ->
  exists l' o', heapsortx cmp base nmemb l o = Ok (l', o') /\ perm_in base nmemb l l' /\
    forall f, cmp_order f -> sorted_seg f l' base nmemb.
Proof.
  intros Hb Hn Hl. unfold heapsortx. destruct (Z.ltb_spec 1 nmemb).
  2:{ exists l, o. split; [done|]. split; [done|]. intros f Ho a b ? ?. lia. }
  destruct (heap_build_spec (Z.to_nat (nmemb / 2)) base nmemb l o) as (l1 & o1 & -> & Hp1 & Hh1);
    [lia|lia|zdm|]. pose proof (perm_in_zlen _ _ _ _ Hp1). cbn.
  destruct (heap_drain_spec (Z.to_nat (nmemb - 1)) base nmemb l1 o1) as (l2 & o2 & -> & Hp2 & Hs2);
    [lia..|]. exists l2, o2. split; [done|]. split; [by eapply perm_in_trans|].
  intros f Ho a b Hab Hbn. apply Hs2; [done| | |lia|lia|lia].
  - replace (Z.of_nat (Z.to_nat (nmemb - 1)) + 1) with nmemb by lia. apply Hh1; [done|].
    intros k c Hk Hc Hcn. unfold child in Hc. zdm.
  - intros a' b' ? ? ?. lia.
Qed.

(** *** Partition *)

(** Elements equal to, smaller than and greater than the pivot. *)
Definition eq_pv (f : A -> A -> Z) (pv x : A) : Prop := f pv x = 0.
Definition lt_pv (f : A -> A -> Z) (pv x : A) : Prop := 0 < f pv x.
Definition gt_pv (f : A -> A -> Z) (pv x : A) : Prop := f pv x < 0.

(** The four parts while the loop runs: equal, smaller, (unknown), greater, equal. *)
Record parts (f : A -> A -> Z) (pv : A) (l : list A) (ptr n lt i j gt : Z) : Prop := {
  pt_pivot : zget l ptr = Some pv;
  pt_eq1 : all_in l (ptr + 1) (ptr + lt) (eq_pv f pv);
  pt_lt : all_in l (ptr + lt) (ptr + i) (lt_pv f pv);
  pt_gt : all_in l (ptr + j) (ptr + gt) (gt_pv f pv);
  pt_eq2 : all_in l (ptr + gt) (ptr + n) (eq_pv f pv) }.

(** Facts about ranges after an exchange whose effect on look-ups is [Hk]. *)
Ltac range_tac Hk :=
  let k := fresh "k" in let x := fresh "x" in
  let Hr := fresh "Hr" in let Hx := fresh "Hx" in
  intros k x Hr Hx; try rewrite Hk in Hx; repeat case_match; bool_props; try lia;
  try match goal with
  | H : all_in ?l _ _ ?P |- ?P x => apply (H _ x ltac:(lia) Hx)
  | H : all_in ?l _ _ (?P ?f ?pv) |- ?P ?f ?pv x => eapply H; [|exact Hx]; lia
  end.

Lemma med3_spec a b c l o :
  0 <= a < zlen l -> 0 <= b < zlen l -> 0 <= c < zlen l ->
  exists m o', med3 cmp a b c l o = Ok (m, o') /\ (m = a \/ m = b \/ m = c).
Proof.
  intros Ha Hb Hc. unfold med3.
  destruct (cmp_at_spec l a b o) as (x & y & _ & _ & ->); [done..|]. cbn.
  destruct (cmp x y o) as [d o1]. cbn.
  destruct (cmp_at_spec l b c o1) as (x1 & y1 & _ & _ & ->); [done..|]. cbn.
  destruct (cmp x1 y1 o1) as [d1 o2]. cbn.
  destruct (cmp_at_spec l a c o2) as (x2 & y2 & _ & _ & Hac); [done..|]. rewrite Hac.
  destruct (cmp x2 y2 o2) as [d2 o3]. cbn.
  repeat case_match; eexists _, _; (split; [reflexivity|]); auto.
Qed.

Lemma scan_up_spec fuel ptr n lt i j gt l o :
  0 <= ptr -> ptr + n <= zlen l -> 1 <= lt <= i -> i <= j <= gt -> gt <= n -> j - i < Z.of_nat fuel ->
  exists lt' i' l' o', scan_up cmp fuel ptr lt i j l o = Ok (lt', i', l', o') /\
    perm_in ptr n l l' /\ 1 <= lt' <= i' /\ i <= i' <= j /\
    forall f pv, cmp_order f -> parts f pv l ptr n lt i j gt ->
      parts f pv l' ptr n lt' i' j gt /\
      (i' < j -> all_in l' (ptr + i') (ptr + i' + 1) (gt_pv f pv)).
Proof.
  revert lt i l o. induction fuel as [|fuel IH]; intros lt i l o Hp Hl Hlt Hi Hg Hf; [lia|].
  cbn [scan_up]. destruct (Z.ltb_spec i j).
  2:{ exists lt, i, l, o. split; [done|]. split; [done|]. split; [lia|]. split; [lia|].
      intros f pv Ho Hpt. split; [done|]. intros ?. lia. }
  destruct (cmp_at_spec l ptr (ptr + i) o) as (pv' & y & Hpv & Hy & ->); [lia|lia|]. cbn.
  destruct (cmp pv' y o) as [c o1] eqn:Hc. cbn.
  assert (Hfc : forall f, cmp_order f -> c = f pv' y).
  { intros f Ho. by rewrite <- (co_cmp f Ho pv' y o), Hc. }
  destruct (Z.leb_spec 0 c); [destruct (Z.eqb_spec c 0)|].
  - destruct (swap_spec (ptr + 1) (n - 1) l (ptr + lt) (ptr + i)) as (l1 & -> & Hp1 & Hk); [lia..|]. cbn.
    pose proof (perm_in_zlen _ _ _ _ Hp1).
    apply (perm_in_mono _ _ ptr n) in Hp1; [|lia|lia].
    destruct (IH (lt + 1) (i + 1) l1 o1) as (lt' & i' & l' & o' & H' & Hp' & ? & ? & Hpt'); [lia..|].
    exists lt', i', l', o'. split; [done|]. split; [by eapply perm_in_trans|]. split; [lia|]. split; [lia|].
    intros f pv Ho [Hpiv He1 Hl1 Hg1 He2]. apply Hpt'; [done|].
    assert (pv = pv') as -> by congruence. pose proof (Hfc f Ho).
    split.
    + rewrite Hk. repeat case_match; bool_props; (lia || done).
    + range_tac Hk. unfold eq_pv. congruence.
    + range_tac Hk.
    + range_tac Hk.
    + range_tac Hk.
  - destruct (IH lt (i + 1) l o1) as (lt' & i' & l' & o' & H' & Hp' & ? & ? & Hpt'); [lia..|].
    exists lt', i', l', o'. split; [done|]. split; [done|]. split; [lia|]. split; [lia|].
    intros f pv Ho [Hpiv He1 Hl1 Hg1 He2]. apply Hpt'; [done|].
    assert (pv = pv') as -> by congruence. pose proof (Hfc f Ho).
    split; [done|done| |done|done].
    intros k x Hr Hx. destruct (Z.eq_dec k (ptr + i)) as [->|]; [|apply (Hl1 k x); [lia|done]].
    unfold lt_pv. replace x with y by congruence. lia.
  - exists lt, i, l, o1. split; [done|]. split; [done|]. split; [lia|]. split; [lia|].
    intros f pv Ho Hpt. split; [done|]. intros _ k x Hr Hx.
    assert (k = ptr + i) as -> by lia. pose proof (pt_pivot _ _ _ _ _ _ _ _ _ Hpt).
    unfold gt_pv. replace x with y by congruence. replace pv with pv' by congruence.
    rewrite <- (Hfc f Ho). lia.
Qed.

Lemma scan_down_spec fuel ptr n lt i j gt l o :
  0 <= ptr -> ptr + n <= zlen l -> 1 <= lt <= i -> i <= j <= gt -> gt <= n -> j - i < Z.of_nat fuel ->
  exists j' gt' l' o', scan_down cmp fuel ptr i j gt l o = Ok (j', gt', l', o') /\
    perm_in ptr n l l' /\ i - 1 <= j' < j /\ j' + 1 <= gt' <= gt /\ (i < j -> i <= j') /\
    (forall k, k <= ptr + i -> zget l' k = zget l k) /\
    forall f pv, cmp_order f -> parts f pv l ptr n lt i j gt ->
      parts f pv l' ptr n lt i (j' + 1) gt' /\
      (i < j' -> all_in l' (ptr + j') (ptr + j' + 1) (lt_pv f pv)).
Proof.
  revert j gt l o. induction fuel as [|fuel IH]; intros j gt l o Hp Hl Hlt Hi Hg Hf; [lia|].
  cbn [scan_down]. cbv zeta. destruct (Z.ltb_spec i (j - 1)).
  2:{ exists (j - 1), gt, l, o. split; [done|]. split; [done|]. split; [lia|]. split; [lia|].
      split; [lia|]. split; [done|]. intros f pv Ho Hpt. rewrite Z.sub_add. split; [done|]. lia. }
  destruct (cmp_at_spec l ptr (ptr + (j - 1)) o) as (pv' & y & Hpv & Hy & ->); [lia|lia|]. cbn.
  destruct (cmp pv' y o) as [c o1] eqn:Hc. cbn.
  assert (Hfc : forall f, cmp_order f -> c = f pv' y).
  { intros f Ho. by rewrite <- (co_cmp f Ho pv' y o), Hc. }
  destruct (Z.leb_spec c 0); [destruct (Z.eqb_spec c 0)|].
  - destruct (swap_spec (ptr + (i + 1)) (n - (i + 1)) l (ptr + (gt - 1)) (ptr + (j - 1)))
      as (l1 & -> & Hp1 & Hk); [lia..|]. cbn.
    pose proof (perm_in_zlen _ _ _ _ Hp1). pose proof (proj2 Hp1) as Hout.
    apply (perm_in_mono _ _ ptr n) in Hp1; [|lia|lia].
    destruct (IH (j - 1) (gt - 1) l1 o1) as (j' & gt' & l' & o' & H' & Hp' & ? & ? & ? & Hlow & Hpt'); [lia..|].
    exists j', gt', l', o'. split; [done|]. split; [by eapply perm_in_trans|]. split; [lia|]. split; [lia|].
    split; [lia|]. split. { intros k Hk'. rewrite Hlow by lia. apply Hout. lia. }
    intros f pv Ho [Hpiv He1 Hl1 Hg1 He2]. apply Hpt'; [done|].
    assert (pv = pv') as -> by congruence. pose proof (Hfc f Ho).
    split.
    + rewrite Hk. repeat case_match; bool_props; (lia || done).
    + range_tac Hk.
    + range_tac Hk.
    + range_tac Hk.
    + range_tac Hk. unfold eq_pv. congruence.
  - destruct (IH (j - 1) gt l o1) as (j' & gt' & l' & o' & H' & Hp' & ? & ? & ? & Hlow & Hpt'); [lia..|].
    exists j', gt', l', o'. split; [done|]. split; [done|]. split; [lia|]. split; [lia|].
    split; [lia|]. split; [done|].
    intros f pv Ho [Hpiv He1 Hl1 Hg1 He2]. apply Hpt'; [done|].
    assert (pv = pv') as -> by congruence. pose proof (Hfc f Ho).
    split; [done|done|done| |done].
    intros k x Hr Hx. destruct (Z.eq_dec k (ptr + (j - 1))) as [->|]; [|apply (Hg1 k x); [lia|done]].
    unfold gt_pv. replace x with y by congruence. lia.
  - exists (j - 1), gt, l, o1. split; [done|]. split; [done|]. split; [lia|]. split; [lia|].
    split; [lia|]. split; [done|]. intros f pv Ho Hpt. rewrite Z.sub_add. split; [done|].
    intros _ k x Hr Hx. assert (k = ptr + (j - 1)) as -> by lia.
    pose proof (pt_pivot _ _ _ _ _ _ _ _ _ Hpt).
    unfold lt_pv. replace x with y by congruence. replace pv with pv' by congruence.
    rewrite <- (Hfc f Ho). lia.
Qed.

(** When the scans meet, nothing is unknown any more. *)
Lemma partition_loop_spec fuel ptr n lt i j gt l o :
  0 <= ptr -> ptr + n <= zlen l -> 1 <= lt <= i -> i <= j <= gt -> gt <= n -> j - i < Z.of_nat fuel ->
  exists lt' i' gt' l' o', partition_loop cmp fuel ptr lt i j gt l o = Ok (lt', i', gt', l', o') /\
    perm_in ptr n l l' /\ 1 <= lt' <= i' /\ i' <= gt' <= n /\
    forall f pv, cmp_order f -> parts f pv l ptr n lt i j gt -> parts f pv l' ptr n lt' i' i' gt'.
Proof.
  revert lt i j gt l o. induction fuel as [|fuel IH]; intros lt i j gt l o Hp Hl Hlt Hi Hg Hf; [lia|].
  cbn [partition_loop].
  destruct (scan_up_spec (S fuel) ptr n lt i j gt l o)
    as (lt1 & i1 & l1 & o1 & -> & Hp1 & Hlt1 & Hi1 & Hpt1); [lia..|]. cbn [mbind outcome_bind].
  pose proof (perm_in_zlen _ _ _ _ Hp1).
  destruct (scan_down_spec (S fuel) ptr n lt1 i1 j gt l1 o1)
    as (j2 & gt2 & l2 & o2 & -> & Hp2 & Hj2 & Hgt2 & Hij & Hlow & Hpt2); [lia..|]. cbn [mbind outcome_bind].
  pose proof (perm_in_zlen _ _ _ _ Hp2).
  assert (Hp12 : perm_in ptr n l l2) by (by eapply perm_in_trans).
  destruct (Z.leb_spec j2 i1).
  - exists lt1, i1, gt2, l2, o2. split; [done|]. split; [done|]. split; [lia|]. split; [lia|].
    intros f pv Ho Hpt. destruct (Hpt1 f pv Ho Hpt) as [Hq1 Hstop].
    destruct (Hpt2 f pv Ho Hq1) as [[Hpiv He1 Hl1 Hg1 He2] _].
    split; [done|done|done| |done].
    intros k x Hr Hx. destruct (Z.eq_dec k (ptr + i1)) as [->|]; [|apply (Hg1 k x); [lia|done]].
    destruct (Z.eq_dec j2 i1); [|apply (Hg1 (ptr + i1) x); [lia|done]].
    rewrite Hlow in Hx by lia. apply (Hstop ltac:(lia) (ptr + i1) x); [lia|done].
  - destruct (swap_spec (ptr + 1) (n - 1) l2 (ptr + i1) (ptr + j2)) as (l3 & -> & Hp3 & Hk); [lia..|]. cbn.
    pose proof (perm_in_zlen _ _ _ _ Hp3). apply (perm_in_mono _ _ ptr n) in Hp3; [|lia|lia].
    destruct (IH lt1 (i1 + 1) j2 gt2 l3 o2) as (lt' & i' & gt' & l' & o' & H' & Hp' & ? & ? & Hpt'); [lia..|].
    exists lt', i', gt', l', o'. split; [done|].
    split; [eapply perm_in_trans; [exact Hp12|]; by eapply perm_in_trans|]. split; [lia|]. split; [lia|].
    intros f pv Ho Hpt. apply Hpt'; [done|]. destruct (Hpt1 f pv Ho Hpt) as [Hq1 Hstop].
    destruct (Hpt2 f pv Ho Hq1) as [[Hpiv He1 Hl1 Hg1 He2] Hstop2].
    assert (Hs1 : all_in l2 (ptr + i1) (ptr + i1 + 1) (gt_pv f pv)).
    { intros k x Hr Hx. rewrite Hlow in Hx by lia. apply (Hstop ltac:(lia) k x); [lia|done]. }
    specialize (Hstop2 ltac:(lia)). split.
    + rewrite Hk. repeat case_match; bool_props; (lia || done).
    + range_tac Hk.
    + range_tac Hk. 
    + range_tac Hk.
    + range_tac Hk.
Qed.

(** Exchanging the shorter of two adjacent blocks [a .. b-1] and [b .. c-1] with the
    far end of the other one changes the order of the blocks. *)
Lemma block_swap_spec (l : list A) p n a b c :
  0 <= p -> p + n <= zlen l -> p <= a <= b -> b <= c <= p + n ->
  let span := if c - b <? b - a then c - b else b - a in
  exists l', swap_block (Z.to_nat span) l a (c - span) = Ok l' /\ perm_in p n l l' /\
    (forall k, k < a \/ c <= k -> zget l' k = zget l k) /\
    forall P Q, all_in l a b P -> all_in l b c Q ->
      all_in l' a (a + (c - b)) Q /\ all_in l' (a + (c - b)) c P.
Proof.
  intros Hp Hl Ha Hc span.
  destruct (swap_block_spec (Z.to_nat span) l p n a (c - span)) as (l' & -> & Hp' & _ & Hk);
    [subst span; try case_match; bool_props; lia..|].
  replace (Z.of_nat (Z.to_nat span)) with span in Hk by (subst span; case_match; bool_props; lia).
  exists l'. split; [done|]. split; [done|]. split.
  - intros k Hko. rewrite Hk. subst span.
    repeat case_match; bool_props; rewrite ?andb_false_iff in *; destruct_or?; bool_props; try lia; done.
  - intros P Q HP HQ. split; intros k x Hr Hx; rewrite Hk in Hx;
      destruct (Z.leb_spec a k), (Z.ltb_spec k (a + span)), (Z.leb_spec (c - span) k),
        (Z.ltb_spec k (c - span + span)); simpl in Hx;
      subst span; case_match; bool_props; try lia;
      first [eapply HP; [|exact Hx]; lia | eapply HQ; [|exact Hx]; lia].
Qed.

Lemma partition_spec ptr n l o :
  0 <= ptr -> 6 < n -> ptr + n <= zlen l ->
  exists lt gt l' o', partition cmp ptr n l o = Ok (lt, gt, l', o') /\ perm_in ptr n l l' /\
    0 <= lt < gt /\ gt <= n /\
    forall f, cmp_order f -> exists pv,
      all_in l' ptr (ptr + lt) (lt_pv f pv) /\
      all_in l' (ptr + lt) (ptr + gt) (eq_pv f pv) /\
      all_in l' (ptr + gt) (ptr + n) (gt_pv f pv).
Proof.
  intros Hp Hn Hl. unfold partition. cbv zeta.
  assert (Hm4 : 0 <= n ≫ 2 /\ (n ≫ 2) * 4 <= n) by (rewrite shiftr_div by lia; zdm).
  destruct (med3_spec (ptr + n ≫ 2) (ptr + 2 * (n ≫ 2)) (ptr + 3 * (n ≫ 2)) l o)
    as (m & o1 & -> & Hm); [lia..|]. cbn [mbind outcome_bind].
  destruct (swap_spec ptr n l ptr m) as (l1 & -> & Hp1 & _); [lia..|]. cbn [mbind outcome_bind].
  pose proof (perm_in_zlen _ _ _ _ Hp1).
  destruct (partition_loop_spec (S (Z.to_nat n)) ptr n 1 1 n n l1 o1)
    as (lt & i & gt & l2 & o2 & -> & Hp2 & Hlt & Hgt & Hpt); [lia..|]. cbn [mbind outcome_bind].
  pose proof (perm_in_zlen _ _ _ _ Hp2).
  destruct (block_swap_spec l2 ptr n ptr (ptr + lt) (ptr + i)) as (l3 & H3 & Hp3 & Hout3 & Hb3); [lia..|].
  replace (ptr + i - (ptr + lt)) with (i - lt) in * by lia.
  replace (ptr + lt - ptr) with lt in * by lia. rewrite H3. cbn [mbind outcome_bind].
  pose proof (perm_in_zlen _ _ _ _ Hp3).
  destruct (block_swap_spec l3 ptr n (ptr + i) (ptr + gt) (ptr + n)) as (l4 & H4 & Hp4 & Hout4 & Hb4); [lia..|].
  replace (ptr + n - (ptr + gt)) with (n - gt) in * by lia.
  replace (ptr + gt - (ptr + i)) with (gt - i) in * by lia.
  assert (Hspan : (if gt - i <? n - gt then gt - i else n - gt)
                  = (if n - gt <? gt - i then n - gt else gt - i)) by (repeat case_match; bool_props; lia).
  rewrite Hspan, H4. cbn [mbind outcome_bind].
  exists (i - lt), (n - (gt - i)), l4, o2. split; [done|].
  split; [repeat (eapply perm_in_trans; [eassumption|]); done|]. split; [lia|]. split; [lia|].
  intros f Ho. destruct (zget_in_range l1 ptr ltac:(lia)) as [pv Hpv].
  destruct (Hpt f pv Ho) as [Hpiv He1 Hl1 Hg1 He2].
  { split; [done|..]; intros k x Hk; lia. }
  assert (He1' : all_in l2 ptr (ptr + lt) (eq_pv f pv)).
  { intros k x Hk Hx. destruct (Z.eq_dec k ptr) as [->|]; [|apply (He1 k x); [lia|done]].
    replace x with pv by congruence. unfold eq_pv. pose proof (co_anti f Ho pv pv). lia. }
  destruct (Hb3 _ _ He1' Hl1) as [Ha3 Hc3].
  assert (Hg3 : all_in l3 (ptr + i) (ptr + gt) (gt_pv f pv)).
  { intros k x Hk Hx. rewrite Hout3 in Hx by lia. apply (Hg1 k x); [lia|done]. }
  assert (He3 : all_in l3 (ptr + gt) (ptr + n) (eq_pv f pv)).
  { intros k x Hk Hx. rewrite Hout3 in Hx by lia. apply (He2 k x); [lia|done]. }
  destruct (Hb4 _ _ Hg3 He3) as [Ha4 Hc4]. exists pv. split_and!.
  - intros k x Hk Hx. rewrite Hout4 in Hx by lia. apply (Ha3 k x); [lia|done].
  - intros k x Hk Hx. destruct (Z.ltb_spec k (ptr + i)).
    + rewrite Hout4 in Hx by lia. apply (Hc3 k x); [lia|done].
    + apply (Ha4 k x); [lia|done].
  - intros k x Hk Hx. apply (Hc4 k x); [lia|done].
Qed.

(** *** The two outer loops *)

(** Every pair of positions is in order, or lies in a segment still to be sorted. *)
Definition pending (f : A -> A -> Z) (segs : list (Z * Z)) (l : list A) : Prop :=
  forall i j, 0 <= i < j -> j < zlen l ->
    (exists p n, (p, n) ∈ segs /\ p <= i /\ j < p + n) \/ le_at f l i j.

(** The segments still to be sorted do not overlap and lie in the array. *)
Fixpoint disjoint_segs (len : Z) (segs : list (Z * Z)) : Prop :=
  match segs with
  | [] => True
  | (p, n) :: segs =>
      0 <= p /\ 0 <= n /\ p + n <= len /\
      (forall q m, (q, m) ∈ segs -> q + m <= p \/ p + n <= q) /\ disjoint_segs len segs
  end.

Lemma pending_perm f p n segs l l' :
  disjoint_segs (zlen l) ((p, n) :: segs) -> perm_in p n l l' ->
  pending f ((p, n) :: segs) l -> pending f ((p, n) :: segs) l'.
Proof.
  intros (Hp & Hn & Hl & Hdis & _) Hpi Hpend i j Hij Hj. rewrite (perm_in_zlen _ _ _ _ Hpi) in Hj.
  assert (Hout : forall k, k < p \/ p + n <= k -> zget l' k = zget l k) by apply (proj2 Hpi).
  assert (Hno : forall i j, 0 <= i < j -> j < zlen l -> ~ (p <= i /\ j < p + n) ->
    p <= i < p + n \/ p <= j < p + n -> le_at f l i j).
  { intros i' j' Hij' Hj' Hns Hone. destruct (Hpend i' j' Hij' Hj') as [(q & m & Hin & Hq)|]; [|done].
    apply elem_of_cons in Hin as [[= -> ->]|Hin]; [lia|]. apply Hdis in Hin. lia. }
  assert (Hseg : p <= i /\ j < p + n \/ ~ (p <= i /\ j < p + n)) by lia.
  destruct Hseg as [Hseg|Hseg].
  { left. exists p, n. split; [apply list_elem_of_here|done]. }
  assert (Hcases : p <= i < p + n \/ p <= j < p + n \/
    (i < p \/ p + n <= i) /\ (j < p \/ p + n <= j)) by lia.
  destruct Hcases as [Hi|[Hjs|[Hi Hjs]]].
  - right. intros x y Hx Hy. rewrite Hout in Hy by lia.
    refine (all_in_perm p n l l' (fun x => f x y <= 0) Hp Hn Hl Hpi _ i x Hi Hx).
    intros k z Hk Hz. apply (Hno k j); [lia|lia|lia|lia|done|done].
  - right. intros x y Hx Hy. rewrite Hout in Hx by lia.
    refine (all_in_perm p n l l' (fun y => f x y <= 0) Hp Hn Hl Hpi _ j y Hjs Hy).
    intros k z Hk Hz. apply (Hno i k); [lia|lia|lia|lia|done|done].
  - destruct (Hpend i j Hij Hj) as [?|Hle]; [by left|].
    right. intros x y Hx Hy. rewrite Hout in Hx, Hy by lia. by apply Hle.
Qed.

(** A partitioned segment leaves its two outer parts to be sorted. *)
Lemma pending_split f p n lt gt pv segs l :
  cmp_order f -> 0 <= lt < gt -> gt <= n ->
  all_in l p (p + lt) (lt_pv f pv) -> all_in l (p + lt) (p + gt) (eq_pv f pv) ->
  all_in l (p + gt) (p + n) (gt_pv f pv) ->
  pending f ((p, n) :: segs) l -> pending f ((p, lt) :: (p + gt, n - gt) :: segs) l.
Proof.
  intros Ho Hlt Hgt HL HE HG Hpend i j Hij Hj.
  destruct (Hpend i j Hij Hj) as [(q & m & Hin & Hq)|]; [|by right].
  apply elem_of_cons in Hin as [[= -> ->]|Hin].
  2:{ left. exists q, m. split; [|done]. by do 2 apply list_elem_of_further. }
  destruct (Z.ltb_spec j (p + lt)).
  { left. exists p, lt. split; [apply list_elem_of_here|lia]. }
  destruct (Z.leb_spec (p + gt) i).
  { left. exists (p + gt), (n - gt). split; [apply list_elem_of_further, list_elem_of_here|lia]. }
  right. intros x y Hx Hy. apply (co_trans f Ho) with pv.
  - apply co_flip; [done|]. destruct (Z.ltb_spec i (p + lt)).
    + pose proof (HL i x ltac:(lia) Hx). unfold lt_pv in *. lia.
    + pose proof (HE i x ltac:(lia) Hx). unfold eq_pv in *. lia.
  - destruct (Z.ltb_spec j (p + gt)).
    + pose proof (HE j y ltac:(lia) Hy). unfold eq_pv in *. lia.
    + pose proof (HG j y ltac:(lia) Hy). unfold gt_pv in *. lia.
Qed.

(** A sorted segment is not pending any more. *)
Lemma pending_done f p n segs l :
  sorted_seg f l p n -> pending f ((p, n) :: segs) l -> pending f segs l.
Proof.
  intros Hs Hpend i j Hij Hj. destruct (Hpend i j Hij Hj) as [(q & m & Hin & Hq)|]; [|by right].
  apply elem_of_cons in Hin as [[= -> ->]|Hin]; [|left; eauto].
  right. replace i with (p + (i - p)) by lia. replace j with (p + (j - p)) by lia. apply Hs; lia.
Qed.

Lemma pending_swap f s1 s2 segs l : pending f (s1 :: s2 :: segs) l -> pending f (s2 :: s1 :: segs) l.
Proof.
  intros H i j Hij Hj. destruct (H i j Hij Hj) as [(p & n & Hin & Hpn)|]; [left|by right].
  exists p, n. split; [|done]. rewrite !elem_of_cons in *. tauto.
Qed.

Definition seg (fr : frame) : Z * Z := (f_base fr, f_count fr).

(** The frame at height [k] of the stack has depth at least [k], and depths are at
    most 50. *)
Fixpoint depths_ok (sp : list frame) : Prop :=
  match sp with
  | [] => True
  | fr :: sp => zlen sp <= f_depth fr <= 50 /\ depths_ok sp
  end.

(** The work that is left: bounds the number of rounds. *)
Fixpoint work (sp : list frame) : Z :=
  match sp with [] => 0 | fr :: sp => 2 * f_count fr + 1 + work sp end.

Lemma disjoint_split len p n lt gt segs :
  0 <= lt < gt -> gt <= n -> disjoint_segs len ((p, n) :: segs) ->
  disjoint_segs len ((p, lt) :: (p + gt, n - gt) :: segs).
Proof.
  intros ? ? (Hp & Hn & Hl & Hd & Hds). simpl. split_and!; try lia; [| |done].
  - intros q m [[= -> ->]|Hin]%elem_of_cons; [lia|]. apply Hd in Hin. lia.
  - intros q m Hin. apply Hd in Hin. lia.
Qed.

Lemma disjoint_swap len s1 s2 segs :
  disjoint_segs len (s1 :: s2 :: segs) -> disjoint_segs len (s2 :: s1 :: segs).
Proof.
  destruct s1 as [p n], s2 as [q m]. simpl. intros (? & ? & ? & Hd1 & ? & ? & ? & Hd2 & ?).
  split_and!; try done.
  - intros q' m' [[= -> ->]|Hin]%elem_of_cons; [|by apply Hd2].
    destruct (Hd1 q m (list_elem_of_here _ _)); lia.
  - intros q' m' Hin. apply Hd1. by apply list_elem_of_further.
Qed.

Lemma push_frame_ok fr sp : zlen sp < 50 -> push_frame fr sp = Ok (fr :: sp).
Proof. intros. unfold push_frame, STACK_MAX. destruct (Z.ltb_spec (zlen sp) 50); [done|lia]. Qed.

Lemma quick_loop_spec fuel ptr n depth sp l o :
  disjoint_segs (zlen l) ((ptr, n) :: map seg sp) -> depths_ok sp -> zlen sp <= depth -> depth <= 50 ->
  n < Z.of_nat fuel ->
  exists ptr' n' sp' l' o', quick_loop cmp fuel ptr n depth sp l o = Ok (ptr', n', sp', l', o') /\
    l ≡ₚ l' /\ disjoint_segs (zlen l') ((ptr', n') :: map seg sp') /\ depths_ok sp' /\
    2 * n' + 1 + work sp' <= 2 * n + 1 + work sp /\
    forall f, cmp_order f -> pending f ((ptr, n) :: map seg sp) l ->
      pending f ((ptr', n') :: map seg sp') l'.
Proof.
  revert ptr n depth sp l o. induction fuel as [|fuel IH]; intros ptr n depth sp l o Hds Hdep Hsp Hd Hf.
  { destruct Hds as (? & ? & ?). lia. }
  cbn [quick_loop]. pose proof Hds as (Hp & Hn & Hl & _). destruct (Z.ltb_spec 6 n).
  2:{ exists ptr, n, sp, l, o. split_and!; try done. }
  destruct (Z.ltb_spec 50 (depth + 1)).
  - destruct (heapsortx_spec ptr n l o) as (l1 & o1 & -> & Hp1 & Hs1); [lia..|]. cbn [mbind outcome_bind].
    exists ptr, 0, sp, l1, o1. rewrite (perm_in_zlen _ _ _ _ Hp1). split_and!; try done; try lia.
    + apply Hp1.
    + destruct Hds as (_ & _ & _ & Hdis & Hds). simpl. split_and!; try done; try lia.
      intros q m Hin. apply Hdis in Hin. lia.
    + intros f Ho Hpend. apply pending_perm with (l' := l1) in Hpend; [|done|done].
      apply pending_done in Hpend; [|by apply Hs1].
      intros i j Hij Hj. destruct (Hpend i j Hij Hj) as [(q & m & Hin & ?)|]; [left|by right].
      exists q, m. split; [by apply list_elem_of_further|done].
  - destruct (partition_spec ptr n l o) as (lt & gt & l1 & o1 & -> & Hp1 & Hlt & Hgt & Hpt); [lia..|].
    cbn [mbind outcome_bind]. pose proof (perm_in_zlen _ _ _ _ Hp1) as Hlen.
    pose proof (disjoint_split (zlen l1) ptr n lt gt (map seg sp)) as Hds1.
    rewrite Hlen in Hds1. specialize (Hds1 ltac:(lia) ltac:(lia) Hds).
    assert (Hpend1 : forall f, cmp_order f -> pending f ((ptr, n) :: map seg sp) l ->
      pending f ((ptr, lt) :: (ptr + gt, n - gt) :: map seg sp) l1).
    { intros f Ho Hpend. apply pending_perm with (l' := l1) in Hpend; [|done|done].
      destruct (Hpt f Ho) as (pv & HL & HE & HG). by apply pending_split with pv. }
    destruct (Z.ltb_spec (n - gt) lt); rewrite push_frame_ok by lia; cbn [mbind outcome_bind].
    + destruct (IH (ptr + gt) (n - gt) (depth + 1) (mkFrame ptr lt (depth + 1) :: sp) l1 o1)
        as (ptr' & n' & sp' & l' & o' & Hq & Hperm & Hds' & Hdep' & Hw & Hpend').
      { rewrite Hlen. by apply disjoint_swap. }
      { simpl. split; [lia|done]. }
      { rewrite zlen_cons. lia. } { lia. } { lia. }
      exists ptr', n', sp', l', o'. split_and!; try done.
      * etrans; [apply Hp1|done].
      * simpl in Hw. lia.
      * intros f Ho Hpend. apply Hpend'; [done|]. by apply pending_swap, Hpend1.
    + destruct (IH ptr lt (depth + 1) (mkFrame (ptr + gt) (n - gt) (depth + 1) :: sp) l1 o1)
        as (ptr' & n' & sp' & l' & o' & Hq & Hperm & Hds' & Hdep' & Hw & Hpend').
      { by rewrite Hlen. }
      { simpl. split; [lia|done]. }
      { rewrite zlen_cons. lia. } { lia. } { lia. }
      exists ptr', n', sp', l', o'. split_and!; try done.
      * etrans; [apply Hp1|done].
      * simpl in Hw. lia.
      * intros f Ho Hpend. apply Hpend'; [done|]. by apply Hpend1.
Qed.

Lemma rqsort_loop_spec fuel sp l o :
  disjoint_segs (zlen l) (map seg sp) -> depths_ok sp -> work sp < Z.of_nat fuel ->
  exists l' o', rqsort_loop cmp fuel sp l o = Ok (l', o') /\ l ≡ₚ l' /\
    forall f, cmp_order f -> pending f (map seg sp) l -> pending f [] l'.
Proof.
  revert sp l o. induction fuel as [|fuel IH]; intros sp l o Hds Hdep Hf.
  { exfalso. clear -Hf Hds. revert Hds Hf. induction sp as [|fr sp IH]; simpl; [lia|].
    intros (? & ? & ? & ? & Hds) ?. apply IH; [done|]. lia. }
  destruct sp as [|fr sp]; cbn [rqsort_loop].
  { exists l, o. split; [done|]. split; [done|]. auto. }
  destruct Hdep as [Hfr Hdep]. pose proof Hds as (? & ? & Hlen & _).
  destruct (quick_loop_spec (S (length l)) (f_base fr) (f_count fr) (f_depth fr) sp l o)
    as (ptr & n & sp1 & l1 & o1 & -> & Hp1 & Hds1 & Hdep1 & Hw1 & Hpend1); try done; try lia.
  { unfold zlen in *. lia. }
  cbn [mbind outcome_bind]. pose proof Hds1 as (? & ? & Hlen1 & _ & Hds1').
  destruct (insertion_sort_spec ptr n l1 o1) as (l2 & o2 & -> & Hp2 & Hs2); [lia..|].
  cbn [mbind outcome_bind]. pose proof (perm_in_zlen _ _ _ _ Hp2) as Hlen2.
  destruct (IH sp1 l2 o2) as (l3 & o3 & H3 & Hp3 & Hpend3); [by rewrite Hlen2|done|simpl in *; lia|].
  exists l3, o3. split; [done|]. split.
  - etrans; [exact Hp1|]. etrans; [apply Hp2|done].
  - intros f Ho Hpend. apply Hpend3; [done|]. apply pending_done with ptr n; [by apply Hs2|].
    apply pending_perm with l1; [done|done|]. by apply Hpend1.
Qed.

(** [rqsort] returns, whatever the comparison function does, with a rearrangement
    of the array, in order when the comparison function is an order. *)
Lemma rqsort_spec l o :
  exists l' o', rqsort cmp l o = Ok (l', o') /\ l ≡ₚ l' /\
    forall f, cmp_order f -> forall i j, 0 <= i < j -> j < zlen l -> le_at f l' i j.
Proof.
  unfold rqsort. destruct (Z.ltb_spec (zlen l) 2).
  { exists l, o. split; [done|]. split; [done|]. intros. lia. }
  destruct (rqsort_loop_spec (S (S (2 * length l))) [mkFrame 0 (zlen l) 0] l o)
    as (l' & o' & -> & Hp & Hpend).
  { simpl. split_and!; try lia. intros q m Hin. by apply elem_of_nil in Hin. }
  { simpl. unfold zlen. simpl. lia. }
  { simpl. unfold zlen. lia. }
  exists l', o'. split; [done|]. split; [done|]. intros f Ho i j Hij Hj.
  assert (Hlen : zlen l' = zlen l) by (unfold zlen; by rewrite Hp).
  destruct (Hpend f Ho) with (i := i) (j := j) as [(p & n & Hin & _)|Hle]; try done; try lia.
  - intros i' j' Hij' Hj'. left. exists 0, (zlen l). split; [apply list_elem_of_here|lia].
  - by apply elem_of_nil in Hin.
Qed.
End SortProofs.

Lemma pairs_StronglySorted {A} (R : A -> A -> Prop) (l : list A) :
  (forall i j x y, 0 <= i < j -> zget l i = Some x -> zget l j = Some y -> R x y) ->
  StronglySorted R l.
Proof.
  intros H. induction l as [|a l IH]; constructor.
  - apply IH. intros i j x y Hij Hx Hy. apply (H (i + 1) (j + 1)); [lia|..].
    all: rewrite zget_lookup in * by lia.
    + by replace (Z.to_nat (i + 1)) with (S (Z.to_nat i)) by lia.
    + by replace (Z.to_nat (j + 1)) with (S (Z.to_nat j)) by lia.
  - apply Forall_lookup. intros i x Hi. apply (H 0 (Z.of_nat (S i))); [lia|done|].
    rewrite zget_lookup, Nat2Z.id by lia. done.
Qed.

(** ** Properties *)

(** C32: [rqsort] is memory safe and terminates for every comparison function, even
    one that is inconsistent or keeps state between calls: it never leaves the
    array, never overflows its 50-entry stack, and the result is a permutation of
    the input. *)
Theorem rqsort_permutes {A St} (cmp : A -> A -> St -> Z * St) l o :
  exists l' o', rqsort cmp l o = Ok (l', o') /\ l ≡ₚ l'.
Proof.
  destruct (rqsort_spec cmp l o) as (l' & o' & H & Hp & _). eauto.
Qed.

(** C3: when the comparison function computes the sign of a total preorder,
    [rqsort] returns the array in that order. *)
Theorem rqsort_sorts {A St} (cmp : A -> A -> St -> Z * St) (f : A -> A -> Z) l o :
  cmp_order cmp f ->
  exists l' o', rqsort cmp l o = Ok (l', o') /\ l ≡ₚ l' /\
    StronglySorted (fun x y => f x y <= 0) l'.
Proof.
  intros Ho. destruct (rqsort_spec cmp l o) as (l' & o' & H & Hp & Hs).
  exists l', o'. split; [done|]. split; [done|]. apply pairs_StronglySorted.
  intros i j x y Hij Hx Hy. apply (Hs f Ho i j Hij); [|done|done].
  apply zget_Some_range in Hy. unfold zlen in *. rewrite Hp. lia.
Qed.

Definition cmp_int (x y : Z) (o : unit) : Z * unit := (x - y, o).

Lemma cmp_int_order : cmp_order cmp_int Z.sub.
Proof. split; intros; simpl; lia. Qed.

Lemma rqsort_sorts_witness :
  exists l', rqsort cmp_int [5; 3; 9; 1; 8; 2; 7; 3; 6; 4] tt = Ok (l', tt) /\
    l' = [1; 2; 3; 3; 4; 5; 6; 7; 8; 9] /\ StronglySorted (fun x y => x - y <= 0) l'.
Proof.
  destruct (rqsort_sorts cmp_int Z.sub [5; 3; 9; 1; 8; 2; 7; 3; 6; 4] tt cmp_int_order)
    as (l' & [] & H & _ & Hs).
  exists l'. split; [done|]. split; [|done]. vm_compute in H. by injection H.
Defined.

(** whatever the alignment of the array, the exchange function that
    [exchange_func] selects swaps exactly the two elements of [size] bytes and
    leaves the rest of memory alone. *)
Theorem exchange_func_correct base size m a b :
  0 <= base -> 0 < size -> 0 <= a -> 0 <= b -> a + size <= zlen m -> b + size <= zlen m ->
  a = b \/ a + size <= b \/ b + size <= a ->
  exists m', run_exchange (exchange_func base size) m a b size = Some m' /\ exchanged m m' a b size.
Proof. apply exchange_func_spec. Qed.

Lemma exchange_func_correct_witness :
  exists m', run_exchange (exchange_func 4096 12) (map Z.of_nat (seq 0 40)) 0 24 12 = Some m' /\
    exchanged (map Z.of_nat (seq 0 40)) m' 0 24 12.
Proof.
  apply (exchange_func_correct 4096 12 (map Z.of_nat (seq 0 40)) 0 24);
    try (vm_compute; discriminate); try reflexivity. right. left. vm_compute. discriminate.
Defined.
