(* ===== verification/UnicodeSet.v ===== *)
(** Sets of characters built from the case-conversion tables of [libunicode.c]:
    [unicode_case1], [cr_sort_and_remove_overlap] and the closure of a character
    class under regexp canonicalization, [cr_regexp_canonicalize]. *)

From S2P Require Import Prelude DynBuf CharRange UnicodeTables CaseConv Rqsort.

(** ** Definitions *)

Definition CASE_U : Z := 1 ≪ 0.
Definition CASE_L : Z := 1 ≪ 1.
Definition CASE_F : Z := 1 ≪ 2.

(** The index of a run type in the C enumeration, and [MR(x)]. *)
Definition run_type_idx (t : run_type) : Z :=
  match t with
  | RUN_TYPE_U => 0 | RUN_TYPE_L => 1 | RUN_TYPE_UF => 2 | RUN_TYPE_LF => 3 | RUN_TYPE_UL => 4
  | RUN_TYPE_LSU => 5 | RUN_TYPE_U2L_399_EXT2 => 6 | RUN_TYPE_UF_D20 => 7 | RUN_TYPE_UF_D1_EXT => 8
  | RUN_TYPE_U_EXT => 9 | RUN_TYPE_LF_EXT => 10 | RUN_TYPE_UF_EXT2 => 11 | RUN_TYPE_LF_EXT2 => 12
  | RUN_TYPE_UF_EXT3 => 13
  end.
Definition MR (t : run_type) : Z := 1 ≪ run_type_idx t.
Definition MRs (l : list run_type) : Z := foldr (fun t m => MR t .| m) 0 l.

Definition tab_run_mask : list Z :=
  [ MRs [RUN_TYPE_U; RUN_TYPE_UF; RUN_TYPE_UL; RUN_TYPE_LSU; RUN_TYPE_U2L_399_EXT2; RUN_TYPE_UF_D20;
         RUN_TYPE_UF_D1_EXT; RUN_TYPE_U_EXT; RUN_TYPE_UF_EXT2; RUN_TYPE_UF_EXT3];
    MRs [RUN_TYPE_L; RUN_TYPE_LF; RUN_TYPE_UL; RUN_TYPE_LSU; RUN_TYPE_U2L_399_EXT2; RUN_TYPE_LF_EXT;
         RUN_TYPE_LF_EXT2];
    MRs [RUN_TYPE_UF; RUN_TYPE_LF; RUN_TYPE_UL; RUN_TYPE_LSU; RUN_TYPE_U2L_399_EXT2; RUN_TYPE_LF_EXT;
         RUN_TYPE_LF_EXT2; RUN_TYPE_UF_D20; RUN_TYPE_UF_D1_EXT; RUN_TYPE_LF_EXT; RUN_TYPE_UF_EXT2;
         RUN_TYPE_UF_EXT3] ].

Section UnicodeSet.
Context `{!Allocator}.

(** A sequence of [cr_add_interval] calls that stops at the first failure. *)
Fixpoint cr_add_intervals (cr : CharRange) (l : list (Z * Z)) : option (CharRange * Z) :=
  match l with
  | [] => Some (cr, 0)
  | (a, b) :: l =>
      '(cr, r) ← cr_add_interval cr a b;
      if r <? 0 then Some (cr, -1) else cr_add_intervals cr l
  end.

(** The intervals one entry of the table contributes. *)
Definition case1_intervals (case_mask v : Z) : list (Z * Z) :=
  let type := cc_type v in
  let code := cc_code v in
  let len := cc_len v in
  let has m := negb (case_mask .& m =? 0) in
  let def_case := [(code, code + len)] in
  if decide (run_type_of type = RUN_TYPE_UL) then
    if has CASE_U && has (CASE_L .| CASE_F) then def_case
    else
      let code := code + b2z (has CASE_U) in
      map (fun i => (code + 2 * Z.of_nat i, code + 2 * Z.of_nat i + 1)) (seq 0 (Z.to_nat ((len + 1) / 2)))
  else if decide (run_type_of type = RUN_TYPE_LSU) then
    if has CASE_U && has (CASE_L .| CASE_F) then def_case
    else
      (if has CASE_U then [] else [(code, code + 1)]) ++ [(code + 1, code + 2)] ++
      (if has CASE_U then [(code + 2, code + 3)] else [])
  else def_case.

(** The loop over [case_conv_table1]. *)
Fixpoint case1_loop (mask case_mask : Z) (table : list Z) (cr : CharRange) : option (CharRange * Z) :=
  match table with
  | [] => Some (cr, 0)
  | v :: table =>
      if (mask ≫ cc_type v) .& 1 =? 0 then case1_loop mask case_mask table cr
      else
        '(cr, r) ← cr_add_intervals cr (case1_intervals case_mask v);
        if r <? 0 then Some (cr, -1) else case1_loop mask case_mask table cr
  end.

(** The union of the run masks selected by [case_mask]. *)
Definition case1_mask (case_mask : Z) : Z :=
  foldr (fun i m => if (case_mask ≫ i) .& 1 =? 0 then m else ztab tab_run_mask i .| m) 0 [0; 1; 2].

Definition unicode_case1 (cr : CharRange) (case_mask : Z) : option (CharRange * Z) :=
  if case_mask =? 0 then Some (cr, 0)
  else case1_loop (case1_mask case_mask) case_mask case_conv_table1 cr.

(** *** Sorting intervals and removing overlaps *)

Definition point_cmp (p1 p2 : Z * Z) (arg : unit) : Z * unit :=
  (b2z (p2.1 <? p1.1) - b2z (p1.1 <? p2.1), arg).

(** The points as elements of two [uint32_t] each, and back. *)
Fixpoint to_pairs (l : list Z) : list (Z * Z) :=
  match l with a :: b :: t => (a, b) :: to_pairs t | _ => [] end.
Fixpoint of_pairs (l : list (Z * Z)) : list Z :=
  match l with (a, b) :: t => a :: b :: of_pairs t | [] => [] end.

(** The inner [while]: the end of the merged interval and the next index. *)
Fixpoint overlap_skip (fuel : nat) (pt : list Z) (len i end_ : Z) : option (Z * Z) :=
  match fuel with
  | O => None
  | S fuel' =>
      if i <? len then
        start1 ← zget pt i;
        end1 ← zget pt (i + 1);
        if end_ <? start1 then Some (end_, i)
        else if end1 <=? end_ then overlap_skip fuel' pt len (i + 2) end_
        else overlap_skip fuel' pt len (i + 2) end1
      else Some (end_, i)
  end.

Fixpoint overlap_loop (fuel : nat) (pt : list Z) (len i j : Z) : option (list Z * Z) :=
  match fuel with
  | O => None
  | S fuel' =>
      if i <? len then
        start ← zget pt i;
        end_ ← zget pt (i + 1);
        '(end_, i) ← overlap_skip fuel' pt len (i + 2) end_;
        pt ← zset pt j start;
        pt ← zset pt (j + 1) end_;
        overlap_loop fuel' pt len i (j + 2)
      else Some (pt, j)
  end.

Definition cr_sort_and_remove_overlap (cr : CharRange) : option CharRange :=
  match rqsort point_cmp (to_pairs (pts cr)) tt with
  | Ok (l, _) =>
      pt ← zsplice (cr_points cr) 0 (of_pairs l);
      '(pt, j) ← overlap_loop (S (Z.to_nat (cr_len cr))) pt (cr_len cr) 0 0;
      Some (set_points cr pt j)
  | _ => None
  end.

(** *** Canonicalization of a set *)

(** The search for the entry that covers [c], from entry [idx] on; [None] is a
    failed [assert]. *)
Fixpoint canon_entry (fuel : nat) (c idx : Z) : option Z :=
  match fuel with
  | O => None
  | S fuel' =>
      v ← zget case_conv_table1 idx;
      if (cc_code v <=? c) && (c <? cc_code v + cc_len v) then Some idx
      else canon_entry fuel' c (idx + 1)
  end.

(** The characters of [start .. end-1], [n] of them: the state is the entry
    reached, the pending interval and the result. *)
Fixpoint canon_chars (n : nat) (c : Z) (is_unicode : bool) (idx d_start d_end : Z) (res : CharRange)
    : option (Z * Z * Z * CharRange) :=
  match n with
  | O => Some (idx, d_start, d_end, res)
  | S n' =>
      idx ← canon_entry (S (length case_conv_table1)) c idx;
      let d := lre_case_folding_entry c idx (ztab case_conv_table1 idx) is_unicode in
      if d_start =? UINT32_MAX then canon_chars n' (c + 1) is_unicode idx d (u32 (d + 1)) res
      else if d_end =? d then canon_chars n' (c + 1) is_unicode idx d_start (u32 (d_end + 1)) res
      else
        '(res, _) ← cr_add_interval res d_start d_end;
        canon_chars n' (c + 1) is_unicode idx d (u32 (d + 1)) res
  end.

Fixpoint canon_ranges (l : list Z) (is_unicode : bool) (idx d_start d_end : Z) (res : CharRange)
    : option (Z * Z * Z * CharRange) :=
  match l with
  | start :: end_ :: l =>
      '(idx, d_start, d_end, res) ←
        canon_chars (Z.to_nat (end_ - start)) start is_unicode idx d_start d_end res;
      canon_ranges l is_unicode idx d_start d_end res
  | _ => Some (idx, d_start, d_end, res)
  end.

(** The same set with another state of the shared allocator. *)
Definition set_cr_opaque (cr : CharRange) (o : aopaque) : CharRange :=
  mkCharRange _ (cr_len cr) (cr_size cr) (cr_points cr) o.

(** [cr_free] of the four temporary sets, on the allocator state [o]. *)
Definition free4 (o : aopaque) : aopaque :=
  let f o := (realloc_func o 0).1 in f (f (f (f o))).

(** [cr_regexp_canonicalize]; the sets share one allocator, whose state is
    threaded through them. *)
Definition cr_regexp_canonicalize (cr : CharRange) (is_unicode : bool) : option (CharRange * Z) :=
  let fail (cr : CharRange) (o : aopaque) := Some (set_cr_opaque cr (free4 o), -1) in
  '(mask, r) ← unicode_case1 (cr_init (cr_opaque cr)) (if is_unicode then CASE_F else CASE_U);
  if r <? 0 then fail cr (cr_opaque mask) else
  '(inter, r) ← cr_op (cr_init (cr_opaque mask)) (pts mask) (pts cr) CR_OP_INTER;
  if r <? 0 then fail cr (cr_opaque inter) else
  '(mask, r) ← cr_invert (set_cr_opaque mask (cr_opaque inter));
  if r <? 0 then fail cr (cr_opaque mask) else
  '(sub, r) ← cr_op (cr_init (cr_opaque mask)) (pts mask) (pts cr) CR_OP_INTER;
  if r <? 0 then fail cr (cr_opaque sub) else
  '(_, d_start, d_end, res) ← canon_ranges (pts inter) is_unicode 0 UINT32_MAX UINT32_MAX
                                (cr_init (cr_opaque sub));
  '(res, r) ← (if d_start =? UINT32_MAX then Some (res, 0) else cr_add_interval res d_start d_end);
  if r <? 0 then fail cr (cr_opaque res) else
  res ← cr_sort_and_remove_overlap res;
  '(cr, r) ← cr_op (mkCharRange _ 0 (cr_size cr) (cr_points cr) (cr_opaque res))
               (pts res) (pts sub) CR_OP_UNION;
  Some (set_cr_opaque cr (free4 (cr_opaque cr)), if r <? 0 then -1 else 0).
End UnicodeSet.

(** ** Removing overlaps *)

(** Membership in a list of intervals that may overlap. *)
Definition in_pairs (l : list (Z * Z)) (c : Z) : Prop := exists a b, (a, b) ∈ l /\ a <= c < b.

Definition pairs_ok (l : list (Z * Z)) : Prop := Forall (fun p => p.1 <= p.2) l.

(** The same computation on lists: [s, e] is the interval being extended. *)
Fixpoint merge_go (s e : Z) (l : list (Z * Z)) : list Z :=
  match l with
  | [] => [s; e]
  | (a, b) :: t => if e <? a then s :: e :: merge_go a b t else merge_go s (Z.max e b) t
  end.

Definition merge (l : list (Z * Z)) : list Z :=
  match l with [] => [] | (a, b) :: t => merge_go a b t end.

Lemma of_pairs_app l1 l2 : of_pairs (l1 ++ l2) = of_pairs l1 ++ of_pairs l2.
Proof. induction l1 as [|[a b] l1 IH]; simpl; [done|]. by rewrite IH. Qed.

Lemma length_of_pairs l : length (of_pairs l) = (2 * length l)%nat.
Proof. induction l as [|[a b] l IH]; simpl; lia. Qed.

Lemma zlen_of_pairs l : zlen (of_pairs l) = 2 * zlen l.
Proof. unfold zlen. rewrite length_of_pairs. lia. Qed.

Lemma to_of_pairs l : to_pairs (of_pairs l) = l.
Proof. induction l as [|[a b] l IH]; simpl; congruence. Qed.

Lemma of_to_pairs l : Nat.Even (length l) -> of_pairs (to_pairs l) = l.
Proof.
  remember (length l) as n eqn:Hn. revert l Hn. induction (lt_wf n) as [n _ IH].
  intros [|a [|b t]] -> He; [done|destruct He; simpl in *; lia|]. simpl.
  rewrite (IH (length t)); [done|simpl; lia|done|]. destruct He as [k Hk].
  exists (k - 1)%nat. simpl in Hk. lia.
Qed.

Lemma overlap_skip_spec fuel t pre s e tail :
  (length t < fuel)%nat -> 
  exists m t' e', t = m ++ t' /\
    overlap_skip fuel (pre ++ of_pairs t ++ tail) (zlen pre + 2 * zlen t) (zlen pre) e =
      Some (e', zlen pre + 2 * zlen m) /\
    merge_go s e t = s :: e' :: merge t'.
Proof.
  revert t pre e. induction fuel as [|fuel IH]; intros t pre e Hf; [lia|].
  cbn [overlap_skip]. destruct t as [|[a b] t].
  - exists [], [], e. rewrite (proj2 (Z.ltb_ge _ _)) by zlen_lia. split; [done|].
    split; [|done]. do 2 f_equal. zlen_lia.
  - rewrite (proj2 (Z.ltb_lt _ _)) by zlen_lia. cbn [of_pairs app].
    rewrite (zget_mid pre a _ (zlen pre)), (zget_mid1 pre a b) by done.
    cbn [mbind option_bind merge_go].
    destruct (Z.ltb_spec e a).
    { exists [], ((a, b) :: t), e. split; [done|]. split; [|done]. do 2 f_equal. zlen_lia. }
    destruct (IH t (pre ++ [a; b]) (Z.max e b)) as (m & t' & e' & -> & Hs & Hm); [simpl in Hf; lia|].
    exists ((a, b) :: m), t', e'. split; [done|]. split; [|done].
    rewrite <- app_assoc in Hs. cbn [app] in Hs.
    replace (zlen (pre ++ [a; b])) with (zlen pre + 2) in Hs by zlen_lia.
    rewrite !zlen_cons. replace (zlen pre + 2 * (1 + zlen (m ++ t'))) with (zlen pre + 2 + 2 * zlen (m ++ t')) by lia.
    replace (zlen pre + 2 * (1 + zlen m)) with (zlen pre + 2 + 2 * zlen m) by lia.
    destruct (Z.leb_spec b e).
    + by replace (Z.max e b) with e in Hs by lia.
    + by replace (Z.max e b) with b in Hs by lia.
Qed.

Lemma overlap_loop_spec fuel rest out mid tail :
  (length rest < fuel)%nat ->
  exists pt', overlap_loop fuel (out ++ mid ++ of_pairs rest ++ tail)
      (zlen out + zlen mid + 2 * zlen rest) (zlen out + zlen mid) (zlen out) =
    Some (pt', zlen (out ++ merge rest)) /\
    zlen pt' = zlen (out ++ mid ++ of_pairs rest ++ tail) /\
    exists gap, pt' = (out ++ merge rest) ++ gap.
Proof.
  revert rest out mid. induction fuel as [|fuel IH]; intros rest out mid Hf; [lia|].
  cbn [overlap_loop]. destruct rest as [|[a b] t].
  { rewrite (proj2 (Z.ltb_ge _ _)) by zlen_lia. cbn [merge]. rewrite app_nil_r. eauto. }
  rewrite (proj2 (Z.ltb_lt _ _)) by zlen_lia. cbn [of_pairs].
  assert (zget (out ++ mid ++ (a :: b :: of_pairs t) ++ tail) (zlen out + zlen mid) = Some a) as ->.
  { rewrite app_assoc. apply zget_mid. zlen_lia. }
  assert (zget (out ++ mid ++ (a :: b :: of_pairs t) ++ tail) (zlen out + zlen mid + 1) = Some b) as ->.
  { rewrite app_assoc. apply zget_mid1. zlen_lia. }
  cbn [mbind option_bind].
  destruct (overlap_skip_spec fuel t (out ++ mid ++ [a; b]) a b tail) as (m & t' & e' & -> & Hs & Hm);
    [simpl in Hf; lia|].
  rewrite <- !app_assoc in Hs. cbn [app] in Hs.
  replace (zlen out + zlen mid + 2 * zlen ((a, b) :: m ++ t'))
    with (zlen (out ++ mid ++ [a; b]) + 2 * zlen (m ++ t')) by zlen_lia.
  replace (zlen out + zlen mid + 2) with (zlen (out ++ mid ++ [a; b])) by zlen_lia.
  cbn [app]. rewrite Hs. cbn [mbind option_bind]. rewrite of_pairs_app, <- app_assoc.
  destruct (split_two out (out ++ mid) a b (mid ++ a :: b :: of_pairs m ++ of_pairs t' ++ tail)
    (of_pairs m ++ of_pairs t' ++ tail)) as (w0 & w1 & w & Hw & Hwl); [by rewrite <- app_assoc|zlen_lia|].
  rewrite <- app_assoc in Hw. rewrite Hw.
  rewrite zset_mid by done. cbn [mbind option_bind]. rewrite zset_mid1 by done. cbn [mbind option_bind].
  destruct (IH t' (out ++ [a; e']) (w ++ of_pairs m)) as (pt' & G1 & G2 & gap & G3);
    [simpl in Hf; rewrite length_app in Hf; lia|].
  rewrite <- !app_assoc in *. cbn [app] in *. cbn [merge]. rewrite Hm.
  exists pt'. pose proof (zlen_of_pairs m). split; [|split].
  - rewrite <- G1. f_equal; rewrite ?zlen_app, ?zlen_cons, ?zlen_nil in *; lia.
  - rewrite G2. apply (f_equal zlen) in Hw. rewrite ?zlen_app, ?zlen_cons, ?zlen_nil in *. lia.
  - exists gap. by rewrite <- app_assoc.
Qed.

(** Merging intervals sorted by their start keeps the union and sorts the points. *)
Lemma merge_go_spec s e l :
  s <= e -> pairs_ok l -> StronglySorted (fun p q => p.1 <= q.1) ((s, e) :: l) ->
  cr_sorted (merge_go s e l) /\ Forall (Z.le s) (merge_go s e l) /\
  forall c, cr_mem (merge_go s e l) c = true <-> in_pairs ((s, e) :: l) c.
Proof.
  revert s e. induction l as [|[a b] t IH]; intros s e Hse Hok Hs; cbn [merge_go].
  - split_and!.
    + split; [repeat constructor; lia|by exists 1%nat].
    + repeat constructor; lia.
    + intros c. simpl. unfold in_pairs. destruct (Z.leb_spec s c), (Z.leb_spec e c); simpl; split; try done; try lia;
        try (intros (a & b & [[= -> ->]|Hin]%elem_of_cons & ?); [lia|by apply elem_of_nil in Hin]).
      intros _. exists s, e. split; [apply list_elem_of_here|lia].
  - inversion_clear Hok as [|?? Hab Ht]. simpl in Hab.
    inversion_clear Hs as [|?? Hs1 Hs2]. inversion_clear Hs2 as [|?? Hsa Hst]. simpl in Hsa, Hst.
    inversion Hs1 as [|?? Hs3 Hs4]; subst.
    destruct (Z.ltb_spec e a) as [Hea|Hea].
    + destruct (IH a b Hab Ht Hs1) as ([IHs IHe] & IHf & IHm). split_and!.
      * split; [|destruct IHe as [k Hk]; exists (S k); simpl; lia].
        constructor; [constructor; [done|]|constructor; [lia|]];
          (eapply Forall_impl; [exact IHf|simpl; lia]).
      * constructor; [lia|]. constructor; [lia|]. eapply Forall_impl; [exact IHf|simpl; lia].
      * intros c. cbn [cr_mem]. specialize (IHm c). unfold in_pairs in *.
        destruct (Z.leb_spec a c).
        { destruct (Z.leb_spec s c); [|lia]. destruct (Z.leb_spec e c); [|lia].
          assert (Hx : forall m, xorb true (xorb true m) = m) by (by intros []).
          rewrite Hx, IHm. split.
          - intros (x & y & Hin & ?). exists x, y. split; [by apply list_elem_of_further|done].
          - intros (x & y & [[= -> ->]|Hin]%elem_of_cons & ?); [lia|eauto]. }
        assert (cr_mem (merge_go a b t) c = false) as ->.
        { apply cr_mem_above. eapply Forall_impl; [exact IHf|simpl; lia]. }
        split.
        { intros Hc. exists s, e. split; [apply list_elem_of_here|].
          destruct (Z.leb_spec s c), (Z.leb_spec e c); simpl in Hc; try done; lia. }
        { intros (x & y & [[= -> ->]|Hin]%elem_of_cons & Hc).
          - destruct (Z.leb_spec s c), (Z.leb_spec e c); simpl; try done; lia.
          - exfalso. apply elem_of_cons in Hin as [[= -> ->]|Hin]; [lia|].
            rewrite Forall_forall in Hs4. specialize (Hs4 _ Hin). simpl in Hs4. lia. }
    + destruct (IH s (Z.max e b)) as (IHs & IHf & IHm); [lia|done|by constructor|].
      split_and!; [done|done|]. intros c. rewrite IHm. unfold in_pairs. split.
      * intros (x & y & [[= -> ->]|Hin]%elem_of_cons & Hc).
        { destruct (Z.ltb_spec c e).
          - exists s, e. split; [apply list_elem_of_here|lia].
          - exists a, b. split; [apply list_elem_of_further, list_elem_of_here|lia]. }
        { exists x, y. split; [by do 2 apply list_elem_of_further|done]. }
      * intros (x & y & [[= -> ->]|[[= -> ->]|Hin]%elem_of_cons]%elem_of_cons & Hc).
        { exists s, (Z.max e b). split; [apply list_elem_of_here|lia]. }
        { exists s, (Z.max e b). split; [apply list_elem_of_here|lia]. }
        { exists x, y. split; [by apply list_elem_of_further|done]. }
Qed.

Lemma point_cmp_order : cmp_order point_cmp (fun p q => (point_cmp p q tt).1).
Proof.
  split.
  - by intros x y [].
  - intros [x ?] [y ?]. simpl. destruct (Z.ltb_spec y x), (Z.ltb_spec x y); simpl; lia.
  - intros [x x2] [y y2] [z z2]. simpl.
    destruct (Z.ltb_spec y x), (Z.ltb_spec x y), (Z.ltb_spec z y), (Z.ltb_spec y z),
      (Z.ltb_spec z x), (Z.ltb_spec x z); simpl; lia.
Qed.

Lemma in_pairs_perm l l' c : l ≡ₚ l' -> in_pairs l c <-> in_pairs l' c.
Proof. intros Hp. unfold in_pairs. by setoid_rewrite Hp. Qed.

(** The loops of [cr_sort_and_remove_overlap] on the array. *)
Lemma cr_sort_and_remove_overlap_spec `{!Allocator} cr :
  cr_ok cr -> Nat.Even (length (pts cr)) -> pairs_ok (to_pairs (pts cr)) ->
  exists cr', cr_sort_and_remove_overlap cr = Some cr' /\ cr_ok cr' /\ cr_opaque cr' = cr_opaque cr /\
    cr_sorted (pts cr') /\ forall c, cr_mem (pts cr') c = true <-> in_pairs (to_pairs (pts cr)) c.
Proof.
  intros Hok Hev Hpo. unfold cr_sort_and_remove_overlap.
  destruct (rqsort_spec point_cmp (to_pairs (pts cr)) tt) as (l & [] & -> & Hperm & Hsort).
  pose proof (zlen_pts _ Hok) as Hlen. destruct (points_split _ Hok) as (rest & Hsp & Hrest).
  assert (Hl2 : zlen (of_pairs l) = cr_len cr).
  { rewrite zlen_of_pairs, <- Hlen, <- (of_to_pairs (pts cr)), zlen_of_pairs by done.
    unfold zlen. by rewrite Hperm. }
  rewrite Hsp. pose proof (zsplice_app [] (pts cr) rest (of_pairs l)) as Hz. cbn [app] in Hz. rewrite zlen_nil in Hz.
  rewrite Hz by (unfold zlen in *; lia). cbn [mbind option_bind].
  destruct (overlap_loop_spec (S (Z.to_nat (cr_len cr))) l [] [] rest) as (pt' & Ho & Hlp & gap & Hg).
  { rewrite zlen_of_pairs in Hl2. unfold zlen in Hl2. lia. }
  simpl app in *. rewrite !(zlen_nil (A := Z)), !Z.add_0_l in Ho.
  rewrite <- zlen_of_pairs, Hl2 in Ho. rewrite Ho. cbn [mbind option_bind].
  eexists. split; [done|].
  assert (Hp : pts (set_points cr pt' (zlen (merge l))) = merge l).
  { unfold pts. simpl. rewrite Hg. unfold zlen. by rewrite Nat2Z.id, take_app_length. }
  assert (Hlo : pairs_ok l) by (unfold pairs_ok; by rewrite <- Hperm).
  assert (Hmerge : cr_sorted (merge l) /\ forall c, cr_mem (merge l) c = true <-> in_pairs l c).
  { destruct l as [|[a b] t]; simpl.
    - split; [split; [constructor|by exists 0%nat]|]. intros c. split; [done|].
      intros (x & y & Hin & _). by apply elem_of_nil in Hin.
    - inversion_clear Hlo as [|?? Hab Ht]. destruct (merge_go_spec a b t Hab Ht) as (H1 & _ & H3); [|done].
      apply pairs_StronglySorted. intros i j x y Hij Hx Hy.
      assert (Hle : (point_cmp x y tt).1 <= 0).
      { eapply (Hsort _ point_cmp_order i j); [done| |done|done].
        apply zget_Some_range in Hy. unfold zlen in *. rewrite Hperm. lia. }
      simpl in Hle. destruct (Z.ltb_spec y.1 x.1), (Z.ltb_spec x.1 y.1); simpl in Hle; lia. }
  rewrite Hp. split; [|split; [done|]].
  - destruct Hok as [H1 H2]. split; simpl; [rewrite Hlp, zlen_app; lia|].
    assert (Hpz : zlen pt' = cr_size cr) by (rewrite Hlp, zlen_app; lia).
    rewrite Hg, zlen_app in Hpz. pose proof (zlen_nonneg gap). pose proof (zlen_nonneg (merge l)). lia.
  - split; [apply Hmerge|]. intros c. rewrite (proj2 Hmerge). symmetry. by apply in_pairs_perm.
Qed.

(** ** The set of characters that canonicalization may change *)

(** The intervals [unicode_case1] appends, as a list. *)
Definition case1_pairs (mask case_mask : Z) (table : list Z) : list (Z * Z) :=
  flat_map (fun v => if (mask ≫ cc_type v) .& 1 =? 0 then [] else case1_intervals case_mask v) table.

Definition mask_pairs (is_unicode : bool) : list (Z * Z) :=
  let cm := if is_unicode then CASE_F else CASE_U in case1_pairs (case1_mask cm) cm case_conv_table1.

Lemma cr_add_intervals_spec `{!Allocator} l cr :
  cr_ok cr ->
  exists cr' r, cr_add_intervals cr l = Some (cr', r) /\ cr_ok cr' /\
    ((r = 0 /\ pts cr' = pts cr ++ of_pairs l) \/ (r = -1 /\ ~ alloc_total)).
Proof.
  revert cr. induction l as [|[a b] l IH]; intros cr Hok; cbn [cr_add_intervals].
  { exists cr, 0. rewrite app_nil_r. auto. }
  destruct (cr_add_interval_spec cr a b Hok) as (cr1 & r1 & -> & Hok1 & [[-> Hp]|[-> Hna]]);
    cbn [mbind option_bind].
  - destruct (IH cr1 Hok1) as (cr2 & r2 & -> & Hok2 & [[-> Hp2]|Hna]); simpl;
      (do 2 eexists; split; [done|]; split; [done|]); [left|auto].
    split; [done|]. rewrite Hp2, Hp, <- app_assoc. done.
  - simpl. do 2 eexists. split; [done|]. auto.
Qed.

Lemma case1_loop_spec `{!Allocator} mask cm table cr :
  cr_ok cr ->
  exists cr' r, case1_loop mask cm table cr = Some (cr', r) /\ cr_ok cr' /\
    ((r = 0 /\ pts cr' = pts cr ++ of_pairs (case1_pairs mask cm table)) \/ (r = -1 /\ ~ alloc_total)).
Proof.
  revert cr. induction table as [|v table IH]; intros cr Hok; cbn [case1_loop].
  { exists cr, 0. simpl. rewrite app_nil_r. auto. }
  unfold case1_pairs. cbn [flat_map]. fold (case1_pairs mask cm table).
  destruct ((mask ≫ cc_type v) .& 1 =? 0); [by apply IH|].
  destruct (cr_add_intervals_spec (case1_intervals cm v) cr Hok)
    as (cr1 & r1 & -> & Hok1 & [[-> Hp]|[-> Hna]]); cbn [mbind option_bind].
  - destruct (IH cr1 Hok1) as (cr2 & r2 & -> & Hok2 & [[-> Hp2]|Hna]); simpl;
      (do 2 eexists; split; [done|]; split; [done|]); [left|auto].
    split; [done|]. by rewrite Hp2, Hp, of_pairs_app, <- app_assoc.
  - simpl. do 2 eexists. split; [done|]. auto.
Qed.

(** The masks computed from the table: sorted intervals of 32-bit points. *)
Definition mask_points_ok (l : list Z) : bool :=
  sortedb l && Nat.even (length l) && forallb (fun x => (0 <=? x) && (x <? 0x110000)) l.

Lemma mask_points_check u : mask_points_ok (of_pairs (mask_pairs u)) = true.
Proof. destruct u; vm_compute; reflexivity. Qed.

(** A character of the mask is covered by the table, and its entry gives its
    canonical form. *)
Definition mask_char_ok (u : bool) (c : Z) : bool :=
  match case_conv_find c with
  | Some (k, v) =>
      let d := lre_canonicalize c u in
      (lre_case_folding_entry c k v u =? d) && (0 <=? d) && (d <? 0x110000)
  | None => false
  end.

Lemma mask_chars_check u :
  forallb (fun p => forallb (fun k => mask_char_ok u (p.1 + Z.of_nat k)) (seq 0 (Z.to_nat (p.2 - p.1))))
    (mask_pairs u) = true.
Proof. destruct u; vm_compute; reflexivity. Qed.

(** A character outside the mask is its own canonical form. *)
Lemma mask_rest_check u :
  (let l := of_pairs (mask_pairs u) in
   cc_forall (fun c => cr_mem l c || (lre_canonicalize c u =? c)) &&
   forallb (fun k => let c := Z.of_nat k in cr_mem l c || (lre_canonicalize c u =? c)) (seq 0 128)) = true.
Proof. destruct u; vm_compute; reflexivity. Qed.

Lemma cr_mem_pair l c :
  cr_mem (of_pairs l) c = true -> pairs_ok l -> in_pairs l c.
Proof.
  induction l as [|[a b] l IH]; [done|]. cbn [of_pairs cr_mem]. intros Hm Hok.
  inversion_clear Hok as [|?? Hab Hl]. simpl in Hab.
  destruct (Z.leb_spec a c), (Z.leb_spec b c); simpl in Hm; try lia.
  2: { exists a, b. split; [apply list_elem_of_here|lia]. }
  all: destruct (cr_mem (of_pairs l) c); try done;
    destruct (IH eq_refl Hl) as (x & y & Hin & ?); exists x, y;
    (split; [by apply list_elem_of_further|done]).
Qed.

Lemma sorted_pairs_ok l : StronglySorted Z.le (of_pairs l) -> pairs_ok l.
Proof.
  induction l as [|[a b] l IH]; intros Hs; [constructor|]. cbn [of_pairs] in Hs.
  inversion_clear Hs as [|?? Hs1 Hs2]. inversion_clear Hs1. inversion_clear Hs2.
  constructor; [done|by apply IH].
Qed.

Lemma mask_points_spec u :
  cr_sorted (of_pairs (mask_pairs u)) /\ Forall (in_u 32) (of_pairs (mask_pairs u)).
Proof.
  pose proof (mask_points_check u) as H. unfold mask_points_ok in H.
  apply andb_prop in H as [Hs Hu]. split; [by apply cr_sorted_dec|].
  apply Forall_forall. intros x Hx. rewrite forallb_forall in Hu.
  specialize (Hu x (proj1 (list_elem_of_In _ _) Hx)). bool_props. unfold in_u. lia.
Qed.

Lemma mask_char_spec u c :
  cr_mem (of_pairs (mask_pairs u)) c = true ->
  exists k v, case_conv_find c = Some (k, v) /\
    lre_case_folding_entry c k v u = lre_canonicalize c u /\ 0 <= lre_canonicalize c u < 0x110000.
Proof.
  intros Hm. apply cr_mem_pair in Hm; [|apply sorted_pairs_ok, mask_points_spec].
  destruct Hm as (a & b & Hin & Hc). pose proof (mask_chars_check u) as Hck.
  rewrite forallb_forall in Hck. specialize (Hck (a, b) (proj1 (list_elem_of_In _ _) Hin)).
  rewrite forallb_forall in Hck. specialize (Hck (Z.to_nat (c - a))). simpl in Hck.
  replace (a + Z.of_nat (Z.to_nat (c - a))) with c in Hck by lia. unfold mask_char_ok in Hck.
  destruct (case_conv_find c) as [[k v]|]; [|discriminate Hck; apply in_seq; lia].
  exists k, v. specialize (Hck ltac:(apply in_seq; lia)). bool_props. auto.
Qed.

Lemma mask_rest_spec u c :
  0 <= c -> cr_mem (of_pairs (mask_pairs u)) c = false -> lre_canonicalize c u = c.
Proof.
  intros Hc Hm. pose proof (mask_rest_check u) as Hck. apply andb_prop in Hck as [Ht Ha].
  destruct (Z.ltb_spec c 128).
  - rewrite forallb_forall in Ha. specialize (Ha (Z.to_nat c) ltac:(apply in_seq; lia)).
    cbv zeta in Ha. rewrite Z2Nat.id, Hm in Ha by lia. by apply Z.eqb_eq in Ha.
  - destruct (case_conv_find c) as [[k v]|] eqn:Hf; [|by apply lre_canonicalize_unmapped].
    pose proof (cc_forall_spec _ _ _ _ Ht Hf) as Hp. cbv beta in Hp. rewrite Hm in Hp.
    by apply Z.eqb_eq in Hp.
Qed.

(** ** The image of a set under canonicalization *)

Lemma ztab_zget l i : 0 <= i < zlen l -> zget l i = Some (ztab l i).
Proof.
  intros Hi. rewrite zget_lookup by lia. unfold ztab, zlen in *.
  destruct (lookup_lt_is_Some_2 l (Z.to_nat i)) as [x Hx]; [lia|].
  by rewrite Hx, (nth_lookup_Some _ _ _ _ Hx).
Qed.

Definition covers (k c : Z) : Prop :=
  let v := ztab case_conv_table1 k in
  0 <= k < zlen case_conv_table1 /\ cc_code v <= c < cc_code v + cc_len v.

#[local] Opaque case_conv_table1.

Lemma covers_mono k k' c c' : covers k c -> covers k' c' -> c <= c' -> k <= k'.
Proof.
  intros [Hk Hc] [Hk' Hc'] Hle. destruct (Z.leb_spec k k'); [done|].
  pose proof (cc_sorted_nth _ case_conv_table1_sorted (Z.to_nat k') (Z.to_nat k)) as Hord.
  unfold ztab, zlen in *. lia.
Qed.

Lemma canon_entry_spec fuel c idx k :
  covers k c -> 0 <= idx <= k -> k - idx < Z.of_nat fuel -> canon_entry fuel c idx = Some k.
Proof.
  revert idx. induction fuel as [|fuel IH]; intros idx Hk Hi Hf; [lia|].
  cbn [canon_entry]. rewrite ztab_zget by (destruct Hk; lia). cbn [mbind option_bind].
  destruct ((cc_code (ztab case_conv_table1 idx) <=? c) &&
            (c <? cc_code (ztab case_conv_table1 idx) + cc_len (ztab case_conv_table1 idx))) eqn:Hb.
  - bool_props. assert (covers idx c) as Hidx by (split; [destruct Hk; lia|lia]).
    pose proof (covers_mono _ _ _ _ Hk Hidx). f_equal. lia.
  - assert (idx <> k).
    { intros ->. destruct Hk as [_ Hk]. rewrite andb_false_iff in Hb. destruct Hb; bool_props; lia. }
    apply IH; [done|lia|lia].
Qed.

Section Image.
Context `{!Allocator} (Htot : alloc_total) (u : bool).

(** The characters collected so far: the finished intervals and the pending one. *)
Definition collected (res : CharRange) (d_start d_end x : Z) : Prop :=
  in_pairs (to_pairs (pts res)) x \/ (d_start <> UINT32_MAX /\ d_start <= x < d_end).

Record collecting (res : CharRange) (d_start d_end : Z) : Prop := {
  col_ok : cr_ok res;
  col_even : Nat.Even (length (pts res));
  col_pairs : pairs_ok (to_pairs (pts res));
  col_pend : d_start = UINT32_MAX \/ 0 <= d_start < d_end /\ d_end <= 0x110000 }.

Lemma to_pairs_app l1 l2 :
  Nat.Even (length l1) -> to_pairs (l1 ++ l2) = to_pairs l1 ++ to_pairs l2.
Proof.
  remember (length l1) as n eqn:Hn. revert l1 Hn. induction (lt_wf n) as [n _ IH].
  intros [|a [|b t]] -> He; [done|destruct He; simpl in *; lia|]. simpl.
  rewrite (IH (length t)); [done|simpl; lia|done|]. destruct He as [k Hk].
  exists (k - 1)%nat. simpl in Hk. lia.
Qed.

(** Adding the pending interval to the result. *)
Lemma flush_spec res ds de :
  collecting res ds de -> ds <> UINT32_MAX ->
  exists res', cr_add_interval res ds de = Some (res', 0) /\ cr_ok res' /\
    Nat.Even (length (pts res')) /\ pairs_ok (to_pairs (pts res')) /\
    forall x, in_pairs (to_pairs (pts res')) x <-> collected res ds de x.
Proof.
  intros [Hok Hev Hp Hpend] Hds.
  destruct (cr_add_interval_spec res ds de Hok) as (res' & r & -> & Hok' & [[-> Hpts]|[_ Hna]]); [|done].
  exists res'. split; [done|]. split; [done|]. rewrite Hpts, to_pairs_app by done. split; [|split].
  - rewrite length_app. destruct Hev as [k Hk]. exists (S k). simpl. lia.
  - apply Forall_app. split; [done|]. repeat constructor. simpl. lia.
  - intros x. unfold collected, in_pairs. split.
    + intros (a & b & [Hin|Hin]%elem_of_app & Hx); [left; eauto|].
      apply list_elem_of_singleton in Hin as [= -> ->]. right. done.
    + intros [(a & b & Hin & Hx)|[_ Hx]].
      * exists a, b. split; [apply elem_of_app; by left|done].
      * exists ds, de. split; [apply elem_of_app; right; apply list_elem_of_here|done].
Qed.

(** The characters from [c] on, [n] of them, are all in the mask. *)
Lemma canon_chars_spec n c idx ds de res :
  (forall c', c <= c' < c + Z.of_nat n -> cr_mem (of_pairs (mask_pairs u)) c' = true) ->
  0 <= idx -> (forall c' k, c <= c' -> covers k c' -> idx <= k) -> collecting res ds de ->
  exists idx' ds' de' res', canon_chars n c u idx ds de res = Some (idx', ds', de', res') /\
    0 <= idx' /\ (forall c' k, c + Z.of_nat n <= c' -> covers k c' -> idx' <= k) /\
    collecting res' ds' de' /\
    forall x, collected res' ds' de' x <->
      collected res ds de x \/ exists c', c <= c' < c + Z.of_nat n /\ lre_canonicalize c' u = x.
Proof.
  revert c idx ds de res. induction n as [|n IH]; intros c idx ds de res Hmask Hi0 Hidx Hcol.
  { exists idx, ds, de, res. split; [done|]. split; [done|]. split.
    { intros c' k Hc'. apply Hidx. lia. }
    split; [done|]. intros x. split; [auto|]. intros [?|(c' & ? & ?)]; [done|lia]. }
  cbn [canon_chars].
  destruct (mask_char_spec u c) as (k & v & Hf & Hfold & Hd); [apply Hmask; lia|].
  pose proof (case_conv_find_spec c) as Hcov. rewrite Hf in Hcov. destruct Hcov as (Hk & -> & Hc).
  assert (Hck : covers k c) by done.
  rewrite (canon_entry_spec _ c idx k) by (done || (specialize (Hidx c k ltac:(lia) Hck); lia) ||
    (unfold zlen in Hk; lia)).
  cbn [mbind option_bind]. rewrite Hfold. set (d := lre_canonicalize c u) in *.
  assert (Hidx' : forall c' k', c + 1 <= c' -> covers k' c' -> k <= k').
  { intros c' k' Hc' Hk'. apply (covers_mono k k' c c'); [done|done|lia]. }
  assert (Hmask' : forall c', c + 1 <= c' < c + 1 + Z.of_nat n -> cr_mem (of_pairs (mask_pairs u)) c' = true)
    by (intros; apply Hmask; lia).
  assert (Hu1 : u32 (d + 1) = d + 1) by (apply u32_small; lia).
  (* one step, given the new pending interval *)
  assert (Hstep : forall ds1 de1 res1, collecting res1 ds1 de1 ->
    (forall x, collected res1 ds1 de1 x <-> collected res ds de x \/ x = d) ->
    exists idx' ds' de' res', canon_chars n (c + 1) u k ds1 de1 res1 = Some (idx', ds', de', res') /\
    0 <= idx' /\ (forall c' k0, c + Z.of_nat (S n) <= c' -> covers k0 c' -> idx' <= k0) /\
    collecting res' ds' de' /\
    forall x, collected res' ds' de' x <->
      collected res ds de x \/ exists c', c <= c' < c + Z.of_nat (S n) /\ lre_canonicalize c' u = x).
  { intros ds1 de1 res1 Hcol1 Hone.
    destruct (IH (c + 1) k ds1 de1 res1) as (idx' & ds' & de' & res' & H1 & H2 & H3 & H4 & H5); try done; [lia|].
    exists idx', ds', de', res'. split; [done|]. split; [done|]. split.
    { intros c' k0 Hc'. apply H3. lia. }
    split; [done|]. intros x. rewrite H5, Hone. split.
    - intros [[?| ->]|(c' & ? & ?)]; [by left|right; exists c; split; [lia|done]|].
      right. exists c'. split; [lia|done].
    - intros [?|(c' & Hc' & Hx)]; [auto|]. destruct (Z.eq_dec c' c) as [->|]; [by left; right|].
      right. exists c'. split; [lia|done]. }
  destruct (Z.eqb_spec ds UINT32_MAX) as [->|Hds].
  - rewrite Hu1. apply Hstep.
    + destruct Hcol. split; try done. right. lia.
    + intros x. unfold collected. unfold UINT32_MAX. split; [intros [?|[? ?]]; [by left; left|right; lia]|].
      intros [[?|?]| ->]; [by left|lia|right; lia].
  - pose proof (col_pend _ _ _ Hcol) as [?|Hpend]; [done|].
    destruct (Z.eqb_spec de d) as [->|Hde].
    + rewrite Hu1. apply Hstep.
      * destruct Hcol. split; try done. right. lia.
      * intros x. unfold collected. split.
        { intros [?|[? ?]]; [by left; left|]. destruct (Z.eq_dec x d); [by right|left; right; lia]. }
        { intros [[?|?]| ->]; [by left|right; lia|right; lia]. }
    + destruct (flush_spec res ds de Hcol Hds) as (res1 & -> & Hok1 & Hev1 & Hp1 & Hm1).
      cbn [mbind option_bind]. rewrite Hu1. apply Hstep.
      * split; try done. right. lia.
      * intros x. unfold collected at 1. rewrite Hm1. unfold UINT32_MAX. split.
        { intros [?|[? ?]]; [by left|right; lia]. }
        { intros [?| ->]; [by left|right; lia]. }
Qed.

Lemma canon_ranges_spec l idx ds de res :
  StronglySorted Z.le l -> Nat.Even (length l) ->
  (forall c, in_pairs (to_pairs l) c -> cr_mem (of_pairs (mask_pairs u)) c = true) ->
  0 <= idx -> (forall c' k, match l with [] => False | a :: _ => a <= c' end -> covers k c' -> idx <= k) ->
  collecting res ds de ->
  exists idx' ds' de' res', canon_ranges l u idx ds de res = Some (idx', ds', de', res') /\
    collecting res' ds' de' /\
    forall x, collected res' ds' de' x <->
      collected res ds de x \/ exists c', in_pairs (to_pairs l) c' /\ lre_canonicalize c' u = x.
Proof.
  remember (length l) as n eqn:Hn. revert l Hn idx ds de res.
  induction (lt_wf n) as [n _ IH]. intros [|a [|b t]] -> idx ds de res Hs He Hmask Hi0 Hidx Hcol.
  - exists idx, ds, de, res. split; [done|]. split; [done|]. intros x. split; [auto|].
    intros [?|(c & (p & q & Hin & _) & _)]; [done|by apply elem_of_nil in Hin].
  - destruct He; simpl in *; lia.
  - cbn [canon_ranges to_pairs]. inversion_clear Hs as [|?? Hs1 Ha]. inversion_clear Hs1 as [|?? Hs2 Hb].
    assert (Hab : a <= b) by (by inversion_clear Ha).
    destruct (canon_chars_spec (Z.to_nat (b - a)) a idx ds de res)
      as (idx1 & ds1 & de1 & res1 & -> & Hi1 & Hidx1 & Hcol1 & Hm1).
    { intros c' Hc'. apply Hmask. exists a, b. split; [apply list_elem_of_here|lia]. }
    { done. }
    { intros c' k Hc'. by apply Hidx. }
    { done. }
    replace (a + Z.of_nat (Z.to_nat (b - a))) with b in * by lia. cbn [mbind option_bind].
    destruct (IH (length t)) with (l := t) (idx := idx1) (ds := ds1) (de := de1) (res := res1)
      as (idx2 & ds2 & de2 & res2 & H2 & Hcol2 & Hm2); try done; try (simpl; lia).
    + destruct He as [k Hk]. exists (k - 1)%nat. simpl in Hk. lia.
    + intros c (p & q & Hin & Hc). apply Hmask. exists p, q. split; [by apply list_elem_of_further|done].
    + intros c' k Hc' Hk. destruct t as [|x t]; [done|]. apply (Hidx1 c' k); [|done].
      inversion_clear Hb. lia.
    + rewrite H2. exists idx2, ds2, de2, res2. split; [done|]. split; [done|].
      intros x. rewrite Hm2, Hm1. unfold in_pairs. split.
      * intros [[?|(c & ? & ?)]|(c & (p & q & Hin & ?) & ?)]; [by left|right; exists c..].
        { split; [|done]. exists a, b. split; [apply list_elem_of_here|done]. }
        { split; [|done]. exists p, q. split; [by apply list_elem_of_further|done]. }
      * intros [?|(c & (p & q & [[= -> ->]|Hin]%elem_of_cons & ?) & ?)]; [by left; left|left; right; eauto|].
        right. exists c. split; [|done]. eauto.
Qed.
End Image.

(** Membership by points and by intervals agree on a sorted set. *)
Lemma cr_mem_in_pairs l c :
  cr_sorted l -> cr_mem l c = true <-> in_pairs (to_pairs l) c.
Proof.
  intros [Hs He]. rewrite <- (of_to_pairs l) at 1 by done. rewrite <- (of_to_pairs l) in Hs by done.
  split; [intros; by apply cr_mem_pair, sorted_pairs_ok|].
  generalize (to_pairs l), Hs. clear. intros l. induction l as [|[a b] l IH]; intros Hs (p & q & Hin & Hc).
  { by apply elem_of_nil in Hin. }
  cbn [of_pairs cr_mem] in *. inversion_clear Hs as [|?? Hs1 Ha]. inversion_clear Hs1 as [|?? Hs2 Hb].
  assert (a <= b) by (by inversion_clear Ha).
  apply elem_of_cons in Hin as [[= -> ->]|Hin].
  - destruct (Z.leb_spec a c), (Z.leb_spec b c); try lia. rewrite cr_mem_above; [done|].
    eapply Forall_impl; [exact Hb|simpl; lia].
  - rewrite IH; [|done|by exists p, q]. assert (b <= p).
    { rewrite Forall_forall in Hb. apply Hb. clear -Hin. induction l as [|[x y] l IH].
      - by apply elem_of_nil in Hin.
      - apply elem_of_cons in Hin as [[= -> ->]|Hin]; [apply list_elem_of_here|].
        do 2 apply list_elem_of_further. auto. }
    destruct (Z.leb_spec a c), (Z.leb_spec b c); lia || done.
Qed.

Lemma cr_regexp_canonicalize_spec `{!Allocator} cr u :
  alloc_total -> cr_ok cr -> cr_sorted (pts cr) -> Forall (fun p => 0 <= p <= UINT32_MAX) (pts cr) ->
  exists cr', cr_regexp_canonicalize cr u = Some (cr', 0) /\ cr_ok cr' /\ cr_canonical (pts cr') /\
    forall d, cr_mem (pts cr') d = true <->
      exists c, cr_mem (pts cr) c = true /\ lre_canonicalize c u = d.
Proof.
  intros Htot Hok Hs Hr. unfold cr_regexp_canonicalize. cbv zeta.
  destruct (mask_points_spec u) as [Hms Hmu].
  assert (Hmask : exists mask, unicode_case1 (cr_init (cr_opaque cr)) (if u then CASE_F else CASE_U) =
    Some (mask, 0) /\ cr_ok mask /\ pts mask = of_pairs (mask_pairs u)).
  { unfold unicode_case1. rewrite (proj2 (Z.eqb_neq _ _)) by (by destruct u).
    destruct (case1_loop_spec (case1_mask (if u then CASE_F else CASE_U)) (if u then CASE_F else CASE_U)
      case_conv_table1 (cr_init (cr_opaque cr))) as (m & r & -> & Hokm & [[-> Hp]|[_ Hna]]);
      [apply cr_init_ok|eauto|done]. }
  destruct Hmask as (mask & -> & Hmok & Hmp). cbn [mbind option_bind]. simpl Z.ltb. cbn iota.
  destruct (cr_op_spec (cr_init (cr_opaque mask)) (pts mask) (pts cr) CR_OP_INTER)
    as (inter & r & -> & Hiok & [[_ Hna]|(-> & Hic & Him)]);
    [apply cr_init_ok|done|by rewrite Hmp|done|done|]. cbn [mbind option_bind]. simpl Z.ltb. cbn iota.
  destruct (cr_invert_spec (set_cr_opaque mask (cr_opaque inter)))
    as (mask' & r & -> & Hmok' & [[_ Hna]|(-> & Hmc & Hmm)]);
    [by destruct Hmok|by unfold pts in *; simpl; rewrite Hmp|by unfold pts in *; simpl; rewrite Hmp|done|].
  change (pts (set_cr_opaque mask (cr_opaque inter))) with (pts mask) in Hmm.
  assert (Hmn : forall c, 0 <= c < UINT32_MAX -> cr_mem (pts mask') c = negb (cr_mem (pts mask) c)).
  { intros c Hc. rewrite Hmm. by destruct (Z.leb_spec 0 c), (Z.ltb_spec c UINT32_MAX); try lia. }
  cbn [mbind option_bind]. simpl Z.ltb. cbn iota.
  destruct (cr_op_spec (cr_init (cr_opaque mask')) (pts mask') (pts cr) CR_OP_INTER)
    as (sub & r & -> & Hsok & [[_ Hna]|(-> & Hsc & Hsm)]);
    [apply cr_init_ok|done|by apply cr_canonical_sorted|done|done|]. cbn [mbind option_bind]. simpl Z.ltb. cbn iota.
  rewrite Hmp in *. pose proof (cr_canonical_sorted _ Hic) as His.
  destruct (canon_ranges_spec Htot u (pts inter) 0 UINT32_MAX UINT32_MAX (cr_init (cr_opaque sub)))
    as (idx & ds & de & res & -> & Hcol & Hcm).
  { apply His. } { apply His. }
  { intros c Hc. apply cr_mem_in_pairs in Hc; [|done]. rewrite Him in Hc. simpl in Hc.
    by apply andb_prop in Hc as [? _]. }
  { done. } { intros c' k _ [? _]. lia. }
  { split; [apply cr_init_ok|by exists 0%nat|constructor|by left]. }
  cbn [mbind option_bind].
  assert (Hfl : exists res1,
    (if ds =? UINT32_MAX then Some (res, 0) else cr_add_interval res ds de) = Some (res1, 0) /\
    cr_ok res1 /\ Nat.Even (length (pts res1)) /\ pairs_ok (to_pairs (pts res1)) /\
    forall x, in_pairs (to_pairs (pts res1)) x <-> collected res ds de x).
  { destruct (Z.eqb_spec ds UINT32_MAX) as [->|Hds]; [|by apply flush_spec].
    destruct Hcol. exists res. split_and!; try done. intros x. unfold collected. split; [auto|].
    intros [?|[? _]]; done. }
  destruct Hfl as (res1 & -> & Hrok & Hrev & Hrp & Hrm). cbn [mbind option_bind]. simpl Z.ltb. cbn iota.
  destruct (cr_sort_and_remove_overlap_spec res1) as (res2 & -> & Hok2 & _ & Hs2 & Hm2); [done..|].
  cbn [mbind option_bind].
  destruct (cr_op_spec (mkCharRange _ 0 (cr_size cr) (cr_points cr) (cr_opaque res2)) (pts res2) (pts sub) CR_OP_UNION)
    as (cr' & r & -> & Hok' & [[_ Hna]|(-> & Hc' & Hm')]);
    [destruct Hok; split; simpl; lia|done|done|by apply cr_canonical_sorted|done|].
  cbn [mbind option_bind]. eexists. split; [done|]. split; [by destruct Hok'|]. split; [done|].
  intros d. change (pts (set_cr_opaque cr' _)) with (pts cr').
  rewrite Hm'. simpl op_bool. rewrite orb_true_iff, Hm2, Hrm, Hcm, Hsm. simpl op_bool. split.
  - intros [[Hinit|(c & Hin & Hd)]|[Hnm Hd]%andb_prop].
    + destruct Hinit as [(a & b & Hin & _)|[? _]]; [by apply elem_of_nil in Hin|done].
    + exists c. apply cr_mem_in_pairs in Hin; [|done]. rewrite Him in Hin. simpl in Hin.
      by apply andb_prop in Hin as [_ ?].
    + exists d. split; [done|]. pose proof (cr_mem_range _ _ _ _ Hr (proj2 Hs) Hd).
      rewrite Hmn in Hnm by lia. apply mask_rest_spec; [lia|]. by apply negb_true_iff.
  - intros (c & Hc & Hd). pose proof (cr_mem_range _ _ _ _ Hr (proj2 Hs) Hc).
    destruct (cr_mem (of_pairs (mask_pairs u)) c) eqn:Hmc'.
    + left. right. exists c. split; [|done]. apply cr_mem_in_pairs; [done|]. rewrite Him. simpl.
      by rewrite Hmc', Hc.
    + right. rewrite (mask_rest_spec u c) in Hd by (done || lia). subst d.
      rewrite Hmn, Hmc', Hc by lia. done.
Qed.

#[local] Transparent case_conv_table1.

(** An allocator whose [k]-th request fails, and no other. *)
Definition malloc_fail_once (k : Z) : Allocator :=
  {| aopaque := Z; realloc_func := fun o n => (o + 1, if o =? k then None else Some (fun _ => 0)) |}.

(** A set given by its points. *)
Definition cr_of (A : Allocator) (l : list Z) (o : @aopaque A) : @CharRange A :=
  @mkCharRange A (zlen l) (zlen l) l o.

(** The points and the return value of [cr_regexp_canonicalize] on such a set. *)
Definition canon_points (A : Allocator) (l : list Z) (o : @aopaque A) (u : bool) : option (list Z * Z) :=
  '(cr, r) ← cr_regexp_canonicalize (cr_of A l o) u; Some (pts cr, r).

Lemma canon_points_Some A l o u p r :
  canon_points A l o u = Some (p, r) ->
  exists cr', cr_regexp_canonicalize (cr_of A l o) u = Some (cr', r) /\ pts cr' = p.
Proof.
  unfold canon_points. destruct (cr_regexp_canonicalize (cr_of A l o) u) as [[cr' r']|]; [|done].
  intros H. simpl in H. injection H as <- <-. eauto.
Qed.

Lemma canon_points_letters :
  canon_points malloc_ok [97; 123; 0x430; 0x450] tt false = Some ([65; 91; 0x410; 0x430], 0).
Proof. vm_compute. reflexivity. Qed.

Lemma canon_points_fail_once :
  canon_points (malloc_fail_once 24) [97; 98; 99; 100; 102; 103; 104; 105; 110; 111] 0 false =
  Some ([67; 68; 70; 71; 72; 73; 78; 79], 0).
Proof. vm_compute. reflexivity. Qed.

(** ** Properties *)

(** C33: on a class of intervals in any order and possibly overlapping,
    [cr_sort_and_remove_overlap] produces sorted points that stand for exactly the
    union of the intervals. *)
Theorem cr_sort_and_remove_overlap_union `{!Allocator} cr :
  cr_ok cr -> Nat.Even (length (pts cr)) -> pairs_ok (to_pairs (pts cr)) ->
  exists cr', cr_sort_and_remove_overlap cr = Some cr' /\ cr_ok cr' /\ cr_opaque cr' = cr_opaque cr /\
    cr_sorted (pts cr') /\ forall c, cr_mem (pts cr') c = true <-> in_pairs (to_pairs (pts cr)) c.
Proof. apply cr_sort_and_remove_overlap_spec. Qed.

Lemma cr_sort_and_remove_overlap_union_witness :
  let cr := cr_of malloc_ok [20; 30; 5; 8; 7; 12; 25; 40; 12; 13] tt in
  exists cr', cr_sort_and_remove_overlap cr = Some cr' /\ pts cr' = [5; 13; 20; 40] /\
    cr_sorted (pts cr').
Proof.
  destruct (@cr_sort_and_remove_overlap_union malloc_ok
    (cr_of malloc_ok [20; 30; 5; 8; 7; 12; 25; 40; 12; 13] tt)) as (cr' & H & _ & _ & Hs & _).
  - split; vm_compute; intuition congruence.
  - by exists 5%nat.
  - repeat constructor; vm_compute; congruence.
  - exists cr'. split; [done|]. split; [|done]. vm_compute in H. by injection H as <-.
Defined.



(** A counterexample without that hypothesis: the result of [cr_add_interval]
    inside the loop of [cr_regexp_canonicalize] is ignored, so with an allocator
    that fails once the function reports success (0) for the class of
    [a c f h n] but the canonical form of [a] is missing from the result. *)
Theorem cr_regexp_canonicalize_ignores_failure :
  exists (A : Allocator) (cr : @CharRange A) cr',
    pts cr = [97; 98; 99; 100; 102; 103; 104; 105; 110; 111] /\
    cr_regexp_canonicalize cr false = Some (cr', 0) /\
    cr_mem (pts cr) 97 = true /\ lre_canonicalize 97 false = 65 /\ cr_mem (pts cr') 65 = false.
Proof.
  destruct (canon_points_Some _ _ _ _ _ _ canon_points_fail_once) as (cr' & H & Hp).
  eexists _, _, cr'. split; [|split; [exact H|]]; [reflexivity|]. rewrite Hp.
  split_and!; reflexivity.
Qed.
