(* ===== verification/UnicodeProp.v ===== *)
(** Character properties of [libunicode.c]: name lookup, scripts and script
    extensions, general categories, binary properties and the stack programs that
    combine them.

    The tables are byte streams; a pointer into one is the rest of the stream.  The sets
    share one allocator, whose state is threaded through them.  [None] is a read past
    the end of a table, a failed [assert], or the endless loop of [unicode_script] after
    an allocation failure. *)

From S2P Require Import Prelude CutilsH CString DynBuf CharRange UnicodeTables CaseConv UnicodeIndex UnicodeSet UnicodeData.

(** ** Names *)

(** [strchr(p, ',')], [strlen(p)] and [p += len + 1]: the name at [p], whether a comma
    follows it, and the rest. *)
Fixpoint name_field (p : list Z) : option (list Z * bool * list Z) :=
  match p with
  | [] => None
  | c :: p =>
      if c =? ch "," then Some ([], true, p)
      else if c =? 0 then Some ([], false, p)
      else '(f, r, p) ← name_field p; Some (c :: f, r, p)
  end.

(** The two loops; [inner] tells that the inner one goes on. *)
Fixpoint find_name_loop (fuel : nat) (inner : bool) (p name : list Z) (pos : Z) : option Z :=
  match fuel with
  | O => None
  | S fuel' =>
      c ← head p;
      if negb inner && (c =? 0) then Some (-1)
      else
        '(f, r, p) ← name_field p;
        if bool_decide (f = name) then Some pos
        else find_name_loop fuel' r p name (if r then pos else pos + 1)
  end.

Definition unicode_find_name (name_table name : list Z) : option Z :=
  find_name_loop (length name_table) false name_table name 0.

(** ** Run-length codes *)

(** A length with one or two extra bytes after a first part of [b] that is at least
    [lo]: the codes of the script, script extension and general category tables. *)
Definition read_len (b lo mid base : Z) (p : list Z) : option (Z * list Z) :=
  if b <? lo then Some (b, p)
  else if b <? mid then
    match p with x :: p => Some ((((b - lo) ≪ 8) .| x) + lo, p) | _ => None end
  else
    match p with x :: y :: p => Some ((((b - mid) ≪ 16) .| (x ≪ 8) .| y) + base, p) | _ => None end.

(** One entry of [unicode_script_table]: length minus one and script. *)
Definition script_entry (p : list Z) : option (Z * Z * list Z) :=
  match p with
  | [] => None
  | b :: p =>
      let type := b ≫ 7 in
      '(n, p) ← read_len (b .& 0x7f) 96 112 (96 + (1 ≪ 12)) p;
      if type =? 0 then Some (n, 0, p)
      else match p with v :: p => Some (n, v, p) | [] => None end
  end.

(** One entry of [unicode_script_ext_table]: length minus one and scripts. *)
Definition script_ext_entry (p : list Z) : option (Z * list Z * list Z) :=
  match p with
  | [] => None
  | b :: p =>
      '(n, p) ← read_len b 128 (128 + 64) (128 + (1 ≪ 14)) p;
      match p with
      | [] => None
      | v_len :: p => v ← zslice p 0 v_len; Some (n, v, drop (Z.to_nat v_len) p)
      end
  end.

(** One entry of [unicode_gc_table]: length minus one and category. *)
Definition gc_entry (p : list Z) : option (Z * Z * list Z) :=
  match p with
  | [] => None
  | b :: p =>
      let n := b ≫ 5 in
      let v := b .& 0x1f in
      if n =? 7 then
        match p with
        | [] => None
        | n :: p => '(n, p) ← read_len n 128 (128 + 64) (128 + (1 ≪ 14)) p; Some (n + 7, v, p)
        end
      else Some (n, v, p)
  end.

Section UnicodeProp.
Context `{!Allocator}.

(** The loops [while (p < p_end)] over these tables: [entry] reads an entry, and [sel]
    gives the intervals it contributes to [cr]. *)
Fixpoint table_loop {V} (entry : list Z -> option (Z * V * list Z)) (sel : Z -> Z -> V -> list (Z * Z))
    (fuel : nat) (p : list Z) (c : Z) (cr : CharRange) : option (CharRange * Z) :=
  match fuel with
  | O => None
  | S fuel' =>
      match p with
      | [] => Some (cr, 0)
      | _ =>
          '(n, v, p) ← entry p;
          let c1 := u32 (c + n + 1) in
          '(cr, r) ← cr_add_intervals cr (sel c c1 v);
          if r <? 0 then Some (cr, -1) else table_loop entry sel fuel' p c1 cr
      end
  end.

(** *** Scripts *)

Definition script_sel (script_idx c c1 v : Z) : list (Z * Z) :=
  if v =? script_idx then [(c, c1)] else [].

Definition script_ext_sel (is_common : bool) (script_idx c c1 : Z) (v : list Z) : list (Z * Z) :=
  if is_common then if zlen v =? 0 then [] else [(c, c1)]
  else if bool_decide (script_idx ∈ v) then [(c, c1)] else [].

Definition is_common (script_idx : Z) : bool :=
  (script_idx =? script_idx_of UNICODE_SCRIPT_Common) || (script_idx =? script_idx_of UNICODE_SCRIPT_Inherited).

(** The label [fail:] ends with [goto fail], so a failure never returns. *)
Definition unicode_script (cr : CharRange) (script_name : list Z) (is_ext : bool) : option (CharRange * Z) :=
  idx ← unicode_find_name unicode_script_name_table script_name;
  if idx <? 0 then Some (cr, -2) else
  let script_idx := idx + script_idx_of UNICODE_SCRIPT_Unknown + 1 in
  let scan := table_loop script_entry (script_sel script_idx) (S (length unicode_script_table)) unicode_script_table 0 in
  if is_ext then
    '(cr1, r) ← scan (cr_init (cr_opaque cr));
    if r <? 0 then None else
    '(cr2, r) ← table_loop script_ext_entry (script_ext_sel (is_common script_idx) script_idx)
                  (S (length unicode_script_ext_table)) unicode_script_ext_table 0 (cr_init (cr_opaque cr1));
    if r <? 0 then None else
    '(cr2, r) ← (if is_common script_idx then cr_invert cr2 else Some (cr2, 0));
    if r <? 0 then None else
    '(cr, r) ← cr_op (set_cr_opaque cr (cr_opaque cr2)) (pts cr1) (pts cr2)
                 (if is_common script_idx then CR_OP_INTER else CR_OP_UNION);
    if r <? 0 then None else
    let free o := (realloc_func o 0).1 in
    Some (set_cr_opaque cr (free (free (cr_opaque cr))), 0)
  else
    '(cr, r) ← scan cr;
    if r <? 0 then None else Some (cr, 0).

(** *** General categories *)

(** [M(id)]. *)
Definition GC_M (id : UnicodeGCEnum) : Z := 1 ≪ gc_idx id.
Definition GC_Ms (l : list UnicodeGCEnum) : Z := foldr (fun id m => GC_M id .| m) 0 l.

(** The intervals of a run: a run of category 31 alternates between [Lu] and [Ll]. *)
Definition gc_sel (gc_mask c0 c v : Z) : list (Z * Z) :=
  if v =? 31 then
    let b := gc_mask .& (GC_M UNICODE_GC_Lu .| GC_M UNICODE_GC_Ll) in
    if b =? 0 then []
    else if b =? GC_M UNICODE_GC_Lu .| GC_M UNICODE_GC_Ll then [(c0, c)]
    else
      let c0 := c0 + b2z (negb (gc_mask .& GC_M UNICODE_GC_Ll =? 0)) in
      map (fun i => (c0 + 2 * Z.of_nat i, c0 + 2 * Z.of_nat i + 1)) (seq 0 (Z.to_nat ((c - c0 + 1) / 2)))
  else if (gc_mask ≫ v) .& 1 =? 0 then [] else [(c0, c)].

Definition unicode_general_category1 (cr : CharRange) (gc_mask : Z) : option (CharRange * Z) :=
  table_loop gc_entry (gc_sel gc_mask) (S (length unicode_gc_table)) unicode_gc_table 0 cr.

Definition unicode_gc_mask_table : list Z := [
  GC_Ms [UNICODE_GC_Lu; UNICODE_GC_Ll; UNICODE_GC_Lt];
  GC_Ms [UNICODE_GC_Lu; UNICODE_GC_Ll; UNICODE_GC_Lt; UNICODE_GC_Lm; UNICODE_GC_Lo];
  GC_Ms [UNICODE_GC_Mn; UNICODE_GC_Mc; UNICODE_GC_Me];
  GC_Ms [UNICODE_GC_Nd; UNICODE_GC_Nl; UNICODE_GC_No];
  GC_Ms [UNICODE_GC_Sm; UNICODE_GC_Sc; UNICODE_GC_Sk; UNICODE_GC_So];
  GC_Ms [UNICODE_GC_Pc; UNICODE_GC_Pd; UNICODE_GC_Ps; UNICODE_GC_Pe; UNICODE_GC_Pi; UNICODE_GC_Pf; UNICODE_GC_Po];
  GC_Ms [UNICODE_GC_Zs; UNICODE_GC_Zl; UNICODE_GC_Zp];
  GC_Ms [UNICODE_GC_Cc; UNICODE_GC_Cf; UNICODE_GC_Cs; UNICODE_GC_Co; UNICODE_GC_Cn] ].

Definition unicode_general_category (cr : CharRange) (gc_name : list Z) : option (CharRange * Z) :=
  gc_idx' ← unicode_find_name unicode_gc_name_table gc_name;
  if gc_idx' <? 0 then Some (cr, -2) else
  gc_mask ← (if gc_idx' <=? gc_idx UNICODE_GC_Co then Some (u32 (1 ≪ gc_idx'))
             else zget unicode_gc_mask_table (gc_idx' - gc_idx UNICODE_GC_LC));
  unicode_general_category1 cr gc_mask.

(** *** Properties *)

(** The loop of [unicode_prop1]. *)
Fixpoint prop1_loop (fuel : nat) (p : list Z) (c : Z) (bit : bool) (cr : CharRange) : option (CharRange * Z) :=
  match fuel with
  | O => None
  | S fuel' =>
      match p with
      | [] => Some (cr, 0)
      | b :: p =>
          let add (bit : bool) c0 c cr := if bit then cr_add_interval cr c0 c else Some (cr, 0) in
          if b <? 64 then
            let c1 := u32 (c + (b ≫ 3) + 1) in
            '(cr, r) ← add bit c c1 cr;
            if r <? 0 then Some (cr, -1) else
            let c2 := u32 (c1 + (b .& 7) + 1) in
            '(cr, r) ← add (negb bit) c1 c2 cr;
            if r <? 0 then Some (cr, -1) else prop1_loop fuel' p c2 bit cr
          else
            '(n, p) ←
              (if 0x80 <=? b then Some (b - 0x80, p)
               else if b <? 0x60 then
                 match p with x :: p => Some (((b - 0x40) ≪ 8) .| x, p) | _ => None end
               else
                 match p with x :: y :: p => Some (((b - 0x60) ≪ 16) .| (x ≪ 8) .| y, p) | _ => None end);
            let c1 := u32 (c + n + 1) in
            '(cr, r) ← add bit c c1 cr;
            if r <? 0 then Some (cr, -1) else prop1_loop fuel' p c1 (negb bit) cr
      end
  end.

Definition unicode_prop1 (cr : CharRange) (prop_idx : Z) : option (CharRange * Z) :=
  t ← zget unicode_prop_table prop_idx;
  prop1_loop (S (length t)) t 0 false cr.

(** The programs of [unicode_prop_ops]; [POP_END] is the end of the list. *)
Inductive PropOPEnum :=
  | POP_GC (mask : Z)
  | POP_PROP (prop : UnicodePropertyEnum)
  | POP_CASE (mask : Z)
  | POP_UNION
  | POP_INTER
  | POP_XOR
  | POP_INVERT.

Definition POP_STACK_LEN_MAX : Z := 4.

(** [cr_free] of [n] sets, on the allocator state [o]. *)
Fixpoint free_n (n : nat) (o : aopaque) : aopaque :=
  match n with O => o | S n' => free_n n' (realloc_func o 0).1 end.

(** The loop over the program; the top of the stack is the head of the list.  The
    result is the stack at [POP_END], or the allocator state after the label [fail:]. *)
Fixpoint prop_ops_loop (prog : list PropOPEnum) (stack : list CharRange) (o : aopaque)
    : option (list CharRange * aopaque + aopaque) :=
  match prog with
  | [] => Some (inl (stack, o))
  | op :: prog =>
      let push (f : CharRange -> option (CharRange * Z)) :=
        if zlen stack <? POP_STACK_LEN_MAX then
          '(s, r) ← f (cr_init o);
          if r <? 0 then Some (inr (free_n (S (length stack)) (cr_opaque s)))
          else prop_ops_loop prog (s :: stack) (cr_opaque s)
        else None in
      let binop (op : CharRangeOpEnum) :=
        match stack with
        | cr2 :: cr1 :: stack' =>
            if zlen stack <? POP_STACK_LEN_MAX then
              '(cr3, r) ← cr_op (cr_init o) (pts cr1) (pts cr2) op;
              if r <? 0 then Some (inr (free_n (S (length stack)) (cr_opaque cr3)))
              else prop_ops_loop prog (cr3 :: stack') (free_n 2 (cr_opaque cr3))
            else None
        | _ => None
        end in
      match op with
      | POP_GC a => push (fun s => unicode_general_category1 s a)
      | POP_PROP a => push (fun s => unicode_prop1 s (prop_idx_of a))
      | POP_CASE a => push (fun s => unicode_case1 s a)
      | POP_UNION => binop CR_OP_UNION
      | POP_INTER => binop CR_OP_INTER
      | POP_XOR => binop CR_OP_XOR
      | POP_INVERT =>
          match stack with
          | s :: stack' =>
              '(s, r) ← cr_invert (set_cr_opaque s o);
              if r <? 0 then Some (inr (free_n (length stack) (cr_opaque s)))
              else prop_ops_loop prog (s :: stack') (cr_opaque s)
          | [] => None
          end
      end
  end.

Definition unicode_prop_ops (cr : CharRange) (prog : list PropOPEnum) : option (CharRange * Z) :=
  r ← prop_ops_loop prog [] (cr_opaque cr);
  match r with
  | inl ([s], o) =>
      '(cr, r) ← cr_copy (set_cr_opaque cr o) s;
      Some (set_cr_opaque cr (free_n 1 (cr_opaque cr)), r)
  | inl _ => None
  | inr o => Some (set_cr_opaque cr o, -1)
  end.

(** The programs of the derived properties. *)
Definition prop_program (prop : UnicodePropertyEnum) : option (list PropOPEnum) :=
  let letters := [UNICODE_GC_Lu; UNICODE_GC_Ll; UNICODE_GC_Lt; UNICODE_GC_Lm; UNICODE_GC_Lo; UNICODE_GC_Nl] in
  match prop with
  | UNICODE_PROP_Assigned => Some [POP_GC (GC_M UNICODE_GC_Cn); POP_INVERT]
  | UNICODE_PROP_Math => Some [POP_GC (GC_M UNICODE_GC_Sm); POP_PROP UNICODE_PROP_Other_Math; POP_UNION]
  | UNICODE_PROP_Lowercase =>
      Some [POP_GC (GC_M UNICODE_GC_Ll); POP_PROP UNICODE_PROP_Other_Lowercase; POP_UNION]
  | UNICODE_PROP_Uppercase =>
      Some [POP_GC (GC_M UNICODE_GC_Lu); POP_PROP UNICODE_PROP_Other_Uppercase; POP_UNION]
  | UNICODE_PROP_Cased =>
      Some [POP_GC (GC_Ms [UNICODE_GC_Lu; UNICODE_GC_Ll; UNICODE_GC_Lt]);
            POP_PROP UNICODE_PROP_Other_Uppercase; POP_UNION;
            POP_PROP UNICODE_PROP_Other_Lowercase; POP_UNION]
  | UNICODE_PROP_Alphabetic =>
      Some [POP_GC (GC_Ms letters);
            POP_PROP UNICODE_PROP_Other_Uppercase; POP_UNION;
            POP_PROP UNICODE_PROP_Other_Lowercase; POP_UNION;
            POP_PROP UNICODE_PROP_Other_Alphabetic; POP_UNION]
  | UNICODE_PROP_Grapheme_Base =>
      Some [POP_GC (GC_Ms [UNICODE_GC_Cc; UNICODE_GC_Cf; UNICODE_GC_Cs; UNICODE_GC_Co; UNICODE_GC_Cn;
                           UNICODE_GC_Zl; UNICODE_GC_Zp; UNICODE_GC_Me; UNICODE_GC_Mn]);
            POP_PROP UNICODE_PROP_Other_Grapheme_Extend; POP_UNION; POP_INVERT]
  | UNICODE_PROP_Grapheme_Extend =>
      Some [POP_GC (GC_Ms [UNICODE_GC_Me; UNICODE_GC_Mn]);
            POP_PROP UNICODE_PROP_Other_Grapheme_Extend; POP_UNION]
  | UNICODE_PROP_XID_Start =>
      Some [POP_GC (GC_Ms letters); POP_PROP UNICODE_PROP_Other_ID_Start; POP_UNION;
            POP_PROP UNICODE_PROP_Pattern_Syntax; POP_PROP UNICODE_PROP_Pattern_White_Space; POP_UNION;
            POP_PROP UNICODE_PROP_XID_Start1; POP_UNION; POP_INVERT; POP_INTER]
  | UNICODE_PROP_XID_Continue =>
      Some [POP_GC (GC_Ms (letters ++ [UNICODE_GC_Mn; UNICODE_GC_Mc; UNICODE_GC_Nd; UNICODE_GC_Pc]));
            POP_PROP UNICODE_PROP_Other_ID_Start; POP_UNION;
            POP_PROP UNICODE_PROP_Other_ID_Continue; POP_UNION;
            POP_PROP UNICODE_PROP_Pattern_Syntax; POP_PROP UNICODE_PROP_Pattern_White_Space; POP_UNION;
            POP_PROP UNICODE_PROP_XID_Continue1; POP_UNION; POP_INVERT; POP_INTER]
  | UNICODE_PROP_Changes_When_Titlecased =>
      Some [POP_CASE CASE_U; POP_PROP UNICODE_PROP_Changes_When_Titlecased1; POP_XOR]
  | UNICODE_PROP_Changes_When_Casefolded =>
      Some [POP_CASE CASE_F; POP_PROP UNICODE_PROP_Changes_When_Casefolded1; POP_XOR]
  | UNICODE_PROP_Changes_When_NFKC_Casefolded =>
      Some [POP_CASE CASE_F; POP_PROP UNICODE_PROP_Changes_When_NFKC_Casefolded1; POP_XOR]
  | UNICODE_PROP_ID_Continue => Some [POP_PROP UNICODE_PROP_ID_Start; POP_PROP UNICODE_PROP_ID_Continue1; POP_XOR]
  | _ => None
  end.

(** The [switch] of [unicode_prop]. *)
Definition unicode_prop_by_id (cr : CharRange) (prop : UnicodePropertyEnum) : option (CharRange * Z) :=
  match prop with
  | UNICODE_PROP_ASCII =>
      '(cr, r) ← cr_add_interval cr 0x00 (0x7f + 1); Some (cr, if r <? 0 then -1 else 0)
  | UNICODE_PROP_Any =>
      '(cr, r) ← cr_add_interval cr 0x00000 (0x10ffff + 1); Some (cr, if r <? 0 then -1 else 0)
  | UNICODE_PROP_Changes_When_Uppercased => unicode_case1 cr CASE_U
  | UNICODE_PROP_Changes_When_Lowercased => unicode_case1 cr CASE_L
  | UNICODE_PROP_Changes_When_Casemapped => unicode_case1 cr (CASE_U .| CASE_L .| CASE_F)
  | _ =>
      match prop_program prop with
      | Some prog => unicode_prop_ops cr prog
      | None =>
          if zlen unicode_prop_table <=? prop_idx_of prop then Some (cr, -2)
          else unicode_prop1 cr (prop_idx_of prop)
      end
  end.

Definition unicode_prop (cr : CharRange) (prop_name : list Z) : option (CharRange * Z) :=
  idx ← unicode_find_name unicode_prop_name_table prop_name;
  if idx <? 0 then Some (cr, -2) else
  prop ← zget unicode_props (idx + prop_idx_of UNICODE_PROP_ASCII_Hex_Digit);
  unicode_prop_by_id cr prop.
End UnicodeProp.

(** ** What a table says of a character *)

Section Runs.
Context {V : Type} (entry : list Z -> option (Z * V * list Z)).

(** The runs of a table: length and value. *)
Fixpoint table_runs (fuel : nat) (p : list Z) : option (list (Z * V)) :=
  match fuel with
  | O => None
  | S fuel' =>
      match p with
      | [] => Some []
      | _ => '(n, v, p) ← entry p; rs ← table_runs fuel' p; Some ((n + 1, v) :: rs)
      end
  end.

(** The run that holds [x]: its start and its value. *)
Fixpoint run_at (rs : list (Z * V)) (c x : Z) : option (Z * V) :=
  match rs with
  | [] => None
  | (n, v) :: rs => if x <? c + n then Some (c, v) else run_at rs (c + n) x
  end.

Definition runs_total (rs : list (Z * V)) : Z := foldr (fun r t => r.1 + t) 0 rs.

Definition runs_ok (rs : list (Z * V)) : bool :=
  forallb (fun r => 0 <? r.1) rs && (runs_total rs <=? 0x110000).

Section Sel.
Context `{!Allocator} (sel : Z -> Z -> V -> list (Z * Z)).

Fixpoint run_pairs (rs : list (Z * V)) (c : Z) : list (Z * Z) :=
  match rs with
  | [] => []
  | (n, v) :: rs => sel c (c + n) v ++ run_pairs rs (c + n)
  end.

Lemma cr_add_intervals_app l1 l2 cr :
  cr_add_intervals cr (l1 ++ l2) =
    ('(cr, r) ← cr_add_intervals cr l1; if r <? 0 then Some (cr, -1) else cr_add_intervals cr l2).
Proof.
  revert cr. induction l1 as [|[a b] l1 IH]; intros cr; [done|]. cbn [app cr_add_intervals].
  destruct (cr_add_interval cr a b) as [[cr1 r]|]; [|done]. cbn [mbind option_bind].
  by destruct (r <? 0).
Qed.

Lemma runs_total_nonneg rs : Forall (fun r => 0 < r.1) rs -> 0 <= runs_total rs.
Proof. induction 1; simpl; lia. Qed.

Lemma table_loop_runs fuel p c cr rs :
  table_runs fuel p = Some rs -> Forall (fun r => 0 < r.1) rs -> 0 <= c -> c + runs_total rs < 2 ^ 32 ->
  table_loop entry sel fuel p c cr = cr_add_intervals cr (run_pairs rs c).
Proof.
  revert p c cr rs. induction fuel as [|fuel IH]; intros p c cr rs Hr Hpos Hc Ht; [done|].
  cbn [table_runs table_loop] in *. destruct p as [|b p]; [by injection Hr as <-|].
  destruct (entry (b :: p)) as [[[n v] p']|]; [|done]. cbn [mbind option_bind] in *.
  destruct (table_runs fuel p') as [rs'|] eqn:Hrs; [|done]. injection Hr as <-.
  inversion_clear Hpos as [|?? Hn Hpos']. simpl in Hn. pose proof (runs_total_nonneg _ Hpos'). simpl in Ht.
  rewrite u32_small by lia. cbn [run_pairs]. rewrite cr_add_intervals_app.
  replace (c + (n + 1)) with (c + n + 1) by lia.
  destruct (cr_add_intervals cr (sel c (c + n + 1) v)) as [[cr1 r]|]; [|done]. cbn [mbind option_bind].
  destruct (r <? 0); [done|]. apply IH; [done..|lia|lia].
Qed.

(** The intervals of a run lie in it, in order. *)
Definition sel_ok : Prop :=
  forall c c1 v, c < c1 ->
  StronglySorted Z.le (of_pairs (sel c c1 v)) /\ Forall (fun p => c <= p <= c1) (of_pairs (sel c c1 v)).

Lemma sorted_app l1 l2 m :
  StronglySorted Z.le l1 -> StronglySorted Z.le l2 ->
  Forall (fun x => x <= m) l1 -> Forall (fun x => m <= x) l2 -> StronglySorted Z.le (l1 ++ l2).
Proof.
  intros H1 H2 Hm1 Hm2. induction H1 as [|x l1 Hl1 IH Hx]; [done|]. inversion_clear Hm1. cbn [app].
  constructor; [by apply IH|]. apply Forall_app. split; [done|]. eapply Forall_impl; [exact Hm2|simpl; lia].
Qed.

Lemma run_pairs_sorted rs c :
  sel_ok -> Forall (fun r => 0 < r.1) rs ->
  StronglySorted Z.le (of_pairs (run_pairs rs c)) /\
  Forall (fun p => c <= p <= c + runs_total rs) (of_pairs (run_pairs rs c)).
Proof.
  intros Hsel Hpos. revert c. induction Hpos as [|[n v] rs Hn Hpos IH]; intros c; simpl in *.
  { split; constructor. }
  rewrite of_pairs_app. destruct (Hsel c (c + n) v ltac:(lia)) as [Hs1 Hb1].
  destruct (IH (c + n)) as [Hs2 Hb2]. pose proof (runs_total_nonneg _ Hpos). split.
  - apply (sorted_app _ _ (c + n)); [done..| |]; (eapply Forall_impl; [eassumption|simpl; lia]).
  - apply Forall_app. split; (eapply Forall_impl; [eassumption|simpl; lia]).
Qed.

Lemma in_pairs_app l1 l2 x : in_pairs (l1 ++ l2) x <-> in_pairs l1 x \/ in_pairs l2 x.
Proof.
  unfold in_pairs. setoid_rewrite elem_of_app. split.
  - intros (a & b & [?|?] & ?); [left|right]; by exists a, b.
  - intros [(a & b & ? & ?)|(a & b & ? & ?)]; exists a, b; auto.
Qed.

Lemma in_pairs_bounds l x lo hi :
  Forall (fun p => lo <= p <= hi) (of_pairs l) -> in_pairs l x -> lo <= x < hi.
Proof.
  intros Hf (a & b & Hin & Hx). induction l as [|[a' b'] l IH]; [by apply elem_of_nil in Hin|].
  cbn [of_pairs] in Hf. inversion_clear Hf as [|?? Ha Hf']. inversion_clear Hf' as [|?? Hb Hf].
  apply elem_of_cons in Hin as [[= -> ->]|Hin]; [lia|by apply IH].
Qed.

(** [P c v x] says that the character [x] of a run from [c] with value [v] is selected. *)
Definition sel_spec (P : Z -> V -> Z -> Prop) : Prop :=
  sel_ok /\ forall c c1 v x, c <= x < c1 -> in_pairs (sel c c1 v) x <-> P c v x.

Lemma in_run_pairs P rs c x :
  sel_spec P -> Forall (fun r => 0 < r.1) rs -> c <= x ->
  in_pairs (run_pairs rs c) x <-> exists c0 v, run_at rs c x = Some (c0, v) /\ P c0 v x.
Proof.
  intros [Hsel HP] Hpos. revert c. induction Hpos as [|[n v] rs Hn Hpos IH]; intros c Hx; simpl in *.
  { split; [intros (a & b & Hin & _); by apply elem_of_nil in Hin|intros (? & ? & ? & _); done]. }
  rewrite in_pairs_app. destruct (Z.ltb_spec x (c + n)).
  - rewrite HP by lia. split.
    + intros [Hin|Hin]; [by exists c, v|].
      apply (in_pairs_bounds _ _ (c + n) (c + n + runs_total rs)) in Hin; [lia|]. by apply run_pairs_sorted.
    + intros (c0 & v' & [= <- <-] & Hin). by left.
  - rewrite IH by lia. split; [intros [Hin|?]; [|done]|by right].
    destruct (Hsel c (c + n) v) as [_ Hb]; [lia|]. apply (in_pairs_bounds _ _ _ _ Hb) in Hin. lia.
Qed.

(** The loop over a table computes the set of selected characters. *)
Lemma table_loop_spec P table rs cr :
  sel_spec P -> table_runs (S (length table)) table = Some rs -> runs_ok rs = true ->
  cr_ok cr -> pts cr = [] ->
  exists cr' r, table_loop entry sel (S (length table)) table 0 cr = Some (cr', r) /\ cr_ok cr' /\
    ((r = -1 /\ ~ alloc_total) \/
     (r = 0 /\ cr_sorted (pts cr') /\ Forall (fun p => 0 <= p <= 0x110000) (pts cr') /\
      forall x, 0 <= x -> cr_mem (pts cr') x = true <-> exists c0 v, run_at rs 0 x = Some (c0, v) /\ P c0 v x)).
Proof.
  intros HP Hr Hok Hcr Hempty. unfold runs_ok in Hok. bool_props.
  assert (Hpos : Forall (fun r => 0 < r.1) rs).
  { apply Forall_forall. intros r Hin. rewrite forallb_forall in *.
    match goal with H : forall x, In x rs -> _ |- _ => specialize (H r (proj1 (list_elem_of_In _ _) Hin)) end. by bool_props. }
  rewrite (table_loop_runs _ _ _ _ rs) by (done || lia).
  destruct (cr_add_intervals_spec (run_pairs rs 0) cr Hcr) as (cr' & r & -> & Hcr' & [[-> Hp]|[-> Hna]]);
    do 2 eexists; (split; [done|]; split; [done|]); [right|by left].
  rewrite Hempty in Hp. cbn [app] in Hp. destruct (run_pairs_sorted rs 0 (proj1 HP) Hpos) as [Hs Hb].
  assert (Hso : cr_sorted (of_pairs (run_pairs rs 0))).
  { split; [done|]. rewrite length_of_pairs. by exists (length (run_pairs rs 0)). }
  rewrite Hp. split_and!; [done..| |].
  - eapply Forall_impl; [exact Hb|]. simpl. intros y Hy.
    lia.
  - intros x Hx. rewrite cr_mem_in_pairs, to_of_pairs by done. by apply in_run_pairs.
Qed.
End Sel.
End Runs.

(** [cr] is a sorted set of 32-bit points, and [P] decides its code points. *)
Record cr_is `{!Allocator} (cr : CharRange) (P : Z -> bool) : Prop := {
  cr_is_ok : cr_ok cr;
  cr_is_sorted : cr_sorted (pts cr);
  cr_is_bounds : Forall (fun p => 0 <= p <= UINT32_MAX) (pts cr);
  cr_is_mem : forall x, 0 <= x <= 0x10ffff -> cr_mem (pts cr) x = P x }.

(** The result of a set operation: an allocation failure, or the set [P]. *)
Definition gives `{!Allocator} (m : option (CharRange * Z)) (P : Z -> bool) : Prop :=
  exists cr r, m = Some (cr, r) /\ cr_ok cr /\ ((r = -1 /\ ~ alloc_total) \/ (r = 0 /\ cr_is cr P)).

(** A function that fills an empty set. *)
Definition fills `{!Allocator} (f : CharRange -> option (CharRange * Z)) (P : Z -> bool) : Prop :=
  forall cr, cr_ok cr -> pts cr = [] -> gives (f cr) P.

(** *** General categories *)

Definition gc_runs : list (Z * Z) := default [] (table_runs gc_entry (S (length unicode_gc_table)) unicode_gc_table).

(** The general category of the character [x] of a run from [c0]. *)
Definition gc_value (c0 v x : Z) : Z :=
  if v =? 31 then if Z.even (x - c0) then gc_idx UNICODE_GC_Lu else gc_idx UNICODE_GC_Ll else v.

(** The general category of a character, by the runs of a table. *)
Definition gc_at (rs : list (Z * Z)) (x : Z) : option Z :=
  '(c0, v) ← run_at rs 0 x; Some (gc_value c0 v x).

Definition gc_of (x : Z) : option Z := gc_at gc_runs x.

(** The loop over a table, for a property that decides the selection. *)
Lemma table_fills `{!Allocator} {V} entry sel (P : Z -> V -> Z -> Prop) table rs (Q : Z -> bool) :
  sel_spec sel P -> table_runs entry (S (length table)) table = Some rs -> runs_ok rs = true ->
  (forall x, 0 <= x <= 0x10ffff ->
    Q x = true <-> exists c0 v, run_at rs 0 x = Some (c0, v) /\ P c0 v x) ->
  fills (table_loop entry sel (S (length table)) table 0) Q.
Proof.
  intros HP Hr Hro HQ cr Hok He.
  destruct (table_loop_spec entry _ _ _ _ cr HP Hr Hro Hok He) as (cr' & r & Heq & Hok' & Hc).
  exists cr', r. split; [done|]. split; [done|].
  destruct Hc as [?|(-> & Hs & Hb & Hm)]; [by left|right]. split; [done|]. split; try done.
  - eapply Forall_impl; [exact Hb|]. unfold UINT32_MAX. simpl. lia.
  - intros x Hx. apply eq_bool_prop_intro. rewrite !Is_true_true, Hm, HQ by lia. done.
Qed.

Lemma gc_runs_ok :
  table_runs gc_entry (S (length unicode_gc_table)) unicode_gc_table = Some gc_runs /\ runs_ok gc_runs = true.
Proof. split; vm_compute; reflexivity. Qed.

Lemma gc_runs_total : runs_total gc_runs = 0x110000.
Proof. vm_compute. reflexivity. Qed.

Lemma singleton_sel (b : bool) c c1 :
  c < c1 ->
  let l := if b then [(c, c1)] else [] in
  (StronglySorted Z.le (of_pairs l) /\ Forall (fun p => c <= p <= c1) (of_pairs l)) /\
  forall x, c <= x < c1 -> in_pairs l x <-> b = true.
Proof.
  intros Hc. destruct b; cbn [of_pairs].
  - split; [split; repeat constructor; lia|]. intros x Hx. split; [done|].
    intros _. exists c, c1. split; [by apply list_elem_of_here|done].
  - split; [split; constructor|]. intros x Hx. split; [|done]. intros (a & b & Hin & _). by apply elem_of_nil in Hin.
Qed.

(** Every other character of an interval. *)
Definition every_other (c0 c : Z) : list (Z * Z) :=
  map (fun i => (c0 + 2 * Z.of_nat i, c0 + 2 * Z.of_nat i + 1)) (seq 0 (Z.to_nat ((c - c0 + 1) / 2))).

Lemma every_other_sorted c0 k m :
  StronglySorted Z.le (of_pairs (map (fun i => (c0 + 2 * Z.of_nat i, c0 + 2 * Z.of_nat i + 1)) (seq m k))) /\
  Forall (fun p => c0 + 2 * Z.of_nat m <= p <= c0 + 2 * Z.of_nat (m + k) - 1)
    (of_pairs (map (fun i => (c0 + 2 * Z.of_nat i, c0 + 2 * Z.of_nat i + 1)) (seq m k))).
Proof.
  revert m. induction k as [|k IH]; intros m; cbn [seq map of_pairs]; [split; constructor|].
  destruct (IH (S m)) as [Hs Hb]. split.
  - do 2 constructor; try done; try constructor; try lia; (eapply Forall_impl; [exact Hb|simpl; lia]).
  - do 2 (constructor; [lia|]). eapply Forall_impl; [exact Hb|simpl; lia].
Qed.

Lemma every_other_spec c0 c x :
  c0 <= c -> c0 <= x < c -> in_pairs (every_other c0 c) x <-> Z.even (x - c0) = true.
Proof.
  intros Hc Hx. unfold every_other. split.
  - intros (a & b & Hin & Hab). apply list_elem_of_In, in_map_iff in Hin as (i & [= <- <-] & _).
    replace (x - c0) with (2 * Z.of_nat i) by lia. by rewrite Z.even_mul.
  - intros He. apply Z.even_spec in He as [k Hk]. exists (c0 + 2 * k), (c0 + 2 * k + 1). split; [|lia].
    apply list_elem_of_In, in_map_iff. exists (Z.to_nat k). split; [f_equal; lia|]. apply in_seq.
    assert (k < (c - c0 + 1) / 2) by zdm. lia.
Qed.

(** A bit of a mask, tested as the code does. *)
Lemma land_bit m i : 0 <= i -> (m .& (1 ≪ i) =? 0) = negb (Z.testbit m i).
Proof.
  intros Hi. destruct (Z.testbit m i) eqn:Hb; simpl.
  - apply Z.eqb_neq. intros H0. apply (f_equal (fun z => Z.testbit z i)) in H0.
    rewrite Z.land_spec, Z.shiftl_spec, Z.sub_diag, Hb, Z.bits_0 in H0 by lia. done.
  - apply Z.eqb_eq. apply Z.bits_inj'. intros n Hn. rewrite Z.land_spec, Z.shiftl_spec, Z.bits_0 by lia.
    destruct (Z.eq_dec n i) as [->|Hne]; [by rewrite Hb|].
    destruct (Z.ltb_spec n i); [rewrite (Z.testbit_neg_r 1) by lia; apply andb_false_r|].
    rewrite (Z.bits_above_log2 1); [apply andb_false_r|lia|simpl; lia].
Qed.

Lemma shift_bit m i : 0 <= i -> ((m ≫ i) .& 1 =? 0) = negb (Z.testbit m i).
Proof.
  intros Hi. rewrite land_1. rewrite <- Z.bit0_odd, Z.shiftr_spec, Z.add_0_l by lia. by destruct (Z.testbit m i).
Qed.

Lemma gc_letters_bits m :
  let b := m .& (GC_M UNICODE_GC_Lu .| GC_M UNICODE_GC_Ll) in
  (b =? 0) = negb (Z.testbit m 1) && negb (Z.testbit m 2) /\
  (b =? GC_M UNICODE_GC_Lu .| GC_M UNICODE_GC_Ll) = Z.testbit m 1 && Z.testbit m 2.
Proof.
  cbv zeta. change (GC_M UNICODE_GC_Lu .| GC_M UNICODE_GC_Ll) with 6.
  assert (Hb : m .& 6 = 2 * b2z (Z.testbit m 1) + 4 * b2z (Z.testbit m 2)).
  { apply Z.bits_inj'. intros n Hn. rewrite Z.land_spec.
    destruct (Z.eq_dec n 0) as [->|]; [destruct (Z.testbit m 0), (Z.testbit m 1), (Z.testbit m 2); done|].
    destruct (Z.eq_dec n 1) as [->|]; [destruct (Z.testbit m 1), (Z.testbit m 2); done|].
    destruct (Z.eq_dec n 2) as [->|]; [destruct (Z.testbit m 1), (Z.testbit m 2); done|].
    rewrite (Z.bits_above_log2 6) by (simpl; lia). rewrite andb_false_r. symmetry.
    destruct (Z.testbit m 1), (Z.testbit m 2); cbn [b2z]; simpl; [..|apply Z.bits_0];
      apply Z.bits_above_log2; simpl; lia. }
  rewrite Hb. destruct (Z.testbit m 1), (Z.testbit m 2); done.
Qed.

(** The characters of a run that have a category of the mask. *)
Definition gc_selected (gc_mask c0 v x : Z) : Prop :=
  ((gc_mask ≫ gc_value c0 v x) .& 1 =? 0) = false.

(** A run whose characters alternate between two categories. *)
Lemma alternate_sel c c1 (odd : bool) :
  c < c1 ->
  let l := every_other (c + b2z odd) c1 in
  (StronglySorted Z.le (of_pairs l) /\ Forall (fun p => c <= p <= c1) (of_pairs l)) /\
  forall x, c <= x < c1 -> in_pairs l x <-> Z.even (x - c) = negb odd.
Proof.
  intros Hc l. assert (Hn : 0 <= b2z odd <= 1) by (destruct odd; simpl; lia).
  destruct (every_other_sorted (c + b2z odd) (Z.to_nat ((c1 - (c + b2z odd) + 1) / 2)) 0) as [Hs Hb].
  split; [split; [exact Hs|]|].
  - eapply Forall_impl; [exact Hb|]. simpl. intros x Hx.
    assert ((c1 - (c + b2z odd) + 1) / 2 * 2 <= c1 - (c + b2z odd) + 1) by zdm. lia.
  - intros x Hx. destruct (Z.leb_spec (c + b2z odd) x).
    + unfold l. rewrite every_other_spec by lia.
      replace (x - c) with (x - (c + b2z odd) + b2z odd) by lia.
      destruct odd; cbn [b2z negb]; [|by rewrite !Z.add_0_r].
      replace (x - (c + 1) + 1) with (Z.succ (x - (c + 1))) by lia. rewrite Z.even_succ, <- Z.negb_even.
      destruct (Z.even _); done.
    + split; [intros Hin|].
      * apply (in_pairs_bounds _ _ _ _ Hb) in Hin. lia.
      * replace (x - c) with 0 by (destruct odd; simpl in *; lia). destruct odd; [done|]. simpl in *. lia.
Qed.

Lemma gc_sel_spec gc_mask : sel_spec (gc_sel gc_mask) (gc_selected gc_mask).
Proof.
  assert (H : forall c c1 v, c < c1 ->
    (StronglySorted Z.le (of_pairs (gc_sel gc_mask c c1 v)) /\
     Forall (fun p => c <= p <= c1) (of_pairs (gc_sel gc_mask c c1 v))) /\
    forall x, c <= x < c1 -> in_pairs (gc_sel gc_mask c c1 v) x <-> gc_selected gc_mask c v x).
  { intros c c1 v Hc. unfold gc_selected, gc_value. setoid_rewrite <- (not_true_iff_false (_ =? 0)).
    unfold gc_sel. destruct (v =? 31).
    - pose proof (gc_letters_bits gc_mask) as [Hb0 Hb6]. cbv zeta in Hb0, Hb6. cbv zeta. rewrite Hb0, Hb6.
      change (GC_M UNICODE_GC_Ll) with (1 ≪ 2). rewrite land_bit, negb_involutive by lia.
      assert (Hsel : forall x, ((gc_mask ≫ (if Z.even (x - c) then gc_idx UNICODE_GC_Lu else gc_idx UNICODE_GC_Ll)) .& 1 =? 0) =
        negb (Z.testbit gc_mask (if Z.even (x - c) then 1 else 2))) by (intros x; apply shift_bit; by destruct (Z.even _)).
      setoid_rewrite Hsel. destruct (Z.testbit gc_mask 1) eqn:H1, (Z.testbit gc_mask 2) eqn:H2; cbn [negb andb].
      + destruct (singleton_sel true c c1 Hc) as [Hs Hm]. split; [exact Hs|]. intros x Hx. rewrite Hm by done.
        destruct (Z.even _); rewrite ?H1, ?H2; done.
      + destruct (alternate_sel c c1 false Hc) as [Hs Hm]. split; [exact Hs|]. intros x Hx.
        change (b2z false) with 0 in *. rewrite Hm by done. destruct (Z.even _); rewrite ?H1, ?H2; simpl; intuition congruence.
      + destruct (alternate_sel c c1 true Hc) as [Hs Hm]. split; [exact Hs|]. intros x Hx.
        rewrite Hm by done. destruct (Z.even _); rewrite ?H1, ?H2; simpl; intuition congruence.
      + destruct (singleton_sel false c c1 Hc) as [Hs Hm]. split; [exact Hs|]. intros x Hx. rewrite Hm by done.
        destruct (Z.even _); rewrite ?H1, ?H2; simpl; intuition congruence.
    - pose proof (singleton_sel (negb ((gc_mask ≫ v) .& 1 =? 0)) c c1 Hc) as [Hs Hm].
      destruct ((gc_mask ≫ v) .& 1 =? 0); cbn [negb] in *; (split; [exact Hs|]); intros x Hx; rewrite Hm by done;
        intuition congruence. }
  split; [intros c c1 v Hc; by apply H|]. intros c c1 v x Hx. apply H; [lia|done].
Qed.

Lemma gc_values_ok : forallb (fun r => 0 <=? r.2) gc_runs = true.
Proof. vm_compute. reflexivity. Qed.

Lemma run_at_value {V} (rs : list (Z * V)) c x c0 v : run_at rs c x = Some (c0, v) -> exists n, (n, v) ∈ rs.
Proof.
  revert c. induction rs as [|[n w] rs IH]; intros c; simpl; [done|]. destruct (x <? c + n).
  - intros [= <- <-]. exists n. apply list_elem_of_here.
  - intros [m Hm]%IH. exists m. by apply list_elem_of_further.
Qed.

Lemma run_at_cover {V} (rs : list (Z * V)) c x : c <= x < c + runs_total rs -> is_Some (run_at rs c x).
Proof.
  revert c. induction rs as [|[n w] rs IH]; intros c Hx; simpl in *; [lia|].
  destruct (Z.ltb_spec x (c + n)); [by eexists|]. apply IH. lia.
Qed.

(** Every code point has a general category. *)
Lemma gc_at_total rs x :
  runs_total rs = 0x110000 -> forallb (fun r => 0 <=? r.2) rs = true -> 0 <= x <= 0x10ffff ->
  exists g, gc_at rs x = Some g /\ 0 <= g.
Proof.
  intros Ht Hv Hx. unfold gc_at. destruct (run_at_cover rs 0 x) as [[c0 v] Hr]; [rewrite Ht; lia|].
  rewrite Hr. cbn [mbind option_bind]. eexists. split; [reflexivity|]. unfold gc_value.
  destruct (run_at_value _ _ _ _ _ Hr) as [n Hin]. rewrite forallb_forall in Hv.
  specialize (Hv (n, v) (proj1 (list_elem_of_In _ _) Hin)). simpl in Hv. bool_props.
  destruct (v =? 31); [destruct (Z.even _); simpl; lia|lia].
Qed.

(** The characters with a category of the mask. *)
Definition in_gc (rs : list (Z * Z)) (gc_mask x : Z) : bool :=
  match gc_at rs x with Some g => Z.testbit gc_mask g | None => false end.

Lemma gc_table_fills `{!Allocator} table rs gc_mask :
  table_runs gc_entry (S (length table)) table = Some rs -> runs_ok rs = true -> runs_total rs = 0x110000 ->
  forallb (fun r => 0 <=? r.2) rs = true ->
  fills (table_loop gc_entry (gc_sel gc_mask) (S (length table)) table 0) (in_gc rs gc_mask).
Proof.
  intros Hr Hro Ht Hv. eapply table_fills; [apply gc_sel_spec|done..|].
  intros x Hx. unfold in_gc. destruct (gc_at_total rs x Ht Hv Hx) as (g & Hg & Hg0). rewrite Hg.
  unfold gc_at in Hg. destruct (run_at rs 0 x) as [[c0 v]|]; [|done]. injection Hg as Hg.
  unfold gc_selected. split.
  - intros Hb. exists c0, v. split; [done|]. by rewrite Hg, shift_bit, Hb.
  - intros (? & ? & [= <- <-] & Hsel). by rewrite Hg, shift_bit, negb_false_iff in Hsel.
Qed.

Lemma unicode_general_category1_fills `{!Allocator} gc_mask :
  fills (fun cr => unicode_general_category1 cr gc_mask) (in_gc gc_runs gc_mask).
Proof. exact (gc_table_fills _ _ gc_mask (proj1 gc_runs_ok) (proj2 gc_runs_ok) gc_runs_total gc_values_ok). Qed.

(** *** Scripts *)

Definition script_runs : list (Z * Z) :=
  default [] (table_runs script_entry (S (length unicode_script_table)) unicode_script_table).
Definition script_ext_runs : list (Z * list Z) :=
  default [] (table_runs script_ext_entry (S (length unicode_script_ext_table)) unicode_script_ext_table).

Lemma script_runs_ok :
  table_runs script_entry (S (length unicode_script_table)) unicode_script_table = Some script_runs /\
  runs_ok script_runs = true.
Proof. split; vm_compute; reflexivity. Qed.

Lemma script_ext_runs_ok :
  table_runs script_ext_entry (S (length unicode_script_ext_table)) unicode_script_ext_table = Some script_ext_runs /\
  runs_ok script_ext_runs = true.
Proof. split; vm_compute; reflexivity. Qed.

(** The script of a character and its script extensions. *)
Definition script_at (rs : list (Z * Z)) (x : Z) : Z := match run_at rs 0 x with Some (_, v) => v | None => 0 end.
Definition script_ext_at (rs : list (Z * list Z)) (x : Z) : list Z :=
  match run_at rs 0 x with Some (_, v) => v | None => [] end.

Definition script_of (x : Z) : Z := script_at script_runs x.
Definition script_ext_of (x : Z) : list Z := script_ext_at script_ext_runs x.

(** Whole runs are selected by a property of their value. *)
Lemma whole_sel_spec {V} (f : V -> bool) (sel : Z -> Z -> V -> list (Z * Z)) :
  (forall c c1 v, sel c c1 v = if f v then [(c, c1)] else []) -> sel_spec sel (fun _ v _ => f v = true).
Proof.
  intros Hf. split.
  - intros c c1 v Hc. rewrite Hf. by apply singleton_sel.
  - intros c c1 v x Hx. rewrite Hf. apply singleton_sel; lia.
Qed.

Lemma whole_table_fills `{!Allocator} {V} entry (f : V -> bool) sel table rs (dflt : V) :
  (forall c c1 v, sel c c1 v = if f v then [(c, c1)] else []) -> f dflt = false ->
  table_runs entry (S (length table)) table = Some rs -> runs_ok rs = true ->
  fills (table_loop entry sel (S (length table)) table 0)
    (fun x => f (match run_at rs 0 x with Some (_, v) => v | None => dflt end)).
Proof.
  intros Hsel Hd Hr Hro. eapply table_fills; [by apply (whole_sel_spec f)|done..|].
  intros x Hx. destruct (run_at rs 0 x) as [[c0 v]|].
  - split; [by exists c0, v|by intros (? & ? & [= <- <-] & ?)].
  - rewrite Hd. split; [done|by intros (? & ? & ? & _)].
Qed.

Lemma script_fills `{!Allocator} idx :
  0 < idx ->
  fills (table_loop script_entry (script_sel idx) (S (length unicode_script_table)) unicode_script_table 0)
    (fun x => script_of x =? idx).
Proof.
  intros Hi. exact (whole_table_fills script_entry (fun v => v =? idx) (script_sel idx) _ _ 0
    (fun c c1 v => eq_refl) (proj2 (Z.eqb_neq 0 idx) ltac:(lia)) (proj1 script_runs_ok) (proj2 script_runs_ok)).
Qed.

(** What the extensions of a character say of a script. *)
Definition ext_selects (common : bool) (idx : Z) (v : list Z) : bool :=
  if common then negb (zlen v =? 0) else bool_decide (idx ∈ v).

Lemma script_ext_fills `{!Allocator} common idx :
  fills (table_loop script_ext_entry (script_ext_sel common idx) (S (length unicode_script_ext_table)) unicode_script_ext_table 0)
    (fun x => ext_selects common idx (script_ext_of x)).
Proof.
  refine (whole_table_fills script_ext_entry (ext_selects common idx) (script_ext_sel common idx) _ _ []
    _ _ (proj1 script_ext_runs_ok) (proj2 script_ext_runs_ok)).
  - intros c c1 v. unfold script_ext_sel, ext_selects. destruct common; [by destruct (zlen v =? 0)|done].
  - by destruct common.
Qed.

(** Membership in the script [idx], or in its extension. *)
Definition in_script (is_ext : bool) (idx x : Z) : bool :=
  if is_ext then
    if is_common idx then (script_of x =? idx) && (zlen (script_ext_of x) =? 0)
    else (script_of x =? idx) || bool_decide (idx ∈ script_ext_of x)
  else script_of x =? idx.

(** *** Combining sets *)

Lemma canonical_bounds l lo hi :
  cr_canonical l -> (forall c, cr_mem l c = true -> lo <= c < hi) -> Forall (fun p => lo <= p <= hi) l.
Proof.
  intros Hc Hm. pose proof (cr_canonical_sorted _ Hc) as Hs. destruct Hc as [Hlt He].
  assert (Hp : forall a b, (a, b) ∈ to_pairs l -> lo <= a < hi /\ lo <= b <= hi).
  { intros a b Hin. assert (Hab : a < b).
    { rewrite <- (of_to_pairs l) in Hlt by done. clear -Hin Hlt. induction (to_pairs l) as [|[x y] t IH].
      - by apply elem_of_nil in Hin.
      - cbn [of_pairs] in Hlt. inversion_clear Hlt as [|?? Hl Hx]. inversion_clear Hl.
        apply elem_of_cons in Hin as [[= -> ->]|Hin]; [by inversion_clear Hx|by apply IH]. }
    assert (lo <= a < hi) by (apply Hm, cr_mem_in_pairs; [done|]; exists a, b; split; [done|lia]).
    assert (lo <= b - 1 < hi) by (apply Hm, cr_mem_in_pairs; [done|]; exists a, b; split; [done|lia]). lia. }
  rewrite <- (of_to_pairs l) by done. clear -Hp. induction (to_pairs l) as [|[a b] t IH]; [constructor|].
  cbn [of_pairs]. destruct (Hp a b (list_elem_of_here _ _)) as [??].
  do 2 (constructor; [lia|]). apply IH. intros x y Hin. apply Hp. by apply list_elem_of_further.
Qed.

Section Combine.
Context `{!Allocator}.

Lemma empty_len cr : cr_ok cr -> pts cr = [] -> cr_len cr = 0.
Proof. intros Hok He. rewrite <- zlen_pts by done. by rewrite He. Qed.

Lemma cr_op_gives op cr a b P Q :
  cr_ok cr -> pts cr = [] -> cr_is a P -> cr_is b Q ->
  gives (cr_op cr (pts a) (pts b) op) (fun x => op_bool op (P x) (Q x)).
Proof.
  intros Hok He [Hoa Hsa Hba Hma] [Hob Hsb Hbb Hmb].
  destruct (cr_op_spec cr (pts a) (pts b) op Hok (empty_len _ Hok He) Hsa Hsb)
    as (cr' & r & -> & Hok' & Hc). exists cr', r. split; [done|]. split; [done|].
  destruct Hc as [?|(-> & Hcan & Hm)]; [by left|right]. split; [done|]. split; [done|..].
  - by apply cr_canonical_sorted.
  - apply canonical_bounds; [done|]. intros c. rewrite Hm. intros Hc.
    destruct (cr_mem (pts a) c) eqn:Ha.
    { pose proof (cr_mem_range _ _ 0 UINT32_MAX Hba (proj2 Hsa) Ha). done. }
    destruct (cr_mem (pts b) c) eqn:Hb.
    { pose proof (cr_mem_range _ _ 0 UINT32_MAX Hbb (proj2 Hsb) Hb). done. }
    by destruct op.
  - intros x Hx. by rewrite Hm, Hma, Hmb.
Qed.

Lemma cr_invert_gives cr P : cr_is cr P -> gives (cr_invert cr) (fun x => negb (P x)).
Proof.
  intros [Hok Hs Hb Hm].
  destruct (cr_invert_spec cr Hok Hs) as (cr' & r & -> & Hok' & Hc).
  { eapply Forall_impl; [exact Hb|]. unfold in_u, UINT32_MAX. simpl. lia. }
  exists cr', r. split; [done|]. split; [done|]. destruct Hc as [?|(-> & Hcan & Hmem)]; [by left|right].
  split; [done|]. split; [done|by apply cr_canonical_sorted|..].
  - apply canonical_bounds; [done|]. intros c. rewrite Hmem. intros. bool_props. lia.
  - intros x Hx. rewrite Hmem, Hm by done. unfold UINT32_MAX.
    destruct (Z.leb_spec 0 x), (Z.ltb_spec x 4294967295); try lia. done.
Qed.

Lemma set_cr_opaque_is cr o P : cr_is cr P -> cr_is (set_cr_opaque cr o) P.
Proof. intros [[H1 H2] H3 H4 H5]. by split. Qed.

Lemma cr_is_ext cr P Q : cr_is cr P -> (forall x, 0 <= x <= 0x10ffff -> P x = Q x) -> cr_is cr Q.
Proof. intros [H1 H2 H3 H4] HPQ. split; try done. intros x Hx. by rewrite H4, HPQ. Qed.

Lemma gives_ext m P Q : gives m P -> (forall x, 0 <= x <= 0x10ffff -> P x = Q x) -> gives m Q.
Proof.
  intros (cr & r & -> & Hok & Hc) HPQ. exists cr, r. split; [done|]. split; [done|].
  destruct Hc as [?|[-> ?]]; [by left|right]. split; [done|]. by eapply cr_is_ext.
Qed.

Lemma cr_init_pts o : pts (cr_init o) = [].
Proof. done. Qed.

(** Without allocation failures the set is there. *)
Lemma gives_total m P : alloc_total -> gives m P -> exists cr, m = Some (cr, 0) /\ cr_is cr P.
Proof. intros Ht (cr & r & -> & _ & [[_ ?]|[-> ?]]); [done|by exists cr]. Qed.
End Combine.

(** *** Properties given by a table *)

(** The intervals that [unicode_prop1] adds. *)
Fixpoint prop1_pairs (fuel : nat) (p : list Z) (c : Z) (bit : bool) : option (list (Z * Z)) :=
  match fuel with
  | O => None
  | S fuel' =>
      match p with
      | [] => Some []
      | b :: p =>
          let add (bit : bool) c0 c l := if bit then (c0, c) :: l else l in
          if b <? 64 then
            let c1 := u32 (c + (b ≫ 3) + 1) in
            let c2 := u32 (c1 + (b .& 7) + 1) in
            l ← prop1_pairs fuel' p c2 bit;
            Some (add bit c c1 (add (negb bit) c1 c2 l))
          else
            '(n, p) ←
              (if 0x80 <=? b then Some (b - 0x80, p)
               else if b <? 0x60 then
                 match p with x :: p => Some (((b - 0x40) ≪ 8) .| x, p) | _ => None end
               else
                 match p with x :: y :: p => Some (((b - 0x60) ≪ 16) .| (x ≪ 8) .| y, p) | _ => None end);
            let c1 := u32 (c + n + 1) in
            l ← prop1_pairs fuel' p c1 (negb bit);
            Some (add bit c c1 l)
      end
  end.

Lemma add_if_intervals `{!Allocator} (bit : bool) c0 c l cr :
  ('(cr, r) ← (if bit then cr_add_interval cr c0 c else Some (cr, 0));
   if r <? 0 then Some (cr, -1) else cr_add_intervals cr l) =
  cr_add_intervals cr (if bit then (c0, c) :: l else l).
Proof. by destruct bit. Qed.

Lemma prop1_loop_pairs `{!Allocator} fuel p c bit cr l :
  prop1_pairs fuel p c bit = Some l -> prop1_loop fuel p c bit cr = cr_add_intervals cr l.
Proof.
  revert p c bit cr l. induction fuel as [|fuel IH]; intros p c bit cr l Hp; [done|].
  cbn [prop1_pairs prop1_loop] in *. destruct p as [|b p]; [by injection Hp as <-|]. cbv zeta in *.
  destruct (b <? 64).
  - destruct (prop1_pairs fuel p _ bit) as [l'|] eqn:Hl; [|done]. injection Hp as <-.
    rewrite <- add_if_intervals. destruct (if bit then _ else _) as [[cr1 r]|]; [|done]. cbn [mbind option_bind].
    destruct (r <? 0); [done|]. rewrite <- add_if_intervals.
    destruct (if negb bit then _ else _) as [[cr2 r2]|]; [|done]. cbn [mbind option_bind].
    destruct (r2 <? 0); [done|]. by apply IH.
  - destruct (if 0x80 <=? b then _ else _) as [[n p']|]; [|done]. cbn [mbind option_bind] in *.
    destruct (prop1_pairs fuel p' _ (negb bit)) as [l'|] eqn:Hl; [|done]. injection Hp as <-.
    rewrite <- add_if_intervals. destruct (if bit then _ else _) as [[cr1 r]|]; [|done]. cbn [mbind option_bind].
    destruct (r <? 0); [done|]. by apply IH.
Qed.

(** Sorted intervals of code points. *)
Definition points_ok (l : list Z) : bool :=
  sortedb l && Nat.even (length l) && forallb (fun x => (0 <=? x) && (x <=? 0x110000)) l.

(** A sequence of intervals appended to an empty set. *)
Lemma appended_is `{!Allocator} cr l :
  points_ok (of_pairs l) = true -> cr_ok cr -> pts cr = [] ++ of_pairs l -> cr_is cr (cr_mem (of_pairs l)).
Proof.
  intros Hl Hok Hp. unfold points_ok in Hl. apply andb_prop in Hl as [Hs Hu]. cbn [app] in Hp.
  split; rewrite ?Hp; [done|by apply cr_sorted_dec|..|done].
  apply Forall_forall. intros x Hx. rewrite forallb_forall in Hu.
  specialize (Hu x (proj1 (list_elem_of_In _ _) Hx)). bool_props. unfold UINT32_MAX. lia.
Qed.

Lemma cr_add_intervals_fills `{!Allocator} l :
  points_ok (of_pairs l) = true -> fills (fun cr => cr_add_intervals cr l) (cr_mem (of_pairs l)).
Proof.
  intros Hl cr Hok He.
  destruct (cr_add_intervals_spec l cr Hok) as (cr' & r & Heq & Hok' & [[-> Hp]|[-> Hna]]);
    (eexists cr', _; split; [exact Heq|]; split; [done|]); [right|by left].
  rewrite He in Hp. split; [done|by apply appended_is].
Qed.

(** The members of a property given by a table. *)
Definition prop_table_mem (idx x : Z) : bool :=
  match zget unicode_prop_table idx with Some t => cr_mem (table_points t) x | None => false end.

Definition prop_table_ok (t : list Z) : bool :=
  match prop1_pairs (S (length t)) t 0 false with
  | Some l => bool_decide (of_pairs l = table_points t) && points_ok (table_points t)
  | None => false
  end.

Lemma prop_tables_ok : forallb prop_table_ok unicode_prop_table = true.
Proof. vm_compute. reflexivity. Qed.

Lemma prop_table_fills `{!Allocator} t :
  prop_table_ok t = true -> fills (prop1_loop (S (length t)) t 0 false) (cr_mem (table_points t)).
Proof.
  unfold prop_table_ok. destruct (prop1_pairs _ t 0 false) as [l|] eqn:Hl; [|done]. intros Hok. bool_props.
  intros cr Hcr He. rewrite (prop1_loop_pairs _ _ _ _ _ l Hl).
  match goal with H : of_pairs l = _ |- _ => rewrite <- H in * end. by apply cr_add_intervals_fills.
Qed.

Lemma tables_fill `{!Allocator} tables idx :
  forallb prop_table_ok tables = true -> 0 <= idx < zlen tables ->
  fills (fun cr => t ← zget tables idx; prop1_loop (S (length t)) t 0 false cr)
    (fun x => match zget tables idx with Some t => cr_mem (table_points t) x | None => false end).
Proof.
  intros Hok Hi. destruct (zget_in_range tables idx Hi) as [t Ht]. rewrite Ht. cbn [mbind option_bind].
  apply prop_table_fills. rewrite forallb_forall in Hok. apply Hok, list_elem_of_In.
  rewrite zget_lookup in Ht by lia. by eapply list_elem_of_lookup_2.
Qed.

Lemma unicode_prop1_fills `{!Allocator} idx :
  0 <= idx < zlen unicode_prop_table -> fills (fun cr => unicode_prop1 cr idx) (prop_table_mem idx).
Proof. exact (tables_fill unicode_prop_table idx prop_tables_ok). Qed.

(** *** Properties given by the case-conversion table *)

Definition case_points (case_mask : Z) : list Z :=
  of_pairs (case1_pairs (case1_mask case_mask) case_mask case_conv_table1).

Lemma case_table_fills `{!Allocator} mask cm table :
  points_ok (of_pairs (case1_pairs mask cm table)) = true ->
  fills (case1_loop mask cm table) (cr_mem (of_pairs (case1_pairs mask cm table))).
Proof.
  intros Hl cr Hok He.
  destruct (case1_loop_spec mask cm table cr Hok) as (cr' & r & Heq & Hok' & [[-> Hp]|[-> Hna]]);
    (eexists cr', _; split; [exact Heq|]; split; [done|]); [right|by left].
  rewrite He in Hp. split; [done|by apply appended_is].
Qed.

Definition case_mask_ok (m : Z) : bool := negb (m =? 0) && points_ok (case_points m).

Lemma case_masks_ok : forallb case_mask_ok [CASE_U; CASE_L; CASE_F; CASE_U .| CASE_L .| CASE_F] = true.
Proof. vm_compute. reflexivity. Qed.

Lemma unicode_case1_fills `{!Allocator} m :
  case_mask_ok m = true -> fills (fun cr => unicode_case1 cr m) (cr_mem (case_points m)).
Proof.
  unfold case_mask_ok. intros [Hm Hp]%andb_prop cr Hok He. unfold unicode_case1. apply negb_true_iff in Hm. rewrite Hm.
  by apply case_table_fills.
Qed.

(** *** Stack programs *)

(** The value of a program at a character, on a stack of booleans. *)
Fixpoint prop_eval (prog : list PropOPEnum) (st : list bool) (x : Z) : bool :=
  match prog with
  | [] => hd false st
  | op :: prog =>
      let binop f := match st with b :: a :: st => prop_eval prog (f a b :: st) x | _ => false end in
      match op with
      | POP_GC a => prop_eval prog (in_gc gc_runs a x :: st) x
      | POP_PROP a => prop_eval prog (prop_table_mem (prop_idx_of a) x :: st) x
      | POP_CASE a => prop_eval prog (cr_mem (case_points a) x :: st) x
      | POP_UNION => binop orb
      | POP_INTER => binop andb
      | POP_XOR => binop xorb
      | POP_INVERT => match st with a :: st => prop_eval prog (negb a :: st) x | [] => false end
      end
  end.

(** The stack discipline of a program, from a depth, and its arguments. *)
Fixpoint prog_ok (prog : list PropOPEnum) (depth : Z) : bool :=
  match prog with
  | [] => depth =? 1
  | op :: prog =>
      match op with
      | POP_GC _ => (depth <? POP_STACK_LEN_MAX) && prog_ok prog (depth + 1)
      | POP_PROP a =>
          (depth <? POP_STACK_LEN_MAX) && (prop_idx_of a <? zlen unicode_prop_table) && prog_ok prog (depth + 1)
      | POP_CASE m => (depth <? POP_STACK_LEN_MAX) && case_mask_ok m && prog_ok prog (depth + 1)
      | POP_UNION | POP_INTER | POP_XOR =>
          (2 <=? depth) && (depth <? POP_STACK_LEN_MAX) && prog_ok prog (depth - 1)
      | POP_INVERT => (1 <=? depth) && prog_ok prog depth
      end
  end.

Lemma prop_idx_nonneg a : 0 <= prop_idx_of a.
Proof. destruct a; cbv; discriminate. Qed.

Section Programs.
Context `{!Allocator}.

(** The result of a program: a failure, or one set on the stack. *)
Definition loop_gives (m : option (list CharRange * aopaque + aopaque)) (P : Z -> bool) : Prop :=
  (exists o, m = Some (inr o) /\ ~ alloc_total) \/ exists s o, m = Some (inl ([s], o)) /\ cr_is s P.

Lemma push_gives f Q prog stack o P :
  fills f Q -> zlen stack < POP_STACK_LEN_MAX ->
  (forall s, cr_is s Q -> loop_gives (prop_ops_loop prog (s :: stack) (cr_opaque s)) P) ->
  loop_gives
    (if zlen stack <? POP_STACK_LEN_MAX then
       '(s, r) ← f (cr_init o);
       if r <? 0 then Some (inr (free_n (S (length stack)) (cr_opaque s)))
       else prop_ops_loop prog (s :: stack) (cr_opaque s)
     else None) P.
Proof.
  intros Hf Hlen Hk. rewrite (proj2 (Z.ltb_lt _ _) Hlen).
  destruct (Hf (cr_init o) (cr_init_ok o) (cr_init_pts o)) as (s & r & -> & _ & [[-> Hna]|[-> Hs]]); cbn [mbind option_bind].
  - left. by eexists.
  - by apply Hk.
Qed.

Lemma binop_gives op prog stack cr1 cr2 P1 P2 o P :
  cr_is cr1 P1 -> cr_is cr2 P2 -> zlen (cr2 :: cr1 :: stack) < POP_STACK_LEN_MAX ->
  (forall s o, cr_is s (fun x => op_bool op (P1 x) (P2 x)) -> loop_gives (prop_ops_loop prog (s :: stack) o) P) ->
  loop_gives
    (if zlen (cr2 :: cr1 :: stack) <? POP_STACK_LEN_MAX then
       '(cr3, r) ← cr_op (cr_init o) (pts cr1) (pts cr2) op;
       if r <? 0 then Some (inr (free_n (S (length (cr2 :: cr1 :: stack))) (cr_opaque cr3)))
       else prop_ops_loop prog (cr3 :: stack) (free_n 2 (cr_opaque cr3))
     else None) P.
Proof.
  intros H1 H2 Hlen Hk. rewrite (proj2 (Z.ltb_lt _ _) Hlen).
  destruct (cr_op_gives op (cr_init o) cr1 cr2 P1 P2 (cr_init_ok o) (cr_init_pts o) H1 H2)
    as (s & r & -> & _ & [[-> Hna]|[-> Hs]]); cbn [mbind option_bind].
  - left. by eexists.
  - by apply Hk.
Qed.

Lemma prop_ops_loop_gives prog stack o Ps :
  prog_ok prog (zlen stack) = true -> Forall2 cr_is stack Ps ->
  loop_gives (prop_ops_loop prog stack o) (fun x => prop_eval prog (map (fun P => P x) Ps) x).
Proof.
  revert stack o Ps. induction prog as [|op prog IH]; intros stack o Ps Hok Hst.
  { cbn [prog_ok] in Hok. bool_props. destruct Hst as [|s P stack Ps Hs Hst]; [done|].
    destruct Hst as [|? ? ? ? _ _]; [|rewrite !zlen_cons in *; pose proof (zlen_nonneg l); lia].
    right. by exists s, o. }
  assert (Hpush : forall Q s, cr_is s Q -> prog_ok prog (zlen stack + 1) = true ->
    loop_gives (prop_ops_loop prog (s :: stack) (cr_opaque s))
      (fun x => prop_eval prog (map (fun P => P x) (Q :: Ps)) x)).
  { intros Q s Hs Hp. apply IH; [|by constructor]. rewrite zlen_cons. by rewrite Z.add_comm. }
  assert (Hbin : forall cop, (2 <=? zlen stack) && (zlen stack <? POP_STACK_LEN_MAX) && prog_ok prog (zlen stack - 1) = true ->
    loop_gives
      match stack with
      | cr2 :: cr1 :: stack' =>
          if zlen stack <? POP_STACK_LEN_MAX then
            '(cr3, r) ← cr_op (cr_init o) (pts cr1) (pts cr2) cop;
            if r <? 0 then Some (inr (free_n (S (length stack)) (cr_opaque cr3)))
            else prop_ops_loop prog (cr3 :: stack') (free_n 2 (cr_opaque cr3))
          else None
      | _ => None
      end
      (fun x => match map (fun P => P x) Ps with b :: a :: st => prop_eval prog (op_bool cop a b :: st) x | _ => false end)).
  { intros cop Hok'. clear Hpush Hok. destruct Hst as [|cr2 P2 stack Ps H2 Hst]; [done|].
    destruct Hst as [|cr1 P1 stack Ps H1 Hst]; [done|]. bool_props. eapply binop_gives; [done..|].
    intros s o' Hs. apply (IH (s :: stack) _ ((fun x => op_bool cop (P1 x) (P2 x)) :: Ps)); [|by constructor].
    match goal with H : prog_ok _ _ = true |- _ => rewrite <- H end. f_equal. rewrite !zlen_cons. lia. }
  destruct op as [a|a|a| | | | ]; cbn [prog_ok] in Hok; cbn [prop_ops_loop];
    [bool_props|bool_props|bool_props|by apply (Hbin CR_OP_UNION)|by apply (Hbin CR_OP_INTER)|by apply (Hbin CR_OP_XOR)|bool_props].
  - apply (push_gives (fun s => unicode_general_category1 s a) (in_gc gc_runs a)); [apply unicode_general_category1_fills|done|].
    intros s Hs. by apply (Hpush (in_gc gc_runs a)).
  - apply (push_gives (fun s => unicode_prop1 s (prop_idx_of a)) (prop_table_mem (prop_idx_of a))); [|done|].
    { apply unicode_prop1_fills. pose proof (prop_idx_nonneg a). done. }
    intros s Hs. by apply (Hpush (prop_table_mem (prop_idx_of a))).
  - apply (push_gives (fun s => unicode_case1 s a) (cr_mem (case_points a))); [by apply unicode_case1_fills|done|].
    intros s Hs. by apply (Hpush (cr_mem (case_points a))).
  - clear Hpush Hbin. destruct Hst as [|s P stack Ps Hs Hst]; [done|].
    destruct (cr_invert_gives (set_cr_opaque s o) P (set_cr_opaque_is _ _ _ Hs))
      as (s' & r & -> & _ & [[-> Hna]|[-> Hs']]); cbn [mbind option_bind]; [left; by eexists|].
    apply (IH (s' :: stack) _ ((fun x => negb (P x)) :: Ps)); [|by constructor].
    match goal with H : prog_ok _ _ = true |- _ => rewrite <- H end. by rewrite !zlen_cons.
Qed.

Lemma cr_copy_gives cr s P : cr_ok cr -> cr_is s P -> gives (cr_copy cr s) P.
Proof.
  intros Hok Hs. unfold cr_copy. destruct (cr_realloc cr (cr_len s)) as [cr1 r] eqn:Hr.
  pose proof (cr_is_ok _ _ Hs) as Hos. pose proof (zlen_pts _ Hos) as Hz. destruct (points_split _ Hos) as (rest & Hsp & _).
  apply cr_realloc_spec in Hr as (Hok1 & Hp & Hlen & [[-> Hsz1]|[-> Hna]]); [..|done]; simpl.
  2:{ exists cr1, (-1). auto. }
  pose proof (zslice_app [] (pts s) rest) as Hsl. rewrite app_nil_l, <- Hsp, Hz in Hsl. change (zlen []) with 0 in Hsl.
  rewrite Hsl. cbn [mbind option_bind]. destruct Hok1 as [H1 H2].
  rewrite zsplice_in_range by (rewrite ?Hz; pose proof (cr_ok_size _ Hos); lia). cbn [mbind option_bind].
  set (l := _ ++ _). assert (Hl : l = pts s ++ drop (length (pts s)) (cr_points cr1)) by done.
  assert (Hlz : zlen l = cr_size cr1).
  { rewrite Hl. unfold zlen in *. rewrite length_app, length_drop. pose proof (cr_ok_size _ Hos). lia. }
  assert (Hpts : pts (set_points cr1 l (cr_len s)) = pts s).
  { unfold pts at 1. simpl cr_len. simpl cr_points. rewrite Hl, <- Hz. unfold zlen. by rewrite Nat2Z.id, take_app_length. }
  assert (Hok' : cr_ok (set_points cr1 l (cr_len s))).
  { split; simpl; [done|]. pose proof (cr_ok_size _ Hos). lia. }
  eexists _, 0. split; [done|]. split; [done|]. right. split; [done|].
  destruct Hs. split; rewrite ?Hpts; done.
Qed.

Lemma gives_map (f : CharRange -> CharRange) m P :
  (forall cr, cr_ok cr -> cr_ok (f cr)) -> (forall cr, cr_is cr P -> cr_is (f cr) P) ->
  gives m P -> gives ('(cr, r) ← m; Some (f cr, r)) P.
Proof.
  intros H1 H2 (cr & r & -> & Hok & Hc). cbn [mbind option_bind]. exists (f cr), r. split; [done|]. split; [auto|].
  destruct Hc as [?|[-> ?]]; auto.
Qed.

Lemma unicode_prop_ops_gives cr prog :
  cr_ok cr -> prog_ok prog 0 = true -> gives (unicode_prop_ops cr prog) (prop_eval prog []).
Proof.
  intros Hok Hp. unfold unicode_prop_ops.
  destruct (prop_ops_loop_gives prog [] (cr_opaque cr) [] Hp ltac:(constructor)) as [(o & -> & Hna)|(s & o & -> & Hs)];
    cbn [mbind option_bind].
  - eexists _, (-1). split; [done|]. split; [by destruct Hok|by left].
  - apply (gives_map (fun cr => set_cr_opaque cr (free_n 1 (cr_opaque cr)))).
    + intros ? []. by split.
    + intros. by apply set_cr_opaque_is.
    + apply cr_copy_gives; [|done]. destruct Hok. by split.
Qed.
End Programs.

(** *** Properties by name *)

(** What a property means. *)
Definition prop_mem (prop : UnicodePropertyEnum) (x : Z) : bool :=
  match prop with
  | UNICODE_PROP_ASCII => x <=? 0x7f
  | UNICODE_PROP_Any => true
  | UNICODE_PROP_Changes_When_Uppercased => cr_mem (case_points CASE_U) x
  | UNICODE_PROP_Changes_When_Lowercased => cr_mem (case_points CASE_L) x
  | UNICODE_PROP_Changes_When_Casemapped => cr_mem (case_points (CASE_U .| CASE_L .| CASE_F)) x
  | _ =>
      match prop_program prop with
      | Some prog => prop_eval prog [] x
      | None => prop_table_mem (prop_idx_of prop) x
      end
  end.

(** The properties that [unicode_prop] knows: not the internal one after the tables. *)
Definition prop_known (prop : UnicodePropertyEnum) : bool :=
  match prop with UNICODE_PROP_Cased1 | UNICODE_PROP_COUNT => false | _ => true end.

Lemma programs_ok :
  forallb (fun p => match prop_program p with Some prog => prog_ok prog 0 | None => true end) unicode_props = true.
Proof. vm_compute. reflexivity. Qed.

Lemma unicode_prop_by_id_fills `{!Allocator} prop :
  prop_known prop = true -> fills (fun cr => unicode_prop_by_id cr prop) (prop_mem prop).
Proof.
  intros Hk cr Hok He.
  assert (Hadd : forall b, 0 <= b <= 0x110000 ->
    gives ('(cr, r) ← cr_add_interval cr 0 b; Some (cr, if r <? 0 then -1 else 0)) (cr_mem [0; b])).
  { intros b Hb. destruct (cr_add_interval_spec cr 0 b Hok) as (cr' & r & -> & Hok' & Hc). cbn [mbind option_bind].
    eexists cr', _. split; [done|]. split; [done|]. destruct Hc as [[-> Hp]|[-> Hna]]; [right|by left].
    split; [done|]. rewrite He in Hp. apply (appended_is _ [(0, b)]); [|done..].
    unfold points_ok. cbn [of_pairs sortedb length Nat.even andb forallb]. bool_cases; done || lia. }
  destruct prop; try discriminate Hk; cbn [unicode_prop_by_id prop_program];
    lazymatch goal with
    | |- gives (unicode_prop_ops _ _) _ => apply unicode_prop_ops_gives; [done|vm_compute; reflexivity]
    | |- gives (unicode_case1 _ _) _ => apply unicode_case1_fills; [vm_compute; reflexivity|done..]
    | |- gives (if _ then _ else _) _ =>
        apply unicode_prop1_fills; [vm_compute; split; [discriminate|reflexivity]|done..]
    | _ => idtac
    end.
  - eapply gives_ext; [apply Hadd; lia|]. intros x Hx. cbn [cr_mem prop_mem]. bool_cases; lia || done.
  - eapply gives_ext; [apply Hadd; lia|]. intros x Hx. cbn [cr_mem prop_mem]. bool_cases; lia || done.
Qed.

(** *** Names *)

(** The names of an entry. *)
Fixpoint split_names (s : list Z) : list (list Z) :=
  match s with
  | [] => [[]]
  | c :: s =>
      match split_names s with
      | f :: fs => if c =? ch "," then [] :: f :: fs else (c :: f) :: fs
      | [] => []
      end
  end.

(** The position of the first entry that has the name. *)
Fixpoint name_index (entries : list (list (list Z))) (name : list Z) : option Z :=
  match entries with
  | [] => None
  | fs :: entries =>
      if bool_decide (name ∈ fs) then Some 0 else Z.succ <$> name_index entries name
  end.

(** The bytes of an entry with the names [fs]. *)
Fixpoint join_names (fs : list (list Z)) : list Z :=
  match fs with
  | [] => []
  | [f] => f ++ [0]
  | f :: fs => f ++ ch "," :: join_names fs
  end.

Definition name_ok (f : list Z) : bool :=
  negb (bool_decide (f = [])) && forallb (fun c => negb (c =? 0) && negb (c =? ch ",")) f.
Definition entries_ok (es : list (list (list Z))) : bool :=
  forallb (fun fs => negb (bool_decide (fs = [])) && forallb name_ok fs) es.

Lemma name_field_spec f sep rest :
  forallb (fun c => negb (c =? 0) && negb (c =? ch ",")) f = true -> sep = 0 \/ sep = ch "," ->
  name_field (f ++ sep :: rest) = Some (f, sep =? ch ",", rest).
Proof.
  intros Hf Hs. induction f as [|c f IH]; cbn [app name_field].
  - destruct Hs as [->| ->]; reflexivity.
  - cbn [forallb] in Hf. bool_props.
    destruct (Z.eqb_spec c (ch ",")), (Z.eqb_spec c 0); try done. by rewrite IH.
Qed.

Lemma find_name_fields fuel fs tail name pos inner :
  fs <> [] -> forallb name_ok fs = true -> (length (join_names fs ++ tail) <= fuel)%nat ->
  exists fuel', (length tail <= fuel')%nat /\
  find_name_loop fuel inner (join_names fs ++ tail) name pos =
    if bool_decide (name ∈ fs) then Some pos else find_name_loop fuel' false tail name (pos + 1).
Proof.
  revert fuel inner. induction fs as [|f fs IH]; intros fuel inner Hne Hok Hlen; [done|].
  cbn [forallb] in Hok. apply andb_prop in Hok as [Hf Hok]. unfold name_ok in Hf.
  apply andb_prop in Hf as [Hfne Hfc]. apply negb_true_iff, bool_decide_eq_false in Hfne.
  destruct f as [|c f]; [done|]. assert (Hc0 : (c =? 0) = false) by (cbn [forallb] in Hfc; bool_props; by apply Z.eqb_neq).
  destruct fuel as [|fuel]; [destruct fs; simpl in Hlen; lia|].
  set (sep := match fs with [] => 0 | _ => ch "," end).
  assert (Hj : exists rest, join_names ((c :: f) :: fs) ++ tail = (c :: f) ++ sep :: rest /\
    rest = match fs with [] => tail | _ => join_names fs ++ tail end).
  { subst sep. destruct fs; eexists; cbn [join_names]; by rewrite <- app_assoc. }
  destruct Hj as (rest & Hj & Hrest). rewrite Hj in *. cbn [find_name_loop].
  change (head ((c :: f) ++ sep :: rest)) with (Some c). cbn [mbind option_bind]. rewrite Hc0, andb_false_r.
  rewrite name_field_spec by (done || (subst sep; destruct fs; auto)). cbn [mbind option_bind].
  destruct (decide (c :: f = name)) as [<-|Hn].
  - exists fuel. rewrite !bool_decide_eq_true_2 by (done || apply list_elem_of_here). split; [|done].
    subst rest. rewrite length_app in Hlen. simpl in Hlen. destruct fs; [lia|]. rewrite length_app in Hlen. lia.
  - rewrite (bool_decide_eq_false_2 (c :: f = name)) by done. rewrite length_app in Hlen. simpl in Hlen.
    destruct fs as [|g fs]; subst rest sep.
    + exists fuel. split; [lia|]. rewrite bool_decide_eq_false_2 by (intros ->%list_elem_of_singleton; done). reflexivity.
    + rewrite Z.eqb_refl. destruct (IH fuel true) as (fuel' & Hf' & ->); [done..|lia|]. exists fuel'. split; [done|].
      assert (Hiff : name ∈ (c :: f) :: g :: fs <-> name ∈ g :: fs) 
        by (rewrite (elem_of_cons (g :: fs)); split; [by intros [->|?]|by right]).
      by rewrite (bool_decide_ext _ _ Hiff).
Qed.

(** The lookup finds the first entry with the name. *)
Lemma unicode_find_name_spec entries name :
  entries_ok entries = true ->
  unicode_find_name (flat_map join_names entries ++ [0]) name =
    Some (match name_index entries name with Some i => i | None => -1 end).
Proof.
  intros Hok. unfold unicode_find_name.
  assert (H : forall fuel pos, (length (flat_map join_names entries ++ [0%Z]) <= fuel)%nat ->
    find_name_loop fuel false (flat_map join_names entries ++ [0]) name pos =
      Some (match name_index entries name with Some i => pos + i | None => -1 end)).
  { induction entries as [|fs entries IH]; intros fuel pos Hlen.
    { destruct fuel; [simpl in Hlen; lia|]. done. }
    unfold entries_ok in Hok. cbn [forallb] in Hok. apply andb_prop in Hok as [Hfs Hok].
    apply andb_prop in Hfs as [Hne Hfs]. apply negb_true_iff, bool_decide_eq_false in Hne.
    cbn [flat_map name_index] in *. rewrite <- app_assoc in *.
    destruct (find_name_fields fuel fs (flat_map join_names entries ++ [0]) name pos false Hne Hfs Hlen)
      as (fuel' & Hf' & ->). case_bool_decide; [f_equal; lia|]. rewrite IH by done.
    destruct (name_index entries name); cbn [fmap option_fmap option_map]; f_equal; lia. }
  rewrite H by done. by destruct (name_index entries name).
Qed.

Lemma table_find_name table entries name :
  table = flat_map join_names entries ++ [0] -> entries_ok entries = true ->
  unicode_find_name table name = Some (match name_index entries name with Some i => i | None => -1 end).
Proof. intros ->. apply unicode_find_name_spec. Qed.

Definition gc_entries : list (list (list Z)) := map (fun s => split_names (str s)) unicode_gc_names.
Definition script_entries : list (list (list Z)) := map (fun s => split_names (str s)) unicode_script_names.
Definition prop_entries : list (list (list Z)) := map (fun s => split_names (str s)) unicode_prop_names.

Lemma name_index_range entries name i : name_index entries name = Some i -> 0 <= i < zlen entries.
Proof.
  revert i. induction entries as [|fs entries IH]; intros i; cbn [name_index]; [done|]. rewrite zlen_cons.
  pose proof (zlen_nonneg entries). case_bool_decide; [intros [= <-]; lia|].
  destruct (name_index entries name) as [j|]; [|done]. intros [= <-]. specialize (IH j eq_refl). lia.
Qed.

Lemma gc_names_ok : unicode_gc_name_table = flat_map join_names gc_entries ++ [0] /\ entries_ok gc_entries = true.
Proof. split; vm_compute; reflexivity. Qed.

Lemma script_names_ok :
  unicode_script_name_table = flat_map join_names script_entries ++ [0] /\ entries_ok script_entries = true.
Proof. split; vm_compute; reflexivity. Qed.

Lemma prop_names_ok : unicode_prop_name_table = flat_map join_names prop_entries ++ [0] /\ entries_ok prop_entries = true.
Proof. split; vm_compute; reflexivity. Qed.

(** The category mask of an entry of the names of categories. *)
Definition gc_name_mask (i : Z) : Z :=
  if i <=? gc_idx UNICODE_GC_Co then 1 ≪ i else ztab unicode_gc_mask_table (i - gc_idx UNICODE_GC_LC).

Lemma gc_name_masks_ok :
  forallb (fun k => let i := Z.of_nat k in
    bool_decide ((if i <=? gc_idx UNICODE_GC_Co then Some (u32 (1 ≪ i))
                  else zget unicode_gc_mask_table (i - gc_idx UNICODE_GC_LC)) = Some (gc_name_mask i)))
    (seq 0 (length gc_entries)) = true.
Proof. vm_compute. reflexivity. Qed.

Lemma prop_names_known :
  forallb (fun k => match zget unicode_props (Z.of_nat k + prop_idx_of UNICODE_PROP_ASCII_Hex_Digit) with
                    | Some p => prop_known p | None => false end)
    (seq 0 (length prop_entries)) = true.
Proof. vm_compute. reflexivity. Qed.

(** ** Properties *)

Lemma found_ltb i : 0 <= i -> (i <? 0) = false.
Proof. intros. by apply Z.ltb_ge. Qed.

(** C18: [unicode_general_category] looks a name up in the table of names and fills an
    empty set with exactly the characters whose general category (the value of the run
    of the compressed table that holds them, with upper and lower case alternating in a
    run of type 31) is one of those the name stands for, or reports an allocation
    failure; an unknown name gives -2 and leaves the set alone.  Every code point has a
    category. *)
Theorem unicode_general_category_exact `{!Allocator} cr name :
  cr_ok cr -> pts cr = [] ->
  (forall x, 0 <= x <= 0x10ffff -> is_Some (gc_of x)) /\
  match name_index gc_entries name with
  | Some i => gives (unicode_general_category cr name) (in_gc gc_runs (gc_name_mask i))
  | None => unicode_general_category cr name = Some (cr, -2)
  end.
Proof.
  intros Hok He. split.
  { intros x Hx. destruct (gc_at_total gc_runs x gc_runs_total gc_values_ok Hx) as (g & Hg & _). by exists g. }
  unfold unicode_general_category. rewrite (table_find_name _ _ name (proj1 gc_names_ok) (proj2 gc_names_ok)).
  cbn [mbind option_bind]. destruct (name_index gc_entries name) as [i|] eqn:Hi; [|done].
  apply name_index_range in Hi. rewrite found_ltb by lia.
  pose proof gc_name_masks_ok as Hm. rewrite forallb_forall in Hm.
  specialize (Hm (Z.to_nat i)). cbv zeta in Hm. rewrite Z2Nat.id in Hm by lia.
  unfold zlen in Hi. specialize (Hm ltac:(apply in_seq; lia)). apply bool_decide_eq_true in Hm. rewrite Hm.
  cbn [mbind option_bind]. by apply unicode_general_category1_fills.
Qed.

Lemma unicode_general_category_exact_witness :
  gives (@unicode_general_category malloc_ok (@cr_init malloc_ok tt) (str "Uppercase_Letter"))
    (in_gc gc_runs (gc_name_mask 1)).
Proof.
  exact (proj2 (@unicode_general_category_exact malloc_ok (@cr_init malloc_ok tt) (str "Uppercase_Letter")
    (@cr_init_ok malloc_ok tt) eq_refl)).
Defined.


Lemma malloc_ok_total : @alloc_total malloc_ok.
Proof. intros o n. by eexists. Qed.


(** C17: [unicode_prop] computes every binary property by name: the property tables, the
    case-conversion sets and the stack programs that combine them.  The stack never
    over- or underflows, and the resulting set has exactly the members that evaluating
    the program with booleans at each character gives, unless an allocation fails; an
    unknown name gives -2. *)
Theorem unicode_prop_exact `{!Allocator} cr name :
  cr_ok cr -> pts cr = [] ->
  match name_index prop_entries name with
  | Some i => exists prop, zget unicode_props (i + prop_idx_of UNICODE_PROP_ASCII_Hex_Digit) = Some prop /\
      gives (unicode_prop cr name) (prop_mem prop)
  | None => unicode_prop cr name = Some (cr, -2)
  end.
Proof.
  intros Hok He. unfold unicode_prop.
  rewrite (table_find_name _ _ name (proj1 prop_names_ok) (proj2 prop_names_ok)).
  cbn [mbind option_bind]. destruct (name_index prop_entries name) as [i|] eqn:Hi; [|done].
  apply name_index_range in Hi. rewrite found_ltb by lia.
  pose proof prop_names_known as Hk. rewrite forallb_forall in Hk. specialize (Hk (Z.to_nat i)).
  rewrite Z2Nat.id in Hk by lia. unfold zlen in Hi. specialize (Hk ltac:(apply in_seq; lia)).
  destruct (zget unicode_props (i + _)) as [prop|]; [|done]. exists prop. split; [done|].
  cbn [mbind option_bind]. by apply unicode_prop_by_id_fills.
Qed.

Lemma unicode_prop_exact_witness :
  exists prop, zget unicode_props (35 + prop_idx_of UNICODE_PROP_ASCII_Hex_Digit) = Some prop /\
    gives (@unicode_prop malloc_ok (@cr_init malloc_ok tt) (str "Alpha")) (prop_mem prop).
Proof.
  exact (@unicode_prop_exact malloc_ok (@cr_init malloc_ok tt) (str "Alpha") (@cr_init_ok malloc_ok tt) eq_refl).
Defined.

(** *** Identifiers *)

(** Intervals without a common character. *)
Definition disjointb (l1 l2 : list (Z * Z)) : bool :=
  forallb (fun p => forallb (fun q => (p.2 <=? q.1) || (q.2 <=? p.1)) l2) l1.

(** The additional characters of identifiers are no starts. *)
Lemma id_continue1_disjoint :
  cr_sorted (table_points unicode_prop_ID_Start_table) /\ cr_sorted (table_points unicode_prop_ID_Continue1_table) /\
  disjointb (to_pairs (table_points unicode_prop_ID_Start_table))
    (to_pairs (table_points unicode_prop_ID_Continue1_table)) = true.
Proof. split_and!; [apply cr_sorted_dec|apply cr_sorted_dec|]; vm_compute; reflexivity. Qed.

Lemma disjoint_mem l1 l2 x :
  cr_sorted l1 -> cr_sorted l2 -> disjointb (to_pairs l1) (to_pairs l2) = true ->
  xorb (cr_mem l1 x) (cr_mem l2 x) = cr_mem l1 x || cr_mem l2 x.
Proof.
  intros H1 H2 Hd. destruct (cr_mem l1 x) eqn:M1, (cr_mem l2 x) eqn:M2; try done. exfalso.
  apply cr_mem_in_pairs in M1 as (a & b & Hin1 & Hx1); [|done].
  apply cr_mem_in_pairs in M2 as (c & d & Hin2 & Hx2); [|done]. unfold disjointb in Hd.
  rewrite forallb_forall in Hd. specialize (Hd (a, b) (proj1 (list_elem_of_In _ _) Hin1)).
  rewrite forallb_forall in Hd. specialize (Hd (c, d) (proj1 (list_elem_of_In _ _) Hin2)).
  simpl in Hd. bool_props. lia.
Qed.

Lemma id_tables :
  zget unicode_prop_table (prop_idx_of UNICODE_PROP_ID_Start) = Some unicode_prop_ID_Start_table /\
  zget unicode_prop_table (prop_idx_of UNICODE_PROP_ID_Continue1) = Some unicode_prop_ID_Continue1_table.
Proof. split; reflexivity. Qed.

Lemma id_start_mem x : prop_mem UNICODE_PROP_ID_Start x = cr_mem (table_points unicode_prop_ID_Start_table) x.
Proof. cbn [prop_mem prop_program]. unfold prop_table_mem. by rewrite (proj1 id_tables). Qed.

Lemma id_continue_mem x :
  prop_mem UNICODE_PROP_ID_Continue x =
    xorb (cr_mem (table_points unicode_prop_ID_Start_table) x) (cr_mem (table_points unicode_prop_ID_Continue1_table) x).
Proof.
  cbn [prop_mem prop_program prop_eval hd]. unfold prop_table_mem.
  by rewrite (proj1 id_tables), (proj2 id_tables).
Qed.


