(* ===== verification/UnicodeNorm.v ===== *)
(** Unicode normalization of [libunicode.c]: combining classes, decomposition,
    canonical ordering, composition and [unicode_normalize].

    [None] is an access outside a table, the buffer or the array [res], or a read of an
    element of [pair] that was not written. *)

From S2P Require Import Prelude CutilsH DynBuf CharRange CaseConv UnicodeIndex UnicodeData UnicodeProp.

(** ** Decomposition *)

Definition UNICODE_DECOMP_LEN_MAX : Z := 18.

(** [DecompTypeEnum], at the bounds of the cases that the code distinguishes. *)
Definition DECOMP_TYPE_C1 : Z := 0.
Definition DECOMP_TYPE_L1 : Z := 1.
Definition DECOMP_TYPE_L7 : Z := 7.
Definition DECOMP_TYPE_LL1 : Z := 8.
Definition DECOMP_TYPE_LL2 : Z := 9.
Definition DECOMP_TYPE_S1 : Z := 10.
Definition DECOMP_TYPE_S5 : Z := 14.
Definition DECOMP_TYPE_I1 : Z := 15.
Definition DECOMP_TYPE_I2_0 : Z := 16.
Definition DECOMP_TYPE_I4_2 : Z := 21.
Definition DECOMP_TYPE_B1 : Z := 22.
Definition DECOMP_TYPE_B8 : Z := 29.
Definition DECOMP_TYPE_B18 : Z := 30.
Definition DECOMP_TYPE_LS2 : Z := 31.
Definition DECOMP_TYPE_PAT3 : Z := 32.
Definition DECOMP_TYPE_S2_UL : Z := 33.
Definition DECOMP_TYPE_LS2_UL : Z := 34.

Definition unicode_get_short_code (c : Z) : option Z :=
  if c <? 0x80 then Some c
  else if c <? 0x80 + 0x50 then Some (c - 0x80 + 0x300)
  else zget [0x2044; 0x2215] (c - 0x80 - 0x50).

Definition unicode_get_lower_simple (c : Z) : Z :=
  if (c <? 0x100) || ((0x410 <=? c) && (c <=? 0x42f)) then c + 0x20 else c + 1.

(** Access to the tables of decomposition and composition. *)
Record norm_tables := {
  decomp_table1 : Z -> option Z;
  decomp_table2 : Z -> option Z;
  decomp_data : Z -> option Z;
  comp_table : Z -> option Z;
  decomp_count : Z;
  comp_count : Z }.

Definition unicode_tables : norm_tables := {|
  decomp_table1 := zget unicode_decomp_table1;
  decomp_table2 := zget unicode_decomp_table2;
  decomp_data := zget unicode_decomp_data;
  comp_table := zget unicode_comp_table;
  decomp_count := zlen unicode_decomp_table1;
  comp_count := zlen unicode_comp_table |}.

(** The number of steps of a binary search in less than 2^16 entries. *)
Definition SEARCH_FUEL : nat := 17.

(** [for(i = 0; i < l; i++)] over the values [f i]; with [stop], a zero ends the loop
    and the function returns 0.  The result is the return value and what was stored. *)
Fixpoint decomp_loop (stop : bool) (f : Z -> option Z) (l : nat) (i : Z) : option (bool * list Z) :=
  match l with
  | O => Some (true, [])
  | S l' =>
      v ← f i;
      if stop && (v =? 0) then Some (false, [v])
      else '(b, r) ← decomp_loop stop f l' (i + 1); Some (b, v :: r)
  end.

Definition decomp_seq (stop : bool) (f : Z -> option Z) (l : Z) : option (Z * list Z) :=
  '(b, r) ← decomp_loop stop f (Z.to_nat l) 0; Some ((if (b : bool) then l else 0), r).

Section Tables.
Context (T : norm_tables).

Definition unicode_get16 (d : Z) : option Z :=
  a ← decomp_data T d; b ← decomp_data T (d + 1); Some (a .| (b ≪ 8)).

(** The return value and the values stored in [res] from its start. *)
Definition unicode_decomp_entry (c idx code len type : Z) : option (Z * list Z) :=
  d ← decomp_table2 T idx;
  if type =? DECOMP_TYPE_C1 then Some (1, [d])
  else if (DECOMP_TYPE_L1 <=? type) && (type <=? DECOMP_TYPE_L7) then
    let l := type - DECOMP_TYPE_L1 + 1 in
    let d := d + (c - code) * l * 2 in
    decomp_seq true (fun i => unicode_get16 (d + 2 * i)) l
  else if (DECOMP_TYPE_LL1 <=? type) && (type <=? DECOMP_TYPE_LL2) then
    let l := type - DECOMP_TYPE_LL1 + 1 in
    let k := (c - code) * l in
    let p := len * l * 2 in
    decomp_seq true (fun i =>
      let k := k + i in
      lo ← unicode_get16 (d + 2 * k);
      hi ← decomp_data T (d + (p + k / 4));
      Some (lo .| (((hi ≫ (k mod 4 * 2)) .& 3) ≪ 16))) l
  else if (DECOMP_TYPE_S1 <=? type) && (type <=? DECOMP_TYPE_S5) then
    let l := type - DECOMP_TYPE_S1 + 1 in
    let d := d + (c - code) * l in
    decomp_seq true (fun i => b ← decomp_data T (d + i); unicode_get_short_code b) l
  else if (DECOMP_TYPE_I1 <=? type) && (type <=? DECOMP_TYPE_I4_2) then
    let '(l, p) :=
      if type =? DECOMP_TYPE_I1 then (1, 0)
      else
        let l := 2 + ((type - DECOMP_TYPE_I2_0) ≫ 1) in
        (l, ((type - DECOMP_TYPE_I2_0) .& 1) + b2z (2 <? l)) in
    decomp_seq false (fun i =>
      c1 ← unicode_get16 (d + 2 * i);
      Some (if i =? p then u32 (c1 + (c - code)) else c1)) l
  else if (DECOMP_TYPE_B1 <=? type) && (type <=? DECOMP_TYPE_B18) then
    let l := if type =? DECOMP_TYPE_B18 then 18 else type - DECOMP_TYPE_B1 + 1 in
    c_min ← unicode_get16 d;
    let d := d + (2 + (c - code) * l) in
    decomp_seq false (fun i =>
      c1 ← decomp_data T (d + i);
      Some (if c1 =? 0xff then 0x20 else c1 + c_min)) l
  else if type =? DECOMP_TYPE_LS2 then
    let d := d + (c - code) * 3 in
    r0 ← unicode_get16 d;
    if r0 =? 0 then Some (0, [r0])
    else b ← decomp_data T (d + 2); r1 ← unicode_get_short_code b; Some (2, [r0; r1])
  else if type =? DECOMP_TYPE_PAT3 then
    r0 ← unicode_get16 d;
    r2 ← unicode_get16 (d + 2);
    let d := d + (4 + (c - code) * 2) in
    r1 ← unicode_get16 d;
    Some (3, [r0; r1; r2])
  else if (type =? DECOMP_TYPE_S2_UL) || (type =? DECOMP_TYPE_LS2_UL) then
    let c1 := c - code in
    '(c, d) ←
      (if type =? DECOMP_TYPE_S2_UL then
         let d := d + (c1 - c1 mod 2) in
         b ← decomp_data T d; c ← unicode_get_short_code b; Some (c, d + 1)
       else
         let d := d + (c1 ≫ 1) * 3 in
         c ← unicode_get16 d; Some (c, d + 2));
    let c := if c1 .& 1 =? 0 then c else unicode_get_lower_simple c in
    b ← decomp_data T d;
    r1 ← unicode_get_short_code b;
    Some (2, [c; r1])
  else Some (0, []).

(** The fields of an entry of [unicode_decomp_table1]. *)
Definition dc_code (v : Z) : Z := v ≫ (32 - 18).
Definition dc_len (v : Z) : Z := (v ≫ (32 - 18 - 7)) .& 0x7f.
Definition dc_type (v : Z) : Z := (v ≫ (32 - 18 - 7 - 6)) .& 0x3f.

(** The loop of [unicode_decomp_char]. *)
Fixpoint decomp_search (fuel : nat) (c : Z) (is_compat1 : bool) (idx_min idx_max : Z) : option (Z * list Z) :=
  match fuel with
  | O => None
  | S fuel' =>
      if idx_min <=? idx_max then
        let idx := (idx_max + idx_min) / 2 in
        v ← decomp_table1 T idx;
        let code := dc_code v in
        let len := dc_len v in
        if c <? code then decomp_search fuel' c is_compat1 idx_min (idx - 1)
        else if code + len <=? c then decomp_search fuel' c is_compat1 (idx + 1) idx_max
        else
          let is_compat := v .& 1 in
          if b2z is_compat1 <? is_compat then Some (0, [])
          else unicode_decomp_entry c idx code len (dc_type v)
      else Some (0, [])
  end.

Definition unicode_decomp_char (c : Z) (is_compat1 : bool) : option (Z * list Z) :=
  decomp_search SEARCH_FUEL c is_compat1 0 (decomp_count T - 1).

(** ** Composition *)

Fixpoint compose_search (fuel : nat) (c0 c1 idx_min idx_max : Z) : option Z :=
  match fuel with
  | O => None
  | S fuel' =>
      if idx_min <=? idx_max then
        let idx := (idx_max + idx_min) / 2 in
        idx1 ← comp_table T idx;
        let d_idx := idx1 ≫ 6 in
        let d_offset := idx1 .& 0x3f in
        v ← decomp_table1 T d_idx;
        let ch := dc_code v + d_offset in
        '(_, pair_) ← unicode_decomp_entry ch d_idx (dc_code v) (dc_len v) (dc_type v);
        p0 ← zget pair_ 0;
        let d := i32 (c0 - p0) in
        d ← (if d =? 0 then p1 ← zget pair_ 1; Some (i32 (c1 - p1)) else Some d);
        if d <? 0 then compose_search fuel' c0 c1 idx_min (idx - 1)
        else if 0 <? d then compose_search fuel' c0 c1 (idx + 1) idx_max
        else Some ch
      else Some 0
  end.

Definition unicode_compose_pair (c0 c1 : Z) : option Z :=
  compose_search SEARCH_FUEL c0 c1 0 (comp_count T - 1).

Definition compose_pair (c0 c1 : Z) : option Z :=
  if (0x1100 <=? c0) && (c0 <? 0x1100 + 19) && (0x1161 <=? c1) && (c1 <? 0x1161 + 21) then
    Some (0xac00 + (c0 - 0x1100) * 588 + (c1 - 0x1161) * 28)
  else if (0xac00 <=? c0) && (c0 <? 0xac00 + 11172) && ((c0 - 0xac00) mod 28 =? 0) &&
          (0x11a7 <=? c1) && (c1 <? 0x11a7 + 28) then
    Some (c0 + c1 - 0x11a7)
  else unicode_compose_pair c0 c1.
End Tables.

(** ** Combining classes *)

(** One entry of [unicode_cc_table]: length minus one, type and the extra byte. *)
Definition cc_entry (p : list Z) : option (Z * (Z * Z) * list Z) :=
  match p with
  | [] => None
  | b :: p =>
      let type := b ≫ 6 in
      let n := b .& 0x3f in
      '(n, p) ←
        (if n <? 48 then Some (n, p)
         else if n <? 56 then
           match p with x :: p => Some ((((n - 48) ≪ 8) .| x) + 48, p) | _ => None end
         else
           match p with
           | x :: y :: p => Some ((((n - 56) ≪ 8) .| (x ≪ 8) .| y) + (48 + (1 ≪ 11)), p)
           | _ => None
           end);
      if type <=? 1 then match p with x :: p => Some (n, (type, x), p) | [] => None end
      else Some (n, (type, 0), p)
  end.

Definition cc_value (c code type x : Z) : Z :=
  if type =? 0 then x else if type =? 1 then x + c - code else if type =? 2 then 0 else 230.

Fixpoint cc_loop (fuel : nat) (p : list Z) (c code : Z) : option Z :=
  match fuel with
  | O => None
  | S fuel' =>
      '(n, (type, x), p) ← cc_entry p;
      let c1 := code + n + 1 in
      if c <? c1 then Some (cc_value c code type x) else cc_loop fuel' p c c1
  end.

Definition unicode_get_cc (c : Z) : option Z :=
  '(pos, code) ← get_index_pos c unicode_cc_index (zlen unicode_cc_index / 3);
  if pos <? 0 then Some 0
  else cc_loop (S (length unicode_cc_table)) (drop (Z.to_nat pos) unicode_cc_table) c code.

(** ** Canonical ordering *)

(** [while (k >= start)]: makes room for [ch1] below [j]; the index of the hole. *)
Fixpoint cc_shift (fuel : nat) (buf : list Z) (start k cc1 : Z) : option (list Z * Z) :=
  match fuel with
  | O => None
  | S fuel' =>
      if start <=? k then
        x ← zget buf k;
        cc ← unicode_get_cc x;
        if cc <=? cc1 then Some (buf, k)
        else buf ← zset buf (k + 1) x; cc_shift fuel' buf start (k - 1) cc1
      else Some (buf, k)
  end.

(** [while (j < len)]: the insertion sort of a run of non-starters. *)
Fixpoint cc_run (fuel : nat) (buf : list Z) (len start j : Z) : option (list Z * Z) :=
  match fuel with
  | O => None
  | S fuel' =>
      if j <? len then
        ch1 ← zget buf j;
        cc1 ← unicode_get_cc ch1;
        if cc1 =? 0 then Some (buf, j)
        else
          '(buf, k) ← cc_shift (S (Z.to_nat j)) buf start (j - 1) cc1;
          buf ← zset buf (k + 1) ch1;
          cc_run fuel' buf len start (j + 1)
      else Some (buf, j)
  end.

(** [for(i = 0; i < len; i++)]. *)
Fixpoint sort_cc_loop (fuel : nat) (buf : list Z) (len i : Z) : option (list Z) :=
  match fuel with
  | O => None
  | S fuel' =>
      if i <? len then
        x ← zget buf i;
        cc ← unicode_get_cc x;
        if cc =? 0 then sort_cc_loop fuel' buf len (i + 1)
        else
          '(buf, j) ← cc_run (S (length buf)) buf len i (i + 1);
          sort_cc_loop fuel' buf len (j + 1)
      else Some buf
  end.

Definition sort_cc (buf : list Z) : option (list Z) := sort_cc_loop (S (length buf)) buf (zlen buf) 0.

(** ** Normalization *)

Inductive UnicodeNormalizationEnum := UNICODE_NFC | UNICODE_NFD | UNICODE_NFKC | UNICODE_NFKD.

(** [n_type >> 1] and [(n_type & 1) != 0]. *)
Definition nf_compat (n : UnicodeNormalizationEnum) : bool :=
  match n with UNICODE_NFKC | UNICODE_NFKD => true | _ => false end.
Definition nf_decompose (n : UnicodeNormalizationEnum) : bool :=
  match n with UNICODE_NFD | UNICODE_NFKD => true | _ => false end.

(** The depth of the recursion of [to_nfd_rec]. *)
Definition NFD_DEPTH : nat := 8.

Section Normalize.
Context `{!Allocator}.

(** [to_nfd_rec]; the return values of [dbuf_put_u32] are ignored. *)
Fixpoint to_nfd_rec (depth : nat) (dbuf : DynBuf) (src : list Z) (is_compat : bool) {struct depth} : option DynBuf :=
  match depth with
  | O => None
  | S depth' =>
      foldl (fun (dbuf : option DynBuf) c =>
        dbuf ← dbuf;
        if (0xac00 <=? c) && (c <? 0xd7a4) then
          let c := c - 0xac00 in
          '(dbuf, _) ← dbuf_put_u32 dbuf (0x1100 + c / 588);
          '(dbuf, _) ← dbuf_put_u32 dbuf (0x1161 + c mod 588 / 28);
          let v := c mod 28 in
          if v =? 0 then Some dbuf
          else '(dbuf, _) ← dbuf_put_u32 dbuf (0x11a7 + v); Some dbuf
        else
          '(l, res) ← unicode_decomp_char unicode_tables c is_compat;
          if l =? 0 then '(dbuf, _) ← dbuf_put_u32 dbuf c; Some dbuf
          else src ← zslice res 0 l; to_nfd_rec depth' dbuf src is_compat)
      (Some dbuf) src
  end.

(** [while (starter_pos >= 0)]: [None] inside is the jump to [next:]. *)
Fixpoint find_starter (fuel : nat) (buf : list Z) (starter_pos last_cc : Z) : option (option Z) :=
  match fuel with
  | O => None
  | S fuel' =>
      if 0 <=? starter_pos then
        x ← zget buf starter_pos;
        cc ← unicode_get_cc x;
        if cc =? 0 then Some (Some starter_pos)
        else if last_cc <=? cc then Some None
        else find_starter fuel' buf (starter_pos - 1) 256
      else Some (Some starter_pos)
  end.

(** [while (i < buf_len)]: the composition, in place. *)
Fixpoint compose_loop (fuel : nat) (buf : list Z) (buf_len i out_len : Z) : option (list Z * Z) :=
  match fuel with
  | O => None
  | S fuel' =>
      if i <? buf_len then
        x ← zget buf i;
        last_cc ← unicode_get_cc x;
        st ← find_starter (S (Z.to_nat out_len)) buf (out_len - 1) last_cc;
        let next := buf ← zset buf out_len x; compose_loop fuel' buf buf_len (i + 1) (out_len + 1) in
        match st with
        | None => next
        | Some starter_pos =>
            if 0 <=? starter_pos then
              s ← zget buf starter_pos;
              p ← compose_pair unicode_tables s x;
              if p =? 0 then next
              else buf ← zset buf starter_pos p; compose_loop fuel' buf buf_len (i + 1) out_len
            else next
        end
      else Some (buf, out_len)
  end.

(** The [int]s of a buffer. *)
Fixpoint to_ints (l : list Z) : list Z :=
  match l with
  | a :: b :: c :: d :: l => le_combine [a; b; c; d] :: to_ints l
  | _ => []
  end.

(** The return value, and the result in [*pdst] ([None] is [NULL]). *)
Definition unicode_normalize (src : list Z) (n_type : UnicodeNormalizationEnum) (opaque : aopaque)
    : option (Z * option (list Z)) :=
  let '(dbuf, r) := dbuf_realloc (dbuf_init2 opaque) (u64 (4 * zlen src)) in
  if negb (r =? 0) then Some (-1, None)
  else if (match n_type with UNICODE_NFC => true | _ => false end) && forallb (fun c => c <? 0x100) src then
    Some (zlen src, Some src)
  else
    dbuf ← to_nfd_rec NFD_DEPTH dbuf src (nf_compat n_type);
    if dbuf_error dbuf then Some (-1, None)
    else
      data ← zslice (db_buf dbuf) 0 (db_size dbuf);
      let buf := to_ints data in
      let buf_len := zlen buf in
      buf ← sort_cc buf;
      if (buf_len <=? 1) || nf_decompose n_type then Some (buf_len, Some buf)
      else
        '(buf, out_len) ← compose_loop (S (length buf)) buf buf_len 1 1;
        Some (out_len, Some (take (Z.to_nat out_len) buf)).
End Normalize.

(** ** Combining classes against the whole table *)

Definition cc_runs : list (Z * (Z * Z)) :=
  default [] (table_runs cc_entry (S (length unicode_cc_table)) unicode_cc_table).

(** The combining class of a character, by the runs of a table. *)
Definition cc_at (rs : list (Z * (Z * Z))) (c : Z) : Z :=
  match run_at rs 0 c with Some (c0, (type, x)) => cc_value c c0 type x | None => 0 end.

Definition cc_of (c : Z) : Z := cc_at cc_runs c.

(** Decoding from an entry of the index gives the end of the runs. *)
Definition cc_entry_ok (table index : list Z) (rs : list (Z * (Z * Z))) (i : Z) : bool :=
  match table_runs cc_entry (S (length table)) (drop (Z.to_nat (index_pos index i)) table) with
  | Some rs' =>
      let k := (length rs - length rs')%nat in
      bool_decide (rs' = drop k rs) && (runs_total (take k rs) =? index_code index i) && (0 <=? index_pos index i)
  | None => false
  end.

Definition cc_index_ok (table index : list Z) (rs : list (Z * (Z * Z))) : bool :=
  let n := zlen index / 3 in
  bool_decide (table_runs cc_entry (S (length table)) table = Some rs) &&
  forallb (fun r => 0 <? r.1) rs && (1 <? n) && (index_code index 0 <=? index_limit index) &&
  (index_limit index =? runs_total rs) &&
  forallb (fun k => cc_entry_ok table index rs (Z.of_nat k)) (seq 0 (Z.to_nat (n - 1))).

Lemma cc_loop_runs fuel p rs c code c0 type x :
  table_runs cc_entry fuel p = Some rs -> run_at rs code c = Some (c0, (type, x)) ->
  cc_loop fuel p c code = Some (cc_value c c0 type x).
Proof.
  revert p rs code. induction fuel as [|fuel IH]; intros p rs code Hr Ha; [done|]. cbn [table_runs cc_loop] in *.
  destruct p as [|b p]; [injection Hr as <-; done|].
  destruct (cc_entry (b :: p)) as [[[n [t y]] p']|]; [|done]. cbn [mbind option_bind] in *.
  destruct (table_runs cc_entry fuel p') as [rs'|] eqn:Hr'; [|done]. injection Hr as <-. cbn [run_at] in Ha.
  rewrite <- Z.add_assoc. destruct (c <? code + (n + 1)); [by injection Ha as <- <- <-|]. by eapply IH.
Qed.

Lemma run_at_drop {V} k (rs : list (Z * V)) c x :
  Forall (fun r => 0 < r.1) rs -> c + runs_total (take k rs) <= x ->
  run_at rs c x = run_at (drop k rs) (c + runs_total (take k rs)) x.
Proof.
  intros Hp. revert k c. induction Hp as [|[n v] rs Hn Hp IH]; intros k c Hx; [by rewrite drop_nil|].
  destruct k as [|k]; [simpl; by rewrite Z.add_0_r|]. cbn [take drop] in *. simpl in *.
  assert (0 <= runs_total (take k rs)) by (apply runs_total_nonneg; by apply Forall_take).
  destruct (Z.ltb_spec x (c + n)); [lia|]. rewrite (IH k) by lia. f_equal. lia.
Qed.

Lemma run_at_beyond {V} (rs : list (Z * V)) c x :
  Forall (fun r => 0 < r.1) rs -> c + runs_total rs <= x -> run_at rs c x = None.
Proof.
  intros Hp. revert c. induction Hp as [|[n v] rs Hn Hp IH]; intros c Hx; [done|]. simpl in *.
  pose proof (runs_total_nonneg _ Hp). destruct (Z.ltb_spec x (c + n)); [lia|]. apply IH. lia.
Qed.

Lemma get_cc_table table index rs c :
  cc_index_ok table index rs = true -> 0 <= c ->
  ('(pos, code) ← get_index_pos c index (zlen index / 3);
   if pos <? 0 then Some 0 else cc_loop (S (length table)) (drop (Z.to_nat pos) table) c code) = Some (cc_at rs c).
Proof.
  unfold cc_index_ok. cbv zeta. intros Hok Hc. bool_props. rewrite !forallb_forall in *.
  assert (Hpos : Forall (fun r => 0 < r.1) rs).
  { apply Forall_forall. intros r Hr%list_elem_of_In.
    match goal with Ht : forall x, In x rs -> _ |- _ => specialize (Ht r Hr) end. by bool_props. }
  unfold get_index_pos. change (get_le24 index 0 .& (1 ≪ 21 - 1)) with (index_code index 0). cbv zeta.
  fold (index_limit index).
  assert (Hfull : forall k p, c < runs_total rs -> runs_total (take k rs) <= c ->
    table_runs cc_entry (S (length table)) p = Some (drop k rs) ->
    cc_loop (S (length table)) p c (runs_total (take k rs)) = Some (cc_at rs c)).
  { intros k p Hlt Hge Hr. unfold cc_at. destruct (run_at_cover rs 0 c) as [[c0 [t x]] Hat]; [lia|].
    rewrite Hat. eapply cc_loop_runs; [exact Hr|]. rewrite <- Hat. symmetry. by apply (run_at_drop k rs 0). }
  destruct (Z.ltb_spec c (index_code index 0)) as [Hlt|Hge].
  { cbn [mbind option_bind]. cbn [Z.ltb Z.compare]. by apply (Hfull 0%nat); [lia|simpl; lia|]. }
  destruct (Z.leb_spec (index_limit index) c) as [Hout|Hin].
  { cbn [mbind option_bind]. unfold cc_at. by rewrite run_at_beyond by (done || lia). }
  destruct (index_search_spec index (Z.to_nat (zlen index / 3)) c 0 (zlen index / 3 - 1)) as (k & -> & Hk & Hkc); [done|lia|lia|].
  cbn [mbind option_bind]. fold (index_pos index k) (index_code index k).
  assert (Hk' : In (Z.to_nat k) (seq 0 (Z.to_nat (zlen index / 3 - 1)))) by (apply in_seq; lia).
  match goal with Ht : forall x, In x (seq _ _) -> _ |- _ => specialize (Ht _ Hk'); rename Ht into He end.
  rewrite Z2Nat.id in He by lia. unfold cc_entry_ok in He.
  destruct (table_runs cc_entry _ (drop _ table)) as [rs'|] eqn:Hr; [|done]. cbv zeta in He. bool_props.
  destruct (Z.ltb_spec (index_pos index k) 0); [lia|].
  match goal with Ht : runs_total (take ?j rs) = _, Hd : rs' = _ |- _ => rewrite <- Ht in *; apply (Hfull j); [lia|lia|by rewrite Hr, <- Hd] end.
Qed.

Lemma cc_tables_ok : cc_index_ok unicode_cc_table unicode_cc_index cc_runs = true.
Proof. vm_compute. reflexivity. Qed.

(** The lookup is total and exact. *)
Lemma unicode_get_cc_exact c : 0 <= c -> unicode_get_cc c = Some (cc_of c).
Proof. exact (get_cc_table _ _ _ c cc_tables_ok). Qed.

Lemma run_at_in {V} (rs : list (Z * V)) c x c0 v :
  run_at rs c x = Some (c0, v) -> c <= x -> exists n, (n, v) ∈ rs /\ c0 <= x < c0 + n.
Proof.
  revert c. induction rs as [|[n w] rs IH]; intros c; simpl; [done|]. destruct (Z.ltb_spec x (c + n)).
  - intros [= <- <-] Hc. exists n. split; [apply list_elem_of_here|lia].
  - intros Hr Hc. destruct (IH _ Hr) as (m & Hm & ?); [lia|]. exists m. split; [by apply list_elem_of_further|done].
Qed.

Lemma cc_at_range rs c :
  forallb (fun r => match r with (n, (type, x)) => (0 <=? x) && (x <=? 255) && ((negb (type =? 1)) || (x + n <=? 256)) end) rs = true ->
  0 <= c -> 0 <= cc_at rs c <= 255.
Proof.
  intros Hok Hc. unfold cc_at. destruct (run_at rs 0 c) as [[c0 [t x]]|] eqn:Hr; [|lia].
  destruct (run_at_in _ _ _ _ _ Hr Hc) as (n & Hin & Hn). rewrite forallb_forall in Hok.
  specialize (Hok _ (proj1 (list_elem_of_In _ _) Hin)). cbn in Hok. unfold cc_value.
  bool_props; repeat case_match; bool_props; try lia.
Qed.

Lemma cc_of_range c : 0 <= c -> 0 <= cc_of c <= 255.
Proof. refine (cc_at_range cc_runs c _). vm_compute. reflexivity. Qed.

(** No character between [lo] and [hi] has a combining class. *)
Fixpoint runs_starters (lo hi : Z) (rs : list (Z * (Z * Z))) (code : Z) : bool :=
  match rs with
  | [] => true
  | (n, (type, x)) :: rs =>
      ((hi <=? code) || (code + n <=? lo) || (type =? 2) || ((type =? 0) && (x =? 0))) && runs_starters lo hi rs (code + n)
  end.

Lemma runs_starters_spec lo hi rs code c :
  runs_starters lo hi rs code = true -> lo <= c < hi -> code <= c ->
  match run_at rs code c with Some (c0, (type, x)) => cc_value c c0 type x | None => 0 end = 0.
Proof.
  revert code. induction rs as [|[n [type x]] rs IH]; intros code Hrs Hc Hcode; cbn [run_at runs_starters] in *; [done|].
  apply andb_true_iff in Hrs as [Hr Hrs]. destruct (Z.ltb_spec c (code + n)); [|by apply IH].
  unfold cc_value. bool_cases; try lia; repeat case_match; bool_props; lia.
Qed.

(** Hangul syllables are starters. *)
Lemma hangul_starter c : 0xac00 <= c < 0xd7a4 -> cc_of c = 0.
Proof.
  intros Hc. apply (runs_starters_spec 0xac00 0xd7a4); [vm_compute; reflexivity|done|lia].
Qed.

#[global] Opaque cc_of.

(** ** Canonical ordering *)

(** Insertion into a run of non-starters, kept with the last one first. *)
Fixpoint cc_insert (c : Z) (r : list Z) : list Z :=
  match r with
  | [] => [c]
  | d :: r' => if cc_of d <=? cc_of c then c :: d :: r' else d :: cc_insert c r'
  end.

(** The canonical ordering: starters stay, and each run of non-starters is sorted by
    combining class, keeping the order of characters of the same class. *)
Fixpoint canon_order (r l : list Z) : list Z :=
  match l with
  | [] => rev r
  | c :: l => if cc_of c =? 0 then rev r ++ c :: canon_order [] l else canon_order (cc_insert c r) l
  end.

Definition canonical_order (l : list Z) : list Z := canon_order [] l.

Abbreviation chars_ok l := (Forall (fun c => 0 <= c) l).

Lemma cc_shift_spec fuel pre r y s c :
  chars_ok r -> 0 <= c -> (length r < fuel)%nat ->
  exists buf k, cc_shift fuel (pre ++ rev r ++ y :: s) (zlen pre) (zlen pre + zlen r - 1) (cc_of c) = Some (buf, k) /\
    zset buf (k + 1) c = Some (pre ++ rev (cc_insert c r) ++ s).
Proof.
  intros Hr Hc. revert fuel y s. induction Hr as [|d r Hd Hr IH]; intros fuel y s Hf.
  - destruct fuel as [|fuel]; [lia|]. cbn [cc_shift]. rewrite zlen_nil.
    destruct (Z.leb_spec (zlen pre) (zlen pre + 0 - 1)); [lia|]. eexists _, _. split; [done|].
    simpl. apply zset_mid. lia.
  - destruct fuel as [|fuel]; [lia|]. cbn [cc_shift]. rewrite zlen_cons.
    pose proof (zlen_nonneg r). destruct (Z.leb_spec (zlen pre) (zlen pre + (1 + zlen r) - 1)); [|lia].
    cbn [rev]. rewrite <- app_assoc. cbn [app].
    assert (Hz : zlen (pre ++ rev r) = zlen pre + zlen r) by (unfold zlen; rewrite length_app, length_rev; lia).
    replace (pre ++ rev r ++ d :: y :: s) with ((pre ++ rev r) ++ d :: y :: s) by (by rewrite <- app_assoc).
    rewrite zget_mid by lia. cbn [mbind option_bind]. rewrite unicode_get_cc_exact by done. cbn [mbind option_bind cc_insert].
    destruct (cc_of d <=? cc_of c).
    + eexists _, _. split; [done|]. cbn [rev]. rewrite <- !app_assoc. cbn [app]. rewrite !(app_assoc pre (rev r)).
      apply zset_mid1. lia.
    + rewrite zset_mid1 by lia. cbn [mbind option_bind].
      destruct (IH fuel d (d :: s) ltac:(simpl in Hf; lia)) as (buf & k & Hs & Hset).
      exists buf, k. split.
      * rewrite <- Hs. rewrite <- app_assoc. f_equal. lia.
      * rewrite Hset. cbn [rev]. by rewrite <- app_assoc.
Qed.

Lemma chars_ok_insert c r : 0 <= c -> chars_ok r -> chars_ok (cc_insert c r).
Proof.
  intros Hc Hr. induction Hr as [|d r Hd Hr IH]; simpl; [by constructor|]. destruct (_ <=? _); by repeat constructor.
Qed.

Lemma length_cc_insert c r : length (cc_insert c r) = S (length r).
Proof. induction r as [|d r IH]; simpl; [done|]. destruct (_ <=? _); simpl; lia. Qed.

(** What is left of the text after a run. *)
Definition after_run (l : list Z) : list Z := match l with [] => [] | c :: l => c :: canon_order [] l end.

Lemma cc_run_spec fuel pre r l :
  chars_ok r -> chars_ok l -> (length l < fuel)%nat ->
  exists r' l', cc_run fuel (pre ++ rev r ++ l) (zlen pre + zlen r + zlen l) (zlen pre) (zlen pre + zlen r) =
      Some (pre ++ rev r' ++ l', zlen pre + zlen r') /\
    chars_ok r' /\ chars_ok l' /\ zlen r' + zlen l' = zlen r + zlen l /\ zlen r <= zlen r' /\
    match l' with [] => True | c :: _ => cc_of c = 0 end /\ canon_order r l = rev r' ++ after_run l'.
Proof.
  intros Hr Hl. revert fuel r Hr. induction Hl as [|c l Hc Hl IH]; intros fuel r Hr Hf.
  - destruct fuel as [|fuel]; [simpl in Hf; lia|]. cbn [cc_run]. rewrite zlen_nil, Z.add_0_r, Z.ltb_irrefl.
    exists r, []. simpl. rewrite !app_nil_r. split_and!; done || constructor || lia.
  - destruct fuel as [|fuel]; [simpl in Hf; lia|]. cbn [cc_run]. rewrite zlen_cons. pose proof (zlen_nonneg l).
    destruct (Z.ltb_spec (zlen pre + zlen r) (zlen pre + zlen r + (1 + zlen l))); [|lia].
    assert (Hz : zlen (pre ++ rev r) = zlen pre + zlen r) by (unfold zlen; rewrite length_app, length_rev; lia).
    rewrite (app_assoc pre), zget_mid by lia. cbn [mbind option_bind]. rewrite unicode_get_cc_exact by done.
    cbn [mbind option_bind canon_order]. destruct (Z.eqb_spec (cc_of c) 0) as [Hz0|Hz0].
    + exists r, (c :: l). rewrite <- app_assoc. split_and!; try done. { by constructor. } rewrite zlen_cons. lia.
    + rewrite <- app_assoc.
      destruct (cc_shift_spec (S (Z.to_nat (zlen pre + zlen r))) pre r c l c Hr Hc) as (buf & k & -> & Hset).
      { unfold zlen. lia. }
      cbn [mbind option_bind]. rewrite Hset. cbn [mbind option_bind].
      pose proof (length_cc_insert c r) as Hli.
      assert (Hzi : zlen (cc_insert c r) = zlen r + 1) by (unfold zlen; lia).
      destruct (IH fuel (cc_insert c r)) as (r' & l' & Hrun & Hr' & Hl' & Hlen & Hmono & Hst & Hcan).
      { by apply chars_ok_insert. } { simpl in Hf. lia. }
      exists r', l'. rewrite Hcan. split_and!; try done; try lia. rewrite <- Hrun, Hzi. f_equal; lia.
Qed.

Lemma sort_cc_loop_spec fuel pre l :
  chars_ok l -> (length l < fuel)%nat ->
  sort_cc_loop fuel (pre ++ l) (zlen pre + zlen l) (zlen pre) = Some (pre ++ canonical_order l).
Proof.
  revert pre l. induction fuel as [|fuel IH]; intros pre l Hl Hf; [lia|]. cbn [sort_cc_loop].
  destruct Hl as [|c l Hc Hl].
  { rewrite zlen_nil, Z.add_0_r, Z.ltb_irrefl. done. }
  rewrite zlen_cons. pose proof (zlen_nonneg l).
  destruct (Z.ltb_spec (zlen pre) (zlen pre + (1 + zlen l))); [|lia].
  rewrite zget_mid by done. cbn [mbind option_bind]. rewrite unicode_get_cc_exact by done. cbn [mbind option_bind].
  unfold canonical_order. cbn [canon_order]. destruct (Z.eqb_spec (cc_of c) 0) as [Hz0|Hz0].
  - specialize (IH (pre ++ [c]) l Hl ltac:(simpl in Hf; lia)). rewrite <- !app_assoc in IH. cbn [app] in IH.
    unfold canonical_order in IH. cbn [rev app]. rewrite <- IH. f_equal; zlen_lia.
  - destruct (cc_run_spec (S (length (pre ++ c :: l))) pre [c] l) as (r' & l' & Hrun & Hr' & Hl' & Hlen & Hmono & Hst & Hcan).
    { by repeat constructor. } { done. } { rewrite length_app. simpl. lia. }
    assert (Hrun' : cc_run (S (length (pre ++ c :: l))) (pre ++ c :: l) (zlen pre + (1 + zlen l)) (zlen pre) (zlen pre + 1) =
      Some (pre ++ rev r' ++ l', zlen pre + zlen r')).
    { rewrite <- Hrun. cbn [rev app]. f_equal; zlen_lia. }
    rewrite Hrun'. cbn [mbind option_bind cc_insert]. rewrite Hcan.
    replace (zlen [c]) with 1 in * by done.
    assert (Hz : zlen (pre ++ rev r') = zlen pre + zlen r') by (unfold zlen; rewrite length_app, length_rev; lia).
    destruct l' as [|d l']; cbn [after_run] in *.
    + destruct fuel as [|fuel]; [simpl in Hf; lia|]. cbn [sort_cc_loop]. rewrite zlen_nil in Hlen.
      destruct (Z.ltb_spec (zlen pre + zlen r' + 1) (zlen pre + (1 + zlen l))); [lia|done].
    + rewrite zlen_cons in Hlen. inversion_clear Hl'.
      specialize (IH (pre ++ rev r' ++ [d]) l' ltac:(done)).
      unfold canonical_order in IH. rewrite <- !app_assoc in IH. cbn [app] in IH. rewrite <- IH.
      * f_equal; unfold zlen in *; rewrite !length_app, length_rev; simpl; lia.
      * unfold zlen in *. simpl in Hf. lia.
Qed.

(** [sort_cc] computes the canonical ordering. *)
Lemma sort_cc_canonical l : chars_ok l -> sort_cc l = Some (canonical_order l).
Proof. intros Hl. exact (sort_cc_loop_spec (S (length l)) [] l Hl ltac:(lia)). Qed.

(** No pair of neighbours is out of order. *)
Fixpoint ordered (l : list Z) : Prop :=
  match l with
  | a :: (b :: _) as t => (cc_of b = 0 \/ cc_of a <= cc_of b) /\ ordered t
  | _ => True
  end.

(** A run with the last character first. *)
Fixpoint run_ordered (r : list Z) : Prop :=
  match r with
  | d :: (e :: _) as t => cc_of e <= cc_of d /\ run_ordered t
  | _ => True
  end.

Lemma ordered_cons a l : ordered (a :: l) <-> match l with [] => True | b :: _ => cc_of b = 0 \/ cc_of a <= cc_of b end /\ ordered l.
Proof. destruct l; simpl; tauto. Qed.

Lemma run_ordered_cons d r : run_ordered (d :: r) <-> match r with [] => True | e :: _ => cc_of e <= cc_of d end /\ run_ordered r.
Proof. destruct r; simpl; tauto. Qed.

Lemma ordered_run r m :
  run_ordered r -> ordered m ->
  match r, m with d :: _, x :: _ => cc_of x = 0 \/ cc_of d <= cc_of x | _, _ => True end -> ordered (rev r ++ m).
Proof.
  revert m. induction r as [|d r IH]; intros m Hr Hm Hj; [done|]. cbn [rev]. rewrite <- app_assoc. cbn [app].
  apply run_ordered_cons in Hr as [Hd Hr]. apply IH; [done|by apply ordered_cons|]. destruct r; [done|]. by right.
Qed.

Lemma cc_insert_ordered c r : run_ordered r -> run_ordered (cc_insert c r).
Proof.
  induction r as [|d r IH]; intros Hr; [done|]. cbn [cc_insert]. destruct (Z.leb_spec (cc_of d) (cc_of c)).
  - by apply run_ordered_cons.
  - apply run_ordered_cons in Hr as [Hd Hr]. apply run_ordered_cons. split; [|by apply IH].
    destruct r as [|e r]; cbn [cc_insert]; [lia|]. destruct (cc_of e <=? cc_of c); [lia|done].
Qed.

Lemma canon_order_chars (P : Z -> Prop) r l : Forall P r -> Forall P l -> Forall P (canon_order r l).
Proof.
  intros Hr Hl. revert r Hr. induction Hl as [|c l Hc Hl IH]; intros r Hr; cbn [canon_order]; [by apply Forall_rev|].
  destruct (_ =? 0).
  - apply Forall_app. split; [by apply Forall_rev|]. constructor; [done|]. by apply IH.
  - apply IH. clear -Hc Hr. induction Hr as [|d r Hd Hr IH]; cbn [cc_insert]; [by constructor|].
    destruct (_ <=? _); by repeat constructor.
Qed.

Lemma canon_order_ordered r l : chars_ok l -> run_ordered r -> ordered (canon_order r l).
Proof.
  intros Hl. revert r. induction Hl as [|c l Hc Hl IH]; intros r Hr; cbn [canon_order].
  - rewrite <- (app_nil_r (rev r)). apply ordered_run; [done..|]. by destruct r.
  - destruct (Z.eqb_spec (cc_of c) 0) as [Hc0|Hc0].
    + apply ordered_run; [done| |by destruct r; auto]. apply ordered_cons. split; [|by apply IH].
      pose proof (canon_order_chars (fun c => 0 <= c) [] l ltac:(constructor) Hl) as Hch.
      destruct Hch as [|b t Hb Ht]; [done|]. right. rewrite Hc0. by apply cc_of_range.
    + apply IH. by apply cc_insert_ordered.
Qed.

(** Text in order is not changed. *)
Lemma canon_order_id r l : run_ordered r -> ordered (rev r ++ l) -> canon_order r l = rev r ++ l.
Proof.
  revert r. induction l as [|c l IH]; intros r Hr Ho; cbn [canon_order]; [by rewrite app_nil_r|].
  assert (Htail : forall m, ordered (m ++ c :: l) -> ordered (c :: l)).
  { intros m. induction m as [|a m IHm]; [done|]. cbn [app]. intros [_ H]%ordered_cons. auto. }
  destruct (Z.eqb_spec (cc_of c) 0) as [Hc0|Hc0].
  - f_equal. f_equal. apply (IH []); [done|]. apply Htail, ordered_cons in Ho as [_ ?]. done.
  - assert (Hi : cc_insert c r = c :: r).
    { destruct r as [|d r]; [done|]. cbn [cc_insert]. destruct (Z.leb_spec (cc_of d) (cc_of c)); [done|].
      cbn [rev] in Ho. rewrite <- app_assoc in Ho. cbn [app] in Ho. exfalso.
      assert (Hj : forall m, ordered (m ++ d :: c :: l) -> cc_of c = 0 \/ cc_of d <= cc_of c).
      { intros m. induction m as [|a m IHm]; cbn [app]; intros [Hh ?]%ordered_cons; auto. }
      apply Hj in Ho. lia. }
    rewrite Hi, IH; [cbn [rev]; by rewrite <- app_assoc|..].
    + apply run_ordered_cons. split; [|done]. destruct r as [|d r]; [done|]. cbn [cc_insert] in Hi.
      destruct (Z.leb_spec (cc_of d) (cc_of c)); [done|]. by injection Hi as <- _.
    + cbn [rev]. by rewrite <- app_assoc.
Qed.

(** Characters of the same class keep their order. *)
Lemma cc_insert_filter k c r :
  filter (fun x => cc_of x = k) (rev (cc_insert c r)) =
  filter (fun x => cc_of x = k) (rev r) ++ filter (fun x => cc_of x = k) [c].
Proof.
  induction r as [|d r IH]; [done|]. cbn [cc_insert]. destruct (Z.leb_spec (cc_of d) (cc_of c)) as [Hle|Hlt].
  - cbn [rev]. by rewrite filter_app.
  - cbn [rev]. rewrite !filter_app, IH, <- !app_assoc. f_equal.
    rewrite !filter_cons, !filter_nil. repeat case_decide; done || lia.
Qed.

Lemma canon_order_filter k r l :
  filter (fun x => cc_of x = k) (canon_order r l) = filter (fun x => cc_of x = k) (rev r ++ l).
Proof.
  revert r. induction l as [|c l IH]; intros r; cbn [canon_order]; [by rewrite app_nil_r|]. destruct (_ =? 0).
  - rewrite !filter_app, !filter_cons, IH. done.
  - rewrite IH, !filter_app, cc_insert_filter, <- app_assoc. by rewrite <- filter_app.
Qed.

Lemma cc_insert_perm c r : cc_insert c r ≡ₚ c :: r.
Proof.
  induction r as [|d r IH]; cbn [cc_insert]; [done|]. destruct (_ <=? _); [done|]. rewrite IH. apply Permutation_swap.
Qed.

Lemma canon_order_perm r l : canon_order r l ≡ₚ rev r ++ l.
Proof.
  revert r. induction l as [|c l IH]; intros r; cbn [canon_order]; [by rewrite app_nil_r|]. destruct (_ =? 0).
  - by rewrite IH.
  - rewrite IH, <- (Permutation_rev (cc_insert c r)), <- (Permutation_rev r), cc_insert_perm. cbn [app]. apply Permutation_middle.
Qed.

(** C20: [sort_cc] is total and puts a text in canonical order: the result is the given
    text with each run of non-starters sorted by combining class (so no two neighbours
    are out of order), it is a permutation in which characters of the same class keep
    their order, and ordering it again changes nothing. *)
Theorem sort_cc_orders l :
  chars_ok l ->
  exists l', sort_cc l = Some l' /\ l' = canonical_order l /\ l' ≡ₚ l /\ ordered l' /\
    (forall k, filter (fun x => cc_of x = k) l' = filter (fun x => cc_of x = k) l) /\ sort_cc l' = Some l'.
Proof.
  intros Hl. exists (canonical_order l). unfold canonical_order.
  assert (Ho : ordered (canon_order [] l)) by (by apply canon_order_ordered).
  assert (Hc : chars_ok (canon_order [] l)) by (by apply canon_order_chars; [constructor|]).
  split_and!; [by apply sort_cc_canonical|done|apply canon_order_perm|done|intros k; apply canon_order_filter|].
  rewrite sort_cc_canonical by done. f_equal. by apply (canon_order_id []).
Qed.

Lemma sort_cc_orders_witness :
  exists l', sort_cc [0x71; 0x307; 0x323] = Some l' /\ l' = canonical_order [0x71; 0x307; 0x323] /\
    l' ≡ₚ [0x71; 0x307; 0x323] /\ ordered l' /\
    (forall k, filter (fun x => cc_of x = k) l' = filter (fun x => cc_of x = k) [0x71; 0x307; 0x323]) /\ sort_cc l' = Some l'.
Proof. apply sort_cc_orders. repeat constructor; lia. Defined.
