(* ===== verification/UnicodeCompose.v ===== *)
(** Full decomposition, composition and [unicode_normalize] of [libunicode.c]: what the
    four normalization forms compute. *)

From S2P Require Import Prelude CutilsH DynBuf UnicodeData UnicodeNorm.

(** ** Full decomposition *)

Definition is_hangul (c : Z) : bool := (0xac00 <=? c) && (c <? 0xd7a4).

Definition hangul_jamos (c : Z) : list Z :=
  let c := c - 0xac00 in
  [0x1100 + c / 588; 0x1161 + c mod 588 / 28] ++ (if c mod 28 =? 0 then [] else [0x11a7 + c mod 28]).

Definition is_char (c : Z) : bool := (0 <=? c) && (c <=? 0x10ffff).

Section Full.
Context (T : norm_tables).

(** The characters that [to_nfd_rec] writes for a character, given those of a text that
    is one level deeper, and for a text. *)
Definition nfd_char (is_compat : bool) (rec : list Z -> option (list Z)) (c : Z) : option (list Z) :=
  if is_hangul c then Some (hangul_jamos c)
  else
    '(l, res) ← unicode_decomp_char T c is_compat;
    if l =? 0 then Some [c] else src ← zslice res 0 l; rec src.

Fixpoint nfd_list (depth : nat) (is_compat : bool) (src : list Z) {struct depth} : option (list Z) :=
  match depth with
  | O => None
  | S depth' => @concat Z <$> mapM (nfd_char is_compat (nfd_list depth' is_compat)) src
  end.

(** A character without decomposition. *)
Definition is_final (is_compat : bool) (c : Z) : bool :=
  negb (is_hangul c) &&
  match unicode_decomp_char T c is_compat with Some (l, _) => l =? 0 | None => false end.

Definition decomp_ok (is_compat : bool) (c : Z) : bool :=
  match nfd_list NFD_DEPTH is_compat [c] with
  | Some l => forallb (is_final is_compat) l && forallb is_char l && (zlen l <=? 18)
  | None => false
  end.
End Full.

(** The characters that the table covers. *)
Definition decomp_covered (table : list Z) : list Z :=
  flat_map (fun v => map (fun i => dc_code v + Z.of_nat i) (seq 0 (Z.to_nat (dc_len v)))) table.

(** *** The tables as search trees, for computation *)

Definition tree_of (l : list Z) : gmap Z Z := map_seqZ 0 l.

Definition decomp_table1_tree : gmap Z Z := tree_of unicode_decomp_table1.
Definition decomp_table2_tree : gmap Z Z := tree_of unicode_decomp_table2.
Definition decomp_data_tree : gmap Z Z := tree_of unicode_decomp_data.
Definition comp_table_tree : gmap Z Z := tree_of unicode_comp_table.

Definition tree_tables : norm_tables := {|
  decomp_table1 := fun i => decomp_table1_tree !! i;
  decomp_table2 := fun i => decomp_table2_tree !! i;
  decomp_data := fun i => decomp_data_tree !! i;
  comp_table := fun i => comp_table_tree !! i;
  decomp_count := 699;
  comp_count := 945 |}.

Lemma tree_lookup l i : tree_of l !! i = zget l i.
Proof.
  unfold tree_of, zget. destruct (Z.ltb_spec i 0).
  - apply lookup_map_seqZ_None. by left.
  - by apply lookup_map_seqZ_0.
Qed.

(** Tables with the same contents. *)
Record tables_eq (T T' : norm_tables) : Prop := {
  eq_table1 : forall i, decomp_table1 T i = decomp_table1 T' i;
  eq_table2 : forall i, decomp_table2 T i = decomp_table2 T' i;
  eq_data : forall i, decomp_data T i = decomp_data T' i;
  eq_comp : forall i, comp_table T i = comp_table T' i;
  eq_decomp_count : decomp_count T = decomp_count T';
  eq_comp_count : comp_count T = comp_count T' }.

Lemma tree_tables_eq : tables_eq tree_tables unicode_tables.
Proof.
  split; [exact (tree_lookup _)|exact (tree_lookup _)|exact (tree_lookup _)|exact (tree_lookup _)|..];
    vm_compute; reflexivity.
Qed.

Lemma decomp_seq_ext stop f g l : (forall i, f i = g i) -> decomp_seq stop f l = decomp_seq stop g l.
Proof.
  intros Hfg. unfold decomp_seq. f_equal. generalize 0. induction (Z.to_nat l) as [|n IH]; intros i; [done|].
  cbn [decomp_loop]. rewrite Hfg. destruct (g i) as [v|]; [|done]. cbn [mbind option_bind]. by rewrite IH.
Qed.

Section Eq.
Context (T T' : norm_tables) (HT : tables_eq T T').

Lemma unicode_get16_eq d : unicode_get16 T d = unicode_get16 T' d.
Proof. unfold unicode_get16. by rewrite !(eq_data _ _ HT). Qed.

Lemma unicode_decomp_entry_eq c idx code len type :
  unicode_decomp_entry T c idx code len type = unicode_decomp_entry T' c idx code len type.
Proof.
  unfold unicode_decomp_entry. rewrite (eq_table2 _ _ HT). destruct (decomp_table2 T' idx) as [d|]; [|done].
  cbn [mbind option_bind]. cbv zeta.
  repeat match goal with |- (if ?b then _ else _) = _ => destruct b end; try done;
    try (destruct (if type =? DECOMP_TYPE_I1 then _ else _));
    try (apply decomp_seq_ext; intros i); rewrite ?unicode_get16_eq, ?(eq_data _ _ HT); try done.
  - destruct (unicode_get16 T' d) as [c_min|]; [|done]. cbn [mbind option_bind]. apply decomp_seq_ext.
    intros i. by rewrite (eq_data _ _ HT).
  - destruct (if type =? DECOMP_TYPE_S2_UL then _ else _) as [[c0 d0]|]; [|done]. cbn [mbind option_bind].
    by rewrite (eq_data _ _ HT).
Qed.

Lemma unicode_decomp_char_eq c is_compat : unicode_decomp_char T c is_compat = unicode_decomp_char T' c is_compat.
Proof.
  unfold unicode_decomp_char. rewrite (eq_decomp_count _ _ HT). generalize 0, (decomp_count T' - 1).
  induction SEARCH_FUEL as [|fuel IH]; intros i j; [done|]. cbn [decomp_search]. rewrite (eq_table1 _ _ HT).
  destruct (i <=? j); [|done]. cbv zeta. destruct (decomp_table1 T' _) as [v|]; [|done]. cbn [mbind option_bind].
  rewrite !IH. repeat case_match; auto using unicode_decomp_entry_eq.
Qed.

Lemma nfd_list_eq depth is_compat src : nfd_list T depth is_compat src = nfd_list T' depth is_compat src.
Proof.
  revert src. induction depth as [|depth IH]; intros src; [done|]. cbn [nfd_list]. f_equal.
  apply mapM_ext. intros c. unfold nfd_char. rewrite unicode_decomp_char_eq. repeat case_match; try done.
  destruct (unicode_decomp_char T' c is_compat) as [[l res]|]; [|done]. cbn [mbind option_bind].
  destruct (l =? 0); [done|]. destruct (zslice res 0 l); [|done]. apply IH.
Qed.

Lemma is_final_eq is_compat c : is_final T is_compat c = is_final T' is_compat c.
Proof. unfold is_final. by rewrite unicode_decomp_char_eq. Qed.

Lemma unicode_compose_pair_eq c0 c1 : unicode_compose_pair T c0 c1 = unicode_compose_pair T' c0 c1.
Proof.
  unfold unicode_compose_pair. rewrite (eq_comp_count _ _ HT). generalize 0, (comp_count T' - 1).
  induction SEARCH_FUEL as [|fuel IH]; intros i j; [done|]. cbn [compose_search]. rewrite (eq_comp _ _ HT).
  destruct (i <=? j); [|done]. cbv zeta. destruct (comp_table T' _) as [x|]; [|done]. cbn [mbind option_bind].
  rewrite (eq_table1 _ _ HT). destruct (decomp_table1 T' _) as [v|]; [|done]. cbn [mbind option_bind].
  rewrite unicode_decomp_entry_eq. destruct (unicode_decomp_entry T' _ _ _ _ _) as [[l pr]|]; [|done].
  cbn [mbind option_bind]. destruct (zget pr 0) as [p0|]; [|done]. cbn [mbind option_bind].
  destruct (if _ =? 0 then _ else _) as [d|]; [|done]. cbn [mbind option_bind]. rewrite !IH. by destruct (d <? 0), (0 <? d).
Qed.
End Eq.

Lemma decomp_ok_eq T T' is_compat c : tables_eq T T' -> decomp_ok T is_compat c = decomp_ok T' is_compat c.
Proof.
  intros HT. unfold decomp_ok. rewrite (nfd_list_eq _ _ HT). destruct (nfd_list T' _ _ _) as [l|]; [|done].
  f_equal. f_equal. induction l as [|x l IH]; [done|]. cbn [forallb]. by rewrite IH, (is_final_eq _ _ HT).
Qed.

(** ** What the searches find *)

(** A step of a binary search halves the range. *)
Lemma search_step fuel i j :
  i <= j -> j - i + 1 < 2 ^ Z.of_nat (S fuel) ->
  let m := (j + i) / 2 in i <= m <= j /\ m - 1 - i + 1 < 2 ^ Z.of_nat fuel /\ j - (m + 1) + 1 < 2 ^ Z.of_nat fuel.
Proof. rewrite Nat2Z.inj_succ, Z.pow_succ_r by lia. generalize (2 ^ Z.of_nat fuel). intros. subst m. zdm. Qed.

Lemma search_empty fuel i j : j - i + 1 < 2 ^ Z.of_nat fuel -> fuel = O -> j < i.
Proof. intros H ->. change (2 ^ Z.of_nat 0) with 1 in H. lia. Qed.

Section Searches.
Context (T : norm_tables).
Context (Htab : forall k, 0 <= k < decomp_count T -> exists v, decomp_table1 T k = Some v).

(** The search of a decomposition ends, and without one only for a character of the table. *)
Lemma decomp_search_cases fuel c is_compat i j :
  0 <= i -> j < decomp_count T -> j - i + 1 < 2 ^ Z.of_nat fuel ->
  decomp_search T (S fuel) c is_compat i j = Some (0, []) \/
  exists k v, decomp_table1 T k = Some v /\ dc_code v <= c < dc_code v + dc_len v.
Proof.
  revert i j. induction fuel as [|fuel IH]; intros i j Hi Hj Hf;
    cbn [decomp_search]; (destruct (Z.leb_spec i j) as [Hij|]; [|by left]).
  { pose proof (search_empty _ _ _ Hf eq_refl). lia. }
  pose proof (search_step _ _ _ Hij Hf) as (Hm & Hl & Hr). cbv zeta in *.
  destruct (Htab ((j + i) / 2) ltac:(lia)) as [v Hv]. rewrite Hv. cbn [mbind option_bind].
  destruct (Z.ltb_spec c (dc_code v)); [by apply IH; lia|].
  destruct (Z.leb_spec (dc_code v + dc_len v) c); [by apply IH; lia|]. right. eauto.
Qed.

(** The pair of characters and the character of an entry of the table of compositions. *)
Definition comp_entry (x : Z) : option (Z * Z * Z) :=
  v ← decomp_table1 T (x ≫ 6);
  let ch := dc_code v + (x .& 0x3f) in
  '(_, pair_) ← unicode_decomp_entry T ch (x ≫ 6) (dc_code v) (dc_len v) (dc_type v);
  p0 ← zget pair_ 0; p1 ← zget pair_ 1; Some (ch, p0, p1).

Context (Hcomp : forall k, 0 <= k < comp_count T ->
  exists x ch p0 p1, comp_table T k = Some x /\ comp_entry x = Some (ch, p0, p1) /\ is_char p0 /\ is_char p1).

Lemma i32_diff a b : is_char a -> is_char b -> i32 (a - b) = a - b.
Proof.
  unfold is_char. intros Ha Hb. apply andb_prop_elim in Ha, Hb. rewrite !Is_true_true in Ha, Hb.
  bool_props. unfold i32, wraps. simpl. case_match; bool_props; zdm.
Qed.

(** The search of a composition ends, and what it finds has the pair as its decomposition. *)
Lemma compose_search_cases fuel c0 c1 i j :
  is_char c0 -> is_char c1 -> 0 <= i -> j < comp_count T -> j - i + 1 < 2 ^ Z.of_nat fuel ->
  compose_search T (S fuel) c0 c1 i j = Some 0 \/
  exists k x ch, 0 <= k < comp_count T /\ comp_table T k = Some x /\ comp_entry x = Some (ch, c0, c1) /\
    compose_search T (S fuel) c0 c1 i j = Some ch.
Proof.
  intros H0 H1. revert i j. induction fuel as [|fuel IH]; intros i j Hi Hj Hf;
    [|remember (S fuel) as fuel' eqn:Hfuel']; cbn [compose_search];
    (destruct (Z.leb_spec i j) as [Hij|]; [|by left]).
  { pose proof (search_empty _ _ _ Hf eq_refl). lia. }
  rewrite Hfuel' in Hf. pose proof (search_step _ _ _ Hij Hf) as (Hm & Hl & Hr). cbv zeta in *.
  destruct (Hcomp ((j + i) / 2) ltac:(lia)) as (x & ch & p0 & p1 & Hx & He & Hp0 & Hp1).
  pose proof He as He'. unfold comp_entry in He. rewrite Hx. cbn [mbind option_bind].
  destruct (decomp_table1 T _) as [v|]; [|done]. cbn [mbind option_bind] in *.
  destruct (unicode_decomp_entry T _ _ _ _ _) as [[l pr]|]; [|done]. cbn [mbind option_bind] in *.
  destruct (zget pr 0) as [q0|]; [|done]. cbn [mbind option_bind] in *.
  destruct (zget pr 1) as [q1|]; [|done]. cbn [mbind option_bind] in *. injection He as <- -> ->.
  rewrite !i32_diff by done. destruct (Z.eqb_spec (c0 - p0) 0); cbn [mbind option_bind].
  - destruct (Z.ltb_spec (c1 - p1) 0); [apply IH; rewrite ?Hfuel'; lia|]. destruct (Z.ltb_spec 0 (c1 - p1)); [apply IH; rewrite ?Hfuel'; lia|].
    right. replace c0 with p0 by lia. replace c1 with p1 by lia. do 3 eexists. split_and!; [| |exact Hx|exact He'|done]; lia.
  - destruct (Z.ltb_spec (c0 - p0) 0); [apply IH; rewrite ?Hfuel'; lia|]. destruct (Z.ltb_spec 0 (c0 - p0)); [apply IH; rewrite ?Hfuel'; lia|]. lia.
Qed.
End Searches.

(** ** The tables, by computation *)

(** An entry of the table of compositions: its character decomposes to the pair in both
    forms, is a starter when the first of them is one, and the pair composes to it. *)
Definition comp_ok (T : norm_tables) (x : Z) : bool :=
  match comp_entry T x with
  | Some (ch, p0, p1) =>
      is_char p0 && is_char p1 && is_char ch && negb (is_hangul ch) && (0 <? ch) &&
      (negb (cc_of p0 =? 0) || (cc_of ch =? 0)) &&
      bool_decide (unicode_decomp_char T ch false = Some (2, [p0; p1])) &&
      bool_decide (unicode_decomp_char T ch true = Some (2, [p0; p1])) &&
      bool_decide (compose_pair T p0 p1 = Some ch)
  | None => false
  end.

Definition jamos : list Z :=
  map (fun i => 0x1100 + Z.of_nat i) (seq 0 19) ++ map (fun i => 0x1161 + Z.of_nat i) (seq 0 21) ++
  map (fun i => 0x11a8 + Z.of_nat i) (seq 0 27).

Lemma decomp_tables_ok b : forallb (decomp_ok tree_tables b) (decomp_covered unicode_decomp_table1) = true.
Proof. destruct b; vm_compute; reflexivity. Qed.

Lemma comp_table_ok : forallb (comp_ok tree_tables) unicode_comp_table = true.
Proof. vm_compute. reflexivity. Qed.

Lemma jamos_final b : forallb (is_final tree_tables b) jamos = true.
Proof. destruct b; vm_compute; reflexivity. Qed.

#[local] Opaque unicode_decomp_table1 unicode_decomp_table2 unicode_decomp_data unicode_comp_table.

(** ** The tables of the program *)

Lemma zget_elem_of {A} (l : list A) i x : zget l i = Some x -> x ∈ l.
Proof. unfold zget. case_match; [done|]. apply list_elem_of_lookup_2. Qed.

Lemma decomp_covered_spec table v c :
  v ∈ table -> dc_code v <= c < dc_code v + dc_len v -> In c (decomp_covered table).
Proof.
  intros Hv Hc. apply in_flat_map. exists v. split; [by apply list_elem_of_In|].
  apply in_map_iff. exists (Z.to_nat (c - dc_code v)). split; [lia|]. apply in_seq. lia.
Qed.

Lemma decomp_count_eq : decomp_count unicode_tables = 699.
Proof. vm_compute. reflexivity. Qed.

Lemma comp_count_eq : comp_count unicode_tables = 945.
Proof. vm_compute. reflexivity. Qed.

Lemma decomp_table1_total k : 0 <= k < decomp_count unicode_tables -> exists v, decomp_table1 unicode_tables k = Some v.
Proof. apply zget_in_range. Qed.

Lemma decomp_table1_elem k v : decomp_table1 unicode_tables k = Some v -> v ∈ unicode_decomp_table1.
Proof. apply zget_elem_of. Qed.

Lemma comp_table_total k : 0 <= k < comp_count unicode_tables -> exists x, comp_table unicode_tables k = Some x.
Proof. apply zget_in_range. Qed.

Lemma comp_table_elem k x : comp_table unicode_tables k = Some x -> x ∈ unicode_comp_table.
Proof. apply zget_elem_of. Qed.

Lemma unicode_decomp_char_search T c b : unicode_decomp_char T c b = decomp_search T 17 c b 0 (decomp_count T - 1).
Proof. reflexivity. Qed.

Lemma unicode_compose_pair_search T c0 c1 : unicode_compose_pair T c0 c1 = compose_search T 17 c0 c1 0 (comp_count T - 1).
Proof. reflexivity. Qed.

#[local] Opaque unicode_tables unicode_decomp_char unicode_compose_pair.

(** A character without decomposition, or a decomposition that ends. *)
Lemma unicode_decomp_char_cases b c :
  unicode_decomp_char unicode_tables c b = Some (0, []) \/ decomp_ok unicode_tables b c = true.
Proof.
  rewrite unicode_decomp_char_search.
  destruct (decomp_search_cases unicode_tables decomp_table1_total 16 c b 0 (decomp_count unicode_tables - 1))
    as [H|(k & v & Hv & Hc)]; [lia|lia|by rewrite decomp_count_eq|by left|right].
  rewrite <- (decomp_ok_eq _ _ _ _ tree_tables_eq).
  pose proof (decomp_tables_ok b) as Hall. rewrite forallb_forall in Hall. apply Hall.
  eapply decomp_covered_spec; [|done]. by eapply decomp_table1_elem.
Qed.

Lemma is_final_jamo b c : c ∈ jamos -> is_final unicode_tables b c = true.
Proof.
  intros Hc. rewrite <- (is_final_eq _ _ tree_tables_eq). pose proof (jamos_final b) as H.
  rewrite forallb_forall in H. apply H. by apply list_elem_of_In.
Qed.

Lemma hangul_jamos_in c : is_hangul c = true -> Forall (fun x => x ∈ jamos) (hangul_jamos c).
Proof.
  unfold is_hangul, hangul_jamos, jamos. intros H. bool_props.
  assert (Hin : forall a n x, a <= x < a + Z.of_nat n -> x ∈ map (fun i => a + Z.of_nat i) (seq 0 n)).
  { intros a n x Hx. apply list_elem_of_In, in_map_iff. exists (Z.to_nat (x - a)). split; [lia|]. apply in_seq. lia. }
  constructor; [|constructor].
  - apply elem_of_app. left. apply Hin. zdm.
  - apply elem_of_app. right. apply elem_of_app. left. apply Hin. zdm.
  - destruct (Z.eqb_spec ((c - 0xac00) mod 28) 0); constructor; [|constructor].
    apply elem_of_app. right. apply elem_of_app. right. apply Hin. zdm.
Qed.

Lemma jamos_chars c : c ∈ jamos -> is_char c = true.
Proof.
  intros Hc. assert (Hall : forallb is_char jamos = true) by (vm_compute; reflexivity).
  rewrite forallb_forall in Hall. apply Hall. by apply list_elem_of_In.
Qed.

(** Characters that are in range and have no decomposition. *)
Definition all_final (b : bool) (l : list Z) : Prop := Forall (fun c => is_final unicode_tables b c = true /\ is_char c = true) l.

Lemma is_final_spec b c :
  is_final unicode_tables b c = true ->
  is_hangul c = false /\ exists res, unicode_decomp_char unicode_tables c b = Some (0, res).
Proof.
  unfold is_final. intros [H1 H2]%andb_true_iff. split; [by apply negb_true_iff in H1|].
  destruct (unicode_decomp_char _ c b) as [[n res]|]; [|done]. bool_props. subst. eauto.
Qed.

Lemma nfd_list_one T depth b c : nfd_list T (S depth) b [c] = nfd_char T b (nfd_list T depth b) c.
Proof.
  cbn [nfd_list mapM]. destruct (nfd_char T b _ c) as [d|]; [|done]. cbn. by rewrite app_nil_r.
Qed.

(** The decomposition of one character. *)
Lemma nfd_char_total b c :
  is_char c = true ->
  exists d, nfd_char unicode_tables b (nfd_list unicode_tables 7 b) c = Some d /\
    all_final b d /\ zlen d <= 18.
Proof.
  intros Hc. destruct (is_hangul c) eqn:Hh.
  { exists (hangul_jamos c). unfold nfd_char. rewrite Hh. split_and!; [done| |].
    - eapply Forall_impl; [by apply hangul_jamos_in|]. intros x Hx. split; [by apply is_final_jamo|by apply jamos_chars].
    - unfold hangul_jamos. destruct (_ =? 0); vm_compute; congruence. }
  destruct (unicode_decomp_char_cases b c) as [H0|Hok].
  - exists [c]. split_and!; [unfold nfd_char; by rewrite Hh, H0| |vm_compute; congruence].
    repeat constructor; [|done]. unfold is_final. by rewrite Hh, H0.
  - unfold decomp_ok in Hok. change NFD_DEPTH with (S 7) in Hok. rewrite nfd_list_one in Hok. destruct (nfd_char _ _ _ c) as [d|]; [|done]. exists d. split; [done|].
    apply andb_true_iff in Hok as [[H1 H2]%andb_true_iff H3].
    bool_props. rewrite forallb_forall in H1, H2. split; [|done]. apply Forall_forall. intros x Hx%list_elem_of_In.
    split; [by apply H1|by apply H2].
Qed.

(** ** Full decompositions *)

(** The full decomposition of a text: the mapping of each character, canonical or for
    compatibility, is applied until it has none. *)
Inductive full_decomp (b : bool) : list Z -> list Z -> Prop :=
  | fd_nil : full_decomp b [] []
  | fd_hangul c l d :
      is_hangul c = true -> full_decomp b l d -> full_decomp b (c :: l) (hangul_jamos c ++ d)
  | fd_mapping c n res m l d1 d2 :
      is_hangul c = false -> unicode_decomp_char unicode_tables c b = Some (n, res) -> n <> 0 ->
      zslice res 0 n = Some m -> full_decomp b m d1 -> full_decomp b l d2 -> full_decomp b (c :: l) (d1 ++ d2)
  | fd_final c l d :
      is_final unicode_tables b c = true -> full_decomp b l d -> full_decomp b (c :: l) (c :: d).

Lemma full_decomp_det b l d : full_decomp b l d -> forall d', full_decomp b l d' -> d = d'.
Proof.
  induction 1 as [|c l d Hc Hl IH|c n res m l d1 d2 Hc Hd Hn Hm Hm' IH1 Hl IH2|c l d Hc Hl IH];
    intros d' H'; inversion H'; subst; try done;
    repeat match goal with H : is_final _ _ _ = true |- _ => apply is_final_spec in H as [? [? ?]] end; try congruence.
  - f_equal. auto.
  - match goal with Hx : unicode_decomp_char _ _ _ = Some (?n', ?r') |- _ =>
      lazymatch n' with n => fail | _ => rewrite Hd in Hx; injection Hx as <- <- end end.
    match goal with Hx : zslice res 0 n = Some ?m' |- _ =>
      lazymatch m' with m => fail | _ => rewrite Hm in Hx; injection Hx as <- end end.
    f_equal; auto.
  - f_equal. auto.
Qed.

Lemma full_decomp_app b l1 l2 d1 d2 : full_decomp b l1 d1 -> full_decomp b l2 d2 -> full_decomp b (l1 ++ l2) (d1 ++ d2).
Proof.
  intros H1 H2. induction H1; cbn [app]; rewrite <- ?app_assoc; try by econstructor. done.
Qed.

Lemma full_decomp_finals b l : all_final b l -> full_decomp b l l.
Proof. induction 1 as [|c l [Hc _] Hl IH]; by constructor. Qed.

(** The part of a decomposition that comes from the start of a text. *)
Lemma full_decomp_app_inv b l1 l2 d :
  full_decomp b (l1 ++ l2) d -> exists d1 d2, d = d1 ++ d2 /\ full_decomp b l1 d1 /\ full_decomp b l2 d2.
Proof.
  revert d. induction l1 as [|c l1 IH]; intros d H; [exists [], d; by split_and!; [|constructor|]|].
  cbn [app] in H. inversion H as [|? ? d' Hc Hl|? n res m ? d1 d2 Hc Hd Hn Hm Hm' Hl|? ? d' Hc Hl]; subst;
    apply IH in Hl as (e1 & e2 & -> & He1 & He2).
  - exists (hangul_jamos c ++ e1), e2. rewrite <- app_assoc. split_and!; [done|by constructor|done].
  - exists (d1 ++ e1), e2. rewrite <- app_assoc. split_and!; [done|by econstructor|done].
  - exists (c :: e1), e2. split_and!; [done|by constructor|done].
Qed.

Lemma nfd_list_full depth b src d : nfd_list unicode_tables depth b src = Some d -> full_decomp b src d.
Proof.
  revert src d. induction depth as [|depth IH]; intros src d H; [done|]. cbn [nfd_list] in H.
  apply fmap_Some in H as (ds & Hds & ->). apply mapM_Some in Hds.
  induction Hds as [|c e src ds Hc Hds IHs]; [constructor|]. cbn [concat].
  unfold nfd_char in Hc. destruct (is_hangul c) eqn:Hh; [injection Hc as <-; by constructor|].
  destruct (unicode_decomp_char unicode_tables c b) as [[l res]|] eqn:Hd; [|done]. cbn [mbind option_bind] in Hc.
  destruct (Z.eqb_spec l 0) as [->|Hl].
  - injection Hc as <-. cbn [app]. constructor; [|done]. unfold is_final. by rewrite Hh, Hd.
  - destruct (zslice res 0 l) as [m|] eqn:Hm; [|done]. cbn [mbind option_bind] in Hc. econstructor; eauto.
Qed.

Lemma nfd_list_S T depth b src :
  nfd_list T (S depth) b src = @concat Z <$> mapM (nfd_char T b (nfd_list T depth b)) src.
Proof. done. Qed.

Lemma nfd_list_total b src :
  Forall (fun c => is_char c = true) src ->
  exists d, nfd_list unicode_tables NFD_DEPTH b src = Some d /\ all_final b d /\ zlen d <= 18 * zlen src.
Proof.
  intros Hsrc. change NFD_DEPTH with (S 7). rewrite nfd_list_S.
  assert (exists ds, mapM (nfd_char unicode_tables b (nfd_list unicode_tables 7 b)) src = Some ds /\
    all_final b (concat ds) /\ zlen (concat ds) <= 18 * zlen src) as (ds & -> & H); [|by exists (concat ds)].
  induction Hsrc as [|c src Hc Hsrc (ds & Hds & Hf & Hl)]; [exists []; by split_and!; [|constructor|vm_compute; congruence]|].
  destruct (nfd_char_total b c Hc) as (d & Hd & Hdf & Hdl). exists (d :: ds). cbn [mapM concat].
  rewrite Hd. cbn [mbind option_bind]. rewrite Hds. split_and!; [done|by apply Forall_app|zlen_lia].
Qed.

(** ** The buffer of [unicode_normalize] *)

Section Buffer.
Context `{!Allocator}.

(** [to_nfd_rec] writes the decomposition. *)
Lemma to_nfd_rec_ops depth dbuf src b d :
  nfd_list unicode_tables depth b src = Some d -> to_nfd_rec depth dbuf src b = exec_ops dbuf (map OpPutU32 d).
Proof.
  revert dbuf src d. induction depth as [|depth IH]; intros dbuf src d Hd; [done|]. cbn [nfd_list] in Hd.
  apply fmap_Some in Hd as (ds & Hds & ->). apply mapM_Some in Hds. cbn [to_nfd_rec].
  assert (Hgen : forall acc : option DynBuf, foldl (fun (dbuf : option DynBuf) c =>
        dbuf ← dbuf;
        if (0xac00 <=? c) && (c <? 0xd7a4) then
          let c := c - 0xac00 in
          '(dbuf, _) ← dbuf_put_u32 dbuf (0x1100 + c / 588);
          '(dbuf, _) ← dbuf_put_u32 dbuf (0x1161 + c mod 588 / 28);
          let v := c mod 28 in
          if v =? 0 then Some dbuf
          else '(dbuf, _) ← dbuf_put_u32 dbuf (0x11a7 + v); Some dbuf
        else
          '(l, res) ← unicode_decomp_char unicode_tables c b;
          if l =? 0 then '(dbuf, _) ← dbuf_put_u32 dbuf c; Some dbuf
          else src ← zslice res 0 l; to_nfd_rec depth dbuf src b) acc src =
    acc ≫= fun s => exec_ops s (map OpPutU32 (concat ds))); [|apply (Hgen (Some dbuf))].
  induction Hds as [|c e src ds Hc Hds IHs]; intros acc; [by destruct acc|]. cbn [foldl concat].
  rewrite IHs, map_app. destruct acc as [s|]; [|done]. cbn [mbind option_bind].
  rewrite exec_ops_app. unfold nfd_char in Hc. change ((0xac00 <=? c) && (c <? 0xd7a4)) with (is_hangul c).
  assert (Hw : forall v, (exec_ops s [OpPutU32 v] : option DynBuf) = ('(s', _) ← dbuf_put_u32 s v; Some s')) by done.
  destruct (is_hangul c).
  - injection Hc as <-. unfold hangul_jamos. f_equal. cbv zeta.
    destruct (_ mod 28 =? 0); cbn [map app exec_ops exec_op]; done.
  - destruct (unicode_decomp_char unicode_tables c b) as [[l res]|]; [|done]. cbn [mbind option_bind] in *.
    destruct (l =? 0); [injection Hc as <-; done|].
    destruct (zslice res 0 l) as [m|]; [|done]. cbn [mbind option_bind] in *. by rewrite (IH s m e).
Qed.

Lemma to_ints_put l : Forall (fun c => is_char c = true) l -> to_ints (ops_bytes (map OpPutU32 l)) = l.
Proof.
  induction 1 as [|c l Hc Hl IH]; [done|]. unfold ops_bytes in *. cbn [map concat op_bytes le_split app to_ints].
  rewrite IH. f_equal. change (le_combine (le_split 4 (u32 c)) = c). rewrite le_combine_split.
  unfold is_char in Hc. bool_props. unfold u32, wrapu. change (8 * Z.of_nat 4) with 32. change (2 ^ 32) with 4294967296.
  rewrite !Z.mod_small; rewrite ?Z.mod_small; lia.
Qed.

Lemma zlen_put l : zlen (ops_bytes (map OpPutU32 l)) = 4 * zlen l.
Proof. induction l as [|c l IH]; [done|]. unfold ops_bytes in *. cbn [map concat]. rewrite zlen_app, IH, zlen_cons. unfold zlen. simpl. lia. Qed.
End Buffer.

(** ** Composition of a pair *)

Lemma comp_entry_eq T T' x : tables_eq T T' -> comp_entry T x = comp_entry T' x.
Proof.
  intros HT. unfold comp_entry. rewrite (eq_table1 _ _ HT). destruct (decomp_table1 T' _) as [v|]; [|done].
  cbn [mbind option_bind]. by rewrite (unicode_decomp_entry_eq _ _ HT).
Qed.

Lemma compose_pair_eq T T' c0 c1 : tables_eq T T' -> compose_pair T c0 c1 = compose_pair T' c0 c1.
Proof. intros HT. unfold compose_pair. by rewrite (unicode_compose_pair_eq _ _ HT). Qed.

(** What the check of the table of compositions says of its entries. *)
Lemma comp_table_entry k :
  0 <= k < comp_count unicode_tables ->
  exists x ch p0 p1, comp_table unicode_tables k = Some x /\ comp_entry unicode_tables x = Some (ch, p0, p1) /\
    is_char p0 = true /\ is_char p1 = true /\ is_char ch = true /\ is_hangul ch = false /\ ch <> 0 /\
    (cc_of p0 = 0 -> cc_of ch = 0) /\
    (forall b, unicode_decomp_char unicode_tables ch b = Some (2, [p0; p1])) /\
    compose_pair unicode_tables p0 p1 = Some ch.
Proof.
  intros Hk. destruct (comp_table_total k Hk) as [x Hx].
  pose proof comp_table_ok as Hall. rewrite forallb_forall in Hall.
  specialize (Hall x (proj1 (list_elem_of_In _ _) (comp_table_elem _ _ Hx))). unfold comp_ok in Hall.
  rewrite (comp_entry_eq _ _ _ tree_tables_eq) in Hall.
  destruct (comp_entry unicode_tables x) as [[[ch p0] p1]|] eqn:He; [|done].
  rewrite !(unicode_decomp_char_eq _ _ tree_tables_eq), (compose_pair_eq _ _ _ _ tree_tables_eq) in Hall.
  bool_props. exists x, ch, p0, p1. split; [exact Hx|]. split; [exact He|].
  do 4 (split; [assumption|]). split; [lia|]. split; [|split; [by intros []|assumption]].
  intros Hz. rewrite Hz in *. by match goal with h : (negb _ || _) = true |- _ => cbn in h; apply Z.eqb_eq in h end.
Qed.

Lemma unicode_compose_pair_spec c0 c1 :
  is_char c0 = true -> is_char c1 = true ->
  unicode_compose_pair unicode_tables c0 c1 = Some 0 \/
  exists ch, unicode_compose_pair unicode_tables c0 c1 = Some ch /\
    is_char ch = true /\ is_hangul ch = false /\ ch <> 0 /\ (cc_of c0 = 0 -> cc_of ch = 0) /\
    (forall b, unicode_decomp_char unicode_tables ch b = Some (2, [c0; c1])).
Proof.
  intros H0 H1. rewrite unicode_compose_pair_search.
  assert (Hc : forall k, 0 <= k < comp_count unicode_tables -> exists x ch p0 p1,
    comp_table unicode_tables k = Some x /\ comp_entry unicode_tables x = Some (ch, p0, p1) /\ is_char p0 /\ is_char p1).
  { intros k Hk. destruct (comp_table_entry k Hk) as (x & ch & p0 & p1 & Hx & He & Hp0 & Hp1 & _).
    exists x, ch, p0, p1. apply Is_true_true in Hp0, Hp1. exact (conj Hx (conj He (conj Hp0 Hp1))). }
  apply Is_true_true in H0, H1.
  destruct (compose_search_cases unicode_tables Hc 16 c0 c1 0 (comp_count unicode_tables - 1) H0 H1 ltac:(lia) ltac:(lia)
    ltac:(by rewrite comp_count_eq)) as [H|(k & x & ch & Hk & Hx & He & H)].
  { by left. }
  right. exists ch. destruct (comp_table_entry k Hk) as (x' & ch' & p0 & p1 & Hx' & He' & _ & _ & Hch & Hh & Hz & Hcc & Hd & _).
  rewrite Hx in Hx'. injection Hx' as <-. rewrite He in He'. injection He' as <- <- <-.
  exact (conj H (conj Hch (conj Hh (conj Hz (conj Hcc Hd))))).
Qed.

Lemma full_decomp_one b c d : full_decomp b [c] d -> is_final unicode_tables b c = true -> d = [c].
Proof.
  intros Hd Hc. eapply full_decomp_det; [done|]. apply fd_final; [done|constructor].
Qed.

(** A composed character has the decomposition of the pair. *)
Lemma compose_pair_spec b s x ds :
  is_char s = true -> is_char x = true -> x <> 0x11a7 -> is_final unicode_tables b x = true ->
  full_decomp b [s] ds ->
  compose_pair unicode_tables s x = Some 0 \/
  exists p, compose_pair unicode_tables s x = Some p /\ p <> 0 /\ is_char p = true /\
    (cc_of s = 0 -> cc_of p = 0) /\ full_decomp b [p] (ds ++ [x]).
Proof.
  intros Hs Hx Hx7 Hxf Hds. unfold compose_pair. destruct (_ && _ && _ && _) eqn:H1.
  { right. bool_props. eexists. split; [done|].
    assert (ds = [s]) as ->.
    { apply (full_decomp_one b); [done|]. apply is_final_jamo, elem_of_app. left.
      apply list_elem_of_In, in_map_iff. exists (Z.to_nat (s - 0x1100)). split; [lia|]. apply in_seq. lia. }
    split_and!; [lia|unfold is_char; apply andb_true_iff; lia|intros _; apply hangul_starter; lia|].
    assert (Hj : [s; x] = hangul_jamos (0xac00 + (s - 0x1100) * 588 + (x - 0x1161) * 28) ++ []).
    { unfold hangul_jamos. rewrite app_nil_r. case_match; bool_props.
      - cbn [app]. f_equal; [zdm|]. f_equal; zdm.
      - zdm. }
    cbn [app]. rewrite Hj. apply fd_hangul; [unfold is_hangul; apply andb_true_iff; lia|constructor]. }
  destruct (_ && _ && _ && _) eqn:H2 in |- *.
  { right. bool_props. eexists. split; [done|].
    assert (ds = hangul_jamos s ++ []) as ->.
    { eapply full_decomp_det; [done|]. apply fd_hangul; [unfold is_hangul; apply andb_true_iff; lia|constructor]. }
    split_and!; [lia|unfold is_char; apply andb_true_iff; lia|intros _; apply hangul_starter; zdm|].
    assert (Hj : (hangul_jamos s ++ []) ++ [x] = hangul_jamos (s + x - 0x11a7) ++ []).
    { unfold hangul_jamos. rewrite !app_nil_r. case_match; bool_props; [|zdm]. case_match; bool_props; [zdm|].
      cbn [app]. f_equal; [zdm|]. f_equal; [zdm|]. f_equal. zdm. }
    rewrite Hj. apply fd_hangul; [unfold is_hangul; apply andb_true_iff; zdm|constructor]. }
  destruct (unicode_compose_pair_spec s x Hs Hx) as [->|(p & -> & Hp & Hh & Hp0 & Hcc & Hd)]; [by left|right].
  exists p. split_and!; try done. rewrite <- (app_nil_r (ds ++ [x])).
  eapply fd_mapping; [done|apply Hd|done|done| |constructor].
  apply (full_decomp_app b [s] [x]); [done|]. apply fd_final; [done|constructor].
Qed.

(** ** Composition of a text *)

(** Two neighbours of different classes can be exchanged before the ordering. *)
Lemma cc_insert_comm x m r : cc_of m < cc_of x -> cc_insert x (cc_insert m r) = cc_insert m (cc_insert x r).
Proof.
  intros Hlt. induction r as [|d r IH]; cbn [cc_insert].
  - destruct (Z.leb_spec (cc_of m) (cc_of x)), (Z.leb_spec (cc_of x) (cc_of m)); lia || done.
  - destruct (Z.leb_spec (cc_of d) (cc_of m)), (Z.leb_spec (cc_of d) (cc_of x)); try lia; cbn [cc_insert];
      repeat match goal with |- context [?a <=? ?b] => destruct (Z.leb_spec a b); try lia end; try done.
    by rewrite IH.
Qed.

Lemma canon_order_move r M x R :
  Forall (fun m => cc_of m <> 0 /\ cc_of m < cc_of x) M -> 0 <= x -> (M = [] \/ cc_of x <> 0) ->
  canon_order r (M ++ x :: R) = canon_order r (x :: M ++ R).
Proof.
  intros HM Hx Hx0. revert r. induction HM as [|m M [Hm0 Hlt] HM IH]; intros r; [done|].
  destruct Hx0 as [|Hx0]; [done|]. cbn [app canon_order] in *. rewrite (proj2 (Z.eqb_neq _ 0) Hm0).
  rewrite IH by auto. rewrite (proj2 (Z.eqb_neq _ 0) Hx0). cbn [canon_order]. by rewrite cc_insert_comm.
Qed.

Lemma canon_order_prefix A l1 l2 r :
  (forall r, canon_order r l1 = canon_order r l2) -> canon_order r (A ++ l1) = canon_order r (A ++ l2).
Proof.
  intros Heq. revert r. induction A as [|a A IH]; intros r; [done|]. cbn [app canon_order]. by rewrite !IH.
Qed.

(** The order of a text depends on the classes only. *)
Lemma ordered_classes l l' : map cc_of l = map cc_of l' -> ordered l -> ordered l'.
Proof.
  revert l'. induction l as [|a l IH]; intros [|a' l'] Hm; try done. injection Hm as Ha Hm.
  intros [Hh Ht]%ordered_cons. apply ordered_cons. split; [|by apply IH].
  destruct l as [|b l], l' as [|b' l']; try done. injection Hm as Hb _. by rewrite <- Ha, <- Hb.
Qed.

Lemma ordered_app_r l1 l2 : ordered (l1 ++ l2) -> ordered l2.
Proof. induction l1 as [|a l1 IH]; [done|]. intros [_ ?]%ordered_cons. auto. Qed.

Lemma ordered_app_l l1 l2 : ordered (l1 ++ l2) -> ordered l1.
Proof.
  induction l1 as [|a l1 IH]; [done|]. intros [Hh Ht]%ordered_cons. apply ordered_cons. split; [|by apply IH].
  by destruct l1.
Qed.

(** Taking out a character that is not blocked keeps the order. *)
Lemma ordered_remove p A x R :
  chars_ok (x :: R) -> (cc_of x = 0 -> cc_of p = 0) -> ordered (A ++ p :: x :: R) -> ordered (A ++ p :: R).
Proof.
  intros Hch Hx. induction A as [|a A IH]; cbn [app]; intros [Hh Ht]%ordered_cons; apply ordered_cons.
  - apply ordered_cons in Ht as [Hh2 Ht]. split; [|done]. inversion_clear Hch as [|?? Hx0 HR].
    destruct HR as [|h R Hh0 HR]; [done|]. pose proof (cc_of_range h Hh0). destruct Hh as [Hz|Hle].
    + rewrite (Hx Hz). lia.
    + lia.
  - split; [by destruct A|by apply IH].
Qed.

(** In an ordered run of non-starters the last class is the greatest. *)
Lemma ordered_run_max M l :
  Forall (fun m => cc_of m <> 0) M -> cc_of l <> 0 -> ordered (M ++ [l]) -> Forall (fun m => cc_of m <= cc_of l) M.
Proof.
  intros HM Hl. induction HM as [|m M Hm HM IH]; [constructor|]. cbn [app]. intros [Hh Ht]%ordered_cons.
  specialize (IH Ht). constructor; [|done]. destruct M as [|m' M]; cbn [app] in Hh; [lia|].
  apply Forall_cons in HM as [Hm' _]. apply Forall_cons in IH as [Hm'l _]. lia.
Qed.

(** [find_starter]: the last starter of the output and the non-starters after it. *)
Definition starter_split (out : list Z) (pos : Z) : Prop :=
  (pos = -1 /\ Forall (fun m => cc_of m <> 0) out) \/
  exists A s M, out = A ++ s :: M /\ zlen A = pos /\ cc_of s = 0 /\ Forall (fun m => cc_of m <> 0) M.

Lemma starter_split_snoc out y pos : cc_of y <> 0 -> starter_split out pos -> starter_split (out ++ [y]) pos.
Proof.
  intros Hy [[-> Ho]|(A & s & M & -> & HA & Hs & HM)].
  - left. split; [done|]. apply Forall_app. by repeat constructor.
  - right. exists A, s, (M ++ [y]). rewrite <- app_assoc. split_and!; try done. apply Forall_app. by repeat constructor.
Qed.

Lemma find_starter_all fuel out tail :
  chars_ok out -> (length out < fuel)%nat ->
  exists pos, find_starter fuel (out ++ tail) (zlen out - 1) 256 = Some (Some pos) /\ starter_split out pos.
Proof.
  revert out tail. induction fuel as [|fuel IH]; intros out tail Hch Hf; [lia|]. cbn [find_starter].
  destruct out as [|y out _] using rev_ind.
  { exists (-1). split; [reflexivity|]. left. by split. }
  apply Forall_app in Hch as [Hch Hy%Forall_inv]. rewrite length_app in Hf. simpl in Hf.
  rewrite zlen_app, <- app_assoc. cbn [app]. pose proof (zlen_nonneg out).
  change (zlen [y]) with 1. destruct (Z.leb_spec 0 (zlen out + 1 - 1)); [|lia].
  rewrite zget_mid by lia. cbn [mbind option_bind]. rewrite unicode_get_cc_exact by done. cbn [mbind option_bind].
  pose proof (cc_of_range y Hy). destruct (Z.eqb_spec (cc_of y) 0) as [Hz|Hz].
  - exists (zlen out + 1 - 1). split; [done|]. right. exists out, y, []. split_and!; [done|lia|done|constructor].
  - destruct (Z.leb_spec 256 (cc_of y)); [lia|].
    destruct (IH out (y :: tail) Hch ltac:(lia)) as (pos & Hpos & Hsp). exists pos.
    rewrite <- Hpos. split; [f_equal; lia|by apply starter_split_snoc].
Qed.

Lemma find_starter_spec fuel out y tail last_cc :
  chars_ok (out ++ [y]) -> (length out + 1 < fuel)%nat ->
  (find_starter fuel ((out ++ [y]) ++ tail) (zlen (out ++ [y]) - 1) last_cc = Some None /\ cc_of y <> 0 /\ last_cc <= cc_of y) \/
  exists pos, find_starter fuel ((out ++ [y]) ++ tail) (zlen (out ++ [y]) - 1) last_cc = Some (Some pos) /\
    starter_split (out ++ [y]) pos /\ (cc_of y = 0 \/ cc_of y < last_cc).
Proof.
  intros Hch Hf. destruct fuel as [|fuel]; [lia|]. cbn [find_starter].
  apply Forall_app in Hch as [Hch Hy%Forall_inv].
  rewrite zlen_app, <- app_assoc. cbn [app]. pose proof (zlen_nonneg out).
  change (zlen [y]) with 1. destruct (Z.leb_spec 0 (zlen out + 1 - 1)); [|lia].
  rewrite zget_mid by lia. cbn [mbind option_bind]. rewrite unicode_get_cc_exact by done. cbn [mbind option_bind].
  destruct (Z.eqb_spec (cc_of y) 0) as [Hz|Hz].
  - right. exists (zlen out + 1 - 1). split_and!; [done| |by left]. right. exists out, y, []. split_and!; [done|lia|done|constructor].
  - destruct (Z.leb_spec last_cc (cc_of y)); [by left|]. right.
    destruct (find_starter_all fuel out (y :: tail) Hch ltac:(lia)) as (pos & Hpos & Hsp). exists pos.
    rewrite <- Hpos. split_and!; [f_equal; lia|by apply starter_split_snoc|by right].
Qed.

#[local] Opaque compose_pair.

(** The invariant of the composition: [out] is the output so far, with decomposition
    [dout], [rest] is the input that is left, and [D] is the ordered decomposition. *)
Record compose_inv (b : bool) (D out rest dout : list Z) : Prop := {
  ci_decomp : full_decomp b out dout;
  ci_equiv : canonical_order (dout ++ rest) = D;
  ci_rest : all_final b rest;
  ci_chars : Forall (fun c => is_char c = true) out;
  ci_11a7 : Forall (fun c => c <> 0x11a7) rest;
  ci_ordered : ordered (out ++ rest);
  ci_nonstarters : Forall (fun c => cc_of c <> 0 -> is_final unicode_tables b c = true /\ is_char c = true) out }.

Lemma is_char_nonneg c : is_char c = true -> 0 <= c.
Proof. unfold is_char. intros Hc. by bool_props. Qed.

Lemma chars_nonneg l : Forall (fun c => is_char c = true) l -> chars_ok l.
Proof. intros Hl. eapply Forall_impl; [exact Hl|]. apply is_char_nonneg. Qed.

Lemma all_final_chars b l : all_final b l -> chars_ok l.
Proof. intros Hl. eapply Forall_impl; [exact Hl|]. intros c [_ Hc]. by apply is_char_nonneg. Qed.

(** The character is appended to the output. *)
Lemma compose_inv_next b D out x R dout :
  compose_inv b D out (x :: R) dout -> compose_inv b D (out ++ [x]) R (dout ++ [x]).
Proof.
  intros [Hd He Hr Hc H7 Ho Hn]. apply Forall_cons in Hr as [[Hxf Hx] Hr]. apply Forall_cons in H7 as [Hx7 H7].
  split; try done.
  - apply full_decomp_app; [done|]. apply fd_final; [done|constructor].
  - by rewrite <- app_assoc.
  - apply Forall_app. by repeat constructor.
  - by rewrite <- app_assoc.
  - apply Forall_app. by repeat constructor.
Qed.

(** The characters between the starter and a character that is not blocked. *)
Lemma not_blocked b D out0 y x R dout A s M :
  compose_inv b D (out0 ++ [y]) (x :: R) dout -> out0 ++ [y] = A ++ s :: M ->
  Forall (fun m => cc_of m <> 0) M -> (cc_of y = 0 \/ cc_of y < cc_of x) ->
  Forall (fun m => cc_of m <> 0 /\ cc_of m < cc_of x) M /\ (M = [] \/ cc_of x <> 0).
Proof.
  intros Hinv Hout HM Hb. destruct M as [|m M0 _] using rev_ind; [by auto|].
  rewrite app_comm_cons, app_assoc in Hout. apply app_inj_tail in Hout as [Hout ->].
  apply Forall_app in HM as [HM Hm%Forall_inv]. destruct Hb as [|Hb]; [done|].
  pose proof (ci_ordered _ _ _ _ _ Hinv) as Ho. apply ordered_app_l in Ho. rewrite Hout, <- app_assoc in Ho.
  apply ordered_app_r in Ho. cbn [app] in Ho. apply ordered_cons in Ho as [_ Ho].
  pose proof (ordered_run_max M0 m HM Hm Ho) as Hle.
  assert (0 <= m).
  { pose proof (ci_chars _ _ _ _ _ Hinv) as Hc. apply Forall_app in Hc as [_ Hc%Forall_inv]. by apply is_char_nonneg. }
  pose proof (cc_of_range m ltac:(done)). split; [|right; lia].
  apply Forall_app. split; [|by repeat constructor].
  apply Forall_forall. intros k Hk. rewrite Forall_forall in HM, Hle. specialize (HM k Hk). specialize (Hle k Hk). cbn in *. lia.
Qed.

(** The character is composed with the starter. *)
Lemma compose_inv_compose b D out0 y x R dout A s M p :
  compose_inv b D (out0 ++ [y]) (x :: R) dout -> out0 ++ [y] = A ++ s :: M -> cc_of s = 0 ->
  Forall (fun m => cc_of m <> 0) M -> (cc_of y = 0 \/ cc_of y < cc_of x) ->
  (forall ds, full_decomp b [s] ds ->
    is_char p = true /\ (cc_of s = 0 -> cc_of p = 0) /\ full_decomp b [p] (ds ++ [x])) ->
  exists dout', compose_inv b D (A ++ p :: M) R dout'.
Proof.
  intros Hinv Hout Hs HM Hb Hp. destruct (not_blocked _ _ _ _ _ _ _ _ _ _ Hinv Hout HM Hb) as [HMx Hx0].
  pose proof Hinv as [Hd He Hr Hc H7 Ho Hn]. rewrite Hout in Hd, Hc, Hn.
  destruct (full_decomp_app_inv _ _ _ _ Hd) as (dA & d1 & -> & HdA & Hd1).
  destruct (full_decomp_app_inv b [s] M d1 Hd1) as (ds & dM & -> & Hds & HdM).
  apply Forall_app in Hc as [HcA [Hcs HcM]%Forall_cons]. apply Forall_app in Hn as [HnA [_ HnM]%Forall_cons].
  assert (HMf : all_final b M).
  { apply Forall_forall. intros m Hm. rewrite Forall_forall in HnM, HM. exact (HnM m Hm (HM m Hm)). }
  assert (dM = M) as -> by (eapply full_decomp_det; [done|by apply full_decomp_finals]).
  destruct (Hp ds Hds) as (Hpc & Hp0 & Hpd). specialize (Hp0 Hs).
  pose proof (all_final_chars _ _ Hr) as Hxch. pose proof (Forall_inv Hxch) as Hx. cbn in Hx.
  apply Forall_cons in Hr as [_ Hr]. apply Forall_cons in H7 as [_ H7].
  exists (dA ++ (ds ++ [x]) ++ M). split; try done.
  - apply full_decomp_app; [done|]. apply (full_decomp_app b [p] M); [done|by apply full_decomp_finals].
  - rewrite <- He. unfold canonical_order. rewrite <- !app_assoc. apply canon_order_prefix. intros r.
    apply canon_order_prefix. intros r'. cbn [app]. symmetry. by apply canon_order_move.
  - apply Forall_app. by repeat constructor.
  - apply (ordered_classes (out0 ++ y :: R)).
    + rewrite (cons_middle y out0), app_assoc, Hout, !map_app. cbn [map]. by rewrite Hs, Hp0.
    + apply (ordered_remove y out0 x R); [done| |by rewrite <- app_assoc in Ho].
      intros Hxz. pose proof (ci_chars _ _ _ _ _ Hinv) as Hc. apply Forall_app in Hc as [_ Hy%Forall_inv%is_char_nonneg].
      pose proof (cc_of_range y Hy). lia.
  - apply Forall_app. split; [done|]. constructor; [lia|done].
Qed.

Lemma zset_next (out junk R : list Z) x :
  exists junk', zset (out ++ junk ++ x :: R) (zlen out) x = Some ((out ++ [x]) ++ junk' ++ R) /\ zlen junk' = zlen junk.
Proof.
  destruct junk as [|j junk]; cbn [app].
  - exists []. rewrite zset_mid by done. by rewrite <- app_assoc.
  - exists (junk ++ [x]). rewrite zset_mid by done. split; [by rewrite <- !app_assoc|zlen_lia].
Qed.

(** What composing the starter and the character gives. *)
Lemma compose_cases b D out x R dout A s M :
  compose_inv b D out (x :: R) dout -> out = A ++ s :: M ->
  compose_pair unicode_tables s x = Some 0 \/
  exists p, compose_pair unicode_tables s x = Some p /\ p <> 0 /\
    forall ds, full_decomp b [s] ds -> is_char p = true /\ (cc_of s = 0 -> cc_of p = 0) /\ full_decomp b [p] (ds ++ [x]).
Proof.
  intros [Hd _ Hr Hc H7 _ _] ->. destruct (Forall_inv Hr) as [Hxf Hx]. pose proof (Forall_inv H7) as Hx7. cbn in Hx7.
  apply Forall_app in Hc as [_ Hs%Forall_inv]. destruct (full_decomp_app_inv _ _ _ _ Hd) as (dA & d1 & _ & _ & Hd1).
  destruct (full_decomp_app_inv b [s] M d1 Hd1) as (ds & dM & _ & Hds & _).
  destruct (compose_pair_spec b s x ds Hs Hx Hx7 Hxf Hds) as [Hp|(p & Hp & Hp0 & Hpc & Hcc & Hpd)]; [by left|right].
  exists p. split; [done|]. split; [done|]. intros ds' Hds'. rewrite <- (full_decomp_det _ _ _ Hds _ Hds'). done.
Qed.

(** The composition ends with a text that has the same ordered decomposition. *)
Lemma compose_loop_spec fuel b D out junk rest dout :
  out <> [] -> compose_inv b D out rest dout -> (length rest < fuel)%nat ->
  exists buf' out' dout',
    compose_loop fuel (out ++ junk ++ rest) (zlen (out ++ junk ++ rest)) (zlen (out ++ junk)) (zlen out) = Some (buf', zlen out') /\
    take (length out') buf' = out' /\ zlen out' <= zlen out + zlen rest /\ compose_inv b D out' [] dout'.
Proof.
  revert out junk rest dout. induction fuel as [|fuel IH]; intros out junk rest dout Hne Hinv Hf; [lia|].
  cbn [compose_loop]. destruct rest as [|x R].
  { rewrite app_nil_r, Z.ltb_irrefl. exists (out ++ junk), out, dout. rewrite take_app_length. split_and!; [done|done|zlen_lia|done]. }
  assert (Hlen : zlen (out ++ junk) < zlen (out ++ junk ++ x :: R)) by zlen_lia.
  assert (Hg : zget (out ++ junk ++ x :: R) (zlen (out ++ junk)) = Some x) by (rewrite app_assoc; by apply zget_mid).
  rewrite (proj2 (Z.ltb_lt _ _) Hlen), Hg. cbn [mbind option_bind].
  destruct (Forall_inv (ci_rest _ _ _ _ _ Hinv)) as [Hxf Hx].
  rewrite unicode_get_cc_exact by (by apply is_char_nonneg). cbn [mbind option_bind].
  (* the two ways to go on *)
  assert (Hnext : exists buf' out' dout',
    (buf ← zset (out ++ junk ++ x :: R) (zlen out) x;
     compose_loop fuel buf (zlen (out ++ junk ++ x :: R)) (zlen (out ++ junk) + 1) (zlen out + 1)) = Some (buf', zlen out') /\
    take (length out') buf' = out' /\ zlen out' <= zlen out + zlen (x :: R) /\ compose_inv b D out' [] dout').
  { destruct (zset_next out junk R x) as (junk' & -> & Hj). cbn [mbind option_bind].
    destruct (IH (out ++ [x]) junk' R (dout ++ [x])) as (buf' & out' & dout' & Hl & Ht & Hz & Hi).
    - by destruct out.
    - by apply compose_inv_next.
    - simpl in Hf. lia.
    - exists buf', out', dout'. split_and!; [|done|zlen_lia|done]. rewrite <- Hl. f_equal; zlen_lia. }
  destruct out as [|y out0 _] using rev_ind; [done|].
  destruct (find_starter_spec (S (Z.to_nat (zlen (out0 ++ [y])))) out0 y (junk ++ x :: R) (cc_of x))
    as [(-> & _)|(pos & -> & Hsp & Hb)].
  { by apply chars_nonneg, (ci_chars _ _ _ _ _ Hinv). } { unfold zlen. rewrite length_app. simpl. lia. }
  { exact Hnext. }
  cbn [mbind option_bind]. destruct Hsp as [[-> _]|(A & s & M & Hout & HA & Hs & HM)]; [exact Hnext|].
  pose proof (zlen_nonneg A). destruct (Z.leb_spec 0 pos); [|lia].
  assert (Hbuf : (out0 ++ [y]) ++ junk ++ x :: R = A ++ s :: M ++ junk ++ x :: R) by (rewrite Hout, <- app_assoc; done).
  assert (Hgs : zget ((out0 ++ [y]) ++ junk ++ x :: R) pos = Some s) by (rewrite Hbuf; by apply zget_mid).
  rewrite Hgs. cbn [mbind option_bind].
  destruct (compose_cases b D (out0 ++ [y]) x R dout A s M Hinv Hout) as [->|(p & -> & Hp0 & Hp)]; cbn [mbind option_bind].
  { exact Hnext. }
  rewrite (proj2 (Z.eqb_neq p 0) Hp0).
  assert (Hset : zset ((out0 ++ [y]) ++ junk ++ x :: R) pos p = Some ((A ++ p :: M) ++ (junk ++ [x]) ++ R)).
  { rewrite Hbuf, zset_mid by done. f_equal. rewrite <- !app_assoc. done. }
  rewrite Hset. cbn [mbind option_bind].
  destruct (compose_inv_compose _ _ _ _ _ _ _ _ _ _ p Hinv Hout Hs HM Hb Hp) as [dout2 Hinv2].
  destruct (IH (A ++ p :: M) (junk ++ [x]) R dout2) as (buf' & out' & dout' & Hl & Ht & Hz & Hi).
  - by destruct A.
  - done.
  - simpl in Hf. lia.
  - assert (Hlo : zlen (A ++ p :: M) = zlen (out0 ++ [y])) by (rewrite Hout; zlen_lia).
    exists buf', out', dout'. split_and!; [|done|rewrite zlen_cons; lia|done].
    rewrite <- Hl. f_equal; rewrite ?Hlo; rewrite !zlen_app in *; zlen_lia.
Qed.

(** ** The normalization forms *)

Section Forms.
Context `{!Allocator}.

(** Up to the canonical ordering: the allocator refuses memory, the text is Latin-1 and
    the form is NFC, or the buffer holds the ordered decomposition. *)
Lemma unicode_normalize_buffer src n_type o :
  Forall (fun c => is_char c = true) src -> 18 * zlen src < 2 ^ 31 ->
  (unicode_normalize src n_type o = Some (-1, None) /\ alloc_refuses) \/
  (n_type = UNICODE_NFC /\ unicode_normalize src n_type o = Some (zlen src, Some src)) \/
  exists d, full_decomp (nf_compat n_type) src d /\ all_final (nf_compat n_type) d /\
    unicode_normalize src n_type o =
      if (zlen d <=? 1) || nf_decompose n_type then Some (zlen d, Some (canonical_order d))
      else
        '(buf, out_len) ← compose_loop (S (length (canonical_order d))) (canonical_order d) (zlen d) 1 1;
        Some (out_len, Some (take (Z.to_nat out_len) buf)).
Proof.
  intros Hsrc Hsz. destruct (nfd_list_total (nf_compat n_type) src Hsrc) as (d & Hd & Hfin & Hlen).
  pose proof (nfd_list_full _ _ _ _ Hd) as Hfull. unfold unicode_normalize. pose proof (zlen_nonneg src). pose proof (zlen_nonneg d).
  destruct (dbuf_realloc (dbuf_init2 o) _) as [dbuf r] eqn:Hr.
  pose proof (dbuf_realloc_error _ _ _ _ Hr eq_refl) as [[-> He]|[-> Href]]; [|by left].
  apply dbuf_realloc_spec in Hr as (Hok & Hc & Hs & _); [|apply dbuf_init_ok|apply wrapu_range; lia].
  cbn [negb Z.eqb]. destruct (_ && forallb _ src) eqn:Hlat.
  { right. left. apply andb_true_iff in Hlat as [Hn _]. by destruct n_type. }
  rewrite (to_nfd_rec_ops _ _ _ _ d Hd).
  destruct (exec_ops_spec (map OpPutU32 d) dbuf Hok) as (dbuf' & Hx & Hok' & _ & Hcont).
  { rewrite zlen_put, Hs. cbn. change (2 ^ 64) with 18446744073709551616. lia. }
  rewrite Hx. cbn [mbind option_bind]. unfold dbuf_error.
  destruct (db_error dbuf') eqn:Herr.
  { left. pose proof (exec_ops_error _ _ _ Hx He) as [He'|Href]; [congruence|done]. }
  right. right. exists d. split_and!; [done|done|].
  rewrite zslice_in_range by (destruct Hok'; lia). cbn [mbind option_bind]. change (Z.to_nat 0) with O. rewrite drop_0.
  change (take (Z.to_nat (db_size dbuf')) (db_buf dbuf')) with (contents dbuf'). rewrite Hcont, Hc by done.
  change (contents (dbuf_init2 o) ++ ops_bytes (map OpPutU32 d)) with (ops_bytes (map OpPutU32 d)).
  assert (Hch : Forall (fun c => is_char c = true) d) by (eapply Forall_impl; [exact Hfin|]; by intros c [_ ?]).
  rewrite to_ints_put by done. rewrite sort_cc_canonical by (by eapply all_final_chars). done.
Qed.

Lemma canonical_order_zlen l : zlen (canonical_order l) = zlen l.
Proof. unfold zlen, canonical_order. f_equal. apply Permutation_length, canon_order_perm. Qed.

Lemma canonical_order_final b d : all_final b d -> all_final b (canonical_order d).
Proof. intros Hd. by apply canon_order_chars. Qed.

(** A text in normal form is its own ordered decomposition. *)
Lemma canonical_order_idem d : chars_ok d -> canonical_order (canonical_order d) = canonical_order d.
Proof. intros Hd. apply (canon_order_id []); [done|]. by apply canon_order_ordered. Qed.

(** The composition of an ordered decomposition. *)
Lemma compose_text b d :
  all_final b d -> Forall (fun c => c <> 0x11a7) d -> 1 < zlen d ->
  exists buf t dt, compose_loop (S (length (canonical_order d))) (canonical_order d) (zlen d) 1 1 = Some (buf, zlen t) /\
    take (Z.to_nat (zlen t)) buf = t /\ zlen t <= zlen d /\ full_decomp b t dt /\ canonical_order dt = canonical_order d /\
    Forall (fun c => is_char c = true) t.
Proof.
  intros Hfin H7 Hlen. rewrite <- canonical_order_zlen in Hlen |- *.
  pose proof (canonical_order_final b d Hfin) as Hf'. pose proof (all_final_chars _ _ Hfin) as Hch.
  assert (H7' : Forall (fun c => c <> 0x11a7) (canonical_order d)) by (by apply canon_order_chars).
  pose proof (canonical_order_idem d Hch) as Hid. pose proof (canon_order_ordered [] d Hch I) as Ho.
  change (canon_order [] d) with (canonical_order d) in Ho.
  destruct (canonical_order d) as [|a l] eqn:Hcd; [rewrite zlen_nil in Hlen; lia|].
  apply Forall_cons in Hf' as [[Haf Ha] Hlf]. apply Forall_cons in H7' as [_ Hl7].
  destruct (compose_loop_spec (S (length (a :: l))) b (a :: l) [a] [] l [a]) as (buf & t & dt & Hcl & Ht & Hz & Hi).
  - done.
  - split; try done; [apply fd_final; [done|constructor]|by repeat constructor|by repeat constructor].
  - simpl. lia.
  - destruct Hi as [Hdt He _ Hct _ _ _]. rewrite app_nil_r in He. exists buf, t, dt. split_and!; try done.
    + unfold zlen. by rewrite Nat2Z.id.
    + zlen_lia.
Qed.
End Forms.

(** C15: [unicode_normalize] to NFD or NFKD, for every allocator and every text: it fails
    only when the allocator refuses memory; otherwise the result is the full
    decomposition of the text (canonical for NFD, compatibility for NFKD) put in
    canonical order, no two neighbours of it are out of order, and no character of it
    decomposes any further, so that normalizing it again changes nothing. *)
Theorem unicode_normalize_decomposes `{!Allocator} src n_type o :
  Forall (fun c => is_char c = true) src -> 18 * zlen src < 2 ^ 31 -> nf_decompose n_type = true ->
  (unicode_normalize src n_type o = Some (-1, None) /\ alloc_refuses) \/
  exists d r, full_decomp (nf_compat n_type) src d /\ r = canonical_order d /\
    unicode_normalize src n_type o = Some (zlen r, Some r) /\
    ordered r /\ full_decomp (nf_compat n_type) r r /\ canonical_order r = r.
Proof.
  intros Hsrc Hsz Hn. destruct (unicode_normalize_buffer src n_type o Hsrc Hsz) as [Hf|[[-> _]|(d & Hd & Hfin & Heq)]];
    [by left|done|right].
  pose proof (all_final_chars _ _ Hfin) as Hch. exists d, (canonical_order d).
  rewrite Heq, Hn, orb_true_r, canonical_order_zlen. split_and!; try done.
  - by apply canon_order_ordered.
  - by apply full_decomp_finals, canonical_order_final.
  - by apply canonical_order_idem.
Qed.

Lemma unicode_normalize_decomposes_witness :
  (@unicode_normalize malloc_ok [0x1e9b; 0x323] UNICODE_NFKD tt = Some (-1, None) /\ @alloc_refuses malloc_ok) \/
  exists d r, full_decomp true [0x1e9b; 0x323] d /\ r = canonical_order d /\
    @unicode_normalize malloc_ok [0x1e9b; 0x323] UNICODE_NFKD tt = Some (zlen r, Some r) /\
    ordered r /\ full_decomp true r r /\ canonical_order r = r.
Proof.
  apply (@unicode_normalize_decomposes malloc_ok [0x1e9b; 0x323] UNICODE_NFKD tt); [|vm_compute; reflexivity|reflexivity].
  repeat constructor.
Defined.

(** C16: [unicode_normalize] to NFC or NFKC keeps the text equivalent: it fails only when
    the allocator refuses memory; otherwise the full decomposition of the result, in
    canonical order, is that of the given text, so that composing (in place, with the
    search of the last starter that is not blocked, Hangul syllables by arithmetic and
    the other characters by the table) neither loses nor changes anything.  The one
    exception is the character U+11A7, which the composition takes for the absent
    trailing consonant of a Hangul syllable. *)
Theorem unicode_normalize_composes `{!Allocator} src n_type o d :
  Forall (fun c => is_char c = true) src -> 18 * zlen src < 2 ^ 31 -> nf_decompose n_type = false ->
  full_decomp (nf_compat n_type) src d -> Forall (fun c => c <> 0x11a7) d ->
  (unicode_normalize src n_type o = Some (-1, None) /\ alloc_refuses) \/
  exists t dt, unicode_normalize src n_type o = Some (zlen t, Some t) /\
    full_decomp (nf_compat n_type) t dt /\ canonical_order dt = canonical_order d.
Proof.
  intros Hsrc Hsz Hn Hd H7.
  destruct (unicode_normalize_buffer src n_type o Hsrc Hsz) as [Hf|[[_ Heq]|(d' & Hd' & Hfin & Heq)]];
    [by left|right; by exists src, d|right].
  rewrite <- (full_decomp_det _ _ _ Hd _ Hd') in Hfin, Heq. pose proof (all_final_chars _ _ Hfin) as Hch.
  rewrite Heq, Hn, orb_false_r. destruct (Z.leb_spec (zlen d) 1) as [Hle|Hlt].
  - exists (canonical_order d), (canonical_order d). rewrite canonical_order_zlen. split_and!; [done| |].
    + by apply full_decomp_finals, canonical_order_final.
    + by apply canonical_order_idem.
  - destruct (compose_text _ d Hfin H7 Hlt) as (buf & t & dt & -> & Ht & _ & Hdt & He & _).
    cbn [mbind option_bind]. rewrite Ht. by exists t, dt.
Qed.

Lemma unicode_normalize_composes_witness :
  (@unicode_normalize malloc_ok [0x65; 0x302; 0x323] UNICODE_NFC tt = Some (-1, None) /\ @alloc_refuses malloc_ok) \/
  exists t dt, @unicode_normalize malloc_ok [0x65; 0x302; 0x323] UNICODE_NFC tt = Some (zlen t, Some t) /\
    full_decomp false t dt /\ canonical_order dt = canonical_order [0x65; 0x302; 0x323].
Proof.
  apply (@unicode_normalize_composes malloc_ok [0x65; 0x302; 0x323] UNICODE_NFC tt [0x65; 0x302; 0x323]);
    [repeat constructor|vm_compute; reflexivity|reflexivity| |].
  - apply (nfd_list_full 8). vm_compute. reflexivity.
  - repeat constructor; lia.
Defined.

(** The text GA, O-YAE loses its second character in NFC. *)
Lemma normalize_drops_11a7 :
  @unicode_normalize malloc_ok [0xac00; 0x11a7] UNICODE_NFC tt = Some (1, Some [0xac00]) /\
  full_decomp false [0xac00; 0x11a7] [0x1100; 0x1161; 0x11a7] /\ full_decomp false [0xac00] [0x1100; 0x1161].
Proof.
  split; [vm_compute; reflexivity|].
  split; [apply (nfd_list_full 8); vm_compute; reflexivity|apply (nfd_list_full 8); vm_compute; reflexivity].
Qed.

(** Known texts in their normal forms. *)
Example normalize_examples :
  @unicode_normalize malloc_ok [0x65; 0x302; 0x323] UNICODE_NFC tt = Some (1, Some [0x1ec7]) /\
  @unicode_normalize malloc_ok [0x1e9b; 0x323] UNICODE_NFKC tt = Some (1, Some [0x1e69]) /\
  @unicode_normalize malloc_ok [0x1e9b; 0x323] UNICODE_NFD tt = Some (3, Some [0x17f; 0x323; 0x307]) /\
  @unicode_normalize malloc_ok [0xd55c; 0xae00] UNICODE_NFD tt = Some (6, Some [0x1112; 0x1161; 0x11ab; 0x1100; 0x1173; 0x11af]) /\
  @unicode_normalize (malloc_limit 4) [0x65; 0x302] UNICODE_NFC tt = Some (-1, None).
Proof. vm_compute. repeat split. Qed.
