(* ===== verification/JsKeys.v ===== *)
(** Equality and hashing of JavaScript values in [quickjs.c]: the comparison of strings,
    [js_strict_eq2] in its three modes, and the keys of [Map] and [Set].

    A value is its tag with what the functions look at: the code units of a string, the
    address of an object or a symbol, the bit pattern of a double, the number of a big
    integer.  The types [BIG_FLOAT] and [BIG_DECIMAL] of the mathematical extensions are
    not modelled. *)

From S2P Require Import Prelude.

(** ** Strings *)

Record JSString := mkJSString { is_wide_char : bool; str_units : list Z }.

Definition str_len (p : JSString) : Z := zlen (str_units p).

(** [memcmp16_8] and [memcmp16]; [None] is a read past the end of a string. *)
Fixpoint memcmp16 (src1 src2 : list Z) (len : nat) : option Z :=
  match len with
  | O => Some 0
  | S len =>
      match src1, src2 with
      | a :: src1, b :: src2 => let c := a - b in if c =? 0 then memcmp16 src1 src2 len else Some c
      | _, _ => None
      end
  end.

(** [memcmp] of two strings of bytes is taken as the difference of the first two that
    differ; only its sign is used. *)
Definition js_string_memcmp (p1 p2 : JSString) (len : Z) : option Z :=
  let n := Z.to_nat len in
  if negb (is_wide_char p1) then
    if negb (is_wide_char p2) then memcmp16 (str_units p1) (str_units p2) n
    else res ← memcmp16 (str_units p2) (str_units p1) n; Some (- res)
  else memcmp16 (str_units p1) (str_units p2) n.

Definition js_string_compare (p1 p2 : JSString) : option Z :=
  let len := Z.min (str_len p1) (str_len p2) in
  res ← js_string_memcmp p1 p2 len;
  Some (if res =? 0 then
          if str_len p1 =? str_len p2 then 0 else if str_len p1 <? str_len p2 then -1 else 1
        else res).

(** [hash_string8] and [hash_string16]. *)
Definition hash_string16 (str : list Z) (h : Z) : Z := foldl (fun h c => u32 (h * 263 + c)) h str.

Definition hash_string (str : JSString) (h : Z) : Z := hash_string16 (str_units str) h.

(** ** Doubles *)

(** A double is its bit pattern; the sign is bit 63. *)
Definition f64_abs (b : Z) : Z := b mod 2 ^ 63.
Definition isnan (b : Z) : bool := 0x7ff0000000000000 <? f64_abs b.
Definition f64_is_zero (b : Z) : bool := f64_abs b =? 0.

(** The operator [==]: a NaN differs from everything, the zeros are equal. *)
Definition f64_eq (b1 b2 : Z) : bool :=
  negb (isnan b1) && negb (isnan b2) && ((b1 =? b2) || (f64_is_zero b1 && f64_is_zero b2)).

(** [(double)i], exact for an integer of 32 bits. *)
Definition f64_of_int32 (i : Z) : Z :=
  if i =? 0 then 0
  else
    let a := Z.abs i in
    let e := Z.log2 a in
    b2z (i <? 0) * 2 ^ 63 + (e + 1023) * 2 ^ 52 + (a - 2 ^ e) * 2 ^ (52 - e).

Definition JS_FLOAT64_NAN : Z := 0x7ff8000000000000.

Example f64_of_int32_examples :
  f64_of_int32 1 = 0x3ff0000000000000 /\ f64_of_int32 (-1) = 0xbff0000000000000 /\
  f64_of_int32 3 = 0x4008000000000000 /\ f64_of_int32 (-2147483648) = 0xc1e0000000000000 /\
  f64_of_int32 2147483647 = 0x41dfffffffc00000.
Proof. vm_compute. repeat split. Qed.

(** ** Values *)

Inductive JSVal :=
  | V_BOOL (i : Z)
  | V_NULL
  | V_UNDEFINED
  | V_STRING (p : JSString)
  | V_SYMBOL (p : Z)
  | V_OBJECT (p : Z)
  | V_INT (i : Z)
  | V_FLOAT64 (d : Z)
  | V_BIG_INT (n : Z).

Definition JS_TAG (v : JSVal) : Z :=
  match v with
  | V_BOOL _ => 1 | V_NULL => 2 | V_UNDEFINED => 3 | V_STRING _ => -7 | V_SYMBOL _ => -8
  | V_OBJECT _ => -1 | V_INT _ => 0 | V_FLOAT64 _ => 7 | V_BIG_INT _ => -10
  end.

Inductive JSStrictEqModeEnum := JS_EQ_STRICT | JS_EQ_SAME_VALUE | JS_EQ_SAME_VALUE_ZERO.

(** The label [number_test]. *)
Definition number_test (eq_mode : JSStrictEqModeEnum) (d1 d2 : Z) : bool :=
  match eq_mode with
  | JS_EQ_STRICT => f64_eq d1 d2
  | _ =>
      if isnan d1 || isnan d2 then Bool.eqb (isnan d1) (isnan d2)
      else match eq_mode with JS_EQ_SAME_VALUE_ZERO => f64_eq d1 d2 | _ => d1 =? d2 end
  end.

Definition js_strict_eq2 (op1 op2 : JSVal) (eq_mode : JSStrictEqModeEnum) : bool :=
  match op1 with
  | V_BOOL i1 => match op2 with V_BOOL i2 => i1 =? i2 | _ => false end
  | V_NULL | V_UNDEFINED => JS_TAG op1 =? JS_TAG op2
  | V_STRING p1 =>
      match op2 with
      | V_STRING p2 => match js_string_compare p1 p2 with Some res => res =? 0 | None => false end
      | _ => false
      end
  | V_SYMBOL p1 => match op2 with V_SYMBOL p2 => p1 =? p2 | _ => false end
  | V_OBJECT p1 => match op2 with V_OBJECT p2 => p1 =? p2 | _ => false end
  | V_INT i1 =>
      match op2 with
      | V_INT i2 => number_test eq_mode (f64_of_int32 i1) (f64_of_int32 i2)
      | V_FLOAT64 d2 => number_test eq_mode (f64_of_int32 i1) d2
      | _ => false
      end
  | V_FLOAT64 d1 =>
      match op2 with
      | V_FLOAT64 d2 => number_test eq_mode d1 d2
      | V_INT i2 => number_test eq_mode d1 (f64_of_int32 i2)
      | _ => false
      end
  | V_BIG_INT n1 => match op2 with V_BIG_INT n2 => n1 =? n2 | _ => false end
  end.

Definition js_same_value_zero (op1 op2 : JSVal) : bool := js_strict_eq2 op1 op2 JS_EQ_SAME_VALUE_ZERO.

(** ** Keys of maps *)

Definition map_normalize_key (key : JSVal) : JSVal :=
  match key with V_FLOAT64 d => if f64_eq d 0 then V_INT 0 else key | _ => key end.

(** The label [hash_float64]. *)
Definition hash_float64 (d : Z) : Z := u32 ((u32 d .^ u32 (d ≫ 32)) * 3163) .^ 7.

Definition map_hash_key (key : JSVal) : Z :=
  match key with
  | V_BOOL i => u32 i .^ u32 (JS_TAG key)
  | V_STRING p => hash_string p 0 .^ u32 (JS_TAG key)
  | V_OBJECT p | V_SYMBOL p => u32 (p * 3163) .^ u32 (JS_TAG key)
  | V_INT i => hash_float64 (f64_of_int32 i)
  | V_FLOAT64 d => hash_float64 (if isnan d then JS_FLOAT64_NAN else d)
  | V_NULL | V_UNDEFINED | V_BIG_INT _ => 0 .^ u32 (JS_TAG key)
  end.

(** ** Strings are compared by their code units *)

Lemma memcmp16_zero l1 l2 n :
  (n <= length l1)%nat -> (n <= length l2)%nat ->
  exists r, memcmp16 l1 l2 n = Some r /\ (r = 0 <-> take n l1 = take n l2).
Proof.
  revert l1 l2. induction n as [|n IH]; intros [|a l1] [|b l2] H1 H2; simpl in *; try lia; try (exists 0; done).
  destruct (Z.eqb_spec (a - b) 0) as [Hz|Hz].
  - destruct (IH l1 l2 ltac:(lia) ltac:(lia)) as (r & Hr & Hiff). exists r. split; [done|]. rewrite Hiff.
    replace b with a by lia. split; [by intros ->|by intros [= ->]].
  - exists (a - b). split; [done|]. split; [done|]. intros [= ->]. lia.
Qed.

Lemma js_string_compare_zero p1 p2 :
  exists r, js_string_compare p1 p2 = Some r /\ (r = 0 <-> str_units p1 = str_units p2).
Proof.
  unfold js_string_compare, js_string_memcmp, str_len. set (n := Z.to_nat (Z.min _ _)).
  assert (Hn : (n <= length (str_units p1))%nat /\ (n <= length (str_units p2))%nat) by (unfold n, zlen; lia).
  assert (exists r, (if negb (is_wide_char p1) then
      if negb (is_wide_char p2) then memcmp16 (str_units p1) (str_units p2) n
      else res ← memcmp16 (str_units p2) (str_units p1) n; Some (- res)
    else memcmp16 (str_units p1) (str_units p2) n) = Some r /\ (r = 0 <-> take n (str_units p1) = take n (str_units p2)))
    as (r & -> & Hr).
  { destruct (memcmp16_zero (str_units p1) (str_units p2) n) as (r & Hr & Hiff); [tauto..|].
    destruct (memcmp16_zero (str_units p2) (str_units p1) n) as (r' & Hr' & Hiff'); [tauto..|].
    destruct (negb (is_wide_char p1)); [destruct (negb (is_wide_char p2))|]; [eauto| |eauto].
    rewrite Hr'. exists (- r'). split; [done|]. split; [intros; symmetry; apply Hiff'; lia|].
    intros He. symmetry in He. apply Hiff' in He. lia. }
  cbn [mbind option_bind]. eexists. split; [done|].
  destruct (Z.eqb_spec r 0) as [Hz|Hz].
  - rewrite Hr in Hz. destruct (Z.eqb_spec (zlen (str_units p1)) (zlen (str_units p2))) as [Hl|Hl].
    + split; [|done]. intros _. unfold zlen in *. rewrite !take_ge in Hz by lia. done.
    + split; [by destruct (_ <? _)|]. intros He. by rewrite He in Hl.
  - split; [done|]. intros He. exfalso. apply Hz, Hr. by rewrite He.
Qed.

Lemma string_eq_units p1 p2 :
  match js_string_compare p1 p2 with Some res => res =? 0 | None => false end = true <-> str_units p1 = str_units p2.
Proof. destruct (js_string_compare_zero p1 p2) as (r & -> & Hr). by rewrite Z.eqb_eq. Qed.

(** ** [js_same_value_zero] is an equivalence *)

(** The equality of doubles that it uses. *)
Lemma number_test_zero d1 d2 :
  number_test JS_EQ_SAME_VALUE_ZERO d1 d2 = true <->
  (isnan d1 = true /\ isnan d2 = true) \/
  (isnan d1 = false /\ isnan d2 = false /\ (d1 = d2 \/ f64_is_zero d1 = true /\ f64_is_zero d2 = true)).
Proof.
  unfold number_test, f64_eq. destruct (isnan d1), (isnan d2); simpl; rewrite ?orb_true_iff, ?andb_true_iff, ?Z.eqb_eq; intuition congruence.
Qed.

(** The number of a value, as a double. *)
Definition num_of (v : JSVal) : option Z :=
  match v with V_INT i => Some (f64_of_int32 i) | V_FLOAT64 d => Some d | _ => None end.

Lemma same_value_zero_num v1 v2 d1 d2 :
  num_of v1 = Some d1 -> num_of v2 = Some d2 -> js_same_value_zero v1 v2 = number_test JS_EQ_SAME_VALUE_ZERO d1 d2.
Proof. destruct v1, v2; intros [= <-] [= <-]; done. Qed.

(** What the equality of values other than numbers looks at. *)
Definition ident_of (v : JSVal) : option (Z * (Z + list Z)) :=
  match v with
  | V_INT _ | V_FLOAT64 _ => None
  | V_BOOL i => Some (1, inl i)
  | V_NULL => Some (2, inl 0)
  | V_UNDEFINED => Some (3, inl 0)
  | V_STRING p => Some (-7, inr (str_units p))
  | V_SYMBOL p => Some (-8, inl p)
  | V_OBJECT p => Some (-1, inl p)
  | V_BIG_INT n => Some (-10, inl n)
  end.

Lemma same_value_zero_spec v1 v2 :
  js_same_value_zero v1 v2 = true <->
  match num_of v1, num_of v2 with
  | Some d1, Some d2 => number_test JS_EQ_SAME_VALUE_ZERO d1 d2 = true
  | None, None => ident_of v1 = ident_of v2
  | _, _ => False
  end.
Proof.
  destruct v1 as [i| | |p|p|p|i|d|n], v2 as [i'| | |p'|p'|p'|i'|d'|n'];
    unfold js_same_value_zero, js_strict_eq2; cbn -[number_test js_string_compare]; rewrite ?Z.eqb_eq, ?string_eq_units;
    try done; split; intros; simplify_eq; congruence || done.
Qed.

Lemma js_same_value_zero_equiv :
  (forall v, js_same_value_zero v v = true) /\
  (forall v w, js_same_value_zero v w = true -> js_same_value_zero w v = true) /\
  (forall u v w, js_same_value_zero u v = true -> js_same_value_zero v w = true -> js_same_value_zero u w = true).
Proof.
  split_and!.
  - intros v. apply same_value_zero_spec. destruct (num_of v); [|done]. apply number_test_zero. destruct (isnan z); auto.
  - intros v w. rewrite !same_value_zero_spec. destruct (num_of v), (num_of w); try done. rewrite !number_test_zero. intuition.
  - intros u v w. rewrite !same_value_zero_spec. destruct (num_of u), (num_of v), (num_of w); try done; [|congruence].
    rewrite !number_test_zero. intuition (subst; congruence || auto).
Qed.

(** ** Equal keys have equal hash values *)

(** The exponent and the fraction of a converted integer. *)
Lemma f64_of_int32_fields i :
  - 2 ^ 31 <= i < 2 ^ 31 -> i <> 0 ->
  exists e f, 0 <= e <= 31 /\ 0 <= f < 2 ^ 52 /\ f64_abs (f64_of_int32 i) = (e + 1023) * 2 ^ 52 + f.
Proof.
  intros Hi Hn. unfold f64_abs, f64_of_int32. rewrite (proj2 (Z.eqb_neq i 0) Hn).
  set (a := Z.abs i). set (e := Z.log2 a). pose proof (Z.log2_spec a ltac:(lia)) as Hl. fold e in Hl.
  exists e, ((a - 2 ^ e) * 2 ^ (52 - e)).
  assert (He : 0 <= e <= 31).
  { split; [apply Z.log2_nonneg|]. apply Z.lt_succ_r, Z.log2_lt_pow2; [lia|]. change (2 ^ Z.succ 31) with 4294967296. lia. }
  assert (Hf : 0 <= (a - 2 ^ e) * 2 ^ (52 - e) < 2 ^ 52).
  { replace (2 ^ 52) with (2 ^ e * 2 ^ (52 - e)) by (rewrite <- Z.pow_add_r by lia; f_equal; lia).
    rewrite Z.pow_succ_r in Hl by lia. assert (0 < 2 ^ (52 - e)) by (apply Z.pow_pos_nonneg; lia). nia. }
  split_and!; try lia. set (f := (a - 2 ^ e) * 2 ^ (52 - e)) in *. clearbody f e a.
  change (2 ^ 63) with 9223372036854775808 in *. change (2 ^ 52) with 4503599627370496 in *.
  destruct (i <? 0); cbn [b2z]; zdm.
Qed.

Lemma f64_of_int32_zero i : - 2 ^ 31 <= i < 2 ^ 31 -> f64_is_zero (f64_of_int32 i) = true -> f64_of_int32 i = 0.
Proof.
  intros Hi Hz. destruct (Z.eq_dec i 0) as [->|Hn]; [done|].
  destruct (f64_of_int32_fields i Hi Hn) as (e & f & He & Hf & Ha). unfold f64_is_zero in Hz. bool_props. lia.
Qed.

Lemma f64_of_int32_not_nan i : - 2 ^ 31 <= i < 2 ^ 31 -> isnan (f64_of_int32 i) = false.
Proof.
  intros Hi. destruct (Z.eq_dec i 0) as [->|Hn]; [done|].
  destruct (f64_of_int32_fields i Hi Hn) as (e & f & He & Hf & Ha). unfold isnan. rewrite Ha. apply Z.ltb_ge.
  change (2 ^ 52) with 4503599627370496 in *. lia.
Qed.

(** A key that [js_map_set] and the others look up: its numbers fit their types. *)
Definition key_ok (k : JSVal) : Prop := match k with V_INT i => - 2 ^ 31 <= i < 2 ^ 31 | _ => True end.

Lemma map_normalize_ok k : key_ok k -> key_ok (map_normalize_key k).
Proof. destruct k; simpl; try done. destruct (f64_eq d 0); simpl; lia || done. Qed.

(** The number of a key that was normalized is not a negative zero. *)
Lemma normal_zero k d : key_ok k -> num_of (map_normalize_key k) = Some d -> f64_is_zero d = true -> d = 0.
Proof.
  intros Hk Hd Hz. destruct k as [i| | |p|p|p|i|d'|n]; simpl in *; try done.
  - injection Hd as <-. by apply f64_of_int32_zero.
  - destruct (f64_eq d' 0) eqn:He; simpl in Hd; injection Hd as <-; [done|]. unfold f64_eq in He. rewrite Hz in He.
    assert (Hn : isnan d' = false) by (unfold isnan, f64_is_zero in *; apply Z.eqb_eq in Hz; rewrite Hz; done).
    rewrite Hn in He. simpl in He. by rewrite orb_true_r in He.
Qed.

(** The hash value of a number depends on its double only. *)
Lemma map_hash_num k d :
  key_ok k -> num_of k = Some d -> map_hash_key k = hash_float64 (if isnan d then JS_FLOAT64_NAN else d).
Proof. intros Hk. destruct k; intros [= <-]; [|done]. by rewrite f64_of_int32_not_nan. Qed.

Lemma map_hash_same k1 k2 :
  key_ok k1 -> key_ok k2 -> js_same_value_zero (map_normalize_key k1) (map_normalize_key k2) = true ->
  map_hash_key (map_normalize_key k1) = map_hash_key (map_normalize_key k2).
Proof.
  intros H1 H2 Hs. apply same_value_zero_spec in Hs.
  destruct (num_of (map_normalize_key k1)) as [d1|] eqn:E1, (num_of (map_normalize_key k2)) as [d2|] eqn:E2; try done.
  - rewrite (map_hash_num _ _ (map_normalize_ok _ H1) E1), (map_hash_num _ _ (map_normalize_ok _ H2) E2). f_equal.
    apply number_test_zero in Hs as [[-> ->]|(-> & -> & [->|[Hz1 Hz2]])]; [done|done|].
    by rewrite (normal_zero k1 d1 H1 E1 Hz1), (normal_zero k2 d2 H2 E2 Hz2).
  - destruct (map_normalize_key k1) as [i| | |p|p|p|i|d|n], (map_normalize_key k2) as [i'| | |p'|p'|p'|i'|d'|n']; try done;
      simpl in Hs; injection Hs as Hs; subst; try done. unfold map_hash_key, hash_string. by rewrite Hs.
Qed.

(** Normalizing a key does not change what it is equal to. *)
Lemma map_normalize_same k : js_same_value_zero (map_normalize_key k) k = true.
Proof.
  destruct k as [i| | |p|p|p|i|d|n]; try exact (proj1 js_same_value_zero_equiv _). cbn [map_normalize_key].
  destruct (f64_eq d 0) eqn:He; [|exact (proj1 js_same_value_zero_equiv _)].
  apply same_value_zero_spec. cbn [num_of]. apply number_test_zero. right. unfold f64_eq in He. bool_props.
  split_and!; [done|done|]. rewrite orb_true_iff in *.
  match goal with h : _ \/ _ |- _ => destruct h as [h|h] end; bool_props; auto.
Qed.
