(* ===== verification/JsMap.v ===== *)
(** [Map] and [Set] of [quickjs.c]: the hash table of records, the list of records in
    the order of insertion, and the iterators, which lock the record they stand on so
    that the map can be changed while it is enumerated.

    Records are objects of a shared memory, named by their address; [NULL] is 0.  The
    reference counts of keys and values ([JS_DupValue], [JS_FreeValue]) are not modelled.
    What [js_malloc] and [js_realloc2] return is an argument of the operations.  [Stuck]
    is a failed [assert], the access to a freed record, or the unlinking of a record that
    is in no list. *)

From S2P Require Import Prelude JsKeys.

(** ** What the table needs of keys *)

(** Keys with the equality and the hash function of the table; the laws concern the
    keys that are stored and looked up, which are normalized. *)
Class MapKeys := {
  mkey : Type;
  mk_undefined : mkey;
  mk_object : mkey -> option Z; (* JS_VALUE_GET_OBJ of an object *)
  mk_normalize : mkey -> mkey;
  mk_hash : mkey -> Z;
  mk_same : mkey -> mkey -> bool;
  mk_ok : mkey -> Prop;
  mk_normalize_ok k : mk_ok k -> mk_ok (mk_normalize k);
  mk_same_refl k : mk_same k k = true;
  mk_same_sym k1 k2 : mk_same k1 k2 = true -> mk_same k2 k1 = true;
  mk_same_trans k1 k2 k3 : mk_same k1 k2 = true -> mk_same k2 k3 = true -> mk_same k1 k3 = true;
  mk_hash_same k1 k2 : mk_ok k1 -> mk_ok k2 -> mk_same (mk_normalize k1) (mk_normalize k2) = true ->
    mk_hash (mk_normalize k1) = mk_hash (mk_normalize k2) }.

(** JavaScript values as keys. *)
#[export, refine] Instance js_map_keys : MapKeys := {|
  mkey := JSVal;
  mk_undefined := V_UNDEFINED;
  mk_object := fun v => match v with V_OBJECT p => Some p | _ => None end;
  mk_normalize := map_normalize_key;
  mk_hash := map_hash_key;
  mk_same := js_same_value_zero;
  mk_ok := key_ok;
  mk_normalize_ok := map_normalize_ok;
  mk_hash_same := map_hash_same |}.
Proof.
  - exact (proj1 js_same_value_zero_equiv).
  - exact (proj1 (proj2 js_same_value_zero_equiv)).
  - exact (proj2 (proj2 js_same_value_zero_equiv)).
Defined.

Section Map.
Context `{K : !MapKeys}.

(** ** State *)

Record JSMapRecord := mkRecord {
  mr_ref_count : Z;
  mr_empty : bool;
  mr_map : Z;
  mr_key : mkey;
  mr_value : mkey }.

Record JSMapState := mkMapState {
  is_weak : bool;
  records : list Z;
  record_count : Z;
  hash_table : list (list Z);
  hash_size : Z;
  record_count_threshold : Z }.

(** The records, the maps, and the chains [first_weak_ref] of the objects. *)
Record map_world := mkWorld {
  w_mem : gmap Z JSMapRecord;
  w_maps : gmap Z JSMapState;
  w_weak : gmap Z (list Z) }.

Definition get_rec (w : map_world) (p : Z) : outcome JSMapRecord := of_opt (w_mem w !! p).
Definition get_map (w : map_world) (sp : Z) : outcome JSMapState := of_opt (w_maps w !! sp).

Definition set_rec (w : map_world) (p : Z) (r : JSMapRecord) : map_world := mkWorld (<[p := r]> (w_mem w)) (w_maps w) (w_weak w).
Definition free_rec (w : map_world) (p : Z) : map_world := mkWorld (delete p (w_mem w)) (w_maps w) (w_weak w).
Definition set_map (w : map_world) (sp : Z) (s : JSMapState) : map_world := mkWorld (w_mem w) (<[sp := s]> (w_maps w)) (w_weak w).
Definition set_weak (w : map_world) (o : Z) (l : list Z) : map_world := mkWorld (w_mem w) (w_maps w) (<[o := l]> (w_weak w)).

Definition set_ref_count (r : JSMapRecord) (n : Z) : JSMapRecord := mkRecord n (mr_empty r) (mr_map r) (mr_key r) (mr_value r).

(** [list_del] from the list of records or from a bucket. *)
Definition unlink (l : list Z) (p : Z) : outcome (list Z) :=
  if bool_decide (p ∈ l) then Ok (filter (.≠ p) l) else Stuck.

Definition with_records (s : JSMapState) (l : list Z) : JSMapState :=
  mkMapState (is_weak s) l (record_count s) (hash_table s) (hash_size s) (record_count_threshold s).
Definition with_count (s : JSMapState) (n : Z) : JSMapState :=
  mkMapState (is_weak s) (records s) n (hash_table s) (hash_size s) (record_count_threshold s).
Definition with_table (s : JSMapState) (t : list (list Z)) (n threshold : Z) : JSMapState :=
  mkMapState (is_weak s) (records s) (record_count s) t n threshold.

(** ** The hash table *)

(** The map of [js_map_constructor]. *)
Definition map_init (weak : bool) : JSMapState := mkMapState weak [] 0 [[]] 1 4.

Definition bucket (key : mkey) (size : Z) : Z := mk_hash key .& u32 (size - 1).

(** [list_for_each(el, &s->hash_table[h])]. *)
Fixpoint find_in (w : map_world) (key : mkey) (l : list Z) : outcome Z :=
  match l with
  | [] => Ok 0
  | p :: l => r ← get_rec w p; if mk_same (mr_key r) key then Ok p else find_in w key l
  end.

Definition map_find_record (w : map_world) (sp : Z) (key : mkey) : outcome Z :=
  s ← get_map w sp;
  l ← of_opt (zget (hash_table s) (bucket key (hash_size s)));
  find_in w key l.

(** [list_for_each(el, &s->records)] of [map_hash_resize]. *)
Fixpoint rehash (w : map_world) (size : Z) (l : list Z) (t : list (list Z)) : outcome (list (list Z)) :=
  match l with
  | [] => Ok t
  | p :: l =>
      r ← get_rec w p;
      if mr_empty r then rehash w size l t
      else
        let h := bucket (mr_key r) size in
        b ← of_opt (zget t h);
        t ← of_opt (zset t h (b ++ [p]));
        rehash w size l t
  end.

(** [slack] is the result of [js_realloc2]: [None] for failure, or the slack in elements
    of the table. *)
Definition map_hash_resize (w : map_world) (sp : Z) (slack : option Z) : outcome map_world :=
  s ← get_map w sp;
  let new_hash_size := if hash_size s =? 1 then 4 else u32 (hash_size s * 2) in
  match slack with
  | None => Ok w
  | Some slack =>
      let new_hash_size := u32 (new_hash_size + slack) in
      t ← rehash w new_hash_size (records s) (replicate (Z.to_nat new_hash_size) []);
      Ok (set_map w sp (with_table s t new_hash_size (u32 (new_hash_size * 2))))
  end.

(** [mr] is the result of [js_malloc]; [mr->value] is set by the caller. *)
Definition map_add_record (w : map_world) (sp : Z) (key : mkey) (mr : Z) (slack : option Z) : outcome (map_world * Z) :=
  s ← get_map w sp;
  if mr =? 0 then Ok (w, 0)
  else
    w ← (if is_weak s then
           o ← of_opt (mk_object key);
           Ok (set_weak w o (mr :: default [] (w_weak w !! o)))
         else Ok w);
    let w := set_rec w mr (mkRecord 1 false sp key mk_undefined) in
    let h := bucket key (hash_size s) in
    b ← of_opt (zget (hash_table s) h);
    t ← of_opt (zset (hash_table s) h (b ++ [mr]));
    let s := with_table s t (hash_size s) (record_count_threshold s) in
    let s := with_records s (records s ++ [mr]) in
    let s := with_count s (u32 (record_count s + 1)) in
    let w := set_map w sp s in
    w ← (if record_count_threshold s <=? record_count s then map_hash_resize w sp slack else Ok w);
    Ok (w, mr).

(** The chain is walked up to the record. *)
Definition delete_weak_ref (w : map_world) (mr : Z) : outcome map_world :=
  r ← get_rec w mr;
  o ← of_opt (mk_object (mr_key r));
  let l := default [] (w_weak w !! o) in
  l ← unlink l mr;
  Ok (set_weak w o l).

Definition map_delete_record (w : map_world) (sp mr : Z) : outcome map_world :=
  r ← get_rec w mr;
  if mr_empty r then Ok w
  else
    s ← get_map w sp;
    let h := bucket (mr_key r) (hash_size s) in
    b ← of_opt (zget (hash_table s) h);
    b ← unlink b mr;
    t ← of_opt (zset (hash_table s) h b);
    let s := with_table s t (hash_size s) (record_count_threshold s) in
    w ← (if is_weak s then delete_weak_ref w mr else Ok w);
    '(w, s) ←
      (if mr_ref_count r - 1 =? 0 then
         l ← unlink (records s) mr;
         Ok (free_rec w mr, with_records s l)
       else
         Ok (set_rec w mr (mkRecord (mr_ref_count r - 1) true (mr_map r) mk_undefined mk_undefined), s));
    Ok (set_map w sp (with_count s (u32 (record_count s - 1)))).

Definition map_decref_record (w : map_world) (mr : Z) : outcome map_world :=
  r ← get_rec w mr;
  if mr_ref_count r - 1 =? 0 then
    _ ← assert_ (mr_empty r);
    s ← get_map w (mr_map r);
    l ← unlink (records s) mr;
    Ok (free_rec (set_map w (mr_map r) (with_records s l)) mr)
  else Ok (set_rec w mr (set_ref_count r (mr_ref_count r - 1))).

(** The first pass of [reset_weak_ref] over the chain of an object, and the second. *)
Fixpoint reset_unlink (w : map_world) (l : list Z) : outcome map_world :=
  match l with
  | [] => Ok w
  | mr :: l =>
      r ← get_rec w mr;
      s ← get_map w (mr_map r);
      _ ← assert_ (is_weak s);
      _ ← assert_ (negb (mr_empty r));
      let h := bucket (mr_key r) (hash_size s) in
      b ← of_opt (zget (hash_table s) h);
      b ← unlink b mr;
      t ← of_opt (zset (hash_table s) h b);
      rs ← unlink (records s) mr;
      reset_unlink (set_map w (mr_map r) (with_records (with_table s t (hash_size s) (record_count_threshold s)) rs)) l
  end.

Definition reset_weak_ref (w : map_world) (o : Z) : outcome map_world :=
  let l := default [] (w_weak w !! o) in
  w ← reset_unlink w l;
  Ok (set_weak (foldl free_rec w l) o []).

(** ** The methods *)

(** The value returned, or an exception. *)
Inductive map_result := R_exception | R_undefined | R_bool (b : bool) | R_value (v : mkey) | R_uint32 (n : Z) | R_this.

Definition js_map_set (w : map_world) (sp : Z) (is_set : bool) (arg0 arg1 : mkey) (mr : Z) (slack : option Z)
    : outcome (map_world * map_result) :=
  s ← get_map w sp;
  let key := mk_normalize arg0 in
  if is_weak s && bool_decide (mk_object key = None) then Ok (w, R_exception)
  else
    let value := if is_set then mk_undefined else arg1 in
    p ← map_find_record w sp key;
    '(w, p) ← (if p =? 0 then map_add_record w sp key mr slack else Ok (w, p));
    if p =? 0 then Ok (w, R_exception)
    else
      r ← get_rec w p;
      Ok (set_rec w p (mkRecord (mr_ref_count r) (mr_empty r) (mr_map r) (mr_key r) value), R_this).

Definition js_map_get (w : map_world) (sp : Z) (arg0 : mkey) : outcome map_result :=
  p ← map_find_record w sp (mk_normalize arg0);
  if p =? 0 then Ok R_undefined else r ← get_rec w p; Ok (R_value (mr_value r)).

Definition js_map_has (w : map_world) (sp : Z) (arg0 : mkey) : outcome map_result :=
  p ← map_find_record w sp (mk_normalize arg0);
  Ok (R_bool (negb (p =? 0))).

Definition js_map_delete (w : map_world) (sp : Z) (arg0 : mkey) : outcome (map_world * map_result) :=
  p ← map_find_record w sp (mk_normalize arg0);
  if p =? 0 then Ok (w, R_bool false)
  else w ← map_delete_record w sp p; Ok (w, R_bool true).

(** [list_for_each_safe]: the body takes out at most the current record. *)
Fixpoint clear_loop (w : map_world) (sp : Z) (l : list Z) : outcome map_world :=
  match l with [] => Ok w | mr :: l => w ← map_delete_record w sp mr; clear_loop w sp l end.

Definition js_map_clear (w : map_world) (sp : Z) : outcome (map_world * map_result) :=
  s ← get_map w sp; w ← clear_loop w sp (records s); Ok (w, R_undefined).

Definition js_map_get_size (w : map_world) (sp : Z) : outcome map_result :=
  s ← get_map w sp; Ok (R_uint32 (record_count s)).

(** ** Iterators *)

Inductive JSIteratorKindEnum := JS_ITERATOR_KIND_KEY | JS_ITERATOR_KIND_VALUE | JS_ITERATOR_KIND_KEY_AND_VALUE.

(** [it_obj] is the map, or [None] for [JS_UNDEFINED] at the end of the enumeration. *)
Record JSMapIteratorData := mkIter { it_obj : option Z; it_kind : JSIteratorKindEnum; cur_record : Z }.

Definition js_create_map_iterator (sp : Z) (kind : JSIteratorKindEnum) : JSMapIteratorData := mkIter (Some sp) kind 0.

(** The loop: the first record that is not empty; 0 at the end of the list. *)
Fixpoint next_live (w : map_world) (l : list Z) : outcome Z :=
  match l with
  | [] => Ok 0
  | mr :: l => r ← get_rec w mr; if mr_empty r then next_live w l else Ok mr
  end.

(** The records after [mr] in the list. *)
Fixpoint after (l : list Z) (mr : Z) : outcome (list Z) :=
  match l with [] => Stuck | x :: l => if x =? mr then Ok l else after l mr end.

Inductive iter_result := IT_done | IT_key (k : mkey) | IT_pair (k v : mkey).

Definition js_map_iterator_next (w : map_world) (it : JSMapIteratorData) (is_set : bool)
    : outcome (map_world * JSMapIteratorData * iter_result) :=
  match it_obj it with
  | None => Ok (w, it, IT_done)
  | Some sp =>
      s ← get_map w sp;
      '(w, l) ←
        (if cur_record it =? 0 then Ok (w, records s)
         else
           l ← after (records s) (cur_record it);
           w ← map_decref_record w (cur_record it);
           Ok (w, l));
      mr ← next_live w l;
      if mr =? 0 then Ok (w, mkIter None (it_kind it) 0, IT_done)
      else
        r ← get_rec w mr;
        let w := set_rec w mr (set_ref_count r (mr_ref_count r + 1)) in
        let it := mkIter (it_obj it) (it_kind it) mr in
        let v := if is_set then mr_key r else mr_value r in
        Ok (w, it, match it_kind it with
                   | JS_ITERATOR_KIND_KEY => IT_key (mr_key r)
                   | JS_ITERATOR_KIND_VALUE => IT_key v
                   | JS_ITERATOR_KIND_KEY_AND_VALUE => IT_pair (mr_key r) v
                   end)
  end.

(** The iterator is freed; the map is still in use. *)
Definition js_map_iterator_finalizer (w : map_world) (it : JSMapIteratorData) : outcome map_world :=
  if bool_decide (it_obj it <> None) && negb (cur_record it =? 0) then map_decref_record w (cur_record it) else Ok w.
End Map.
