(* ===== verification/JsMapSpec.v ===== *)
(** What [Map] and [Set] do: the operations of [JsMap] implement the list of entries of
    the language definition ([[MapData]]), in which a new entry goes to the end, a deleted
    entry leaves an empty place, and an iterator is an index. *)

From S2P Require Import Prelude JsKeys JsMap.

Section Spec.
Context `{K : !MapKeys}.

(** ** The abstract map *)

(** The entries in the order of insertion; [None] is the place of a deleted one. *)
Definition map_data : Type := list (option (mkey * mkey)).

Definition data_lookup (E : map_data) (k : mkey) : option mkey :=
  foldr (fun e r => match e with Some (k', v) => if mk_same k' k then Some v else r | None => r end) None E.

(** [Map.prototype.set]: the value of the entry with the key, or a new entry. *)
Definition data_set (E : map_data) (k v : mkey) : map_data :=
  match data_lookup E k with
  | Some _ => map (fun e => match e with Some (k', v') => if mk_same k' k then Some (k', v) else e | None => None end) E
  | None => E ++ [Some (k, v)]
  end.

Definition data_delete (E : map_data) (k : mkey) : map_data :=
  map (fun e => match e with Some (k', _) => if mk_same k' k then None else e | None => None end) E.

Definition data_size (E : map_data) : Z := Z.of_nat (length (omap id E)).

(** The first entry from an index on. *)
Fixpoint data_next (E : map_data) (i : nat) : option (nat * (mkey * mkey)) :=
  match E with
  | [] => None
  | e :: E =>
      match i with
      | S i => '(j, kv) ← data_next E i; Some (S j, kv)
      | O => match e with Some kv => Some (O, kv) | None => '(j, kv) ← data_next E O; Some (S j, kv) end
      end
  end.

(** ** The representation *)

(** A place of the list: an entry with its record, a deleted entry whose record is kept
    for an iterator, or a deleted entry. *)
Inductive cell :=
  | Live (p : Z) (k v : mkey)
  | Zombie (p : Z)
  | Gone.

Definition cell_ptr (c : cell) : option Z := match c with Live p _ _ => Some p | Zombie p => Some p | Gone => None end.
Definition erase (c : cell) : option (mkey * mkey) := match c with Live _ k v => Some (k, v) | _ => None end.

(** The iterators: the record each stands on (0 before the first) and the index of the
    next place. *)
Abbreviation iters := (list (Z * nat)).

Definition locks (its : iters) (p : Z) : Z := Z.of_nat (length (filter (fun it => it.1 = p) its)).

Definition cell_ok (w : map_world) (sp : Z) (its : iters) (c : cell) : Prop :=
  match c with
  | Live p k v =>
      p <> 0 /\ w_mem w !! p = Some (mkRecord (1 + locks its p) false sp k v) /\ exists k0, mk_ok k0 /\ k = mk_normalize k0
  | Zombie p => p <> 0 /\ 0 < locks its p /\ w_mem w !! p = Some (mkRecord (locks its p) true sp mk_undefined mk_undefined)
  | Gone => True
  end.

Definition it_ok (cells : list cell) (it : Z * nat) : Prop :=
  match it.2 with
  | O => it.1 = 0
  | S i => it.1 <> 0 /\ exists c, cells !! i = Some c /\ cell_ptr c = Some it.1
  end.

Definition bucket_list (cells : list cell) (size h : Z) : list Z :=
  omap (fun c => match c with Live p k _ => if bucket k size =? h then Some p else None | _ => None end) cells.

Definition live (c : cell) : option Z := match c with Live p _ _ => Some p | _ => None end.

Record map_rep (w : map_world) (sp : Z) (its : iters) (cells : list cell) : Prop := {
  rp_map : exists s, w_maps w !! sp = Some s /\ is_weak s = false /\
    records s = omap cell_ptr cells /\ record_count s = Z.of_nat (length (omap live cells)) /\ record_count s < 2 ^ 32 /\
    0 < hash_size s < 2 ^ 32 /\ zlen (hash_table s) = hash_size s /\
    forall h, 0 <= h < hash_size s -> zget (hash_table s) h = Some (bucket_list cells (hash_size s) h);
  rp_nodup : NoDup (omap cell_ptr cells);
  rp_cells : Forall (cell_ok w sp its) cells;
  rp_its : Forall (it_ok cells) its;
  rp_keys : forall p k v p' k' v', Live p k v ∈ cells -> Live p' k' v' ∈ cells -> mk_same k k' = true -> p = p' }.

(** ** Lists of cells *)

Lemma omap_ptr_elem p c (cells : list cell) : c ∈ cells -> cell_ptr c = Some p -> p ∈ omap cell_ptr cells.
Proof. intros Hc Hp. apply list_elem_of_omap. eauto. Qed.

Lemma NoDup_omap_split (A : list cell) c B p :
  NoDup (omap cell_ptr (A ++ c :: B)) -> cell_ptr c = Some p -> (p ∉ omap cell_ptr A) /\ (p ∉ omap cell_ptr B).
Proof.
  rewrite omap_app, list.NoDup_app. intros (_ & Hd & HB) Hp. cbn [omap list_omap] in *. rewrite Hp in *.
  apply NoDup_cons in HB as [HpB _]. split; [|done]. intros HA. apply (Hd p HA). by left.
Qed.

Lemma filter_not_in_omap {A} (f : A -> option Z) (l : list A) p : p ∉ omap f l -> filter (.≠ p) (omap f l) = omap f l.
Proof.
  generalize (omap f l). clear. intros l. induction l as [|x l IH]; intros Hp; [done|].
  apply not_elem_of_cons in Hp as [Hx Hp]. rewrite filter_cons, decide_True by done. by rewrite IH.
Qed.

(** Taking a pointer out of what a function gives for the cells. *)
Lemma filter_omap_split (f : cell -> option Z) (A : list cell) c B p :
  (forall c q, f c = Some q -> cell_ptr c = Some q) -> NoDup (omap cell_ptr (A ++ c :: B)) -> cell_ptr c = Some p ->
  filter (.≠ p) (omap f (A ++ c :: B)) = omap f (A ++ B).
Proof.
  intros Hf Hnd Hp. destruct (NoDup_omap_split A c B p Hnd Hp) as [HA HB].
  assert (Hsub : forall l : list cell, p ∉ omap cell_ptr l -> p ∉ omap f l).
  { intros l Hl (x & Hx & Hfx)%list_elem_of_omap. apply Hl. apply list_elem_of_omap. eauto. }
  rewrite !omap_app, filter_app. cbn [omap list_omap]. rewrite filter_not_in_omap by auto. f_equal.
  destruct (f c) as [q|] eqn:Hq.
  - apply Hf in Hq. rewrite Hp in Hq. injection Hq as <-. rewrite filter_cons, decide_False by (intros Hx; by apply Hx).
    by apply filter_not_in_omap, Hsub.
  - by apply filter_not_in_omap, Hsub.
Qed.

Lemma land_le_r a b : 0 <= b -> a .& b <= b.
Proof.
  intros Hb. assert (Hd : Z.ldiff (a .& b) b = 0) by (apply Z.bits_inj'; intros n Hn; rewrite Z.ldiff_spec, Z.land_spec, Z.bits_0; by destruct (Z.testbit a n), (Z.testbit b n)).
  apply Z.sub_nocarry_ldiff in Hd. pose proof (proj2 (Z.ldiff_nonneg b (a .& b)) (or_introl Hb)). lia.
Qed.

Lemma bucket_range k size : 0 < size < 2 ^ 32 -> 0 <= bucket k size < size.
Proof.
  intros Hs. unfold bucket. replace (u32 (size - 1)) with (size - 1) by (unfold u32, wrapu; symmetry; apply Z.mod_small; lia).
  pose proof (land_le_r (mk_hash k) (size - 1) ltac:(lia)). assert (0 <= mk_hash k .& (size - 1)) by (apply Z.land_nonneg; lia). lia.
Qed.

(** ** Looking up *)

Lemma find_in_spec w sp its cells key l :
  Forall (cell_ok w sp its) cells -> (forall p, p ∈ l -> exists k v, Live p k v ∈ cells) ->
  exists p, find_in w key l = Ok p /\
    ((p <> 0 /\ p ∈ l /\ exists k v, Live p k v ∈ cells /\ mk_same k key = true) \/
     (p = 0 /\ forall q k v, q ∈ l -> Live q k v ∈ cells -> mk_same k key = false)).
Proof.
  intros Hc. rewrite Forall_forall in Hc. induction l as [|q l IH]; intros Hl; cbn [find_in].
  { exists 0. split; [done|]. right. split; [done|]. by intros q k v Hq%not_elem_of_nil. }
  destruct (Hl q ltac:(by left)) as (k & v & Hq). destruct (Hc _ Hq) as (Hq0 & Hm & _). unfold get_rec. rewrite Hm.
  cbn [of_opt mbind outcome_bind mr_key]. destruct (mk_same k key) eqn:Hs.
  - exists q. split; [done|]. left. split_and!; [done|by left|eauto].
  - destruct IH as (p & Hp & Hcase); [intros p Hp; apply Hl; by right|]. exists p. split; [done|].
    destruct Hcase as [(Hp0 & Hin & He)|(Hp0 & He)]; [left; split_and!; [done|by right|done]|right].
    split; [done|]. intros q' k' v' [->|Hq']%elem_of_cons Hq''; [|by eapply He].
    destruct (Hc _ Hq'') as (_ & Hm' & _). rewrite Hm in Hm'. injection Hm' as <- <-. done.
Qed.

Lemma bucket_list_elem cells size h p :
  p ∈ bucket_list cells size h <-> exists k v, Live p k v ∈ cells /\ bucket k size = h.
Proof.
  unfold bucket_list. rewrite list_elem_of_omap. split.
  - intros ([q k v|q|] & Hc & He); try done. destruct (Z.eqb_spec (bucket k size) h); [|done]. injection He as ->. eauto.
  - intros (k & v & Hc & Hb). exists (Live p k v). split; [done|]. by rewrite Hb, Z.eqb_refl.
Qed.

Lemma map_find_record_spec w sp its cells k :
  map_rep w sp its cells -> mk_ok k ->
  exists p, map_find_record w sp (mk_normalize k) = Ok p /\
    ((p <> 0 /\ exists k' v, Live p k' v ∈ cells /\ mk_same k' (mk_normalize k) = true) \/
     (p = 0 /\ forall q k' v, Live q k' v ∈ cells -> mk_same k' (mk_normalize k) = false)).
Proof.
  intros [(s & Hs & _ & _ & _ & _ & Hsz & _ & Hb) _ Hc _ _] Hk. unfold map_find_record, get_map. rewrite Hs. cbn [of_opt mbind outcome_bind].
  rewrite (Hb _ (bucket_range _ _ Hsz)). cbn [of_opt mbind outcome_bind].
  destruct (find_in_spec w sp its cells (mk_normalize k) (bucket_list cells (hash_size s) (bucket (mk_normalize k) (hash_size s))) Hc)
    as (p & Hp & Hcase).
  { intros p (k' & v & Hin & _)%bucket_list_elem. eauto. }
  exists p. split; [done|]. destruct Hcase as [(Hp0 & _ & He)|(Hp0 & He)]; [by left|right]. split; [done|].
  intros q k' v Hq. destruct (mk_same k' (mk_normalize k)) eqn:Hsame; [|done]. rewrite <- Hsame. eapply He; [|done].
  apply bucket_list_elem. exists k', v. split; [done|]. rewrite Forall_forall in Hc. destruct (Hc _ Hq) as (_ & _ & k0 & Hk0 & ->).
  unfold bucket. f_equal. by apply mk_hash_same.
Qed.

Lemma data_lookup_none (cells : list cell) key :
  (forall q k v, Live q k v ∈ cells -> mk_same k key = false) -> data_lookup (map erase cells) key = None.
Proof.
  induction cells as [|c cells IH]; intros Hn; [done|]. cbn [map data_lookup foldr].
  change (foldr _ None (map erase cells)) with (data_lookup (map erase cells) key).
  rewrite IH by (intros q k v Hq; apply (Hn q k v); by right).
  destruct c as [p k v|p|]; cbn [erase]; try done. by rewrite (Hn p k v ltac:(by left)).
Qed.

Lemma data_lookup_live w sp its cells p k v key :
  map_rep w sp its cells -> Live p k v ∈ cells -> mk_same k key = true -> data_lookup (map erase cells) key = Some v.
Proof.
  intros [_ _ Hc _ Hkeys] Hp Hs.
  assert (Hall : forall p' k' v', Live p' k' v' ∈ cells -> mk_same k' key = true -> v' = v).
  { intros p' k' v' Hp' Hs'. assert (p = p') as <-.
    { apply (Hkeys _ _ _ _ _ _ Hp Hp'). eapply mk_same_trans; [done|]. by apply mk_same_sym. }
    rewrite Forall_forall in Hc. destruct (Hc _ Hp) as (_ & Hm & _). destruct (Hc _ Hp') as (_ & Hm' & _).
    rewrite Hm in Hm'. by injection Hm' as _ ->. }
  clear Hc Hkeys. induction cells as [|c cells IH]; [by apply not_elem_of_nil in Hp|]. cbn [map data_lookup foldr].
  change (foldr _ None (map erase cells)) with (data_lookup (map erase cells) key).
  apply elem_of_cons in Hp as [<-|Hp]; cbn [erase]; [by rewrite Hs|].
  rewrite IH; [|done|intros p' k' v' Hp' Hs'; apply (Hall p' k' v'); [by right|done]].
  destruct c as [p' k' v'|p'|]; cbn [erase]; try done. destruct (mk_same k' key) eqn:Hs'; [|done].
  f_equal. apply (Hall p' k' v'); [by left|done].
Qed.

(** ** Changing one place *)

(** A place whose record is another one. *)
Lemma cell_ok_other w w' sp its c p :
  (forall q, q <> p -> w_mem w' !! q = w_mem w !! q) -> cell_ptr c <> Some p -> cell_ok w sp its c -> cell_ok w' sp its c.
Proof.
  intros Hm Hc. destruct c as [q k v|q|]; cbn [cell_ok cell_ptr] in *; [..|done]; (rewrite Hm; [done|congruence]).
Qed.

Lemma cells_ok_other w w' sp its (A : list cell) p :
  (forall q, q <> p -> w_mem w' !! q = w_mem w !! q) -> p ∉ omap cell_ptr A ->
  Forall (cell_ok w sp its) A -> Forall (cell_ok w' sp its) A.
Proof.
  intros Hm Hp HA. apply Forall_forall. intros c Hc. rewrite Forall_forall in HA.
  apply (cell_ok_other w w' _ _ _ p Hm); [|by apply HA]. intros Hx. apply Hp. by eapply omap_ptr_elem.
Qed.

(** The invariant when one place is replaced, with the memory changed at its record. *)
Lemma map_rep_replace w w' sp its its' A c c' B p :
  map_rep w sp its (A ++ c :: B) -> cell_ptr c = Some p -> (cell_ptr c' = Some p \/ cell_ptr c' = None) ->
  (forall q, q <> p -> w_mem w' !! q = w_mem w !! q) -> (forall q, q <> p -> locks its' q = locks its q) ->
  (exists s', w_maps w' !! sp = Some s' /\ is_weak s' = false /\
    records s' = omap cell_ptr (A ++ c' :: B) /\ record_count s' = Z.of_nat (length (omap live (A ++ c' :: B))) /\ record_count s' < 2 ^ 32 /\
    0 < hash_size s' < 2 ^ 32 /\ zlen (hash_table s') = hash_size s' /\
    forall h, 0 <= h < hash_size s' -> zget (hash_table s') h = Some (bucket_list (A ++ c' :: B) (hash_size s') h)) ->
  cell_ok w' sp its' c' -> Forall (it_ok (A ++ c' :: B)) its' ->
  (forall q k v, c' = Live q k v -> exists v0, c = Live q k v0) ->
  map_rep w' sp its' (A ++ c' :: B).
Proof.
  intros [_ Hnd Hc _ Hkeys] Hp Hp' Hm Hlk Hs Hok Hits Hlive. destruct (NoDup_omap_split _ _ _ _ Hnd Hp) as [HpA HpB].
  assert (Hlocks : forall D : list cell, p ∉ omap cell_ptr D -> Forall (cell_ok w sp its) D -> Forall (cell_ok w' sp its') D).
  { intros D HD HF. apply (cells_ok_other w w' sp its' D p Hm HD). apply Forall_forall. intros d Hd. rewrite Forall_forall in HF.
    specialize (HF d Hd). destruct d as [q k v|q|]; [..|done]; cbn [cell_ok] in *; (rewrite Hlk; [done|]);
      intros ->; apply HD; (eapply omap_ptr_elem; [done|reflexivity]). }
  apply Forall_app in Hc as [HcA HcB]. apply Forall_cons in HcB as [_ HcB].
  split; [done| | |done|].
  - rewrite omap_app in Hnd |- *. cbn [omap list_omap] in *. rewrite Hp in Hnd. destruct Hp' as [->| ->]; [done|].
    apply list.NoDup_app in Hnd as (H1 & H2 & H3). apply NoDup_cons in H3 as [H3 H4].
    apply list.NoDup_app. split_and!; [done| |done]. intros x Hx Hx'. apply (H2 x Hx). by right.
  - apply Forall_app. split; [auto|]. constructor; auto.
  - assert (Hsub : forall q k v, Live q k v ∈ A ++ c' :: B -> exists v0, Live q k v0 ∈ A ++ c :: B).
    { intros q k v. rewrite elem_of_app, elem_of_cons. intros [Hx|[<-|Hx]].
      - exists v. apply elem_of_app. by left.
      - destruct (Hlive q k v eq_refl) as [v0 ->]. exists v0. apply elem_of_app. right. by left.
      - exists v. apply elem_of_app. right. by right. }
    intros q k v q' k' v' [v0 H0]%Hsub [v1 H1]%Hsub. by apply (Hkeys q k v0 q' k' v1).
Qed.

(** ** Deletion *)

Lemma locks_pos its p i : (p, i) ∈ its -> 0 < locks its p.
Proof.
  intros Hin. unfold locks. assert (Hf : (p, i) ∈ filter (fun it => it.1 = p) its) by (by apply list_elem_of_filter).
  destruct (filter _ its); [by apply not_elem_of_nil in Hf|]. simpl. lia.
Qed.

Lemma it_ok_replace cells A c c' B its p :
  cells = A ++ c :: B -> cell_ptr c = Some p -> (cell_ptr c' = Some p \/ locks its p = 0) ->
  Forall (it_ok cells) its -> Forall (it_ok (A ++ c' :: B)) its.
Proof.
  intros -> Hp Hcase Hits. apply Forall_forall. intros [q i] Hin. rewrite Forall_forall in Hits. specialize (Hits _ Hin).
  unfold it_ok in *. cbn [fst snd] in *. destruct i as [|i]; [done|]. destruct Hits as (Hq & d & Hd & Hdp). split; [done|].
  destruct (decide (i = length A)) as [->|Hne].
  - rewrite list_lookup_middle in Hd by done. injection Hd as <-. rewrite Hp in Hdp. injection Hdp as <-.
    exists c'. split; [by apply list_lookup_middle|]. destruct Hcase as [|Hz]; [done|]. pose proof (locks_pos _ _ _ Hin). lia.
  - exists d. split; [|done]. rewrite <- Hd. destruct (decide (i < length A)%nat).
    + by rewrite !lookup_app_l by done.
    + rewrite !lookup_app_r by lia. destruct (i - length A)%nat eqn:Hi; [lia|]. done.
Qed.

Lemma unlink_in l p : p ∈ l -> unlink l p = Ok (filter (.≠ p) l).
Proof. intros Hp. unfold unlink. by rewrite bool_decide_true. Qed.

(** The place of a deleted entry. *)
Definition deleted (its : iters) (p : Z) : cell := if decide (locks its p = 0) then Gone else Zombie p.

Lemma map_delete_record_live w sp its A p k v B :
  map_rep w sp its (A ++ Live p k v :: B) ->
  exists w', map_delete_record w sp p = Ok w' /\ map_rep w' sp its (A ++ deleted its p :: B).
Proof.
  intros Hrep. pose proof Hrep as [(s & Hs & Hw & Hrec & Hcnt & Hmax & Hsz & Htl & Hb) Hnd Hc Hits _].
  pose proof Hc as Hc'. apply Forall_app in Hc' as [_ [(Hp0 & Hm & Hk) _]%Forall_cons].
  unfold map_delete_record, get_rec, get_map. rewrite Hm. cbn [of_opt mbind outcome_bind mr_empty mr_key mr_ref_count mr_map].
  rewrite Hs. cbn [of_opt mbind outcome_bind]. set (h := bucket k (hash_size s)).
  assert (Hh : 0 <= h < hash_size s) by (by apply bucket_range).
  rewrite (Hb h Hh). cbn [of_opt mbind outcome_bind].
  assert (Hin : p ∈ bucket_list (A ++ Live p k v :: B) (hash_size s) h).
  { apply bucket_list_elem. exists k, v. split; [|done]. apply elem_of_app. right. by left. }
  assert (Hbl : forall h', 0 <= h' < hash_size s ->
    (if h' =? h then Some (filter (.≠ p) (bucket_list (A ++ Live p k v :: B) (hash_size s) h)) else Some (bucket_list (A ++ Live p k v :: B) (hash_size s) h')) =
    Some (bucket_list (A ++ deleted its p :: B) (hash_size s) h')).
  { intros h' Hh'. assert (Hd : bucket_list (A ++ deleted its p :: B) (hash_size s) h' = bucket_list (A ++ B) (hash_size s) h').
    { unfold bucket_list, deleted. rewrite !omap_app. cbn [omap list_omap]. by case_decide. }
    rewrite Hd. destruct (Z.eqb_spec h' h) as [->|Hne]; f_equal.
    - apply filter_omap_split; [|done|done]. intros [q k' v'|q|] q'; try done. by destruct (_ =? _).
    - unfold bucket_list. rewrite !omap_app. cbn [omap list_omap]. destruct (Z.eqb_spec (bucket k (hash_size s)) h'); [by subst|done]. }
  rewrite unlink_in by done. cbn [mbind outcome_bind].
  destruct (zset (hash_table s) h (filter (.≠ p) (bucket_list (A ++ Live p k v :: B) (hash_size s) h))) as [t|] eqn:Ht.
  2: { rewrite zset_in_range in Ht by lia. done. }
  cbn [of_opt mbind outcome_bind with_table is_weak records]. rewrite Hw. cbn [mbind outcome_bind].
  assert (Hlive : Z.of_nat (length (omap live (A ++ Live p k v :: B))) = Z.of_nat (length (omap live (A ++ deleted its p :: B))) + 1).
  { rewrite !omap_app, !length_app. cbn [omap list_omap live]. unfold deleted. case_decide; cbn [live length]; lia. }
  assert (Hcount : u32 (record_count s - 1) = Z.of_nat (length (omap live (A ++ deleted its p :: B)))).
  { unfold u32, wrapu. rewrite Z.mod_small by lia. lia. }
  assert (Htab : forall h', 0 <= h' < hash_size s -> zget t h' = Some (bucket_list (A ++ deleted its p :: B) (hash_size s) h')).
  { intros h' Hh'. rewrite (zget_zset _ _ _ _ _ Ht), <- (Hbl h' Hh'). destruct (h' =? h); [done|]. by apply Hb. }
  replace (1 + locks its p - 1) with (locks its p) by lia.
  assert (Hits' : Forall (it_ok (A ++ deleted its p :: B)) its).
  { apply (it_ok_replace (A ++ Live p k v :: B) A (Live p k v) _ B its p); [done|done| |done]. unfold deleted. case_decide; auto. }
  assert (Hrest : forall w' s', w_maps w' !! sp = Some s' -> is_weak s' = false -> record_count s' = u32 (record_count s - 1) ->
    hash_size s' = hash_size s -> hash_table s' = t -> records s' = omap cell_ptr (A ++ deleted its p :: B) ->
    (forall q, q <> p -> w_mem w' !! q = w_mem w !! q) -> cell_ok w' sp its (deleted its p) ->
    map_rep w' sp its (A ++ deleted its p :: B)).
  { intros w' s' Hs' Hw' Hn' Hsz' Ht' Hr' Hm' Hok'. apply (map_rep_replace w w' sp its its A (Live p k v) _ B p); [done|done| |done|done| |done|done|].
    - unfold deleted. case_decide; auto.
    - exists s'. rewrite Hsz', Ht', Hn', Hcount, (zlen_zset _ _ _ _ Ht). split_and!; try done; lia.
    - unfold deleted. case_decide; congruence. }
  destruct (Z.eqb_spec (locks its p) 0) as [Hz|Hz].
  - assert (Hinr : p ∈ records s) by (rewrite Hrec; eapply omap_ptr_elem; [apply elem_of_app; right; by left|done]).
    rewrite unlink_in by done. cbn [mbind outcome_bind]. eexists. split; [reflexivity|].
    eapply Hrest; [apply lookup_insert_eq|done|done|done|done| | |].
    + cbn [records with_records with_count]. rewrite Hrec, (filter_omap_split cell_ptr _ _ _ p) by done.
      unfold deleted. rewrite decide_True by done. rewrite !omap_app. done.
    + intros q Hq. cbn [w_mem set_map free_rec]. by rewrite lookup_delete_ne.
    + unfold deleted. by rewrite decide_True.
  - eexists. split; [reflexivity|]. eapply Hrest; [apply lookup_insert_eq|done|done|done|done| | |].
    + cbn [records with_records with_count with_table]. rewrite Hrec. unfold deleted. rewrite decide_False by done. by rewrite !omap_app.
    + intros q Hq. cbn [w_mem set_map set_rec]. by rewrite lookup_insert_ne.
    + unfold deleted. rewrite decide_False by done. cbn [cell_ok w_mem set_map set_rec]. rewrite lookup_insert_eq.
      split_and!; [done| |done]. unfold locks in *. lia.
Qed.


(** A deleted entry is not deleted again. *)
Lemma map_delete_record_zombie w sp its cells p :
  map_rep w sp its cells -> Zombie p ∈ cells -> map_delete_record w sp p = Ok w.
Proof.
  intros Hrep Hp. pose proof (rp_cells _ _ _ _ Hrep) as Hc. rewrite Forall_forall in Hc.
  destruct (Hc _ Hp) as (_ & _ & Hm). unfold map_delete_record, get_rec. by rewrite Hm.
Qed.

(** ** Growing the table *)

(** A table that holds the entries of some places. *)
Definition table_of (t : list (list Z)) (size : Z) (cells : list cell) : Prop :=
  zlen t = size /\ forall h, 0 <= h < size -> zget t h = Some (bucket_list cells size h).

Lemma bucket_list_app A B size h : bucket_list (A ++ B) size h = bucket_list A size h ++ bucket_list B size h.
Proof. unfold bucket_list. by rewrite omap_app. Qed.

(** A record is added to its bucket. *)
Lemma table_of_add t size cells p k v b :
  0 < size < 2 ^ 32 -> table_of t size cells -> zget t (bucket k size) = Some b ->
  exists t', zset t (bucket k size) (b ++ [p]) = Some t' /\ table_of t' size (cells ++ [Live p k v]).
Proof.
  intros Hsz [Hl Ht] Hb. pose proof (bucket_range k size Hsz) as Hr.
  rewrite (Ht _ Hr) in Hb. injection Hb as <-.
  destruct (zset t (bucket k size) (bucket_list cells size (bucket k size) ++ [p])) as [t'|] eqn:Hset.
  2: { rewrite zset_in_range in Hset by lia. done. }
  exists t'. split; [done|]. split; [by rewrite (zlen_zset _ _ _ _ Hset)|].
  intros h Hh. rewrite (zget_zset _ _ _ _ _ Hset), bucket_list_app. unfold bucket_list at 3. cbn [omap list_omap].
  rewrite (Z.eqb_sym (bucket k size) h). destruct (Z.eqb_spec h (bucket k size)) as [->|]; [done|]. rewrite app_nil_r. by apply Ht.
Qed.

Lemma rehash_spec w sp its size cells done_ t :
  0 < size < 2 ^ 32 -> Forall (cell_ok w sp its) cells -> table_of t size done_ ->
  exists t', rehash w size (omap cell_ptr cells) t = Ok t' /\ table_of t' size (done_ ++ cells).
Proof.
  intros Hsz Hc. revert done_ t. induction Hc as [|c cells Hc Hcs IH]; intros done_ t Ht.
  { exists t. by rewrite app_nil_r. }
  rewrite cons_middle, app_assoc. destruct c as [p k v|p|]; cbn [omap list_omap cell_ptr rehash].
  - destruct Hc as (_ & Hm & _). unfold get_rec. rewrite Hm. cbn [of_opt mbind outcome_bind mr_empty mr_key].
    pose proof (proj2 Ht _ (bucket_range k size Hsz)) as Hb. rewrite Hb. cbn [of_opt mbind outcome_bind].
    destruct (table_of_add t size done_ p k v _ Hsz Ht Hb) as (t' & Hset & Ht'). rewrite Hset. cbn [of_opt mbind outcome_bind].
    by apply IH.
  - destruct Hc as (_ & _ & Hm). unfold get_rec. rewrite Hm. cbn [of_opt mbind outcome_bind mr_empty]. apply IH.
    split; [apply Ht|]. intros h Hh. rewrite bucket_list_app, app_nil_r. by apply Ht.
  - apply IH. split; [apply Ht|]. intros h Hh. rewrite bucket_list_app, app_nil_r. by apply Ht.
Qed.

Lemma table_of_empty size : 0 <= size -> table_of (replicate (Z.to_nat size) []) size [].
Proof.
  intros Hs. split; [unfold zlen; rewrite length_replicate; lia|]. intros h Hh.
  rewrite zget_lookup by lia. apply lookup_replicate. split; [done|lia].
Qed.

(** The sizes of the table that [js_realloc2] may give. *)
Definition slack_ok (s : JSMapState) (slack : option Z) : Prop :=
  match slack with
  | None => True
  | Some n => 0 <= n /\ (if hash_size s =? 1 then 4 else hash_size s * 2) + n < 2 ^ 32
  end.

Lemma map_hash_resize_spec w sp its cells s slack :
  map_rep w sp its cells -> w_maps w !! sp = Some s -> slack_ok s slack ->
  exists w', map_hash_resize w sp slack = Ok w' /\ w_mem w' = w_mem w /\ map_rep w' sp its cells.
Proof.
  intros Hrep Hs Hslack. pose proof Hrep as [(s' & Hs' & Hw & Hrec & Hcnt & Hmax & Hsz & Htl & Hb) Hnd Hc Hits Hkeys].
  rewrite Hs in Hs'. injection Hs' as <-. unfold map_hash_resize, get_map. rewrite Hs. cbn [of_opt mbind outcome_bind].
  destruct slack as [n|]; [|by exists w]. cbn [slack_ok] in Hslack.
  set (size := u32 ((if hash_size s =? 1 then 4 else u32 (hash_size s * 2)) + n)).
  assert (Hsize : 0 < size < 2 ^ 32).
  { unfold size, u32, wrapu. change (2 ^ 32) with 4294967296 in *.
    revert Hslack. destruct (hash_size s =? 1); intros [Hn Hlt]; [|rewrite (Z.mod_small (hash_size s * 2)) by lia];
      rewrite Z.mod_small by lia; lia. }
  destruct (rehash_spec w sp its size cells [] _ Hsize Hc (table_of_empty size ltac:(lia))) as (t & Ht & Hlt & Htab).
  rewrite Hrec, Ht. cbn [mbind outcome_bind]. eexists. split; [reflexivity|]. split; [done|]. split; try done.
  eexists. split; [apply lookup_insert_eq|]. cbn [is_weak records record_count hash_size hash_table with_table].
  split_and!; try done; lia.
Qed.

(** ** Adding an entry *)

Lemma map_rep_fresh w sp its cells mr :
  map_rep w sp its cells -> w_mem w !! mr = None -> mr <> 0 -> (mr ∉ omap cell_ptr cells) /\ locks its mr = 0.
Proof.
  intros Hrep Hm Hmr. pose proof (rp_cells _ _ _ _ Hrep) as Hc. rewrite Forall_forall in Hc.
  assert (Hnot : mr ∉ omap cell_ptr cells).
  { intros (c & Hin & Hp)%list_elem_of_omap. specialize (Hc c Hin).
    destruct c as [q k v|q|]; simplify_eq/=; destruct_and!; congruence. }
  split; [done|]. unfold locks. destruct (filter (fun it => it.1 = mr) its) as [|it l] eqn:Hf; [done|]. exfalso.
  assert (Hin : it ∈ filter (fun it => it.1 = mr) its) by (rewrite Hf; by left).
  apply list_elem_of_filter in Hin as [Hit Hin]. pose proof (rp_its _ _ _ _ Hrep) as Hits. rewrite Forall_forall in Hits.
  specialize (Hits _ Hin). unfold it_ok in Hits. destruct (it.2) as [|i]; [congruence|]. destruct Hits as (_ & c & Hlk & Hcp).
  apply Hnot. rewrite <- Hit. eapply omap_ptr_elem; [by eapply list_elem_of_lookup_2|done].
Qed.

Lemma map_add_record_spec w sp its cells s k mr slack :
  map_rep w sp its cells -> w_maps w !! sp = Some s -> w_mem w !! mr = None -> mr <> 0 -> mk_ok k ->
  (forall q k' v, Live q k' v ∈ cells -> mk_same k' (mk_normalize k) = false) ->
  record_count s + 1 < 2 ^ 32 -> slack_ok s slack ->
  exists w', map_add_record w sp (mk_normalize k) mr slack = Ok (w', mr) /\
    map_rep w' sp its (cells ++ [Live mr (mk_normalize k) mk_undefined]).
Proof.
  intros Hrep Hs Hm Hmr Hk Hnew Hmax1 Hslack. destruct (map_rep_fresh _ _ _ _ _ Hrep Hm Hmr) as [Hfresh Hlk].
  pose proof Hrep as [(s' & Hs' & Hw & Hrec & Hcnt & Hmax & Hsz & Htl & Hb) Hnd Hc Hits Hkeys].
  rewrite Hs in Hs'. injection Hs' as <-. unfold map_add_record, get_map. rewrite Hs. cbn [of_opt mbind outcome_bind].
  rewrite (proj2 (Z.eqb_neq mr 0) Hmr), Hw. cbn [mbind outcome_bind].
  pose proof (Hb _ (bucket_range (mk_normalize k) _ Hsz)) as Hbk. rewrite Hbk. cbn [of_opt mbind outcome_bind].
  destruct (table_of_add _ _ cells mr (mk_normalize k) mk_undefined _ Hsz (conj Htl Hb) Hbk) as (t & Hset & Hlt & Htab).
  rewrite Hset. cbn [of_opt mbind outcome_bind]. set (s1 := with_count _ _). set (w1 := set_map _ sp s1).
  assert (Hrc : record_count s1 = record_count s + 1).
  { unfold s1. cbn [record_count with_count with_records with_table]. unfold u32, wrapu. apply Z.mod_small. lia. }
  assert (Hrep1 : map_rep w1 sp its (cells ++ [Live mr (mk_normalize k) mk_undefined])).
  { split.
    - exists s1. split; [apply lookup_insert_eq|]. rewrite Hrc, !omap_app, length_app. cbn [omap list_omap cell_ptr live length].
      unfold s1. cbn [is_weak records hash_size hash_table with_count with_records with_table]. rewrite Hrec. split_and!; try done; lia.
    - rewrite omap_app. cbn [omap list_omap cell_ptr]. apply list.NoDup_app. split_and!; [done| |apply NoDup_singleton].
      by intros x Hx ->%list_elem_of_singleton.
    - apply Forall_app. split.
      + apply (cells_ok_other w w1 sp its cells mr); [|done|done]. intros q Hq. unfold w1. cbn [w_mem set_map set_rec]. by rewrite lookup_insert_ne.
      + repeat constructor; [done| |eauto]. unfold w1. cbn [w_mem set_map set_rec]. by rewrite lookup_insert_eq, Hlk.
    - eapply Forall_impl; [exact Hits|]. intros [q [|i]] Hit; [done|]. destruct Hit as (Hq & c & Hlc & Hcp). split; [done|].
      exists c. split; [by apply lookup_app_l_Some|done].
    - intros q k1 v1 q' k2 v2. rewrite !elem_of_app, !list_elem_of_singleton. intros [H1|H1] [H2|H2] Hsame.
      + by eapply Hkeys.
      + injection H2 as -> -> ->. by rewrite (Hnew _ _ _ H1) in Hsame.
      + injection H1 as -> -> ->. apply mk_same_sym in Hsame. by rewrite (Hnew _ _ _ H2) in Hsame.
      + congruence. }
  destruct (record_count_threshold s1 <=? record_count s1); [|by exists w1].
  destruct (map_hash_resize_spec w1 sp its _ s1 slack Hrep1 (lookup_insert_eq _ _ _)) as (w2 & Hw2 & _ & Hrep2); [done|].
  rewrite Hw2. by exists w2.
Qed.

(** ** Setting a value *)

Lemma set_value_spec w sp its A p k v B v' :
  map_rep w sp its (A ++ Live p k v :: B) ->
  exists r, get_rec w p = Ok r /\
    map_rep (set_rec w p (mkRecord (mr_ref_count r) (mr_empty r) (mr_map r) (mr_key r) v')) sp its (A ++ Live p k v' :: B).
Proof.
  intros Hrep. pose proof Hrep as [(s & Hs & Hrest) Hnd Hc Hits _].
  apply Forall_app in Hc as [_ [(Hp0 & Hm & Hk) _]%Forall_cons]. unfold get_rec. rewrite Hm. eexists. split; [reflexivity|].
  apply (map_rep_replace w _ sp its its A (Live p k v) _ B p); [done|done|by left| |done| | | |].
  - intros q Hq. cbn [w_mem set_rec]. by rewrite lookup_insert_ne.
  - exists s. split; [done|]. rewrite !omap_app in *. destruct Hrest as (? & ? & ? & ? & ? & ? & Hb). split_and!; try done; try lia.
    intros h Hh. rewrite (Hb h Hh). f_equal. unfold bucket_list. by rewrite !omap_app.
  - cbn [cell_ok w_mem set_rec mr_ref_count mr_empty mr_map mr_key]. rewrite lookup_insert_eq. done.
  - apply (it_ok_replace (A ++ Live p k v :: B) A (Live p k v) _ B its p); [done|done|by left|done].
  - intros q k1 v1 [= -> -> ->]. eauto.
Qed.


(** ** The methods *)

Definition data_clear (E : map_data) : map_data := map (fun _ => None) E.

(** The other entries have other keys. *)
Lemma other_keys w sp its A p k v B key :
  map_rep w sp its (A ++ Live p k v :: B) -> mk_same k key = true ->
  forall q k' v', Live q k' v' ∈ A ++ B -> mk_same k' key = false.
Proof.
  intros [_ Hnd _ _ Hkeys] Hs q k' v' Hq. destruct (mk_same k' key) eqn:Hs'; [|done]. exfalso.
  destruct (NoDup_omap_split A (Live p k v) B p Hnd eq_refl) as [HA HB].
  assert (Hin : Live q k' v' ∈ A ++ Live p k v :: B) by (rewrite elem_of_app, elem_of_cons in *; tauto).
  assert (q = p) as ->.
  { apply (Hkeys _ _ _ _ _ _ Hin (proj2 (elem_of_app _ _ _) (or_intror (list_elem_of_here _ _)))).
    eapply mk_same_trans; [done|]. by apply mk_same_sym. }
  apply elem_of_app in Hq as [Hq|Hq]; [apply HA|apply HB]; by eapply omap_ptr_elem.
Qed.

(** Changing the entries with a key changes no entry with another one. *)
Lemma map_others (f : option (mkey * mkey) -> option (mkey * mkey)) (A : list cell) key :
  f None = None -> (forall k v, mk_same k key = false -> f (Some (k, v)) = Some (k, v)) ->
  (forall q k v, Live q k v ∈ A -> mk_same k key = false) -> map f (map erase A) = map erase A.
Proof.
  intros Hn Hf HA. rewrite map_map. apply map_ext_in. intros c Hc%list_elem_of_In.
  destruct c as [q k v|q|]; cbn [erase]; [|done|done]. apply Hf. by eapply HA.
Qed.

Definition replace_value (key v : mkey) (e : option (mkey * mkey)) : option (mkey * mkey) :=
  match e with Some (k', v') => if mk_same k' key then Some (k', v) else e | None => None end.

Definition delete_entry (key : mkey) (e : option (mkey * mkey)) : option (mkey * mkey) :=
  match e with Some (k', _) => if mk_same k' key then None else e | None => None end.

(** A change of the entry with a key, which is at one place. *)
Lemma map_one f (A : list cell) p k v B c' key :
  f None = None -> (forall k v, mk_same k key = false -> f (Some (k, v)) = Some (k, v)) ->
  (forall q k' v', Live q k' v' ∈ A ++ B -> mk_same k' key = false) -> f (Some (k, v)) = erase c' ->
  map erase (A ++ c' :: B) = map f (map erase (A ++ Live p k v :: B)).
Proof.
  intros Hn Hf Ho Hc. rewrite !map_app. cbn [map erase]. rewrite Hc.
  rewrite !(map_others f _ key) by (try done; intros q k' v' Hq; apply (Ho q k' v'); apply elem_of_app; auto). done.
Qed.

Lemma data_set_live w sp its A p k v B key v' :
  map_rep w sp its (A ++ Live p k v :: B) -> mk_same k key = true ->
  map erase (A ++ Live p k v' :: B) = data_set (map erase (A ++ Live p k v :: B)) key v'.
Proof.
  intros Hrep Hs. unfold data_set. rewrite (data_lookup_live _ _ _ _ p k v key Hrep); [|apply elem_of_app; right; by left|done].
  apply (map_one (replace_value key v') A p k v B _ key); cbn [replace_value]; [done| |by eapply other_keys|by rewrite Hs].
  intros k' v0 Hk'. by rewrite Hk'.
Qed.

Lemma js_map_set_spec w sp its cells s is_set k v mr slack :
  map_rep w sp its cells -> w_maps w !! sp = Some s -> mk_ok k -> w_mem w !! mr = None ->
  record_count s + 1 < 2 ^ 32 -> slack_ok s slack ->
  exists w' cells' r, js_map_set w sp is_set k v mr slack = Ok (w', r) /\ map_rep w' sp its cells' /\
    ((r = R_this /\ map erase cells' = data_set (map erase cells) (mk_normalize k) (if is_set then mk_undefined else v)) \/
     (r = R_exception /\ mr = 0 /\ w' = w /\ cells' = cells /\ data_lookup (map erase cells) (mk_normalize k) = None)).
Proof.
  intros Hrep Hs Hk Hm Hmax Hslack. unfold js_map_set, get_map. rewrite Hs. cbn [of_opt mbind outcome_bind].
  destruct (rp_map _ _ _ _ Hrep) as (s' & Hs' & Hw & _). rewrite Hs in Hs'. injection Hs' as <-. rewrite Hw. cbn [andb].
  set (v' := if is_set then mk_undefined else v).
  destruct (map_find_record_spec _ _ _ _ k Hrep Hk) as (p & Hp & [(Hp0 & k' & v0 & Hin & Hsame)|(-> & Hnew)]);
    rewrite Hp; cbn [mbind outcome_bind].
  - rewrite (proj2 (Z.eqb_neq p 0) Hp0). cbn [mbind outcome_bind]. rewrite (proj2 (Z.eqb_neq p 0) Hp0).
    apply list_elem_of_split in Hin as (A & B & ->).
    destruct (set_value_spec _ _ _ _ _ _ _ _ v' Hrep) as (r & Hr & Hrep'). rewrite Hr. cbn [mbind outcome_bind].
    do 3 eexists. split; [reflexivity|]. split; [exact Hrep'|]. left. split; [done|]. by eapply data_set_live.
  - cbn [Z.eqb]. destruct (Z.eq_dec mr 0) as [->|Hmr].
    { unfold map_add_record, get_map. rewrite Hs. cbn. do 3 eexists. split; [reflexivity|]. split; [exact Hrep|]. right.
      split_and!; try done. by apply data_lookup_none. }
    destruct (map_add_record_spec _ _ _ _ _ _ _ _ Hrep Hs Hm Hmr Hk Hnew Hmax Hslack) as (w1 & Hw1 & Hrep1).
    rewrite Hw1. cbn [mbind outcome_bind]. rewrite (proj2 (Z.eqb_neq mr 0) Hmr).
    destruct (set_value_spec _ _ _ _ _ _ _ _ v' Hrep1) as (r & Hr & Hrep'). rewrite Hr. cbn [mbind outcome_bind].
    do 3 eexists. split; [reflexivity|]. split; [exact Hrep'|]. left. split; [done|].
    unfold data_set. rewrite data_lookup_none by done. by rewrite map_app.
Qed.

Lemma js_map_get_spec w sp its cells k :
  map_rep w sp its cells -> mk_ok k ->
  js_map_get w sp k = Ok (match data_lookup (map erase cells) (mk_normalize k) with Some v => R_value v | None => R_undefined end) /\
  js_map_has w sp k = Ok (R_bool (bool_decide (is_Some (data_lookup (map erase cells) (mk_normalize k))))).
Proof.
  intros Hrep Hk. unfold js_map_get, js_map_has.
  destruct (map_find_record_spec _ _ _ _ k Hrep Hk) as (p & Hp & [(Hp0 & k' & v0 & Hin & Hsame)|(-> & Hnew)]);
    rewrite Hp; cbn [mbind outcome_bind].
  - rewrite (proj2 (Z.eqb_neq p 0) Hp0), (data_lookup_live _ _ _ _ p k' v0 _ Hrep Hin Hsame).
    pose proof (rp_cells _ _ _ _ Hrep) as Hc. rewrite Forall_forall in Hc. destruct (Hc _ Hin) as (_ & Hm & _).
    unfold get_rec. rewrite Hm. rewrite bool_decide_true by eauto. done.
  - cbn [Z.eqb negb]. rewrite data_lookup_none by done. rewrite bool_decide_false by (by intros [? ?]). done.
Qed.

Lemma js_map_delete_spec w sp its cells k :
  map_rep w sp its cells -> mk_ok k ->
  exists w' cells', js_map_delete w sp k = Ok (w', R_bool (bool_decide (is_Some (data_lookup (map erase cells) (mk_normalize k))))) /\
    map_rep w' sp its cells' /\ map erase cells' = data_delete (map erase cells) (mk_normalize k).
Proof.
  intros Hrep Hk. unfold js_map_delete.
  destruct (map_find_record_spec _ _ _ _ k Hrep Hk) as (p & Hp & [(Hp0 & k' & v0 & Hin & Hsame)|(-> & Hnew)]);
    rewrite Hp; cbn [mbind outcome_bind].
  - rewrite (proj2 (Z.eqb_neq p 0) Hp0), (data_lookup_live _ _ _ _ p k' v0 _ Hrep Hin Hsame), bool_decide_true by eauto.
    apply list_elem_of_split in Hin as (A & B & ->).
    destruct (map_delete_record_live _ _ _ _ _ _ _ _ Hrep) as (w' & Hw' & Hrep'). rewrite Hw'. cbn [mbind outcome_bind].
    do 2 eexists. split; [reflexivity|]. split; [exact Hrep'|].
    apply (map_one (delete_entry (mk_normalize k)) A p k' v0 B _ (mk_normalize k)); cbn [delete_entry]; [done| |by eapply other_keys|].
    + intros k1 v1 Hk1. by rewrite Hk1.
    + rewrite Hsame. unfold deleted. by case_decide.
  - rewrite data_lookup_none by done. rewrite bool_decide_false by (by intros [? ?]). exists w, cells. split_and!; try done.
    symmetry. apply (map_others (delete_entry (mk_normalize k)) cells (mk_normalize k)); [done| |done].
    intros k1 v1 Hk1. cbn [delete_entry]. by rewrite Hk1.
Qed.

(** Places without entries. *)
Lemma clear_loop_spec sp its rest w dead :
  map_rep w sp its (dead ++ rest) -> omap live dead = [] ->
  exists w' dead', clear_loop w sp (omap cell_ptr rest) = Ok w' /\ map_rep w' sp its dead' /\ omap live dead' = [] /\
    length dead' = length (dead ++ rest).
Proof.
  revert w dead. induction rest as [|c rest IH]; intros w dead Hrep Hdead.
  { exists w, dead. rewrite app_nil_r in *. done. }
  destruct c as [p k v|p|]; cbn [omap list_omap cell_ptr clear_loop].
  - destruct (map_delete_record_live _ _ _ _ _ _ _ _ Hrep) as (w1 & Hw1 & Hrep1). rewrite Hw1. cbn [mbind outcome_bind].
    destruct (IH w1 (dead ++ [deleted its p])) as (w2 & dead2 & Hw2 & Hrep2 & Hd2 & Hl2).
    + by rewrite <- app_assoc.
    + rewrite omap_app, Hdead. unfold deleted. by case_decide.
    + exists w2, dead2. split_and!; try done. rewrite Hl2, !length_app. simpl. lia.
  - assert (Hz : map_delete_record w sp p = Ok w) by (eapply map_delete_record_zombie; [done|]; apply elem_of_app; right; by left).
    rewrite Hz. cbn [mbind outcome_bind]. destruct (IH w (dead ++ [Zombie p])) as (w2 & dead2 & Hw2 & Hrep2 & Hd2 & Hl2).
    + by rewrite <- app_assoc.
    + by rewrite omap_app, Hdead.
    + exists w2, dead2. split_and!; try done. rewrite Hl2, !length_app. simpl. lia.
  - destruct (IH w (dead ++ [Gone])) as (w2 & dead2 & Hw2 & Hrep2 & Hd2 & Hl2).
    + by rewrite <- app_assoc.
    + by rewrite omap_app, Hdead.
    + exists w2, dead2. split_and!; try done. rewrite Hl2, !length_app. simpl. lia.
Qed.

Lemma erase_dead (dead : list cell) : omap live dead = [] -> map erase dead = replicate (length dead) None.
Proof. induction dead as [|[p k v|p|] dead IH]; cbn; intros Hd; try done; f_equal; auto. Qed.

Lemma data_clear_replicate (E : map_data) : data_clear E = replicate (length E) None.
Proof. induction E; cbn; f_equal; auto. Qed.

Lemma js_map_clear_spec w sp its cells :
  map_rep w sp its cells ->
  exists w' cells', js_map_clear w sp = Ok (w', R_undefined) /\ map_rep w' sp its cells' /\ map erase cells' = data_clear (map erase cells).
Proof.
  intros Hrep. destruct (rp_map _ _ _ _ Hrep) as (s & Hs & _ & Hrec & _). unfold js_map_clear, get_map. rewrite Hs.
  cbn [of_opt mbind outcome_bind]. rewrite Hrec. destruct (clear_loop_spec sp its cells w [] Hrep eq_refl) as (w' & dead & Hw & Hrep' & Hd & Hl).
  rewrite Hw. cbn [mbind outcome_bind]. exists w', dead. split_and!; try done.
  rewrite erase_dead, data_clear_replicate, length_map by done. by rewrite Hl.
Qed.

Lemma data_size_live (cells : list cell) : data_size (map erase cells) = Z.of_nat (length (omap live cells)).
Proof. unfold data_size. f_equal. induction cells as [|[p k v|p|] cells IH]; cbn; try done. by f_equal. Qed.

Lemma js_map_get_size_spec w sp its cells :
  map_rep w sp its cells -> js_map_get_size w sp = Ok (R_uint32 (data_size (map erase cells))).
Proof.
  intros Hrep. destruct (rp_map _ _ _ _ Hrep) as (s & Hs & _ & _ & Hcnt & _). unfold js_map_get_size, get_map. rewrite Hs.
  cbn [of_opt mbind outcome_bind]. by rewrite Hcnt, data_size_live.
Qed.


(** ** Iterators *)

Lemma locks_cons it its p : locks (it :: its) p = (if decide (it.1 = p) then 1 else 0) + locks its p.
Proof. unfold locks. rewrite filter_cons. case_decide; cbn [length]; lia. Qed.

Lemma locks_nonneg its p : 0 <= locks its p.
Proof. unfold locks. lia. Qed.

(** The record that an iterator leaves. *)
Lemma map_decref_record_spec w sp its cells p i :
  map_rep w sp ((p, S i) :: its) cells ->
  exists w' cells', map_decref_record w p = Ok w' /\ map_rep w' sp its cells' /\
    map erase cells' = map erase cells /\ drop (S i) cells' = drop (S i) cells.
Proof.
  intros Hrep. pose proof Hrep as [(s & Hs & Hw & Hrec & Hcnt & Hmax & Hsz & Htl & Hb) Hnd Hc Hits _].
  apply Forall_cons in Hits as [(Hp0 & c & Hci & Hcp) Hits]. cbn [fst] in *.
  apply list_elem_of_split_length in Hci as (A & B & -> & HA).
  pose proof Hc as Hc'. apply Forall_app in Hc' as [_ [Hck _]%Forall_cons].
  assert (Hlk : forall q, q <> p -> locks its q = locks ((p, S i) :: its) q).
  { intros q Hq. rewrite locks_cons. cbn [fst]. by rewrite decide_False by done. }
  assert (Hlp : locks ((p, S i) :: its) p = 1 + locks its p) by (rewrite locks_cons; by rewrite decide_True).
  pose proof (locks_nonneg its p). unfold map_decref_record, get_rec.
  (* the record is kept *)
  assert (Hkeep : forall n, cell_ok (set_rec w p n) sp its c ->
    map_rep (set_rec w p n) sp its (A ++ c :: B)).
  { intros n Hok. apply (map_rep_replace w _ sp ((p, S i) :: its) its A c c B p); try done.
    - by left.
    - intros q Hq. cbn [w_mem set_rec]. by rewrite lookup_insert_ne.
    - exists s. split_and!; try done; lia.
    - eauto. }
  destruct c as [q k v|q|]; cbn [cell_ptr] in Hcp; simplify_eq; destruct_and? Hck.
  - destruct Hck as (_ & Hm & Hk). rewrite Hm. cbn [of_opt mbind outcome_bind mr_ref_count]. rewrite Hlp.
    destruct (Z.eqb_spec (1 + (1 + locks its p) - 1) 0); [lia|].
    eexists _, (A ++ Live p k v :: B). split; [reflexivity|]. split; [|done]. apply Hkeep.
    cbn [cell_ok w_mem set_rec set_ref_count]. rewrite lookup_insert_eq. split_and!; [done| |done].
    unfold set_ref_count. cbn [mr_empty mr_map mr_key mr_value]. do 2 f_equal. lia.
  - destruct Hck as (_ & Hpos & Hm). rewrite Hm. cbn [of_opt mbind outcome_bind mr_ref_count mr_empty mr_map]. rewrite Hlp.
    destruct (Z.eqb_spec (1 + locks its p - 1) 0) as [Hz|Hz].
    + cbn [assert_ mbind outcome_bind]. unfold get_map. rewrite Hs. cbn [of_opt mbind outcome_bind].
      assert (Hin : p ∈ records s) by (rewrite Hrec; eapply omap_ptr_elem; [apply elem_of_app; right; by left|done]).
      rewrite unlink_in by done. cbn [mbind outcome_bind]. eexists _, (A ++ Gone :: B). split; [reflexivity|].
      split; [|rewrite !map_app; split; [done|]; rewrite !drop_app_ge by lia; by replace (S (length A) - length A)%nat with 1%nat by lia].
      apply (map_rep_replace w _ sp ((p, S (length A)) :: its) its A (Zombie p) Gone B p); try done.
      * by right.
      * intros q Hq. cbn [w_mem set_map free_rec]. by rewrite lookup_delete_ne.
      * eexists. split; [apply lookup_insert_eq|]. cbn [is_weak records record_count hash_size hash_table with_records].
        rewrite Hrec, (filter_omap_split cell_ptr _ _ _ p) by done. rewrite Hcnt in *.
        split_and!; try done; try lia; try (by rewrite !omap_app).
        intros h Hh. rewrite (Hb h Hh). f_equal. unfold bucket_list. by rewrite !omap_app.
      * apply (it_ok_replace (A ++ Zombie p :: B) A (Zombie p) _ B its p); [done|done|right; lia|done].
    + eexists _, (A ++ Zombie p :: B). split; [reflexivity|]. split; [|done]. apply Hkeep.
      cbn [cell_ok w_mem set_rec set_ref_count]. rewrite lookup_insert_eq. split_and!; [done|lia|].
      unfold set_ref_count. cbn [mr_empty mr_map mr_key mr_value]. do 2 f_equal. lia.
Qed.


(** The record that an iterator moves to. *)
Lemma lock_spec w sp its cells j p k v :
  map_rep w sp its cells -> cells !! j = Some (Live p k v) ->
  exists r, get_rec w p = Ok r /\ mr_key r = k /\ mr_value r = v /\
    map_rep (set_rec w p (set_ref_count r (mr_ref_count r + 1))) sp ((p, S j) :: its) cells.
Proof.
  intros Hrep Hj. pose proof Hrep as [(s & Hs & Hw & Hrec & Hcnt & Hmax & Hsz & Htl & Hb) Hnd Hc Hits _].
  pose proof (list_elem_of_split_length _ _ _ Hj) as (A & B & -> & HA).
  apply Forall_app in Hc as [_ [(Hp0 & Hm & Hk) _]%Forall_cons]. unfold get_rec. rewrite Hm. eexists. split_and!; [done..|].
  apply (map_rep_replace w _ sp its ((p, S j) :: its) A (Live p k v) (Live p k v) B p); try done.
  - by left.
  - intros q Hq. cbn [w_mem set_rec]. by rewrite lookup_insert_ne.
  - intros q Hq. rewrite locks_cons. cbn [fst]. by rewrite decide_False.
  - exists s. split_and!; try done; lia.
  - cbn [cell_ok w_mem set_rec]. rewrite lookup_insert_eq, locks_cons. cbn [fst]. rewrite decide_True by done.
    split_and!; [done| |done]. unfold set_ref_count. cbn [mr_empty mr_map mr_key mr_value mr_ref_count]. do 2 f_equal. lia.
  - constructor; [|done]. split; [done|]. cbn [fst]. eauto.
  - eauto.
Qed.

Lemma next_live_spec w sp its (cells : list cell) i :
  Forall (cell_ok w sp its) cells ->
  match data_next (map erase cells) i with
  | None => next_live w (omap cell_ptr (drop i cells)) = Ok 0
  | Some (j, (k, v)) => exists p, p <> 0 /\ cells !! j = Some (Live p k v) /\ next_live w (omap cell_ptr (drop i cells)) = Ok p
  end.
Proof.
  intros Hc. revert i. induction Hc as [|c cells Hc Hcs IH]; intros i; [by rewrite drop_nil|].
  cbn [map data_next]. destruct i as [|i].
  - rewrite drop_0. specialize (IH O). rewrite drop_0 in IH. destruct c as [p k v|p|]; cbn [erase omap list_omap cell_ptr next_live].
    + destruct Hc as (Hp & Hm & _). exists p. unfold get_rec. rewrite Hm. done.
    + destruct Hc as (_ & _ & Hm). unfold get_rec. rewrite Hm. cbn [of_opt mbind outcome_bind mr_empty].
      destruct (data_next (map erase cells) 0) as [[j [k v]]|]; cbn [mbind option_bind]; done.
    + destruct (data_next (map erase cells) 0) as [[j [k v]]|]; cbn [mbind option_bind]; done.
  - cbn [drop]. specialize (IH i). destruct (data_next (map erase cells) i) as [[j [k v]]|]; cbn [mbind option_bind]; done.
Qed.

Lemma after_spec (cells : list cell) i c p :
  NoDup (omap cell_ptr cells) -> cells !! i = Some c -> cell_ptr c = Some p ->
  after (omap cell_ptr cells) p = Ok (omap cell_ptr (drop (S i) cells)).
Proof.
  revert i. induction cells as [|d cells IH]; intros i Hnd Hi Hp; [done|]. cbn [omap list_omap] in *.
  destruct i as [|i]; cbn [lookup list_lookup drop] in *.
  - injection Hi as ->. rewrite Hp. cbn [after]. rewrite Z.eqb_refl. by rewrite drop_0.
  - destruct (cell_ptr d) as [q|] eqn:Hq; [|by apply IH]. apply NoDup_cons in Hnd as [Hq' Hnd]. cbn [after].
    destruct (Z.eqb_spec q p) as [->|]; [|by apply IH]. exfalso. apply Hq'. eapply omap_ptr_elem; [by eapply list_elem_of_lookup_2|done].
Qed.

(** An iterator that has not started locks nothing. *)
Lemma map_rep_unstarted w sp its cells : map_rep w sp ((0, O) :: its) cells -> map_rep w sp its cells.
Proof.
  intros [Hs Hnd Hc Hits Hk]. apply Forall_cons in Hits as [_ Hits]. split; try done.
  eapply Forall_impl; [exact Hc|]. intros [p k v|p|]; cbn [cell_ok]; [..|done]; rewrite locks_cons; cbn [fst].
  - intros (Hp & Hm & Hn). by rewrite decide_False in Hm.
  - intros (Hp & Hl & Hm). by rewrite !decide_False in Hm, Hl.
Qed.

Definition next_result (kind : JSIteratorKindEnum) (is_set : bool) (k v : mkey) : iter_result :=
  let v := if is_set then k else v in
  match kind with
  | JS_ITERATOR_KIND_KEY => IT_key k
  | JS_ITERATOR_KIND_VALUE => IT_key v
  | JS_ITERATOR_KIND_KEY_AND_VALUE => IT_pair k v
  end.

Lemma js_map_iterator_next_spec w sp its cells kind is_set p i :
  map_rep w sp ((p, i) :: its) cells ->
  match data_next (map erase cells) i with
  | None => exists w' cells', js_map_iterator_next w (mkIter (Some sp) kind p) is_set = Ok (w', mkIter None kind 0, IT_done) /\
      map_rep w' sp its cells' /\ map erase cells' = map erase cells
  | Some (j, (k, v)) => exists w' cells' p',
      js_map_iterator_next w (mkIter (Some sp) kind p) is_set = Ok (w', mkIter (Some sp) kind p', next_result kind is_set k v) /\
      map_rep w' sp ((p', S j) :: its) cells' /\ map erase cells' = map erase cells
  end.
Proof.
  intros Hrep. destruct (rp_map _ _ _ _ Hrep) as (s & Hs & _ & Hrec & _).
  pose proof (Forall_inv (rp_its _ _ _ _ Hrep)) as Hit. unfold it_ok in Hit. cbn [fst snd] in Hit.
  (* the list from the place of the iterator on, after the record is unlocked *)
  assert (exists w1 cells1,
    (if p =? 0 then Ok (w, records s) else l ← after (records s) p; w ← map_decref_record w p; Ok (w, l)) =
      Ok (w1, omap cell_ptr (drop i cells1)) /\ map_rep w1 sp its cells1 /\ map erase cells1 = map erase cells)
    as (w1 & cells1 & Heq & Hrep1 & He1).
  { destruct i as [|i].
    - subst p. exists w, cells. cbn [Z.eqb]. rewrite drop_0, Hrec. split_and!; [done|by apply map_rep_unstarted|done].
    - destruct Hit as (Hp0 & c & Hci & Hcp). rewrite (proj2 (Z.eqb_neq p 0) Hp0), Hrec.
      rewrite (after_spec cells i c p (rp_nodup _ _ _ _ Hrep) Hci Hcp). cbn [mbind outcome_bind].
      destruct (map_decref_record_spec _ _ _ _ _ _ Hrep) as (w1 & cells1 & Hw1 & Hrep1 & He1 & Hd1). rewrite Hw1. cbn [mbind outcome_bind].
      exists w1, cells1. by rewrite Hd1. }
  unfold js_map_iterator_next, get_map. cbn [it_obj cur_record it_kind]. rewrite Hs. cbn [of_opt mbind outcome_bind].
  rewrite Heq. cbn [mbind outcome_bind]. pose proof (next_live_spec w1 sp its cells1 i (rp_cells _ _ _ _ Hrep1)) as Hnext. rewrite He1 in Hnext.
  destruct (data_next (map erase cells) i) as [[j [k v]]|].
  - destruct Hnext as (q & Hq & Hj & Hn). rewrite Hn. cbn [mbind outcome_bind]. rewrite (proj2 (Z.eqb_neq q 0) Hq).
    destruct (lock_spec _ _ _ _ _ _ _ _ Hrep1 Hj) as (r & Hr & Hk & Hv & Hrep2). rewrite Hr. cbn [mbind outcome_bind it_kind].
    rewrite Hk, Hv. by exists (set_rec w1 q (set_ref_count r (mr_ref_count r + 1))), cells1, q.
  - rewrite Hnext. cbn [mbind outcome_bind Z.eqb]. by exists w1, cells1.
Qed.


(** ** A map in use *)

Inductive map_op :=
  | Op_set (k v : mkey) (mr : Z) (slack : option Z)
  | Op_get (k : mkey)
  | Op_has (k : mkey)
  | Op_delete (k : mkey)
  | Op_clear
  | Op_size
  | Op_iterator (kind : JSIteratorKindEnum)
  | Op_next (n : nat)
  | Op_free (n : nat).

Inductive op_result := OR_map (r : map_result) | OR_iter (r : iter_result) | OR_none.

(** The map [sp] with all the iterators that were created on it. *)
Record map_sys := mkSys { sy_world : map_world; sy_iters : list JSMapIteratorData }.

Definition exec_map_op (sp : Z) (is_set : bool) (y : map_sys) (op : map_op) : outcome (map_sys * op_result) :=
  let w := sy_world y in
  match op with
  | Op_set k v mr slack => '(w, r) ← js_map_set w sp is_set k v mr slack; Ok (mkSys w (sy_iters y), OR_map r)
  | Op_get k => r ← js_map_get w sp k; Ok (y, OR_map r)
  | Op_has k => r ← js_map_has w sp k; Ok (y, OR_map r)
  | Op_delete k => '(w, r) ← js_map_delete w sp k; Ok (mkSys w (sy_iters y), OR_map r)
  | Op_clear => '(w, r) ← js_map_clear w sp; Ok (mkSys w (sy_iters y), OR_map r)
  | Op_size => r ← js_map_get_size w sp; Ok (y, OR_map r)
  | Op_iterator kind => Ok (mkSys w (sy_iters y ++ [js_create_map_iterator sp kind]), OR_none)
  | Op_next n =>
      it ← of_opt (sy_iters y !! n);
      '(w, it, r) ← js_map_iterator_next w it is_set;
      Ok (mkSys w (<[n := it]> (sy_iters y)), OR_iter r)
  | Op_free n =>
      it ← of_opt (sy_iters y !! n);
      w ← js_map_iterator_finalizer w it;
      Ok (mkSys w (<[n := mkIter None (it_kind it) 0]> (sy_iters y)), OR_none)
  end.

(** The entries, and the index of each iterator ([None] at the end or when it was freed). *)
Record data_sys := mkData { da_entries : map_data; da_iters : list (option nat * JSIteratorKindEnum) }.

Definition exec_data_op (is_set : bool) (d : data_sys) (op : map_op) : data_sys * op_result :=
  let E := da_entries d in
  match op with
  | Op_set k v mr _ =>
      let k := mk_normalize k in
      if (mr =? 0) && bool_decide (data_lookup E k = None) then (d, OR_map R_exception)
      else (mkData (data_set E k (if is_set then mk_undefined else v)) (da_iters d), OR_map R_this)
  | Op_get k => (d, OR_map (match data_lookup E (mk_normalize k) with Some v => R_value v | None => R_undefined end))
  | Op_has k => (d, OR_map (R_bool (bool_decide (is_Some (data_lookup E (mk_normalize k))))))
  | Op_delete k =>
      (mkData (data_delete E (mk_normalize k)) (da_iters d), OR_map (R_bool (bool_decide (is_Some (data_lookup E (mk_normalize k))))))
  | Op_clear => (mkData (data_clear E) (da_iters d), OR_map R_undefined)
  | Op_size => (d, OR_map (R_uint32 (data_size E)))
  | Op_iterator kind => (mkData E (da_iters d ++ [(Some O, kind)]), OR_none)
  | Op_next n =>
      match da_iters d !! n with
      | Some (Some i, kind) =>
          match data_next E i with
          | Some (j, (k, v)) => (mkData E (<[n := (Some (S j), kind)]> (da_iters d)), OR_iter (next_result kind is_set k v))
          | None => (mkData E (<[n := (None, kind)]> (da_iters d)), OR_iter IT_done)
          end
      | _ => (d, OR_iter IT_done)
      end
  | Op_free n =>
      match da_iters d !! n with
      | Some (_, kind) => (mkData E (<[n := (None, kind)]> (da_iters d)), OR_none)
      | None => (d, OR_none)
      end
  end.

(** What the caller of an operation provides. *)
Definition map_op_ok (sp : Z) (y : map_sys) (op : map_op) : Prop :=
  match op with
  | Op_set k _ mr slack =>
      mk_ok k /\ w_mem (sy_world y) !! mr = None /\
      exists s, w_maps (sy_world y) !! sp = Some s /\ record_count s + 1 < 2 ^ 32 /\ slack_ok s slack
  | Op_get k | Op_has k | Op_delete k => mk_ok k
  | Op_next n | Op_free n => (n < length (sy_iters y))%nat
  | _ => True
  end.

(** The iterators that are not at their end. *)
Definition active (its : list (JSMapIteratorData * (option nat * JSIteratorKindEnum))) : iters :=
  omap (fun x => i ← x.2.1; Some (cur_record x.1, i)) its.

Definition iter_rel (sp : Z) (it : JSMapIteratorData) (d : option nat * JSIteratorKindEnum) : Prop :=
  it_kind it = d.2 /\ it_obj it = match d.1 with Some _ => Some sp | None => None end.

Definition map_sim (sp : Z) (y : map_sys) (d : data_sys) : Prop :=
  Forall2 (iter_rel sp) (sy_iters y) (da_iters d) /\
  exists cells, map_rep (sy_world y) sp (active (zip (sy_iters y) (da_iters d))) cells /\ map erase cells = da_entries d.

Lemma locks_perm its its' p : its ≡ₚ its' -> locks its p = locks its' p.
Proof. intros Hp. unfold locks. by rewrite Hp. Qed.

Lemma map_rep_perm w sp its its' cells : its ≡ₚ its' -> map_rep w sp its cells -> map_rep w sp its' cells.
Proof.
  intros Hp [Hs Hnd Hc Hits Hk]. split; try done; [|by rewrite <- Hp].
  eapply Forall_impl; [exact Hc|]. intros [p k v|p|]; cbn [cell_ok]; [..|done]; by rewrite (locks_perm _ _ _ Hp).
Qed.

Lemma active_app l1 l2 : active (l1 ++ l2) = active l1 ++ active l2.
Proof. unfold active. by rewrite omap_app. Qed.

(** The active iterators other than one. *)
Definition others (its : list JSMapIteratorData) (ds : list (option nat * JSIteratorKindEnum)) (n : nat) : iters :=
  active (zip (take n its) (take n ds)) ++ active (zip (drop (S n) its) (drop (S n) ds)).

Lemma active_split its ds n it d :
  its !! n = Some it -> ds !! n = Some d -> active (zip its ds) ≡ₚ active [(it, d)] ++ others its ds n.
Proof.
  intros Hi Hd. rewrite <- (take_drop_middle its n it Hi), <- (take_drop_middle ds n d Hd) at 1.
  pose proof (lookup_lt_Some _ _ _ Hi). pose proof (lookup_lt_Some _ _ _ Hd).
  rewrite zip_with_app by (rewrite !length_take; lia). cbn [zip_with].
  rewrite (cons_middle (it, d)), !active_app. unfold others. by rewrite !app_assoc, (Permutation_app_comm _ (active [(it, d)])).
Qed.

Lemma others_insert its ds n it d : others (<[n := it]> its) (<[n := d]> ds) n = others its ds n.
Proof. unfold others. by rewrite !take_insert_ge, !drop_insert_lt by lia. Qed.

(** Starting an iterator. *)
Lemma map_rep_start w sp its cells : map_rep w sp its cells -> map_rep w sp ((0, O) :: its) cells.
Proof.
  intros [Hs Hnd Hc Hits Hk]. split; try done; [|by constructor].
  eapply Forall_impl; [exact Hc|]. intros [p k v|p|]; cbn [cell_ok]; [..|done]; rewrite locks_cons; cbn [fst].
  - intros (Hp & Hm & Hn). by rewrite decide_False.
  - intros (Hp & Hl & Hm). by rewrite !decide_False.
Qed.

(** A new entry without memory. *)
Lemma js_map_set_exception w sp its cells is_set k v slack :
  map_rep w sp its cells -> mk_ok k -> data_lookup (map erase cells) (mk_normalize k) = None ->
  exists w', js_map_set w sp is_set k v 0 slack = Ok (w', R_exception).
Proof.
  intros Hrep Hk Hn. destruct (rp_map _ _ _ _ Hrep) as (s & Hs & Hw & _). unfold js_map_set, get_map. rewrite Hs.
  cbn [of_opt mbind outcome_bind]. rewrite Hw. cbn [andb].
  destruct (map_find_record_spec _ _ _ _ k Hrep Hk) as (p & Hp & [(Hp0 & k' & v0 & Hin & Hsame)|(-> & _)]).
  - rewrite (data_lookup_live _ _ _ _ p k' v0 _ Hrep Hin Hsame) in Hn. done.
  - rewrite Hp. unfold map_add_record, get_map. cbn [mbind outcome_bind Z.eqb]. rewrite Hs. cbn. by exists w.
Qed.

(** An iterator of the system changes. *)
Lemma sim_insert sp w' its ds n it d it' d' cells cells' :
  Forall2 (iter_rel sp) its ds -> its !! n = Some it -> ds !! n = Some d ->
  map_rep w' sp (active [(it', d')] ++ others its ds n) cells' -> iter_rel sp it' d' -> map erase cells' = map erase cells ->
  map_sim sp (mkSys w' (<[n := it']> its)) (mkData (map erase cells) (<[n := d']> ds)).
Proof.
  intros Hits Hit Hd Hrep Hrel He. pose proof (lookup_lt_Some _ _ _ Hit). pose proof (lookup_lt_Some _ _ _ Hd).
  split; cbn [sy_iters da_iters sy_world da_entries]; [by apply Forall2_insert|].
  exists cells'. split; [|done]. eapply map_rep_perm; [|exact Hrep]. rewrite <- (others_insert its ds n it' d').
  symmetry. apply active_split; by apply list_lookup_insert_eq.
Qed.

(** Freeing an iterator unlocks its record. *)
Lemma finalizer_spec sp w kind o p its cells :
  map_rep w sp (active [(mkIter (match o with Some _ => Some sp | None => None end) kind p, (o, kind))] ++ its) cells ->
  exists w' cells', js_map_iterator_finalizer w (mkIter (match o with Some _ => Some sp | None => None end) kind p) = Ok w' /\
    map_rep w' sp its cells' /\ map erase cells' = map erase cells.
Proof.
  unfold js_map_iterator_finalizer. destruct o as [i|]; cbn [it_obj cur_record]; [|intros Hrep; by exists w, cells].
  cbn. intros Hrep. pose proof (Forall_inv (rp_its _ _ _ _ Hrep)) as Hit. unfold it_ok in Hit. cbn [fst snd] in Hit.
  destruct i as [|i].
  - subst p. cbn. exists w, cells. split_and!; [done|by apply map_rep_unstarted|done].
  - destruct Hit as (Hp0 & _). rewrite (proj2 (Z.eqb_neq p 0) Hp0). cbn.
    destruct (map_decref_record_spec _ _ _ _ _ _ Hrep) as (w1 & cells1 & Hw1 & Hrep1 & He1 & _). by exists w1, cells1.
Qed.

Lemma map_op_simulates sp is_set y d op :
  map_sim sp y d -> map_op_ok sp y op ->
  exists y', exec_map_op sp is_set y op = Ok (y', (exec_data_op is_set d op).2) /\ map_sim sp y' (exec_data_op is_set d op).1.
Proof.
  destruct y as [w its], d as [E ds]. intros (Hits & cells & Hrep & He) Hok. cbn [sy_world sy_iters da_entries da_iters] in *. subst E.
  pose proof (Forall2_length _ _ _ Hits) as Hlen.
  (* an operation that changes the entries only *)
  assert (Hsame : forall w' cells', map_rep w' sp (active (zip its ds)) cells' -> map_sim sp (mkSys w' its) (mkData (map erase cells') ds)).
  { intros w' cells' Hrep'. split; [done|]. by exists cells'. }
  destruct op as [k v mr slack|k|k|k| | |kind|n|n]; cbn [exec_map_op exec_data_op map_op_ok sy_world sy_iters da_entries da_iters] in *.
  - destruct Hok as (Hk & Hm & s & Hs & Hmax & Hslack).
    destruct (js_map_set_spec _ _ _ _ _ is_set k v mr slack Hrep Hs Hk Hm Hmax Hslack)
      as (w' & cells' & r & Hr & Hrep' & [[-> He']|(-> & -> & -> & -> & Hn)]); rewrite Hr; cbn [mbind outcome_bind].
    + assert (Hb : (mr =? 0) && bool_decide (data_lookup (map erase cells) (mk_normalize k) = None) = false).
      { apply andb_false_iff. destruct (Z.eqb_spec mr 0) as [->|]; [right|by left]. apply bool_decide_false. intros Hn.
        destruct (js_map_set_exception _ _ _ _ is_set k v slack Hrep Hk Hn) as [w0 Hw0]. rewrite Hw0 in Hr. done. }
      rewrite Hb. eexists. split; [reflexivity|]. cbn [fst]. rewrite <- He'. by apply Hsame.
    + rewrite bool_decide_true by done. cbn [Z.eqb andb]. eexists. split; [reflexivity|]. by apply Hsame.
  - rewrite (proj1 (js_map_get_spec _ _ _ _ _ Hrep Hok)). cbn [mbind outcome_bind]. eexists. split; [reflexivity|]. by apply Hsame.
  - rewrite (proj2 (js_map_get_spec _ _ _ _ _ Hrep Hok)). cbn [mbind outcome_bind]. eexists. split; [reflexivity|]. by apply Hsame.
  - destruct (js_map_delete_spec _ _ _ _ _ Hrep Hok) as (w' & cells' & Hr & Hrep' & He'). rewrite Hr. cbn [mbind outcome_bind].
    eexists. split; [reflexivity|]. cbn [fst]. rewrite <- He'. by apply Hsame.
  - destruct (js_map_clear_spec _ _ _ _ Hrep) as (w' & cells' & Hr & Hrep' & He'). rewrite Hr. cbn [mbind outcome_bind].
    eexists. split; [reflexivity|]. cbn [fst]. rewrite <- He'. by apply Hsame.
  - rewrite (js_map_get_size_spec _ _ _ _ Hrep). cbn [mbind outcome_bind]. eexists. split; [reflexivity|]. by apply Hsame.
  - eexists. split; [reflexivity|]. split; cbn [sy_iters da_iters].
    + apply Forall2_app; [done|]. by repeat constructor.
    + exists cells. split; [|done]. cbn [fst sy_world sy_iters da_iters]. rewrite zip_with_app, active_app by done.
      apply (map_rep_perm _ _ ((0, O) :: active (zip its ds))); [by rewrite Permutation_app_comm|].
      by apply map_rep_start.
  - apply lookup_lt_is_Some in Hok as [it Hit]. rewrite Hit. cbn [of_opt mbind outcome_bind].
    destruct (Forall2_lookup_l _ _ _ _ _ Hits Hit) as ([[i|] kind] & Hd & Hk & Ho); cbn [fst snd] in *; rewrite Hd.
    + destruct it as [o kd p]. cbn [it_kind it_obj] in *. subst kd o.
      assert (Hrep0 : map_rep w sp ((p, i) :: others its ds n) cells) by (exact (map_rep_perm _ _ _ _ _ (active_split _ _ _ _ _ Hit Hd) Hrep)).
      pose proof (js_map_iterator_next_spec _ _ _ _ kind is_set _ _ Hrep0) as Hnext.
      destruct (data_next (map erase cells) i) as [[j [k v]]|].
      * destruct Hnext as (w' & cells' & p' & Hr & Hrep' & He'). rewrite Hr. cbn [mbind outcome_bind]. eexists. split; [reflexivity|].
        by eapply (sim_insert sp w' its ds n).
      * destruct Hnext as (w' & cells' & Hr & Hrep' & He'). rewrite Hr. cbn [mbind outcome_bind]. eexists. split; [reflexivity|].
        by eapply (sim_insert sp w' its ds n).
    + unfold js_map_iterator_next. rewrite Ho. cbn [mbind outcome_bind]. eexists. split; [reflexivity|]. cbn [fst].
      rewrite (list_insert_id its n it) by done. by apply Hsame.
  - apply lookup_lt_is_Some in Hok as [it Hit]. rewrite Hit. cbn [of_opt mbind outcome_bind].
    destruct (Forall2_lookup_l _ _ _ _ _ Hits Hit) as ([o kind] & Hd & Hk & Ho); cbn [fst snd] in *; rewrite Hd.
    destruct it as [o' kd p]. cbn [it_kind it_obj] in *. subst kd o'.
    pose proof (map_rep_perm _ _ _ _ _ (active_split _ _ _ _ _ Hit Hd) Hrep) as Hrep0.
    destruct (finalizer_spec sp w kind o p (others its ds n) cells Hrep0) as (w' & cells' & Hw & Hrep' & He'). rewrite Hw. cbn [mbind outcome_bind].
    eexists. split; [reflexivity|]. by eapply (sim_insert sp w' its ds n).
Qed.


(** ** Runs *)

(** [new Map()] or [new Set()]. *)
Definition new_map (sp : Z) : map_sys := mkSys (mkWorld ∅ {[sp := map_init false]} ∅) [].

Fixpoint run_map (sp : Z) (is_set : bool) (y : map_sys) (ops : list map_op) : outcome (map_sys * list op_result) :=
  match ops with
  | [] => Ok (y, [])
  | op :: ops => '(y, r) ← exec_map_op sp is_set y op; '(y, rs) ← run_map sp is_set y ops; Ok (y, r :: rs)
  end.

Fixpoint run_data (is_set : bool) (d : data_sys) (ops : list map_op) : data_sys * list op_result :=
  match ops with
  | [] => (d, [])
  | op :: ops => let '(d, r) := exec_data_op is_set d op in let '(d, rs) := run_data is_set d ops in (d, r :: rs)
  end.

(** Each operation gets what it needs in the state it runs in. *)
Fixpoint map_ops_ok (sp : Z) (is_set : bool) (y : map_sys) (ops : list map_op) : Prop :=
  match ops with
  | [] => True
  | op :: ops =>
      map_op_ok sp y op /\ match exec_map_op sp is_set y op with Ok (y', _) => map_ops_ok sp is_set y' ops | _ => True end
  end.

(** The same, decided, given a decision for keys. *)
Definition map_op_okb (okb : mkey -> bool) (sp : Z) (y : map_sys) (op : map_op) : bool :=
  match op with
  | Op_set k _ mr slack =>
      okb k && (match w_mem (sy_world y) !! mr with None => true | Some _ => false end) &&
      match w_maps (sy_world y) !! sp with
      | Some s =>
          (record_count s + 1 <? 2 ^ 32) &&
          match slack with
          | None => true
          | Some n => (0 <=? n) && ((if hash_size s =? 1 then 4 else hash_size s * 2) + n <? 2 ^ 32)
          end
      | None => false
      end
  | Op_get k | Op_has k | Op_delete k => okb k
  | Op_next n | Op_free n => (n <? length (sy_iters y))%nat
  | _ => true
  end.

Fixpoint map_ops_okb (okb : mkey -> bool) (sp : Z) (is_set : bool) (y : map_sys) (ops : list map_op) : bool :=
  match ops with
  | [] => true
  | op :: ops =>
      map_op_okb okb sp y op &&
      match exec_map_op sp is_set y op with Ok (y', _) => map_ops_okb okb sp is_set y' ops | _ => true end
  end.

Lemma map_ops_okb_sound okb sp is_set y ops :
  (forall k, okb k = true -> mk_ok k) -> map_ops_okb okb sp is_set y ops = true -> map_ops_ok sp is_set y ops.
Proof.
  intros Hk. revert y. induction ops as [|op ops IH]; intros y Hb; [done|]. cbn [map_ops_okb map_ops_ok] in *.
  apply andb_true_iff in Hb as [Hop Hops]. split.
  - destruct op; cbn [map_op_okb map_op_ok] in *; auto; try by apply Nat.ltb_lt.
    apply andb_true_iff in Hop as [[H1 H2]%andb_true_iff H3]. split; [auto|]. split; [by destruct (w_mem _ !! mr)|].
    destruct (w_maps _ !! sp) as [s|]; [|done]. exists s. apply andb_true_iff in H3 as [H3 H4]. bool_props.
    split_and!; [done|done|]. destruct slack; cbn [slack_ok]; [by bool_props|done].
  - destruct (exec_map_op sp is_set y op) as [[y' r]| |]; auto.
Qed.

Lemma map_run_simulates sp is_set ops y d :
  map_sim sp y d -> map_ops_ok sp is_set y ops ->
  exists y', run_map sp is_set y ops = Ok (y', (run_data is_set d ops).2) /\ map_sim sp y' (run_data is_set d ops).1.
Proof.
  revert y d. induction ops as [|op ops IH]; intros y d Hsim Hok; [by exists y|]. destruct Hok as [Hop Hops].
  destruct (map_op_simulates sp is_set y d op Hsim Hop) as (y1 & Hy1 & Hsim1). cbn [run_map run_data]. rewrite Hy1 in Hops |- *. cbn [mbind outcome_bind].
  destruct (exec_data_op is_set d op) as [d1 r1]. cbn [fst snd] in *.
  destruct (IH y1 d1 Hsim1 Hops) as (y2 & Hy2 & Hsim2). rewrite Hy2. cbn [mbind outcome_bind].
  destruct (run_data is_set d1 ops) as [d2 rs]. by exists y2.
Qed.

Lemma new_map_sim sp : map_sim sp (new_map sp) (mkData [] []).
Proof.
  split; [constructor|]. exists []. split; [|done]. split; try done.
  - exists (map_init false). split; [apply lookup_singleton_eq|]. split_and!; try done; cbn; try lia.
    intros h Hh. by replace h with 0 by lia.
  - apply NoDup_nil_2.
  - intros p k v p' k' v' []%not_elem_of_nil.
Qed.
End Spec.

(** ** Properties *)

(** C5: [Map] and [Set] are the ordered maps of the language definition.  For every
    sequence of [set], [get], [has], [delete], [clear], [size] and of creating, advancing
    and freeing any number of iterators, on a new map, the implementation (hash table that
    grows, list of records, records locked by iterators and kept as empty ones while an
    iterator stands on them) never fails an assertion or touches a freed record, and
    returns what the list of entries of the definition returns, where deleted entries
    leave an empty place and an iterator is an index: so an iterator visits entries in the
    order of insertion, sees those added and not those deleted while it runs.  Setting a
    new key without memory throws and changes nothing. *)
Theorem map_refines_data `{K : !MapKeys} sp is_set ops :
  map_ops_ok sp is_set (new_map sp) ops ->
  exists y', run_map sp is_set (new_map sp) ops = Ok (y', (run_data is_set (mkData [] []) ops).2).
Proof.
  intros Hok. destruct (map_run_simulates sp is_set ops _ _ (new_map_sim sp) Hok) as (y' & Hy' & _). by exists y'.
Qed.

(** An entry is deleted under an iterator, with another number for the same key. *)
Definition map_example : list (@map_op js_map_keys) :=
  [ @Op_set js_map_keys (V_INT 1) V_NULL 16 None;
    @Op_set js_map_keys (V_FLOAT64 0x8000000000000000) (V_BOOL 1) 32 None;
    @Op_iterator js_map_keys JS_ITERATOR_KIND_KEY;
    @Op_next js_map_keys 0;
    @Op_delete js_map_keys (V_FLOAT64 0x3ff0000000000000);
    @Op_next js_map_keys 0;
    @Op_size js_map_keys ].

Lemma map_refines_data_witness :
  exists y', run_map 8 false (new_map 8) map_example =
    Ok (y', [OR_map R_this; OR_map R_this; OR_none; OR_iter (@IT_key js_map_keys (V_INT 1)); OR_map (R_bool true);
             OR_iter (@IT_key js_map_keys (V_INT 0)); OR_map (R_uint32 1)]).
Proof.
  apply (map_refines_data (K := js_map_keys) 8 false map_example).
  apply (map_ops_okb_sound (fun k => match k with V_INT i => (- 2 ^ 31 <=? i) && (i <? 2 ^ 31) | _ => true end)).
  - intros [i| | |p|p|p|i|d|n] Hk; cbn in *; try exact I. by bool_props.
  - vm_compute. reflexivity.
Defined.

(** ** What the counters say *)

(** A weak map with one entry, whose key is then freed: the list and the table are empty
    again, and [record_count] still counts the entry. *)
Example reset_weak_ref_keeps_count :
  ('(w, _) ← js_map_set (mkWorld ∅ {[8 := map_init true]} ∅) 8 false (V_OBJECT 64) V_NULL 16 None;
   w ← reset_weak_ref w 64;
   s ← get_map w 8;
   Ok (records s, hash_table s, record_count s)) = Ok ([], [[]], 1).
Proof. vm_compute. reflexivity. Qed.

(** The slack that [js_realloc2] reports makes the size of the table one that is not a
    power of two, and then some buckets are never used. *)
Example resize_not_power_of_two :
  (w ← map_hash_resize (mkWorld (K := js_map_keys) ∅ {[8 := map_init false]} ∅) 8 (Some 1);
   s ← get_map w 8; Ok (hash_size s)) = Ok 5 /\
  forall k : @mkey js_map_keys, bucket k 5 = 0 \/ bucket k 5 = 4.
Proof.
  split; [vm_compute; reflexivity|]. intros k. unfold bucket. change (u32 (5 - 1)) with (2 ^ 2).
  destruct (Z.testbit (mk_hash k) 2) eqn:Hb.
  - right. apply Z.bits_inj'. intros n Hn. rewrite Z.land_spec, (Z.pow2_bits_eqb 2 n) by lia.
    change 4 with (2 ^ 2). rewrite (Z.pow2_bits_eqb 2 n) by lia. destruct (Z.eqb_spec 2 n) as [<-|]; [by rewrite Hb|by rewrite andb_false_r].
  - left. apply Z.bits_inj'. intros n Hn. rewrite Z.land_spec, (Z.pow2_bits_eqb 2 n), Z.bits_0 by lia.
    destruct (Z.eqb_spec 2 n) as [<-|]; [by rewrite Hb|by rewrite andb_false_r].
Qed.
