(* ===== verification/BfLimbs.v ===== *)
(** Arithmetic on arrays of limbs in [libbf.c]: the functions [mp_*] for numbers of any
    length in base [2^64], least significant limb first.

    A limb is an integer of 64 bits ([limb_t], with [dlimb_t] of 128 bits for products).
    A loop over [n] limbs recurses on lists of [n] limbs; where the C code works in place
    ([mp_add(taba, taba, tabb, n, 0)]) each limb is read before it is written, and the
    caller stores the result back with [in_place].  [None] is an access outside an array. *)

From S2P Require Import Prelude CutilsH DynBuf.

Definition LIMB_LOG2_BITS : Z := 6.
Definition LIMB_BITS : Z := 1 ≪ LIMB_LOG2_BITS.
Definition u128 (x : Z) : Z := wrapu 128 x.

(** The base of the number system. *)
Definition LIMB_BASE : Z := 2 ^ 64.

Definition DIVNORM_LARGE_THRESHOLD : Z := 50.
Definition UDIV1NORM_THRESHOLD : Z := 3.
Definition FFT_MUL_THRESHOLD : Z := 100.

Definition bf_max (a b : Z) : Z := if b <? a then a else b.
Definition bf_min (a b : Z) : Z := if a <? b then a else b.

(** Run a function on the [n] limbs from index [p] on and store its result there. *)
Definition in_place {R} (tab : list Z) (p n : Z) (f : list Z -> option (list Z * R)) : option (list Z * R) :=
  s ← zslice tab p n;
  '(s', r) ← f s;
  tab ← zsplice tab p s';
  Some (tab, r).

(** ** Addition and subtraction *)

Fixpoint mp_add (op1 op2 : list Z) (carry : Z) : option (list Z * Z) :=
  match op1, op2 with
  | [], [] => Some ([], carry)
  | v :: op1, w :: op2 =>
      let a := u64 (v + w) in
      let k1 := b2z (a <? v) in
      let a := u64 (a + carry) in
      let k := b2z (a <? carry) .| k1 in
      '(res, k) ← mp_add op1 op2 k;
      Some (a :: res, k)
  | _, _ => None
  end.

Fixpoint mp_add_ui (tab : list Z) (b : Z) : list Z * Z :=
  match tab with
  | [] => ([], b)
  | v :: tab' =>
      if b =? 0 then (tab, b)
      else
        let a := u64 (v + b) in
        let '(res, k) := mp_add_ui tab' (b2z (a <? b)) in
        (a :: res, k)
  end.

Fixpoint mp_sub (op1 op2 : list Z) (carry : Z) : option (list Z * Z) :=
  match op1, op2 with
  | [], [] => Some ([], carry)
  | v :: op1, w :: op2 =>
      let a := u64 (v - w) in
      let k1 := b2z (v <? a) in
      let v := u64 (a - carry) in
      let k := b2z (a <? v) .| k1 in
      '(res, k) ← mp_sub op1 op2 k;
      Some (v :: res, k)
  | _, _ => None
  end.

Fixpoint mp_neg (op2 : list Z) (carry : Z) : list Z * Z :=
  match op2 with
  | [] => ([], carry)
  | w :: op2 =>
      let v := 0 in
      let a := u64 (v - w) in
      let k1 := b2z (v <? a) in
      let v := u64 (a - carry) in
      let k := b2z (a <? v) .| k1 in
      let '(res, k) := mp_neg op2 k in
      (v :: res, k)
  end.

Fixpoint mp_sub_ui (tab : list Z) (b : Z) : list Z * Z :=
  match tab with
  | [] => ([], b)
  | v :: tab =>
      let a := u64 (v - b) in
      let k := b2z (v <? a) in
      if k =? 0 then (a :: tab, k)
      else let '(res, k) := mp_sub_ui tab k in (a :: res, k)
  end.

(** The loop of [mp_shr] runs from the most significant limb down. *)
Fixpoint mp_shr_loop (tab : list Z) (shift l : Z) : list Z * Z :=
  match tab with
  | [] => ([], l)
  | a :: tab =>
      let '(r, l) := mp_shr_loop tab shift l in
      ((a ≫ shift) .| u64 (l ≪ (LIMB_BITS - shift)) :: r, a)
  end.

Definition mp_shr (tab : list Z) (shift high : Z) : option (list Z * Z) :=
  if (1 <=? shift) && (shift <? LIMB_BITS) then
    let '(r, l) := mp_shr_loop tab shift high in
    Some (r, l .& (u64 (1 ≪ shift) - 1))
  else None.

(** ** Multiplication *)

Fixpoint mp_mul1 (taba : list Z) (b l : Z) : list Z * Z :=
  match taba with
  | [] => ([], l)
  | a :: taba =>
      let t := u128 (a * b + l) in
      let '(r, l) := mp_mul1 taba b (t ≫ LIMB_BITS) in
      (u64 t :: r, l)
  end.

Fixpoint mp_add_mul1_loop (tabr taba : list Z) (b l : Z) : option (list Z * Z) :=
  match tabr, taba with
  | [], [] => Some ([], l)
  | r :: tabr, a :: taba =>
      let t := u128 (a * b + l + r) in
      '(res, l) ← mp_add_mul1_loop tabr taba b (t ≫ LIMB_BITS);
      Some (u64 t :: res, l)
  | _, _ => None
  end.

Definition mp_add_mul1 (tabr taba : list Z) (b : Z) : option (list Z * Z) := mp_add_mul1_loop tabr taba b 0.

Fixpoint mp_mul_rows (result op1 op2 : list Z) (i : Z) : option (list Z) :=
  match op2 with
  | [] => Some result
  | b :: op2 =>
      '(result, r) ← in_place result i (zlen op1) (fun t => mp_add_mul1 t op1 b);
      result ← zset result (i + zlen op1) r;
      mp_mul_rows result op1 op2 (i + 1)
  end.

Definition mp_mul_basecase (result op1 op2 : list Z) : option (list Z) :=
  match op2 with
  | [] => None
  | b :: op2 =>
      '(result, r) ← in_place result 0 (zlen op1) (fun _ => Some (mp_mul1 op1 b 0));
      result ← zset result (zlen op1) r;
      mp_mul_rows result op1 op2 1
  end.

Fixpoint mp_sub_mul1_loop (tabr taba : list Z) (b l : Z) : option (list Z * Z) :=
  match tabr, taba with
  | [], [] => Some ([], l)
  | r :: tabr, a :: taba =>
      let t := u128 (r - a * b - l) in
      '(res, l) ← mp_sub_mul1_loop tabr taba b (u64 (- (t ≫ LIMB_BITS)));
      Some (u64 t :: res, l)
  | _, _ => None
  end.

Definition mp_sub_mul1 (tabr taba : list Z) (b : Z) : option (list Z * Z) := mp_sub_mul1_loop tabr taba b 0.

(** ** Division by one limb *)

Definition udiv1norm_init (d : Z) : Z :=
  let a1 := u64 (- d - 1) in
  let a0 := u64 (-1) in
  u64 (((a1 ≪ LIMB_BITS) .| a0) / d).

(** The quotient and the remainder. *)
Definition udiv1norm (a1 a0 d d_inv : Z) : Z * Z :=
  let n1m := u64 (i64 a0 ≫ (LIMB_BITS - 1)) in
  let n_adj := u64 (a0 + (n1m .& d)) in
  let a := u128 (d_inv * u64 (a1 - n1m) + n_adj) in
  let q := u64 ((a ≫ LIMB_BITS) + a1) in
  let a := (a1 ≪ LIMB_BITS) .| a0 in
  let a := u128 (u128 (a - q * d) - d) in
  let ah := u64 (a ≫ LIMB_BITS) in
  let q := u64 (q + 1 + ah) in
  let r := u64 (u64 a + (ah .& d)) in
  (q, r).

(** The two loops of [mp_div1norm], from the most significant limb down. *)
Fixpoint div1norm_inv (taba : list Z) (b b_inv r : Z) : list Z * Z :=
  match taba with
  | [] => ([], r)
  | a :: taba =>
      let '(q, r) := div1norm_inv taba b b_inv r in
      let '(q0, r) := udiv1norm r a b b_inv in
      (q0 :: q, r)
  end.

Fixpoint div1norm_plain (taba : list Z) (b r : Z) : list Z * Z :=
  match taba with
  | [] => ([], r)
  | a :: taba =>
      let '(q, r) := div1norm_plain taba b r in
      let a1 := (r ≪ LIMB_BITS) .| a in
      (u64 (a1 / b) :: q, a1 mod b)
  end.

Definition mp_div1norm (taba : list Z) (b r : Z) : list Z * Z :=
  if UDIV1NORM_THRESHOLD <=? zlen taba then div1norm_inv taba b (udiv1norm_init b) r
  else div1norm_plain taba b r.

(** ** Comparison *)

Fixpoint mp_scan_nz (tab : list Z) : Z :=
  match tab with
  | [] => 0
  | v :: tab => if v =? 0 then mp_scan_nz tab else 1
  end.

Fixpoint mp_cmp (taba tabb : list Z) : option Z :=
  match taba, tabb with
  | [], [] => Some 0
  | a :: taba, b :: tabb =>
      c ← mp_cmp taba tabb;
      if c =? 0 then Some (if a =? b then 0 else if a <? b then -1 else 1) else Some c
  | _, _ => None
  end.

(** ** The number an array stands for *)

Definition mpz (l : list Z) : Z := foldr (fun d v => d + LIMB_BASE * v) 0 l.

Definition is_limb (x : Z) : Prop := 0 <= x < LIMB_BASE.
Abbreviation limbs l := (Forall is_limb l).

(** [B^n]. *)
Definition bpow {A} (l : list A) : Z := LIMB_BASE ^ zlen l.

Lemma limb_base_val : LIMB_BASE = 18446744073709551616.
Proof. reflexivity. Qed.

Lemma limb_bits_val : LIMB_BITS = 64.
Proof. reflexivity. Qed.

Lemma mpz_cons d l : mpz (d :: l) = d + LIMB_BASE * mpz l.
Proof. reflexivity. Qed.

Lemma bpow_nil {A} : bpow (@nil A) = 1.
Proof. reflexivity. Qed.

Lemma bpow_cons {A} (x : A) l : bpow (x :: l) = LIMB_BASE * bpow l.
Proof. unfold bpow. rewrite zlen_cons, Z.pow_add_r by (cbv; congruence || apply zlen_nonneg). lia. Qed.

Lemma bpow_pos {A} (l : list A) : 0 < bpow l.
Proof. apply Z.pow_pos_nonneg; [done|apply zlen_nonneg]. Qed.

Lemma bpow_app {A} (l1 l2 : list A) : bpow (l1 ++ l2) = bpow l1 * bpow l2.
Proof. induction l1 as [|x l1 IH]; cbn [app]; [rewrite bpow_nil; lia|]. rewrite !bpow_cons, IH. lia. Qed.

Lemma bpow_length {A C} (l1 : list A) (l2 : list C) : length l1 = length l2 -> bpow l1 = bpow l2.
Proof. unfold bpow, zlen. by intros ->. Qed.

Lemma mpz_app l1 l2 : mpz (l1 ++ l2) = mpz l1 + bpow l1 * mpz l2.
Proof.
  induction l1 as [|x l1 IH]; cbn [app]; [rewrite bpow_nil; cbn; lia|]. rewrite !mpz_cons, IH, bpow_cons. lia.
Qed.

Lemma mpz_range l : limbs l -> 0 <= mpz l < bpow l.
Proof.
  induction 1 as [|x l Hx Hl IH]; [rewrite bpow_nil; cbn; lia|].
  rewrite mpz_cons, bpow_cons. unfold is_limb in Hx. rewrite limb_base_val in *. lia.
Qed.

Lemma limb_u64 x : is_limb (u64 x).
Proof. apply wrapu_range. lia. Qed.

Lemma u64_split x : u64 x = x - LIMB_BASE * (x / LIMB_BASE).
Proof. unfold u64, wrapu. fold LIMB_BASE. rewrite limb_base_val. zdm. Qed.

Lemma u64_limb x : is_limb x -> u64 x = x.
Proof. apply wrapu_small. Qed.

Lemma mpz_inj l1 l2 : limbs l1 -> limbs l2 -> length l1 = length l2 -> mpz l1 = mpz l2 -> l1 = l2.
Proof.
  intros H1. revert l2. induction H1 as [|x l1 Hx _ IH]; intros [|y l2] H2 Hl He; try done.
  apply Forall_cons in H2 as [Hy H2]. rewrite !mpz_cons in He. unfold is_limb in *. rewrite limb_base_val in *.
  assert (x = y) as <- by lia. f_equal. apply IH; [done|simpl in Hl; lia|lia].
Qed.

#[export] Hint Resolve limb_u64 bpow_pos : cmach.

(** Arithmetic on lengths, without the hypotheses on values. *)
Ltac len_lia :=
  repeat match goal with
  | H : context [mpz _] |- _ => clear H
  | H : context [LIMB_BASE] |- _ => clear H
  | H : context [@bpow] |- _ => clear H
  | H : context [?a * ?b] |- _ => is_var a; is_var b; clear H
  end; unfold zlen in *; lia.

(** The value of a comparison of two limbs as a carry. *)
Lemma b2z_or a b : b2z a .| b2z b = b2z (a || b).
Proof. by destruct a, b. Qed.

Lemma b2z_range b : 0 <= b2z b <= 1.
Proof. destruct b; cbn; lia. Qed.

(** One digit of an addition and of a subtraction. *)
Lemma add_digit v w k :
  is_limb v -> is_limb w -> 0 <= k <= 1 ->
  u64 (u64 (v + w) + k) + LIMB_BASE * (b2z (u64 (u64 (v + w) + k) <? k) .| b2z (u64 (v + w) <? v)) = v + w + k /\
  0 <= b2z (u64 (u64 (v + w) + k) <? k) .| b2z (u64 (v + w) <? v) <= 1.
Proof.
  unfold is_limb. intros Hv Hw Hk. rewrite b2z_or. split; [|apply b2z_range].
  unfold u64, wrapu. fold LIMB_BASE. rewrite limb_base_val in *.
  bool_cases; cbn [b2z orb]; zdm.
Qed.

Lemma sub_digit v w k :
  is_limb v -> is_limb w -> 0 <= k <= 1 ->
  u64 (u64 (v - w) - k) - LIMB_BASE * (b2z (u64 (v - w) <? u64 (u64 (v - w) - k)) .| b2z (v <? u64 (v - w))) = v - w - k /\
  0 <= b2z (u64 (v - w) <? u64 (u64 (v - w) - k)) .| b2z (v <? u64 (v - w)) <= 1.
Proof.
  unfold is_limb. intros Hv Hw Hk. rewrite b2z_or. split; [|apply b2z_range].
  unfold u64, wrapu. fold LIMB_BASE. rewrite limb_base_val in *.
  bool_cases; cbn [b2z orb]; zdm.
Qed.

(** What an operation on [n] limbs with a final carry returns. *)
Record carries (l res : list Z) (value : Z) (k : Z) : Prop := {
  ca_length : length res = length l;
  ca_limbs : limbs res;
  ca_value : mpz res + bpow l * k = value }.

Lemma carries_cons v l x res value k :
  is_limb x -> carries l res value k -> carries (v :: l) (x :: res) (x + LIMB_BASE * value) k.
Proof.
  intros Hx [H1 H2 H3]. split; [simpl; lia|by constructor|]. rewrite mpz_cons, bpow_cons, <- H3. lia.
Qed.

Lemma carries_nil k : carries [] [] k k.
Proof. split; [done|constructor|]. rewrite bpow_nil. cbn. lia. Qed.

Lemma carries_eq l res v v' k : carries l res v k -> v = v' -> carries l res v' k.
Proof. by intros ? <-. Qed.

Lemma mp_add_spec op1 op2 k :
  limbs op1 -> limbs op2 -> length op1 = length op2 -> 0 <= k <= 1 ->
  exists res k', mp_add op1 op2 k = Some (res, k') /\ carries op1 res (mpz op1 + mpz op2 + k) k' /\ 0 <= k' <= 1.
Proof.
  intros H1. revert op2 k. induction H1 as [|v op1 Hv H1 IH]; intros [|w op2] k H2 Hl Hk; try done.
  { exists [], k. split; [done|]. split; [|done]. apply carries_nil. }
  apply Forall_cons in H2 as [Hw H2]. simpl in Hl. cbn [mp_add].
  destruct (add_digit v w k Hv Hw Hk) as [Hd Hk'].
  destruct (IH op2 _ H2 ltac:(lia) Hk') as (res & k' & -> & Hc & Hk''). cbn [mbind option_bind].
  eexists _, _. split; [done|]. split; [|done].
  eapply carries_eq; [apply carries_cons, Hc; apply limb_u64|]. rewrite !mpz_cons. lia.
Qed.

Lemma mp_sub_spec op1 op2 k :
  limbs op1 -> limbs op2 -> length op1 = length op2 -> 0 <= k <= 1 ->
  exists res k', mp_sub op1 op2 k = Some (res, k') /\ carries op1 res (mpz op1 - mpz op2 - k) (- k') /\ 0 <= k' <= 1.
Proof.
  intros H1. revert op2 k. induction H1 as [|v op1 Hv H1 IH]; intros [|w op2] k H2 Hl Hk; try done.
  { exists [], k. split; [done|]. split; [|done]. apply (carries_nil (- k)). }
  apply Forall_cons in H2 as [Hw H2]. simpl in Hl. cbn [mp_sub].
  destruct (sub_digit v w k Hv Hw Hk) as [Hd Hk'].
  destruct (IH op2 _ H2 ltac:(lia) Hk') as (res & k' & -> & Hc & Hk''). cbn [mbind option_bind].
  eexists _, _. split; [done|]. split; [|done].
  eapply carries_eq; [apply carries_cons, Hc; apply limb_u64|]. rewrite !mpz_cons. lia.
Qed.

Lemma mp_neg_sub op2 k : mp_sub (replicate (length op2) 0) op2 k = Some (mp_neg op2 k).
Proof.
  revert k. induction op2 as [|w op2 IH]; intros k; [done|]. cbn [length replicate mp_sub mp_neg]. rewrite IH.
  cbn [mbind option_bind]. by destruct (mp_neg op2 _).
Qed.

Lemma mpz_zeros n : mpz (replicate n 0) = 0.
Proof. induction n as [|n IH]; [done|]. cbn [replicate]. rewrite mpz_cons, IH. lia. Qed.

Lemma limbs_zeros n : limbs (replicate n 0).
Proof. apply Forall_replicate. split; done. Qed.

Lemma mp_neg_spec op2 k :
  limbs op2 -> 0 <= k <= 1 ->
  exists res k', mp_neg op2 k = (res, k') /\ carries op2 res (- mpz op2 - k) (- k') /\ 0 <= k' <= 1.
Proof.
  intros H2 Hk. destruct (mp_sub_spec (replicate (length op2) 0) op2 k) as (res & k' & He & Hc & Hk');
    [apply limbs_zeros|done|apply length_replicate|done|].
  rewrite mp_neg_sub in He. injection He as He. exists res, k'. split; [done|]. split; [|done].
  rewrite mpz_zeros in Hc. destruct Hc as [H3 H4 H5]. rewrite length_replicate in H3.
  split; [done|done|]. rewrite <- (bpow_length (replicate (length op2) 0)); [lia|apply length_replicate].
Qed.

Lemma mp_add_ui_spec tab b :
  limbs tab -> is_limb b ->
  exists res k, mp_add_ui tab b = (res, k) /\ carries tab res (mpz tab + b) k /\ is_limb k /\ (tab <> [] -> k <= 1).
Proof.
  intros H1. revert b. induction H1 as [|v tab Hv H1 IH]; intros b Hb; cbn [mp_add_ui].
  { exists [], b. split; [done|]. split; [apply carries_nil|done]. }
  destruct (Z.eqb_spec b 0) as [->|].
  { exists (v :: tab), 0. split; [done|]. split; [|done]. split; [done|by constructor|lia]. }
  assert (Hd : u64 (v + b) + LIMB_BASE * b2z (u64 (v + b) <? b) = v + b).
  { unfold is_limb, u64, wrapu in *. fold LIMB_BASE in *. rewrite limb_base_val in *. bool_cases; cbn [b2z]; zdm. }
  pose proof (b2z_range (u64 (v + b) <? b)) as Hk.
  destruct (IH (b2z (u64 (v + b) <? b))) as (res & k & -> & Hc & Hk' & Hle).
  { unfold is_limb. rewrite limb_base_val. lia. }
  eexists _, _. split; [done|]. split; [|split; [done|]].
  - eapply carries_eq; [apply carries_cons, Hc; apply limb_u64|]. rewrite !mpz_cons. lia.
  - intros _. destruct tab; [|by apply Hle]. destruct Hc as [Hl _ Hv0]. destruct res; [|done].
    rewrite bpow_nil in Hv0. cbn in Hv0. lia.
Qed.

Lemma mp_sub_ui_spec tab b :
  limbs tab -> is_limb b ->
  exists res k, mp_sub_ui tab b = (res, k) /\ carries tab res (mpz tab - b) (- k) /\ is_limb k /\ (tab <> [] -> k <= 1).
Proof.
  intros H1. revert b. induction H1 as [|v tab Hv H1 IH]; intros b Hb; cbn [mp_sub_ui].
  { exists [], b. split; [done|]. split; [apply (carries_nil (- b))|done]. }
  assert (Hd : u64 (v - b) - LIMB_BASE * b2z (v <? u64 (v - b)) = v - b).
  { unfold is_limb, u64, wrapu in *. fold LIMB_BASE in *. rewrite limb_base_val in *. bool_cases; cbn [b2z]; zdm. }
  pose proof (b2z_range (v <? u64 (v - b))) as Hk.
  destruct (Z.eqb_spec (b2z (v <? u64 (v - b))) 0) as [He|Hne].
  { eexists _, _. split; [done|]. rewrite He in *. split; [|split; [split; done|lia]].
    split; [done|constructor; [apply limb_u64|done]|]. rewrite !mpz_cons. lia. }
  destruct (IH (b2z (v <? u64 (v - b)))) as (res & k & -> & Hc & Hk' & Hle).
  { unfold is_limb. rewrite limb_base_val. lia. }
  eexists _, _. split; [done|]. split; [|split; [done|]].
  - eapply carries_eq; [apply carries_cons, Hc; apply limb_u64|]. rewrite !mpz_cons. lia.
  - intros _. destruct tab; [|by apply Hle]. destruct Hc as [Hl _ Hv0]. destruct res; [|done].
    rewrite bpow_nil in Hv0. cbn in Hv0. lia.
Qed.

(** The limb that a shift to the right by [s] stores, from a limb and the next higher one. *)
Lemma shr_digit a l s :
  is_limb a -> is_limb l -> 1 <= s < 64 ->
  (a ≫ s) .| u64 (l ≪ (LIMB_BITS - s)) = a / 2 ^ s + 2 ^ (64 - s) * (l mod 2 ^ s) /\
  is_limb (a / 2 ^ s + 2 ^ (64 - s) * (l mod 2 ^ s)).
Proof.
  unfold is_limb. intros Ha Hl Hs. rewrite limb_bits_val.
  assert (Hp : LIMB_BASE = 2 ^ (64 - s) * 2 ^ s) by (rewrite <- Z.pow_add_r by lia; f_equal; lia).
  assert (0 < 2 ^ s /\ 0 < 2 ^ (64 - s)) as [H1 H2] by (split; apply Z.pow_pos_nonneg; lia).
  assert (Hd : 0 <= a / 2 ^ s < 2 ^ (64 - s)) by (split; [apply Z.div_pos|apply Z.div_lt_upper_bound]; lia).
  pose proof (Z.mod_pos_bound l (2 ^ s) H1) as Hm.
  assert (He : u64 (l ≪ (64 - s)) = 2 ^ (64 - s) * (l mod 2 ^ s)).
  { unfold u64, wrapu. rewrite shiftl_mul by lia. change (2 ^ 64) with LIMB_BASE.
    rewrite Hp, (Z.mul_comm l), Z.mul_mod_distr_l by lia. done. }
  split; [|nia]. rewrite He, shiftr_div by lia.
  apply (lor_add (64 - s)); [lia|done|]. rewrite Z.mul_comm. by apply Z.mod_mul, Z.neq_sym, Z.lt_neq.
Qed.

Lemma mp_shr_loop_spec tab s high :
  limbs tab -> is_limb high -> 1 <= s < 64 ->
  exists res l, mp_shr_loop tab s high = (res, l) /\ is_limb l /\ length res = length tab /\ limbs res /\
    mpz tab + bpow tab * (high mod 2 ^ s) = 2 ^ s * mpz res + l mod 2 ^ s.
Proof.
  intros Ht Hh Hs. induction Ht as [|a tab Ha Ht IH]; cbn [mp_shr_loop].
  { exists [], high. repeat split; try done; try apply Hh. rewrite bpow_nil. cbn [mpz foldr]. lia. }
  destruct IH as (res & l & -> & Hl & Hlen & Hres & Hv).
  destruct (shr_digit a l s Ha Hl Hs) as [-> Hd].
  eexists _, _. split; [done|]. split; [done|]. split; [simpl; lia|]. split; [by constructor|].
  rewrite !mpz_cons, bpow_cons.
  assert (LIMB_BASE = 2 ^ s * 2 ^ (64 - s)) by (rewrite <- Z.pow_add_r by lia; f_equal; lia).
  pose proof (Z.div_mod a (2 ^ s) ltac:(lia)). nia.
Qed.

Lemma mp_shr_spec tab s high :
  limbs tab -> 1 <= s < 64 -> 0 <= high < 2 ^ s ->
  exists res r, mp_shr tab s high = Some (res, r) /\ length res = length tab /\ limbs res /\
    mpz tab + bpow tab * high = 2 ^ s * mpz res + r /\ 0 <= r < 2 ^ s.
Proof.
  intros Ht Hs Hh. unfold mp_shr. rewrite limb_bits_val, (proj2 (Z.leb_le 1 s)), (proj2 (Z.ltb_lt s 64)) by lia.
  assert (2 ^ s < LIMB_BASE) by (apply Z.pow_lt_mono_r; lia).
  destruct (mp_shr_loop_spec tab s high) as (res & l & -> & Hl & Hlen & Hres & Hv); [done|split; lia|done|].
  cbn [andb]. eexists _, _. split; [done|]. split; [done|]. split; [done|].
  assert (Hm : l .& (u64 (1 ≪ s) - 1) = l mod 2 ^ s).
  { rewrite shiftl_mul, Z.mul_1_l by lia. rewrite u64_limb by (split; lia). rewrite Z.sub_1_r, <- Z.ones_equiv.
    apply land_mask. lia. }
  rewrite Hm. rewrite (Z.mod_small high) in Hv by lia. split; [done|]. apply Z.mod_pos_bound. lia.
Qed.

(** ** Products *)

Lemma u128_split x : u128 x ≫ LIMB_BITS = u64 (x / LIMB_BASE) /\ u64 (u128 x) = u64 x.
Proof.
  unfold u128, u64, wrapu. rewrite limb_bits_val, shiftr_div by lia. change (2 ^ 128) with (LIMB_BASE * LIMB_BASE).
  change (2 ^ 64) with LIMB_BASE. rewrite limb_base_val. split; zdm.
Qed.

(** The two halves of a product that fits in a double limb. *)
Lemma dlimb_digit t :
  0 <= t < LIMB_BASE * LIMB_BASE ->
  u64 (u128 t) + LIMB_BASE * (u128 t ≫ LIMB_BITS) = t /\ is_limb (u128 t ≫ LIMB_BITS).
Proof.
  intros Ht. destruct (u128_split t) as [-> ->].
  assert (is_limb (t / LIMB_BASE)) by (unfold is_limb in *; rewrite limb_base_val in *; zdm).
  rewrite (u64_limb (t / LIMB_BASE)) by done. split; [|done].
  rewrite u64_split. lia.
Qed.

Lemma mul_limbs a b : is_limb a -> is_limb b -> 0 <= a * b <= (LIMB_BASE - 1) * (LIMB_BASE - 1).
Proof.
  unfold is_limb. intros Ha Hb. split; [nia|]. apply Z.mul_le_mono_nonneg; lia.
Qed.

Lemma mp_mul1_spec taba b l :
  limbs taba -> is_limb b -> is_limb l ->
  exists res l', mp_mul1 taba b l = (res, l') /\ carries taba res (mpz taba * b + l) l' /\ is_limb l'.
Proof.
  intros Ht Hb. revert l. induction Ht as [|a taba Ha Ht IH]; intros l Hl; cbn [mp_mul1].
  { exists [], l. split; [done|]. split; [|done]. apply carries_nil. }
  pose proof (mul_limbs a b Ha Hb) as Hm.
  destruct (dlimb_digit (a * b + l)) as [Hd Hk]; [unfold is_limb in *; rewrite limb_base_val in *; lia|].
  destruct (IH _ Hk) as (res & l' & -> & Hc & Hl'). eexists _, _. split; [done|]. split; [|done].
  eapply carries_eq; [apply carries_cons, Hc; apply limb_u64|]. rewrite !mpz_cons. lia.
Qed.

Lemma mp_add_mul1_loop_spec tabr taba b l :
  limbs tabr -> limbs taba -> length tabr = length taba -> is_limb b -> is_limb l ->
  exists res l', mp_add_mul1_loop tabr taba b l = Some (res, l') /\
    carries tabr res (mpz tabr + mpz taba * b + l) l' /\ is_limb l'.
Proof.
  intros Hr. revert taba l. induction Hr as [|r tabr Hr Hrs IH]; intros [|a taba] l Ht Hlen Hb Hl; try done.
  { exists [], l. split; [done|]. split; [apply carries_nil|done]. }
  apply Forall_cons in Ht as [Ha Ht]. simpl in Hlen. cbn [mp_add_mul1_loop].
  pose proof (mul_limbs a b Ha Hb) as Hm.
  destruct (dlimb_digit (a * b + l + r)) as [Hd Hk]; [unfold is_limb in *; rewrite limb_base_val in *; lia|].
  destruct (IH taba _ Ht ltac:(lia) Hb Hk) as (res & l' & -> & Hc & Hl'). eexists _, _. split; [done|]. split; [|done].
  eapply carries_eq; [apply carries_cons, Hc; apply limb_u64|]. rewrite !mpz_cons. lia.
Qed.

Lemma mp_add_mul1_spec tabr taba b :
  limbs tabr -> limbs taba -> length tabr = length taba -> is_limb b ->
  exists res l, mp_add_mul1 tabr taba b = Some (res, l) /\ carries tabr res (mpz tabr + mpz taba * b) l /\ is_limb l.
Proof.
  intros. destruct (mp_add_mul1_loop_spec tabr taba b 0) as (res & l & ? & ? & ?); [done..|].
  rewrite Z.add_0_r in *. by exists res, l.
Qed.

(** One digit of a subtraction of a product: what is borrowed is a limb. *)
Lemma sub_mul_digit r p l :
  is_limb r -> 0 <= p <= (LIMB_BASE - 1) * (LIMB_BASE - 1) -> is_limb l ->
  u64 (u128 (r - p - l)) - LIMB_BASE * u64 (- (u128 (r - p - l) ≫ LIMB_BITS)) = r - p - l /\
  is_limb (u64 (- (u128 (r - p - l) ≫ LIMB_BITS))).
Proof.
  intros Hr Hp Hl. split; [|apply limb_u64]. destruct (u128_split (r - p - l)) as [-> ->].
  assert (Hq : - (LIMB_BASE - 1) <= (r - p - l) / LIMB_BASE <= 0).
  { unfold is_limb in *. rewrite limb_base_val in *. zdm. }
  assert (He : u64 (- u64 ((r - p - l) / LIMB_BASE)) = - ((r - p - l) / LIMB_BASE)).
  { revert Hq. generalize ((r - p - l) / LIMB_BASE). intros q Hq. unfold u64, wrapu. change (2 ^ 64) with LIMB_BASE.
    rewrite limb_base_val in *. zdm. }
  rewrite He, u64_split. lia.
Qed.

Lemma mp_sub_mul1_loop_spec tabr taba b l :
  limbs tabr -> limbs taba -> length tabr = length taba -> is_limb b -> is_limb l ->
  exists res l', mp_sub_mul1_loop tabr taba b l = Some (res, l') /\
    carries tabr res (mpz tabr - mpz taba * b - l) (- l') /\ is_limb l'.
Proof.
  intros Hr. revert taba l. induction Hr as [|r tabr Hr Hrs IH]; intros [|a taba] l Ht Hlen Hb Hl; try done.
  { exists [], l. split; [done|]. split; [apply (carries_nil (- l))|done]. }
  apply Forall_cons in Ht as [Ha Ht]. simpl in Hlen. cbn [mp_sub_mul1_loop].
  destruct (sub_mul_digit r (a * b) l Hr (mul_limbs a b Ha Hb) Hl) as [Hd Hk].
  destruct (IH taba _ Ht ltac:(lia) Hb Hk) as (res & l' & -> & Hc & Hl'). eexists _, _. split; [done|]. split; [|done].
  eapply carries_eq; [apply carries_cons, Hc; apply limb_u64|]. rewrite !mpz_cons. lia.
Qed.

Lemma mp_sub_mul1_spec tabr taba b :
  limbs tabr -> limbs taba -> length tabr = length taba -> is_limb b ->
  exists res l, mp_sub_mul1 tabr taba b = Some (res, l) /\ carries tabr res (mpz tabr - mpz taba * b) (- l) /\ is_limb l.
Proof.
  intros. destruct (mp_sub_mul1_loop_spec tabr taba b 0) as (res & l & ? & ? & ?); [done..|].
  rewrite Z.sub_0_r in *. by exists res, l.
Qed.

(** A function run in place between two parts that it leaves alone. *)
Lemma in_place_app {R} l1 s l2 p n (f : list Z -> option (list Z * R)) s' r :
  p = zlen l1 -> n = zlen s -> f s = Some (s', r) -> length s = length s' ->
  in_place (l1 ++ s ++ l2) p n f = Some (l1 ++ s' ++ l2, r).
Proof.
  intros -> -> Hf Hl. unfold in_place. rewrite zslice_app. cbn [mbind option_bind]. rewrite Hf. cbn [mbind option_bind].
  by rewrite zsplice_app.
Qed.

Lemma mp_mul_rows_spec op1 op2 low w rest i :
  limbs op1 -> limbs op2 -> limbs low -> limbs w -> i = zlen low -> length w = length op1 -> length rest = length op2 ->
  exists res, mp_mul_rows (low ++ w ++ rest) op1 op2 i = Some res /\ limbs res /\
    length res = length (low ++ w ++ rest) /\ mpz res = mpz low + bpow low * (mpz w + mpz op1 * mpz op2).
Proof.
  intros H1 H2. revert low w rest i.
  induction H2 as [|b op2 Hb H2 IH]; intros low w rest i Hlow Hw -> Hlw Hlr; cbn [mp_mul_rows].
  { destruct rest; [|done]. rewrite app_nil_r. eexists. split; [done|]. split; [by apply Forall_app|]. split; [done|].
    rewrite mpz_app. cbn [mpz foldr]. lia. }
  destruct rest as [|x rest]; [done|]. simpl in Hlr.
  destruct (mp_add_mul1_spec w op1 b Hw H1 Hlw Hb) as (w' & r & Hf & [Hl' Hw' Hv] & Hr).
  rewrite (in_place_app low w (x :: rest) _ _ _ w' r);
    [|done|unfold zlen; lia|done|done]. cbn [mbind option_bind].
  rewrite (app_assoc low w'), zset_mid by (unfold zlen; rewrite length_app; lia). cbn [mbind option_bind].
  destruct w' as [|d w'].
  - destruct w; [|done]. destruct op1; [|done]. replace ((low ++ []) ++ r :: rest) with ((low ++ [r]) ++ [] ++ rest)
      by (by rewrite app_nil_r, <- app_assoc).
    destruct (IH (low ++ [r]) [] rest (zlen low + 1)) as (res & -> & Hres & Hlen & Hval);
      [by apply Forall_app; split; [|constructor]|done|zlen_lia|done|lia|].
    eexists. split; [done|]. split; [done|]. split; [rewrite Hlen; rewrite !length_app; simpl; lia|].
    rewrite Hval, mpz_app, bpow_app. rewrite bpow_nil in Hv. cbn [mpz foldr] in *. nia.
  - apply Forall_cons in Hw' as [Hd Hw'].
    replace ((low ++ d :: w') ++ r :: rest) with ((low ++ [d]) ++ (w' ++ [r]) ++ rest) by (by rewrite <- !app_assoc).
    destruct (IH (low ++ [d]) (w' ++ [r]) rest (zlen low + 1)) as (res & -> & Hres & Hlen & Hval);
      [by apply Forall_app; split; [|constructor]|by apply Forall_app; split; [|constructor]|zlen_lia
      |rewrite length_app; simpl in *; lia|lia|].
    eexists. split; [done|]. split; [done|].
    split; [rewrite Hlen; rewrite !length_app in *; simpl in *; lia|].
    rewrite Hval, !mpz_app, bpow_app, bpow_cons, bpow_nil, !mpz_cons. rewrite mpz_cons in Hv.
    rewrite (bpow_length w (d :: w')), bpow_cons in Hv by (simpl in *; lia). cbn [mpz foldr]. nia.
Qed.

Lemma mp_mul_basecase_spec result op1 op2 :
  limbs op1 -> limbs op2 -> op2 <> [] -> length result = (length op1 + length op2)%nat ->
  exists res, mp_mul_basecase result op1 op2 = Some res /\ limbs res /\
    length res = (length op1 + length op2)%nat /\ mpz res = mpz op1 * mpz op2.
Proof.
  intros H1 H2 Hne Hlen. destruct op2 as [|b op2]; [done|]. apply Forall_cons in H2 as [Hb H2].
  unfold mp_mul_basecase. simpl in Hlen.
  rewrite <- (take_drop (length op1) result). set (t := take (length op1) result).
  assert (Ht : length t = length op1) by (unfold t; rewrite length_take; lia).
  assert (Hd : length (drop (length op1) result) = S (length op2)) by (rewrite length_drop; lia).
  destruct (drop (length op1) result) as [|x rest]; [done|]. simpl in Hd.
  destruct (mp_mul1_spec op1 b 0 H1 Hb) as (w & r & Hm & [Hl Hw Hv] & Hr); [by split|].
  rewrite (in_place_app [] t (x :: rest) _ _ _ w r); [|done|unfold zlen; lia|by rewrite Hm|lia].
  cbn [mbind option_bind app]. rewrite zset_mid by (unfold zlen; lia). cbn [mbind option_bind].
  destruct w as [|d w].
  - destruct op1; [|done]. cbn [app]. change (r :: rest) with ([r] ++ [] ++ rest).
    destruct (mp_mul_rows_spec [] op2 [r] [] rest 1) as (res & -> & Hres & Hln & Hval);
      [done..|by constructor|done|done|done|lia|].
    eexists. split; [done|]. split; [done|]. split; [rewrite Hln; simpl in *; lia|].
    rewrite Hval. rewrite bpow_nil in Hv. cbn [mpz foldr] in *. nia.
  - apply Forall_cons in Hw as [Hdl Hw].
    replace ((d :: w) ++ r :: rest) with ([d] ++ (w ++ [r]) ++ rest) by (by rewrite <- app_assoc).
    destruct (mp_mul_rows_spec op1 op2 [d] (w ++ [r]) rest 1) as (res & -> & Hres & Hln & Hval);
      [done..|by constructor|by apply Forall_app; split; [|constructor]|done|rewrite length_app; simpl in *; lia|lia|].
    eexists. split; [done|]. split; [done|].
    split; [rewrite Hln, !length_app; simpl in *; lia|].
    rewrite Hval, !mpz_app, bpow_cons, bpow_nil, !mpz_cons. rewrite mpz_cons in Hv.
    rewrite (bpow_length op1 (d :: w)), bpow_cons in Hv by (simpl in *; lia). cbn [mpz foldr] in *. nia.
Qed.

(** ** Division by one limb *)

(** A limb that can be used as a divisor: its high bit is set. *)
Definition norm_limb (d : Z) : Prop := LIMB_BASE <= 2 * d /\ d < LIMB_BASE.

Lemma join_limbs a1 a0 : is_limb a0 -> (a1 ≪ LIMB_BITS) .| a0 = LIMB_BASE * a1 + a0.
Proof.
  intros Ha. rewrite limb_bits_val, shiftl_mul by lia. rewrite (lor_add_comm 64); [change (2 ^ 64) with LIMB_BASE; lia|lia|done|].
  by apply Z.mod_mul.
Qed.

(** The approximate inverse: [udiv1norm_init d + B] is [(B^2 - 1) / d] rounded down. *)
Lemma udiv1norm_init_spec d :
  norm_limb d ->
  is_limb (udiv1norm_init d) /\ 0 <= LIMB_BASE * LIMB_BASE - 1 - (udiv1norm_init d + LIMB_BASE) * d < d.
Proof.
  unfold norm_limb. intros [H1 H2]. unfold udiv1norm_init. cbv zeta.
  assert (Ha : u64 (- d - 1) = LIMB_BASE - d - 1).
  { unfold u64, wrapu. change (2 ^ 64) with LIMB_BASE. rewrite limb_base_val in *. zdm. }
  rewrite Ha, join_limbs by apply limb_u64. change (u64 (-1)) with (LIMB_BASE - 1).
  set (n := LIMB_BASE * (LIMB_BASE - d - 1) + (LIMB_BASE - 1)).
  pose proof (Z.div_mod n d ltac:(lia)) as Hdm. pose proof (Z.mod_pos_bound n d ltac:(lia)) as Hm.
  assert (Hq : is_limb (n / d)).
  { split; [apply Z.div_pos; unfold n; nia|]. apply Z.div_lt_upper_bound; unfold n; nia. }
  rewrite u64_limb by done. split; [done|]. unfold n in *. nia.
Qed.

(** The estimate of the quotient is at most one too small. *)
Lemma udiv1norm_estimate B d m a1 a0 c n_adj q :
  B <= 2 * d -> d < B -> 0 <= B * B - 1 - (m + B) * d < d -> 0 <= a1 < d -> 0 <= a0 < B ->
  (c = 0 /\ 2 * a0 < B /\ n_adj = a0 \/ c = 1 /\ B <= 2 * a0 /\ n_adj = a0 + d - B) ->
  q = (m * (a1 + c) + n_adj) / B + a1 ->
  0 <= B * a1 + a0 - q * d < 2 * d.
Proof.
  intros H1 H2 Hm Ha1 Ha0 Hc ->. set (t := m * (a1 + c) + n_adj).
  pose proof (Z.div_mod t B ltac:(lia)) as Hdm. pose proof (Z.mod_pos_bound t B ltac:(lia)) as Hs.
  set (k := B * B - 1 - (m + B) * d) in *. assert (Hk : m * d = B * B - B * d - 1 - k) by (unfold k; nia). clearbody k.
  set (qt := t / B) in *. set (s := t mod B) in *. clearbody qt s.
  (* B times the remainder *)
  assert (He : B * (B * a1 + a0 - (qt + a1) * d) =
               B * a0 - c * (B * B) + c * B * d + (1 + k) * (a1 + c) - d * n_adj + d * s).
  { assert (Ht : d * t = (B * B - B * d - 1 - k) * (a1 + c) + d * n_adj) by (rewrite <- Hk; unfold t; ring).
    assert (HX : B * qt * d = (B * B - B * d - 1 - k) * (a1 + c) + d * n_adj - d * s) by (rewrite <- Ht, Hdm; ring).
    transitivity (B * B * a1 + B * a0 - B * qt * d - B * a1 * d); [ring|]. rewrite HX. ring. }
  assert (Hds : 0 <= d * s <= d * (B - 1)) by (split; [apply Z.mul_nonneg_nonneg|apply Z.mul_le_mono_nonneg_l]; lia).
  assert (Hlow : 0 <= B * a0 - c * (B * B) + c * B * d + (1 + k) * (a1 + c) - d * n_adj < d * B).
  { destruct Hc as [(-> & Hh & ->)|(-> & Hh & ->)].
    - assert (0 <= (B - d) * a0 <= (B - d) * d)
        by (split; [apply Z.mul_nonneg_nonneg|apply Z.mul_le_mono_nonneg_l]; lia).
      assert (0 <= (1 + k) * (a1 + 0) <= d * (d - 1))
        by (split; [apply Z.mul_nonneg_nonneg|apply Z.mul_le_mono_nonneg]; lia). lia.
    - assert (0 <= (B - d) * (a0 - (B - d)) <= (B - d) * (d - 1))
        by (split; [apply Z.mul_nonneg_nonneg|apply Z.mul_le_mono_nonneg_l]; lia).
      assert (0 <= (1 + k) * (a1 + 1) <= d * d)
        by (split; [apply Z.mul_nonneg_nonneg|apply Z.mul_le_mono_nonneg]; lia). lia. }
  assert (Hrem : 0 <= B * (B * a1 + a0 - (qt + a1) * d) < 2 * d * B) by (rewrite He; lia). clear He Hc. split.
  - apply (Z.mul_nonneg_cancel_l B); lia.
  - apply (Z.mul_lt_mono_pos_l B); lia.
Qed.

Lemma udiv1norm_spec a1 a0 d :
  norm_limb d -> 0 <= a1 < d -> is_limb a0 ->
  exists q r, udiv1norm a1 a0 d (udiv1norm_init d) = (q, r) /\
    LIMB_BASE * a1 + a0 = q * d + r /\ 0 <= r < d /\ is_limb q.
Proof.
  intros Hd Ha1 Ha0. destruct (udiv1norm_init_spec d Hd) as [Hm Hinv].
  destruct Hd as [H1 H2]. unfold udiv1norm. cbv zeta. rewrite join_limbs by done.
  set (m := udiv1norm_init d) in *. clearbody m.
  assert (Hc : exists c n_adj, u64 (a1 - u64 (i64 a0 ≫ (LIMB_BITS - 1))) = a1 + c /\
    u64 (a0 + (u64 (i64 a0 ≫ (LIMB_BITS - 1)) .& d)) = n_adj /\ is_limb n_adj /\ 0 <= c <= 1 /\
    (c = 0 /\ 2 * a0 < LIMB_BASE /\ n_adj = a0 \/ c = 1 /\ LIMB_BASE <= 2 * a0 /\ n_adj = a0 + d - LIMB_BASE)).
  { unfold is_limb in *. rewrite limb_bits_val. unfold i64, wraps. change (2 ^ (64 - 1)) with (2 ^ 63).
    rewrite (Z.mod_small a0) by done. rewrite shiftr_div by lia. change (64 - 1) with 63.
    destruct (Z.ltb_spec a0 (2 ^ 63)).
    - exists 0, a0. rewrite (Z.div_small a0) by lia. change (u64 0) with 0. rewrite Z.land_0_l, Z.sub_0_r, !Z.add_0_r.
      rewrite !u64_limb by (split; lia). split_and!; try done; try lia. left. split_and!; [done| |done].
      rewrite limb_base_val. lia.
    - exists 1, (a0 + d - LIMB_BASE).
      assert (Hq : (a0 - 2 ^ 64) / 2 ^ 63 = -1) by (rewrite limb_base_val in *; zdm). rewrite Hq.
      change (u64 (-1)) with (Z.ones 64). rewrite (Z.land_comm (Z.ones 64)), land_mask by lia. change (2 ^ 64) with LIMB_BASE.
      rewrite (Z.mod_small d) by lia. change (Z.ones 64) with (LIMB_BASE - 1).
      unfold u64, wrapu. change (2 ^ 64) with LIMB_BASE. rewrite limb_base_val in *.
      split_and!; [zdm|zdm|lia|lia|lia|lia|]. right. lia. }
  destruct Hc as (c & n_adj & -> & -> & Hna & Hc01 & Hc).
  assert (Hrange : 0 <= m * (a1 + c) + n_adj < LIMB_BASE * LIMB_BASE) by (unfold is_limb in *; nia).
  destruct (dlimb_digit _ Hrange) as [_ _].
  set (q1 := (m * (a1 + c) + n_adj) / LIMB_BASE + a1).
  pose proof (udiv1norm_estimate LIMB_BASE d m a1 a0 c n_adj q1 H1 H2 Hinv Ha1 Ha0 Hc eq_refl) as He.
  assert (Hq1 : is_limb q1).
  { unfold is_limb in *. split; [unfold q1|]; [|nia]. apply Z.add_nonneg_nonneg; [apply Z.div_pos|]; lia. }
  assert (Hu : u64 ((u128 (m * (a1 + c) + n_adj) ≫ LIMB_BITS) + a1) = q1).
  { destruct (u128_split (m * (a1 + c) + n_adj)) as [-> _]. rewrite u64_limb, u64_limb; [done| |].
    - split; [apply Z.div_pos; lia|]. apply Z.div_lt_upper_bound; lia.
    - rewrite u64_limb; [done|]. split; [apply Z.div_pos; lia|apply Z.div_lt_upper_bound; lia]. }
  rewrite Hu. clearbody q1. clear Hu Hrange Hc Hna Hinv Hm.
  set (e := LIMB_BASE * a1 + a0 - q1 * d) in *.
  assert (Hw : u128 (u128 e - d) = u128 (e - d)).
  { unfold u128, wrapu. by rewrite Zminus_mod_idemp_l. }
  rewrite Hw. destruct (u128_split (e - d)) as [-> ->].
  unfold is_limb in *. destruct (Z.ltb_spec e d).
  - assert (Hq : (e - d) / LIMB_BASE = -1) by (rewrite limb_base_val in *; zdm). rewrite Hq.
    change (u64 (-1)) with (Z.ones 64). rewrite (Z.land_comm (Z.ones 64)), land_mask by lia.
    rewrite (Z.mod_small d) by (change (2 ^ 64) with LIMB_BASE; lia). change (Z.ones 64) with (LIMB_BASE - 1).
    exists q1, e. split.
    { f_equal; unfold u64, wrapu; change (2 ^ 64) with LIMB_BASE; rewrite limb_base_val in *; zdm. }
    split; [unfold e; lia|]. split; [lia|done].
  - assert (Hq : (e - d) / LIMB_BASE = 0) by (apply Z.div_small; lia). rewrite Hq. change (u64 0) with 0.
    rewrite Z.land_0_l, !Z.add_0_r. exists (q1 + 1), (e - d).
    assert (q1 + 1 < LIMB_BASE) by (unfold e in *; nia).
    rewrite (u64_limb (q1 + 1)), !(u64_limb (e - d)) by (split; lia). split; [done|]. unfold e in *. split_and!; lia.
Qed.

(** The quotient and remainder of a number by one limb, with a limb above. *)
Definition divides1 (taba : list Z) (b r : Z) (res : list Z * Z) : Prop :=
  limbs res.1 /\ length res.1 = length taba /\ bpow taba * r + mpz taba = mpz res.1 * b + res.2 /\ 0 <= res.2 < b.

Lemma divides1_cons a taba b r q r1 q0 r0 :
  divides1 taba b r (q, r1) -> LIMB_BASE * r1 + a = q0 * b + r0 -> 0 <= r0 < b -> is_limb q0 ->
  divides1 (a :: taba) b r (q0 :: q, r0).
Proof.
  intros (Hq & Hl & Hv & Hr) He Hr0 Hq0. unfold divides1. cbn [fst snd] in *.
  split; [by constructor|]. split; [simpl; lia|]. split; [|done]. rewrite bpow_cons, !mpz_cons. nia.
Qed.

Lemma divides1_nil b r : 0 <= r < b -> divides1 [] b r ([], r).
Proof. intros Hr. split; [constructor|]. split; [done|]. split; [rewrite bpow_nil; cbn; lia|done]. Qed.

Lemma mp_div1norm_spec taba b r :
  limbs taba -> norm_limb b -> 0 <= r < b -> divides1 taba b r (mp_div1norm taba b r).
Proof.
  intros Ht Hb Hr. unfold mp_div1norm. destruct (_ <=? _).
  - induction Ht as [|a taba Ha Ht IH]; cbn [div1norm_inv].
    { by apply divides1_nil. }
    destruct (div1norm_inv taba b _ r) as [q r1]. destruct IH as (Hq & Hl & Hv & Hr1).
    destruct (udiv1norm_spec r1 a b Hb Hr1 Ha) as (q0 & r0 & -> & He & Hr0 & Hq0). by eapply divides1_cons.
  - induction Ht as [|a taba Ha Ht IH]; cbn [div1norm_plain].
    { by apply divides1_nil. }
    destruct (div1norm_plain taba b r) as [q r1]. pose proof IH as (Hq & Hl & Hv & Hr1). cbn [fst snd] in Hr1.
    rewrite join_limbs by done. destruct Hb as [Hb1 Hb2]. unfold is_limb in Ha.
    set (n := LIMB_BASE * r1 + a).
    pose proof (Z.div_mod n b ltac:(lia)). pose proof (Z.mod_pos_bound n b ltac:(lia)).
    assert (is_limb (n / b)).
    { split; [apply Z.div_pos; unfold n; nia|]. apply Z.div_lt_upper_bound; unfold n; nia. }
    rewrite u64_limb by done. eapply divides1_cons; [done| |done|done]. unfold n in *. lia.
Qed.

(** ** Comparison *)

Lemma mp_scan_nz_spec tab : limbs tab -> mp_scan_nz tab = b2z (negb (mpz tab =? 0)).
Proof.
  induction 1 as [|v tab Hv Ht IH]; [done|]. cbn [mp_scan_nz]. rewrite mpz_cons, IH.
  pose proof (mpz_range tab Ht). unfold is_limb in Hv. rewrite limb_base_val in *.
  destruct (Z.eqb_spec v 0); repeat (case_match; bool_props); cbn; try done; bool_cases; try done; lia.
Qed.

Lemma mp_cmp_spec taba tabb :
  limbs taba -> limbs tabb -> length taba = length tabb ->
  exists c, mp_cmp taba tabb = Some c /\
    (c = -1 /\ mpz taba < mpz tabb \/ c = 0 /\ mpz taba = mpz tabb \/ c = 1 /\ mpz tabb < mpz taba).
Proof.
  intros Ha. revert tabb. induction Ha as [|a taba Ha Hta IH]; intros [|b tabb] Hb Hl; try done.
  { exists 0. split; [done|]. auto. }
  apply Forall_cons in Hb as [Hb Htb]. simpl in Hl. cbn [mp_cmp].
  destruct (IH tabb Htb ltac:(lia)) as (c & -> & Hc). cbn [mbind option_bind]. rewrite !mpz_cons.
  unfold is_limb in *. rewrite limb_base_val in *.
  destruct (Z.eqb_spec c 0); eexists; (split; [done|]); bool_cases; lia.
Qed.

(** ** Parts of a number *)

Lemma bpow_take {A} (l : list A) k : (k <= length l)%nat -> bpow (take k l) = LIMB_BASE ^ Z.of_nat k.
Proof. intros Hk. unfold bpow. f_equal. rewrite zlen_take. unfold zlen. lia. Qed.

Lemma mpz_parts l k : (k <= length l)%nat -> mpz l = mpz (take k l) + LIMB_BASE ^ Z.of_nat k * mpz (drop k l).
Proof. intros Hk. by rewrite <- (bpow_take l k Hk), <- mpz_app, take_drop. Qed.

Lemma mpz_take_drop l k :
  limbs l -> (k <= length l)%nat ->
  mpz (take k l) = mpz l mod LIMB_BASE ^ Z.of_nat k /\ mpz (drop k l) = mpz l / LIMB_BASE ^ Z.of_nat k.
Proof.
  intros Hl Hk. pose proof (mpz_parts l k Hk) as He. pose proof (mpz_range (take k l) ltac:(by apply Forall_take)) as Hr.
  rewrite bpow_take in Hr by done. split.
  - apply (Z.mod_unique_pos _ _ (mpz (drop k l))); [done|lia].
  - apply (Z.div_unique_pos _ _ _ (mpz (take k l))); [done|lia].
Qed.

Lemma base_pow_pos k : 0 <= k -> 0 < LIMB_BASE ^ k.
Proof. intros. by apply Z.pow_pos_nonneg. Qed.

Lemma base_pow_add a b : 0 <= a -> 0 <= b -> LIMB_BASE ^ (a + b) = LIMB_BASE ^ a * LIMB_BASE ^ b.
Proof. intros. by apply Z.pow_add_r. Qed.

Lemma zsplice_all {A} (l s : list A) : length l = length s -> zsplice l 0 s = Some s.
Proof. intros Hl. pose proof (zsplice_app [] l [] s Hl) as He. by rewrite !app_nil_r in He. Qed.

Lemma limb_0 : is_limb 0.
Proof. by split. Qed.

Lemma limb_1 : is_limb 1.
Proof. by split. Qed.

#[export] Hint Resolve limb_0 limb_1 : cmach.
