(* ===== verification/BfDiv.v ===== *)
(** Division of arrays of limbs in [libbf.c]: [mp_divnorm] (schoolbook division with an
    estimate from the highest limbs, and correction), [mp_recip] (Newton iteration for the
    inverse) and [mp_divnorm_large], with the product [mp_mul] they use.

    Temporary arrays come from the allocator of the [bf_context_t]; its state is threaded,
    and a refused request makes a function return [-1].  The result of a function is
    [None] when it leaves an array, and otherwise the new state with the arrays written,
    or with [None] for the return value [-1].  The product of large numbers by number
    theoretic transform, [fft_mul], is behind the class [FftMul]. *)

From S2P Require Import Prelude CutilsH DynBuf BfLimbs.

Section Div.
Context `{!Allocator}.

(** [bf_malloc] and [bf_free] for an array of [n] limbs of 8 bytes; a new block holds
    arbitrary values. *)
Definition bf_malloc (o : aopaque) (n : Z) : aopaque * option (list Z) :=
  let '(o, f) := realloc_func o (8 * n) in
  (o, match f with Some fill => Some (map fill (seq 0 (Z.to_nat n))) | None => None end).

Definition bf_free (o : aopaque) (ptr : option (list Z)) : aopaque :=
  match ptr with Some _ => (realloc_func o 0).1 | None => o end.
End Div.

(** [fft_mul] with the flag [FFT_MUL_R_NORESIZE]: the product, or a failed allocation. *)
Class FftMul `{!Allocator} := fft_mul : aopaque -> list Z -> list Z -> aopaque * option (list Z).

Class FftMulOk `{!Allocator} `{F : !FftMul} : Prop := fft_mul_ok : forall o a b o' r,
  limbs a -> limbs b -> fft_mul o a b = (o', r) ->
  match r with
  | Some l => limbs l /\ length l = (length a + length b)%nat /\ mpz l = mpz a * mpz b
  | None => alloc_refuses
  end.

Section Divnorm.
Context `{!Allocator} `{F : !FftMul}.

Definition mp_mul (o : aopaque) (result op1 op2 : list Z) : option (aopaque * option (list Z)) :=
  if FFT_MUL_THRESHOLD <=? bf_min (zlen op1) (zlen op2) then
    match fft_mul o op1 op2 with
    | (o, Some r) => result ← zsplice result 0 r; Some (o, Some result)
    | (o, None) => Some (o, None)
    end
  else
    result ← mp_mul_basecase result op1 op2;
    Some (o, Some result).

(** ** Schoolbook division *)

(** The first digit: 0 or 1; the limbs are given from the most significant one on. *)
Fixpoint first_q (ra rb : list Z) : option Z :=
  match ra, rb with
  | [], [] => Some 1
  | a :: ra, b :: rb => if a =? b then first_q ra rb else Some (if a <? b then 0 else 1)
  | _, _ => None
  end.

(** The loop for a negative result: add the divisor back until the carry cancels the
    borrow. *)
Fixpoint add_back (fuel : nat) (taba tabb : list Z) (i q : Z) : option (list Z * Z) :=
  match fuel with
  | O => None
  | S fuel' =>
      let nb := zlen tabb in
      let q := u64 (q - 1) in
      '(taba, c) ← in_place taba i nb (fun t => mp_add t tabb 0);
      if negb (c =? 0) then
        v ← zget taba (i + nb);
        taba ← zset taba (i + nb) (u64 (v + 1));
        if u64 (v + 1) =? 0 then Some (taba, q) else add_back fuel' taba tabb i q
      else add_back fuel' taba tabb i q
  end.

(** The estimate of a digit of the quotient. *)
Definition estimate_q (hi lo b1 b1_inv : Z) : Z :=
  if b1 <=? hi then u64 (-1)
  else if negb (b1_inv =? 0) then (udiv1norm hi lo b1 b1_inv).1
  else u64 (((hi ≪ LIMB_BITS) .| lo) / b1).

Definition ADD_BACK_FUEL : nat := 4.

Fixpoint divnorm_loop (i : nat) (tabq taba tabb : list Z) (b1 b1_inv : Z) : option (list Z * list Z) :=
  match i with
  | O => Some (tabq, taba)
  | S i' =>
      let nb := zlen tabb in
      let i := Z.of_nat i' in
      hi ← zget taba (i + nb);
      lo ← zget taba (i + nb - 1);
      let q := estimate_q hi lo b1 b1_inv in
      '(taba, r) ← in_place taba i nb (fun t => mp_sub_mul1 t tabb q);
      v ← zget taba (i + nb);
      let a := u64 (v - r) in
      let c := v <? a in
      taba ← zset taba (i + nb) a;
      '(taba, q) ← (if c then add_back ADD_BACK_FUEL taba tabb i q else Some (taba, q));
      tabq ← zset tabq i q;
      divnorm_loop i' tabq taba tabb b1 b1_inv
  end.

Definition divnorm_base (tabq taba tabb : list Z) : option (list Z * list Z) :=
  let na := zlen taba in
  let nb := zlen tabb in
  b1 ← zget tabb (nb - 1);
  let n := na - nb in
  let b1_inv := if UDIV1NORM_THRESHOLD <=? n then udiv1norm_init b1 else 0 in
  top ← zslice taba n nb;
  q ← first_q (rev top) (rev tabb);
  tabq ← zset tabq n q;
  '(taba, _) ← (if negb (q =? 0) then in_place taba n nb (fun t => mp_sub t tabb 0) else Some (taba, 0));
  divnorm_loop (Z.to_nat n) tabq taba tabb b1 b1_inv.

(** [mp_divnorm], for a routine for large numbers.  The result is [tabq] and [taba]. *)
Definition mp_divnorm_with
    (large : aopaque -> list Z -> list Z -> list Z -> option (aopaque * option (list Z * list Z)))
    (o : aopaque) (tabq taba tabb : list Z) : option (aopaque * option (list Z * list Z)) :=
  let na := zlen taba in
  let nb := zlen tabb in
  b1 ← zget tabb (nb - 1);
  if nb =? 1 then
    '(tabq, r) ← in_place tabq 0 na (fun _ => Some (mp_div1norm taba b1 0));
    taba ← zset taba 0 r;
    Some (o, Some (tabq, taba))
  else if DIVNORM_LARGE_THRESHOLD <=? bf_min (na - nb) nb then large o tabq taba tabb
  else
    res ← divnorm_base tabq taba tabb;
    Some (o, Some res).

(** ** The inverse *)

(** The loop [while (tabt[n + h] != 0)]. *)
Fixpoint recip_fix (fuel : nat) (tabt tabxh taba : list Z) (top : Z) : option (list Z * list Z) :=
  match fuel with
  | O => None
  | S fuel' =>
      t ← zget tabt top;
      if t =? 0 then Some (tabt, tabxh)
      else
        let n := zlen taba in
        let '(tabxh, _) := mp_sub_ui tabxh 1 in
        '(tabt, c) ← in_place tabt 0 n (fun t => mp_sub t taba 0);
        '(tabt, _) ← in_place tabt n (top - n + 1) (fun t => Some (mp_sub_ui t c));
        recip_fix fuel' tabt tabxh taba top
  end.

Definition RECIP_FIX_FUEL : nat := 6.

(** The result is [tabr].  The division in the case [n <= 2] has at most four digits and
    does not come to [mp_divnorm_large]. *)
Fixpoint mp_recip (fuel : nat) (o : aopaque) (tabr taba : list Z) : option (aopaque * option (list Z)) :=
  match fuel with
  | O => None
  | S fuel' =>
      let n := zlen taba in
      if n <=? 2 then
        let '(o, tabu) := bf_malloc o (2 * n + 1) in
        let '(o, tabt) := bf_malloc o (n + 2) in
        let fail o := Some (bf_free (bf_free o tabt) tabu, None) in
        match tabt, tabu with
        | Some t, Some u =>
            u ← zsplice u 0 (replicate (Z.to_nat (2 * n)) 0);
            u ← zset u (2 * n) 1;
            '(o, res) ← mp_divnorm_with (fun _ _ _ _ => None) o t u taba;
            match res with
            | None => fail o
            | Some (t, u) =>
                s ← zslice t 0 (n + 1);
                tabr ← zsplice tabr 0 s;
                u0 ← zslice u 0 n;
                '(tabr, _) ← (if mp_scan_nz u0 =? 0 then
                                in_place tabr 0 (n + 1) (fun t => Some (mp_sub_ui t 1))
                              else Some (tabr, 0));
                Some (bf_free (bf_free o tabt) tabu, Some tabr)
            end
        | _, _ => fail o
        end
      else
        let l := (n - 1) / 2 in
        let h := n - l in
        let '(o, tabt) := bf_malloc o (n + h + 1) in
        let '(o, tabu) := bf_malloc o (n + 2 * h - l + 2) in
        let fail o := Some (bf_free (bf_free o tabt) tabu, None) in
        match tabt, tabu with
        | Some t, Some u =>
            tabxh ← zslice tabr l (h + 1);
            ah ← zslice taba l h;
            '(o, res) ← mp_recip fuel' o tabxh ah;
            match res with
            | None => fail o
            | Some tabxh =>
                '(o, res) ← mp_mul o t taba tabxh;
                match res with
                | None => fail o
                | Some t =>
                    '(t, tabxh) ← recip_fix RECIP_FIX_FUEL t tabxh taba (n + h);
                    let '(t, _) := mp_neg t 0 in
                    v ← zget t (n + h);
                    t ← zset t (n + h) (u64 (v + 1));
                    tm ← zslice t l (n + h + 1 - l);
                    '(o, res) ← mp_mul o u tm tabxh;
                    match res with
                    | None => fail o
                    | Some u =>
                        tabr ← zsplice tabr l tabxh;
                        let k := 2 * h - l in
                        low ← zslice u k l;
                        tabr ← zsplice tabr 0 low;
                        high ← zslice u (2 * h) h;
                        '(tabr, _) ← in_place tabr l h (fun t => mp_add t high 0);
                        Some (bf_free (bf_free o tabt) tabu, Some tabr)
                    end
                end
            end
        | _, _ => fail o
        end
  end.

(** ** Division by an inverse *)

(** The loop that increments the quotient while the remainder is too large. *)
Fixpoint large_fix (fuel : nat) (tabq taba tabb : list Z) : option (list Z * list Z) :=
  match fuel with
  | O => None
  | S fuel' =>
      let nb := zlen tabb in
      top ← zget taba nb;
      low ← zslice taba 0 nb;
      c ← mp_cmp low tabb;
      if (top =? 0) && (c <? 0) then Some (tabq, taba)
      else
        '(taba, k) ← in_place taba 0 nb (fun t => mp_sub t tabb 0);
        taba ← zset taba nb (u64 (top - k));
        large_fix fuel' (mp_add_ui tabq 1).1 taba tabb
  end.

Definition LARGE_FIX_FUEL : nat := 16.

(** The divisor as [n] limbs, rounded up when it is cut; [true] when that overflows. *)
Definition large_divisor (tabt tabb : list Z) (n : Z) : option (list Z * bool) :=
  let nb := zlen tabb in
  if nb <=? n then
    tabt ← zsplice tabt 0 (replicate (Z.to_nat (n - nb)) 0);
    tabt ← zsplice tabt (n - nb) tabb;
    Some (tabt, false)
  else
    hi ← zslice tabb (nb - n) n;
    tabt ← zsplice tabt 0 hi;
    '(tabt, k) ← in_place tabt 0 n (fun t => Some (mp_add_ui t 1));
    Some (tabt, negb (k =? 0)).

Definition mp_divnorm_large (o : aopaque) (tabq taba tabb : list Z) : option (aopaque * option (list Z * list Z)) :=
  let na := zlen taba in
  let nb := zlen tabb in
  let nq := na - nb in
  if 1 <=? nq then
    let n := if nq <? nb then nq + 1 else nq in
    let '(o, tabb_inv) := bf_malloc o (n + 1) in
    let '(o, tabt) := bf_malloc o (2 * (n + 1)) in
    let fail o := Some (bf_free (bf_free o tabb_inv) tabt, None) in
    match tabb_inv, tabt with
    | Some inv, Some t =>
        '(t, over) ← large_divisor t tabb n;
        '(o, res) ←
          (if over : bool then Some (o, Some (replicate (Z.to_nat n) 0 ++ [1]))
           else d ← zslice t 0 n; mp_recip (length d) o inv d);
        match res with
        | None => fail o
        | Some inv =>
            atop ← zslice taba (na - (n + 1)) (n + 1);
            '(o, res) ← mp_mul o t inv atop;
            match res with
            | None => fail o
            | Some t =>
                q ← zslice t (2 * (n + 1) - (nq + 1)) (nq + 1);
                tabq ← zsplice tabq 0 q;
                let o := bf_free (bf_free o tabt) tabb_inv in
                let '(o, tabt) := bf_malloc o (na + 1) in
                match tabt with
                | None => Some (o, None)
                | Some t =>
                    q ← zslice tabq 0 (nq + 1);
                    '(o, res) ← mp_mul o t q tabb;
                    match res with
                    | None => Some (bf_free o tabt, None)
                    | Some t =>
                        low ← zslice t 0 (nb + 1);
                        '(taba, _) ← in_place taba 0 (nb + 1) (fun a => mp_sub a low 0);
                        let o := bf_free o tabt in
                        res ← large_fix LARGE_FIX_FUEL tabq taba tabb;
                        Some (o, Some res)
                    end
                end
            end
        end
    | _, _ => fail o
    end
  else None.

Definition mp_divnorm (o : aopaque) (tabq taba tabb : list Z) : option (aopaque * option (list Z * list Z)) :=
  mp_divnorm_with mp_divnorm_large o tabq taba tabb.
End Divnorm.

(** ** Schoolbook division *)

(** A divisor of which the highest limb has its high bit set. *)
Definition norm_divisor (b : list Z) (bl : list Z) (b1 : Z) : Prop :=
  b = bl ++ [b1] /\ limbs bl /\ norm_limb b1.

Lemma norm_divisor_limbs b bl b1 : norm_divisor b bl b1 -> limbs b.
Proof. intros (-> & Hl & [H1 H2]). apply Forall_app. split; [done|]. repeat constructor; rewrite limb_base_val in *; lia. Qed.

Lemma norm_divisor_value b bl b1 :
  norm_divisor b bl b1 ->
  mpz b = mpz bl + bpow bl * b1 /\ bpow b = LIMB_BASE * bpow bl /\ bpow b <= 2 * mpz b /\ 0 < mpz b < bpow b.
Proof.
  intros Hb. pose proof (mpz_range b (norm_divisor_limbs _ _ _ Hb)) as Hr.
  destruct Hb as (-> & Hl & [H1 H2]). rewrite mpz_app, bpow_app, bpow_cons, bpow_nil, mpz_cons in *. cbn [mpz foldr] in *.
  pose proof (mpz_range bl Hl). pose proof (bpow_pos bl). rewrite limb_base_val in *. nia.
Qed.

(** What the estimate of a digit guarantees: it is at most two too large. *)
Lemma estimate_q_spec hi lo b1 b1_inv P bl vl :
  is_limb hi -> is_limb lo -> norm_limb b1 -> (b1_inv = 0 \/ b1_inv = udiv1norm_init b1) ->
  0 < P -> 0 <= bl < P -> 0 <= vl < P ->
  vl + P * (lo + LIMB_BASE * hi) < LIMB_BASE * (bl + P * b1) ->
  let q := estimate_q hi lo b1 b1_inv in
  is_limb q /\ - (2 * (bl + P * b1)) <= vl + P * (lo + LIMB_BASE * hi) - q * (bl + P * b1) < bl + P * b1.
Proof.
  intros Hhi Hlo Hb1 Hinv HP Hbl Hvl HV q. unfold q, estimate_q. clear q. set (b := bl + P * b1) in *.
  assert (HPb : LIMB_BASE * P <= 2 * b).
  { destruct Hb1 as [H1 _]. unfold b. assert (P * LIMB_BASE <= P * (2 * b1)) by (apply Z.mul_le_mono_nonneg_l; lia). lia. }
  destruct (Z.leb_spec b1 hi) as [Hge|Hlt].
  - change (u64 (-1)) with (LIMB_BASE - 1). split; [unfold is_limb; rewrite limb_base_val; lia|].
    split; [|lia].
    assert (P * (LIMB_BASE * b1) <= P * (LIMB_BASE * hi)) by (repeat apply Z.mul_le_mono_nonneg_l; rewrite ?limb_base_val; lia).
    assert (LIMB_BASE * bl <= LIMB_BASE * P) by (apply Z.mul_le_mono_nonneg_l; rewrite ?limb_base_val; lia).
    assert (0 <= P * lo) by (unfold is_limb in *; nia). unfold b in *. lia.
  - assert (Hq : exists q r, (if negb (b1_inv =? 0) then (udiv1norm hi lo b1 b1_inv).1
                              else u64 (((hi ≪ LIMB_BITS) .| lo) / b1)) = q /\
                  LIMB_BASE * hi + lo = q * b1 + r /\ 0 <= r < b1 /\ is_limb q).
    { destruct (Z.eqb_spec b1_inv 0) as [->|Hne]; cbn [negb].
      - rewrite join_limbs by done. destruct Hb1 as [H1 H2]. set (n := LIMB_BASE * hi + lo).
        exists (n / b1), (n mod b1). unfold is_limb in *.
        assert (is_limb (n / b1)).
        { split; [apply Z.div_pos; unfold n; rewrite limb_base_val in *; lia|].
          apply Z.div_lt_upper_bound; [lia|]. unfold n. assert (LIMB_BASE * (hi + 1) <= LIMB_BASE * b1) by (apply Z.mul_le_mono_nonneg_l; lia). lia. }
        rewrite u64_limb by done. split; [done|]. split; [rewrite Z.mul_comm; apply Z.div_mod; lia|].
        split; [apply Z.mod_pos_bound; lia|done].
      - destruct Hinv as [->| ->]; [done|]. unfold is_limb in Hhi.
        destruct (udiv1norm_spec hi lo b1 Hb1 ltac:(lia) Hlo) as (q & r & -> & He & Hr & Hq). by exists q, r. }
    destruct Hq as (q & r & -> & He & Hr & Hq). split; [done|].
    assert (HE : vl + P * (lo + LIMB_BASE * hi) - q * b = vl - q * bl + P * r).
    { unfold b. rewrite (Z.add_comm lo), He. ring. }
    rewrite HE. unfold is_limb in Hq.
    assert (0 <= q * bl <= LIMB_BASE * P) by (split; [apply Z.mul_nonneg_nonneg|apply Z.mul_le_mono_nonneg]; lia).
    assert (0 <= P * r <= P * (b1 - 1)) by (split; [apply Z.mul_nonneg_nonneg|apply Z.mul_le_mono_nonneg_l]; lia).
    unfold b in *. lia.
Qed.

Lemma add_back_spec fuel low w a rest tabb q i :
  limbs w -> limbs tabb -> length w = length tabb -> i = zlen low -> is_limb a ->
  - (Z.of_nat fuel * mpz tabb) <= mpz w + bpow tabb * (a - LIMB_BASE) < 0 ->
  exists w' k, add_back fuel (low ++ w ++ a :: rest) tabb i q = Some (low ++ w' ++ 0 :: rest, u64 (q - k)) /\
    limbs w' /\ length w' = length tabb /\ mpz w' = mpz w + bpow tabb * (a - LIMB_BASE) + k * mpz tabb /\ mpz w' < mpz tabb.
Proof.
  intros Hw Hb Hl ->. revert w a q Hw Hl. induction fuel as [|fuel IH]; intros w a q Hw Hl Ha HS.
  { lia. }
  cbn [add_back]. destruct (mp_add_spec w tabb 0 Hw Hb Hl) as (w1 & c & Hadd & [Hl1 Hw1 Hv1] & Hc); [lia|].
  rewrite (in_place_app low w (a :: rest) _ _ _ w1 c); [|done|unfold zlen; lia|done|done]. cbn [mbind option_bind].
  rewrite Z.add_0_r, (bpow_length w tabb Hl) in Hv1. pose proof (mpz_range w1 Hw1) as Hr1.
  rewrite (bpow_length w1 tabb) in Hr1 by lia. pose proof (bpow_pos tabb) as HP.
  assert (Hpos : zlen low + zlen tabb = zlen (low ++ w1)) by (unfold zlen; rewrite length_app; lia).
  assert (Hsub : forall k, u64 (u64 (q - 1) - k) = u64 (q - (k + 1))).
  { intros k. unfold u64, wrapu. rewrite Zminus_mod_idemp_l. f_equal. lia. }
  destruct (Z.eqb_spec c 0) as [->|Hc1]; cbn [negb].
  - destruct (IH w1 a (u64 (q - 1)) Hw1 ltac:(lia) Ha) as (w' & k & -> & Hw' & Hl' & Hv' & Hlt); [unfold is_limb in *; nia|].
    exists w', (k + 1). rewrite Hsub. split; [done|]. split; [done|]. split; [done|]. split; [lia|done].
  - assert (c = 1) as -> by lia. rewrite app_assoc, zget_mid by done. cbn [mbind option_bind].
    rewrite zset_mid by done. cbn [mbind option_bind].
    destruct (Z.eqb_spec (u64 (a + 1)) 0) as [He|Hne].
    + assert (a = LIMB_BASE - 1) as ->.
      { unfold is_limb, u64, wrapu in *. change (2 ^ 64) with LIMB_BASE in *. rewrite limb_base_val in *. zdm. }
      exists w1, 1. rewrite He, <- app_assoc. split; [done|]. split; [done|]. split; [lia|]. lia.
    + assert (Ha1 : u64 (a + 1) = a + 1 /\ is_limb (a + 1)).
      { unfold is_limb, u64, wrapu in *. change (2 ^ 64) with LIMB_BASE in *. rewrite limb_base_val in *. zdm. }
      destruct Ha1 as [-> Ha1]. rewrite <- app_assoc.
      destruct (IH w1 (a + 1) (u64 (q - 1)) Hw1 ltac:(lia) Ha1) as (w' & k & -> & Hw' & Hl' & Hv' & Hlt); [unfold is_limb in *; nia|].
      exists w', (k + 1). rewrite Hsub. split; [done|]. split; [done|]. split; [done|]. split; [lia|done].
Qed.

(** One digit: the window [vl], [lo], [hi] becomes its remainder and a zero. *)
Lemma digit_step low vl lo hi rest tabb bl b1 b1_inv :
  norm_divisor tabb bl b1 -> (b1_inv = 0 \/ b1_inv = udiv1norm_init b1) ->
  limbs vl -> is_limb lo -> is_limb hi -> length vl = length bl ->
  mpz vl + bpow bl * (lo + LIMB_BASE * hi) < LIMB_BASE * mpz tabb ->
  exists w q, is_limb q /\ limbs w /\ length w = length tabb /\
    mpz vl + bpow bl * (lo + LIMB_BASE * hi) = q * mpz tabb + mpz w /\ mpz w < mpz tabb /\
    forall i tabq taba, i = length low -> taba = low ++ vl ++ lo :: hi :: rest ->
      divnorm_loop (S i) tabq taba tabb b1 b1_inv =
      (tabq ← zset tabq (Z.of_nat i) q; divnorm_loop i tabq (low ++ w ++ 0 :: rest) tabb b1 b1_inv).
Proof.
  intros Hb Hinv Hvl Hlo Hhi Hlv HV. pose proof (norm_divisor_limbs _ _ _ Hb) as Hbl.
  destruct (norm_divisor_value _ _ _ Hb) as (Hbv & HbP & Hb2 & Hb0). pose proof Hb as (Htab & Hl & Hn).
  assert (Hlen : length tabb = S (length bl)) by (rewrite Htab, length_app; simpl; lia).
  pose proof (mpz_range bl Hl) as Hrb. pose proof (mpz_range vl Hvl) as Hrv. rewrite (bpow_length vl bl Hlv) in Hrv.
  rewrite Hbv in HV. destruct (estimate_q_spec hi lo b1 b1_inv (bpow bl) (mpz bl) (mpz vl)) as [Hq Hest];
    [done..|apply bpow_pos|done|done|done|].
  rewrite <- Hbv in Hest, HV. set (q := estimate_q hi lo b1 b1_inv) in *.
  assert (Hw0 : limbs (vl ++ [lo])) by (apply Forall_app; split; [done|by constructor]).
  destruct (mp_sub_mul1_spec (vl ++ [lo]) tabb q Hw0 Hbl) as (w1 & r & Hsub & [Hl1 Hw1 Hv1] & Hr);
    [rewrite length_app; simpl; lia|done|].
  rewrite mpz_app, bpow_app, bpow_cons, bpow_nil, mpz_cons in Hv1. cbn [mpz foldr] in Hv1.
  rewrite (bpow_length vl bl Hlv) in Hv1. rewrite length_app in Hl1. simpl in Hl1.
  pose proof (mpz_range w1 Hw1) as Hr1. rewrite (bpow_length w1 tabb) in Hr1 by lia. pose proof (bpow_pos tabb) as HP.
  set (V := mpz vl + bpow bl * (lo + LIMB_BASE * hi)) in *.
  assert (HVq : V - q * mpz tabb = mpz w1 + bpow tabb * (hi - r)) by (unfold V in *; nia).
  assert (Hrun : forall i tabq taba, i = length low -> taba = low ++ vl ++ lo :: hi :: rest ->
      divnorm_loop (S i) tabq taba tabb b1 b1_inv =
      ('(taba, q) ← (if hi <? u64 (hi - r) then add_back ADD_BACK_FUEL (low ++ w1 ++ u64 (hi - r) :: rest) tabb (zlen low) q
                     else Some (low ++ w1 ++ u64 (hi - r) :: rest, q));
       tabq ← zset tabq (Z.of_nat i) q; divnorm_loop i tabq taba tabb b1 b1_inv)).
  { intros i tabq taba -> ->. cbn [divnorm_loop]. change (Z.of_nat (length low)) with (zlen low).
    rewrite (app_assoc low vl), (zget_mid1 (low ++ vl) lo hi rest (zlen low + zlen tabb)),
      (zget_mid (low ++ vl) lo (hi :: rest) (zlen low + zlen tabb - 1)) by (unfold zlen; rewrite length_app; lia).
    cbn [mbind option_bind]. fold q.
    replace ((low ++ vl) ++ lo :: hi :: rest) with (low ++ (vl ++ [lo]) ++ hi :: rest) by (by rewrite <- !app_assoc).
    rewrite (in_place_app low (vl ++ [lo]) (hi :: rest) _ _ _ w1 r);
      [|done|unfold zlen; rewrite length_app; simpl; lia|done|rewrite length_app; simpl; lia]. cbn [mbind option_bind].
    rewrite (app_assoc low w1), zget_mid by (unfold zlen; rewrite length_app; lia). cbn [mbind option_bind].
    rewrite zset_mid by (unfold zlen; rewrite length_app; lia). cbn [mbind option_bind]. by rewrite <- app_assoc. }
  destruct (Z.ltb_spec (V - q * mpz tabb) 0) as [Hneg|Hnn].
  - assert (Hd : -2 <= hi - r < 0) by nia.
    assert (Ha : u64 (hi - r) = hi - r + LIMB_BASE).
    { unfold u64, wrapu. change (2 ^ 64) with LIMB_BASE. unfold is_limb in *. rewrite limb_base_val in *. zdm. }
    destruct (add_back_spec ADD_BACK_FUEL low w1 (u64 (hi - r)) rest tabb q (zlen low)) as (w' & k & Hab & Hw' & Hl' & Hv' & Hlt);
      [done|done|lia|done|apply limb_u64| |].
    { rewrite Ha. unfold ADD_BACK_FUEL. lia. }
    rewrite Ha in Hv'. pose proof (mpz_range w' Hw') as Hr'.
    assert (Hqk : V = (q - k) * mpz tabb + mpz w') by lia.
    assert (Hqk' : is_limb (q - k)).
    { assert (HV0 : 0 <= V).
      { pose proof (bpow_pos bl). unfold V, is_limb in *. apply Z.add_nonneg_nonneg; [lia|]. apply Z.mul_nonneg_nonneg; rewrite ?limb_base_val; lia. }
      clearbody V. clear - Hqk Hr' Hlt Hb0 HV HV0. unfold is_limb. nia. }
    exists w', (q - k). split_and!; [done..|lia|done|]. intros i tabq taba Hi Ht. rewrite (Hrun i tabq taba Hi Ht).
    assert ((hi <? u64 (hi - r)) = true) as -> by (apply Z.ltb_lt; rewrite Ha; unfold is_limb in *; lia).
    rewrite Hab. cbn [mbind option_bind]. by rewrite u64_limb.
  - assert (Hd : hi - r = 0) by nia. exists w1, q. split_and!; [done..|lia|lia|lia|]. intros i tabq taba Hi Ht.
    rewrite (Hrun i tabq taba Hi Ht), Hd. change (u64 0) with 0. unfold is_limb in Hhi.
    rewrite (proj2 (Z.ltb_ge hi 0)) by lia. done.
Qed.

Lemma split_last2 {A} (l : list A) n :
  length l = S (S n) -> exists l0 x y, l = l0 ++ [x; y] /\ length l0 = n.
Proof.
  intros Hl. destruct (nil_or_length_pos l) as [->|Hne]; [done|].
  destruct (@exists_last _ l) as (l1 & y & ->); [by destruct l|]. rewrite length_app in Hl. simpl in Hl.
  destruct (@exists_last _ l1) as (l0 & x & ->); [by destruct l1|]. rewrite length_app in Hl. simpl in Hl.
  exists l0, x, y. rewrite <- app_assoc. split; [done|lia].
Qed.

Lemma divnorm_loop_spec tabb bl b1 b1_inv i low w rest tabq :
  norm_divisor tabb bl b1 -> (b1_inv = 0 \/ b1_inv = udiv1norm_init b1) ->
  limbs low -> limbs w -> length low = i -> length w = length tabb -> mpz w < mpz tabb -> (i <= length tabq)%nat ->
  exists q w' rest', divnorm_loop i tabq (low ++ w ++ rest) tabb b1 b1_inv = Some (q ++ drop i tabq, w' ++ rest') /\
    limbs q /\ length q = i /\ limbs w' /\ length w' = length tabb /\ length rest' = (i + length rest)%nat /\
    mpz low + bpow low * mpz w = mpz q * mpz tabb + mpz w' /\ mpz w' < mpz tabb.
Proof.
  intros Hb Hinv. revert low w rest tabq.
  induction i as [|i IH]; intros low w rest tabq Hlow Hw Hl Hlw Hlt Hq.
  { destruct low; [|done]. exists [], w, rest. cbn [divnorm_loop app drop]. rewrite drop_0.
    split_and!; [done|constructor|done|done|done|done|rewrite bpow_nil; cbn; lia|done]. }
  destruct (@exists_last _ low) as (low' & x & ->); [by destruct low|]. rewrite length_app in Hl. simpl in Hl.
  apply Forall_app in Hlow as [Hlow Hx]. apply Forall_cons in Hx as [Hx _].
  pose proof (norm_divisor_value _ _ _ Hb) as (Hbv & HbP & Hb2 & Hb0).
  assert (Hlb : length tabb = S (length bl)) by (rewrite (proj1 Hb), length_app; simpl; lia).
  destruct (split_last2 (x :: w) (length bl)) as (vl & lo & hi & Hxw & Hlv); [simpl; lia|].
  assert (Hxl : limbs (vl ++ [lo; hi])) by (rewrite <- Hxw; by constructor).
  apply Forall_app in Hxl as [Hvl Hlh]. apply Forall_cons in Hlh as [Hlo Hhi]. apply Forall_cons in Hhi as [Hhi _].
  assert (HV : mpz vl + bpow bl * (lo + LIMB_BASE * hi) = x + LIMB_BASE * mpz w).
  { rewrite <- mpz_cons, Hxw, mpz_app, !mpz_cons, (bpow_length vl bl Hlv). cbn [mpz foldr]. lia. }
  destruct (digit_step low' vl lo hi rest tabb bl b1 b1_inv) as (w1 & q & Hql & Hw1 & Hl1 & He & Hlt1 & Hstep);
    [done..|rewrite HV; unfold is_limb in *; nia|].
  rewrite (Hstep i tabq); [|lia|].
  2:{ rewrite <- app_assoc. f_equal. change ([x] ++ w ++ rest) with ((x :: w) ++ rest). by rewrite Hxw, <- app_assoc. }
  destruct (lookup_lt_is_Some_2 tabq i) as [y Hy]; [lia|].
  rewrite zset_in_range by (unfold zlen; lia). cbn [mbind option_bind]. rewrite Nat2Z.id.
  destruct (IH low' w1 (0 :: rest) (<[i := q]> tabq)) as (qs & w' & rest' & -> & Hqs & Hlq & Hw' & Hl' & Hlr & Hv & Hlt');
    [done|done|lia|done|done|rewrite length_insert; lia|].
  exists (qs ++ [q]), w', rest'. split_and!; [|by apply Forall_app; split; [|constructor]|rewrite length_app; simpl; lia
    |done|done|simpl in Hlr; lia| |done].
  - rewrite (drop_S _ q i), drop_insert_lt by (lia || apply list_lookup_insert_eq; lia). by rewrite <- app_assoc.
  - rewrite !mpz_app, bpow_app, bpow_cons, bpow_nil, !mpz_cons. cbn [mpz foldr].
    rewrite (bpow_length qs low') by lia. rewrite HV in He. nia.
Qed.

Lemma first_q_spec ra rb :
  limbs ra -> limbs rb -> length ra = length rb ->
  first_q ra rb = Some (if mpz (rev rb) <=? mpz (rev ra) then 1 else 0).
Proof.
  intros Ha. revert rb. induction Ha as [|a ra Ha Hra IH]; intros [|b rb] Hb Hl; try done.
  apply Forall_cons in Hb as [Hb Hrb]. simpl in Hl. cbn [first_q rev]. rewrite !mpz_app, !mpz_cons. cbn [mpz foldr].
  fold (mpz (rev ra)). fold (mpz (rev rb)).
  rewrite (bpow_length (rev rb) (rev ra)) by (rewrite !length_rev; lia).
  pose proof (mpz_range (rev ra) ltac:(by apply Forall_rev)) as H1.
  pose proof (mpz_range (rev rb) ltac:(by apply Forall_rev)) as H2.
  rewrite (bpow_length (rev rb) (rev ra)) in H2 by (rewrite !length_rev; lia).
  set (P := bpow (rev ra)) in *. unfold is_limb in *.
  destruct (Z.eqb_spec a b) as [<-|Hne].
  - rewrite IH by (done || lia). f_equal. repeat case_match; bool_props; done || lia.
  - f_equal. destruct (Z.ltb_spec a b).
    + assert (P * (a + 1) <= P * b) by (apply Z.mul_le_mono_nonneg_l; lia). case_match; bool_props; [lia|done].
    + assert (P * (b + 1) <= P * a) by (apply Z.mul_le_mono_nonneg_l; lia). case_match; bool_props; [done|lia].
Qed.

(** What a division leaves: the quotient, and the remainder in the low limbs of the
    dividend. *)
Record divides (nq : nat) (taba tabb q a : list Z) : Prop := {
  dv_q : limbs q;
  dv_nq : length q = nq;
  dv_a : length a = length taba;
  dv_rem : limbs (take (length tabb) a);
  dv_value : mpz taba = mpz q * mpz tabb + mpz (take (length tabb) a);
  dv_less : mpz (take (length tabb) a) < mpz tabb }.

Lemma divnorm_base_spec tabq taba tabb bl b1 :
  norm_divisor tabb bl b1 -> limbs taba -> (length tabb <= length taba)%nat ->
  length tabq = S (length taba - length tabb) ->
  exists q a, divnorm_base tabq taba tabb = Some (q, a) /\ divides (length tabq) taba tabb q a.
Proof.
  intros Hb Ha Hle Hlq. pose proof (norm_divisor_limbs _ _ _ Hb) as Hbl.
  destruct (norm_divisor_value _ _ _ Hb) as (Hbv & HbP & Hb2 & Hb0).
  set (n := (length taba - length tabb)%nat) in *.
  assert (Hn : zlen taba - zlen tabb = Z.of_nat n) by (unfold zlen, n; lia).
  unfold divnorm_base. rewrite Hn.
  assert (Hb1 : zget tabb (zlen tabb - 1) = Some b1).
  { rewrite (proj1 Hb) at 1. apply zget_mid. rewrite (proj1 Hb). unfold zlen. rewrite length_app. simpl. lia. }
  rewrite Hb1. cbn [mbind option_bind]. rewrite zslice_in_range by (unfold zlen, n; lia).
  cbn [mbind option_bind]. rewrite !Nat2Z.id. set (low := take n taba). set (w := drop n taba).
  assert (Hw : take (Z.to_nat (zlen tabb)) w = w).
  { apply take_ge. unfold w, zlen. rewrite length_drop, Nat2Z.id. unfold n. lia. }
  rewrite Hw. assert (Htaba : taba = low ++ w) by (symmetry; apply take_drop).
  assert (Hlow : limbs low /\ limbs w) by (rewrite <- Forall_app, <- Htaba; done). destruct Hlow as [Hlow Hwl].
  assert (Hlw : length w = length tabb) by (unfold w; rewrite length_drop; unfold n; lia).
  assert (Hll : length low = n) by (unfold low; rewrite length_take; lia).
  rewrite first_q_spec; [|by apply Forall_rev|by apply Forall_rev|by rewrite !length_rev]. rewrite !rev_involutive.
  cbn [mbind option_bind]. rewrite zset_in_range by (unfold zlen; lia). cbn [mbind option_bind]. rewrite Nat2Z.id.
  set (inv := if UDIV1NORM_THRESHOLD <=? Z.of_nat n then udiv1norm_init b1 else 0).
  assert (Hinv : inv = 0 \/ inv = udiv1norm_init b1) by (unfold inv; case_match; auto).
  assert (Hfirst : exists w' q, is_limb q /\ limbs w' /\ length w' = length tabb /\ mpz w = q * mpz tabb + mpz w' /\ mpz w' < mpz tabb /\
    (if mpz tabb <=? mpz w then 1 else 0) = q /\
    (if negb (q =? 0) then in_place taba (Z.of_nat n) (zlen tabb) (fun t => mp_sub t tabb 0) else Some (taba, 0)) =
      Some (low ++ w', 0)).
  { pose proof (mpz_range w Hwl) as Hr. rewrite (bpow_length w tabb Hlw) in Hr.
    destruct (Z.leb_spec (mpz tabb) (mpz w)).
    - destruct (mp_sub_spec w tabb 0 Hwl Hbl Hlw) as (w' & k & Hs & [Hl' Hw' Hv'] & Hk); [lia|].
      pose proof (mpz_range w' Hw') as Hr'. rewrite (bpow_length w' tabb) in Hr' by lia.
      rewrite (bpow_length w tabb Hlw) in Hv'. assert (k = 0) as -> by nia.
      exists w', 1. split; [split; [lia|]; rewrite limb_base_val; lia|]. split; [done|]. split; [lia|].
      split; [lia|]. split; [lia|]. split; [done|]. cbn [negb Z.eqb]. rewrite Htaba, <- (app_nil_r w), <- (app_nil_r w').
      rewrite (in_place_app low w [] _ _ _ w' 0); [by rewrite ?app_nil_r|unfold zlen; lia|unfold zlen; lia|done|lia].
    - exists w, 0. split; [split; [lia|]; rewrite limb_base_val; lia|]. split_and!; try done; try lia. cbn [negb Z.eqb]. by rewrite <- Htaba. }
  destruct Hfirst as (w' & q & Hq & Hw' & Hlw' & Hwv & Hlt & -> & ->). cbn [mbind option_bind].
  rewrite <- (app_nil_r w').
  destruct (divnorm_loop_spec tabb bl b1 inv n low w' [] (<[n := q]> tabq)) as (qs & r & rest & -> & Hqs & Hlqs & Hr & Hlr & Hlrest & Hv & Hlt');
    [done..|rewrite length_insert; lia|].
  assert (Hd : drop n (<[n := q]> tabq) = [q]).
  { rewrite drop_insert_ge, Nat.sub_diag by lia. assert (length (drop n tabq) = 1%nat) by (rewrite length_drop; lia).
    destruct (drop n tabq) as [|x [|]]; done. }
  rewrite Hd. eexists _, _. split; [done|].
  assert (Ht : take (length tabb) (r ++ rest) = r) by (apply take_app_length'; lia).
  split; rewrite ?Ht; try done.
  - by apply Forall_app; split; [|constructor].
  - rewrite length_app. simpl. lia.
  - rewrite length_app. simpl in Hlrest. unfold n in *. lia.
  - rewrite Htaba, !mpz_app, mpz_cons. cbn [mpz foldr]. fold (mpz low) (mpz w) (mpz qs) (mpz tabb) (mpz r).
    rewrite (bpow_length qs low) by lia. rewrite Hwv. lia.
Qed.

(** ** The product used by the fast routines *)

Section Fast.
Context `{!Allocator} `{F : !FftMul} {Fok : FftMulOk}.

(** The result of a routine that can run out of memory. *)
Definition or_refused {R} (m : option (aopaque * option R)) (P : R -> Prop) : Prop :=
  exists o r, m = Some (o, r) /\ match r with Some x => P x | None => alloc_refuses end.

Definition is_product (op1 op2 res : list Z) : Prop :=
  limbs res /\ length res = (length op1 + length op2)%nat /\ mpz res = mpz op1 * mpz op2.

Lemma mp_mul_spec o result op1 op2 :
  limbs op1 -> limbs op2 -> op2 <> [] -> length result = (length op1 + length op2)%nat ->
  or_refused (mp_mul o result op1 op2) (is_product op1 op2).
Proof.
  intros H1 H2 Hne Hl. unfold mp_mul. destruct (_ <=? _).
  - destruct (fft_mul o op1 op2) as [o' r] eqn:He. pose proof (fft_mul_ok _ _ _ _ _ H1 H2 He) as Hr.
    destruct r as [r|]; [|by eexists _, _]. destruct Hr as (Hr & Hlr & Hv).
    rewrite zsplice_all by lia. cbn [mbind option_bind]. eexists _, _. split; [done|]. by split_and!.
  - destruct (mp_mul_basecase_spec result op1 op2 H1 H2 Hne Hl) as (res & -> & Hr & Hlr & Hv).
    cbn [mbind option_bind]. eexists _, _. split; [done|]. by split_and!.
Qed.

Lemma bf_malloc_spec o n :
  0 <= n ->
  (exists o' l, bf_malloc o n = (o', Some l) /\ zlen l = n) \/ (exists o', bf_malloc o n = (o', None) /\ alloc_refuses).
Proof.
  intros Hn. unfold bf_malloc. destruct (realloc_func o (8 * n)) as [o' [fill|]] eqn:He.
  - left. eexists _, _. split; [done|]. unfold zlen. rewrite length_map, length_seq. lia.
  - right. exists o'. split; [done|]. by eexists _, _, _.
Qed.
End Fast.
