(* ===== verification/BfRecip.v ===== *)
(** The fast division of [libbf.c] is exact: the Newton iteration of [mp_recip] gives an
    inverse that is at most two too small, the quotient that [mp_divnorm_large] takes from it is at most
    ten too small, and its last loop corrects it. *)

From S2P Require Import Prelude CutilsH DynBuf BfLimbs BfDiv.

(** ** Newton's step for the inverse *)

(** [Pl], [Ph], [K] stand for [B^l], [B^h], [B^(2h-l)]. *)
Lemma recip_step B Pl Ph K A X T Tm tm F u :
  8 <= B -> 0 < Pl -> B * Pl <= Ph -> K * Pl = Ph * Ph -> Pl * Ph <= 2 * A -> A < Pl * Ph -> 0 <= X ->
  T = Pl * Ph * Ph - A * X -> 0 < T <= 2 * A -> T = Pl * Tm + tm -> 0 <= tm < Pl -> Tm * X = K * F + u -> 0 <= u < K ->
  A * (X * Pl + F) < (Pl * Ph) * (Pl * Ph) < A * (X * Pl + F + 2).
Proof.
  intros HB HPl HPh HK HA1 HA2 HX HT HT2 HdT HmT HdU HmU.
  assert (HPhp : 0 < Ph) by nia. assert (HKp : 0 < K) by nia.
  set (E := T * Pl - A * F).
  assert (HE : (Pl * Ph) * (Pl * Ph) - A * (X * Pl + F) = E) by (unfold E; rewrite HT; ring).
  (* the error, scaled by [Pl * K] *)
  assert (HEs : Pl * K * E = T * T + A * (X * tm + Pl * u)).
  { assert (HPK : Pl * K * (T * Pl) = T * (Pl * Ph * Ph)) by (rewrite (Z.mul_comm K) in HK; nia).
    assert (HF : Pl * (K * F) = T * X - tm * X - Pl * u).
    { assert (Hu : K * F = Tm * X - u) by lia. rewrite Hu. assert (Ht : Pl * Tm = T - tm) by lia.
      transitivity (Pl * Tm * X - Pl * u); [ring|]. rewrite Ht. ring. }
    unfold E. transitivity (Pl * K * (T * Pl) - A * (Pl * (K * F))); [ring|]. rewrite HPK, HF.
    replace (Pl * Ph * Ph) with (T + A * X) by lia. ring. }
  assert (Hpos : 0 < Pl * K * E).
  { rewrite HEs. assert (0 <= A * (X * tm + Pl * u)) by (apply Z.mul_nonneg_nonneg; [nia|]; apply Z.add_nonneg_nonneg; apply Z.mul_nonneg_nonneg; lia).
    assert (0 < T * T) by (apply Z.mul_pos_pos; lia). lia. }
  assert (HPK : 0 < Pl * K) by (apply Z.mul_pos_pos; lia).
  assert (H0 : 0 < E) by (apply (Z.mul_pos_cancel_l (Pl * K)); lia).
  assert (Hup : Pl * K * E < Pl * K * (2 * A)).
  { rewrite HEs.
    assert (HT1 : B * (T * T) <= 4 * (A * (Ph * Ph))).
    { assert (T * T <= (2 * A) * (2 * A)) by (apply Z.mul_le_mono_nonneg; lia).
      assert (A * (B * A) <= A * (Ph * Ph)) by (apply Z.mul_le_mono_nonneg_l; [nia|]; nia). nia. }
    assert (HX1 : B * (A * (X * tm)) <= 2 * (A * (Ph * Ph))).
    { assert (A * X <= Pl * Ph * Ph) by lia. assert (HAX : A * X * tm <= Pl * Ph * Ph * Pl) by (apply Z.mul_le_mono_nonneg; nia).
      assert (Pl * Ph * (Ph * (B * Pl)) <= 2 * A * (Ph * Ph)) by (apply Z.mul_le_mono_nonneg; nia). nia. }
    assert (Hu1 : A * (Pl * u) <= A * (Pl * K)) by (apply Z.mul_le_mono_nonneg_l; [nia|]; apply Z.mul_le_mono_nonneg_l; lia).
    assert (HPP : Pl * K = Ph * Ph) by lia. rewrite HPP in *.
    assert (0 < A * (Ph * Ph)) by (apply Z.mul_pos_pos; nia). nia. }
  assert (E < 2 * A) by (apply (Z.mul_lt_mono_pos_l (Pl * K)); lia). lia.
Qed.

(** A number below [B^k] has zero limbs above [k], and only then. *)
Lemma top_limb_zero l x : limbs l -> is_limb x -> (x = 0 <-> mpz (l ++ [x]) < bpow l).
Proof.
  intros Hl Hx. pose proof (mpz_range l Hl). rewrite mpz_app, mpz_cons. cbn [mpz foldr]. fold (mpz l).
  unfold is_limb in Hx. split; [intros ->; lia|]. intros. pose proof (bpow_pos l). nia.
Qed.

Lemma recip_fix_spec fuel tabt tabxh taba :
  limbs tabt -> limbs tabxh -> limbs taba -> tabxh <> [] -> taba <> [] ->
  length tabt = (length taba + length tabxh)%nat -> mpz tabt = mpz taba * mpz tabxh -> 0 < mpz taba -> (1 <= fuel)%nat ->
  mpz tabt < LIMB_BASE ^ (zlen taba + zlen tabxh - 1) + (Z.of_nat fuel - 1) * mpz taba ->
  exists t xh, recip_fix fuel tabt tabxh taba (zlen taba + zlen tabxh - 1) = Some (t, xh) /\
    limbs t /\ limbs xh /\ length t = length tabt /\ length xh = length tabxh /\ mpz t = mpz taba * mpz xh /\
    mpz t < LIMB_BASE ^ (zlen taba + zlen tabxh - 1) /\
    (xh = tabxh \/ LIMB_BASE ^ (zlen taba + zlen tabxh - 1) <= mpz taba * (mpz xh + 1)).
Proof.
  intros Ht Hx Ha Hxn Han. set (top := zlen taba + zlen tabxh - 1). set (M := LIMB_BASE ^ top).
  assert (Htop : 0 <= top) by (unfold top, zlen; destruct tabxh, taba; simpl; lia || done).
  assert (HM : 0 < M) by (by apply base_pow_pos).
  revert tabt tabxh Ht Hx Hxn top M Htop HM. induction fuel as [|fuel IH];
    intros tabt tabxh Ht Hx Hxn top M Htop HM Hl Hv HA Hf Hlt; cbn [recip_fix].
  { lia. }
  destruct (@exists_last _ tabt) as (t0 & x & Htt); [destruct tabt, taba; simpl in *; done|].
  assert (Htopl : top = zlen t0).
  { unfold top, zlen. rewrite Htt, length_app in Hl. simpl in Hl. destruct tabxh; [done|]. simpl in *. lia. }
  rewrite Htt in Ht. apply Forall_app in Ht as [Ht0 Hxl]. apply Forall_cons in Hxl as [Hxl _].
  rewrite Htt, zget_mid by done. cbn [mbind option_bind]. pose proof (top_limb_zero t0 x Ht0 Hxl) as Htz.
  assert (HMt : bpow t0 = M) by (unfold M, bpow; by rewrite Htopl). rewrite HMt in Htz.
  destruct (Z.eqb_spec x 0) as [Hx0|Hx0].
  { eexists _, _. split; [done|]. rewrite <- Htt. split; [rewrite Htt; apply Forall_app; split; [done|by constructor]|].
    split_and!; try done; [|by left]. rewrite Htt. tauto. }
  assert (Hge : M <= mpz tabt) by (rewrite Htt; lia). clear Htz. rewrite <- Htt.
  assert (Ht : limbs tabt) by (rewrite Htt; apply Forall_app; split; [done|by constructor]).
  assert (HX1 : 1 <= mpz tabxh) by (pose proof (mpz_range tabxh Hx); nia).
  destruct (mp_sub_ui_spec tabxh 1 Hx) as (xh1 & kx & -> & [Hlx Hxh1 Hvx] & Hkx & _); [split; [lia|]; rewrite limb_base_val; lia|].
  assert (kx = 0) as ->.
  { pose proof (mpz_range xh1 Hxh1). rewrite (bpow_length xh1 tabxh Hlx) in *. pose proof (bpow_pos tabxh). unfold is_limb in Hkx. nia. }
  set (t1 := take (length taba) tabt). set (t2 := drop (length taba) tabt).
  assert (Htd : tabt = t1 ++ t2) by (symmetry; apply take_drop).
  assert (Hl1 : length t1 = length taba) by (unfold t1; rewrite length_take; lia).
  assert (Hl2 : length t2 = length tabxh) by (unfold t2; rewrite length_drop; lia).
  assert (limbs t1 /\ limbs t2) as [Ht1 Ht2] by (by rewrite <- Forall_app, <- Htd).
  destruct (mp_sub_spec t1 taba 0 Ht1 Ha Hl1) as (t1' & c & Hs1 & [Hl1' Ht1' Hv1] & Hc); [lia|].
  destruct (mp_sub_ui_spec t2 c Ht2) as (t2' & k & Hs2 & [Hl2' Ht2' Hv2] & Hk & Hk1); [unfold is_limb; rewrite limb_base_val; lia|].
  clearbody t1 t2.
  assert (Hip : in_place tabt 0 (zlen taba) (fun t => mp_sub t taba 0) = Some (t1' ++ t2, c)).
  { rewrite Htd. apply (in_place_app []); [done|unfold zlen; lia|done|lia]. }
  rewrite Hip. cbn [mbind option_bind].
  pose proof (in_place_app t1' t2 [] (zlen taba) (top - zlen taba + 1) (fun t => Some (mp_sub_ui t c)) t2' k) as Hip2.
  rewrite !app_nil_r in Hip2. rewrite Hip2; [|unfold zlen; lia|unfold top, zlen; lia|by rewrite Hs2|lia].
  cbn [mbind option_bind].
  assert (HV : mpz (t1' ++ t2') = mpz tabt - mpz taba).
  { rewrite Htd, !mpz_app. rewrite (bpow_length t1' t1) by lia.
    pose proof (mpz_range (t1' ++ t2') ltac:(by apply Forall_app)) as Hr. rewrite mpz_app, bpow_app in Hr.
    rewrite (bpow_length t1' t1), (bpow_length t2' t2) in Hr by lia.
    assert (0 <= mpz tabt - mpz taba) by nia. rewrite Htd, mpz_app in *.
    pose proof (bpow_pos t1). pose proof (bpow_pos t2). unfold is_limb in Hk. 
    assert (k = 0 \/ 1 <= k) as [->|Hk2] by lia; [nia|exfalso].
    assert (bpow t1 * bpow t2 <= bpow t1 * bpow t2 * k) by nia. nia. }
  assert (Hzl : zlen taba + zlen xh1 - 1 = top) by (unfold top, zlen; lia).
  destruct (IH (t1' ++ t2') xh1) as (t & xh & Hrun & HR1 & HR2 & HR3 & HR4 & HR5 & HR6 & HR7);
    [by apply Forall_app|done|destruct tabxh, xh1; done|by rewrite Hzl|rewrite Hzl; exact HM|rewrite length_app; lia|rewrite HV; nia|done|nia|rewrite Hzl; fold M; lia|].
  rewrite Hzl in *. fold M in HR6, HR7. exists t, xh. split; [done|]. split_and!; try done.
  - rewrite HR3, length_app. lia.
  - lia.
  - right. destruct HR7 as [->|HR7]; [|done]. replace (mpz xh1 + 1) with (mpz tabxh) by lia. lia.
Qed.

Section Recip.
Context `{!Allocator} `{F : !FftMul} {Fok : FftMulOk}.

(** The two ways of dividing that do not need the inverse. *)
Lemma mp_divnorm_with_spec large o tabq taba tabb bl b1 :
  norm_divisor tabb bl b1 -> limbs taba -> (length tabb <= length taba)%nat ->
  length tabq = S (length taba - length tabb) ->
  (DIVNORM_LARGE_THRESHOLD <= bf_min (zlen taba - zlen tabb) (zlen tabb) ->
    or_refused (large o tabq taba tabb) (fun '(q, a) => divides (length tabq) taba tabb q a)) ->
  or_refused (mp_divnorm_with large o tabq taba tabb) (fun '(q, a) => divides (length tabq) taba tabb q a).
Proof.
  intros Hb Ha Hle Hlq Hlarge. unfold mp_divnorm_with.
  assert (Hb1 : zget tabb (zlen tabb - 1) = Some b1).
  { rewrite (proj1 Hb) at 1. apply zget_mid. rewrite (proj1 Hb). unfold zlen. rewrite length_app. simpl. lia. }
  rewrite Hb1. cbn [mbind option_bind]. destruct (Z.eqb_spec (zlen tabb) 1) as [H1|H1].
  - destruct Hb as (Htab & Hbl & Hn). assert (bl = []) as ->.
    { rewrite Htab in H1. unfold zlen in H1. rewrite length_app in H1. simpl in H1. destruct bl; [done|simpl in *; lia]. }
    cbn [app] in Htab. subst tabb. simpl in Hlq, Hle.
    destruct (mp_div1norm taba b1 0) as [q r] eqn:Hd.
    destruct (mp_div1norm_spec taba b1 0 Ha Hn) as (Hq & Hl & Hv & Hr); [unfold norm_limb in Hn; rewrite limb_base_val in Hn; lia|].
    rewrite Hd in *. cbn [fst snd] in *. pose proof (in_place_app [] tabq [] 0 (zlen taba) (fun _ => Some (q, r)) q r) as Hip.
    cbn [app] in Hip. rewrite !app_nil_r in Hip. rewrite Hip by (done || unfold zlen; lia). cbn [mbind option_bind].
    destruct taba as [|a0 taba]; [simpl in Hle; lia|]. rewrite zset_in_range by zlen_lia. cbn [mbind option_bind].
    eexists _, _. split; [done|]. change (Z.to_nat 0) with 0%nat. cbn [insert list_insert].
    assert (Hrl : is_limb r) by (destruct Hn; split; lia).
    split; cbn [length take]; try done.
    + simpl in *. lia.
    + by constructor.
    + rewrite take_0. change (mpz [b1]) with (b1 + LIMB_BASE * 0). change (mpz [r]) with (r + LIMB_BASE * 0). lia.
    + rewrite take_0. change (mpz [b1]) with (b1 + LIMB_BASE * 0). change (mpz [r]) with (r + LIMB_BASE * 0). lia.
  - destruct (Z.leb_spec DIVNORM_LARGE_THRESHOLD (bf_min (zlen taba - zlen tabb) (zlen tabb))) as [Hlg|_]; [by apply Hlarge|].
    destruct (divnorm_base_spec tabq taba tabb bl b1 Hb Ha Hle Hlq) as (q & a & -> & Hd). cbn [mbind option_bind].
    eexists _, _. by split.
Qed.

(** What [mp_recip] promises. *)
Definition recip_of (A R : list Z) : Prop :=
  limbs R /\ length R = S (length A) /\ bpow A <= mpz R /\
  mpz A * mpz R < bpow A * bpow A < mpz A * (mpz R + 2).

Lemma recip_small fuel o tabr taba bl b1 :
  norm_divisor taba bl b1 -> zlen taba <= 2 -> length tabr = S (length taba) ->
  or_refused (mp_recip (S fuel) o tabr taba) (recip_of taba).
Proof.
  intros Hb Hn Hlr. pose proof (norm_divisor_limbs _ _ _ Hb) as Ha.
  destruct (norm_divisor_value _ _ _ Hb) as (_ & _ & Hb2 & Hb0). cbn [mp_recip].
  rewrite (proj2 (Z.leb_le _ _) Hn). pose proof (zlen_nonneg taba) as Hzn.
  destruct (bf_malloc_spec o (2 * zlen taba + 1)) as [(o1 & u & -> & Hu)|(o1 & -> & Href)]; [lia| |].
  2:{ destruct (bf_malloc o1 _) as [o2 tabt]. destruct tabt; eexists _, _; by split. }
  destruct (bf_malloc_spec o1 (zlen taba + 2)) as [(o2 & t & -> & Ht)|(o2 & -> & Href)]; [lia| |eexists _, _; by split].
  set (n := length taba) in *. assert (Hzl : zlen taba = Z.of_nat n) by done.
  assert (Hu1 : zsplice u 0 (replicate (Z.to_nat (2 * zlen taba)) 0) = Some (replicate (2 * n) 0 ++ drop (2 * n) u)).
  { replace (Z.to_nat (2 * zlen taba)) with (2 * n)%nat by lia.
    rewrite zsplice_in_range; [|lia|rewrite zlen_replicate; lia]. by rewrite length_replicate. }
  rewrite Hu1. cbn [mbind option_bind].
  destruct (drop (2 * n) u) as [|y rest] eqn:Hdu.
  { apply (f_equal length) in Hdu. rewrite length_drop in Hdu. unfold zlen in Hu. simpl in Hdu. lia. }
  assert (rest = []) as ->.
  { apply (f_equal length) in Hdu. rewrite length_drop in Hdu. unfold zlen in Hu. simpl in Hdu. destruct rest; [done|simpl in *; lia]. }
  rewrite zset_mid by (rewrite zlen_replicate; lia). cbn [mbind option_bind].
  set (u1 := replicate (2 * n) 0 ++ [1]).
  assert (Hu1l : limbs u1) by (apply Forall_app; split; [apply limbs_zeros|by constructor; [apply limb_1|]]).
  assert (Hlu1 : length u1 = S (2 * n)) by (unfold u1; rewrite length_app, length_replicate; simpl; lia).
  assert (Hvu1 : mpz u1 = bpow taba * bpow taba).
  { unfold u1. rewrite mpz_app, mpz_zeros, mpz_cons. cbn [mpz foldr]. unfold bpow. rewrite zlen_replicate, <- Z.pow_add_r by lia.
    rewrite Hzl. replace (Z.of_nat n + Z.of_nat n) with (Z.of_nat (2 * n)) by lia. lia. }
  destruct (mp_divnorm_with_spec (fun _ _ _ _ => None) o2 t u1 taba bl b1) as (o3 & res & -> & Hres);
    [done|done|lia|unfold zlen in Ht; lia| |].
  { intros Hlg. exfalso. unfold DIVNORM_LARGE_THRESHOLD, bf_min in Hlg. case_match; bool_props; lia. }
  cbn [mbind option_bind]. destruct res as [[q a]|]; [|eexists _, _; by split].
  destruct Hres as [Hq Hlq Hla Hrem Hval Hless]. fold n in Hrem, Hval, Hless.
  pose proof (mpz_range _ Hrem) as Hr0. set (r := take n a) in *. pose proof (mpz_range q Hq) as Hq0.
  assert (Hqb : mpz q <= 2 * bpow taba) by (rewrite Hvu1 in Hval; nia).
  assert (Hqt : mpz (take (n + 1) q) = mpz q).
  { rewrite (proj1 (mpz_take_drop q (n + 1) Hq ltac:(unfold zlen in Ht; lia))). apply Z.mod_small. split; [lia|].
    rewrite Nat2Z.inj_add, base_pow_add by lia. change (LIMB_BASE ^ Z.of_nat n) with (bpow taba).
    change (LIMB_BASE ^ Z.of_nat 1) with LIMB_BASE. pose proof (bpow_pos taba). rewrite limb_base_val. lia. }
  rewrite (zslice_in_range q 0) by (unfold zlen in *; lia). cbn [mbind option_bind]. rewrite drop_0.
  replace (Z.to_nat (zlen taba + 1)) with (n + 1)%nat by lia.
  assert (Hlt : length (take (n + 1) q) = (n + 1)%nat) by (rewrite length_take; unfold zlen in Ht; lia).
  rewrite zsplice_all by lia. cbn [mbind option_bind].
  rewrite (zslice_in_range a 0) by (unfold zlen in *; lia). cbn [mbind option_bind]. rewrite drop_0, Hzl, Nat2Z.id. fold r.
  rewrite mp_scan_nz_spec by done.
  assert (Htl : limbs (take (n + 1) q)) by (by apply Forall_take).
  assert (HPA : mpz taba * bpow taba < bpow taba * bpow taba) by (apply Z.mul_lt_mono_pos_r; lia).
  destruct (Z.eqb_spec (mpz r) 0) as [Hz|Hnz]; cbn [negb b2z Z.eqb].
  - destruct (mp_sub_ui_spec (take (n + 1) q) 1 Htl) as (q' & k & Hs & [Hlq' Hq' Hv'] & Hk & _); [split; [lia|]; rewrite limb_base_val; lia|].
    pose proof (in_place_app [] (take (n + 1) q) [] 0 (Z.of_nat n + 1) (fun t => Some (mp_sub_ui t 1)) q' k) as Hip.
    cbn [app] in Hip. rewrite !app_nil_r in Hip. rewrite Hip; [|done|unfold zlen; lia|by rewrite Hs|lia]. cbn [mbind option_bind].
    eexists _, _. split; [done|]. pose proof (mpz_range q' Hq') as Hr'. rewrite (bpow_length q' (take (n + 1) q)) in Hr' by lia.
    assert (mpz q > 0) by nia. assert (k = 0) as -> by (unfold is_limb in Hk; nia).
    rewrite Hqt in *. split; [done|]. split; [lia|]. rewrite Hvu1 in Hval. nia.
  - cbn [mbind option_bind]. eexists _, _. split; [done|]. split; [done|]. split; [lia|]. rewrite Hqt. rewrite Hvu1 in Hval. nia.
Qed.
End Recip.

(** [T = B^(n+h) - T], computed as a negation and an increment of the highest limb. *)
Lemma recip_negate m t :
  0 <= m -> limbs t -> zlen t = m + 1 -> 0 < mpz t < LIMB_BASE ^ m ->
  exists t' k v t2, mp_neg t 0 = (t', k) /\ zget t' m = Some v /\ zset t' m (u64 (v + 1)) = Some t2 /\
    limbs t2 /\ zlen t2 = m + 1 /\ mpz t2 = LIMB_BASE ^ m - mpz t.
Proof.
  intros Hm0 Ht Hl Hv. destruct (mp_neg_spec t 0 Ht) as (t' & k & Hneg & [Hl' Ht' Hv'] & Hk); [lia|].
  destruct (@exists_last _ t') as (t0 & v & ->); [destruct t'; [unfold zlen in Hl; simpl in *; lia|done]|].
  rewrite length_app in Hl'. simpl in Hl'. assert (Hm : m = zlen t0) by (unfold zlen in *; lia).
  apply Forall_app in Ht' as [Ht0 Hvl]. apply Forall_cons in Hvl as [Hvl _].
  exists (t0 ++ [v]), k, v, (t0 ++ [u64 (v + 1)]). split; [done|]. rewrite zget_mid, zset_mid by done.
  split; [done|]. split; [done|]. split; [apply Forall_app; split; [done|]; constructor; [apply limb_u64|done]|].
  split; [unfold zlen; rewrite length_app; simpl; unfold zlen in *; lia|].
  rewrite mpz_app, mpz_cons in *. cbn [mpz foldr] in *. fold (mpz t0) in *. fold (mpz t) in *. rewrite Z.mul_0_r, Z.add_0_r in *.
  assert (HP : LIMB_BASE ^ m = bpow t0) by (unfold bpow; by rewrite Hm).
  assert (HPt : bpow t = LIMB_BASE * bpow t0).
  { unfold bpow. rewrite Hl, Hm, Z.add_comm, base_pow_add by (done || apply zlen_nonneg). lia. }
  rewrite HP in *. rewrite HPt in Hv'. pose proof (mpz_range t0 Ht0) as Hr0. unfold is_limb in Hvl.
  assert (k = 1) as ->.
  { destruct (Z.eq_dec k 0) as [->|]; [|lia]. assert (0 <= bpow t0 * v) by (apply Z.mul_nonneg_nonneg; lia). lia. }
  assert (v = LIMB_BASE - 1) as ->.
  { assert (bpow t0 * (LIMB_BASE - 2) < bpow t0 * v) by lia. apply Z.mul_lt_mono_pos_l in H; lia. }
  replace (LIMB_BASE - 1 + 1) with LIMB_BASE by lia. change (u64 LIMB_BASE) with 0. lia.
Qed.

(** The last part of [mp_recip]: add the correction to the high half. *)
Lemma recip_combine tabr xh u l h X Fv :
  limbs xh -> limbs u -> zlen xh = h + 1 -> zlen u = 3 * h + 2 -> zlen tabr = l + h + 1 -> 0 <= l <= h ->
  X = mpz xh -> Fv = mpz (drop (Z.to_nat (2 * h - l)) u) ->
  LIMB_BASE ^ h <= X -> X * LIMB_BASE ^ l + Fv < 2 * LIMB_BASE ^ (l + h) ->
  exists r1 low r2 high r3 k, zsplice tabr l xh = Some r1 /\ zslice u (2 * h - l) l = Some low /\
    zsplice r1 0 low = Some r2 /\ zslice u (2 * h) h = Some high /\
    in_place r2 l h (fun t => mp_add t high 0) = Some (r3, k) /\
    limbs r3 /\ zlen r3 = l + h + 1 /\ mpz r3 = X * LIMB_BASE ^ l + Fv.
Proof.
  intros Hxh Hu Hlx Hlu Hlr Hlh HX HFv HX1 Hlt.
  destruct (@exists_last _ xh) as (xl & xt & Hxe); [destruct xh; [unfold zlen in Hlx; simpl in *; lia|done]|].
  assert (Hxl : zlen xl = h) by (rewrite Hxe in Hlx; unfold zlen in *; rewrite length_app in Hlx; simpl in *; lia).
  set (ln := Z.to_nat l). set (hn := Z.to_nat h). set (kn := Z.to_nat (2 * h - l)).
  assert (El : Z.of_nat ln = l) by lia. assert (Eh : Z.of_nat hn = h) by lia. assert (Ek : Z.of_nat kn = 2 * h - l) by lia.
  assert (Tl : Z.to_nat l = ln) by done. assert (Th : Z.to_nat h = hn) by done. assert (Tk : Z.to_nat (2 * h - l) = kn) by done.
  rewrite Tk in HFv. clearbody ln hn kn.
  set (low := take ln (drop kn u)). set (high := take hn (drop ln (drop kn u))).
  assert (Hdu : limbs (drop kn u)) by (by apply Forall_drop).
  assert (Hkl : (ln + hn <= length u - kn)%nat) by (len_lia).
  assert (Hlow : length low = ln) by (unfold low; rewrite length_take, length_drop; clear - Hkl; lia).
  assert (Hhigh : length high = hn) by (unfold high; rewrite length_take, !length_drop; clear - Hkl; lia).
  assert (HPl : 0 < LIMB_BASE ^ l) by (apply base_pow_pos; lia). assert (HPh : 0 < LIMB_BASE ^ h) by (apply base_pow_pos; lia).
  rewrite base_pow_add in Hlt by lia.
  assert (HFlt : Fv < LIMB_BASE ^ l * LIMB_BASE ^ h) by nia.
  assert (HFparts : Fv = mpz low + LIMB_BASE ^ l * mpz high).
  { rewrite HFv in *. rewrite (mpz_parts (drop kn u) ln) at 1 by (rewrite length_drop; lia). fold low.
    replace (LIMB_BASE ^ Z.of_nat ln) with (LIMB_BASE ^ l) by (f_equal; len_lia). do 2 f_equal.
    unfold high. rewrite (proj1 (mpz_take_drop (drop ln (drop kn u)) hn ltac:(by apply Forall_drop) ltac:(rewrite !length_drop; lia))).
    symmetry. apply Z.mod_small. rewrite (proj2 (mpz_take_drop (drop kn u) ln Hdu ltac:(rewrite length_drop; lia))).
    replace (LIMB_BASE ^ Z.of_nat ln) with (LIMB_BASE ^ l) by (f_equal; len_lia).
    replace (LIMB_BASE ^ Z.of_nat hn) with (LIMB_BASE ^ h) by (f_equal; len_lia).
    pose proof (mpz_range (drop kn u) Hdu) as Hrd. clear - Hrd HFlt HPl. split; [apply Z.div_pos; lia|apply Z.div_lt_upper_bound; lia]. }
  rewrite Hxe in Hxh. apply Forall_app in Hxh as [Hxll Hxt]. apply Forall_cons in Hxt as [Hxt _].
  assert (Hhl : limbs high) by (unfold high; by apply Forall_take, Forall_drop, Forall_drop).
  assert (Hlowl : limbs low) by (unfold low; by apply Forall_take, Forall_drop).
  destruct (mp_add_spec xl high 0 Hxll Hhl) as (s & k & Hadd & [Hls Hs Hvs] & Hk); [len_lia|lia|].
  set (pre := take ln tabr).
  exists (pre ++ xh), low, (low ++ xh), high, (low ++ s ++ [xt]), k.
  assert (Hpre : length pre = ln) by (unfold pre; rewrite length_take; len_lia).
  split_and!.
  - rewrite zsplice_in_range by lia. rewrite Tl, drop_ge by (len_lia). by rewrite app_nil_r.
  - rewrite zslice_in_range by len_lia. by rewrite Tl, Tk.
  - pose proof (zsplice_app [] pre xh low) as Hz. cbn [app] in Hz. apply Hz. lia.
  - rewrite zslice_in_range by len_lia. unfold high. rewrite drop_drop, Th. repeat f_equal. lia.
  - rewrite Hxe. rewrite (in_place_app low xl [xt] _ _ _ s k); [done|len_lia|len_lia|done|lia].
  - apply Forall_app. split; [done|]. apply Forall_app. split; [done|by constructor].
  - unfold zlen in *. rewrite !length_app. simpl. lia.
  - assert (HPx : bpow xl = LIMB_BASE ^ h) by (unfold bpow; by rewrite Hxl).
    assert (HPlo : bpow low = LIMB_BASE ^ l) by (unfold bpow; f_equal; len_lia).
    rewrite !mpz_app, mpz_cons, (bpow_length s xl), HPx, HPlo by lia. cbn [mpz foldr]. fold (mpz s) (mpz low).
    rewrite HX, HFparts, Hxe, mpz_app, mpz_cons, HPx in *. cbn [mpz foldr] in *. fold (mpz xl) in *.
    pose proof (mpz_range s Hs). pose proof (mpz_range low Hlowl). pose proof (mpz_range high Hhl).
    pose proof (mpz_range xl Hxll) as Hrx. rewrite HPx in Hrx. unfold is_limb in Hxt.
    assert (1 <= xt) by nia. assert (k = 0) as -> by nia. nia.
Qed.

Section RecipSpec.
Context `{!Allocator} `{F : !FftMul} {Fok : FftMulOk}.

(** Bounds on the estimate from the high limbs, and after the correction loop. *)
Lemma recip_bounds Pl Ph A Ah X :
  0 < Pl -> 0 < Ph -> Pl * Ph <= 2 * A -> A < Pl * Ph -> Pl * Ah <= A < Pl * (Ah + 1) -> 0 <= X ->
  Ah * X < Ph * Ph < Ah * (X + 2) -> 2 * Ah >= Ph ->
  A * X < Pl * Ph * Ph + (Z.of_nat RECIP_FIX_FUEL - 1) * A /\ Pl * Ph * Ph <= A * (X + 2).
Proof.
  intros HPl HPh HA1 HA2 HAh HX HX2 Hn. change (Z.of_nat RECIP_FIX_FUEL - 1) with 5. split; [|nia].
  assert (X < 2 * Ph) by nia. assert ((A - Pl * Ah) * X <= Pl * X) by nia.
  assert (Pl * (Ah * X) <= Pl * (Ph * Ph)) by nia. nia.
Qed.

Lemma norm_divisor_drop taba bl b1 k :
  norm_divisor taba bl b1 -> (k < length taba)%nat -> norm_divisor (drop k taba) (drop k bl) b1.
Proof.
  intros (-> & Hl & Hn) Hk. rewrite length_app in Hk. simpl in Hk. split; [|split; [by apply Forall_drop|done]].
  by rewrite drop_app_le by lia.
Qed.

Lemma mp_recip_spec fuel o tabr taba bl b1 :
  norm_divisor taba bl b1 -> length tabr = S (length taba) -> (length taba <= fuel)%nat ->
  or_refused (mp_recip fuel o tabr taba) (recip_of taba).
Proof.
  revert o tabr taba bl. induction fuel as [|fuel IH]; intros o tabr taba bl Hb Hlr Hf.
  { destruct Hb as (-> & _). rewrite length_app in Hf. simpl in Hf. lia. }
  destruct (Z.leb_spec (zlen taba) 2) as [Hn|Hn]; [by apply (recip_small fuel o tabr taba bl b1)|].
  pose proof (norm_divisor_limbs _ _ _ Hb) as Ha. destruct (norm_divisor_value _ _ _ Hb) as (_ & _ & Hb2 & Hb0).
  assert (Htn : taba <> []) by (intros E; revert Hn; rewrite E; unfold zlen; simpl; lia).
  cbn [mp_recip]. rewrite (proj2 (Z.leb_gt _ _) Hn). set (n := zlen taba) in *. set (l := (n - 1) / 2). set (h := n - l).
  assert (Hlh : 1 <= l /\ l + 1 <= h /\ l + h = n) by (unfold l, h; zdm). clearbody l h. destruct Hlh as (Hl & Hh & Hlh).
  destruct (bf_malloc_spec o (n + h + 1)) as [(o1 & t & -> & Ht)|(o1 & -> & Href)]; [lia| |].
  2:{ destruct (bf_malloc o1 _) as [o2 tabu]. eexists _, _; by split. }
  destruct (bf_malloc_spec o1 (n + 2 * h - l + 2)) as [(o2 & u & -> & Hu)|(o2 & -> & Href)]; [lia| |eexists _, _; by split].
  assert (Hzr : zlen tabr = n + 1) by (unfold n, zlen; lia).
  rewrite zslice_in_range by len_lia. cbn [mbind option_bind]. rewrite zslice_in_range by (unfold n in *; lia). cbn [mbind option_bind].
  set (xr := take (Z.to_nat (h + 1)) (drop (Z.to_nat l) tabr)). set (ln := Z.to_nat l).
  assert (Hln : (ln < length taba)%nat) by (unfold ln, n in *; len_lia).
  assert (Hah : take (Z.to_nat h) (drop ln taba) = drop ln taba).
  { apply take_ge. rewrite length_drop. unfold ln, n, zlen in *. lia. }
  rewrite Hah. set (ah := drop ln taba) in *. pose proof (norm_divisor_drop taba bl b1 ln Hb Hln) as Hbh. fold ah in Hbh.
  assert (Hlah : zlen ah = h) by (unfold ah, zlen; rewrite length_drop; unfold ln, n in *; len_lia).
  destruct (IH o2 xr ah (drop ln bl) Hbh) as (o3 & res & -> & Hres).
  { unfold xr. rewrite length_take, length_drop. len_lia. }
  { unfold ah. rewrite length_drop. unfold n, ln in *. len_lia. }
  cbn [mbind option_bind]. destruct res as [xh|]; [|eexists _, _; by split].
  destruct Hres as (Hxh & Hlxh & HX1 & HX2).
  assert (Hzx : zlen xh = h + 1) by (len_lia). assert (Hxn : xh <> []) by (by destruct xh).
  destruct (norm_divisor_value _ _ _ Hbh) as (_ & _ & Hbh2 & Hbh0).
  set (Pl := LIMB_BASE ^ l). set (Ph := LIMB_BASE ^ h).
  assert (HPa : bpow taba = Pl * Ph) by (unfold bpow, Pl, Ph; fold n; rewrite <- base_pow_add by lia; f_equal; len_lia).
  assert (HPah : bpow ah = Ph) by (unfold bpow; by rewrite Hlah). rewrite HPa, HPah in *.
  assert (HPl : 0 < Pl) by (apply base_pow_pos; lia). assert (HPh : 0 < Ph) by (apply base_pow_pos; lia).
  assert (HAh : Pl * mpz ah <= mpz taba < Pl * (mpz ah + 1)).
  { rewrite (mpz_parts taba ln) by lia. fold ah. replace (LIMB_BASE ^ Z.of_nat ln) with Pl by (unfold Pl; f_equal; unfold ln; len_lia).
    pose proof (mpz_range (take ln taba) ltac:(by apply Forall_take)) as Hr. rewrite bpow_take in Hr by lia.
    replace (LIMB_BASE ^ Z.of_nat ln) with Pl in Hr by (unfold Pl; f_equal; unfold ln; len_lia). lia. }
  destruct (recip_bounds Pl Ph (mpz taba) (mpz ah) (mpz xh)) as [HT1 HT2]; [done..|lia|lia|done|lia|done|lia|].
  destruct (mp_mul_spec o3 t taba xh Ha Hxh Hxn) as (o4 & res & -> & Hres); [unfold n in *; len_lia|].
  cbn [mbind option_bind]. destruct res as [t1|]; [|eexists _, _; by split]. destruct Hres as (Ht1 & Hlt1 & Hvt1).
  assert (HPnh : LIMB_BASE ^ (n + h) = Pl * Ph * Ph).
  { unfold Pl, Ph. rewrite <- !base_pow_add by lia. f_equal. lia. }
  assert (Htop : n + h = zlen taba + zlen xh - 1) by (unfold n; lia).
  destruct (recip_fix_spec RECIP_FIX_FUEL t1 xh taba) as (t2 & x2 & Hfix & Ht2 & Hx2 & Hlt2 & Hlx2 & Hvt2 & Hlt & Hx2b);
    [done|done|done|done|exact Htn|done|done|lia|unfold RECIP_FIX_FUEL; lia
    |rewrite <- Htop, HPnh, Hvt1; exact HT1|].
  rewrite <- Htop, HPnh in *. rewrite Hfix. cbn [mbind option_bind].
  assert (HX3 : Ph <= mpz x2 /\ Pl * Ph * Ph <= mpz taba * (mpz x2 + 2)).
  { destruct Hx2b as [->|Hge]; [done|]. split; [|lia].
    assert (mpz taba * (mpz x2 + 1) <= (Pl * Ph - 1) * (mpz x2 + 1)) by (apply Z.mul_le_mono_nonneg_r; [|lia]; pose proof (mpz_range x2 Hx2); lia).
    destruct (Z.le_gt_cases Ph (mpz x2)) as [|Hc]; [done|exfalso].
    assert ((Pl * Ph - 1) * (mpz x2 + 1) <= (Pl * Ph - 1) * Ph) by (apply Z.mul_le_mono_nonneg_l; lia). lia. }
  destruct HX3 as [HX3 HX4].
  destruct (recip_negate (n + h) t2) as (t3 & k & v & t4 & -> & Hv & Hset & Ht4 & Hlt4 & Hvt4);
    [len_lia|done|unfold n in *; len_lia|rewrite HPnh; split; [rewrite Hvt2; apply Z.mul_pos_pos; lia|exact Hlt]|].
  rewrite Hv. cbn [mbind option_bind]. rewrite Hset. cbn [mbind option_bind].
  rewrite zslice_in_range by len_lia. cbn [mbind option_bind]. fold ln.
  set (tm := take (Z.to_nat (n + h + 1 - l)) (drop ln t4)).
  assert (Htm : tm = drop ln t4) by (apply take_ge; rewrite length_drop; unfold ln in *; len_lia).
  assert (Html : limbs tm) by (rewrite Htm; by apply Forall_drop).
  assert (Hltm : zlen tm = 2 * h + 1) by (rewrite Htm; unfold zlen in *; rewrite length_drop; unfold ln; lia).
  assert (Hvtm : mpz t4 = Pl * mpz tm + mpz (take ln t4) /\ 0 <= mpz (take ln t4) < Pl).
  { rewrite (mpz_parts t4 ln) at 1 by (unfold ln in *; len_lia). rewrite Htm.
    pose proof (mpz_range (take ln t4) ltac:(by apply Forall_take)) as Hr. rewrite bpow_take in Hr by (unfold ln in *; len_lia).
    replace (LIMB_BASE ^ Z.of_nat ln) with Pl in * by (unfold Pl; f_equal; unfold ln; len_lia). lia. }
  destruct Hvtm as [Hvtm Hrtm].
  destruct (mp_mul_spec o4 u tm x2 Html Hx2) as (o5 & res & -> & Hres);
    [destruct x2; [simpl in Hlx2; lia|done]|len_lia|].
  cbn [mbind option_bind]. destruct res as [u1|]; [|eexists _, _; by split]. destruct Hres as (Hu1 & Hlu1 & Hvu1).
  set (K := LIMB_BASE ^ (2 * h - l)).
  assert (HK : K * Pl = Ph * Ph) by (unfold K, Pl, Ph; clear - Hl Hh; rewrite <- !base_pow_add by lia; f_equal; lia).
  assert (HBPl : LIMB_BASE * Pl <= Ph).
  { unfold Pl, Ph. rewrite <- (Z.pow_1_r LIMB_BASE) at 1. rewrite <- base_pow_add by lia. apply Z.pow_le_mono_r; [done|lia]. }
  set (kn := Z.to_nat (2 * h - l)). set (Fv := mpz (drop kn u1)).
  assert (HFv : mpz tm * mpz x2 = K * Fv + mpz (take kn u1) /\ 0 <= mpz (take kn u1) < K).
  { rewrite <- Hvu1. unfold Fv. assert (Hkn : (kn <= length u1)%nat) by (unfold kn in *; len_lia).
    rewrite (mpz_parts u1 kn Hkn) at 1. pose proof (mpz_range (take kn u1) ltac:(by apply Forall_take)) as Hr.
    rewrite bpow_take in Hr by done. replace (LIMB_BASE ^ Z.of_nat kn) with K in * by (unfold K; f_equal; unfold kn; len_lia). lia. }
  destruct HFv as [HFv HFr].
  assert (HF0 : 0 <= Fv) by (apply mpz_range; by apply Forall_drop).
  rewrite HPnh in Hvt4.
  assert (Hstep : mpz taba * (mpz x2 * Pl + Fv) < Pl * Ph * (Pl * Ph) < mpz taba * (mpz x2 * Pl + Fv + 2)).
  { apply (recip_step LIMB_BASE Pl Ph K (mpz taba) (mpz x2) (mpz t4) (mpz tm) (mpz (take ln t4)) Fv (mpz (take kn u1)));
      [by rewrite limb_base_val|done|done|done|done|apply Hb0|clear - HX3 HPh; lia|by rewrite Hvt4, Hvt2
      |rewrite Hvt4, Hvt2; rewrite Hvt2 in Hlt; clear - Hlt HX4; lia|done|done|done|done]. }
  destruct (recip_combine tabr x2 u1 l h (mpz x2) Fv)
    as (r1 & low & r2 & high & r3 & k3 & Hr1 & Hlow & Hr2 & Hhigh & Hr3 & Hr3l & Hlr3 & Hvr3);
    [done|done|len_lia|len_lia|len_lia|len_lia|done|done|done| |].
  { rewrite base_pow_add by len_lia. fold Pl Ph. clearbody Fv. clear - Hstep Hb0 Hb2. set (R := mpz x2 * Pl + Fv) in *. clearbody R.
    destruct (Z.lt_ge_cases R (2 * (Pl * Ph))) as [|Hc]; [done|exfalso].
    assert (mpz taba * (2 * (Pl * Ph)) <= mpz taba * R) by (apply Z.mul_le_mono_nonneg_l; lia).
    assert (Pl * Ph * (Pl * Ph) <= 2 * mpz taba * (Pl * Ph)) by (apply Z.mul_le_mono_nonneg_r; lia). lia. }
  rewrite Hr1. cbn [mbind option_bind]. rewrite Hlow. cbn [mbind option_bind]. rewrite Hr2. cbn [mbind option_bind].
  rewrite Hhigh. cbn [mbind option_bind]. rewrite Hr3. cbn [mbind option_bind].
  eexists _, _. split; [done|]. fold Pl in Hvr3. split; [done|]. split; [unfold n in *; len_lia|]. rewrite HPa, Hvr3. split; [|done].
  clear - HF0 HX3 HPl. assert (Pl * Ph <= Pl * mpz x2) by (apply Z.mul_le_mono_nonneg_l; lia). lia.
Qed.
End RecipSpec.

(** ** Division by an inverse *)

(** The quotient from an approximate inverse [I] of [b] is at most ten too small.  [Pe]
    and [Pg] are the limbs cut off the dividend and the product. *)
Lemma large_estimate Pb Pn Pe Pg b I A At Q :
  0 < Pe -> 0 < Pg -> Pe * Pg = Pb * Pn -> 0 < Pn -> 0 < b < Pb -> Pe <= b -> 0 <= A < Pb * Pn -> 0 <= I ->
  b * I <= Pb * Pn <= b * (I + 8) -> At = A / Pe -> Q = I * At / Pg ->
  0 <= A - b * Q < 10 * b /\ 0 <= Q.
Proof.
  intros HPe HPg HP HPn Hb Heb HA HI HbI -> ->.
  pose proof (Z.div_mod A Pe ltac:(lia)) as HdA. pose proof (Z.mod_pos_bound A Pe HPe) as HmA.
  set (At := A / Pe) in *. set (ra := A mod Pe) in *.
  assert (HAt : 0 <= At) by (apply Z.div_pos; lia). clearbody At ra.
  pose proof (Z.div_mod (I * At) Pg ltac:(lia)) as HdQ. pose proof (Z.mod_pos_bound (I * At) Pg HPg) as HmQ.
  assert (HQ0 : 0 <= I * At / Pg) by (apply Z.div_pos; [apply Z.mul_nonneg_nonneg; lia|lia]).
  set (Q := I * At / Pg) in *. set (rq := (I * At) mod Pg) in *. clearbody Q rq. split; [|done].
  set (M := Pb * Pn) in *. assert (HM : 0 < M) by (unfold M; apply Z.mul_pos_pos; lia).
  (* [M] times the remainder *)
  assert (HE : M * (A - b * Q) = (M - b * I) * A + b * (I * ra + Pe * rq)).
  { assert (HX : Pe * (Pg * Q) = I * A - I * ra - Pe * rq).
    { assert (Hq : Pg * Q = I * At - rq) by lia. rewrite Hq. assert (Ha : Pe * At = A - ra) by lia.
      transitivity (I * (Pe * At) - Pe * rq); [ring|]. rewrite Ha. ring. }
    transitivity (M * A - b * (M * Q)); [ring|]. rewrite <- HP at 2. transitivity (M * A - b * (Pe * (Pg * Q))); [ring|].
    rewrite HX. ring. }
  assert (H1 : 0 <= (M - b * I) * A <= 8 * b * M).
  { split; [apply Z.mul_nonneg_nonneg; lia|]. apply Z.mul_le_mono_nonneg; lia. }
  assert (H2 : 0 <= b * (I * ra) <= M * b).
  { split; [repeat apply Z.mul_nonneg_nonneg; lia|]. assert (b * I * ra <= M * b) by (apply Z.mul_le_mono_nonneg; [apply Z.mul_nonneg_nonneg|..]; lia). lia. }
  assert (H3 : 0 <= b * (Pe * rq) < b * M).
  { split; [repeat apply Z.mul_nonneg_nonneg; lia|]. apply Z.mul_lt_mono_pos_l; [lia|]. rewrite <- HP. apply Z.mul_lt_mono_pos_l; lia. }
  split.
  - apply (Z.mul_nonneg_cancel_l M); [done|]. lia.
  - apply (Z.mul_lt_mono_pos_l M); [done|]. lia.
Qed.

Lemma large_fix_spec fuel tabq tabb lo top rest :
  limbs tabq -> limbs tabb -> limbs lo -> is_limb top -> length lo = length tabb -> 0 < mpz tabb ->
  mpz (lo ++ [top]) < Z.of_nat fuel * mpz tabb -> mpz tabq + Z.of_nat fuel < bpow tabq ->
  exists q lo' rest', large_fix fuel tabq (lo ++ top :: rest) tabb = Some (q, lo' ++ rest') /\
    limbs q /\ length q = length tabq /\ limbs lo' /\ length lo' = length tabb /\ length rest' = S (length rest) /\
    mpz tabq * mpz tabb + mpz (lo ++ [top]) = mpz q * mpz tabb + mpz lo' /\ mpz lo' < mpz tabb.
Proof.
  intros Hq Hb Hlo Htop Hl Hb0. revert tabq lo top Hq Hlo Htop Hl.
  induction fuel as [|fuel IH]; intros tabq lo top Hq Hlo Htop Hl Hlt Hov; cbn [large_fix].
  { pose proof (mpz_range (lo ++ [top]) ltac:(apply Forall_app; split; [done|by constructor])). lia. }
  rewrite zget_mid by (unfold zlen; lia). cbn [mbind option_bind].
  pose proof (zslice_app [] lo (top :: rest)) as Hz. cbn [app] in Hz. replace (zlen lo) with (zlen tabb) in Hz by (unfold zlen; lia).
  change (zlen []) with 0 in Hz. rewrite Hz. cbn [mbind option_bind].
  destruct (mp_cmp_spec lo tabb Hlo Hb Hl) as (c & -> & Hc). cbn [mbind option_bind].
  assert (Hval : mpz (lo ++ [top]) = mpz lo + bpow tabb * top).
  { rewrite mpz_app, mpz_cons, (bpow_length lo tabb Hl). cbn [mpz foldr]. lia. }
  pose proof (mpz_range lo Hlo) as Hr. rewrite (bpow_length lo tabb Hl) in Hr. pose proof (mpz_range tabb Hb) as Hrb.
  unfold is_limb in Htop. pose proof (bpow_pos tabb) as HP.
  destruct ((top =? 0) && (c <? 0)) eqn:Hdone; bool_props.
  { subst top. exists tabq, lo, (0 :: rest). split; [done|]. split_and!; try done; [lia|]. lia. }
  assert (Hge : mpz tabb <= mpz lo + bpow tabb * top).
  { apply andb_false_iff in Hdone as [Ht|Ht]; bool_props; [|nia].
    assert (bpow tabb * 1 <= bpow tabb * top) by (apply Z.mul_le_mono_nonneg_l; lia). lia. }
  destruct (mp_sub_spec lo tabb 0 Hlo Hb Hl) as (lo1 & k & Hs & [Hl1 Hlo1 Hv1] & Hk); [lia|].
  pose proof (in_place_app [] lo (top :: rest) 0 (zlen tabb) (fun t => mp_sub t tabb 0) lo1 k) as Hip. cbn [app] in Hip.
  rewrite Hip by (done || unfold zlen; lia). cbn [mbind option_bind]. rewrite zset_mid by (unfold zlen; lia). cbn [mbind option_bind].
  destruct (mp_add_ui_spec tabq 1 Hq limb_1) as (q1 & kq & -> & [Hlq Hq1 Hvq] & Hkq & _). cbn [fst].
  pose proof (mpz_range tabq Hq) as Hrq. pose proof (mpz_range q1 Hq1) as Hrq1. rewrite (bpow_length q1 tabq Hlq) in Hrq1.
  assert (kq = 0) as ->.
  { destruct (Z.eq_dec kq 0); [done|]. unfold is_limb in Hkq. assert (bpow tabq * 1 <= bpow tabq * kq) by (apply Z.mul_le_mono_nonneg_l; lia). lia. }
  rewrite (bpow_length lo tabb Hl) in Hv1. pose proof (mpz_range lo1 Hlo1) as Hr1. rewrite (bpow_length lo1 tabb) in Hr1 by lia.
  assert (Htk : 0 <= top - k).
  { destruct (Z.eq_dec k 0); [lia|]. assert (k = 1) as -> by lia. destruct (Z.eq_dec top 0) as [->|]; lia. }
  assert (Hu : u64 (top - k) = top - k) by (apply u64_limb; split; lia). rewrite Hu.
  assert (Hval1 : mpz (lo1 ++ [top - k]) = mpz (lo ++ [top]) - mpz tabb).
  { rewrite Hval, mpz_app, mpz_cons, (bpow_length lo1 tabb) by lia. cbn [mpz foldr]. fold (mpz lo1). lia. }
  destruct (IH q1 lo1 (top - k)) as (q & lo' & rest' & -> & HH); [done|done|split; lia|lia|rewrite Hval1; lia|rewrite (bpow_length q1 tabq Hlq); lia|].
  destruct HH as (H1 & H2 & H3 & H4 & H5 & H6 & H7). exists q, lo', rest'. split; [done|]. split_and!; try done; [lia|].
  rewrite Hval1 in H6. rewrite <- H6. rewrite Z.mul_0_r, Z.add_0_r in Hvq. rewrite Hvq. lia.
Qed.

Section Large.
Context `{!Allocator} `{F : !FftMul} {Fok : FftMulOk}.

(** The divisor as [n] limbs: shifted up, or cut and rounded up. *)
Lemma large_divisor_spec tabt tabb n bl b1 :
  norm_divisor tabb bl b1 -> 1 <= n -> zlen tabt = 2 * (n + 1) ->
  exists d rest over, large_divisor tabt tabb n = Some (d ++ rest, over) /\ zlen d = n /\ zlen rest = n + 2 /\ limbs d /\
    (over = false -> exists dl d1, norm_divisor d dl d1) /\
    (zlen tabb <= n -> over = false /\ mpz d = mpz tabb * LIMB_BASE ^ (n - zlen tabb)) /\
    (n < zlen tabb -> exists D, 0 < D <= LIMB_BASE ^ n /\ (if over then D = LIMB_BASE ^ n else D = mpz d) /\
      LIMB_BASE ^ n <= 2 * D /\ mpz tabb < D * LIMB_BASE ^ (zlen tabb - n) <= mpz tabb + LIMB_BASE ^ (zlen tabb - n)).
Proof.
  intros Hb Hn Hlt. pose proof (norm_divisor_limbs _ _ _ Hb) as Hbl.
  destruct (norm_divisor_value _ _ _ Hb) as (_ & _ & Hb2 & Hb0). unfold large_divisor. set (nb := zlen tabb) in *.
  pose proof (zlen_nonneg tabb) as Hnb. fold nb in Hnb. destruct (Z.leb_spec nb n) as [Hle|Hgt].
  - set (z := replicate (Z.to_nat (n - nb)) 0).
    assert (Hz : zlen z = n - nb) by (unfold z; rewrite zlen_replicate; lia).
    rewrite zsplice_in_range by lia. cbn [mbind option_bind]. rewrite take_0. cbn [app].
    set (r1 := drop (Z.to_nat 0 + length z) tabt).
    assert (Hr1 : zlen r1 = n + nb + 2) by (unfold r1, zlen in *; rewrite length_drop; lia).
    rewrite zsplice_in_range by (unfold zlen in *; rewrite ?length_app; lia). cbn [mbind option_bind].
    rewrite take_app_length' by (unfold zlen in *; lia).
    set (rest := drop _ (z ++ r1)).
    assert (Hrest : zlen rest = n + 2) by (unfold rest, nb, zlen in *; rewrite length_drop, length_app; lia).
    exists (z ++ tabb), rest, false. rewrite <- app_assoc. split; [done|].
    split; [unfold nb, zlen in *; rewrite length_app; lia|]. split; [done|].
    split; [apply Forall_app; split; [apply limbs_zeros|done]|]. split; [|split; [|lia]].
    + intros _. destruct Hb as (-> & Hb & Hb1). exists (z ++ bl), b1. split; [by rewrite app_assoc|].
      split; [|done]. apply Forall_app; split; [apply limbs_zeros|done].
    + intros _. split; [done|]. rewrite mpz_app. unfold z at 1. rewrite mpz_zeros. unfold bpow. rewrite Hz. lia.
  - rewrite zslice_in_range by (unfold nb in *; lia). cbn [mbind option_bind].
    set (kn := Z.to_nat (nb - n)). set (hi := take (Z.to_nat n) (drop kn tabb)).
    assert (Hhi : hi = drop kn tabb).
    { apply take_ge. rewrite length_drop. unfold kn, nb, zlen in *. lia. }
    assert (Hlhi : zlen hi = n) by (rewrite Hhi; unfold kn, nb, zlen in *; rewrite length_drop; lia).
    assert (Hhil : limbs hi) by (rewrite Hhi; by apply Forall_drop).
    rewrite zsplice_in_range by lia. cbn [mbind option_bind]. rewrite take_0. cbn [app].
    set (rest := drop (Z.to_nat 0 + length hi) tabt).
    assert (Hrest : zlen rest = n + 2) by (unfold rest, zlen in *; rewrite length_drop; lia).
    destruct (mp_add_ui_spec hi 1 Hhil limb_1) as (d & k & Hadd & [Hld Hd Hvd] & Hk & Hk1).
    pose proof (in_place_app [] hi rest 0 n (fun t => Some (mp_add_ui t 1)) d k) as Hip. cbn [app] in Hip.
    rewrite Hip; [|done|lia|by rewrite Hadd|lia]. cbn [mbind option_bind].
    assert (Hhne : hi <> []) by (destruct hi; [unfold zlen in Hlhi; simpl in Hlhi; lia|done]).
    specialize (Hk1 Hhne). unfold is_limb in Hk.
    assert (HPn : bpow hi = LIMB_BASE ^ n) by (unfold bpow; by rewrite Hlhi).
    assert (HPd : bpow d = LIMB_BASE ^ n) by (rewrite <- HPn; by apply bpow_length).
    set (S := LIMB_BASE ^ (nb - n)). assert (HS : 0 < S) by (apply base_pow_pos; lia).
    assert (Hparts : mpz tabb = mpz (take kn tabb) + S * mpz hi /\ 0 <= mpz (take kn tabb) < S).
    { assert (Hkn : (kn <= length tabb)%nat) by (unfold kn, nb, zlen in *; lia).
      rewrite (mpz_parts tabb kn Hkn) at 1. rewrite <- Hhi.
      pose proof (mpz_range (take kn tabb) ltac:(by apply Forall_take)) as Hr. rewrite bpow_take in Hr by done.
      replace (LIMB_BASE ^ Z.of_nat kn) with S in * by (unfold S; f_equal; unfold kn; lia). lia. }
    destruct Hparts as [Hparts Hrem].
    assert (HhiN : norm_divisor hi (drop kn bl) b1).
    { rewrite Hhi. apply norm_divisor_drop; [done|]. unfold kn, nb, zlen in *. lia. }
    destruct (norm_divisor_value _ _ _ HhiN) as (_ & _ & Hh2 & Hh0). rewrite HPn in *.
    pose proof (mpz_range d Hd) as Hrd. rewrite HPd in Hrd.
    exists d, rest, (negb (k =? 0)). split; [done|]. split; [unfold zlen in *; lia|]. split; [done|]. split; [done|].
    split; [|split; [lia|]].
    + intros Hk0. apply negb_false_iff, Z.eqb_eq in Hk0. subst k.
      destruct (@exists_last _ d) as (dl & d1 & Hde); [destruct d, hi; done|]. exists dl, d1.
      rewrite Hde in Hd. apply Forall_app in Hd as [Hdl Hd1]. apply Forall_cons in Hd1 as [Hd1 _].
      split; [done|]. split; [done|]. unfold is_limb in Hd1. split; [|lia].
      pose proof (mpz_range dl Hdl) as Hrl.
      assert (HPdl : bpow d = bpow dl * LIMB_BASE) by (rewrite Hde, bpow_app, bpow_cons, bpow_nil; lia).
      assert (Hmd : mpz d = mpz dl + bpow dl * d1) by (rewrite Hde, mpz_app, mpz_cons; cbn [mpz foldr]; lia).
      rewrite HPd in HPdl. rewrite HPdl in *. pose proof (bpow_pos dl) as Hpd.
      assert (bpow dl * LIMB_BASE < bpow dl * (2 * d1 + 2)) by lia. apply Z.mul_lt_mono_pos_l in H0; [|done].
      rewrite limb_base_val in *. lia.
    + intros _. exists (mpz hi + 1). split; [lia|]. split; [destruct (Z.eqb_spec k 0) as [->|]; cbn [negb]; nia|]. split; [lia|].
      fold S. rewrite Hparts. lia.
Qed.
End Large.

(** The inverse of the shifted or rounded divisor is one of the divisor. *)
Lemma inverse_shifted Pb Pn S b D I :
  0 < S -> Pn = Pb * S -> D = b * S -> D * I < Pn * Pn < D * (I + 2) -> b * I <= Pb * Pn <= b * (I + 2).
Proof.
  intros HS HPn -> [H1 H2]. split; apply (Z.mul_le_mono_pos_l _ _ S); rewrite ?HPn in *; try done.
  - transitivity (b * S * I); [lia|]. transitivity (Pb * S * (Pb * S)); lia.
  - transitivity (Pb * S * (Pb * S)); [lia|]. transitivity (b * S * (I + 2)); lia.
Qed.

Lemma inverse_rounded Pb Pn S b D I :
  0 < S -> 2 <= Pn -> Pb = Pn * S -> Pb <= 2 * b -> 0 <= I -> Pn <= 2 * D -> D <= Pn -> 0 < D -> b < D * S <= b + S ->
  D * I <= Pn * Pn <= D * (I + 2) -> b * I <= Pb * Pn <= b * (I + 8).
Proof.
  intros HS HPn HPb Hb HI HD1 HD2 HD0 HDS [H1 H2].
  assert (HI2 : I <= 2 * Pn).
  { destruct (Z.le_gt_cases I (2 * Pn)) as [|Hc]; [done|exfalso].
    assert (D * (2 * Pn + 1) <= D * I) by (apply Z.mul_le_mono_nonneg_l; lia).
    assert (Pn * Pn <= 2 * D * Pn) by (apply Z.mul_le_mono_nonneg_r; lia). lia. }
  assert (HSD : S * (D * I) <= S * (Pn * Pn) <= S * (D * (I + 2))) by (split; apply Z.mul_le_mono_nonneg_l; lia).
  assert (HPP : Pb * Pn = S * (Pn * Pn)) by (rewrite HPb; ring). rewrite HPP. split.
  - transitivity (D * S * I); [apply Z.mul_le_mono_nonneg_r; lia|lia].
  - assert (D * S * (I + 2) <= (b + S) * (I + 2)) by (apply Z.mul_le_mono_nonneg_r; lia).
    assert (S * (I + 2) <= S * (2 * Pn + 2)) by (apply Z.mul_le_mono_nonneg_l; lia).
    assert (2 * S <= Pb) by (rewrite HPb; apply Z.mul_le_mono_nonneg_r; lia). lia.
Qed.

Section Divnorm.
Context `{!Allocator} `{F : !FftMul} {Fok : FftMulOk}.

(** The inverse that [mp_divnorm_large] uses. *)
Definition inverse_of (tabb : list Z) (n : Z) (inv : list Z) : Prop :=
  limbs inv /\ zlen inv = n + 1 /\
  mpz tabb * mpz inv <= bpow tabb * LIMB_BASE ^ n <= mpz tabb * (mpz inv + 8).

Lemma large_inverse o inv t tabb n bl b1 d rest over :
  norm_divisor tabb bl b1 -> 1 <= n -> zlen t = 2 * (n + 1) -> zlen inv = n + 1 ->
  large_divisor t tabb n = Some (d ++ rest, over) -> zlen d = n ->
  or_refused (if over : bool then Some (o, Some (replicate (Z.to_nat n) 0 ++ [1]))
              else d ← zslice (d ++ rest) 0 n; mp_recip (length d) o inv d) (inverse_of tabb n).
Proof.
  intros Hb Hn Hlt Hli Hdiv Hld.
  destruct (large_divisor_spec t tabb n bl b1 Hb Hn Hlt) as (d' & rest' & over' & Hdiv' & Hld' & Hlr & Hdl & Hnorm & Hcase1 & Hcase2).
  rewrite Hdiv in Hdiv'. injection Hdiv' as Hdr <-. apply app_inj_1 in Hdr as [<- <-]; [|len_lia].
  destruct (norm_divisor_value _ _ _ Hb) as (_ & _ & Hb2 & Hb0).
  set (Pn := LIMB_BASE ^ n) in *. assert (HPn : 2 <= Pn).
  { unfold Pn. change 2 with (2 ^ 1). transitivity (LIMB_BASE ^ 1); [done|]. apply Z.pow_le_mono_r; [done|lia]. }
  assert (Hrounded : forall I D, n < zlen tabb -> 0 <= I -> 0 < D <= Pn -> Pn <= 2 * D ->
    mpz tabb < D * LIMB_BASE ^ (zlen tabb - n) <= mpz tabb + LIMB_BASE ^ (zlen tabb - n) ->
    D * I <= Pn * Pn <= D * (I + 2) -> mpz tabb * I <= bpow tabb * Pn <= mpz tabb * (I + 8)).
  { intros I D Hlt2 HI HD HD2 HDS HDI. apply (inverse_rounded (bpow tabb) Pn (LIMB_BASE ^ (zlen tabb - n)) (mpz tabb) D I);
      [apply base_pow_pos; lia|done| |done|done|done|apply HD|apply HD|done|done].
    unfold Pn, bpow. rewrite <- base_pow_add by lia. f_equal. lia. }
  destruct over.
  - eexists _, _. split; [done|]. destruct (Z.le_gt_cases (zlen tabb) n) as [Hle|Hgt]; [by destruct (Hcase1 Hle)|].
    destruct (Hcase2 Hgt) as (D & HD & HDP & HD2 & HDS).
    assert (Hv : mpz (replicate (Z.to_nat n) 0 ++ [1]) = Pn).
    { rewrite mpz_app, mpz_zeros, mpz_cons. cbn [mpz foldr]. unfold bpow. rewrite zlen_replicate.
      replace (Z.of_nat (Z.to_nat n)) with n by lia. fold Pn. lia. }
    split; [apply Forall_app; split; [apply limbs_zeros|by constructor; [apply limb_1|]]|].
    split; [rewrite zlen_app, zlen_replicate; unfold zlen; simpl; lia|]. rewrite Hv.
    apply (Hrounded Pn D); try done; lia.
  - destruct (Hnorm eq_refl) as (dl & d1 & Hdn). pose proof (zslice_app [] d rest) as Hz. cbn [app] in Hz.
    change (zlen []) with 0 in Hz. rewrite Hld in Hz. rewrite Hz. cbn [mbind option_bind].
    destruct (mp_recip_spec (length d) o inv d dl d1 Hdn) as (o' & r & -> & Hr); [len_lia|lia|].
    eexists _, _. split; [done|]. destruct r as [R|]; [|done]. destruct Hr as (HR & HlR & HR1 & HR2).
    assert (HPd : bpow d = Pn) by (unfold bpow; by rewrite Hld). rewrite HPd in *.
    split; [done|]. split; [len_lia|].
    destruct (Z.le_gt_cases (zlen tabb) n) as [Hle|Hgt].
    + destruct (Hcase1 Hle) as [_ Hd].
      destruct (inverse_shifted (bpow tabb) Pn (LIMB_BASE ^ (n - zlen tabb)) (mpz tabb) (mpz d) (mpz R)) as [H1 H2];
        [apply base_pow_pos; lia|unfold Pn, bpow; rewrite <- base_pow_add by (lia || apply zlen_nonneg); f_equal; lia|done|done|].
      split; [done|]. nia.
    + destruct (Hcase2 Hgt) as (D & HD & HDd & HD2 & HDS). subst D. apply (Hrounded (mpz R) (mpz d)); try done; lia.
Qed.

(** The remainder for the estimated quotient fits in one limb more than the divisor. *)
Lemma low_difference (a1 a2 t1 t2 r : list Z) P A T k :
  A = mpz a1 + P * mpz a2 -> T = mpz t1 + P * mpz t2 -> mpz r + P * - k = mpz a1 - mpz t1 - 0 ->
  0 <= mpz r < P -> 0 <= A - T < P -> mpz r = A - T.
Proof.
  intros -> -> Hr Hr0 Hd. rewrite <- (Z.mod_small (mpz r) P), <- (Z.mod_small (_ - _) P) by done.
  replace (mpz a1 + P * mpz a2 - (mpz t1 + P * mpz t2)) with (mpz r + (mpz a2 - mpz t2 - k) * P) by lia.
  symmetry. apply Z.mod_add. lia.
Qed.

Lemma large_finish taba tabb q t3 bl b1 :
  norm_divisor tabb bl b1 -> limbs taba -> limbs q -> (length tabb < length taba)%nat ->
  length q = S (length taba - length tabb) -> is_product q tabb t3 ->
  0 <= mpz taba - mpz tabb * mpz q < 10 * mpz tabb ->
  exists low taba' k q' a', zslice t3 0 (zlen tabb + 1) = Some low /\
    in_place taba 0 (zlen tabb + 1) (fun a => mp_sub a low 0) = Some (taba', k) /\
    large_fix LARGE_FIX_FUEL q taba' tabb = Some (q', a') /\ divides (length q) taba tabb q' a'.
Proof.
  intros Hb Ha Hql Hlen Hlq (Ht3 & Hlt3 & Hvt3) HQ. pose proof (norm_divisor_limbs _ _ _ Hb) as Hbl.
  destruct (norm_divisor_value _ _ _ Hb) as (_ & _ & Hb2 & Hb0). clear Hb.
  set (kn := S (length tabb)). set (low := take kn t3). set (a1 := take kn taba). set (a2 := drop kn taba).
  assert (Hsl : zslice t3 0 (zlen tabb + 1) = Some low).
  { clear - Hlen Hlq Hlt3. rewrite zslice_in_range by (unfold zlen; lia). rewrite drop_0. unfold low, kn. do 2 f_equal. unfold zlen. lia. }
  assert (Htaba : taba = a1 ++ a2) by (symmetry; apply take_drop).
  assert (Hla1 : length a1 = kn) by (clear - Hlen; unfold a1, kn; rewrite length_take; lia).
  assert (Hllow : length low = kn) by (clear - Hlen Hlq Hlt3; unfold low, kn; rewrite length_take; lia).
  assert (limbs a1 /\ limbs low) as [Ha1 Hlow] by (unfold a1, low; by split; apply Forall_take).
  destruct (mp_sub_spec a1 low 0 Ha1 Hlow) as (r & k & Hs & [Hlr1 Hr Hvr] & Hk); [congruence|clear; lia|].
  assert (Hip : in_place taba 0 (zlen tabb + 1) (fun a => mp_sub a low 0) = Some (r ++ a2, k)).
  { rewrite Htaba. apply (in_place_app []); [done| |done|by rewrite Hlr1]. clear - Hla1. unfold kn, zlen in *. lia. }
  assert (HPk : bpow a1 = LIMB_BASE * bpow tabb).
  { clear - Hla1. rewrite (bpow_length a1 (0 :: tabb)) by (by rewrite Hla1). apply bpow_cons. }
  assert (Hrv : mpz r = mpz taba - mpz tabb * mpz q).
  { rewrite (Z.mul_comm (mpz tabb)), <- Hvt3. apply (low_difference a1 a2 low (drop kn t3) r (bpow a1) _ _ k).
    - by rewrite Htaba, mpz_app.
    - rewrite (mpz_parts t3 kn) by (clear - Hlen Hlq Hlt3; unfold kn; lia). rewrite <- (bpow_take taba kn) by (clear - Hlen; unfold kn; lia). done.
    - exact Hvr.
    - pose proof (mpz_range r Hr) as Hrr. by rewrite (bpow_length r a1) in Hrr.
    - rewrite Hvt3, (Z.mul_comm (mpz q)), HPk, limb_base_val. pose proof (bpow_pos tabb). clear - HQ Hb0. lia. }
  destruct (@exists_last _ r) as (lo & top & Hre); [by destruct r; [rewrite Hla1 in Hlr1|]|].
  rewrite Hre in Hr. apply Forall_app in Hr as [Hlo Htop]. apply Forall_cons in Htop as [Htop _].
  assert (Hllo : length lo = length tabb).
  { rewrite Hre, length_app, Hla1 in Hlr1. unfold kn in Hlr1. simpl in Hlr1. clear - Hlr1. lia. }
  assert (Hov : mpz q + Z.of_nat LARGE_FIX_FUEL < bpow q).
  { change (Z.of_nat LARGE_FIX_FUEL) with 16. set (a3 := drop (length tabb) taba).
    assert (HPq : bpow q = LIMB_BASE * bpow a3).
    { rewrite (bpow_length q (0 :: a3)); [apply bpow_cons|]. unfold a3. simpl. rewrite length_drop. clear - Hlq. lia. }
    assert (HPa : bpow taba = bpow tabb * bpow a3).
    { rewrite <- bpow_app. apply bpow_length. unfold a3. rewrite length_app, length_drop. clear - Hlen. lia. }
    pose proof (mpz_range taba Ha) as Hra. rewrite HPa in Hra. rewrite HPq. pose proof (bpow_pos a3) as Hp3.
    generalize dependent (bpow a3). intros P3 _ _ Hra Hp3. clear - Hra Hp3 HQ Hb0 Hb2.
    assert (Hm : mpz tabb * mpz q < mpz tabb * (2 * P3)).
    { apply Z.le_lt_trans with (mpz taba); [lia|]. apply Z.lt_le_trans with (bpow tabb * P3); [lia|].
      transitivity (2 * mpz tabb * P3); [apply Z.mul_le_mono_nonneg_r; lia|lia]. }
    apply Z.mul_lt_mono_pos_l in Hm; [|lia]. rewrite limb_base_val. lia. }
  destruct (large_fix_spec LARGE_FIX_FUEL q tabb lo top a2) as (q' & lo' & rest' & Hfix & Hq' & Hlq' & Hlo' & Hllo' & Hlrest & Hval & Hless);
    [done|done|done|done|done|apply Hb0| |done|].
  { rewrite <- Hre, Hrv. change (Z.of_nat LARGE_FIX_FUEL) with 16. clear - HQ Hb0. lia. }
  exists low, (r ++ a2), k, q', (lo' ++ rest'). split; [done|]. split; [done|].
  split; [by rewrite Hre, <- app_assoc|].
  assert (Htk : take (length tabb) (lo' ++ rest') = lo') by (rewrite <- Hllo'; apply take_app_length).
  split; rewrite ?Htk; try done.
  - clear - Hllo' Hlrest Hlen. unfold a2, kn in Hlrest. rewrite length_app. rewrite length_drop in Hlrest. lia.
  - rewrite <- Hre, Hrv in Hval. clear - Hval. lia.
Qed.

Lemma mp_divnorm_large_spec o tabq taba tabb bl b1 :
  norm_divisor tabb bl b1 -> limbs taba -> 2 <= zlen tabb -> zlen tabb < zlen taba ->
  length tabq = S (length taba - length tabb) ->
  or_refused (mp_divnorm_large o tabq taba tabb) (fun '(q, a) => divides (length tabq) taba tabb q a).
Proof.
  intros Hb Ha Hnb Hna Hlq. pose proof (norm_divisor_limbs _ _ _ Hb) as Hbl.
  destruct (norm_divisor_value _ _ _ Hb) as (_ & _ & Hb2 & Hb0). unfold mp_divnorm_large.
  set (na := zlen taba) in *. set (nb := zlen tabb) in *. set (nq := na - nb).
  rewrite (proj2 (Z.leb_le 1 nq)) by (unfold nq; lia). set (n := if nq <? nb then nq + 1 else nq).
  assert (Hn : 1 <= n /\ nq <= n <= nq + 1 /\ n + 1 <= na) by (unfold n, nq; case_match; bool_props; lia).
  assert (Hnq : nq = na - nb) by done. assert (Hzq : zlen tabq = nq + 1) by (unfold nq, na, nb, zlen in *; lia).
  clearbody n nq. destruct Hn as (Hn1 & Hn2 & Hn3).
  destruct (bf_malloc_spec o (n + 1)) as [(o1 & inv & -> & Hinv)|(o1 & -> & Href)]; [lia| |].
  2:{ destruct (bf_malloc o1 _) as [o2 tabt]. eexists _, _; by split. }
  destruct (bf_malloc_spec o1 (2 * (n + 1))) as [(o2 & t & -> & Ht)|(o2 & -> & Href)]; [lia| |eexists _, _; by split].
  destruct (large_divisor_spec t tabb n bl b1 Hb Hn1 Ht) as (d & rest & over & Hdiv & Hld & Hlr & _).
  rewrite Hdiv. cbn [mbind option_bind].
  destruct (large_inverse o2 inv t tabb n bl b1 d rest over Hb Hn1 Ht Hinv Hdiv Hld) as (o3 & res & -> & Hres).
  cbn [mbind option_bind]. destruct res as [I|]; [|eexists _, _; by split]. destruct Hres as (HI & HlI & HIb).
  rewrite zslice_in_range by (unfold na in *; lia). cbn [mbind option_bind].
  set (en := Z.to_nat (na - (n + 1))). set (atop := take (Z.to_nat (n + 1)) (drop en taba)).
  assert (Hat : atop = drop en taba) by (apply take_ge; rewrite length_drop; unfold en, na in *; len_lia).
  assert (Hal : limbs atop) by (rewrite Hat; by apply Forall_drop).
  assert (Hlat : zlen atop = n + 1) by (rewrite Hat; unfold en, na, zlen in *; rewrite length_drop; lia).
  destruct (mp_mul_spec o3 (d ++ rest) I atop HI Hal) as (o4 & res & -> & Hres);
    [destruct atop; [unfold zlen in Hlat; simpl in Hlat; lia|done]|unfold zlen in *; rewrite length_app; lia|].
  cbn [mbind option_bind]. destruct res as [t1|]; [|eexists _, _; by split]. destruct Hres as (Ht1 & Hlt1 & Hvt1).
  rewrite zslice_in_range by (len_lia). cbn [mbind option_bind].
  set (gn := Z.to_nat (2 * (n + 1) - (nq + 1))). set (q := take (Z.to_nat (nq + 1)) (drop gn t1)).
  assert (Hqe : q = drop gn t1) by (apply take_ge; rewrite length_drop; unfold gn in *; len_lia).
  assert (Hql : limbs q) by (rewrite Hqe; by apply Forall_drop).
  assert (Hlq1 : zlen q = nq + 1) by (rewrite Hqe; unfold gn, zlen in *; rewrite length_drop; lia).
  rewrite zsplice_all by (len_lia). cbn [mbind option_bind].
  set (Pe := LIMB_BASE ^ (na - (n + 1))). set (Pg := LIMB_BASE ^ (2 * (n + 1) - (nq + 1))). set (Pn := LIMB_BASE ^ n) in *.
  assert (HQ : 0 <= mpz taba - mpz tabb * mpz q < 10 * mpz tabb).
  { apply (large_estimate (bpow tabb) Pn Pe Pg (mpz tabb) (mpz I) (mpz taba) (mpz atop) (mpz q)).
    - apply base_pow_pos. lia.
    - apply base_pow_pos. lia.
    - unfold Pe, Pg, Pn, bpow. rewrite <- !base_pow_add by (lia || apply zlen_nonneg). f_equal. fold nb. lia.
    - apply base_pow_pos. lia.
    - done.
    - apply (Z.mul_le_mono_pos_l _ _ 2); [lia|]. transitivity (bpow tabb); [|done]. unfold bpow. fold nb.
      assert (Pe <= LIMB_BASE ^ (nb - 1)) by (apply Z.pow_le_mono_r; [done|lia]).
      replace nb with (1 + (nb - 1)) by lia. rewrite base_pow_add by lia. change (LIMB_BASE ^ 1) with LIMB_BASE.
      assert (0 < Pe) by (apply base_pow_pos; lia). rewrite limb_base_val at 1. lia.
    - split; [apply mpz_range; done|]. pose proof (mpz_range taba Ha) as Hr. 
      apply Z.lt_le_trans with (bpow taba); [lia|]. unfold bpow, Pn. fold na nb. rewrite <- base_pow_add by lia.
      apply Z.pow_le_mono_r; [done|lia].
    - apply mpz_range. done.
    - done.
    - rewrite Hat, (proj2 (mpz_take_drop taba en Ha ltac:(unfold en, na in *; len_lia))). f_equal. unfold Pe. f_equal. unfold en. lia.
    - rewrite Hqe, (proj2 (mpz_take_drop t1 gn Ht1 ltac:(unfold gn in *; len_lia))), Hvt1. f_equal. unfold Pg. f_equal. unfold gn. lia. }
  clear HIb Hvt1. generalize (bf_free (bf_free o4 (Some t)) (Some inv)) as o5. intros o5.
  destruct (bf_malloc_spec o5 (na + 1)) as [(o6 & t2 & -> & Ht2)|(o6 & -> & Href)]; [lia| |eexists _, _; by split].
  pose proof (zslice_app [] q []) as Hz. cbn [app] in Hz. rewrite app_nil_r, Hlq1 in Hz. change (zlen []) with 0 in Hz.
  rewrite Hz. cbn [mbind option_bind].
  assert (Hll : (length tabb < length taba)%nat) by (clear - Hna; unfold na, nb, zlen in *; lia).
  assert (Hlqq : length q = S (length taba - length tabb)) by (clear - Hlq1 Hnq Hna; unfold na, nb, zlen in *; lia).
  clearbody q. clear - Hb Ha Hll Hlqq Hql Hbl HQ Fok Ht2 Hnb Hlq.
  destruct (mp_mul_spec o6 t2 q tabb Hql Hbl) as (o7 & res & -> & Hres);
    [destruct tabb; [unfold nb, zlen in Hnb; simpl in Hnb; lia|done]|unfold na, nb in *; len_lia|].
  cbn [mbind option_bind]. destruct res as [t3|]; [|eexists _, _; by split].
  destruct (large_finish taba tabb q t3 bl b1 Hb Ha Hql Hll Hlqq Hres HQ) as (low & a' & k & q' & a'' & Hz & Hip & Hfix & Hd).
  fold nb in Hz, Hip.
  rewrite Hz. cbn [mbind option_bind]. rewrite Hip. cbn [mbind option_bind]. rewrite Hfix. cbn [mbind option_bind].
  eexists _, _. split; [done|]. by rewrite Hlq, <- Hlqq.
Qed.

Lemma mp_divnorm_spec o tabq taba tabb bl b1 :
  norm_divisor tabb bl b1 -> limbs taba -> (length tabb <= length taba)%nat ->
  length tabq = S (length taba - length tabb) ->
  or_refused (mp_divnorm o tabq taba tabb) (fun '(q, a) => divides (length tabq) taba tabb q a).
Proof.
  intros Hb Ha Hle Hlq.
  destruct (mp_divnorm_with_spec mp_divnorm_large o tabq taba tabb bl b1 Hb Ha Hle Hlq) as (o' & r & Heq & Hr).
  { intros Hlg. unfold DIVNORM_LARGE_THRESHOLD, bf_min in Hlg.
    apply (mp_divnorm_large_spec o tabq taba tabb bl b1 Hb Ha); [| |done]; case_match; bool_props; lia. }
  exists o', r. split; [exact Heq|]. by destruct r as [[q a]|].
Qed.
End Divnorm.

(** ** Properties *)


(** The product by the schoolbook method, as an instance of the interface of [fft_mul]. *)
Definition school_mul : @FftMul malloc_ok := fun o a b =>
  (o, match b with [] => Some (replicate (length a) 0) | _ => mp_mul_basecase (replicate (length a + length b) 0) a b end).

Lemma school_mul_ok : @FftMulOk malloc_ok school_mul.
Proof.
  intros o a b o' r Ha Hb [= <- <-]. destruct b as [|x b].
  - split; [apply limbs_zeros|]. split; [rewrite length_replicate; simpl; lia|]. rewrite mpz_zeros. cbn. lia.
  - destruct (mp_mul_basecase_spec (replicate (length a + length (x :: b)) 0) a (x :: b)) as (res & -> & Hr);
      [done|done|done|apply length_replicate|done].
Qed.


Example mp_divnorm_run :
  @mp_divnorm malloc_ok school_mul tt [0; 0] [7; 5; 3] [11; 2 ^ 63] = Some (tt, Some ([6; 0], [2 ^ 64 - 59; 4; 0])).
Proof. vm_compute. reflexivity. Qed.
