(* ===== verification/BfSqrt.v ===== *)
(** Integer square roots in [libbf.c]: [mp_sqrtrem1] for one limb (a table and two steps of
    doubling the precision), [bf_isqrt], [mp_sqrtrem2] for two limbs and the recursive
    [mp_sqrtrem] for any number of limbs. *)

From S2P Require Import Prelude CutilsH DynBuf BfLimbs BfDiv BfRecip.

Definition sqrt_table : list Z := [
  128; 128; 129; 130; 131; 132; 133; 134; 135; 136; 137; 138; 139; 140; 141;
  142; 143; 144; 144; 145; 146; 147; 148; 149; 150; 150; 151; 152; 153; 154;
  155; 155; 156; 157; 158; 159; 160; 160; 161; 162; 163; 163; 164; 165; 166;
  167; 167; 168; 169; 170; 170; 171; 172; 173; 173; 174; 175; 176; 176; 177;
  178; 178; 179; 180; 181; 181; 182; 183; 183; 184; 185; 185; 186; 187; 187;
  188; 189; 189; 190; 191; 192; 192; 193; 193; 194; 195; 195; 196; 197; 197;
  198; 199; 199; 200; 201; 201; 202; 203; 203; 204; 204; 205; 206; 206; 207;
  208; 208; 209; 209; 210; 211; 211; 212; 212; 213; 214; 214; 215; 215; 216;
  217; 217; 218; 218; 219; 219; 220; 221; 221; 222; 222; 223; 224; 224; 225;
  225; 226; 226; 227; 227; 228; 229; 229; 230; 230; 231; 231; 232; 232; 233;
  234; 234; 235; 235; 236; 236; 237; 237; 238; 238; 239; 240; 240; 241; 241;
  242; 242; 243; 243; 244; 244; 245; 245; 246; 246; 247; 247; 248; 248; 249;
  249; 250; 250; 251; 251; 252; 252; 253; 253; 254; 254; 255].

(** One step: from the root of the high half and the remainder, with [k] more bits. *)
Definition sqrt_refine (s1 r1 mid low k : Z) : Z * Z :=
  let num := u64 (r1 ≪ k) .| mid in
  let q := num / u64 (2 * s1) in
  let u := num mod u64 (2 * s1) in
  let s := u64 (u64 (s1 ≪ k) + q) in
  let r := u64 (u ≪ k) .| low in
  let r := u64 (r - u64 (q * q)) in
  if i64 r <? 0 then
    let s := u64 (s - 1) in
    (s, u64 (r + u64 (2 * s + 1)))
  else (s, r).

(** The root and the remainder. *)
Definition mp_sqrtrem1 (a : Z) : option (Z * Z) :=
  s1 ← zget sqrt_table (u64 ((a ≫ (LIMB_BITS - 8)) - 64));
  let r1 := u64 ((a ≫ (LIMB_BITS - 16)) - s1 * s1) in
  let '(s1, r1) := if 2 * s1 <? r1 then (s1 + 1, u64 (r1 - (2 * s1 + 1))) else (s1, r1) in
  let '(s, r) := sqrt_refine s1 r1 ((a ≫ (LIMB_BITS - 32 + 8)) .& 0xff) ((a ≫ (LIMB_BITS - 32)) .& 0xff) 8 in
  Some (sqrt_refine s r ((a ≫ (LIMB_BITS - 64 + 16)) .& 0xffff) ((a ≫ (LIMB_BITS - 64)) .& 0xffff) 16).

(** [libbf]'s [clz], which is defined on zero. *)
Definition clz (a : Z) : Z := if a =? 0 then LIMB_BITS else 63 - Z.log2 a.

Definition bf_isqrt (a : Z) : option Z :=
  if a =? 0 then Some 0
  else
    let k := Z.land (clz a) (Z.lnot 1) in
    '(s, _) ← mp_sqrtrem1 (u64 (a ≪ k));
    Some (s ≫ (k ≫ 1)).

(** The root, the low limb of the remainder and its high limb. *)
Definition mp_sqrtrem2 (a0 a1 : Z) : option (Z * Z * Z) :=
  '(s1, r1) ← mp_sqrtrem1 a1;
  let l := LIMB_BITS / 2 in
  let num := u128 (r1 ≪ l) .| (a0 ≫ l) in
  let q := u64 (num / u64 (2 * s1)) in
  let u := u64 (num mod u64 (2 * s1)) in
  let s := u64 (u64 (s1 ≪ l) + q) in
  let r := u128 (u ≪ l) .| (a0 .& (u64 (1 ≪ l) - 1)) in
  let r := if negb (q ≫ l =? 0) then u128 (r - (1 ≪ LIMB_BITS)) else u128 (r - u64 (q * q)) in
  let '(s, r) :=
    if i64 (r ≫ LIMB_BITS) <? 0 then
      let s := u64 (s - 1) in (s, u128 (r + u128 (2 * s + 1)))
    else (s, r) in
  Some (s, u64 r, u64 (r ≫ LIMB_BITS)).

Section Sqrt.
Context `{!Allocator} `{F : !FftMul}.

(** The quotient of the remainder by twice the root of the high part: a division by the
    root, which is normalized, and a shift.  The quotient is [tabs[0..l-1]] and the high
    bit that is returned; its remainder is in [taba[l..n-1]] and the second bit. *)
Definition sqrt_quot (o : aopaque) (l h : Z) (ts tabs taba tmp_buf : list Z) (qh : Z) :
    option (aopaque * option (list Z * list Z * list Z * Z * Z)) :=
  '(taba, _) ← (if negb (qh =? 0) then in_place taba (2 * l) h (fun t => mp_sub t ts 0) else Some (taba, 0));
  tq ← zslice tmp_buf 0 (l + 1);
  tn ← zslice taba l (l + h);
  '(o, res) ← mp_divnorm o tq tn ts;
  match res with
  | None => Some (o, None)
  | Some (tq, tn) =>
      tmp_buf ← zsplice tmp_buf 0 tq;
      taba ← zsplice taba l tn;
      t ← zget tmp_buf l;
      let qh := u64 (qh + t) in
      tl ← zslice tmp_buf 0 l;
      tabs ← zsplice tabs 0 tl;
      '(tabs, ql) ← in_place tabs 0 l (fun t => mp_shr t 1 (qh .& 1));
      let qh := qh ≫ 1 in
      '(taba, rh) ← (if negb (ql =? 0) then in_place taba l h (fun t => mp_add t ts 0) else Some (taba, 0));
      '(tabs, _) ← in_place tabs l h (fun t => Some (mp_add_ui t qh));
      Some (o, Some (tabs, taba, tmp_buf, qh, rh))
  end.

(** The square of the quotient is subtracted from the low [2 l] limbs; the borrow. *)
Definition sqrt_square (o : aopaque) (l n : Z) (tabs taba : list Z) (qh : Z) : option (aopaque * option (list Z * Z)) :=
  if negb (qh =? 0) then Some (o, Some (taba, qh))
  else
    sq ← zslice taba n (2 * l);
    q ← zslice tabs 0 l;
    '(o, res) ← mp_mul o sq q q;
    match res with
    | None => Some (o, None)
    | Some sq =>
        taba ← zsplice taba n sq;
        '(taba, c) ← in_place taba 0 (2 * l) (fun t => mp_sub t sq 0);
        Some (o, Some (taba, c))
    end.

(** The borrow is propagated and a negative remainder is corrected. *)
Definition sqrt_adjust (l n : Z) (tabs taba : list Z) (c rh : Z) : option (list Z * list Z * Z) :=
  '(taba, k) ← in_place taba (2 * l) (n - 2 * l) (fun t => Some (mp_sub_ui t c));
  let rh := u64 (rh - k) in
  if i64 rh <? 0 then
    let '(tabs, _) := mp_sub_ui tabs 1 in
    '(taba, k1) ← in_place taba 0 n (fun t => mp_add_mul1 t tabs 2);
    let rh := u64 (rh + k1) in
    '(taba, k2) ← in_place taba 0 n (fun t => Some (mp_add_ui t 1));
    Some (tabs, taba, u64 (rh + k2))
  else Some (tabs, taba, rh).

(** [tabs] has [n] limbs, [taba] has [2 n] limbs; the result is [tabs], [taba], the
    temporary buffer and the high limb of the remainder. *)
Fixpoint mp_sqrtrem_rec (fuel : nat) (o : aopaque) (tabs taba tmp_buf : list Z) :
    option (aopaque * option (list Z * list Z * list Z * Z)) :=
  match fuel with
  | O => None
  | S fuel' =>
      let n := zlen tabs in
      if n =? 1 then
        a0 ← zget taba 0;
        a1 ← zget taba 1;
        '(s, r0, rh) ← mp_sqrtrem2 a0 a1;
        tabs ← zset tabs 0 s;
        taba ← zset taba 0 r0;
        Some (o, Some (tabs, taba, tmp_buf, rh))
      else
        let l := n / 2 in
        let h := n - l in
        ts ← zslice tabs l h;
        ta ← zslice taba (2 * l) (2 * h);
        '(o, res) ← mp_sqrtrem_rec fuel' o ts ta tmp_buf;
        match res with
        | None => Some (o, None)
        | Some (ts, ta, tmp_buf, qh) =>
            tabs ← zsplice tabs l ts;
            taba ← zsplice taba (2 * l) ta;
            '(o, res) ← sqrt_quot o l h ts tabs taba tmp_buf qh;
            match res with
            | None => Some (o, None)
            | Some (tabs, taba, tmp_buf, qh, rh) =>
                '(o, res) ← sqrt_square o l n tabs taba qh;
                match res with
                | None => Some (o, None)
                | Some (taba, c) =>
                    '(tabs, taba, rh) ← sqrt_adjust l n tabs taba c rh;
                    Some (o, Some (tabs, taba, tmp_buf, rh))
                end
            end
        end
  end.

(** The temporary array is on the stack when it has at most 8 limbs; its contents are
    [stack].  The high limb of the remainder is stored in [taba[n]]. *)
Definition mp_sqrtrem (o : aopaque) (stack tabs taba : list Z) : option (aopaque * option (list Z * list Z)) :=
  let n := zlen tabs in
  let n2 := n / 2 + 1 in
  let '(o, tmp_buf) := if n2 <=? zlen stack then (o, Some stack) else bf_malloc o n2 in
  match tmp_buf with
  | None => Some (o, None)
  | Some buf =>
      '(o, res) ← mp_sqrtrem_rec (length tabs) o tabs taba buf;
      let o := if n2 <=? zlen stack then o else bf_free o tmp_buf in
      match res with
      | None => Some (o, None)
      | Some (tabs, taba, _, rh) =>
          taba ← zset taba n rh;
          Some (o, Some (tabs, taba))
      end
  end.
End Sqrt.

(** ** One limb *)

(** [s] is the integer square root of [N] and [r] the remainder. *)
Definition is_root (N s r : Z) : Prop := s * s + r = N /\ 0 <= s /\ 0 <= r <= 2 * s.

Lemma is_root_sqrt N s r : is_root N s r -> s = Z.sqrt N /\ r = N - Z.sqrt N * Z.sqrt N.
Proof. intros (He & Hs & Hr). assert (Z.sqrt N = s) as -> by (apply Z.sqrt_unique; lia). lia. Qed.

(** Doubling the precision: the root of the high half gives the digits of the quotient,
    which are at most one too large. *)
Lemma sqrt_step P h s1 r1 mid low q u :
  0 < P -> is_root h s1 r1 -> P <= 2 * s1 -> 0 <= mid < P -> 0 <= low < P ->
  r1 * P + mid = q * (2 * s1) + u -> 0 <= u < 2 * s1 ->
  let s := s1 * P + q in
  let r := u * P + low - q * q in
  let N := h * (P * P) + mid * P + low in
  0 <= q <= P /\ s * s + r = N /\ (0 <= r -> is_root N s r) /\ (r < 0 -> is_root N (s - 1) (r + (2 * (s - 1) + 1))) /\
  - (2 * s - 1) <= r <= 2 * s.
Proof.
  intros HP (Hh & Hs1 & Hr1) HPs Hmid Hlow Hq Hu. cbv zeta.
  assert (Hq0 : 0 <= q) by nia. assert (HqP : q <= P) by nia.
  assert (He : (s1 * P + q) * (s1 * P + q) + (u * P + low - q * q) = h * (P * P) + mid * P + low).
  { rewrite <- Hh. assert (HuP : u * P = (r1 * P + mid - q * (2 * s1)) * P) by (f_equal; lia). rewrite HuP. ring. }
  assert (Hup : u * P + low <= 2 * (s1 * P) - 1).
  { assert (u * P <= (2 * s1 - 1) * P) by (apply Z.mul_le_mono_nonneg_r; lia). lia. }
  assert (HPP : P * P <= 2 * s1 * P) by (apply Z.mul_le_mono_nonneg_r; lia).
  assert (Hqq : q * q <= q * P) by (apply Z.mul_le_mono_nonneg_l; lia).
  assert (HqPP : q * P <= P * P) by (apply Z.mul_le_mono_nonneg_r; lia).
  assert (Hu0 : 0 <= u * P) by (apply Z.mul_nonneg_nonneg; lia).
  assert (Hs : 0 <= s1 * P) by (apply Z.mul_nonneg_nonneg; lia).
  assert (Hqq0 : 0 <= q * q) by (apply Z.mul_nonneg_nonneg; lia).
  assert (Hlow2 : - (2 * (s1 * P + q) - 1) <= u * P + low - q * q) by nia.
  split; [done|]. split; [done|]. split; [|split].
  - intros Hr. split; [done|]. lia.
  - intros Hr. split; [|split; [nia|lia]]. rewrite <- He. ring.
  - lia.
Qed.

Lemma i64_u64 x : - 2 ^ 63 <= x < 2 ^ 63 -> i64 (u64 x) = x.
Proof. unfold i64, wraps, u64, wrapu. intros. rewrite Zmod_mod. case_match; bool_props; zdm. Qed.

Lemma limb_shift_or a b k : 0 <= k -> 0 <= b < 2 ^ k -> 0 <= a * 2 ^ k < 2 ^ 64 -> u64 (a ≪ k) .| b = a * 2 ^ k + b.
Proof.
  intros Hk Hb Ha. rewrite shiftl_mul by done. rewrite u64_limb by done. apply (lor_add_comm k); [done|done|].
  apply Z.mod_mul. lia.
Qed.

Lemma mul_range a b m n : 0 <= a <= m -> 0 <= b <= n -> 0 <= a * b <= m * n.
Proof. intros. split; [apply Z.mul_nonneg_nonneg; lia|]. apply Z.mul_le_mono_nonneg; lia. Qed.

Lemma sqrt_refine_spec h s1 r1 mid low k :
  0 <= k <= 16 -> is_root h s1 r1 -> 2 ^ k <= 2 * s1 -> s1 < 2 ^ 16 -> 0 <= mid < 2 ^ k -> 0 <= low < 2 ^ k ->
  exists s r, sqrt_refine s1 r1 mid low k = (s, r) /\ is_root (h * (2 ^ k * 2 ^ k) + mid * 2 ^ k + low) s r.
Proof.
  intros Hk Hh HP Hs1 Hmid Hlow. pose proof Hh as (_ & Hs0 & Hr1). unfold sqrt_refine. cbv zeta.
  set (P := 2 ^ k) in *. assert (HP0 : 0 < P) by (apply Z.pow_pos_nonneg; lia).
  assert (HP16 : P <= 2 ^ 16) by (apply Z.pow_le_mono_r; lia). change (2 ^ 16) with 65536 in *.
  assert (Hr1P : 0 <= r1 * P <= 131072 * 65536) by (apply mul_range; lia).
  rewrite (limb_shift_or r1 mid k) by (fold P; lia). fold P.
  rewrite (u64_limb (2 * s1)) by (unfold is_limb; rewrite limb_base_val; lia).
  set (num := r1 * P + mid). pose proof (Z.div_mod num (2 * s1) ltac:(lia)) as Hd.
  pose proof (Z.mod_pos_bound num (2 * s1) ltac:(lia)) as Hm. set (q := num / (2 * s1)) in *. set (u := num mod (2 * s1)) in *.
  destruct (sqrt_step P h s1 r1 mid low q u) as (Hq & He & Hpos & Hneg & Hrange); [done|done|done|done|done|unfold num in Hd; lia|done|].
  assert (HuP : 0 <= u * P <= 131072 * 65536) by (apply mul_range; clear - Hm Hs1 HP16 HP0; lia).
  assert (Hqq : 0 <= q * q <= 65536 * 65536) by (apply mul_range; clear - Hq HP16; lia).
  assert (HsP : 0 <= s1 * P <= 65536 * 65536) by (apply mul_range; clear - Hs0 Hs1 HP16 HP0; lia).
  clear Hd. clearbody q u.
  rewrite (limb_shift_or u low k) by (fold P; lia). fold P. rewrite shiftl_mul by lia. fold P.
  assert (Hsmall : forall x, 0 <= x < 2 ^ 40 -> u64 x = x) by (intros; apply u64_limb; unfold is_limb; rewrite limb_base_val; lia).
  rewrite (Hsmall (s1 * P)), (Hsmall (s1 * P + q)), (Hsmall (q * q)) by lia.
  set (r := u * P + low - q * q) in *. set (s := s1 * P + q) in *.
  rewrite i64_u64 by lia. destruct (Z.ltb_spec r 0) as [Hr|Hr].
  - assert (Hs1' : 0 <= s - 1) by (destruct (Hneg Hr) as (_ & ? & _); done).
    rewrite (Hsmall (s - 1)) by lia. rewrite (Hsmall (2 * (s - 1) + 1)) by lia.
    exists (s - 1), (r + (2 * (s - 1) + 1)). split; [|by apply Hneg]. f_equal.
    destruct (Hneg Hr) as (_ & _ & ?). rewrite <- (Hsmall (r + (2 * (s - 1) + 1))) by lia. unfold u64, wrapu. by rewrite Zplus_mod_idemp_l.
  - exists s, r. split; [|by apply Hpos]. f_equal. apply Hsmall. lia.
Qed.

(** The table gives the root of the high byte. *)
Lemma sqrt_table_ok :
  forallb (fun i => let x := Z.of_nat i + 64 in
    match zget sqrt_table (x - 64) with Some t => (t * t <=? 256 * x) && (256 * x <? (t + 1) * (t + 1)) | None => false end)
    (seq 0 192) = true.
Proof. vm_compute. reflexivity. Qed.

Lemma sqrt_table_root x :
  64 <= x < 256 -> exists t, zget sqrt_table (x - 64) = Some t /\ t * t <= 256 * x < (t + 1) * (t + 1) /\ 0 <= t.
Proof.
  intros Hx. pose proof sqrt_table_ok as Hok. rewrite forallb_forall in Hok.
  specialize (Hok (Z.to_nat (x - 64)) ltac:(apply in_seq; lia)). cbv zeta in Hok.
  replace (Z.of_nat (Z.to_nat (x - 64)) + 64) with x in Hok by lia.
  assert (Hpos : Forall (fun t => 0 <= t) sqrt_table) by (repeat (constructor; [lia|]); constructor).
  destruct (zget sqrt_table (x - 64)) as [t|] eqn:Ht; [|done]. bool_props. exists t. split; [done|]. split; [lia|].
  rewrite zget_lookup in Ht by lia. rewrite Forall_lookup in Hpos. by eapply Hpos.
Qed.

Lemma field_bits a p k : 0 <= p -> 0 <= k -> (a ≫ p) .& Z.ones k = a / 2 ^ p mod 2 ^ k.
Proof. intros. rewrite land_mask, shiftr_div by done. done. Qed.

Lemma is_root_lower N s r m : is_root N s r -> 0 <= m -> m * m <= N -> m <= s.
Proof. intros (He & Hs & Hr) Hm HN. destruct (Z.le_gt_cases m s) as [|Hlt]; [done|]. exfalso.
  assert ((s + 1) * (s + 1) <= m * m) by (apply Z.mul_le_mono_nonneg; lia). lia. Qed.

Lemma is_root_upper N s r m : is_root N s r -> 0 <= m -> N < m * m -> s < m.
Proof. intros (He & Hs & Hr) Hm HN. destruct (Z.lt_ge_cases s m) as [|Hge]; [done|]. exfalso.
  assert (m * m <= s * s) by (apply Z.mul_le_mono_nonneg; lia). lia. Qed.

Lemma sqrt_correct N t :
  0 <= t <= 2 ^ 16 -> t * t <= N < (t + 2) * (t + 2) -> N < 2 ^ 32 ->
  exists s r, (if 2 * t <? u64 (N - t * t) then (t + 1, u64 (u64 (N - t * t) - (2 * t + 1))) else (t, u64 (N - t * t))) = (s, r) /\ is_root N s r.
Proof.
  intros Ht HN H32. rewrite (u64_limb (N - t * t)) by (unfold is_limb; rewrite limb_base_val; lia).
  destruct (Z.ltb_spec (2 * t) (N - t * t)).
  - rewrite u64_limb by (unfold is_limb; rewrite limb_base_val; lia). eexists _, _. split; [done|]. split; lia.
  - eexists _, _. split; [done|]. split; lia.
Qed.

Lemma div_pow_split a p k : 0 <= p -> 0 <= k -> a / 2 ^ p = a / 2 ^ (p + k) * 2 ^ k + a / 2 ^ p mod 2 ^ k.
Proof. intros Hp Hk. rewrite Z.pow_add_r, <- Z.div_div by lia. rewrite (Z.mul_comm _ (2 ^ k)). apply Z.div_mod. lia. Qed.

Lemma mp_sqrtrem1_spec a :
  2 ^ 62 <= a < 2 ^ 64 -> exists s r, mp_sqrtrem1 a = Some (s, r) /\ is_root a s r.
Proof.
  intros Ha. unfold mp_sqrtrem1. rewrite limb_bits_val. change (64 - 8) with 56. change (64 - 16) with 48.
  change (64 - 32 + 8) with 40. change (64 - 32) with 32. change (64 - 64 + 16) with 16. change (64 - 64) with 0.
  change 0xff with (Z.ones 8). change 0xffff with (Z.ones 16). rewrite !field_bits by lia. rewrite !shiftr_div by lia.
  assert (Hx : 64 <= a / 2 ^ 56 < 256) by zdm. destruct (sqrt_table_root _ Hx) as (t & Ht & Hroot & Ht0).
  rewrite u64_limb by (unfold is_limb; rewrite limb_base_val; lia). rewrite Ht. cbn [mbind option_bind].
  pose proof (div_pow_split a 48 8 ltac:(lia) ltac:(lia)) as H48. pose proof (div_pow_split a 40 8 ltac:(lia) ltac:(lia)) as H40.
  pose proof (div_pow_split a 32 8 ltac:(lia) ltac:(lia)) as H32. pose proof (div_pow_split a 16 16 ltac:(lia) ltac:(lia)) as H16.
  pose proof (div_pow_split a 0 16 ltac:(lia) ltac:(lia)) as H0. change (48 + 8) with 56 in *. change (40 + 8) with 48 in *.
  change (32 + 8) with 40 in *. change (16 + 16) with 32 in *. change (0 + 16) with 16 in *.
  rewrite (Z.pow_0_r 2), Z.div_1_r in H0. rewrite (Z.pow_0_r 2), Z.div_1_r.
  pose proof (fun p k (H : 0 <= k) => Z.mod_pos_bound (a / 2 ^ p) (2 ^ k) ltac:(apply Z.pow_pos_nonneg; lia)) as Hmod.
  pose proof (Hmod 48 8 ltac:(lia)). pose proof (Hmod 40 8 ltac:(lia)). pose proof (Hmod 32 8 ltac:(lia)). pose proof (Hmod 16 16 ltac:(lia)).
  pose proof (Z.mod_pos_bound a (2 ^ 16) ltac:(lia)). clear Hmod.
  set (a56 := a / 2 ^ 56) in *. set (a48 := a / 2 ^ 48) in *. set (a40 := a / 2 ^ 40) in *. set (a32 := a / 2 ^ 32) in *. set (a16 := a / 2 ^ 16) in *.
  set (m48 := a48 mod 2 ^ 8) in *. set (m40 := a40 mod 2 ^ 8) in *. set (m32 := a32 mod 2 ^ 8) in *. set (m16 := a16 mod 2 ^ 16) in *. set (m0 := a mod 2 ^ 16) in *.
  clearbody a56 a48 a40 a32 a16 m48 m40 m32 m16 m0.
  assert (Ht128 : 128 <= t <= 255) by nia.
  destruct (sqrt_correct a48 t) as (s1 & r1 & -> & Hr1); [lia|lia|lia|].
  pose proof (is_root_lower _ _ _ 128 Hr1 ltac:(lia) ltac:(lia)). pose proof (is_root_upper _ _ _ 256 Hr1 ltac:(lia) ltac:(lia)).
  destruct (sqrt_refine_spec a48 s1 r1 m40 m32 8) as (s2 & r2 & -> & Hr2); [lia|done|lia|lia|lia|lia|].
  replace (a48 * (2 ^ 8 * 2 ^ 8) + m40 * 2 ^ 8 + m32) with a32 in Hr2 by lia.
  pose proof (is_root_lower _ _ _ (2 ^ 15) Hr2 ltac:(lia) ltac:(lia)). pose proof (is_root_upper _ _ _ (2 ^ 16) Hr2 ltac:(lia) ltac:(lia)).
  destruct (sqrt_refine_spec a32 s2 r2 m16 m0 16) as (s3 & r3 & -> & Hr3); [lia|done|lia|lia|lia|lia|].
  replace (a32 * (2 ^ 16 * 2 ^ 16) + m16 * 2 ^ 16 + m0) with a in Hr3 by lia. by eexists _, _.
Qed.
Lemma is_root_lt N s r m : is_root N s r -> 0 <= m -> N < m * m -> 0 <= s < m.
Proof. intros HN Hm Hlt. split; [by destruct HN as (_ & ? & _)|]. by eapply is_root_upper. Qed.

Lemma root_scaled a j s r : 0 <= a -> 0 <= j -> is_root (a * 2 ^ (2 * j)) s r -> s / 2 ^ j = Z.sqrt a.
Proof.
  intros Ha Hj Hs. pose proof (Z.sqrt_spec a Ha) as [Hlo Hhi]. set (m := Z.sqrt a) in *. assert (Hm : 0 <= m) by apply Z.sqrt_nonneg.
  assert (HP : 0 < 2 ^ j) by (apply Z.pow_pos_nonneg; lia).
  assert (Hpow : 2 ^ (2 * j) = 2 ^ j * 2 ^ j) by (rewrite <- Z.pow_add_r by lia; f_equal; lia). rewrite Hpow in Hs. set (P := 2 ^ j) in *.
  assert (H1 : m * P <= s).
  { apply (is_root_lower _ _ _ _ Hs); [apply Z.mul_nonneg_nonneg; lia|]. replace (m * P * (m * P)) with (m * m * (P * P)) by ring.
    apply Z.mul_le_mono_nonneg_r; [apply Z.mul_nonneg_nonneg; lia|done]. }
  assert (H2 : s < (m + 1) * P).
  { apply (is_root_upper _ _ _ _ Hs); [apply Z.mul_nonneg_nonneg; lia|]. replace ((m + 1) * P * ((m + 1) * P)) with ((m + 1) * (m + 1) * (P * P)) by ring.
    apply Z.mul_lt_mono_pos_r; [apply Z.mul_pos_pos; lia|unfold Z.succ in Hhi; lia]. }
  symmetry. apply (Z.div_unique s P m (s - m * P)); lia.
Qed.

Lemma clz_even a :
  0 < a < 2 ^ 64 -> exists j, Z.land (clz a) (Z.lnot 1) = 2 * j /\ 0 <= j /\ 2 ^ 62 <= a * 2 ^ (2 * j) < 2 ^ 64.
Proof.
  intros Ha. unfold clz. case_match; bool_props; [lia|]. pose proof (Z.log2_spec a ltac:(lia)) as [Hlo Hhi].
  assert (Hl : 0 <= Z.log2 a <= 63).
  { split; [apply Z.log2_nonneg|]. assert (Z.log2 a < 64) by (apply Z.log2_lt_pow2; lia). lia. }
  set (l := Z.log2 a) in *. exists ((63 - l) / 2). rewrite <- Z.ldiff_land. change 1 with (Z.ones 1). rewrite Z.ldiff_ones_r by lia.
  rewrite shiftr_div, shiftl_mul by lia. change (2 ^ 1) with 2. set (j := (63 - l) / 2). assert (Hj : 2 * j <= 63 - l <= 2 * j + 1) by (unfold j; zdm).
  split; [lia|]. split; [lia|].
  assert (HP : 0 < 2 ^ (2 * j)) by (apply Z.pow_pos_nonneg; lia). split.
  - apply Z.le_trans with (2 ^ (l + 2 * j)); [apply Z.pow_le_mono_r; lia|]. rewrite Z.pow_add_r by lia. apply Z.mul_le_mono_nonneg_r; lia.
  - apply Z.lt_le_trans with (2 ^ (Z.succ l + 2 * j)); [|apply Z.pow_le_mono_r; lia]. rewrite Z.pow_add_r by lia. apply Z.mul_lt_mono_pos_r; lia.
Qed.

Lemma bf_isqrt_spec a : 0 <= a < 2 ^ 64 -> bf_isqrt a = Some (Z.sqrt a).
Proof.
  intros Ha. unfold bf_isqrt. destruct (Z.eqb_spec a 0) as [->|Hne]; [done|]. destruct (clz_even a ltac:(lia)) as (j & -> & Hj & Hr).
  rewrite shiftl_mul by lia. rewrite u64_limb by (unfold is_limb; rewrite limb_base_val; lia).
  destruct (mp_sqrtrem1_spec _ Hr) as (s & r & -> & Hs). cbn [mbind option_bind]. f_equal. rewrite (shiftr_div (2 * j) 1) by lia.
  replace (2 * j / 2 ^ 1) with j by (rewrite Z.mul_comm, Z.div_mul; lia). rewrite shiftr_div by lia. apply (root_scaled a j s r); [lia|done|done].
Qed.

Lemma u128_small x : 0 <= x < 2 ^ 128 -> u128 x = x.
Proof. intros. unfold u128, wrapu. by apply Z.mod_small. Qed.

Lemma high_sign r : - 2 ^ 66 <= r <= 2 ^ 66 -> (i64 (u128 r ≫ 64) <? 0) = (r <? 0).
Proof.
  intros Hr. rewrite shiftr_div by lia. destruct (Z.ltb_spec r 0) as [Hn|Hp].
  - assert (u128 r = r + 2 ^ 128) as -> by (unfold u128, wrapu; rewrite <- (Z_mod_plus_full r 1), Z.mul_1_l; apply Z.mod_small; lia).
    apply Z.ltb_lt. set (x := (r + 2 ^ 128) / 2 ^ 64). assert (2 ^ 64 - 5 <= x < 2 ^ 64) by (unfold x; zdm).
    unfold i64, wraps, wrapu. case_match; bool_props; zdm.
  - rewrite u128_small by lia. apply Z.ltb_ge. set (x := r / 2 ^ 64). assert (0 <= x <= 4) by (unfold x; zdm).
    unfold i64, wraps, wrapu. case_match; bool_props; zdm.
Qed.

Lemma mp_sqrtrem2_spec a0 a1 :
  is_limb a0 -> 2 ^ 62 <= a1 < 2 ^ 64 ->
  exists s r, mp_sqrtrem2 a0 a1 = Some (s, r mod LIMB_BASE, r / LIMB_BASE) /\ is_limb s /\ is_root (a1 * LIMB_BASE + a0) s r.
Proof.
  unfold is_limb. rewrite limb_base_val. intros Ha0 Ha1. unfold mp_sqrtrem2. destruct (mp_sqrtrem1_spec _ Ha1) as (s1 & r1 & -> & Hroot).
  cbn [mbind option_bind]. rewrite limb_bits_val. change (64 / 2) with 32. cbv zeta. rewrite (shiftr_div a0 32) by lia.
  pose proof (is_root_lower _ _ _ (2 ^ 31) Hroot ltac:(lia) ltac:(lia)) as Hs1. pose proof (is_root_upper _ _ _ (2 ^ 32) Hroot ltac:(lia) ltac:(lia)) as Hs1'.
  pose proof Hroot as (_ & _ & Hr1). change (u64 (1 ≪ 32) - 1) with (Z.ones 32). rewrite Z.land_ones by lia.
  pose proof (Z.div_mod a0 (2 ^ 32) ltac:(lia)) as Hdm. pose proof (Z.mod_pos_bound a0 (2 ^ 32) ltac:(lia)) as Hlow.
  assert (Hmid : 0 <= a0 / 2 ^ 32 < 2 ^ 32) by (clear - Ha0; zdm). set (mid := a0 / 2 ^ 32) in *. set (low := a0 mod 2 ^ 32) in *. clearbody mid low.
  rewrite (u64_limb (2 * s1)) by (unfold is_limb; rewrite limb_base_val; lia).
  rewrite (shiftl_mul r1 32), (u128_small (r1 * 2 ^ 32)) by lia. rewrite (lor_add_comm 32 mid) by (lia || apply Z.mod_mul; lia).
  set (num := r1 * 2 ^ 32 + mid). pose proof (Z.div_mod num (2 * s1) ltac:(lia)) as Hd.
  pose proof (Z.mod_pos_bound num (2 * s1) ltac:(lia)) as Hm. set (q := num / (2 * s1)) in *. set (u := num mod (2 * s1)) in *.
  destruct (sqrt_step (2 ^ 32) a1 s1 r1 mid low q u) as (Hq & He & Hpos & Hneg & Hrange); [lia|done|lia|done|done|unfold num in Hd; lia|done|].
  clear Hd. clearbody q u. rewrite (u64_limb q), (u64_limb u) by (unfold is_limb; rewrite limb_base_val; lia).
  rewrite (shiftl_mul u 32), (u128_small (u * 2 ^ 32)) by lia. rewrite (lor_add_comm 32 low) by (lia || apply Z.mod_mul; lia).
  rewrite (shiftl_mul s1 32), (u64_limb (s1 * 2 ^ 32)) by (lia || (unfold is_limb; rewrite limb_base_val; lia)).
  assert (Hqq : q < 2 ^ 32 -> 0 <= q * q <= (2 ^ 32 - 1) * (2 ^ 32 - 1)) by (intros; apply mul_range; lia).
  assert ((if negb (q ≫ 32 =? 0) then u128 (u * 2 ^ 32 + low - (1 ≪ 64)) else u128 (u * 2 ^ 32 + low - u64 (q * q))) = u128 (u * 2 ^ 32 + low - q * q)) as ->.
  { rewrite shiftr_div by lia. destruct (Z.eqb_spec (q / 2 ^ 32) 0) as [Hz|Hz]; simpl negb; cbv iota.
    - assert (Hlt : q < 2 ^ 32) by (clear - Hz Hq; zdm). rewrite (u64_limb (q * q)); [done|]. specialize (Hqq Hlt). unfold is_limb. rewrite limb_base_val. lia.
    - assert (q = 2 ^ 32) as -> by (clear - Hz Hq; zdm). done. }
  set (r := u * 2 ^ 32 + low - q * q) in *. set (s := s1 * 2 ^ 32 + q) in *.
  replace (a1 * (2 ^ 32 * 2 ^ 32) + mid * 2 ^ 32 + low) with (a1 * 2 ^ 64 + a0) in * by lia.
  assert (Hs : 0 <= s <= 2 ^ 64) by (unfold s; lia). rewrite high_sign by lia. clearbody s r. destruct (Z.ltb_spec r 0) as [Hr|Hr].
  - specialize (Hneg Hr). pose proof (is_root_lt _ _ _ (2 ^ 64) Hneg ltac:(lia) ltac:(lia)) as Hs2.
    assert (u64 (u64 s - 1) = s - 1) as -> by (unfold u64, wrapu; rewrite Zminus_mod_idemp_l; apply Z.mod_small; lia).
    rewrite (u128_small (2 * (s - 1) + 1)) by lia.
    assert (u128 (u128 r + (2 * (s - 1) + 1)) = r + (2 * (s - 1) + 1)) as ->.
    { unfold u128, wrapu. rewrite Zplus_mod_idemp_l. apply Z.mod_small. destruct Hneg as (_ & _ & ?). lia. }
    destruct Hneg as (Hn1 & Hn2 & Hn3). set (r' := r + (2 * (s - 1) + 1)) in *. exists (s - 1), r'. rewrite (shiftr_div r' 64) by lia.
    rewrite (u64_limb (r' / _)) by (unfold is_limb; rewrite limb_base_val; clear - Hn3 Hs2; zdm). split; [done|]. split; [clear - Hs2; lia|]. by split.
  - specialize (Hpos Hr). pose proof (is_root_lt _ _ _ (2 ^ 64) Hpos ltac:(lia) ltac:(lia)) as Hs2.
    rewrite (u64_limb s) by (unfold is_limb; rewrite limb_base_val; lia). rewrite (u128_small r) by lia. exists s, r. rewrite (shiftr_div r 64) by lia.
    rewrite (u64_limb (r / _)) by (unfold is_limb; rewrite limb_base_val; clear - Hr Hrange Hs2; zdm). split; [done|]. split; [clear - Hs2; lia|]. exact Hpos.
Qed.

(** ** Any number of limbs *)

Lemma norm_of_value l : limbs l -> l <> [] -> bpow l <= 2 * mpz l -> exists bl b1, norm_divisor l bl b1.
Proof.
  intros Hl Hne Hv. destruct (@exists_last _ l Hne) as (bl & b1 & ->). exists bl, b1. split; [done|].
  apply Forall_app in Hl as [Hbl Hb1]. apply Forall_cons in Hb1 as [[Hb0 Hb1] _]. split; [done|]. split; [|done].
  rewrite bpow_app, mpz_app, bpow_cons, bpow_nil, mpz_cons in Hv. cbn [mpz foldr] in Hv. pose proof (mpz_range bl Hbl) as Hr.
  destruct (Z.le_gt_cases LIMB_BASE (2 * b1)) as [|Hlt]; [done|]. exfalso.
  assert (He : LIMB_BASE = 2 * (LIMB_BASE / 2)) by done. set (H := LIMB_BASE / 2) in *. clearbody H.
  assert (bpow bl * (b1 + 1) <= bpow bl * H) by (apply Z.mul_le_mono_nonneg_l; lia). lia.
Qed.

Lemma zslice_head {A} (s l2 : list A) n : n = zlen s -> zslice (s ++ l2) 0 n = Some s.
Proof. intros ->. apply (zslice_app [] s l2). Qed.

Lemma zslice_part {A} (l1 s l2 : list A) p n : p = zlen l1 -> n = zlen s -> zslice (l1 ++ s ++ l2) p n = Some s.
Proof. intros -> ->. apply zslice_app. Qed.

Lemma zslice_end {A} (l1 s : list A) p n : p = zlen l1 -> n = zlen s -> zslice (l1 ++ s) p n = Some s.
Proof. intros -> ->. pose proof (zslice_app l1 s []) as He. by rewrite app_nil_r in He. Qed.

Lemma zsplice_head {A} (s l2 t : list A) : length s = length t -> zsplice (s ++ l2) 0 t = Some (t ++ l2).
Proof. apply (zsplice_app [] s l2 t). Qed.

Lemma zsplice_part {A} (l1 s l2 t : list A) p :
  p = zlen l1 -> length s = length t -> zsplice (l1 ++ s ++ l2) p t = Some (l1 ++ t ++ l2).
Proof. intros ->. apply zsplice_app. Qed.

Lemma in_place_0 {R} s l2 n (f : list Z -> option (list Z * R)) s' r :
  n = zlen s -> f s = Some (s', r) -> length s = length s' -> in_place (s ++ l2) 0 n f = Some (s' ++ l2, r).
Proof. intros. by apply (in_place_app [] s l2). Qed.

Lemma in_place_end {R} l1 s p n (f : list Z -> option (list Z * R)) s' r :
  p = zlen l1 -> n = zlen s -> f s = Some (s', r) -> length s = length s' -> in_place (l1 ++ s) p n f = Some (l1 ++ s', r).
Proof. intros Hp Hn Hf Hl. pose proof (in_place_app l1 s [] p n f s' r Hp Hn Hf Hl) as He. by rewrite !app_nil_r in He. Qed.

(** The high bit of the remainder, which has one bit more than the root. *)
Lemma reduce_high ts R pre G qh l h :
  limbs ts -> limbs R -> length R = length ts -> 2 * l = zlen pre -> h = zlen ts ->
  0 <= qh <= 1 -> mpz R + bpow ts * qh <= 2 * mpz ts ->
  exists R' k, (if negb (qh =? 0) then in_place (pre ++ R ++ G) (2 * l) h (fun t => mp_sub t ts 0) else Some (pre ++ R ++ G, 0)) =
      Some (pre ++ R' ++ G, k) /\
    limbs R' /\ length R' = length ts /\ mpz R + bpow ts * qh = qh * mpz ts + mpz R'.
Proof.
  intros Hts HR Hl Hpre Hh Hqh Hle. destruct (Z.eqb_spec qh 0) as [->|Hne]; cbn [negb].
  { exists R, 0. split; [done|]. split; [done|]. split; [done|lia]. }
  assert (qh = 1) as -> by lia. destruct (mp_sub_spec R ts 0 HR Hts Hl) as (R' & k & Hs & [Hl' HR' Hv] & Hk); [lia|].
  exists R', k. rewrite (in_place_app pre R G (2 * l) h _ R' k); [|done|unfold zlen in *; lia|done|lia]. split; [done|]. split; [done|].
  split; [lia|]. pose proof (mpz_range R HR) as Hr. pose proof (mpz_range R' HR') as Hr'. pose proof (mpz_range ts Hts) as Ht.
  rewrite (bpow_length R ts Hl) in *. rewrite (bpow_length R' ts) in Hr' by lia.
  assert (k = 1) by (assert (k = 0 \/ k = 1) as [->| ->] by lia; lia). subst k. lia.
Qed.

(** Half of a quotient by the root is the quotient by twice the root. *)
Lemma halve_quot S u' Q2 q b num :
  num = Q2 * S + u' -> 0 <= u' < S -> Q2 = 2 * q + b -> 0 <= b <= 1 ->
  num = q * (2 * S) + (u' + b * S) /\ 0 <= u' + b * S < 2 * S.
Proof. intros -> Hu -> Hb. split; [ring|]. assert (b = 0 \/ b = 1) as [->| ->] by lia; lia. Qed.

Lemma quot_high P S num Q2 u' r1 mid t low :
  2 <= P -> P <= 2 * S -> num = Q2 * S + u' -> 0 <= u' < S -> num = r1 * P + mid -> r1 <= 2 * S -> 0 <= mid < P ->
  Q2 = t * P + low -> 0 <= low < P -> t <= 2.
Proof.
  intros HP HPS Hn Hu Hr Hr1 Hmid HQ Hlow.
  assert (Hr1P : r1 * P <= 2 * S * P) by (apply Z.mul_le_mono_nonneg_r; lia).
  assert (HQ2 : Q2 < 2 * P + 2).
  { apply (Z.mul_lt_mono_pos_r S); [lia|]. lia. }
  assert (t * P < 3 * P) by lia. apply Z.lt_succ_r. apply (Z.mul_lt_mono_pos_r P); lia.
Qed.

Section SqrtSpec.
Context `{!Allocator} `{F : !FftMul} {Fok : FftMulOk}.

(** What [sqrt_quot] leaves: the quotient in [q] and [qh'], its remainder in [U] and [rh],
    and the root of the high part with the high bit of the quotient added. *)
Record quot_done (A0 A1 R G ts tmp : list Z) (qh : Z) (q U X ts' tmp' : list Z) (qh' rh : Z) : Prop := {
  qd_q : limbs q /\ length q = length A0;
  qd_U : limbs U /\ length U = length ts;
  qd_X : length X = length A0;
  qd_ts : carries ts ts' (mpz ts + qh') ((mpz ts + qh' - mpz ts') / bpow ts);
  qd_tmp : length tmp' = length tmp;
  qd_high : 0 <= qh' <= 1 /\ 0 <= rh <= 1;
  qd_value : (mpz R + bpow ts * qh) * bpow A0 + mpz A1 = (mpz q + bpow A0 * qh') * (2 * mpz ts) + (mpz U + bpow ts * rh);
  qd_less : 0 <= mpz U + bpow ts * rh < 2 * mpz ts }.

Lemma carries_div l res v k : carries l res v k -> carries l res v ((v - mpz res) / bpow l).
Proof.
  intros [H1 H2 H3]. split; [done|done|]. pose proof (bpow_pos l). replace (v - mpz res) with (k * bpow l) by lia. rewrite Z.div_mul by lia. lia.
Qed.

Lemma sqrt_quot_spec o A0 A1 R G ts tl tmp qh :
  limbs A1 -> limbs R -> limbs ts -> length A1 = length A0 -> length tl = length A0 -> length R = length ts ->
  (1 <= length A0 <= length ts)%nat -> (length A0 < length tmp)%nat -> bpow ts <= 2 * mpz ts ->
  0 <= qh <= 1 -> mpz R + bpow ts * qh <= 2 * mpz ts ->
  or_refused (sqrt_quot o (zlen A0) (zlen ts) ts (tl ++ ts) (A0 ++ A1 ++ R ++ G) tmp qh)
    (fun '(tabs, taba, tmp', qh', rh) => exists q U X ts', tabs = q ++ ts' /\ taba = A0 ++ U ++ X ++ G /\
       quot_done A0 A1 R G ts tmp qh q U X ts' tmp' qh' rh).
Proof.
  intros HA1 HR Hts Hl1 Hlt HlR Hl Htmp Hnorm Hqh Hr1. unfold sqrt_quot.
  destruct (reduce_high ts R (A0 ++ A1) G qh (zlen A0) (zlen ts) Hts HR HlR) as (R' & k & Hsub & HR' & HlR' & HvR);
    [unfold zlen; rewrite length_app; lia|done|done|done|].
  rewrite <- !app_assoc in Hsub. rewrite Hsub. cbn [mbind option_bind]. clear Hsub k.
  rewrite <- (take_drop (S (length A0)) tmp). set (tq := take (S (length A0)) tmp). set (tmp2 := drop (S (length A0)) tmp).
  assert (Hltq : length tq = S (length A0)) by (unfold tq; rewrite length_take; lia).
  rewrite (zslice_head tq) by (unfold zlen; lia). cbn [mbind option_bind]. rewrite (app_assoc A1 R' G).
  rewrite (zslice_part A0 (A1 ++ R') G) by (unfold zlen; rewrite ?length_app; lia). cbn [mbind option_bind].
  destruct (norm_of_value ts Hts) as (bl & b1 & Hnd); [by destruct ts; simpl in *; [lia|]|done|].
  destruct (mp_divnorm_spec o tq (A1 ++ R') ts bl b1 Hnd) as (o1 & res & -> & Hres);
    [apply Forall_app; by split|rewrite length_app; lia|rewrite length_app; lia|].
  cbn [mbind option_bind]. destruct res as [[q0 a]|]; [|eexists _, _; by split].
  destruct Hres as [Hq Hlq Hla HU Hval Hless]. rewrite length_app in Hla.
  rewrite zsplice_head by lia. cbn [mbind option_bind]. rewrite zsplice_part by (done || rewrite length_app; lia). cbn [mbind option_bind].
  destruct (@exists_last _ q0) as (ql & t & ->); [by destruct q0; simpl in *; [lia|]|]. rewrite length_app in Hlq. simpl in Hlq.
  apply Forall_app in Hq as [Hql Ht]. apply Forall_cons in Ht as [Ht _]. rewrite <- (app_assoc ql [t] tmp2). cbn [app].
  rewrite zget_mid by (unfold zlen; lia). cbn [mbind option_bind]. rewrite zslice_head by (unfold zlen; lia). cbn [mbind option_bind].
  rewrite zsplice_head by lia. cbn [mbind option_bind].
  pose proof (mpz_range ql Hql) as Hrql. pose proof (mpz_range A1 HA1) as HrA1. pose proof (mpz_range ts Hts) as Hrts.
  rewrite (bpow_length ql A0) in Hrql by lia. rewrite (bpow_length A1 A0) in HrA1 by lia.
  set (U0 := take (length ts) a) in *. pose proof (mpz_range U0 HU) as HrU.
  assert (HP2 : 2 <= bpow A0).
  { destruct A0 as [|x A0']; [simpl in Hl; lia|]. rewrite bpow_cons. pose proof (bpow_pos A0'). rewrite limb_base_val. lia. }
  assert (HPts : bpow A0 <= bpow ts) by (unfold bpow; apply Z.pow_le_mono_r; [done|unfold zlen; lia]).
  rewrite mpz_app in Hval. rewrite (mpz_app ql), mpz_cons in Hval. cbn [mpz foldr] in Hval.
  rewrite (bpow_length A1 A0), (bpow_length ql A0) in Hval by lia.
  assert (Hnum : (mpz R + bpow ts * qh) * bpow A0 + mpz A1 = ((qh + t) * bpow A0 + mpz ql) * mpz ts + mpz U0) by (rewrite HvR; lia).
  assert (Ht2 : qh + t <= 2).
  { eapply (quot_high (bpow A0) (mpz ts)); [done|lia|exact Hnum|lia|done|lia|lia|done|lia]. }
  destruct Ht as [Ht0 _]. rewrite (u64_limb (qh + t)) by (unfold is_limb; rewrite limb_base_val; lia).
  assert ((qh + t) .& 1 = (qh + t) mod 2) as -> by (apply (Z.land_ones (qh + t) 1); lia).
  destruct (mp_shr_spec ql 1 ((qh + t) mod 2) Hql) as (q & b & Hshr & Hlq' & Hq & Hqv & Hb); [lia|apply Z.mod_pos_bound; lia|].
  change (2 ^ 1) with 2 in *. rewrite (bpow_length ql A0) in Hqv by lia.
  rewrite (in_place_0 ql ts (zlen A0) _ q b) by (done || unfold zlen; lia). cbn [mbind option_bind].
  rewrite (shiftr_div (qh + t) 1) by lia. change (2 ^ 1) with 2. pose proof (Z.div_mod (qh + t) 2 ltac:(lia)) as Hdm.
  pose proof (Z.mod_pos_bound (qh + t) 2 ltac:(lia)) as Hmb. set (qh' := (qh + t) / 2) in *. set (qb := (qh + t) mod 2) in *. clearbody qh' qb.
  destruct (halve_quot (mpz ts) (mpz U0) ((qh + t) * bpow A0 + mpz ql) (mpz q + bpow A0 * qh') b _ Hnum) as [Hnum' Hless'];
    [lia|rewrite Hdm; clear - Hqv; lia|lia|].
  assert (Hadd : exists U rh, (if negb (b =? 0) then in_place (A0 ++ a ++ G) (zlen A0) (zlen ts) (fun t0 => mp_add t0 ts 0) else Some (A0 ++ a ++ G, 0)) =
      Some (A0 ++ U ++ drop (length ts) a ++ G, rh) /\ limbs U /\ length U = length ts /\ 0 <= rh <= 1 /\ mpz U + bpow ts * rh = mpz U0 + b * mpz ts).
  { set (X := drop (length ts) a). assert (HaX : a = U0 ++ X) by (unfold U0, X; by rewrite take_drop). rewrite HaX, <- !app_assoc.
    assert (HlU : length U0 = length ts) by (unfold U0; rewrite length_take; lia).
    destruct (Z.eqb_spec b 0) as [->|Hne]; cbn [negb].
    { exists U0, 0. split; [done|]. split; [done|]. split; [done|]. split; [lia|]. lia. }
    assert (b = 1) as -> by lia. destruct (mp_add_spec U0 ts 0 HU Hts HlU) as (U & rh & Ha & [Hl' HU' Hv'] & Hrh); [lia|].
    exists U, rh. rewrite (in_place_app A0 U0 _ _ _ _ U rh) by (done || unfold zlen; lia). rewrite (bpow_length U0 ts) in Hv' by lia.
    split; [done|]. split; [done|]. split; [lia|]. split; [done|]. lia. }
  destruct Hadd as (U & rh & -> & HUl & HlU & Hrh & HvU). cbn [mbind option_bind].
  destruct (mp_add_ui_spec ts qh' Hts) as (ts' & k & Hau & Hc & _ & _); [unfold is_limb; rewrite limb_base_val; lia|].
  rewrite (in_place_end q ts (zlen A0) (zlen ts) _ ts' k); [|unfold zlen; lia|done|by rewrite Hau|by destruct Hc].
  cbn [mbind option_bind]. eexists _, _. split; [done|]. exists q, U, (drop (length ts) a), ts'. split; [done|]. split; [done|].
  split; [split; [done|lia]|by split|rewrite length_drop; lia|by eapply carries_div| |split; lia|rewrite HvU; done|rewrite HvU; done].
  rewrite !length_app. simpl. lia.
Qed.

Lemma sqrt_square_spec o A0 U X G q ts' qh :
  limbs A0 -> limbs U -> limbs q -> length q = length A0 -> (1 <= length A0 <= length U)%nat -> length X = length A0 -> length G = length U ->
  0 <= qh <= 1 -> (qh = 1 -> mpz q = 0) ->
  or_refused (sqrt_square o (zlen A0) (zlen A0 + zlen U) (q ++ ts') (A0 ++ U ++ X ++ G) qh)
    (fun '(taba, c) => exists W Wh X', taba = W ++ Wh ++ X' /\ limbs W /\ limbs Wh /\ length W = (length A0 + length A0)%nat /\
       length Wh = (length U - length A0)%nat /\ length X' = (length A0 + length U)%nat /\ 0 <= c <= 1 /\
       mpz A0 + bpow A0 * mpz U - (mpz q + bpow A0 * qh) * (mpz q + bpow A0 * qh) = mpz W + bpow W * (mpz Wh - c)).
Proof.
  intros HA HU Hq Hlq Hl HlX HlG Hqh Hq0. unfold sqrt_square.
  set (W := A0 ++ take (length A0) U). set (Wh := drop (length A0) U).
  assert (HW : limbs W) by (apply Forall_app; split; [done|by apply Forall_take]). assert (HWh : limbs Wh) by (by apply Forall_drop).
  assert (HlW : length W = (length A0 + length A0)%nat) by (unfold W; rewrite length_app, length_take; lia).
  assert (HlWh : length Wh = (length U - length A0)%nat) by (unfold Wh; rewrite length_drop; lia).
  assert (Heq : A0 ++ U ++ X ++ G = W ++ Wh ++ X ++ G) by (unfold W, Wh; rewrite <- (app_assoc A0), (app_assoc (take _ U)), take_drop; done).
  assert (Hval : mpz A0 + bpow A0 * mpz U = mpz W + bpow W * mpz Wh).
  { rewrite <- !mpz_app. f_equal. unfold W, Wh. by rewrite <- app_assoc, take_drop. }
  assert (HbW : bpow W = bpow A0 * bpow A0) by (unfold bpow; rewrite <- base_pow_add by apply zlen_nonneg; f_equal; unfold zlen; lia).
  rewrite Heq, Hval. clear Heq Hval. destruct (Z.eqb_spec qh 0) as [->|Hne]; cbn [negb].
  2:{ assert (qh = 1) as -> by lia. rewrite (Hq0 eq_refl). eexists _, _. split; [done|]. exists W, Wh, (X ++ G).
      split_and!; [done..|rewrite length_app; lia|lia|lia|lia]. }
  set (sq0 := take (length A0 + length A0) (X ++ G)). set (rest := drop (length A0 + length A0) (X ++ G)).
  assert (Hxg : X ++ G = sq0 ++ rest) by (symmetry; apply take_drop).
  assert (Hlsq : length sq0 = (length A0 + length A0)%nat) by (unfold sq0; rewrite length_take, length_app; lia).
  assert (Hlrest : (length A0 + length A0 + length rest = length A0 + length U)%nat) by (unfold rest; rewrite length_drop, length_app; lia).
  rewrite Hxg. clearbody W Wh sq0 rest. clear Hxg.
  rewrite (app_assoc W Wh). rewrite (zslice_part (W ++ Wh) sq0 rest) by (unfold zlen; rewrite ?length_app; lia). cbn [mbind option_bind].
  rewrite zslice_head by (unfold zlen; lia). cbn [mbind option_bind].
  destruct (mp_mul_spec o sq0 q q Hq Hq) as (o' & res & -> & Hres); [by destruct q; simpl in *; [lia|]|lia|]. cbn [mbind option_bind].
  destruct res as [sq|]; [|eexists _, _; by split]. destruct Hres as (Hsq & Hlsq' & Hvsq).
  rewrite (zsplice_part (W ++ Wh) sq0 rest) by (rewrite ?Hlsq, ?Hlsq', ?Hlq; unfold zlen; rewrite ?length_app; lia). cbn [mbind option_bind].
  destruct (mp_sub_spec W sq 0 HW Hsq) as (W' & c & Hs & [Hl' HW' Hv'] & Hc); [lia|lia|].
  rewrite <- app_assoc, (in_place_0 W (Wh ++ sq ++ rest) _ _ W' c) by (done || unfold zlen; lia). cbn [mbind option_bind].
  eexists _, _. split; [done|]. exists W', Wh, (sq ++ rest). rewrite (bpow_length W' W) by lia.
  split_and!; [done..|lia|done|rewrite length_app; lia|lia|lia|lia].
Qed.

Lemma sqrt_adjust_spec tabs W Wh X c rh l n s r N :
  limbs tabs -> limbs W -> limbs Wh -> 2 * l = zlen W -> n = zlen W + zlen Wh -> n = zlen tabs -> (1 <= length tabs)%nat ->
  0 <= c <= 1 -> 0 <= rh <= 1 ->
  (exists e, mpz tabs + bpow tabs * e = s) -> 0 <= s <= bpow tabs ->
  r = mpz W + bpow W * (mpz Wh - c) + bpow tabs * rh -> N < bpow tabs * bpow tabs ->
  (0 <= r -> is_root N s r) -> (r < 0 -> is_root N (s - 1) (r + (2 * (s - 1) + 1))) ->
  exists tabs' R rh', sqrt_adjust l n tabs (W ++ Wh ++ X) c rh = Some (tabs', R ++ X, rh') /\
    limbs tabs' /\ length tabs' = length tabs /\ limbs R /\ length R = length tabs /\ 0 <= rh' <= 1 /\
    is_root N (mpz tabs') (mpz R + bpow tabs * rh').
Proof.
  intros Ht HW HWh Hl Hn Hnt Hpos Hc Hrh [e Hs] Hsr Hr HN Hp Hneg. unfold sqrt_adjust.
  destruct (mp_sub_ui_spec Wh c HWh) as (Wh' & k & Hsub & [Hlw HWh' Hv] & [Hk0 _] & Hk1); [unfold is_limb; rewrite limb_base_val; lia|].
  assert (Hk : k <= 1).
  { destruct Wh; [|by apply Hk1]. destruct Wh'; [|done]. rewrite bpow_nil in Hv. cbn in Hv. lia. }
  rewrite (in_place_app W Wh X _ _ _ Wh' k); [|done|lia|by rewrite Hsub|done]. cbn [mbind option_bind].
  rewrite (app_assoc W Wh'). set (V := W ++ Wh'). assert (HV : limbs V) by (apply Forall_app; by split).
  assert (HlV : length V = length tabs) by (unfold V, zlen in *; rewrite length_app; lia).
  assert (HrV : r = mpz V + bpow tabs * (rh - k)).
  { rewrite Hr. rewrite (bpow_length tabs V), (bpow_length Wh Wh') in * by done. unfold V in *. rewrite bpow_app, mpz_app. 
    replace (mpz Wh - c) with (mpz Wh' + bpow Wh' * - k) by lia. ring. }
  pose proof (mpz_range V HV) as HVr. rewrite (bpow_length V tabs HlV) in HVr. pose proof (bpow_pos tabs) as HB.
  rewrite i64_u64 by lia. clear Hr Hsub Hv. clearbody V. pose proof (mpz_range tabs Ht) as Htr.
  destruct (Z.ltb_spec (rh - k) 0) as [Hlt|Hge].
  - assert (Hrn : r < 0) by (assert (rh - k = -1) as Heq by lia; rewrite Heq in HrV; lia). specialize (Hneg Hrn).
    pose proof (is_root_lt _ _ _ (bpow tabs) Hneg ltac:(lia) HN) as Hs1.
    destruct (mp_sub_ui_spec tabs 1 Ht limb_1) as (tabs' & k0 & -> & [Hlt' Ht' Hvt] & _).
    assert (Htv : mpz tabs' = s - 1).
    { pose proof (mpz_range tabs' Ht') as Htr'. rewrite (bpow_length tabs' tabs Hlt') in Htr'.
      assert (mpz tabs' - (s - 1) = bpow tabs * (k0 - e)) by lia. assert (k0 - e = 0) by nia. lia. }
    destruct (mp_add_mul1_spec V tabs' 2 HV Ht') as (V2 & k1 & Ham & [HlV2 HV2 HvV2] & Hk1'); [lia|done|].
    rewrite (in_place_0 V X n _ V2 k1) by (done || unfold zlen in *; lia). cbn [mbind option_bind].
    destruct (mp_add_ui_spec V2 1 HV2 limb_1) as (V3 & k2 & Hau & [HlV3 HV3 HvV3] & _).
    rewrite (in_place_0 V2 X n _ V3 k2); [|unfold zlen in *; lia|by rewrite Hau|lia]. cbn [mbind option_bind].
    rewrite (bpow_length V tabs HlV) in HvV2. rewrite (bpow_length V2 tabs) in HvV3 by lia.
    assert (Htot : r + (2 * (s - 1) + 1) = mpz V3 + bpow tabs * (rh - k + k1 + k2)) by (rewrite HrV; lia).
    rewrite Htot in Hneg. rewrite <- Htv in Hneg. assert (Hb : 0 <= rh - k + k1 + k2 <= 1).
    { destruct Hneg as (_ & _ & Hb). pose proof (mpz_range V3 HV3) as Hr3. rewrite (bpow_length V3 tabs) in Hr3 by lia. rewrite Htv in Hb.
      clear - Hb Hr3 HB Hs1. split; nia. }
    assert (u64 (u64 (u64 (rh - k) + k1) + k2) = rh - k + k1 + k2) as ->.
    { unfold u64, wrapu. rewrite (Zplus_mod_idemp_l (rh - k) k1), Zplus_mod_idemp_l. apply Z.mod_small. lia. }
    eexists tabs', V3, _. split; [done|]. split_and!; [done|done|done|lia|lia|lia|exact Hneg].
  - assert (Hr0 : 0 <= r) by (rewrite HrV; assert (0 <= bpow tabs * (rh - k)) by (apply Z.mul_nonneg_nonneg; lia); lia).
    specialize (Hp Hr0). pose proof (is_root_lt _ _ _ (bpow tabs) Hp ltac:(lia) HN) as Hs1.
    assert (Htv : mpz tabs = s) by (assert (e = 0) by nia; subst e; lia). 
    rewrite u64_limb by (unfold is_limb; rewrite limb_base_val; lia).
    eexists tabs, V, _. split; [done|]. rewrite Htv, <- HrV. split_and!; [done..|lia|lia|exact Hp].
Qed.

Definition sqrt_done (tabs taba tmp : list Z) (res : list Z * list Z * list Z * Z) : Prop :=
  let '(s, t, tmp', rh) := res in
  exists R G, t = R ++ G /\ limbs s /\ length s = length tabs /\ limbs R /\ length R = length tabs /\ length G = length tabs /\
    length tmp' = length tmp /\ 0 <= rh <= 1 /\ is_root (mpz taba) (mpz s) (mpz R + bpow tabs * rh).

Lemma sqrt_rec_one o tabs taba tmp fuel :
  length tabs = 1%nat -> length taba = 2%nat -> limbs taba -> bpow taba <= 4 * mpz taba ->
  or_refused (mp_sqrtrem_rec (S fuel) o tabs taba tmp) (sqrt_done tabs taba tmp).
Proof.
  intros Hs Ha Hl Hb. destruct tabs as [|x [|]]; [done| |done]. destruct taba as [|a0 [|a1 [|]]]; [done|done| |done].
  apply Forall_cons in Hl as [H0 Hl]. apply Forall_cons in Hl as [H1 _].
  rewrite !bpow_cons, bpow_nil, !mpz_cons in Hb. cbn [mpz foldr] in Hb.
  assert (Ha1 : 2 ^ 62 <= a1 < 2 ^ 64) by (unfold is_limb in *; rewrite limb_base_val in *; lia).
  destruct (mp_sqrtrem2_spec a0 a1 H0 Ha1) as (s & r & He & Hsl & Hroot). cbn [mp_sqrtrem_rec]. change (zlen [x] =? 1) with true. cbv iota.
  change (zget [a0; a1] 0) with (Some a0). change (zget [a0; a1] 1) with (Some a1). cbn [mbind option_bind]. rewrite He. cbn [mbind option_bind].
  change (zset [x] 0 s) with (Some [s]). change (zset [a0; a1] 0 (r mod LIMB_BASE)) with (Some [r mod LIMB_BASE; a1]). cbn [mbind option_bind].
  eexists _, _. split; [done|]. exists [r mod LIMB_BASE], [a1]. split; [done|]. split; [by constructor|]. split; [done|].
  split; [constructor; [apply Z.mod_pos_bound; done|constructor]|]. split; [done|]. split; [done|]. split; [done|].
  pose proof (Z.div_mod r LIMB_BASE ltac:(done)) as Hdm. pose proof (Z.mod_pos_bound r LIMB_BASE ltac:(done)) as Hmb.
  change (bpow [x]) with LIMB_BASE. unfold mpz. cbn [foldr]. split.
  - destruct Hroot as (_ & _ & Hr). clear - Hr Hsl. unfold is_limb in *. rewrite limb_base_val in *. zdm.
  - destruct Hroot as (E1 & E2 & E3). split; [clear - E1 Hdm; lia|]. split; [clear - E2; lia|clear - E3 Hdm Hsl; lia].
Qed.

(** The high part of a number that fills its limbs up to two bits does too, and its root
    is normalized. *)
Lemma sqrt_high A D :
  limbs A -> limbs D -> bpow A * bpow D <= 4 * (mpz A + bpow A * mpz D) -> D <> [] -> bpow D <= 4 * mpz D.
Proof.
  intros HA HH Hb Hne. pose proof (mpz_range A HA) as Hr. pose proof (bpow_pos A) as HP.
  assert (Hlt : bpow A * bpow D < bpow A * (4 * mpz D + 4)) by lia. apply Z.mul_lt_mono_pos_l in Hlt; [|done].
  destruct D as [|x D']; [done|]. rewrite bpow_cons in *. assert (E : LIMB_BASE = 4 * (LIMB_BASE / 4)) by done.
  set (q := LIMB_BASE / 4) in *. clearbody q. rewrite E in *. replace (4 * q * bpow D') with (4 * (q * bpow D')) in * by ring. lia.
Qed.

Lemma sqrt_normal {C} (D : list Z) (ts : list C) s r :
  is_root (mpz D) s r -> bpow D <= 4 * mpz D -> bpow D = bpow ts * bpow ts -> (1 <= length ts)%nat -> bpow ts <= 2 * s.
Proof.
  intros Hs Hb Hsq Hl. destruct ts as [|x ts]; [simpl in Hl; lia|]. rewrite bpow_cons in *. assert (E : LIMB_BASE = 2 * (LIMB_BASE / 2)) by done.
  set (q := LIMB_BASE / 2) in *. assert (Hq : 0 < q) by done. clearbody q. rewrite E in *. pose proof (bpow_pos ts).
  replace (2 * q * bpow ts) with (2 * (q * bpow ts)) in * by ring. assert (0 < q * bpow ts) by (apply Z.mul_pos_pos; lia).
  pose proof (is_root_lower _ _ _ (q * bpow ts) Hs ltac:(lia)) as Hlow. lia.
Qed.

(** One level: from the root of the high part to the root of the whole. *)
Lemma sqrt_rec_level fuel o tabs taba tmp A0 A1 Ah tl ts0 :
  tabs = tl ++ ts0 -> taba = A0 ++ A1 ++ Ah -> limbs A0 -> limbs A1 -> limbs Ah ->
  length tl = length A0 -> length A1 = length A0 -> length Ah = (length ts0 + length ts0)%nat ->
  (1 <= length A0 <= length ts0)%nat -> (length ts0 <= S (length A0))%nat -> (length A0 < length tmp)%nat ->
  bpow Ah <= 4 * mpz Ah ->
  or_refused (mp_sqrtrem_rec fuel o ts0 Ah tmp) (sqrt_done ts0 Ah tmp) ->
  or_refused (mp_sqrtrem_rec (S fuel) o tabs taba tmp) (sqrt_done tabs taba tmp).
Proof.
  intros -> -> HA0 HA1 HAh Hltl HlA1 HlAh Hl Hl' Htmp Hnorm (o1 & res & Hrec & Hres). cbn [mp_sqrtrem_rec].
  assert (Hn : zlen (tl ++ ts0) = zlen A0 + zlen ts0) by (unfold zlen; rewrite length_app; lia). rewrite Hn.
  assert ((zlen A0 + zlen ts0) / 2 = zlen A0) as Hdiv by (unfold zlen; zdm).
  rewrite (proj2 (Z.eqb_neq _ 1)) by (unfold zlen; lia). rewrite Hdiv. replace (zlen A0 + zlen ts0 - zlen A0) with (zlen ts0) by lia.
  rewrite (zslice_end tl ts0) by (unfold zlen; lia). cbn [mbind option_bind]. rewrite (app_assoc A0 A1 Ah).
  rewrite (zslice_end (A0 ++ A1) Ah) by (unfold zlen; rewrite ?length_app; lia). cbn [mbind option_bind]. rewrite Hrec. cbn [mbind option_bind].
  destruct res as [[[[ts t] tmp'] qh]|]; [|eexists _, _; by split].
  destruct Hres as (R & G & -> & Hts & Hlts & HR & HlR & HlG & Htmp' & Hqh & Hroot).
  pose proof (zsplice_app tl ts0 [] ts) as Hsp. rewrite !app_nil_r in Hsp.
  rewrite (bpow_length ts0 ts) in Hroot by lia. rewrite <- Hlts in *. clear Hrec.
  replace (zlen A0) with (zlen tl) at 1 by (unfold zlen; lia). rewrite Hsp by lia. cbn [mbind option_bind]. clear Hsp.
  pose proof (zsplice_app (A0 ++ A1) Ah [] (R ++ G)) as Hsp. rewrite !app_nil_r in Hsp. replace (2 * zlen A0) with (zlen (A0 ++ A1)) at 1 by (unfold zlen; rewrite length_app; lia).
  rewrite Hsp by (rewrite length_app; lia). cbn [mbind option_bind]. clear Hsp. rewrite <- !app_assoc.
  replace (zlen ts0) with (zlen ts) by (unfold zlen; lia). 
  assert (Hsq : bpow Ah = bpow ts * bpow ts) by (rewrite <- bpow_app; apply bpow_length; rewrite length_app; lia).
  pose proof (sqrt_normal Ah ts _ _ Hroot Hnorm Hsq ltac:(lia)) as Hnts. pose proof Hroot as (_ & _ & Hrr).
  destruct (sqrt_quot_spec o1 A0 A1 R G ts tl tmp' qh HA1 HR Hts HlA1 Hltl HlR) as (o2 & res & -> & Hres); [lia|lia|lia|lia|lia|].
  cbn [mbind option_bind]. destruct res as [[[[[tabs2 taba2] tmp2] qh2] rh]|]; [|eexists _, _; by split].
  destruct Hres as (q & U & X & ts' & -> & -> & [[Hq Hlq] [HU HlU] HlX Hcts Hltmp2 [Hqh2 Hrh] Hval Hless]).
  pose proof (mpz_range A0 HA0) as HrA0. pose proof (mpz_range A1 HA1) as HrA1. rewrite (bpow_length A1 A0 HlA1) in HrA1. pose proof (mpz_range q Hq) as Hrq.
  rewrite (bpow_length q A0 Hlq) in Hrq.
  assert (HPts : bpow A0 <= bpow ts) by (unfold bpow; apply Z.pow_le_mono_r; [done|unfold zlen; lia]).
  destruct (sqrt_step (bpow A0) (mpz Ah) (mpz ts) (mpz R + bpow ts * qh) (mpz A1) (mpz A0) (mpz q + bpow A0 * qh2) (mpz U + bpow ts * rh))
    as (HQ & He & Hpos & Hneg & Hrange); [apply bpow_pos|done|lia|lia|lia|done|done|].
  replace (zlen A0 + zlen ts) with (zlen A0 + zlen U) by (unfold zlen; lia).
  destruct (sqrt_square_spec o2 A0 U X G q ts' qh2) as (o3 & res & -> & Hres); [done|done|done|done|lia|done|lia|done| |].
  { intros ->. lia. }
  cbn [mbind option_bind]. destruct res as [[taba3 c]|]; [|eexists _, _; by split].
  destruct Hres as (W & Wh & X' & -> & HW & HWh & HlW & HlWh & HlX' & Hc & HvW).
  destruct Hcts as [Hlts' Hts' Hvts']. set (e := (mpz ts + qh2 - mpz ts') / bpow ts) in *. clearbody e.
  assert (HB : bpow (q ++ ts') = bpow A0 * bpow ts) by (rewrite bpow_app; f_equal; apply bpow_length; lia).
  assert (HbW : bpow (W ++ Wh) = bpow A0 * bpow ts) by (rewrite <- bpow_app; apply bpow_length; rewrite !length_app; lia).
  pose proof (mpz_range ts Hts) as Hrts. pose proof (bpow_pos A0) as HP0.
  assert (Hs_le : mpz ts * bpow A0 + (mpz q + bpow A0 * qh2) <= bpow A0 * bpow ts).
  { assert (bpow A0 * (mpz ts + 1) <= bpow A0 * bpow ts) by (apply Z.mul_le_mono_nonneg_l; lia). lia. }
  assert (HNlt : mpz Ah * (bpow A0 * bpow A0) + mpz A1 * bpow A0 + mpz A0 < bpow A0 * bpow ts * (bpow A0 * bpow ts)).
  { pose proof (mpz_range (A0 ++ A1 ++ Ah)) as Hrall. rewrite !mpz_app, !bpow_app, (bpow_length A1 A0 HlA1), Hsq in Hrall.
    assert (limbs (A0 ++ A1 ++ Ah)) as Hall by (repeat apply Forall_app_2; done). specialize (Hrall Hall). lia. }
  destruct (sqrt_adjust_spec (q ++ ts') W Wh X' c rh (zlen A0) (zlen A0 + zlen U) (mpz ts * bpow A0 + (mpz q + bpow A0 * qh2))
      ((mpz U + bpow ts * rh) * bpow A0 + mpz A0 - (mpz q + bpow A0 * qh2) * (mpz q + bpow A0 * qh2))
      (mpz Ah * (bpow A0 * bpow A0) + mpz A1 * bpow A0 + mpz A0)) as (tabs' & R' & rh' & -> & Hok);
    [apply Forall_app; by split|done|done|unfold zlen; lia|unfold zlen; lia|unfold zlen; rewrite length_app; lia|rewrite length_app; lia|done|done| | | | | | |].
  - exists e. rewrite HB, mpz_app, (bpow_length q A0 Hlq). replace (mpz ts') with (mpz ts + qh2 - bpow ts * e) by lia. ring.
  - rewrite HB. split; [|done]. apply Z.add_nonneg_nonneg; [apply Z.mul_nonneg_nonneg; lia|lia].
  - rewrite HB. replace (mpz W + bpow W * (mpz Wh - c)) with (mpz A0 + bpow A0 * mpz U - (mpz q + bpow A0 * qh2) * (mpz q + bpow A0 * qh2)) by lia. ring.
  - rewrite HB. done.
  - done.
  - done.
  - destruct Hok as (H1 & H2 & H3 & H4 & H5 & H6). cbn [mbind option_bind]. eexists _, _. split; [done|]. exists R', X'. rewrite length_app in H2, H4.
    split; [done|]. rewrite length_app. split_and!; [done|lia|done|lia|lia|lia|lia|lia|].
    rewrite !mpz_app, (bpow_length A1 A0 HlA1). rewrite (bpow_length (tl ++ ts0) (q ++ ts')) by (rewrite !length_app; lia).
    replace (mpz A0 + bpow A0 * (mpz A1 + bpow A0 * mpz Ah)) with (mpz Ah * (bpow A0 * bpow A0) + mpz A1 * bpow A0 + mpz A0) by ring. exact H6.
Qed.

Lemma take_drop_drop {A} (l : list A) a b : l = take a l ++ take b (drop a l) ++ drop (a + b) l.
Proof. rewrite <- drop_drop, take_drop. symmetry. apply take_drop. Qed.

Lemma mp_sqrtrem_rec_spec fuel o tabs taba tmp :
  (1 <= length tabs <= fuel)%nat -> length taba = (length tabs + length tabs)%nat -> limbs taba -> bpow taba <= 4 * mpz taba ->
  (length tabs / 2 < length tmp)%nat ->
  or_refused (mp_sqrtrem_rec fuel o tabs taba tmp) (sqrt_done tabs taba tmp).
Proof.
  revert o tabs taba tmp. induction fuel as [|fuel IH]; intros o tabs taba tmp Hf Hla Ha Hb Htmp; [lia|].
  destruct (decide (length tabs = 1%nat)) as [H1|H1]; [apply sqrt_rec_one; [done|lia|done|done]|].
  pose proof (Nat.div_mod (length tabs) 2 ltac:(lia)) as Hdm. pose proof (Nat.mod_upper_bound (length tabs) 2 ltac:(lia)) as Hmb.
  set (l := (length tabs / 2)%nat) in *. set (m := (length tabs mod 2)%nat) in *. clearbody l m.
  set (A0 := take l taba). set (A1 := take l (drop l taba)). set (Ah := drop (l + l) taba).
  assert (HA0 : limbs A0) by (by apply Forall_take). assert (HA1 : limbs A1) by (by apply Forall_take, Forall_drop).
  assert (HAh : limbs Ah) by (by apply Forall_drop). pose proof (take_drop_drop taba l l) as Heq. fold A0 A1 Ah in Heq.
  assert (Hlt : length (drop l tabs) = (length tabs - l)%nat) by apply length_drop.
  assert (HlA0 : length A0 = l) by (unfold A0; rewrite length_take; lia).
  assert (HlA1 : length A1 = l) by (unfold A1; rewrite length_take, length_drop; lia).
  assert (HlAh : length Ah = (length taba - (l + l))%nat) by (apply length_drop).
  assert (Hnorm : bpow Ah <= 4 * mpz Ah).
  { apply (sqrt_high (A0 ++ A1)); [by apply Forall_app_2|done| |].
    - rewrite <- bpow_app, <- mpz_app, <- app_assoc, <- Heq. done.
    - intros Hn. rewrite Hn in HlAh. simpl in HlAh. lia. }
  apply (sqrt_rec_level fuel o tabs taba tmp A0 A1 Ah (take l tabs) (drop l tabs)); rewrite ?length_take; try lia; try done.
  - by rewrite take_drop.
  - apply IH; [lia|lia|done|done|]. rewrite Hlt. apply Nat.le_lt_trans with l; [|lia].
    apply Nat.Div0.div_le_upper_bound. lia.
Qed.

Lemma top_limb_norm taba a1 : limbs taba -> last taba = Some a1 -> 2 ^ 62 <= a1 -> bpow taba <= 4 * mpz taba.
Proof.
  intros Ha Hlast H1. destruct (last_Some taba a1) as [Hls _]. destruct (Hls Hlast) as [l ->]. apply Forall_app in Ha as [Hl _].
  rewrite bpow_app, mpz_app, bpow_cons, bpow_nil, mpz_cons. cbn [mpz foldr]. pose proof (mpz_range l Hl) as Hr.
  assert (bpow l * (4 * 2 ^ 62) <= bpow l * (4 * a1)) by (apply Z.mul_le_mono_nonneg_l; lia). rewrite limb_base_val in *. lia.
Qed.
Lemma mp_sqrtrem_spec o stack tabs taba :
  (1 <= length tabs)%nat -> length taba = (length tabs + length tabs)%nat -> limbs taba -> bpow taba <= 4 * mpz taba ->
  or_refused (mp_sqrtrem o stack tabs taba) (fun '(s, a) => limbs s /\ length s = length tabs /\ length a = length taba /\
    limbs (take (S (length tabs)) a) /\ is_root (mpz taba) (mpz s) (mpz (take (S (length tabs)) a))).
Proof.
  intros Hn Hla Ha Hb. unfold mp_sqrtrem.
  assert (Hbuf : forall buf : list Z, zlen tabs / 2 + 1 <= zlen buf -> (length tabs / 2 < length buf)%nat).
  { intros buf Hl. unfold zlen in Hl. change 2 with (Z.of_nat 2) in Hl. rewrite <- Nat2Z.inj_div in Hl. lia. }
  assert (Hfin : forall o (buf : list Z), (length tabs / 2 < length buf)%nat ->
    exists o' res, mp_sqrtrem_rec (length tabs) o tabs taba buf = Some (o', res) /\
      match res with
      | Some (s, a, _, rh) => exists a', zset a (zlen tabs) rh = Some a' /\ limbs s /\ length s = length tabs /\ length a' = length taba /\
          limbs (take (S (length tabs)) a') /\ is_root (mpz taba) (mpz s) (mpz (take (S (length tabs)) a'))
      | None => alloc_refuses
      end).
  { intros o2 buf Hbl. destruct (mp_sqrtrem_rec_spec (length tabs) o2 tabs taba buf) as (o' & res & -> & Hres); [lia|done|done|done|done|].
    eexists _, _. split; [done|]. destruct res as [[[[s a] tmp'] rh]|]; [|done].
    destruct Hres as (R & G & -> & Hs & Hls & HR & HlR & HlG & _ & Hrh & Hroot). destruct G as [|g G]; [simpl in HlG; lia|].
    rewrite zset_mid by (unfold zlen; lia). eexists. split; [done|].
    replace (S (length tabs)) with (length R + 1)%nat by lia. rewrite take_app_add. cbn [take]. rewrite take_0.
    rewrite mpz_app, mpz_cons, (bpow_length R tabs HlR). cbn [mpz foldr]. rewrite Z.mul_0_r, Z.add_0_r.
    split_and!; [done|done|rewrite length_app in *; simpl in *; lia|apply Forall_app_2; [done|constructor; [split; [lia|rewrite limb_base_val; lia]|constructor]]|done]. }
  destruct (Z.leb_spec (zlen tabs / 2 + 1) (zlen stack)) as [Hle|Hgt].
  - destruct (Hfin o stack (Hbuf _ Hle)) as (o' & res & -> & Hres). cbn [mbind option_bind]. destruct res as [[[[s a] tmp'] rh]|]; [|by eexists _, _].
    destruct Hres as (a' & -> & Hok). by eexists _, _.
  - destruct (bf_malloc_spec o (zlen tabs / 2 + 1)) as [(o1 & buf & -> & Hl)|(o1 & -> & Href)];
      [assert (0 <= zlen tabs / 2) by (apply Z.div_pos; [apply zlen_nonneg|lia]); lia| |by eexists _, _].
    destruct (Hfin o1 buf (Hbuf buf ltac:(lia))) as (o' & res & -> & Hres). cbn [mbind option_bind]. destruct res as [[[[s a] tmp'] rh]|]; [|by eexists _, _].
    destruct Hres as (a' & -> & Hok). by eexists _, _.
Qed.
End SqrtSpec.

(** ** Properties *)



Example mp_sqrtrem_run :
  @mp_sqrtrem malloc_ok school_mul tt (replicate 8 0) [9; 9] [2 ^ 64 - 1; 2 ^ 64 - 1; 2 ^ 64 - 1; 2 ^ 64 - 1] =
  Some (tt, Some ([2 ^ 64 - 1; 2 ^ 64 - 1], [2 ^ 64 - 2; 2 ^ 64 - 1; 1; 2 ^ 64 - 1])) /\ bf_isqrt (2 ^ 64 - 1) = Some (2 ^ 32 - 1).
Proof. split; vm_compute; reflexivity. Qed.
