(* ===== verification/BfNum.v ===== *)
(** Numbers of [libbf.c]: the structure [bf_t], its assignments, and rounding.

    A number is a sign, a binary exponent and an array of limbs whose top bit is set; the
    value is the array read as a fraction below one, scaled by the exponent.  Zero, the
    infinities and NaN have no limbs and a reserved exponent.  [__bf_round] rounds in seven
    modes to any precision, with a range of exponents and subnormal numbers chosen by the
    flags. *)

From S2P Require Import Prelude CutilsH DynBuf BfLimbs BfDiv BfSqrt.

Definition BF_RAW_EXP_MIN : Z := - 2 ^ 63.
Definition BF_RAW_EXP_MAX : Z := 2 ^ 63 - 1.
Definition BF_EXP_BITS_MAX : Z := LIMB_BITS - 3.
Definition BF_EXT_EXP_BITS_MAX : Z := BF_EXP_BITS_MAX + 1.
Definition BF_PREC_MIN : Z := 2.
Definition BF_PREC_MAX : Z := (1 ≪ (LIMB_BITS - 2)) - 2.
Definition BF_PREC_INF : Z := BF_PREC_MAX + 1.
Definition BF_EXP_ZERO : Z := BF_RAW_EXP_MIN.
Definition BF_EXP_INF : Z := BF_RAW_EXP_MAX - 1.
Definition BF_EXP_NAN : Z := BF_RAW_EXP_MAX.

(** The context [ctx] is the state of the allocator, which is passed along; [len] is the
    length of [tab]. *)
Record bf_t := mkBf { bf_sign : Z; expn : Z; tab : list Z }.
Definition len (r : bf_t) : Z := zlen (tab r).
Definition with_sign (r : bf_t) (s : Z) : bf_t := mkBf s (expn r) (tab r).
Definition with_expn (r : bf_t) (e : Z) : bf_t := mkBf (bf_sign r) e (tab r).
Definition with_tab (r : bf_t) (t : list Z) : bf_t := mkBf (bf_sign r) (expn r) t.

(** [bf_rnd_t] *)
Definition BF_RNDN : Z := 0.
Definition BF_RNDZ : Z := 1.
Definition BF_RNDD : Z := 2.
Definition BF_RNDU : Z := 3.
Definition BF_RNDNA : Z := 4.
Definition BF_RNDA : Z := 5.
Definition BF_RNDF : Z := 6.

Definition BF_FLAG_SUBNORMAL : Z := 1 ≪ 3.
Definition BF_FLAG_RADPNT_PREC : Z := 1 ≪ 4.
Definition BF_RND_MASK : Z := 0x7.
Definition BF_EXP_BITS_SHIFT : Z := 5.
Definition BF_EXP_BITS_MASK : Z := 0x3f.

Definition BF_ST_INVALID_OP : Z := 1 ≪ 0.
Definition BF_ST_DIVIDE_ZERO : Z := 1 ≪ 1.
Definition BF_ST_OVERFLOW : Z := 1 ≪ 2.
Definition BF_ST_UNDERFLOW : Z := 1 ≪ 3.
Definition BF_ST_INEXACT : Z := 1 ≪ 4.
Definition BF_ST_MEM_ERROR : Z := 1 ≪ 5.

Definition bf_get_exp_bits (flags : Z) : Z :=
  let e := (flags ≫ BF_EXP_BITS_SHIFT) .& BF_EXP_BITS_MASK in
  if e =? BF_EXP_BITS_MASK then BF_EXP_BITS_MAX + 1 else BF_EXP_BITS_MAX - e.

Definition bf_neg (r : bf_t) : bf_t := with_sign r (bf_sign r .^ 1).
Definition bf_is_finite (a : bf_t) : bool := expn a <? BF_EXP_INF.
Definition bf_is_nan (a : bf_t) : bool := expn a =? BF_EXP_NAN.
Definition bf_is_zero (a : bf_t) : bool := expn a =? BF_EXP_ZERO.

(** ** Bits of an array *)

Definition limb_mask (start last : Z) : Z :=
  let n := last - start + 1 in
  if n =? LIMB_BITS then u64 (-1) else u64 ((u64 (1 ≪ n) - 1) ≪ start).

Definition get_limbz (a : bf_t) (idx : Z) : option Z :=
  let idx := u64 idx in if len a <=? idx then Some 0 else zget (tab a) idx.

(** [LIMB_BITS] bits at the position [pos]. *)
Definition get_bits (t : list Z) (l pos : Z) : option Z :=
  let i := u64 (pos ≫ LIMB_LOG2_BITS) in
  let p := pos .& (LIMB_BITS - 1) in
  a0 ← (if i <? l then zget t i else Some 0);
  if p =? 0 then Some a0
  else
    let i := u64 (i + 1) in
    a1 ← (if i <? l then zget t i else Some 0);
    Some ((a0 ≫ p) .| u64 (a1 ≪ (LIMB_BITS - p))).

Definition get_bit (t : list Z) (l pos : Z) : option Z :=
  let i := pos ≫ LIMB_LOG2_BITS in
  if (i <? 0) || (l <=? i) then Some 0
  else v ← zget t i; Some ((v ≫ (pos .& (LIMB_BITS - 1))) .& 1).

(** The loop of [scan_bit_nz] over the limbs below the position. *)
Fixpoint scan_limbs_nz (t : list Z) (pos : nat) : option Z :=
  match pos with
  | O => Some 0
  | S pos => v ← zget t (Z.of_nat pos); if negb (v =? 0) then Some 1 else scan_limbs_nz t pos
  end.

Definition scan_bit_nz (t : list Z) (bit_pos : Z) : option Z :=
  let pos := bit_pos ≫ LIMB_LOG2_BITS in
  if pos <? 0 then Some 0
  else
    v ← zget t pos;
    if negb (v .& limb_mask 0 (bit_pos .& (LIMB_BITS - 1)) =? 0) then Some 1 else scan_limbs_nz t (Z.to_nat pos).

(** ** Assignments *)

(** [bf_realloc] for a block that is already there: the state, the old and the new size. *)
Class Realloc `{!Allocator} := realloc_ptr : aopaque -> Z -> Z -> aopaque * option (nat -> Z).

(** The code relies on it that a block can be made smaller. *)
Class ShrinkOk `{!Allocator} `{!Realloc} : Prop := shrink_ok : forall o old n,
  0 < n <= old -> exists o' fill, realloc_ptr o old n = (o', Some fill).

Section Num.
Context `{!Allocator} `{!Realloc}.

Definition bf_init : bf_t := mkBf 0 BF_EXP_ZERO [].

(** The status is 0 or -1. *)
Definition bf_resize (o : aopaque) (r : bf_t) (n : Z) : aopaque * bf_t * Z :=
  if negb (n =? len r) then
    match realloc_ptr o (8 * len r) (8 * n) with
    | (o, Some fill) => (o, with_tab r (realloc_block (tab r) n fill), 0)
    | (o, None) => if n =? 0 then (o, with_tab r [], 0) else (o, r, -1)
    end
  else (o, r, 0).

Definition bf_set_nan (o : aopaque) (r : bf_t) : aopaque * bf_t :=
  let '(o, r, _) := bf_resize o r 0 in (o, with_sign (with_expn r BF_EXP_NAN) 0).

Definition bf_set_zero (o : aopaque) (r : bf_t) (is_neg : Z) : aopaque * bf_t :=
  let '(o, r, _) := bf_resize o r 0 in (o, with_sign (with_expn r BF_EXP_ZERO) is_neg).

Definition bf_set_inf (o : aopaque) (r : bf_t) (is_neg : Z) : aopaque * bf_t :=
  let '(o, r, _) := bf_resize o r 0 in (o, with_sign (with_expn r BF_EXP_INF) is_neg).

Definition bf_mem_error (o : aopaque) (r : bf_t) : aopaque * bf_t * Z :=
  let '(o, r) := bf_set_nan o r in (o, r, BF_ST_MEM_ERROR).

Definition bf_set_ui (o : aopaque) (r : bf_t) (a : Z) : option (aopaque * bf_t * Z) :=
  let r := with_sign r 0 in
  if a =? 0 then
    let '(o, r, _) := bf_resize o (with_expn r BF_EXP_ZERO) 0 in Some (o, r, 0)
  else
    let '(o, r, st) := bf_resize o r 1 in
    if negb (st =? 0) then Some (bf_mem_error o r)
    else
      let shift := clz a in
      t ← zset (tab r) 0 (u64 (a ≪ shift));
      Some (o, with_expn (with_tab r t) (LIMB_BITS - shift), 0).

Definition bf_set_si (o : aopaque) (r : bf_t) (a : Z) : option (aopaque * bf_t * Z) :=
  if a <? 0 then
    '(o, r, ret) ← bf_set_ui o r (u64 (- a)); Some (o, with_sign r 1, ret)
  else bf_set_ui o r a.

(** [same] tells that [r] and [a] are one object. *)
Definition bf_set (o : aopaque) (same : bool) (r a : bf_t) : option (aopaque * bf_t * Z) :=
  if same then Some (o, r, 0)
  else
    let '(o, r, st) := bf_resize o r (len a) in
    if negb (st =? 0) then Some (bf_mem_error o r)
    else
      t ← zsplice (tab r) 0 (tab a);
      Some (o, mkBf (bf_sign a) (expn a) t, 0).

(** The array is released when it is not [NULL]. *)
Definition bf_delete (o : aopaque) (r : bf_t) : aopaque :=
  match tab r with [] => o | _ => (realloc_ptr o (8 * len r) 0).1 end.

Definition bf_move (o : aopaque) (r a : bf_t) : aopaque * bf_t := (bf_delete o r, a).

(** ** Rounding *)

(** The new status and the addend. *)
Definition bf_get_rnd_add (ret : Z) (r : bf_t) (l prec rnd_mode : Z) : option (Z * Z) :=
  bit0 ← (if rnd_mode =? BF_RNDF then Some 1
          else scan_bit_nz (tab r) (i64 (l * LIMB_BITS - 1 - bf_max 0 (i64 (prec + 1)))));
  bit1 ← get_bit (tab r) l (i64 (l * LIMB_BITS - 1 - prec));
  let inexact := negb (bit1 .| bit0 =? 0) in
  add_one ←
    (if rnd_mode =? BF_RNDZ then Some 0
     else if rnd_mode =? BF_RNDN then
       if negb (bit1 =? 0) then
         if negb (bit0 =? 0) then Some 1
         else get_bit (tab r) l (i64 (l * LIMB_BITS - 1 - (prec - 1)))
       else Some 0
     else if (rnd_mode =? BF_RNDD) || (rnd_mode =? BF_RNDU) then
       Some (if bf_sign r =? b2z (rnd_mode =? BF_RNDD) then b2z inexact else 0)
     else if rnd_mode =? BF_RNDA then Some (b2z inexact)
     else if (rnd_mode =? BF_RNDNA) || (rnd_mode =? BF_RNDF) then Some bit1
     else None);
  Some (if inexact then ret .| BF_ST_INEXACT else ret, add_one).

Definition bf_set_overflow (o : aopaque) (r : bf_t) (sign prec flags : Z) : option (aopaque * bf_t * Z) :=
  let rnd_mode := flags .& BF_RND_MASK in
  let st := BF_ST_OVERFLOW .| BF_ST_INEXACT in
  if (prec =? BF_PREC_INF) || (rnd_mode =? BF_RNDN) || (rnd_mode =? BF_RNDNA) || (rnd_mode =? BF_RNDA) ||
     ((rnd_mode =? BF_RNDD) && (sign =? 1)) || ((rnd_mode =? BF_RNDU) && (sign =? 0)) then
    let '(o, r) := bf_set_inf o r sign in Some (o, r, st)
  else
    let l := (prec + LIMB_BITS - 1) / LIMB_BITS in
    let '(o, r, fail) := bf_resize o r l in
    if negb (fail =? 0) then Some (bf_mem_error o r)
    else
      t ← zset (tab r) 0 (limb_mask (u64 (- prec) .& (LIMB_BITS - 1)) (LIMB_BITS - 1));
      t ← zsplice t 1 (replicate (Z.to_nat (l - 1)) (u64 (-1)));
      Some (o, mkBf sign (1 ≪ (bf_get_exp_bits flags - 1)) t, st).

(** The loop that adds the carry. *)
Fixpoint round_carry (t : list Z) (carry : Z) : list Z * Z :=
  match t with
  | [] => ([], carry)
  | a :: t =>
      let v := u64 (a + carry) in
      let carry := b2z (v <? carry) in
      if carry =? 0 then (v :: t, carry) else let '(t, c) := round_carry t carry in (v :: t, c)
  end.

(** One is added at the digit [prec - 1]; [true] when the mantissa was shifted and the
    exponent is to be incremented. *)
Definition round_incr (t : list Z) (l prec : Z) : option (list Z * bool) :=
  let bit_pos := i64 (l * LIMB_BITS - 1 - (prec - 1)) in
  let pos := bit_pos ≫ LIMB_LOG2_BITS in
  '(t, carry) ← in_place t pos (l - pos) (fun s => Some (round_carry s (u64 (1 ≪ (bit_pos .& (LIMB_BITS - 1))))));
  if negb (carry =? 0) then
    '(t, _) ← in_place t pos (l - pos) (fun s => Some (mp_shr_loop s 1 1));
    Some (t, true)
  else Some (t, false).

(** The loop that skips the zero limbs from the index [i] on. *)
Fixpoint skip_zeros (fuel : nat) (t : list Z) (i : Z) : option Z :=
  match fuel with
  | O => None
  | S fuel => v ← zget t i; if v =? 0 then skip_zeros fuel t (i + 1) else Some i
  end.

(** The bits below the digit [prec - 1] and the zero limbs at the bottom are removed; the
    array and the number of limbs left. *)
Definition round_trim (t : list Z) (l prec : Z) : option (list Z * Z) :=
  let bit_pos := i64 (l * LIMB_BITS - 1 - (prec - 1)) in
  let i := bit_pos ≫ LIMB_LOG2_BITS in
  '(t, i) ←
    (if 0 <=? i then
       let shift := bit_pos .& (LIMB_BITS - 1) in
       if negb (shift =? 0) then
         v ← zget t i;
         t ← zset t i (v .& limb_mask shift (LIMB_BITS - 1));
         Some (t, i)
       else Some (t, i)
     else Some (t, 0));
  i ← skip_zeros (length t) t i;
  if 0 <? i then
    s ← zslice t i (l - i);
    t ← zsplice t 0 s;
    Some (t, l - i)
  else Some (t, l).

Definition bf_underflow (o : aopaque) (r : bf_t) (ret : Z) : aopaque * bf_t * Z :=
  let '(o, r) := bf_set_zero o r (bf_sign r) in (o, r, ret .| (BF_ST_UNDERFLOW .| BF_ST_INEXACT)).

(** The precision for the number, which depends on the exponent for a precision after the
    radix point and for subnormal numbers. *)
Definition round_prec (expn prec1 flags e_min : Z) : option Z :=
  if negb (flags .& BF_FLAG_RADPNT_PREC =? 0) then
    Some (if negb (prec1 =? BF_PREC_INF) then i64 (expn + prec1) else i64 prec1)
  else if (expn <? e_min) && negb (flags .& BF_FLAG_SUBNORMAL =? 0) then
    if prec1 =? BF_PREC_INF then None else Some (i64 (prec1 - (e_min - expn)))
  else Some (i64 prec1).

Definition __bf_round (o : aopaque) (r : bf_t) (prec1 flags l ret : Z) : option (aopaque * bf_t * Z) :=
  let e_range := 1 ≪ (bf_get_exp_bits flags - 1) in
  let e_min := - e_range + 3 in
  let e_max := e_range in
  prec ← round_prec (expn r) prec1 flags e_min;
  let rnd_mode := flags .& BF_RND_MASK in
  '(ret, add_one) ← bf_get_rnd_add ret r l prec rnd_mode;
  if prec <=? 0 then
    if negb (add_one =? 0) then
      let '(o, r, _) := bf_resize o r 1 in
      t ← zset (tab r) 0 (u64 (1 ≪ (LIMB_BITS - 1)));
      Some (o, with_expn (with_tab r t) (i64 (expn r + (1 - prec))), ret .| (BF_ST_UNDERFLOW .| BF_ST_INEXACT))
    else Some (bf_underflow o r ret)
  else
    '(t, up) ← (if negb (add_one =? 0) then round_incr (tab r) l prec else Some (tab r, false));
    let r := with_tab r t in
    let r := if up : bool then with_expn r (i64 (expn r + 1)) else r in
    if (expn r <? e_min) && (flags .& BF_FLAG_SUBNORMAL =? 0) then Some (bf_underflow o r ret)
    else
      let ret := if (expn r <? e_min) && negb (ret .& BF_ST_INEXACT =? 0) then ret .| BF_ST_UNDERFLOW else ret in
      if e_max <? expn r then bf_set_overflow o r (bf_sign r) prec1 flags
      else
        '(t, l) ← round_trim (tab r) l prec;
        let '(o, r, _) := bf_resize o (with_tab r t) l in
        Some (o, r, ret).

(** The number of limbs without the zeros at the top. *)
Fixpoint top_len (t : list Z) (l : nat) : option nat :=
  match l with
  | O => Some O
  | S l' => v ← zget t (Z.of_nat l'); if v =? 0 then top_len t l' else Some l
  end.

(** The loop that shifts to the left. *)
Fixpoint shl_loop (t : list Z) (shift v : Z) : list Z :=
  match t with
  | [] => []
  | a :: t => (u64 (a ≪ shift) .| (v ≫ (LIMB_BITS - shift))) :: shl_loop t shift a
  end.

Definition bf_normalize_and_round (o : aopaque) (r : bf_t) (prec1 flags : Z) : option (aopaque * bf_t * Z) :=
  l ← top_len (tab r) (length (tab r));
  if (l =? 0)%nat then
    let '(o, r, _) := bf_resize o (with_expn r BF_EXP_ZERO) 0 in Some (o, r, 0)
  else
    let l := Z.of_nat l in
    let r := with_expn r (i64 (expn r - (len r - l) * LIMB_BITS)) in
    v ← zget (tab r) (l - 1);
    let shift := clz v in
    r ← (if negb (shift =? 0) then
           '(t, _) ← in_place (tab r) 0 l (fun s => Some (shl_loop s shift 0, 0));
           Some (with_expn (with_tab r t) (i64 (expn r - shift)))
         else Some r);
    __bf_round o r prec1 flags l 0.

Definition bf_round (o : aopaque) (r : bf_t) (prec flags : Z) : option (aopaque * bf_t * Z) :=
  if len r =? 0 then Some (o, r, 0) else __bf_round o r prec flags (len r) 0.

Definition bf_rint (o : aopaque) (r : bf_t) (rnd_mode : Z) : option (aopaque * bf_t * Z) :=
  bf_round o r 0 (rnd_mode .| BF_FLAG_RADPNT_PREC).

Definition bf_mul_2exp (o : aopaque) (r : bf_t) (e prec flags : Z) : option (aopaque * bf_t * Z) :=
  if len r =? 0 then Some (o, r, 0)
  else
    let e_max := (1 ≪ BF_EXT_EXP_BITS_MAX) - 1 in
    let e := bf_max e (- e_max) in
    let e := bf_min e e_max in
    __bf_round o (with_expn r (i64 (expn r + e))) prec flags (len r) 0.
End Num.
