(* ===== verification/BfRound.v ===== *)
(** Bits of arrays of limbs and the steps of [__bf_round]: which bits are kept, when one is
    added, and what is left after the zeros at the bottom are removed. *)

From S2P Require Import Prelude CutilsH DynBuf BfLimbs BfDiv BfSqrt BfNum.

(** ** Bits of the value of an array *)

(** The bit of [M] at a position, which may be outside of it. *)
Definition bitz (M pos : Z) : Z := if pos <? 0 then 0 else M / 2 ^ pos mod 2.

Lemma base_pow2 k : 0 <= k -> LIMB_BASE ^ k = 2 ^ (64 * k).
Proof. intros. unfold LIMB_BASE. by rewrite Z.pow_mul_r. Qed.

Lemma bpow2 {A} (l : list A) : bpow l = 2 ^ (64 * zlen l).
Proof. apply base_pow2, zlen_nonneg. Qed.

Lemma pos_parts pos : pos ≫ LIMB_LOG2_BITS = pos / 64 /\ pos .& (LIMB_BITS - 1) = pos mod 64.
Proof.
  split; [apply (shiftr_div pos 6); lia|]. change (LIMB_BITS - 1) with (Z.ones 6). by rewrite Z.land_ones.
Qed.

Lemma pow2_pos k : 0 <= k -> 0 < 2 ^ k.
Proof. intros. by apply Z.pow_pos_nonneg. Qed.

(** A bit of one limb between others. *)
Lemma bit_mid l1 v l2 p :
  limbs l1 -> limbs (v :: l2) -> 0 <= p < 64 ->
  (mpz (l1 ++ v :: l2)) / 2 ^ (64 * zlen l1 + p) mod 2 = v / 2 ^ p mod 2.
Proof.
  intros H1 H2 Hp. pose proof (zlen_nonneg l1) as Hz. rewrite Z.pow_add_r, <- Z.div_div by (apply Z.pow_nonzero || apply pow2_pos || idtac; lia).
  rewrite <- bpow2, mpz_app. pose proof (mpz_range l1 H1) as Hr. rewrite (Z.mul_comm (bpow l1)), Z.div_add by lia.
  rewrite (Z.div_small (mpz l1)), Z.add_0_l, mpz_cons by lia.
  assert (HB : LIMB_BASE = 2 * 2 ^ (63 - p) * 2 ^ p) by (rewrite <- Z.mul_assoc, <- Z.pow_add_r by lia; replace (63 - p + p) with 63 by lia; done).
  rewrite HB. replace (v + 2 * 2 ^ (63 - p) * 2 ^ p * mpz l2) with (v + 2 ^ (63 - p) * mpz l2 * 2 * 2 ^ p) by ring.
  pose proof (pow2_pos p). rewrite Z.div_add by lia. by rewrite Z_mod_plus_full.
Qed.

Lemma split_at {A} (t : list A) i : 0 <= i < zlen t -> exists l1 v l2, t = l1 ++ v :: l2 /\ zlen l1 = i /\ zget t i = Some v.
Proof.
  intros Hi. destruct (zget_in_range t i Hi) as [v Hg]. pose proof Hg as Hv. rewrite zget_lookup in Hv by lia.
  pose proof (take_drop_middle t _ v Hv) as He. exists (take (Z.to_nat i) t), v, (drop (S (Z.to_nat i)) t).
  split; [done|]. split; [rewrite zlen_take; lia|done].
Qed.

Lemma get_bit_spec t1 t2 l pos :
  limbs t1 -> l = zlen t1 -> get_bit (t1 ++ t2) l pos = Some (bitz (mpz t1) pos).
Proof.
  intros H1 ->. unfold get_bit, bitz. destruct (pos_parts pos) as [-> ->].
  pose proof (Z.div_mod pos 64 ltac:(lia)) as Hd. pose proof (Z.mod_pos_bound pos 64 ltac:(lia)) as Hm.
  set (i := pos / 64) in *. set (p := pos mod 64) in *. clearbody i p.
  destruct (Z.ltb_spec i 0) as [Hi|Hi]; cbn [orb]; [by rewrite (proj2 (Z.ltb_lt pos 0)) by lia|].
  rewrite (proj2 (Z.ltb_ge pos 0)) by lia. destruct (Z.leb_spec (zlen t1) i) as [Hl|Hl].
  - pose proof (mpz_range t1 H1) as Hr. rewrite bpow2 in Hr. rewrite Z.div_small; [done|]. split; [lia|].
    apply Z.lt_le_trans with (2 ^ (64 * zlen t1)); [lia|]. apply Z.pow_le_mono_r; lia.
  - destruct (split_at t1 i ltac:(lia)) as (l1 & v & l2 & -> & Hl1 & _). rewrite <- app_assoc, <- app_comm_cons, zget_mid by lia. cbn [mbind option_bind].
    f_equal. rewrite shiftr_div by lia. change 1 with (Z.ones 1). rewrite Z.land_ones by lia. change (2 ^ 1) with 2.
    apply Forall_app in H1 as [H0 H1]. rewrite <- (bit_mid l1 v l2 p) by done. by rewrite Hd, <- Hl1.
Qed.

Lemma limb_mask_low p : 0 <= p < 64 -> limb_mask 0 p = Z.ones (p + 1).
Proof.
  intros Hp. unfold limb_mask. rewrite limb_bits_val. replace (p - 0 + 1) with (p + 1) by lia. destruct (Z.eqb_spec (p + 1) 64) as [->|Hne]; [done|].
  rewrite (Z.shiftl_mul_pow2 _ 0), Z.mul_1_r by lia. rewrite shiftl_mul, Z.mul_1_l by lia.
  assert (Hlt : 0 < 2 ^ (p + 1) <= 2 ^ 63) by (split; [apply pow2_pos; lia|apply Z.pow_le_mono_r; lia]).
  rewrite (u64_limb (2 ^ (p + 1))) by (unfold is_limb; rewrite limb_base_val; lia). rewrite Z.ones_equiv, <- Z.sub_1_r.
  apply u64_limb. unfold is_limb. rewrite limb_base_val. lia.
Qed.

Lemma limb_mask_high v j : is_limb v -> 0 < j < 64 -> v .& limb_mask j (LIMB_BITS - 1) = v / 2 ^ j * 2 ^ j.
Proof.
  intros Hv Hj. unfold limb_mask. rewrite limb_bits_val. replace (64 - 1 - j + 1) with (64 - j) by lia. rewrite (proj2 (Z.eqb_neq _ _)) by lia.
  rewrite (shiftl_mul 1), Z.mul_1_l by lia.
  assert (Hlt : 0 < 2 ^ (64 - j) <= 2 ^ 63) by (split; [apply pow2_pos; lia|apply Z.pow_le_mono_r; lia]).
  rewrite (u64_limb (2 ^ (64 - j))) by (unfold is_limb; rewrite limb_base_val; lia). rewrite Z.sub_1_r, <- Z.ones_equiv.
  assert (Hj0 : 0 < 2 ^ j) by (apply pow2_pos; lia). assert (Hjj : 2 ^ (64 - j) * 2 ^ j = 2 ^ 64) by (rewrite <- Z.pow_add_r by lia; f_equal; lia).
  rewrite (u64_limb (Z.ones (64 - j) ≪ j)).
  2:{ rewrite Z.shiftl_mul_pow2, Z.ones_equiv, <- Z.sub_1_r by lia. unfold is_limb. rewrite limb_base_val. nia. }
  rewrite <- Z.shiftr_div_pow2, <- Z.shiftl_mul_pow2 by lia. apply Z.bits_inj'. intros n Hn. rewrite Z.land_spec, !Z.shiftl_spec by lia.
  destruct (Z.ltb_spec n j) as [Hnj|Hnj]; [rewrite !(Z.testbit_neg_r _ (n - j)) by lia; apply andb_false_r|].
  rewrite Z.shiftr_spec by lia. replace (n - j + j) with n by lia. rewrite Z.testbit_ones_nonneg by lia.
  destruct (Z.ltb_spec (n - j) (64 - j)) as [Hlt'|Hge]; [apply andb_true_r|]. rewrite andb_false_r. symmetry.
  destruct (decide (v = 0)) as [->|Hv0]; [apply Z.bits_0|]. apply Z.bits_above_log2; [destruct Hv; lia|].
  apply Z.log2_lt_pow2; [destruct Hv; lia|]. apply Z.lt_le_trans with (2 ^ 64); [apply Hv|apply Z.pow_le_mono_r; lia].
Qed.

Lemma scan_limbs_nz_spec l1 t2 : limbs l1 -> scan_limbs_nz (l1 ++ t2) (length l1) = Some (b2z (negb (mpz l1 =? 0))).
Proof.
  revert t2. induction l1 as [|v l1 IH] using rev_ind; intros t2 Hl; [done|]. apply Forall_app in Hl as [Hl Hv]. apply Forall_cons in Hv as [Hv _].
  rewrite length_app. simpl length. rewrite Nat.add_1_r. cbn [scan_limbs_nz]. rewrite <- app_assoc. cbn [app]. rewrite zget_mid by done. cbn [mbind option_bind].
  pose proof (mpz_range l1 Hl) as Hr. rewrite mpz_app, mpz_cons. cbn [mpz foldr]. destruct (Z.eqb_spec v 0) as [->|Hne]; cbn [negb].
  - rewrite IH by done. do 3 f_equal. f_equal. lia.
  - destruct Hv. rewrite (proj2 (Z.eqb_neq _ _)); [done|]. assert (bpow l1 * 1 <= bpow l1 * v) by (apply Z.mul_le_mono_nonneg_l; lia). lia.
Qed.

Lemma mod_mid l1 v l2 p :
  limbs l1 -> is_limb v -> 0 <= p < 64 ->
  mpz (l1 ++ v :: l2) mod 2 ^ (64 * zlen l1 + (p + 1)) = mpz l1 + bpow l1 * (v mod 2 ^ (p + 1)).
Proof.
  intros H1 Hv Hp. pose proof (zlen_nonneg l1) as Hz. pose proof (mpz_range l1 H1) as Hr. rewrite mpz_app, mpz_cons, Z.pow_add_r by lia. rewrite <- bpow2.
  pose proof (pow2_pos (p + 1) ltac:(lia)) as HP. pose proof (Z.mod_pos_bound v (2 ^ (p + 1)) HP) as Hm. pose proof (Z.div_mod v (2 ^ (p + 1)) ltac:(lia)) as Hd.
  assert (HB : LIMB_BASE = 2 ^ (63 - p) * 2 ^ (p + 1)) by (rewrite <- Z.pow_add_r by lia; f_equal; lia).
  symmetry. apply (Z.mod_unique_pos _ _ (v / 2 ^ (p + 1) + 2 ^ (63 - p) * mpz l2)).
  - split; [apply Z.add_nonneg_nonneg; [lia|apply Z.mul_nonneg_nonneg; lia]|].
    assert (bpow l1 * (v mod 2 ^ (p + 1) + 1) <= bpow l1 * 2 ^ (p + 1)) by (apply Z.mul_le_mono_nonneg_l; lia). lia.
  - rewrite HB. rewrite Hd at 1. ring.
Qed.

Lemma scan_bit_nz_spec t pos :
  limbs t -> pos < 64 * zlen t ->
  scan_bit_nz t pos = Some (if pos <? 0 then 0 else b2z (negb (mpz t mod 2 ^ (pos + 1) =? 0))).
Proof.
  intros Ht Hlt. unfold scan_bit_nz. destruct (pos_parts pos) as [-> ->].
  pose proof (Z.div_mod pos 64 ltac:(lia)) as Hd. pose proof (Z.mod_pos_bound pos 64 ltac:(lia)) as Hm.
  set (i := pos / 64) in *. set (p := pos mod 64) in *. clearbody i p.
  destruct (Z.ltb_spec i 0) as [Hi|Hi]; [by rewrite (proj2 (Z.ltb_lt pos 0)) by lia|]. rewrite (proj2 (Z.ltb_ge pos 0)) by lia.
  destruct (split_at t i ltac:(lia)) as (l1 & v & l2 & -> & Hl1 & ->). cbn [mbind option_bind].
  apply Forall_app in Ht as [H1 H2]. apply Forall_cons in H2 as [Hv H2]. rewrite limb_mask_low, Z.land_ones by lia.
  replace (pos + 1) with (64 * zlen l1 + (p + 1)) by lia. rewrite mod_mid by done. pose proof (mpz_range l1 H1) as Hr.
  pose proof (Z.mod_pos_bound v (2 ^ (p + 1)) ltac:(apply pow2_pos; lia)) as Hb. set (w := v mod 2 ^ (p + 1)) in *. clearbody w.
  destruct (Z.eqb_spec w 0) as [->|Hne]; cbn [negb].
  - replace (Z.to_nat i) with (length l1) by (unfold zlen in Hl1; lia). rewrite scan_limbs_nz_spec by done. do 3 f_equal. f_equal. lia.
  - rewrite (proj2 (Z.eqb_neq _ _)); [done|]. assert (bpow l1 * 1 <= bpow l1 * w) by (apply Z.mul_le_mono_nonneg_l; lia). lia.
Qed.

(** ** What rounding is *)

(** Whether the magnitude [q] is incremented, for a rest of [rem] out of [2 ^ k]. *)
Definition rnd_up (mode sign q rem k : Z) : bool :=
  if mode =? BF_RNDZ then false
  else if mode =? BF_RNDN then (2 ^ k <? 2 * rem) || ((2 * rem =? 2 ^ k) && Z.odd q)
  else if mode =? BF_RNDD then (sign =? 1) && negb (rem =? 0)
  else if mode =? BF_RNDU then (sign =? 0) && negb (rem =? 0)
  else if mode =? BF_RNDA then negb (rem =? 0)
  else 2 ^ k <=? 2 * rem.

Definition is_inexact (mode rem : Z) : bool := (mode =? BF_RNDF) || negb (rem =? 0).

Definition add_status (c : bool) (st ret : Z) : Z := if c then ret .| st else ret.

Lemma mod_prefix t1 t2 j : limbs t1 -> 0 <= j <= 64 * zlen t1 -> mpz (t1 ++ t2) mod 2 ^ j = mpz t1 mod 2 ^ j.
Proof.
  intros H1 Hj. rewrite mpz_app, bpow2. replace (64 * zlen t1) with (64 * zlen t1 - j + j) by lia. rewrite Z.pow_add_r by lia.
  replace (2 ^ (64 * zlen t1 - j) * 2 ^ j * mpz t2) with (2 ^ (64 * zlen t1 - j) * mpz t2 * 2 ^ j) by ring. apply Z_mod_plus_full.
Qed.

(** The bit below the last one that is kept and the bits below it. *)
Lemma rest_bits M k :
  1 <= k -> 0 <= M -> M mod 2 ^ k = M mod 2 ^ (k - 1) + 2 ^ (k - 1) * bitz M (k - 1) /\ 0 <= M mod 2 ^ (k - 1) < 2 ^ (k - 1) /\
  0 <= bitz M (k - 1) <= 1 /\ 2 ^ k = 2 * 2 ^ (k - 1).
Proof.
  intros Hk HM. assert (HP : 2 ^ k = 2 ^ (k - 1) * 2) by (rewrite <- (Z.pow_1_r 2) at 3; rewrite <- Z.pow_add_r by lia; f_equal; lia).
  pose proof (pow2_pos (k - 1) ltac:(lia)) as Hp. unfold bitz. rewrite (proj2 (Z.ltb_ge (k - 1) 0)) by lia.
  rewrite HP, Z.rem_mul_r by lia. pose proof (Z.mod_pos_bound M (2 ^ (k - 1)) Hp). pose proof (Z.mod_pos_bound (M / 2 ^ (k - 1)) 2 ltac:(lia)). lia.
Qed.

Lemma i64_small x : - 2 ^ 63 <= x < 2 ^ 63 -> i64 x = x.
Proof. unfold i64, wraps. intros. case_match; bool_props; zdm. Qed.

Lemma bit_odd M k : 0 <= k -> bitz M k = b2z (Z.odd (M / 2 ^ k)).
Proof. intros Hk. unfold bitz. rewrite (proj2 (Z.ltb_ge k 0)) by lia. rewrite Zmod_odd. by destruct (Z.odd _). Qed.

Lemma rnd_add_cases mode sign q rem k b1 b0 low :
  0 <= mode <= 6 -> 0 <= sign <= 1 -> 0 <= low < 2 ^ (k - 1) -> 0 <= b1 <= 1 -> rem = low + 2 ^ (k - 1) * b1 -> 2 ^ k = 2 * 2 ^ (k - 1) ->
  b0 = (if mode =? BF_RNDF then 1 else b2z (negb (low =? 0))) ->
  negb (b1 .| b0 =? 0) = is_inexact mode rem /\
  (if mode =? BF_RNDZ then Some 0
   else if mode =? BF_RNDN then
     if negb (b1 =? 0) then if negb (b0 =? 0) then Some 1 else Some (b2z (Z.odd q)) else Some 0
   else if (mode =? BF_RNDD) || (mode =? BF_RNDU) then
     Some (if sign =? b2z (mode =? BF_RNDD) then b2z (negb (b1 .| b0 =? 0)) else 0)
   else if mode =? BF_RNDA then Some (b2z (negb (b1 .| b0 =? 0)))
   else if (mode =? BF_RNDNA) || (mode =? BF_RNDF) then Some b1 else None) =
  Some (b2z (rnd_up mode sign q rem k)).
Proof.
  intros Hmode Hsign Hlow Hb1 Hrem Hk Hb0. set (P := 2 ^ (k - 1)) in *. assert (HP : 0 < P) by lia.
  assert (Hin : negb (b1 .| b0 =? 0) = is_inexact mode rem).
  { unfold is_inexact. subst b0. assert (b1 = 0 \/ b1 = 1) as [->| ->] by lia; rewrite ?Z.lor_0_l.
    - destruct (Z.eqb_spec mode BF_RNDF); [done|]. cbn [orb]. replace rem with low by lia. by destruct (low =? 0).
    - rewrite (proj2 (Z.eqb_neq rem 0)) by lia. rewrite orb_true_r. destruct (mode =? BF_RNDF); [done|]. by destruct (low =? 0). }
  split; [done|]. rewrite Hin. unfold rnd_up, is_inexact. rewrite Hk. clear Hin.
  assert (mode = 0 \/ mode = 1 \/ mode = 2 \/ mode = 3 \/ mode = 4 \/ mode = 5 \/ mode = 6) as Hm by lia.
  assert (sign = 0 \/ sign = 1) as Hs by lia. assert (b1 = 0 \/ b1 = 1) as Hb by lia.
  destruct Hm as [->|[->|[->|[->|[->|[->| ->]]]]]]; cbn [Z.eqb BF_RNDZ BF_RNDN BF_RNDD BF_RNDU BF_RNDNA BF_RNDA BF_RNDF Pos.eqb orb negb b2z] in *.
  - subst b0. destruct Hb as [->| ->]; cbn [Z.eqb negb].
    + f_equal. bool_cases; cbn; try done; lia.
    + destruct (Z.eqb_spec low 0) as [Hl|Hl]; cbn; f_equal; bool_cases; cbn; try done; try lia.
  - done.
  - destruct Hs as [->| ->]; done.
  - destruct Hs as [->| ->]; done.
  - f_equal. destruct Hb as [->| ->]; bool_cases; cbn; try done; lia.
  - done.
  - f_equal. destruct Hb as [->| ->]; bool_cases; cbn; try done; lia.
Qed.

Lemma bf_get_rnd_add_spec ret r t1 t2 l prec mode k :
  tab r = t1 ++ t2 -> limbs t1 -> limbs t2 -> l = zlen t1 -> 1 <= l -> 64 * l <= 2 ^ 62 -> - 2 ^ 63 < prec < 2 ^ 63 - 1 -> 64 * l - prec < 2 ^ 63 ->
  0 <= mode <= 6 -> 0 <= bf_sign r <= 1 -> k = Z.max 0 (64 * l - prec) ->
  bf_get_rnd_add ret r l prec mode =
    Some (add_status (is_inexact mode (mpz t1 mod 2 ^ k)) BF_ST_INEXACT ret,
          b2z (rnd_up mode (bf_sign r) (mpz t1 / 2 ^ k) (mpz t1 mod 2 ^ k) k)).
Proof.
  intros Ht H1 H2 Hl Hl1 Hl62 Hprec Hlp Hmode Hsign Hk. unfold bf_get_rnd_add. rewrite Ht, limb_bits_val.
  pose proof (mpz_range t1 H1) as Hr. rewrite bpow2 in Hr. unfold bf_max. rewrite (i64_small (prec + 1)) by lia.
  set (mx := if prec + 1 <? 0 then 0 else prec + 1). assert (Hmx : mx = Z.max 0 (prec + 1)) by (unfold mx; case_match; bool_props; lia). clearbody mx.
  rewrite !i64_small by lia. rewrite (get_bit_spec t1 t2 l (l * 64 - 1 - prec)), (get_bit_spec t1 t2 l (l * 64 - 1 - (prec - 1))) by done.
  rewrite (scan_bit_nz_spec (t1 ++ t2)); [|by apply Forall_app_2|unfold zlen in *; rewrite length_app; lia].
  destruct (Z.le_gt_cases (64 * l - prec) 0) as [Hle|Hgt].
  - assert (k = 0) as -> by lia. change (2 ^ 0) with 1. rewrite Z.mod_1_r, Z.div_1_r.
    assert (bitz (mpz t1) (l * 64 - 1 - prec) = 0) as -> by (unfold bitz; rewrite (proj2 (Z.ltb_lt _ 0)) by lia; done).
    rewrite (proj2 (Z.ltb_lt (l * 64 - 1 - mx) 0)) by lia.
    assert (mode = 0 \/ mode = 1 \/ mode = 2 \/ mode = 3 \/ mode = 4 \/ mode = 5 \/ mode = 6) as Hm by lia.
    assert (bf_sign r = 0 \/ bf_sign r = 1) as Hs by lia.
    destruct Hm as [->|[->|[->|[->|[->|[->| ->]]]]]], Hs as [->| ->]; reflexivity.
  - assert (k = 64 * l - prec) as -> by lia. clear Hk. set (k := 64 * l - prec) in *. assert (Hk1 : 1 <= k) by lia.
    replace (l * 64 - 1 - prec) with (k - 1) by lia. replace (l * 64 - 1 - (prec - 1)) with k by lia.
    destruct (rest_bits (mpz t1) k Hk1 ltac:(lia)) as (Hrem & Hlow & Hb1 & HP).
    assert (Hb0 : (if l * 64 - 1 - mx <? 0 then 0 else b2z (negb (mpz (t1 ++ t2) mod 2 ^ (l * 64 - 1 - mx + 1) =? 0))) = b2z (negb (mpz t1 mod 2 ^ (k - 1) =? 0))).
    { destruct (Z.ltb_spec (l * 64 - 1 - mx) 0) as [Hn|Hn].
      - assert (k = 1) as Hk' by lia. rewrite Hk'. change (2 ^ (1 - 1)) with 1. by rewrite Z.mod_1_r.
      - rewrite mod_prefix by (done || lia). destruct (Z.le_gt_cases (-1) prec) as [Hp|Hp]; [by replace (l * 64 - 1 - mx + 1) with (k - 1) by lia|].
        replace (l * 64 - 1 - mx + 1) with (64 * zlen t1) by lia. rewrite !Z.mod_small; [done| |lia].
        split; [lia|]. apply Z.lt_le_trans with (2 ^ (64 * zlen t1)); [lia|apply Z.pow_le_mono_r; lia]. }
    rewrite Hb0, bit_odd by lia. cbn [mbind option_bind].
    destruct (rnd_add_cases mode (bf_sign r) (mpz t1 / 2 ^ k) (mpz t1 mod 2 ^ k) k (bitz (mpz t1) (k - 1))
      (if mode =? BF_RNDF then 1 else b2z (negb (mpz t1 mod 2 ^ (k - 1) =? 0))) (mpz t1 mod 2 ^ (k - 1))) as [Hin Hadd]; [done..|].
    destruct (mode =? BF_RNDF) eqn:Hf; cbn [mbind option_bind]; rewrite Hadd; cbn [mbind option_bind]; by rewrite Hin.
Qed.

Lemma round_carry_eq t c : limbs t -> round_carry t c = mp_add_ui t c \/ c = 0 /\ round_carry t c = (t, 0).
Proof.
  intros Ht. revert c. induction Ht as [|a t Ha Ht IH]; intros c; [by left|]. cbn [round_carry mp_add_ui].
  destruct (Z.eqb_spec c 0) as [->|Hne].
  { right. split; [done|]. rewrite Z.add_0_r, u64_limb by done. destruct Ha. rewrite (proj2 (Z.ltb_ge a 0)) by lia. done. }
  left. destruct (u64 (a + c) <? c) eqn:Hc; cbn [b2z Z.eqb].
  - destruct (IH 1) as [->|[? _]]; [by destruct (mp_add_ui t 1)|done].
  - by destruct t.
Qed.

Lemma round_carry_spec t b :
  limbs t -> is_limb b -> b <> 0 ->
  exists res k, round_carry t b = (res, k) /\ carries t res (mpz t + b) k /\ is_limb k /\ (t <> [] -> k <= 1).
Proof. intros Ht Hb Hne. destruct (round_carry_eq t b Ht) as [->|[? _]]; [by apply mp_add_ui_spec|done]. Qed.

Lemma div_scaled a q P : 0 < P -> (a + P * q) / P = a / P + q.
Proof. intros. rewrite Z.mul_comm, Z.div_add by lia. done. Qed.

(** The limbs from the one with the digit at the position [k] on. *)
Lemma digit_split t1 k :
  limbs t1 -> 0 <= k < 64 * zlen t1 ->
  exists a b, t1 = a ++ b /\ zlen a = k / 64 /\ zlen b = zlen t1 - k / 64 /\ limbs a /\ limbs b /\ b <> [] /\
    bpow b = 2 ^ (k mod 64) * 2 ^ (64 * zlen t1 - k) /\
    (forall b', limbs b' -> length b' = length b -> mpz (a ++ b') / 2 ^ k = mpz b' / 2 ^ (k mod 64)).
Proof.
  intros H1 Hk. pose proof (Z.div_mod k 64 ltac:(lia)) as Hd. pose proof (Z.mod_pos_bound k 64 ltac:(lia)) as Hm.
  set (pos := k / 64) in *. set (j := k mod 64) in *. clearbody pos j.
  exists (take (Z.to_nat pos) t1), (drop (Z.to_nat pos) t1). set (a := take _ t1). set (b := drop _ t1).
  assert (Hla : zlen a = pos) by (unfold a; rewrite zlen_take; lia). assert (Hlb : zlen b = zlen t1 - pos) by (unfold b; rewrite zlen_drop; lia).
  assert (Ha : limbs a) by (by apply Forall_take). assert (Hb : limbs b) by (by apply Forall_drop).
  split; [symmetry; apply take_drop|]. split; [done|]. split; [done|]. split; [done|]. split; [done|]. split.
  { intros Hn. rewrite Hn in Hlb. change (zlen (@nil Z)) with 0 in Hlb. lia. }
  split; [rewrite bpow2, <- Z.pow_add_r by lia; f_equal; lia|].
  intros b' Hb' Hl. rewrite Hd at 1. rewrite Z.pow_add_r, <- Z.div_div by (try apply Z.pow_nonzero; try apply pow2_pos; lia). f_equal.
  rewrite <- Hla, <- bpow2, mpz_app. pose proof (mpz_range a Ha). rewrite div_scaled by lia. rewrite Z.div_small by lia. lia.
Qed.

Lemma round_incr_spec t1 t2 l prec k :
  limbs t1 -> l = zlen t1 -> 64 * l <= 2 ^ 62 -> 1 <= prec -> k = 64 * l - prec -> 0 <= k ->
  exists t1' up, round_incr (t1 ++ t2) l prec = Some (t1' ++ t2, up) /\ limbs t1' /\ length t1' = length t1 /\
    if up : bool then mpz t1 / 2 ^ k + 1 = 2 ^ prec /\ mpz t1' / 2 ^ k = 2 ^ (prec - 1)
    else mpz t1' / 2 ^ k = mpz t1 / 2 ^ k + 1.
Proof.
  intros H1 Hl H62 Hprec Hk Hk0. unfold round_incr. rewrite limb_bits_val. replace (l * 64 - 1 - (prec - 1)) with k by lia. rewrite i64_small by lia.
  destruct (pos_parts k) as [-> Hj]. rewrite limb_bits_val in Hj. rewrite Hj.
  destruct (digit_split t1 k H1 ltac:(lia)) as (a & b & -> & Hla & Hlb & Ha & Hb & Hbne & HP & Hdiv).
  pose proof (Z.mod_pos_bound k 64 ltac:(lia)) as Hm. set (j := k mod 64) in *. clearbody j.
  rewrite shiftl_mul, Z.mul_1_l by lia. assert (Hj0 : 0 < 2 ^ j) by (apply pow2_pos; lia).
  assert (Hjl : is_limb (2 ^ j)) by (split; [lia|apply Z.pow_lt_mono_r; lia]). rewrite u64_limb by done.
  destruct (round_carry_spec b (2 ^ j) Hb Hjl) as (b' & c & Hrc & [Hlb' Hb' Hv] & [Hc0 _] & Hc1); [lia|]. specialize (Hc1 Hbne).
  rewrite <- app_assoc. rewrite (in_place_app a b t2 _ _ _ b' c); [|lia|lia|by rewrite Hrc|done]. cbn [mbind option_bind].
  rewrite (Hdiv b Hb eq_refl) in *. replace (64 * zlen (a ++ b) - k) with prec in HP by lia. rewrite HP in Hv.
  pose proof (mpz_range b Hb) as Hrb. rewrite HP in Hrb. pose proof (mpz_range b' Hb') as Hrb'. rewrite (bpow_length b' b Hlb'), HP in Hrb'.
  pose proof (pow2_pos prec ltac:(lia)) as Hpp.
  assert (Hq : mpz b' / 2 ^ j + 2 ^ prec * c = mpz b / 2 ^ j + 1).
  { rewrite <- (div_scaled (mpz b) 1 (2 ^ j)), <- (div_scaled (mpz b') (2 ^ prec * c) (2 ^ j)) by done. f_equal. lia. }
  assert (Hqlt : 0 <= mpz b / 2 ^ j < 2 ^ prec) by (split; [apply Z.div_pos; lia|apply Z.div_lt_upper_bound; lia]).
  assert (Hq'0 : 0 <= mpz b' / 2 ^ j) by (apply Z.div_pos; lia).
  destruct (Z.eqb_spec c 0) as [->|Hne]; cbn [negb].
  - exists (a ++ b'), false. rewrite <- app_assoc. split; [done|]. split; [by apply Forall_app_2|]. split; [rewrite !length_app; lia|].
    rewrite Hdiv by done. lia.
  - assert (c = 1) as -> by lia. destruct (mp_shr_loop_spec b' 1 1 Hb' limb_1) as (b'' & x & Hshr & _ & Hlb'' & Hb'' & Hv2); [lia|].
    rewrite (in_place_app a b' t2 _ _ _ b'' x); [|lia|unfold zlen in *; lia|by rewrite Hshr|done]. cbn [mbind option_bind].
    exists (a ++ b''), true. rewrite <- app_assoc. split; [done|]. split; [by apply Forall_app_2|]. split; [rewrite !length_app; lia|].
    rewrite Hdiv by (done || lia). assert (Hz : mpz b' / 2 ^ j = 0) by lia. split; [lia|].
    rewrite (bpow_length b' b Hlb'), HP in Hv2. change (2 ^ 1) with 2 in Hv2. change (1 mod 2) with 1 in Hv2.
    assert (Hb2 : mpz b'' = (mpz b' + 2 ^ j * 2 ^ prec) / 2).
    { pose proof (Z.mod_pos_bound x 2 ltac:(lia)). apply (Z.div_unique_pos _ _ _ (x mod 2)); lia. }
    rewrite Hb2, Z.div_div, (Z.mul_comm 2), <- Z.div_div by lia. rewrite div_scaled, Hz, Z.add_0_l by lia.
    replace (2 ^ prec) with (2 ^ (prec - 1) * 2) by (rewrite <- (Z.pow_1_r 2) at 2; rewrite <- Z.pow_add_r by lia; f_equal; lia).
    apply Z.div_mul. lia.
Qed.

Lemma skip_zeros_spec z fuel pre v rest i :
  v <> 0 -> (z < fuel)%nat -> i = zlen pre ->
  skip_zeros fuel (pre ++ replicate z 0 ++ v :: rest) i = Some (i + Z.of_nat z).
Proof.
  intros Hv. revert fuel pre i. induction z as [|z IH]; intros [|fuel] pre i Hf ->; [lia| |lia|]; cbn [skip_zeros replicate app].
  - rewrite zget_mid by done. cbn [mbind option_bind]. rewrite (proj2 (Z.eqb_neq v 0)) by done. f_equal. lia.
  - rewrite zget_mid by done. cbn [mbind option_bind Z.eqb].
    replace (pre ++ 0 :: replicate z 0 ++ v :: rest) with ((pre ++ [0]) ++ replicate z 0 ++ v :: rest) by (by rewrite <- app_assoc).
    rewrite IH by (lia || (unfold zlen; rewrite length_app; simpl; lia)). f_equal. lia.
Qed.

Lemma strip_zeros b : limbs b -> mpz b <> 0 -> exists z v rest, b = replicate z 0 ++ v :: rest /\ v <> 0.
Proof.
  intros Hb. induction Hb as [|x b Hx Hb IH]; [done|]. rewrite mpz_cons. intros Hne. destruct (decide (x = 0)) as [->|Hx0]; [|by exists 0%nat, x, b].
  destruct IH as (z & v & rest & -> & Hv); [lia|]. by exists (S z), v, rest.
Qed.

(** The bits below [k] of a number that has no limbs below [a]. *)
Lemma mask_digit v b j : is_limb v -> 0 <= j < 64 -> mpz (v / 2 ^ j * 2 ^ j :: b) = mpz (v :: b) / 2 ^ j * 2 ^ j /\ is_limb (v / 2 ^ j * 2 ^ j).
Proof.
  intros Hv Hj. pose proof (pow2_pos j ltac:(lia)) as Hp. assert (HB : LIMB_BASE = 2 ^ j * 2 ^ (64 - j)) by (rewrite <- Z.pow_add_r by lia; f_equal; lia).
  rewrite !mpz_cons. split.
  - rewrite HB. rewrite <- !Z.mul_assoc, div_scaled by lia. ring.
  - destruct Hv as [Hv0 Hv1]. pose proof (Z.div_pos v (2 ^ j) Hv0 Hp). pose proof (Z.mul_div_le v (2 ^ j) Hp). split; lia.
Qed.

Record trimmed (l : Z) (t t' : list Z) (l' N : Z) : Prop := {
  tr_len : 1 <= l' <= l;
  tr_keep : zlen t' = zlen t;
  tr_limbs : limbs (take (Z.to_nat l') t');
  tr_value : mpz (take (Z.to_nat l') t') * 2 ^ (64 * (l - l')) = N;
  tr_low : exists v rest, take (Z.to_nat l') t' = v :: rest /\ v <> 0 }.

Lemma trim_low a b t2 l N :
  limbs b -> mpz b <> 0 -> l = zlen a + zlen b -> N = mpz b * 2 ^ (64 * zlen a) ->
  exists t' l', (i ← skip_zeros (length (a ++ b ++ t2)) (a ++ b ++ t2) (zlen a);
    if 0 <? i then s ← zslice (a ++ b ++ t2) i (l - i); t ← zsplice (a ++ b ++ t2) 0 s; Some (t, l - i)
    else Some (a ++ b ++ t2, l)) = Some (t', l') /\ trimmed l (a ++ b ++ t2) t' l' N.
Proof.
  intros Hb Hne Hl HN. destruct (strip_zeros b Hb Hne) as (z & v & rest & Hbeq & Hv). set (T := v :: rest).
  assert (HT : limbs T) by (rewrite Hbeq in Hb; by apply Forall_app in Hb as [_ Hb]).
  assert (Hval : N = mpz T * 2 ^ (64 * (zlen a + Z.of_nat z))).
  { rewrite HN, Hbeq, mpz_app, mpz_zeros, Z.add_0_l, bpow2, Z.mul_add_distr_l, Z.pow_add_r by (pose proof (zlen_nonneg a); lia).
    unfold zlen. rewrite length_replicate. fold T. ring. }
  assert (HlT : zlen T = zlen b - Z.of_nat z) by (rewrite Hbeq; unfold T, zlen; rewrite length_app, length_replicate; lia).
  assert (HlT1 : 1 <= zlen T) by (unfold T, zlen; simpl; lia). pose proof (zlen_nonneg a) as Ha0.
  assert (Heq : a ++ b ++ t2 = (a ++ replicate z 0) ++ T ++ t2) by (rewrite Hbeq, <- !app_assoc; done).
  assert (Hpre : zlen (a ++ replicate z 0) = zlen a + Z.of_nat z) by (unfold zlen; rewrite length_app, length_replicate; lia).
  assert (Hskip : skip_zeros (length (a ++ b ++ t2)) (a ++ b ++ t2) (zlen a) = Some (zlen a + Z.of_nat z)).
  { rewrite Hbeq, <- (app_assoc _ (v :: rest)), <- app_comm_cons. apply skip_zeros_spec; [done| |done]. rewrite !length_app, length_replicate. simpl. lia. }
  rewrite Hskip. cbn [mbind option_bind]. rewrite Heq. destruct (Z.ltb_spec 0 (zlen a + Z.of_nat z)) as [Hi|Hi].
  - rewrite zslice_part by (unfold zlen in *; lia). cbn [mbind option_bind].
    assert (Hsp : zsplice ((a ++ replicate z 0) ++ T ++ t2) 0 T = Some (T ++ drop (length T) ((a ++ replicate z 0) ++ T ++ t2))).
    { rewrite <- (take_drop (length T) ((a ++ replicate z 0) ++ T ++ t2)) at 1. apply zsplice_head. rewrite length_take, !length_app. lia. }
    rewrite Hsp. cbn [mbind option_bind]. eexists _, _. split; [done|]. assert (Hl' : Z.to_nat (l - (zlen a + Z.of_nat z)) = length T) by (unfold zlen in *; lia).
    split; rewrite ?Hl', ?take_app_length; [lia| |done| |by exists v, rest].
    + unfold zlen. rewrite length_app, length_drop, !length_app. lia.
    + rewrite Hval. do 2 f_equal. lia.
  - assert (z = 0%nat) as -> by lia. assert (Hza : zlen a = 0) by lia. destruct a; [|unfold zlen in Hza; simpl in Hza; lia]. cbn [app replicate] in *.
    eexists _, _. split; [done|]. assert (Hl' : Z.to_nat l = length T) by (unfold zlen in *; lia). rewrite Hza in *.
    split; rewrite ?Hl', ?take_app_length; [lia|done|done| |by exists v, rest]. rewrite Hval. do 2 f_equal. lia.
Qed.

Lemma round_trim_spec t1 t2 l prec k :
  limbs t1 -> l = zlen t1 -> 64 * l <= 2 ^ 62 -> 1 <= l -> 1 <= prec < 2 ^ 63 -> k = Z.max 0 (64 * l - prec) -> mpz t1 / 2 ^ k <> 0 ->
  exists t' l', round_trim (t1 ++ t2) l prec = Some (t', l') /\ trimmed l (t1 ++ t2) t' l' (mpz t1 / 2 ^ k * 2 ^ k).
Proof.
  intros H1 Hl H62 Hl1 Hprec Hk Hq. unfold round_trim. rewrite limb_bits_val. replace (l * 64 - 1 - (prec - 1)) with (64 * l - prec) by lia.
  rewrite i64_small by lia. destruct (pos_parts (64 * l - prec)) as [-> Hj]. rewrite limb_bits_val in Hj. rewrite Hj.
  destruct (Z.leb_spec 0 ((64 * l - prec) / 64)) as [Hi|Hi].
  - assert (Hk0 : 0 <= 64 * l - prec) by (clear - Hi; zdm). assert (64 * l - prec = k) as -> by lia.
    destruct (digit_split t1 k H1 ltac:(lia)) as (a & b & -> & Hla & Hlb & Ha & Hb & Hbne & _ & Hdiv).
    rewrite (Hdiv b Hb eq_refl) in *. pose proof (Z.mod_pos_bound k 64 ltac:(lia)) as Hm. pose proof (Z.div_mod k 64 ltac:(lia)) as Hdm. set (j := k mod 64) in *. clearbody j.
    destruct b as [|v b]; [done|]. apply Forall_cons in Hb as [Hv Hb]. destruct (mask_digit v b j Hv Hm) as [Hmv Hml].
    assert (Hstep : (if negb (j =? 0) then v0 ← zget ((a ++ v :: b) ++ t2) (k / 64); t ← zset ((a ++ v :: b) ++ t2) (k / 64) (v0 .& limb_mask j (64 - 1)); Some (t, k / 64)
        else Some ((a ++ v :: b) ++ t2, k / 64)) = Some (a ++ (v / 2 ^ j * 2 ^ j :: b) ++ t2, k / 64)).
    { rewrite <- app_assoc. destruct (Z.eqb_spec j 0) as [->|Hj0]; cbn [negb].
      - change (2 ^ 0) with 1. by rewrite Z.div_1_r, Z.mul_1_r.
      - cbn [app]. rewrite zget_mid by lia. cbn [mbind option_bind]. rewrite zset_mid by lia. cbn [mbind option_bind]. pose proof (limb_mask_high v j Hv ltac:(lia)) as Hh. rewrite limb_bits_val in Hh. by rewrite Hh. }
    rewrite Hstep. cbn [mbind option_bind]. rewrite <- Hla. pose proof (pow2_pos j ltac:(lia)) as Hjp.
    destruct (trim_low a (v / 2 ^ j * 2 ^ j :: b) t2 l (mpz (v :: b) / 2 ^ j * 2 ^ k)) as (t' & l' & He & [T1 T2 T3 T4 T5]).
    + by constructor.
    + rewrite Hmv. nia.
    + unfold zlen in *. rewrite length_app in Hl. simpl in *. lia.
    + rewrite Hmv. rewrite Hdm at 1. rewrite Hla, Z.pow_add_r by lia. ring.
    + exists t', l'. split; [done|]. split; [done| |done|done|done]. rewrite T2. unfold zlen. rewrite !length_app. simpl. lia.
  - assert (Hneg : 64 * l - prec < 0) by (clear - Hi; zdm). assert (k = 0) as -> by lia. change (2 ^ 0) with 1 in *. rewrite Z.div_1_r in *.
    cbn [mbind option_bind]. destruct (trim_low [] t1 t2 l (mpz t1 * 1)) as (t' & l' & He & Ht); [done|done|done|done|]. by exists t', l'.
Qed.
