(* ===== verification/BfVal.v ===== *)
(** Values of the numbers of [libbf.c] and correct rounding.

    [bf_val] maps a structure to zero, an infinity, NaN or a dyadic number [m * 2 ^ e];
    [veq] is equality of values, which does not depend on the form of the dyadic number.
    [round_val] says what rounding is, by the quotient and the remainder of the mantissa;
    [__bf_round] and [bf_normalize_and_round] are proved to compute it, and [bf_wf] is the
    form every result has. *)

From S2P Require Import Prelude CutilsH DynBuf BfLimbs BfDiv BfSqrt BfNum BfRound.

(** ** Values *)

Inductive bfval := VNan | VInf (s : Z) | VZero (s : Z) | VFin (s m e : Z).

(** What a structure stands for: [VFin s m e] is [m * 2 ^ e] with the sign [s]. *)
Definition bf_val (r : bf_t) : bfval :=
  if expn r =? BF_EXP_NAN then VNan
  else if expn r =? BF_EXP_INF then VInf (bf_sign r)
  else if expn r =? BF_EXP_ZERO then VZero (bf_sign r)
  else VFin (bf_sign r) (mpz (tab r)) (expn r - 64 * len r).

(** Equality of dyadic numbers, and of values. *)
Definition deq (m1 e1 m2 e2 : Z) : Prop := m1 * 2 ^ (e1 - Z.min e1 e2) = m2 * 2 ^ (e2 - Z.min e1 e2).

Definition veq (v1 v2 : bfval) : Prop :=
  match v1, v2 with
  | VFin s1 m1 e1, VFin s2 m2 e2 => s1 = s2 /\ deq m1 e1 m2 e2
  | _, _ => v1 = v2
  end.

Lemma deq_scale m1 e1 m2 e2 j : 0 <= j -> m2 = m1 * 2 ^ j -> e1 = e2 + j -> deq m1 e1 m2 e2.
Proof.
  intros Hj -> ->. unfold deq. rewrite Z.min_r by lia. rewrite Z.sub_diag. change (2 ^ 0) with 1. replace (e2 + j - e2) with j by lia. lia.
Qed.

Lemma deq_refl m e : deq m e m e.
Proof. done. Qed.

Lemma deq_sym m1 e1 m2 e2 : deq m1 e1 m2 e2 -> deq m2 e2 m1 e1.
Proof. unfold deq. rewrite (Z.min_comm e2 e1). done. Qed.

(** Two forms of a dyadic number differ by a power of two. *)
Lemma deq_cases m1 e1 m2 e2 :
  deq m1 e1 m2 e2 -> (exists j, 0 <= j /\ m1 = m2 * 2 ^ j /\ e2 = e1 + j) \/ (exists j, 0 <= j /\ m2 = m1 * 2 ^ j /\ e1 = e2 + j).
Proof.
  unfold deq. intros H. destruct (Z.le_gt_cases e1 e2) as [Hle|Hgt].
  - left. exists (e2 - e1). rewrite Z.min_l, Z.sub_diag in H by lia. change (2 ^ 0) with 1 in H. split; [lia|]. split; lia.
  - right. exists (e1 - e2). rewrite Z.min_r, Z.sub_diag in H by lia. change (2 ^ 0) with 1 in H. split; [lia|]. split; lia.
Qed.

Lemma deq_at m1 e1 m2 e2 b : b <= e1 -> b <= e2 -> deq m1 e1 m2 e2 <-> m1 * 2 ^ (e1 - b) = m2 * 2 ^ (e2 - b).
Proof.
  intros H1 H2. unfold deq. set (c := Z.min e1 e2). assert (Hc : b <= c /\ c <= e1 /\ c <= e2) by (unfold c; lia). clearbody c.
  replace (e1 - b) with (e1 - c + (c - b)) by lia. replace (e2 - b) with (e2 - c + (c - b)) by lia. rewrite !Z.pow_add_r, !Z.mul_assoc by lia.
  pose proof (pow2_pos (c - b) ltac:(lia)). split; [by intros ->|]. intros Heq. by apply Z.mul_reg_r in Heq; [|lia].
Qed.

Lemma deq_trans m1 e1 m2 e2 m3 e3 : deq m1 e1 m2 e2 -> deq m2 e2 m3 e3 -> deq m1 e1 m3 e3.
Proof.
  set (b := Z.min e1 (Z.min e2 e3)). rewrite !(deq_at _ _ _ _ b) by (unfold b; lia). congruence.
Qed.

#[export] Instance veq_equiv : Equivalence veq.
Proof.
  split.
  - by intros [| | |s m e].
  - intros [| | |s m e] [| | |s' m' e'] H; try done. destruct H as [-> H]. split; [done|by apply deq_sym].
  - intros [| | |s m e] [| | |s' m' e'] [| | |s'' m'' e''] H1 H2; try done; try congruence.
    destruct H1 as [-> H1], H2 as [-> H2]. split; [done|by eapply deq_trans].
Qed.

(** The form of a number that every operation keeps: no limbs and a reserved exponent, or
    a mantissa whose top bit and lowest limb are not zero. *)
Record bf_wf (r : bf_t) : Prop := {
  wf_sign : 0 <= bf_sign r <= 1;
  wf_limbs : limbs (tab r);
  wf_form : (tab r = [] /\ (expn r = BF_EXP_ZERO \/ expn r = BF_EXP_INF \/ expn r = BF_EXP_NAN)) \/
    ((exists v rest, tab r = v :: rest /\ v <> 0) /\ bpow (tab r) <= 2 * mpz (tab r) /\ - 2 ^ 61 <= expn r <= 2 ^ 61) }.

(** ** The result of rounding *)

Definition exp_range (flags : Z) : Z := 1 ≪ (bf_get_exp_bits flags - 1).
Definition mode_of (flags : Z) : Z := flags .& BF_RND_MASK.
Definition has_flag (flags f : Z) : bool := negb (flags .& f =? 0).

(** The precision to round to, for a number in [2 ^ (ex - 1), 2 ^ ex). *)
Definition prec_at (ex prec1 flags : Z) : Z :=
  if has_flag flags BF_FLAG_RADPNT_PREC then if prec1 =? BF_PREC_INF then prec1 else ex + prec1
  else if (ex <? - exp_range flags + 3) && has_flag flags BF_FLAG_SUBNORMAL then prec1 - (- exp_range flags + 3 - ex)
  else prec1.

Definition overflow_val (s prec1 flags : Z) : bfval :=
  let mode := mode_of flags in
  if (prec1 =? BF_PREC_INF) || (mode =? BF_RNDN) || (mode =? BF_RNDNA) || (mode =? BF_RNDA) ||
     ((mode =? BF_RNDD) && (s =? 1)) || ((mode =? BF_RNDU) && (s =? 0)) then VInf s
  else VFin s (2 ^ prec1 - 1) (exp_range flags - prec1).

(** The value [m * 2 ^ e], [m] positive, rounded; and the status. *)
Definition round_val (s m e prec1 flags : Z) : bfval * Z :=
  let n := Z.log2 m + 1 in
  let ex := e + n in
  let prec := prec_at ex prec1 flags in
  let k := Z.max 0 (n - prec) in
  let q := m / 2 ^ k in
  let rem := m mod 2 ^ k in
  let up := rnd_up (mode_of flags) s q rem k in
  let y := q + b2z up in
  let st := add_status (is_inexact (mode_of flags) rem) BF_ST_INEXACT 0 in
  let lost := st .| (BF_ST_UNDERFLOW .| BF_ST_INEXACT) in
  if prec <=? 0 then (if up then VFin s 1 (ex - prec) else VZero s, lost)
  else
    let ex := if y =? 2 ^ prec then ex + 1 else ex in
    let e_min := - exp_range flags + 3 in
    if (ex <? e_min) && negb (has_flag flags BF_FLAG_SUBNORMAL) then (VZero s, lost)
    else if exp_range flags <? ex then (overflow_val s prec1 flags, BF_ST_OVERFLOW .| BF_ST_INEXACT)
    else (VFin s y (e + k), add_status ((ex <? e_min) && negb (st .& BF_ST_INEXACT =? 0)) BF_ST_UNDERFLOW st).

(** Precisions and flags that make sense: a rounding mode, at least three bits of
    exponent, and a finite precision for subnormal numbers. *)
Record flags_ok (prec1 flags : Z) : Prop := {
  fo_flags : 0 <= flags;
  fo_mode : mode_of flags <= 6;
  fo_bits : 3 <= bf_get_exp_bits flags;
  fo_prec : prec1 = BF_PREC_INF \/ 0 <= prec1 <= 2 ^ 59;
  fo_radix : has_flag flags BF_FLAG_RADPNT_PREC = false -> 1 <= prec1;
  fo_subnormal : has_flag flags BF_FLAG_SUBNORMAL = true -> prec1 <> BF_PREC_INF /\ bf_get_exp_bits flags <= 60 }.

Section RoundSpec.
Context `{!Allocator} `{!Realloc} {Sok : ShrinkOk}.

(** A block could not be made larger. *)
Definition realloc_refuses : Prop := exists o old n o', old < n /\ realloc_ptr o old n = (o', None).

(** Some request was refused. *)
Definition mem_refused : Prop := alloc_refuses \/ realloc_refuses.

(** What an operation gives: the value and the status, or NaN and a memory error. *)
Definition gives_val (m : option (aopaque * bf_t * Z)) (res : bfval * Z) : Prop :=
  exists o' r' st, m = Some (o', r', st) /\ bf_wf r' /\
    ((st = res.2 /\ veq (bf_val r') res.1) \/ (st = BF_ST_MEM_ERROR /\ bf_val r' = VNan /\ mem_refused)).

Lemma bf_resize_spec o r n :
  0 <= n ->
  (exists o' t, bf_resize o r n = (o', with_tab r t, 0) /\ zlen t = n /\ (n <= len r -> t = take (Z.to_nat n) (tab r))) \/
  (exists o', bf_resize o r n = (o', r, -1) /\ len r < n /\ realloc_refuses).
Proof.
  intros Hn. unfold bf_resize. destruct (Z.eqb_spec n (len r)) as [->|Hne]; cbn [negb].
  { left. exists o, (tab r). split; [by destruct r|]. split; [done|]. intros _. unfold len, zlen. rewrite Nat2Z.id, firstn_all. done. }
  destruct (realloc_ptr o (8 * len r) (8 * n)) as [o' [fill|]] eqn:He.
  - left. eexists _, _. split; [done|]. split; [by apply zlen_realloc_block|]. intros Hle. unfold realloc_block, len, zlen in *.
    rewrite (proj2 (Nat.sub_0_le _ _)) by lia. by rewrite app_nil_r.
  - destruct (Z.eqb_spec n 0) as [->|Hn0]; [left; by eexists _, []|]. right. exists o'. split; [done|].
    assert (Hlt : len r < n). { destruct (Z.lt_ge_cases (len r) n) as [|Hge]; [done|]. destruct (shrink_ok o (8 * len r) (8 * n)) as (? & ? & Hs); [lia|congruence]. }
    split; [done|]. exists o, (8 * len r), (8 * n), o'. split; [lia|done].
Qed.

Lemma bf_resize_0 o r : exists o', bf_resize o r 0 = (o', with_tab r [], 0).
Proof.
  destruct (bf_resize_spec o r 0 ltac:(lia)) as [(o' & t & -> & Hl & _)|(o' & _ & Hlt & _)].
  - destruct t; [by eexists|unfold zlen in Hl; simpl in Hl; lia].
  - pose proof (zlen_nonneg (tab r)). unfold len in Hlt. lia.
Qed.

Lemma wf_special s e : 0 <= s <= 1 -> e = BF_EXP_ZERO \/ e = BF_EXP_INF \/ e = BF_EXP_NAN -> bf_wf (mkBf s e []).
Proof. intros Hs He. split; [done|constructor|by left]. Qed.

Lemma bf_set_zero_spec o r s : 0 <= s <= 1 -> exists o' r', bf_set_zero o r s = (o', r') /\ bf_wf r' /\ bf_val r' = VZero s.
Proof.
  intros Hs. unfold bf_set_zero. destruct (bf_resize_0 o r) as (o' & ->). eexists _, _. split; [done|]. split; [|done]. apply wf_special; [done|by left].
Qed.

Lemma bf_set_inf_spec o r s : 0 <= s <= 1 -> exists o' r', bf_set_inf o r s = (o', r') /\ bf_wf r' /\ bf_val r' = VInf s.
Proof.
  intros Hs. unfold bf_set_inf. destruct (bf_resize_0 o r) as (o' & ->). eexists _, _. split; [done|]. split; [|done]. apply wf_special; [done|by right; left].
Qed.

Lemma bf_set_nan_spec o r : exists o' r', bf_set_nan o r = (o', r') /\ bf_wf r' /\ bf_val r' = VNan.
Proof.
  unfold bf_set_nan. destruct (bf_resize_0 o r) as (o' & ->). eexists _, _. split; [done|]. split; [|done]. apply wf_special; [lia|by right; right].
Qed.

Lemma bf_mem_error_spec o r res : mem_refused -> gives_val (Some (bf_mem_error o r)) res.
Proof.
  intros Hr. unfold bf_mem_error. destruct (bf_set_nan_spec o r) as (o' & r' & -> & Hw & Hv). eexists _, _, _. split; [done|]. split; [done|]. by right.
Qed.

Lemma exp_range_bounds flags : 3 <= bf_get_exp_bits flags -> 4 <= exp_range flags <= 2 ^ 61 /\ exp_range flags = 2 ^ (bf_get_exp_bits flags - 1).
Proof.
  intros Hb. unfold exp_range. rewrite shiftl_mul, Z.mul_1_l by lia. split; [|done].
  assert (bf_get_exp_bits flags <= 62).
  { unfold bf_get_exp_bits. change BF_EXP_BITS_MAX with 61. case_match; [lia|]. change BF_EXP_BITS_MASK with (Z.ones 6). rewrite Z.land_ones by lia.
    pose proof (Z.mod_pos_bound (flags ≫ BF_EXP_BITS_SHIFT) (2 ^ 6) ltac:(lia)). lia. }
  split; [change 4 with (2 ^ 2)|]; apply Z.pow_le_mono_r; lia.
Qed.

Lemma mode_range flags : 0 <= mode_of flags < 8.
Proof. unfold mode_of. change BF_RND_MASK with (Z.ones 3). rewrite Z.land_ones by lia. apply Z.mod_pos_bound. lia. Qed.

Lemma fin_val s e v rest : - 2 ^ 61 <= e <= 2 ^ 61 -> bf_val (mkBf s e (v :: rest)) = VFin s (mpz (v :: rest)) (e - 64 * zlen (v :: rest)).
Proof.
  intros He. unfold bf_val. cbn [expn bf_sign tab]. unfold len. cbn [tab].
  rewrite !(proj2 (Z.eqb_neq _ _)); [done|unfold BF_EXP_ZERO, BF_RAW_EXP_MIN|unfold BF_EXP_INF, BF_RAW_EXP_MAX|unfold BF_EXP_NAN, BF_RAW_EXP_MAX]; lia.
Qed.

Lemma ones_limbs n : mpz (replicate n (u64 (-1))) = LIMB_BASE ^ Z.of_nat n - 1.
Proof.
  induction n as [|n IH]; [done|]. cbn [replicate]. rewrite mpz_cons, IH, Nat2Z.inj_succ, Z.pow_succ_r by lia. change (u64 (-1)) with (LIMB_BASE - 1). lia.
Qed.

Lemma limb_mask_top j : 0 <= j < 64 -> limb_mask j (LIMB_BITS - 1) = 2 ^ 64 - 2 ^ j.
Proof.
  intros Hj. unfold limb_mask. rewrite limb_bits_val. replace (64 - 1 - j + 1) with (64 - j) by lia. destruct (Z.eqb_spec (64 - j) 64) as [He|Hne].
  { by assert (j = 0) as -> by lia. }
  assert (Hlt : 0 < 2 ^ (64 - j) <= 2 ^ 63) by (split; [apply pow2_pos; lia|apply Z.pow_le_mono_r; lia]).
  rewrite (shiftl_mul 1), Z.mul_1_l by lia. rewrite (u64_limb (2 ^ (64 - j))) by (unfold is_limb; rewrite limb_base_val; lia). rewrite shiftl_mul by lia.
  assert (Hjj : 2 ^ (64 - j) * 2 ^ j = 2 ^ 64) by (rewrite <- Z.pow_add_r by lia; f_equal; lia). pose proof (pow2_pos j ltac:(lia)).
  assert (2 ^ j <= 2 ^ 63) by (apply Z.pow_le_mono_r; lia).
  rewrite Z.mul_sub_distr_r, Hjj, Z.mul_1_l. apply u64_limb. unfold is_limb. rewrite limb_base_val. lia.
Qed.

Lemma ceil_parts prec : (prec + 64 - 1) / 64 * 64 = prec + (- prec) mod 64 /\ 0 <= (- prec) mod 64 < 64.
Proof. zdm. Qed.

(** The largest number of a precision. *)
Lemma max_number s prec e l t v :
  1 <= prec -> 0 <= s <= 1 -> - 2 ^ 61 <= e <= 2 ^ 61 -> l = (prec + 64 - 1) / 64 -> zlen t = l ->
  v = limb_mask ((- prec) mod 64) (LIMB_BITS - 1) ->
  exists t1 t2, zset t 0 v = Some t1 /\ zsplice t1 1 (replicate (Z.to_nat (l - 1)) (u64 (-1))) = Some t2 /\
    bf_wf (mkBf s e t2) /\ veq (bf_val (mkBf s e t2)) (VFin s (2 ^ prec - 1) (e - prec)).
Proof.
  intros Hp Hs He Hl Ht Hv. destruct (ceil_parts prec) as [Hc Hj]. rewrite <- Hl in Hc. set (j := (- prec) mod 64) in *. clearbody j.
  rewrite limb_mask_top in Hv by done. destruct t as [|x t]; [unfold zlen in Ht; simpl in Ht; lia|].
  exists (v :: t), (v :: replicate (Z.to_nat (l - 1)) (u64 (-1))). split; [by apply (zset_mid [] x t 0 v)|].
  assert (Hlt : length t = Z.to_nat (l - 1)) by (unfold zlen in Ht; simpl in Ht; lia).
  split. { pose proof (zsplice_app [v] t [] (replicate (Z.to_nat (l - 1)) (u64 (-1)))) as Hz. rewrite !app_nil_r in Hz. apply Hz. by rewrite length_replicate. }
  set (T := v :: replicate _ _). pose proof (pow2_pos j ltac:(lia)) as Hjp. assert (Hj63 : 2 ^ j <= 2 ^ 63) by (apply Z.pow_le_mono_r; lia).
  assert (HlT : zlen T = l) by (unfold T, zlen; simpl; rewrite length_replicate; lia).
  assert (Hval : mpz T = (2 ^ prec - 1) * 2 ^ j).
  { unfold T. rewrite mpz_cons, ones_limbs, Hv, Z2Nat.id, base_pow2 by lia.
    replace ((2 ^ prec - 1) * 2 ^ j) with (2 ^ (64 * l) - 2 ^ j) by (replace (64 * l) with (prec + j) by lia; rewrite Z.pow_add_r by lia; ring).
    replace (64 * l) with (64 + 64 * (l - 1)) by lia. rewrite Z.pow_add_r by lia. change LIMB_BASE with (2 ^ 64). ring. }
  assert (HT : limbs T).
  { constructor; [split; [lia|rewrite limb_base_val; lia]|]. apply Forall_replicate. by split. }
  assert (Hb : bpow T <= 2 * mpz T).
  { rewrite bpow2, HlT, Hval. replace (64 * l) with (prec + j) by lia. rewrite Z.pow_add_r by lia.
    assert (Hp2 : 2 ^ 1 <= 2 ^ prec) by (apply Z.pow_le_mono_r; lia). change (2 ^ 1) with 2 in Hp2.
    rewrite Z.mul_assoc. apply Z.mul_le_mono_nonneg_r; lia. }
  split.
  - split; [done|done|]. right. split; [|split; [done|done]]. exists v, (replicate (Z.to_nat (l - 1)) (u64 (-1))). split; [done|]. lia.
  - unfold T at 1. rewrite fin_val by done. fold T. split; [done|]. apply deq_sym, (deq_scale _ _ _ _ j); [lia|done|lia].
Qed.

Lemma bf_set_overflow_spec o r s prec flags :
  0 <= s <= 1 -> 3 <= bf_get_exp_bits flags -> prec = BF_PREC_INF \/ 1 <= prec <= 2 ^ 59 ->
  gives_val (bf_set_overflow o r s prec flags) (overflow_val s prec flags, BF_ST_OVERFLOW .| BF_ST_INEXACT).
Proof.
  intros Hs Hbits Hp. unfold bf_set_overflow, overflow_val. fold (mode_of flags). fold (exp_range flags).
  destruct (exp_range_bounds flags Hbits) as [He _]. rewrite limb_bits_val. case_match eqn:Hc.
  { destruct (bf_set_inf_spec o r s Hs) as (o' & r' & -> & Hw & Hv). eexists _, _, _. split; [done|]. split; [done|]. left. split; [done|]. rewrite Hv. done. }
  assert (Hpr : 1 <= prec <= 2 ^ 59).
  { destruct Hp as [->|]; [|done]. by rewrite Z.eqb_refl in Hc. }
  assert (Hm : u64 (- prec) .& (64 - 1) = (- prec) mod 64).
  { change (64 - 1) with (Z.ones 6). rewrite Z.land_ones by lia. change (2 ^ 6) with 64. unfold u64, wrapu. clear. zdm. }
  rewrite Hm. assert (Hl0 : 0 <= (prec + 64 - 1) / 64) by (apply Z.div_pos; lia).
  destruct (bf_resize_spec o r ((prec + 64 - 1) / 64) Hl0) as [(o' & t & -> & Hlt & _)|(o' & -> & _ & Href)].
  - cbn [Z.eqb negb]. destruct (max_number s prec (exp_range flags) _ t _ ltac:(lia) Hs ltac:(lia) eq_refl Hlt eq_refl) as (t1 & t2 & Hset & Hspl & Hw & Hv).
    rewrite limb_bits_val in Hset. cbn [with_tab tab]. rewrite Hset. cbn [mbind option_bind]. rewrite Hspl. cbn [mbind option_bind].
    eexists _, _, _. split; [done|]. split; [done|]. by left.
  - cbn [Z.eqb negb]. apply bf_mem_error_spec. by right.
Qed.

Lemma norm_log2 t1 : limbs t1 -> t1 <> [] -> bpow t1 <= 2 * mpz t1 -> 0 < mpz t1 /\ Z.log2 (mpz t1) + 1 = 64 * zlen t1.
Proof.
  intros H1 Hne Hb. pose proof (mpz_range t1 H1) as Hr. pose proof (bpow_pos t1) as HP. rewrite bpow2 in *.
  assert (Hl : 1 <= zlen t1) by (destruct t1; [done|unfold zlen; simpl; lia]). split; [lia|].
  assert (Hs : 2 ^ (64 * zlen t1) = 2 * 2 ^ (64 * zlen t1 - 1)) by (rewrite <- Z.pow_succ_r by lia; f_equal; lia).
  assert (Z.log2 (mpz t1) = 64 * zlen t1 - 1); [|lia]. apply Z.log2_unique; [lia|]. split; [lia|].
  replace (Z.succ (64 * zlen t1 - 1)) with (64 * zlen t1) by lia. lia.
Qed.

Lemma round_prec_spec ex prec1 flags :
  flags_ok prec1 flags -> - 2 ^ 63 + 2 ^ 60 < ex < 2 ^ 63 - 2 ^ 60 ->
  round_prec ex prec1 flags (- exp_range flags + 3) = Some (prec_at ex prec1 flags) /\
  - 2 ^ 63 + 2 ^ 60 < prec_at ex prec1 flags < 2 ^ 63 - 1 /\
  (prec_at ex prec1 flags <= 0 -> - 2 ^ 61 <= ex + (1 - prec_at ex prec1 flags) <= 2 ^ 61) /\
  (1 <= prec_at ex prec1 flags -> has_flag flags BF_FLAG_SUBNORMAL = true -> - 2 ^ 61 <= ex).
Proof.
  intros [Hf Hm Hb Hp Hr Hs] Hex. destruct (exp_range_bounds flags Hb) as [He Hpow]. unfold round_prec, prec_at. fold (has_flag flags BF_FLAG_RADPNT_PREC).
  fold (has_flag flags BF_FLAG_SUBNORMAL).
  assert (Hinf : BF_PREC_INF = 2 ^ 62 - 1) by done. assert (Hp2 : 0 <= prec1 < 2 ^ 62) by lia.
  assert (Hsub : has_flag flags BF_FLAG_SUBNORMAL = true -> 0 <= prec1 <= 2 ^ 59 /\ exp_range flags <= 2 ^ 59).
  { intros Hx. destruct (Hs Hx) as [Hs1 Hs2]. split; [lia|]. rewrite Hpow. apply Z.pow_le_mono_r; lia. }
  destruct (has_flag flags BF_FLAG_RADPNT_PREC) eqn:Hrad.
  - destruct (Z.eqb_spec prec1 BF_PREC_INF) as [->|Hne]; cbn [negb].
    + rewrite i64_small by lia. split; [done|]. split; [lia|]. split; [lia|]. intros _ Hx. destruct (Hs Hx). done.
    + rewrite i64_small by lia. split; [done|]. split; [lia|]. split; [lia|]. intros H1 Hx. specialize (Hsub Hx). lia.
  - specialize (Hr eq_refl). destruct (has_flag flags BF_FLAG_SUBNORMAL) eqn:Hx; rewrite ?andb_true_r, ?andb_false_r.
    + specialize (Hsub eq_refl). destruct (Z.ltb_spec ex (- exp_range flags + 3)) as [Hlt|Hge].
      * rewrite (proj2 (Z.eqb_neq _ _)) by (destruct (Hs eq_refl); done). rewrite i64_small by lia. split; [done|]. lia.
      * rewrite i64_small by lia. split; [done|]. lia.
    + rewrite i64_small by lia. split; [done|]. split; [lia|]. split; [lia|done].
Qed.

(** The cut and the final size. *)
Lemma round_finish o r t1 t2 l prec k s e st :
  limbs t1 -> l = zlen t1 -> 1 <= l -> 64 * l <= 2 ^ 60 -> bpow t1 <= 2 * (mpz t1 / 2 ^ k * 2 ^ k) -> 1 <= prec < 2 ^ 63 -> k = Z.max 0 (64 * l - prec) ->
  r = mkBf s e (t1 ++ t2) -> 0 <= s <= 1 -> - 2 ^ 61 <= e <= 2 ^ 61 ->
  gives_val ('(t, l) ← round_trim (tab r) l prec; let '(o, r, _) := bf_resize o (with_tab r t) l in Some (o, r, st))
    (VFin s (mpz t1 / 2 ^ k) (e - 64 * l + k), st).
Proof.
  intros H1 Hl Hl1 H60 Hb Hp Hk -> Hs He. cbn [tab]. pose proof (bpow_pos t1) as HP.
  destruct (round_trim_spec t1 t2 l prec k) as (t' & l' & -> & [T1 T2 T3 T4 (v & rest & T5 & T6)]); [done|done|lia|done|done|done|nia|].
  cbn [mbind option_bind]. assert (Hlen : l' <= zlen t') by (rewrite T2; unfold zlen in *; rewrite length_app; lia).
  destruct (bf_resize_spec o (with_tab (mkBf s e (t1 ++ t2)) t') l') as [(o' & t3 & -> & Hl3 & Ht3)|(o' & _ & Hlt & _)]; [lia| |].
  2:{ unfold len in Hlt. cbn in Hlt. lia. }
  rewrite Ht3 by done. cbn [with_tab tab bf_sign expn]. eexists _, _, _. split; [done|].
  set (T := take (Z.to_nat l') t') in *. assert (HlT : zlen T = l') by (unfold T; rewrite zlen_take; lia).
  set (N := mpz t1 / 2 ^ k) in *. assert (HbT : bpow T <= 2 * mpz T).
  { rewrite bpow2, HlT. rewrite bpow2, <- Hl in Hb. apply (Z.mul_le_mono_pos_r _ _ (2 ^ (64 * (l - l')))); [apply pow2_pos; lia|].
    rewrite <- Z.pow_add_r, <- Z.mul_assoc, T4 by lia. replace (64 * l' + 64 * (l - l')) with (64 * l) by lia. lia. }
  split.
  - split; [done|done|]. right. split; [by exists v, rest|]. done.
  - left. split; [done|]. assert (Hv : bf_val (mkBf s e T) = VFin s (mpz T) (e - 64 * zlen T)) by (rewrite T5; by apply fin_val).
    unfold with_tab. cbn [bf_sign expn fst]. rewrite Hv, HlT. split; [done|].
    apply (deq_at _ _ _ _ (e - 64 * l)); [lia|lia|]. replace (e - 64 * l' - (e - 64 * l)) with (64 * (l - l')) by lia. rewrite T4. f_equal. f_equal. lia.
Qed.

Lemma rnd_up_exact mode s q : rnd_up mode s q 0 0 = false.
Proof. unfold rnd_up. change (2 ^ 0) with 1. cbn. rewrite !andb_false_r. by repeat case_match. Qed.

Lemma round_digits t1 t2 l prec k (up : bool) :
  limbs t1 -> l = zlen t1 -> 1 <= l -> 64 * l <= 2 ^ 60 -> bpow t1 <= 2 * mpz t1 -> 1 <= prec -> k = Z.max 0 (64 * l - prec) -> (up = true -> 0 < k) ->
  exists t1' c, (if negb (b2z up =? 0) then round_incr (t1 ++ t2) l prec else Some (t1 ++ t2, false)) = Some (t1' ++ t2, c) /\
    limbs t1' /\ length t1' = length t1 /\ bpow t1' <= 2 * (mpz t1' / 2 ^ k * 2 ^ k) /\
    c = (mpz t1 / 2 ^ k + b2z up =? 2 ^ prec) /\ mpz t1' / 2 ^ k * 2 ^ b2z c = mpz t1 / 2 ^ k + b2z up.
Proof.
  intros H1 Hl Hl1 H60 Hb Hp Hk Hup. pose proof (mpz_range t1 H1) as Hr.
  assert (Hkl : 0 <= k <= 64 * l - 1 /\ 64 * l <= k + prec) by lia. pose proof (pow2_pos k ltac:(lia)) as Hkp.
  assert (Hsplit : bpow t1 = 2 * 2 ^ (64 * l - 1 - k) * 2 ^ k) by (rewrite bpow2, <- Hl, <- Z.pow_succ_r, <- Z.pow_add_r by lia; f_equal; lia).
  assert (Hq : 2 ^ (64 * l - 1 - k) <= mpz t1 / 2 ^ k) by (apply Z.div_le_lower_bound; lia).
  assert (Hq2 : mpz t1 / 2 ^ k < 2 ^ prec).
  { apply Z.div_lt_upper_bound; [done|]. rewrite <- Z.pow_add_r by lia. apply Z.lt_le_trans with (bpow t1); [lia|]. rewrite bpow2. apply Z.pow_le_mono_r; lia. }
  destruct up; cbn [b2z Z.eqb negb].
  - specialize (Hup eq_refl). assert (Hk' : k = 64 * l - prec) by lia. pose proof (Z.pow_pos_nonneg 2 prec ltac:(lia) ltac:(lia)) as Hpp.
    destruct (round_incr_spec t1 t2 l prec k H1 Hl ltac:(lia) Hp Hk' ltac:(lia)) as (t1' & c & -> & Ht' & Hl' & Hc).
    exists t1', c. split; [done|]. split; [done|]. split; [done|]. rewrite (bpow_length t1' t1 Hl'). pose proof (mpz_range t1' Ht') as Hr'. rewrite (bpow_length t1' t1 Hl') in Hr'.
    destruct c.
    + destruct Hc as [Hc1 Hc2]. split; [|split].
      * rewrite Hc2, Hsplit. replace (64 * l - 1 - k) with (prec - 1) by lia. lia.
      * symmetry. by apply Z.eqb_eq.
      * rewrite Hc2. cbn [b2z]. rewrite <- Z.pow_add_r by lia. replace (prec - 1 + 1) with prec by lia. lia.
    + split; [|split].
      * rewrite Hc, Hsplit. assert (2 ^ (64 * l - 1 - k) * 2 ^ k <= (mpz t1 / 2 ^ k + 1) * 2 ^ k) by (apply Z.mul_le_mono_nonneg_r; lia). lia.
      * symmetry. apply Z.eqb_neq. assert (mpz t1' / 2 ^ k < 2 ^ prec); [|lia]. apply Z.div_lt_upper_bound; [done|]. rewrite <- Z.pow_add_r by lia.
        replace (k + prec) with (64 * zlen t1) by lia. rewrite <- bpow2. lia.
      * rewrite Hc. cbn. lia.
  - exists t1, false. split; [done|]. split; [done|]. split; [done|]. split; [|split].
    + rewrite Hsplit. assert (2 ^ (64 * l - 1 - k) * 2 ^ k <= (mpz t1 / 2 ^ k) * 2 ^ k) by (apply Z.mul_le_mono_nonneg_r; lia). lia.
    + symmetry. apply Z.eqb_neq. lia.
    + cbn. lia.
Qed.

Lemma gives_eq m v v' st st' : gives_val m (v, st) -> veq v v' -> st = st' -> gives_val m (v', st').
Proof.
  intros (o & r & s & Hm & Hw & Hg) Hv ->. exists o, r, s. split; [done|]. split; [done|].
  destruct Hg as [[-> Hg]|Hg]; [left; split; [done|]; by etrans|by right].
Qed.

Lemma bf_underflow_spec o r ret : 0 <= bf_sign r <= 1 -> gives_val (Some (bf_underflow o r ret)) (VZero (bf_sign r), ret .| (BF_ST_UNDERFLOW .| BF_ST_INEXACT)).
Proof.
  intros Hs. unfold bf_underflow. destruct (bf_set_zero_spec o r _ Hs) as (o' & r' & -> & Hw & Hv). eexists _, _, _. split; [done|]. split; [done|]. left. by rewrite Hv.
Qed.

(** Rounded away from zero to the smallest number. *)
Lemma round_to_one o r prec st :
  0 <= bf_sign r <= 1 -> 1 <= len r -> - 2 ^ 61 <= expn r + (1 - prec) <= 2 ^ 61 ->
  gives_val (let '(o, r, _) := bf_resize o r 1 in
     t ← zset (tab r) 0 (u64 (1 ≪ (LIMB_BITS - 1)));
     Some (o, with_expn (with_tab r t) (i64 (expn r + (1 - prec))), st)) (VFin (bf_sign r) 1 (expn r - prec), st).
Proof.
  intros Hs Hl He. destruct (bf_resize_spec o r 1 ltac:(lia)) as [(o' & t & -> & Ht & _)|(o' & _ & Hlt & _)]; [|lia].
  destruct t as [|x [|]]; [done| |unfold zlen in Ht; simpl in Ht; lia]. unfold with_expn, with_tab. cbn [tab bf_sign expn].
  change (u64 (1 ≪ (LIMB_BITS - 1))) with (2 ^ 63). change (zset [x] 0 (2 ^ 63)) with (Some [2 ^ 63]). cbn [mbind option_bind]. rewrite i64_small by lia.
  eexists _, _, _. split; [done|]. split.
  - split; [done|constructor; [by split|constructor]|]. right. split; [by eexists _, _|]. done.
  - left. split; [done|]. cbn [fst]. rewrite fin_val by done. split; [done|]. apply deq_sym. change (mpz [2 ^ 63]) with (2 ^ 63). change (zlen [2 ^ 63]) with 1.
    apply (deq_scale _ _ _ _ 63); lia.
Qed.

Lemma __bf_round_spec o r t1 t2 l prec1 flags :
  tab r = t1 ++ t2 -> limbs t1 -> limbs t2 -> l = zlen t1 -> 1 <= l -> 64 * l <= 2 ^ 60 -> bpow t1 <= 2 * mpz t1 ->
  0 <= bf_sign r <= 1 -> - 2 ^ 63 + 2 ^ 60 < expn r < 2 ^ 63 - 2 ^ 60 -> flags_ok prec1 flags -> (prec1 = 0 -> expn r < exp_range flags) ->
  gives_val (__bf_round o r prec1 flags l 0) (round_val (bf_sign r) (mpz t1) (expn r - 64 * l) prec1 flags).
Proof.
  intros Ht H1 H2 Hl Hl1 H60 Hb Hs Hex Hf Hp0. unfold __bf_round, round_val. fold (exp_range flags) (mode_of flags) (has_flag flags BF_FLAG_SUBNORMAL).
  destruct (norm_log2 t1 H1) as [HM Hlog]; [intros ->; unfold zlen in Hl; simpl in Hl; lia|done|]. rewrite Hlog, <- Hl.
  replace (expn r - 64 * l + 64 * l) with (expn r) by lia.
  destruct (round_prec_spec (expn r) prec1 flags Hf Hex) as (Hprec & Hprange & Hlow & Hsub). rewrite Hprec. cbn [mbind option_bind].
  set (prec := prec_at (expn r) prec1 flags) in *. clearbody prec. pose proof Hf as [_ Hmode Hbits Hp _ Hsn]. pose proof (mode_range flags) as Hm0.
  destruct (exp_range_bounds flags Hbits) as [Her _].
  rewrite (bf_get_rnd_add_spec 0 r t1 t2 l prec (mode_of flags) (Z.max 0 (64 * l - prec))) by (done || lia). cbn [mbind option_bind].
  set (k := Z.max 0 (64 * l - prec)) in *. set (rem := mpz t1 mod 2 ^ k). set (q := mpz t1 / 2 ^ k) in *.
  assert (Hup0 : rnd_up (mode_of flags) (bf_sign r) q rem k = true -> 0 < k).
  { intros Hu. assert (0 <= k) by lia. destruct (decide (k = 0)) as [Hk0|]; [|lia]. exfalso. unfold rem in Hu. rewrite Hk0 in Hu. change (2 ^ 0) with 1 in Hu. by rewrite Z.mod_1_r, rnd_up_exact in Hu. }
  set (up := rnd_up _ _ q rem k) in *. set (st := add_status _ BF_ST_INEXACT 0). destruct (Z.leb_spec prec 0) as [Hple|Hpgt].
  { destruct up; cbn [b2z Z.eqb negb].
    - apply round_to_one; [done|unfold len; rewrite Ht; unfold zlen in *; rewrite length_app; lia|by apply Hlow].
    - by apply bf_underflow_spec. }
  rewrite Ht. destruct (round_digits t1 t2 l prec k up H1 Hl Hl1 H60 Hb ltac:(lia) eq_refl Hup0) as (t1' & c & -> & Ht' & Hl' & Hb' & Hc & Hy).
  cbn [mbind option_bind]. fold q in Hc, Hy. rewrite <- Hc.
  set (r1 := if c then _ else _). set (ex' := if c then expn r + 1 else expn r).
  assert (Hr1 : r1 = mkBf (bf_sign r) ex' (t1' ++ t2)).
  { unfold r1, ex'. destruct c; unfold with_expn, with_tab; cbn [bf_sign expn tab]; [|done]. by rewrite i64_small by lia. }
  rewrite Hr1. cbn [expn bf_sign tab]. assert (Hex' : expn r <= ex' <= expn r + 1) by (unfold ex'; destruct c; lia).
  rewrite <- (negb_involutive (flags .& BF_FLAG_SUBNORMAL =? 0)). fold (has_flag flags BF_FLAG_SUBNORMAL).
  destruct (Z.ltb_spec ex' (- exp_range flags + 3)) as [Hlt|Hge]; destruct (has_flag flags BF_FLAG_SUBNORMAL) eqn:Hx; cbn [negb andb].
  2:{ by apply (bf_underflow_spec o (mkBf (bf_sign r) ex' (t1' ++ t2))). }
  all: destruct (Z.ltb_spec (exp_range flags) ex') as [Hov|Hnov]; [apply bf_set_overflow_spec; [done|done|lia]|].
  all: eapply gives_eq; [eapply (round_finish o (mkBf (bf_sign r) ex' (t1' ++ t2)) t1' t2 l prec k (bf_sign r) ex'); [done|unfold zlen in *; lia|lia|lia|done|lia|done|done|done|]| |reflexivity].
  1: specialize (Hsub ltac:(lia) eq_refl); lia. 2, 4: lia.
  all: split; [done|]; rewrite <- Hy; unfold ex'; destruct c; cbn [b2z];
    [apply (deq_scale _ _ _ _ 1); [lia|done|lia]|change (2 ^ 0) with 1; rewrite Z.mul_1_r; apply deq_refl].
Qed.

(** ** Rounding does not depend on the form of the number *)

Lemma rnd_up_scale mode s q rem k j : 0 <= j -> 0 <= k -> rnd_up mode s q (rem * 2 ^ j) (k + j) = rnd_up mode s q rem k.
Proof.
  intros Hj Hk. pose proof (pow2_pos j Hj) as Hp. unfold rnd_up. rewrite Z.pow_add_r by done.
  assert (Hz : (rem * 2 ^ j =? 0) = (rem =? 0)) by (apply eq_iff_eq_true; rewrite !Z.eqb_eq; nia).
  assert (Hlt : (2 ^ k * 2 ^ j <? 2 * (rem * 2 ^ j)) = (2 ^ k <? 2 * rem)) by (apply eq_iff_eq_true; rewrite !Z.ltb_lt; nia).
  assert (Hle : (2 ^ k * 2 ^ j <=? 2 * (rem * 2 ^ j)) = (2 ^ k <=? 2 * rem)) by (apply eq_iff_eq_true; rewrite !Z.leb_le; nia).
  assert (He : (2 * (rem * 2 ^ j) =? 2 ^ k * 2 ^ j) = (2 * rem =? 2 ^ k)) by (apply eq_iff_eq_true; rewrite !Z.eqb_eq; nia).
  by rewrite Hz, Hlt, Hle, He.
Qed.

Lemma rnd_up_rem0 mode s q k : 0 <= k -> rnd_up mode s q 0 k = false.
Proof. intros Hk. rewrite <- (rnd_up_exact mode s q), <- (rnd_up_scale mode s q 0 0 k) by lia. by rewrite Z.mul_0_l, Z.add_0_l. Qed.

Lemma log2_bounds m : 0 < m -> 2 ^ Z.log2 m <= m < 2 ^ (Z.log2 m + 1) /\ 0 <= Z.log2 m.
Proof. intros Hm. pose proof (Z.log2_spec m Hm). split; [unfold Z.succ in *; lia|apply Z.log2_nonneg]. Qed.

Lemma round_val_scale s m e j prec1 flags :
  0 < m -> 0 <= j ->
  (round_val s (m * 2 ^ j) (e - j) prec1 flags).2 = (round_val s m e prec1 flags).2 /\
  veq (round_val s (m * 2 ^ j) (e - j) prec1 flags).1 (round_val s m e prec1 flags).1.
Proof.
  intros Hm Hj. unfold round_val. rewrite Z.log2_mul_pow2 by lia. replace (e - j + (j + Z.log2 m + 1)) with (e + (Z.log2 m + 1)) by lia.
  destruct (log2_bounds m Hm) as [Hb Hl0]. set (n := Z.log2 m + 1) in *. set (ex := e + n). set (prec := prec_at ex prec1 flags).
  replace (j + Z.log2 m + 1 - prec) with (n - prec + j) by lia. pose proof (pow2_pos j Hj) as Hjp.
  destruct (Z.le_gt_cases 0 (n - prec)) as [Hge|Hlt].
  - rewrite (Z.max_r 0 (n - prec)), (Z.max_r 0 (n - prec + j)) by lia. set (k := n - prec). pose proof (pow2_pos k Hge) as Hkp.
    rewrite Z.pow_add_r, Z.div_mul_cancel_r, Z.mul_mod_distr_r, rnd_up_scale by lia.
    assert (Hin : is_inexact (mode_of flags) (m mod 2 ^ k * 2 ^ j) = is_inexact (mode_of flags) (m mod 2 ^ k)).
    { unfold is_inexact. f_equal. f_equal. apply eq_iff_eq_true. rewrite !Z.eqb_eq. nia. }
    rewrite Hin. replace (e - j + (k + j)) with (e + k) by lia. split; [done|reflexivity].
  - rewrite (Z.max_l 0 (n - prec)) by lia. set (k := Z.max 0 (n - prec + j)). assert (Hk : 0 <= k <= j /\ n + j - prec <= k) by lia.
    change (2 ^ 0) with 1. rewrite Z.mod_1_r, Z.div_1_r, rnd_up_exact. replace (m * 2 ^ j) with (m * 2 ^ (j - k) * 2 ^ k) by (rewrite <- Z.mul_assoc, <- Z.pow_add_r by lia; do 2 f_equal; lia).
    pose proof (pow2_pos k ltac:(lia)) as Hkp. rewrite Z.div_mul, Z.mod_mul, rnd_up_rem0 by lia. cbn [b2z]. rewrite !Z.add_0_r.
    rewrite (proj2 (Z.leb_gt prec 0)) by lia.
    assert (Hm1 : (m =? 2 ^ prec) = false). { apply Z.eqb_neq. assert (2 ^ n <= 2 ^ prec) by (apply Z.pow_le_mono_r; lia). lia. }
    assert (Hm2 : (m * 2 ^ (j - k) =? 2 ^ prec) = false).
    { apply Z.eqb_neq. pose proof (pow2_pos (j - k) ltac:(lia)). assert (m * 2 ^ (j - k) < 2 ^ n * 2 ^ (j - k)) by (apply Z.mul_lt_mono_pos_r; lia).
      rewrite <- Z.pow_add_r in * by lia. assert (2 ^ (n + (j - k)) <= 2 ^ prec) by (apply Z.pow_le_mono_r; lia). lia. }
    rewrite Hm1, Hm2. case_match; [split; [done|reflexivity]|]. case_match; [split; [done|reflexivity]|]. split; [done|]. cbn [fst]. split; [done|].
    apply deq_sym, (deq_scale _ _ _ _ (j - k)); lia.
Qed.

(** Rounding depends on the value only. *)
Lemma round_val_proper s m1 e1 m2 e2 prec1 flags :
  0 < m1 -> deq m1 e1 m2 e2 ->
  veq (round_val s m1 e1 prec1 flags).1 (round_val s m2 e2 prec1 flags).1 /\ (round_val s m1 e1 prec1 flags).2 = (round_val s m2 e2 prec1 flags).2.
Proof.
  intros Hm Hd. destruct (deq_cases _ _ _ _ Hd) as [(j & Hj & -> & ->)|(j & Hj & -> & ->)].
  - assert (Hm2 : 0 < m2) by (pose proof (pow2_pos j Hj); nia). destruct (round_val_scale s m2 (e1 + j) j prec1 flags Hm2 Hj) as [A B].
    replace (e1 + j - j) with e1 in * by lia. by split.
  - destruct (round_val_scale s m1 (e2 + j) j prec1 flags Hm Hj) as [A B]. replace (e2 + j - j) with e2 in * by lia. split; [by symmetry|done].
Qed.

Lemma gives_round_proper x s m1 e1 m2 e2 prec1 flags :
  0 < m1 -> deq m1 e1 m2 e2 -> gives_val x (round_val s m1 e1 prec1 flags) -> gives_val x (round_val s m2 e2 prec1 flags).
Proof.
  intros Hm Hd Hg. destruct (round_val_proper s m1 e1 m2 e2 prec1 flags Hm Hd) as [Hv Hs].
  destruct (round_val s m1 e1 prec1 flags), (round_val s m2 e2 prec1 flags). by eapply gives_eq.
Qed.

(** ** Normalization *)

Lemma top_len_spec t1 z : top_len (t1 ++ replicate z 0) (length t1 + z) = top_len (t1 ++ replicate z 0) (length t1).
Proof.
  induction z as [|z IH]; [by rewrite Nat.add_0_r|]. rewrite Nat.add_succ_r. cbn [top_len].
  rewrite (replicate_S_end z 0), app_assoc, zget_mid by (unfold zlen; rewrite length_app, length_replicate; lia). cbn [mbind option_bind Z.eqb].
  assert (Hext : forall n l x, (n <= length l)%nat -> top_len (l ++ [x]) n = top_len l n).
  { clear. induction n as [|n IH]; intros l x Hn; [done|]. cbn [top_len]. rewrite (zget_app_l l) by (unfold zlen; lia).
    destruct (zget l (Z.of_nat n)); [|done]. cbn [mbind option_bind]. case_match; [|done]. apply IH. lia. }
  rewrite !Hext by (rewrite length_app, ?length_replicate; lia). done.
Qed.

Lemma top_zeros t : limbs t -> exists t1 z, t = t1 ++ replicate z 0 /\ limbs t1 /\ match last t1 with Some v => v <> 0 | None => True end.
Proof.
  induction t as [|v t IH] using rev_ind; intros Ht; [by exists [], 0%nat|]. apply Forall_app in Ht as [Ht Hv]. apply Forall_cons in Hv as [Hv _].
  destruct (decide (v = 0)) as [->|Hne].
  - destruct (IH Ht) as (t1 & z & -> & H1 & H2). exists t1, (S z). split; [by rewrite replicate_S_end, app_assoc|by split].
  - exists (t ++ [v]), 0%nat. cbn [replicate]. rewrite app_nil_r, last_snoc. split; [done|]. split; [|done]. by apply Forall_app_2; [|constructor].
Qed.

Lemma shl_digit a v sh :
  is_limb a -> is_limb v -> 0 < sh < 64 ->
  u64 (a ≪ sh) .| (v ≫ (LIMB_BITS - sh)) = a * 2 ^ sh - LIMB_BASE * (a / 2 ^ (64 - sh)) + v / 2 ^ (64 - sh) /\
  is_limb (a * 2 ^ sh - LIMB_BASE * (a / 2 ^ (64 - sh)) + v / 2 ^ (64 - sh)).
Proof.
  intros Ha Hv Hsh. rewrite limb_bits_val, shiftl_mul, shiftr_div by lia. pose proof (pow2_pos sh ltac:(lia)) as Hp. pose proof (pow2_pos (64 - sh) ltac:(lia)) as Hp'.
  assert (HB : LIMB_BASE = 2 ^ (64 - sh) * 2 ^ sh) by (rewrite <- Z.pow_add_r by lia; f_equal; lia).
  assert (Hu : u64 (a * 2 ^ sh) = a mod 2 ^ (64 - sh) * 2 ^ sh).
  { unfold u64, wrapu. change (2 ^ 64) with LIMB_BASE. rewrite HB. apply Z.mul_mod_distr_r; lia. }
  pose proof (Z.div_mod a (2 ^ (64 - sh)) ltac:(lia)) as Hd. pose proof (Z.mod_pos_bound a (2 ^ (64 - sh)) Hp') as Hm.
  assert (Hvd : 0 <= v / 2 ^ (64 - sh) < 2 ^ sh) by (split; [apply Z.div_pos|apply Z.div_lt_upper_bound]; unfold is_limb in *; lia).
  rewrite (lor_add_comm sh) by (lia || (rewrite Hu; apply Z.mod_mul; lia)). rewrite Hu.
  set (ad := a / 2 ^ (64 - sh)) in *. set (am := a mod 2 ^ (64 - sh)) in *. clearbody ad am. rewrite Hd, HB. split; [ring|].
  replace ((2 ^ (64 - sh) * ad + am) * 2 ^ sh - 2 ^ (64 - sh) * 2 ^ sh * ad + v / 2 ^ (64 - sh)) with (am * 2 ^ sh + v / 2 ^ (64 - sh)) by ring.
  unfold is_limb. rewrite HB. assert ((am + 1) * 2 ^ sh <= 2 ^ (64 - sh) * 2 ^ sh) by (apply Z.mul_le_mono_nonneg_r; lia).
  assert (0 <= am * 2 ^ sh) by (apply Z.mul_nonneg_nonneg; lia). lia.
Qed.

Lemma shl_loop_spec t v sh :
  limbs t -> is_limb v -> 0 < sh < 64 ->
  limbs (shl_loop t sh v) /\ length (shl_loop t sh v) = length t /\
  mpz (shl_loop t sh v) + bpow t * (default v (last t) / 2 ^ (64 - sh)) = mpz t * 2 ^ sh + v / 2 ^ (64 - sh).
Proof.
  intros Ht. revert v. induction Ht as [|a t Ha Ht IH]; intros v Hv Hsh; cbn [shl_loop].
  { split; [constructor|]. split; [done|]. rewrite bpow_nil. cbn [mpz foldr last default]. lia. }
  destruct (shl_digit a v sh Ha Hv Hsh) as [-> Hd]. destruct (IH a Ha Hsh) as (H1 & H2 & H3). split; [by constructor|]. split; [simpl; lia|].
  rewrite !mpz_cons, bpow_cons. assert (Hlast : default v (last (a :: t)) = default a (last t)) by (destruct t as [|b t]; [done|]; cbn [last]; destruct (last (b :: t)) eqn:E; [done|by apply last_None in E]). rewrite Hlast.
  set (x := default a (last t) / 2 ^ (64 - sh)) in *. clearbody x. nia.
Qed.

Lemma clz_norm v : is_limb v -> v <> 0 -> 0 <= clz v < 64 /\ 2 ^ 63 <= v * 2 ^ clz v < 2 ^ 64.
Proof.
  intros [Hv0 Hv1] Hne. rewrite limb_base_val in Hv1. unfold clz. rewrite (proj2 (Z.eqb_neq v 0)) by done. destruct (log2_bounds v ltac:(lia)) as [Hb Hl].
  assert (Hl2 : Z.log2 v < 64) by (apply Z.log2_lt_pow2; lia). set (l := Z.log2 v) in *. split; [lia|]. pose proof (pow2_pos (63 - l) ltac:(lia)).
  assert (E1 : 2 ^ l * 2 ^ (63 - l) = 2 ^ 63) by (rewrite <- Z.pow_add_r by lia; f_equal; lia).
  assert (E2 : 2 ^ (l + 1) * 2 ^ (63 - l) = 2 ^ 64) by (rewrite <- Z.pow_add_r by lia; f_equal; lia).
  assert (2 ^ l * 2 ^ (63 - l) <= v * 2 ^ (63 - l)) by (apply Z.mul_le_mono_nonneg_r; lia).
  assert (v * 2 ^ (63 - l) < 2 ^ (l + 1) * 2 ^ (63 - l)) by (apply Z.mul_lt_mono_pos_r; lia). lia.
Qed.

(** The shift that sets the top bit. *)
Lemma normalize_shift t0 v :
  limbs (t0 ++ [v]) -> v <> 0 -> clz v <> 0 ->
  exists t', shl_loop (t0 ++ [v]) (clz v) 0 = t' /\ limbs t' /\ length t' = length (t0 ++ [v]) /\ mpz t' = mpz (t0 ++ [v]) * 2 ^ clz v.
Proof.
  intros Ht Hv Hc. pose proof Ht as Ht'. apply Forall_app in Ht' as [_ Hvl]. apply Forall_cons in Hvl as [Hvl _]. destruct (clz_norm v Hvl Hv) as [Hr Hb].
  destruct (shl_loop_spec (t0 ++ [v]) 0 (clz v) Ht limb_0 ltac:(lia)) as (H1 & H2 & H3). rewrite last_snoc in H3. cbn [default] in H3.
  assert (Hz : v / 2 ^ (64 - clz v) = 0).
  { apply Z.div_small. destruct Hvl. split; [lia|]. apply (Z.mul_lt_mono_pos_r (2 ^ clz v)); [apply pow2_pos; lia|]. rewrite <- Z.pow_add_r by lia. replace (64 - clz v + clz v) with 64 by lia. lia. }
  change (id v) with v in H3. rewrite Hz, Z.mul_0_r, Z.add_0_r, Z.div_0_l, Z.add_0_r in H3 by (apply Z.pow_nonzero; lia). by eexists.
Qed.

Lemma top_bit t0 v : limbs t0 -> 2 ^ 63 <= v -> bpow (t0 ++ [v]) <= 2 * mpz (t0 ++ [v]).
Proof.
  intros H1 Hv. rewrite bpow_app, mpz_app, bpow_cons, bpow_nil, mpz_cons. cbn [mpz foldr]. pose proof (mpz_range t0 H1). rewrite limb_base_val.
  assert (bpow t0 * 2 ^ 63 <= bpow t0 * v) by (apply Z.mul_le_mono_nonneg_l; lia). lia.
Qed.

Lemma norm_scaled t0 v t' :
  limbs (t0 ++ [v]) -> is_limb v -> v <> 0 -> length t' = length (t0 ++ [v]) -> mpz t' = mpz (t0 ++ [v]) * 2 ^ clz v -> bpow t' <= 2 * mpz t'.
Proof.
  intros Ht Hl Hv Hlt ->. destruct (clz_norm v Hl Hv) as [Hr Hb]. rewrite (bpow_length t' (t0 ++ [v]) Hlt). apply Forall_app in Ht as [H1 _].
  rewrite bpow_app, mpz_app, bpow_cons, bpow_nil, mpz_cons. cbn [mpz foldr]. pose proof (mpz_range t0 H1) as Hr0. rewrite limb_base_val.
  assert (bpow t0 * 2 ^ 63 <= bpow t0 * (v * 2 ^ clz v)) by (apply Z.mul_le_mono_nonneg_l; lia).
  pose proof (pow2_pos (clz v) ltac:(lia)). assert (0 <= mpz t0 * 2 ^ clz v) by (apply Z.mul_nonneg_nonneg; lia). lia.
Qed.

(** Rounding of a number that may be zero. *)
Definition round_any (s m e prec1 flags : Z) : bfval * Z := if m =? 0 then (VZero s, 0) else round_val s m e prec1 flags.

Lemma normalize_zero o r : 0 <= bf_sign r <= 1 ->
  gives_val (let '(o, r, _) := bf_resize o (with_expn r BF_EXP_ZERO) 0 in Some (o, r, 0)) (VZero (bf_sign r), 0).
Proof.
  intros Hs. destruct (bf_resize_0 o (with_expn r BF_EXP_ZERO)) as (o' & ->). eexists _, _, _. split; [done|]. split; [apply wf_special; [done|by left]|]. by left.
Qed.

Lemma normalize_tab t : limbs t -> mpz t <> 0 ->
  exists t0 v z, t = (t0 ++ [v]) ++ replicate z 0 /\ limbs (t0 ++ [v]) /\ is_limb v /\ v <> 0 /\ mpz t = mpz (t0 ++ [v]) /\ top_len t (length t) = Some (S (length t0)).
Proof.
  intros Ht Hne. destruct (top_zeros t Ht) as (t1 & z & -> & H1 & Hlast). rewrite mpz_app, mpz_zeros, Z.mul_0_r, Z.add_0_r in *.
  destruct (last t1) as [v|] eqn:Hv; [|apply last_None in Hv; by subst]. apply last_Some in Hv as [t0 ->]. pose proof H1 as H2. apply Forall_app in H2 as [_ H2].
  apply Forall_cons in H2 as [Hvl _]. exists t0, v, z. split_and!; [done..|]. rewrite length_app, length_replicate, top_len_spec, length_app. simpl length. rewrite Nat.add_1_r.
  cbn [top_len]. rewrite <- app_assoc. cbn [app]. rewrite zget_mid by done. cbn [mbind option_bind]. by rewrite (proj2 (Z.eqb_neq v 0)).
Qed.

Lemma bf_normalize_and_round_spec o r prec1 flags :
  limbs (tab r) -> 64 * len r <= 2 ^ 60 -> 0 <= bf_sign r <= 1 -> - 2 ^ 63 + 2 ^ 61 + 2 ^ 60 < expn r < 2 ^ 63 - 2 ^ 60 -> flags_ok prec1 flags -> 1 <= prec1 ->
  gives_val (bf_normalize_and_round o r prec1 flags) (round_any (bf_sign r) (mpz (tab r)) (expn r - 64 * len r) prec1 flags).
Proof.
  intros Ht H60 Hs Hex Hf Hp. unfold bf_normalize_and_round, round_any. destruct (Z.eqb_spec (mpz (tab r)) 0) as [Hz|Hz].
  { destruct (top_zeros _ Ht) as (t1 & z & Heq & H1 & Hlast). rewrite Heq in *. rewrite mpz_app, mpz_zeros, Z.mul_0_r, Z.add_0_r in Hz.
    assert (t1 = []) as ->.
    { destruct t1 as [|x t1' _] using rev_ind; [done|]. rewrite last_snoc in Hlast. rewrite mpz_app, mpz_cons in Hz. cbn [mpz foldr] in Hz.
      apply Forall_app in H1 as [H1 Hx]. apply Forall_cons in Hx as [[Hx _] _]. pose proof (mpz_range t1' H1). exfalso. nia. }
    rewrite length_app, length_replicate, top_len_spec. cbn [length top_len mbind option_bind Nat.eqb]. by apply normalize_zero. }
  destruct (normalize_tab _ Ht Hz) as (t0 & v & z & Heq & H1 & Hvl & Hv & HM & ->). cbn [mbind option_bind Nat.eqb].
  assert (Hlen : len r = zlen (t0 ++ [v]) + Z.of_nat z) by (unfold len, zlen; rewrite Heq, length_app, length_replicate; lia).
  assert (Hl : Z.of_nat (S (length t0)) = zlen (t0 ++ [v])) by (unfold zlen; rewrite length_app; simpl; lia). rewrite Hl. rewrite limb_bits_val.
  assert (Hl1 : 1 <= zlen (t0 ++ [v])) by (rewrite <- Hl; lia).
  set (r1 := with_expn r _). assert (Hr1 : r1 = mkBf (bf_sign r) (expn r - 64 * Z.of_nat z) ((t0 ++ [v]) ++ replicate z 0)).
  { unfold r1, with_expn. rewrite i64_small by lia. rewrite <- Heq. f_equal. lia. }
  rewrite Hr1. clear r1 Hr1. cbn [tab expn bf_sign]. rewrite <- (app_assoc t0 [v]) at 1. cbn [app]. rewrite zget_mid by (unfold zlen; rewrite length_app; simpl; lia).
  cbn [mbind option_bind]. destruct (clz_norm v Hvl Hv) as [Hcr Hcb].
  assert (Hstep : exists t', length t' = length (t0 ++ [v]) /\ limbs t' /\ mpz t' = mpz (t0 ++ [v]) * 2 ^ clz v /\
    (if negb (clz v =? 0) then '(t, _) ← in_place ((t0 ++ [v]) ++ replicate z 0) 0 (zlen (t0 ++ [v])) (fun s => Some (shl_loop s (clz v) 0, 0));
       Some (with_expn (with_tab (mkBf (bf_sign r) (expn r - 64 * Z.of_nat z) ((t0 ++ [v]) ++ replicate z 0)) t) (i64 (expn r - 64 * Z.of_nat z - clz v)))
     else Some (mkBf (bf_sign r) (expn r - 64 * Z.of_nat z) ((t0 ++ [v]) ++ replicate z 0))) =
    Some (mkBf (bf_sign r) (expn r - 64 * Z.of_nat z - clz v) (t' ++ replicate z 0))).
  { destruct (Z.eqb_spec (clz v) 0) as [Hc|Hc]; cbn [negb].
    - exists (t0 ++ [v]). split; [done|]. split; [done|]. rewrite Hc. split; [change (2 ^ 0) with 1; lia|]. by rewrite Z.sub_0_r.
    - destruct (normalize_shift t0 v H1 Hv Hc) as (t' & Hshl & Ht' & Hlt' & Hm'). exists t'. split; [done|]. split; [done|]. split; [done|].
      rewrite (in_place_0 (t0 ++ [v]) (replicate z 0) _ _ t' 0); [|done|by rewrite Hshl|done]. cbn [mbind option_bind]. rewrite i64_small by lia. done. }
  destruct Hstep as (t' & Hlt' & Ht' & Hm' & ->). cbn [mbind option_bind]. assert (Hzl : zlen t' = zlen (t0 ++ [v])) by (unfold zlen; lia).
  pose proof (norm_scaled t0 v t' H1 Hvl Hv Hlt' Hm') as Hbn. pose proof (mpz_range _ H1) as Hr0.
  apply (gives_round_proper _ _ (mpz t') (expn r - 64 * Z.of_nat z - clz v - 64 * zlen (t0 ++ [v]))).
  - rewrite Hm'. apply Z.mul_pos_pos; [lia|apply pow2_pos; lia].
  - rewrite HM, Hm'. apply deq_sym, (deq_scale _ _ _ _ (clz v)); lia.
  - eapply (__bf_round_spec o (mkBf (bf_sign r) (expn r - 64 * Z.of_nat z - clz v) (t' ++ replicate z 0)) t' (replicate z 0)); cbn [tab bf_sign expn];
      [done|done|apply limbs_zeros|lia|lia|lia|done|done|lia|done|lia].
Qed.

Lemma wf_fin r : bf_wf r -> tab r <> [] -> exists v rest, tab r = v :: rest /\ v <> 0 /\ bpow (tab r) <= 2 * mpz (tab r) /\ - 2 ^ 61 <= expn r <= 2 ^ 61 /\ 0 < mpz (tab r) /\
  bf_val r = VFin (bf_sign r) (mpz (tab r)) (expn r - 64 * len r).
Proof.
  intros [Hs Hl [[Hn _]|((v & rest & Ht & Hv) & Hb & He)]] Hne; [done|]. exists v, rest. split; [done|]. split; [done|]. split; [done|]. split; [done|].
  pose proof (bpow_pos (tab r)). split; [lia|]. destruct r as [s e t]. cbn [tab expn bf_sign len] in *. subst t. by apply fin_val.
Qed.

(** The value of [bf_round]: zero, infinities and NaN stay as they are. *)
Definition round_of (v : bfval) (prec1 flags : Z) : bfval * Z :=
  match v with VFin s m e => round_val s m e prec1 flags | _ => (v, 0) end.

Lemma bf_round_spec o r prec flags :
  bf_wf r -> 64 * len r <= 2 ^ 60 -> flags_ok prec flags -> (prec = 0 -> expn r < exp_range flags) ->
  gives_val (bf_round o r prec flags) (round_of (bf_val r) prec flags).
Proof.
  intros Hw H60 Hf Hp. unfold bf_round. destruct (Z.eqb_spec (len r) 0) as [Hl|Hl].
  - assert (Ht : tab r = []) by (unfold len, zlen in Hl; destruct (tab r); [done|simpl in Hl; lia]). eexists _, _, _. split; [done|]. split; [done|]. left.
    pose proof Hw as [_ _ [[_ He]|((v & rest & Hv & _) & _)]]; [|congruence].
    assert (Hr : round_of (bf_val r) prec flags = (bf_val r, 0)).
    { unfold bf_val, round_of. by destruct He as [->|[->| ->]]. }
    by rewrite Hr.
  - assert (Hne : tab r <> []) by (intros Hn; unfold len in Hl; by rewrite Hn in Hl).
    destruct (wf_fin r Hw Hne) as (v & rest & Ht & Hv & Hb & He & HM & ->). cbn [round_of]. destruct Hw as [Hs Hlm _].
    pose proof (zlen_nonneg (tab r)). unfold len in *.
    apply (__bf_round_spec o r (tab r) [] (zlen (tab r))); [by rewrite app_nil_r|done|constructor|done|lia|done|done|done|lia|done|done].
Qed.
End RoundSpec.

(** ** Sticky bits *)

(** The comparison that decides a rounding. *)
Lemma rnd_up_same mode s q r1 k1 r2 k2 :
  ((2 * r1 ?= 2 ^ k1) = (2 * r2 ?= 2 ^ k2)) -> (r1 = 0 <-> r2 = 0) -> rnd_up mode s q r1 k1 = rnd_up mode s q r2 k2.
Proof.
  intros Hc Hz. unfold rnd_up. assert (Hzb : (r1 =? 0) = (r2 =? 0)) by (apply eq_iff_eq_true; by rewrite !Z.eqb_eq).
  assert (Hlt : (2 ^ k1 <? 2 * r1) = (2 ^ k2 <? 2 * r2)) by (rewrite !Z.ltb_antisym; unfold Z.leb; by rewrite Hc).
  assert (Hle : (2 ^ k1 <=? 2 * r1) = (2 ^ k2 <=? 2 * r2)) by (rewrite !Z.leb_antisym; unfold Z.ltb; by rewrite Hc).
  assert (He : (2 * r1 =? 2 ^ k1) = (2 * r2 =? 2 ^ k2)) by (rewrite !Z.eqb_compare; by rewrite Hc). by rewrite Hzb, Hlt, Hle, He.
Qed.

(** [Y] stands for a number whose bits below the last are not known, only whether they are
    all zero; [W] has [j] bits more. *)
Definition sticky_of (Y W j : Z) : Prop := W / 2 ^ (j + 1) = Y / 2 /\ (Y mod 2 = 0 <-> W mod 2 ^ (j + 1) = 0).

Lemma sticky_parts Y W j k :
  0 <= j -> 2 <= k -> sticky_of Y W j ->
  W / 2 ^ (k + j) = Y / 2 ^ k /\ ((2 * (W mod 2 ^ (k + j)) ?= 2 ^ (k + j)) = (2 * (Y mod 2 ^ k) ?= 2 ^ k)) /\ (W mod 2 ^ (k + j) = 0 <-> Y mod 2 ^ k = 0).
Proof.
  intros Hj Hk [Hdiv Hz]. pose proof (pow2_pos (j + 1) ltac:(lia)) as Hp1. pose proof (pow2_pos (k - 1) ltac:(lia)) as Hp2. pose proof (pow2_pos (k - 2) ltac:(lia)) as Hp3.
  assert (E1 : 2 ^ (k + j) = 2 ^ (j + 1) * 2 ^ (k - 1)) by (rewrite <- Z.pow_add_r by lia; f_equal; lia).
  assert (E2 : 2 ^ k = 2 * 2 ^ (k - 1)) by (rewrite <- Z.pow_succ_r by lia; f_equal; lia).
  assert (E3 : 2 ^ (k - 1) = 2 * 2 ^ (k - 2)) by (rewrite <- Z.pow_succ_r by lia; f_equal; lia).
  rewrite E1, E2, <- !Z.div_div, Hdiv, !Z.rem_mul_r, Hdiv by lia. split; [done|].
  pose proof (Z.mod_pos_bound W (2 ^ (j + 1)) Hp1) as HW. pose proof (Z.mod_pos_bound Y 2 ltac:(lia)) as HY.
  pose proof (Z.mod_pos_bound (Y / 2) (2 ^ (k - 1)) Hp2) as HQ. set (w := W mod 2 ^ (j + 1)) in *. set (y := Y mod 2) in *. set (Q := Y / 2 mod 2 ^ (k - 1)) in *. clearbody w y Q.
  set (P := 2 ^ (j + 1)) in *. set (R := 2 ^ (k - 2)) in *. clearbody P R. rewrite E3. clear E1 E2 E3 Hp2.
  assert (HPQ : Q < R -> P * Q + P <= P * R) by (intros; assert (P * (Q + 1) <= P * R) by (apply Z.mul_le_mono_nonneg_l; lia); lia).
  assert (HPR : R < Q -> P * R + P <= P * Q) by (intros; assert (P * (R + 1) <= P * Q) by (apply Z.mul_le_mono_nonneg_l; lia); lia).
  assert (HPQ0 : 0 <= P * Q) by (apply Z.mul_nonneg_nonneg; lia). split.
  - destruct (Z.lt_trichotomy Q R) as [Hlt|[->|Hgt]].
    + specialize (HPQ Hlt). rewrite (proj2 (Z.compare_lt_iff _ _)) by lia. symmetry. apply Z.compare_lt_iff. lia.
    + destruct (decide (y = 0)) as [Hy|Hy].
      * assert (w = 0) by (by apply Hz). rewrite (proj2 (Z.compare_eq_iff _ _)) by lia. symmetry. apply Z.compare_eq_iff. lia.
      * assert (w <> 0) by (intros Hw; by apply Hy, Hz). rewrite (proj2 (Z.compare_gt_iff _ _)) by lia. symmetry. apply Z.compare_gt_iff. lia.
    + specialize (HPR Hgt). rewrite (proj2 (Z.compare_gt_iff _ _)) by lia. symmetry. apply Z.compare_gt_iff. lia.
  - split; intros Hx.
    + assert (w = 0) by lia. assert (y = 0) by (by apply Hz). assert (Q = 0) by nia. lia.
    + assert (y = 0) by lia. assert (w = 0) by (by apply Hz). assert (Q = 0) by lia. subst. lia.
Qed.

Lemma sticky_log2 Y W j : 0 <= j -> 2 <= Y -> sticky_of Y W j -> Z.log2 W = Z.log2 Y + j /\ 0 < W.
Proof.
  intros Hj HY [Hdiv _]. assert (Hy : 1 <= Y / 2) by (apply Z.div_le_lower_bound; lia). pose proof (pow2_pos (j + 1) ltac:(lia)) as Hp.
  pose proof (Z.div_mod Y 2 ltac:(lia)) as Hd. pose proof (Z.mod_pos_bound Y 2 ltac:(lia)) as Hm. pose proof (Z.div_mod W (2 ^ (j + 1)) ltac:(lia)) as HdW. pose proof (Z.mod_pos_bound W _ Hp) as HmW.
  rewrite Hdiv in HdW. set (Q := Y / 2) in *. assert (HW : 0 < W) by nia. split; [|done].
  assert (H1 : Z.log2 Y = Z.log2 Q + 1).
  { pose proof (log2_bounds Q ltac:(lia)) as [Hb Hl]. apply Z.log2_unique; [lia|]. replace (Z.succ (Z.log2 Q + 1)) with (Z.succ (Z.succ (Z.log2 Q))) by lia. rewrite !Z.pow_succ_r, Z.pow_add_r by lia.
    rewrite Z.pow_add_r in Hb by lia. change (2 ^ 1) with 2 in *. lia. }
  assert (H2 : Z.log2 W = Z.log2 Q + (j + 1)); [|lia]. pose proof (log2_bounds Q ltac:(lia)) as [Hb Hl]. apply Z.log2_unique; [lia|].
  replace (Z.succ (Z.log2 Q + (j + 1))) with ((Z.log2 Q + 1) + (j + 1)) by lia. rewrite !(Z.pow_add_r 2 _ (j + 1)) by lia.
  assert (2 ^ Z.log2 Q * 2 ^ (j + 1) <= Q * 2 ^ (j + 1)) by (apply Z.mul_le_mono_nonneg_r; lia).
  assert ((Q + 1) * 2 ^ (j + 1) <= 2 ^ (Z.log2 Q + 1) * 2 ^ (j + 1)) by (apply Z.mul_le_mono_nonneg_r; lia). lia.
Qed.

Lemma prec_at_le ex prec1 flags : has_flag flags BF_FLAG_RADPNT_PREC = false -> prec_at ex prec1 flags <= prec1.
Proof. intros Hr. unfold prec_at. rewrite Hr. case_match eqn:Hc; [|lia]. bool_props. lia. Qed.

(** With two bits more than the precision the sticky bit is enough. *)
Lemma round_sticky s Y W e j prec1 flags :
  has_flag flags BF_FLAG_RADPNT_PREC = false -> 0 <= j -> 2 <= Y -> prec1 + 2 <= Z.log2 Y + 1 -> sticky_of Y W j ->
  round_val s Y e prec1 flags = round_val s W (e - j) prec1 flags.
Proof.
  intros Hrad Hj HY Hbits Hst. destruct (sticky_log2 Y W j Hj HY Hst) as [Hlog HW]. unfold round_val. rewrite Hlog.
  replace (e - j + (Z.log2 Y + j + 1)) with (e + (Z.log2 Y + 1)) by lia. set (n := Z.log2 Y + 1) in *. set (ex := e + n).
  pose proof (prec_at_le ex prec1 flags Hrad) as Hp. set (prec := prec_at ex prec1 flags) in *. replace (Z.log2 Y + j + 1 - prec) with (n - prec + j) by lia.
  rewrite (Z.max_r 0 (n - prec)), (Z.max_r 0 (n - prec + j)) by lia. set (k := n - prec). assert (Hk : 2 <= k) by lia.
  destruct (sticky_parts Y W j k Hj Hk Hst) as (-> & Hc & Hz). rewrite (rnd_up_same _ s _ (W mod 2 ^ (k + j)) (k + j) (Y mod 2 ^ k) k Hc Hz).
  assert (Hin : is_inexact (mode_of flags) (W mod 2 ^ (k + j)) = is_inexact (mode_of flags) (Y mod 2 ^ k)).
  { unfold is_inexact. f_equal. f_equal. apply eq_iff_eq_true. by rewrite !Z.eqb_eq. }
  rewrite Hin. by replace (e - j + (k + j)) with (e + k) by lia.
Qed.

(** ** The rounding modes *)

(** [y * 2 ^ k] is [m], the magnitude of a number with the sign [s], rounded in a mode: to the
    nearest with ties to even, towards zero, down, up, to the nearest with ties away from
    zero, away from zero, or to one of the two neighbours. *)
Definition rounds_to (mode s m y k : Z) : Prop :=
  let v := y * 2 ^ k in
  if mode =? BF_RNDN then 2 * Z.abs (m - v) <= 2 ^ k /\ (2 * Z.abs (m - v) = 2 ^ k -> Z.even y = true)
  else if mode =? BF_RNDZ then v <= m < v + 2 ^ k
  else if mode =? BF_RNDD then if s =? 0 then v <= m < v + 2 ^ k else v - 2 ^ k < m <= v
  else if mode =? BF_RNDU then if s =? 0 then v - 2 ^ k < m <= v else v <= m < v + 2 ^ k
  else if mode =? BF_RNDNA then 2 * Z.abs (m - v) <= 2 ^ k /\ (2 * Z.abs (m - v) = 2 ^ k -> m <= v)
  else if mode =? BF_RNDA then v - 2 ^ k < m <= v
  else Z.abs (m - v) < 2 ^ k.

Lemma rnd_up_correct mode s m k : 0 <= s <= 1 -> 0 <= k -> rounds_to mode s m (m / 2 ^ k + b2z (rnd_up mode s (m / 2 ^ k) (m mod 2 ^ k) k)) k.
Proof.
  intros Hs Hk. pose proof (pow2_pos k Hk) as Hp. pose proof (Z.div_mod m (2 ^ k) ltac:(lia)) as Hd. pose proof (Z.mod_pos_bound m _ Hp) as Hm.
  set (q := m / 2 ^ k) in *. set (rem := m mod 2 ^ k) in *. set (P := 2 ^ k) in *. assert (Hs2 : s = 0 \/ s = 1) by lia. unfold rounds_to. fold P. set (up := rnd_up mode s q rem k).
  assert (Hv : (q + b2z up) * P = m - rem + (if up then P else 0)) by (destruct up; cbn [b2z]; lia). rewrite Hv. unfold up, rnd_up. fold P. clear up Hv. clearbody q rem P.
  destruct (Z.eqb_spec mode BF_RNDN) as [->|]; [|destruct (Z.eqb_spec mode BF_RNDZ) as [->|]; [lia|]].
  - change (BF_RNDN =? BF_RNDZ) with false. cbv iota. destruct (Z.ltb_spec P (2 * rem)); cbn [orb]; [split; [lia|intros; lia]|]. destruct (Z.eqb_spec (2 * rem) P); cbn [andb]; [|split; [lia|intros; lia]].
    destruct (Z.odd q) eqn:Hq; cbn [b2z]; (split; [lia|]); intros _; rewrite ?Z.even_add; rewrite <- Z.negb_odd, Hq; done.
  - destruct (Z.eqb_spec mode BF_RNDD) as [->|]; [|destruct (Z.eqb_spec mode BF_RNDU) as [->|]; [|destruct (Z.eqb_spec mode BF_RNDA) as [->|]]].
    + destruct Hs2 as [->| ->], (Z.eqb_spec rem 0); cbn [Z.eqb Pos.eqb andb negb]; lia.
    + change (BF_RNDU =? BF_RNDNA) with false. destruct Hs2 as [->| ->], (Z.eqb_spec rem 0); cbn [Z.eqb Pos.eqb andb negb]; lia.
    + change (BF_RNDA =? BF_RNDNA) with false. destruct (Z.eqb_spec rem 0); cbn [negb]; lia.
    + destruct (mode =? BF_RNDNA); destruct (Z.leb_spec P (2 * rem)); lia.
Qed.

(** A result that is finite and did not overflow is rounded as the mode says, to a mantissa
    of the precision, and the status tells whether it is exact. *)
Lemma round_val_sound s m e prec1 flags y e' st :
  0 <= s <= 1 -> 0 < m -> round_val s m e prec1 flags = (VFin s y e', st) -> st .& BF_ST_OVERFLOW = 0 ->
  e <= e' /\ rounds_to (mode_of flags) s m y (e' - e) /\ y <= Z.max 1 (2 ^ prec_at (e + Z.log2 m + 1) prec1 flags) /\
  (mode_of flags <> BF_RNDF -> (st .& BF_ST_INEXACT = 0 <-> m mod 2 ^ (e' - e) = 0)).
Proof.
  intros Hs Hm. pose proof (log2_bounds m Hm) as [Hb Hl]. unfold round_val. rewrite <- (Z.add_assoc e (Z.log2 m) 1). set (n := Z.log2 m + 1) in *. set (pa := prec_at (e + n) prec1 flags). clearbody pa.
  set (k := Z.max 0 (n - pa)). pose proof (rnd_up_correct (mode_of flags) s m k Hs ltac:(lia)) as Hr. set (up := rnd_up _ _ _ _ _) in *. set (inx := is_inexact _ _).
  assert (Hin : mode_of flags <> BF_RNDF -> inx = negb (m mod 2 ^ k =? 0)) by (intros Hm6; unfold inx, is_inexact; by rewrite (proj2 (Z.eqb_neq _ _) Hm6)). clearbody up inx. cbv zeta.
  destruct (Z.leb_spec pa 0) as [Hpa|Hpa].
  - intros He _. destruct up; [|done]. injection He as <- <- <-. assert (Hq : m / 2 ^ k = 0).
    { apply Z.div_small. split; [lia|]. eapply Z.lt_le_trans; [apply Hb|]. apply Z.pow_le_mono_r; lia. }
    rewrite Hq in Hr. cbn [b2z] in Hr. replace (e + n - pa - e) with k by (unfold k; lia). split; [lia|]. split; [done|]. split; [lia|]. intros _.
    assert (Hmod : m mod 2 ^ k = m) by (apply Z.mod_small; split; [lia|]; eapply Z.lt_le_trans; [apply Hb|]; apply Z.pow_le_mono_r; lia). rewrite Hmod. split; [by destruct inx|lia].
  - destruct (_ && negb (has_flag _ _)) eqn:Hun; [done|]. destruct (exp_range flags <? _) eqn:Hov; [intros He; injection He as _ <-; done|]. intros He Hst. injection He as <- <- <-. replace (e + k - e) with k by lia.
    split; [lia|]. split; [done|]. split.
    + assert (m / 2 ^ k < 2 ^ pa); [|destruct up; cbn [b2z]; lia]. apply Z.div_lt_upper_bound; [apply pow2_pos; lia|]. rewrite <- Z.pow_add_r by lia. eapply Z.lt_le_trans; [apply Hb|]. apply Z.pow_le_mono_r; lia.
    + intros Hm6. specialize (Hin Hm6). destruct (Z.eqb_spec (m mod 2 ^ k) 0) as [Hz|Hz]; subst inx; cbn [negb] in *.
      * split; [done|]. intros _. clear Hst. unfold add_status. destruct (_ && negb (_ =? 0)); reflexivity.
      * split; [|done]. intros Hx. exfalso. revert Hx. clear Hst. unfold add_status. destruct (_ && negb (_ =? 0)); vm_compute; congruence.
Qed.

(** The request that is always granted. *)
Definition realloc_ok : @Realloc malloc_ok := fun o _ _ => (o, Some (fun _ => 0)).

Lemma realloc_ok_shrinks : @ShrinkOk malloc_ok realloc_ok.
Proof. intros o old n _. by eexists _, _. Qed.

(** C13: [bf_round] rounds a well-formed number once: the result is well formed and is the
    value rounded to the precision and the exponent range of the flags, subnormal numbers,
    underflow and overflow included; a finite result that did not overflow is the neighbour
    that the rounding mode asks for, has at most the precision asked for, and the status is
    inexact only when bits were lost. *)
Theorem bf_round_correct `{!Allocator} `{R : !Realloc} {Sok : ShrinkOk} o r prec flags :
  bf_wf r -> 64 * len r <= 2 ^ 60 -> flags_ok prec flags -> (prec = 0 -> expn r < exp_range flags) ->
  gives_val (bf_round o r prec flags) (round_of (bf_val r) prec flags) /\
  forall s m e y e' st, bf_val r = VFin s m e -> round_of (bf_val r) prec flags = (VFin s y e', st) -> st .& BF_ST_OVERFLOW = 0 ->
    e <= e' /\ rounds_to (mode_of flags) s m y (e' - e) /\ y <= Z.max 1 (2 ^ prec_at (e + Z.log2 m + 1) prec flags) /\
    (mode_of flags <> BF_RNDF -> (st .& BF_ST_INEXACT = 0 <-> m mod 2 ^ (e' - e) = 0)).
Proof.
  intros Hw Hl Hf Hp. split; [by apply bf_round_spec|]. intros s m e y e' st Hv. rewrite Hv. cbn [round_of]. intros He Hst.
  assert (Hsm : 0 <= s <= 1 /\ 0 < m); [|destruct Hsm; by apply (round_val_sound s m e prec flags y e' st)].
  destruct (tab r) as [|x t] eqn:Ht; [destruct Hw as [_ _ [[_ [Hx|[Hx|Hx]]]|((v & rest & Hx & _) & _)]]; [unfold bf_val in Hv; rewrite Hx in Hv; vm_compute in Hv; discriminate..|congruence]|].
  destruct (wf_fin r Hw ltac:(by rewrite Ht)) as (v & rest & _ & _ & _ & _ & HM & Hval). rewrite Hval in Hv. injection Hv as <- <- _. split; [apply Hw|done].
Qed.

Lemma bf_round_correct_witness :
  @gives_val malloc_ok realloc_ok (@bf_round malloc_ok realloc_ok tt (mkBf 0 1 [2 ^ 63 + 5]) 3 BF_RNDN) (round_of (bf_val (mkBf 0 1 [2 ^ 63 + 5])) 3 BF_RNDN).
Proof.
  refine (proj1 (@bf_round_correct malloc_ok realloc_ok realloc_ok_shrinks tt (mkBf 0 1 [2 ^ 63 + 5]) 3 BF_RNDN _ _ _ _)).
  - split; [cbn; lia|repeat constructor; vm_compute; congruence|right]. split; [by eexists _, _|by vm_compute].
  - vm_compute. congruence.
  - split; try (by vm_compute); right; lia.
  - done.
Defined.

Example bf_round_run :
  @bf_round malloc_ok realloc_ok tt (mkBf 0 1 [2 ^ 63 + 5]) 3 BF_RNDN = Some (tt, mkBf 0 1 [2 ^ 63], BF_ST_INEXACT).
Proof. vm_compute. reflexivity. Qed.

(** An allocator that refuses every block that is larger than the old one. *)
Definition realloc_none : @Realloc malloc_ok := fun o old n => if n <=? old then (o, Some (fun _ => 0)) else (o, None).

(** [bf_round] can fail: an overflow in a truncating mode needs room for the largest number. *)
Example bf_round_can_fail :
  @bf_round malloc_ok realloc_none tt (mkBf 0 (2 ^ 61) [2 ^ 63]) 200 BF_RNDZ = Some (tt, mkBf 0 BF_EXP_NAN [], BF_ST_MEM_ERROR).
Proof. vm_compute. reflexivity. Qed.
