(* ===== verification/BfArith.v ===== *)
(** Multiplication, division and square root of the numbers of [libbf.c].

    Every operation is proved to give the exact result rounded once ([round_val]), or NaN
    and a memory error; for quotients and roots the exact result is given by the integer
    quotient or root of the mantissa extended by any number of bits, with a sticky bit. *)

From S2P Require Import Prelude CutilsH DynBuf BfLimbs BfDiv BfRecip BfSqrt BfNum BfRound BfVal.

Section Arith.
Context `{!Allocator} `{R : !Realloc} `{F : !FftMul}.

(** ** Multiplication *)

(** The product for [len b <= len a].  [alias] tells that [r] is one of the operands: the
    product is then computed in a new number, unless [fft_mul] is used, which reads its
    operands first. *)
Definition mul_ordered (o : aopaque) (alias : bool) (r a b : bf_t) (prec flags : Z) : option (aopaque * bf_t * Z) :=
  let r_sign := bf_sign a .^ bf_sign b in
  if len b =? 0 then
    if (expn a =? BF_EXP_NAN) || (expn b =? BF_EXP_NAN) then
      let '(o, r) := bf_set_nan o r in Some (o, r, 0)
    else if (expn a =? BF_EXP_INF) || (expn b =? BF_EXP_INF) then
      if ((expn a =? BF_EXP_INF) && (expn b =? BF_EXP_ZERO)) || ((expn a =? BF_EXP_ZERO) && (expn b =? BF_EXP_INF)) then
        let '(o, r) := bf_set_nan o r in Some (o, r, BF_ST_INVALID_OP)
      else
        let '(o, r) := bf_set_inf o r r_sign in Some (o, r, 0)
    else
      let '(o, r) := bf_set_zero o r r_sign in Some (o, r, 0)
  else
    let precl := (prec + 2 + LIMB_BITS - 1) / LIMB_BITS in
    let faithful := flags .& BF_RND_MASK =? BF_RNDF in
    let a_len := if faithful then bf_min (len a) precl else len a in
    let b_len := if faithful then bf_min (len b) precl else len b in
    a_tab ← zslice (tab a) (len a - a_len) a_len;
    b_tab ← zslice (tab b) (len b - b_len) b_len;
    let finish o r := bf_normalize_and_round o (mkBf r_sign (i64 (expn a + expn b)) (tab r)) prec flags in
    if FFT_MUL_THRESHOLD <=? b_len then
      match fft_mul o a_tab b_tab with
      | (o, Some p) => finish o (with_tab r p)
      | (o, None) => Some (bf_mem_error o r)
      end
    else
      let r1 := r in
      let r := if alias then bf_init else r in
      let '(o, r, st) := bf_resize o r (a_len + b_len) in
      '(o, r, ret) ←
        (if negb (st =? 0) then Some (bf_mem_error o r)
         else
           t ← mp_mul_basecase (tab r) a_tab b_tab;
           finish o (with_tab r t));
      if alias then let '(o, r) := bf_move o r1 r in Some (o, r, ret) else Some (o, r, ret).

Definition bf_mul (o : aopaque) (alias : bool) (r a b : bf_t) (prec flags : Z) : option (aopaque * bf_t * Z) :=
  if len a <? len b then mul_ordered o alias r b a prec flags else mul_ordered o alias r a b prec flags.

(** ** Division *)

Definition __bf_div (o : aopaque) (r a b : bf_t) (prec flags : Z) : option (aopaque * bf_t * Z) :=
  let r_sign := bf_sign a .^ bf_sign b in
  if (BF_EXP_INF <=? expn a) || (BF_EXP_INF <=? expn b) then
    if (expn a =? BF_EXP_NAN) || (expn b =? BF_EXP_NAN) then
      let '(o, r) := bf_set_nan o r in Some (o, r, 0)
    else if (expn a =? BF_EXP_INF) && (expn b =? BF_EXP_INF) then
      let '(o, r) := bf_set_nan o r in Some (o, r, BF_ST_INVALID_OP)
    else if expn a =? BF_EXP_INF then
      let '(o, r) := bf_set_inf o r r_sign in Some (o, r, 0)
    else
      let '(o, r) := bf_set_zero o r r_sign in Some (o, r, 0)
  else if expn a =? BF_EXP_ZERO then
    if expn b =? BF_EXP_ZERO then
      let '(o, r) := bf_set_nan o r in Some (o, r, BF_ST_INVALID_OP)
    else
      let '(o, r) := bf_set_zero o r r_sign in Some (o, r, 0)
  else if expn b =? BF_EXP_ZERO then
    let '(o, r) := bf_set_inf o r r_sign in Some (o, r, BF_ST_DIVIDE_ZERO)
  else
    let precl := (prec + 2 + LIMB_BITS - 1) / LIMB_BITS in
    let nb := len b in
    let n := bf_max (len a) precl in
    let na := n + nb in
    let '(o, taba) := bf_malloc o (na + 1) in
    match taba with
    | None => Some (bf_mem_error o r)
    | Some t =>
        let d := na - len a in
        t ← zsplice t 0 (replicate (Z.to_nat d) 0);
        t ← zsplice t d (tab a);
        let '(o, r, st) := bf_resize o r (n + 1) in
        if negb (st =? 0) then Some (bf_mem_error (bf_free o taba) r)
        else
          tn ← zslice t 0 na;
          '(o, res) ← mp_divnorm o (tab r) tn (tab b);
          match res with
          | None => Some (bf_mem_error (bf_free o taba) r)
          | Some (q, tn) =>
              rem ← zslice tn 0 nb;
              q ← (if negb (mp_scan_nz rem =? 0) then v ← zget q 0; zset q 0 (v .| 1) else Some q);
              bf_normalize_and_round (bf_free o taba) (mkBf r_sign (i64 (expn a - expn b + LIMB_BITS)) q) prec flags
          end
    end.

(** ** Square root *)

(** The code asserts that [r] and [a] are two objects; [stack] is the array on its stack. *)
Definition bf_sqrt (o : aopaque) (stack : list Z) (r a : bf_t) (prec flags : Z) : option (aopaque * bf_t * Z) :=
  let invalid_op := let '(o, r) := bf_set_nan o r in Some (o, r, BF_ST_INVALID_OP) in
  if len a =? 0 then
    if expn a =? BF_EXP_NAN then
      let '(o, r) := bf_set_nan o r in Some (o, r, 0)
    else if (expn a =? BF_EXP_INF) && negb (bf_sign a =? 0) then invalid_op
    else '(o, r, _) ← bf_set o false r a; Some (o, r, 0)
  else if negb (bf_sign a =? 0) then invalid_op
  else
    let n := (2 * (prec + 2) + 2 * LIMB_BITS - 1) / (2 * LIMB_BITS) in
    let '(o, r, st) := bf_resize o r n in
    if negb (st =? 0) then Some (bf_mem_error o r)
    else
      let '(o, a1) := bf_malloc o (2 * n) in
      match a1 with
      | None => Some (bf_mem_error o r)
      | Some t =>
          let n1 := bf_min (2 * n) (len a) in
          t ← zsplice t 0 (replicate (Z.to_nat (2 * n - n1)) 0);
          high ← zslice (tab a) (len a - n1) n1;
          t ← zsplice t (2 * n - n1) high;
          '(t, res) ← (if negb (expn a .& 1 =? 0) then mp_shr t 1 0 else Some (t, 0));
          '(o, s) ← mp_sqrtrem o stack (tab r) t;
          match s with
          | None => Some (bf_mem_error (bf_free o a1) r)
          | Some (s, t) =>
              low ← zslice t 0 (n + 1);
              let res := if res =? 0 then mp_scan_nz low else res in
              rest ← zslice (tab a) 0 (len a - n1);
              let res := if res =? 0 then mp_scan_nz rest else res in
              s ← (if negb (res =? 0) then v ← zget s 0; zset s 0 (v .| 1) else Some s);
              bf_round (bf_free o a1) (mkBf 0 (i64 (expn a + 1) ≫ 1) s) prec flags
          end
      end.
End Arith.

(** ** Multiplication *)

(** The product of two values, rounded. *)
Definition mul_val (v1 v2 : bfval) (prec flags : Z) : bfval * Z :=
  match v1, v2 with
  | VNan, _ | _, VNan => (VNan, 0)
  | VInf _, VZero _ | VZero _, VInf _ => (VNan, BF_ST_INVALID_OP)
  | VInf s1, VInf s2 | VInf s1, VFin s2 _ _ | VFin s1 _ _, VInf s2 => (VInf (s1 .^ s2), 0)
  | VZero s1, VZero s2 | VZero s1, VFin s2 _ _ | VFin s1 _ _, VZero s2 => (VZero (s1 .^ s2), 0)
  | VFin s1 m1 e1, VFin s2 m2 e2 => round_val (s1 .^ s2) (m1 * m2) (e1 + e2) prec flags
  end.

Lemma mul_val_comm v1 v2 prec flags : mul_val v1 v2 prec flags = mul_val v2 v1 prec flags.
Proof. destruct v1, v2; cbn; try done; rewrite Z.lxor_comm; try done. by rewrite (Z.mul_comm m), (Z.add_comm e). Qed.

Lemma xor_sign s1 s2 : 0 <= s1 <= 1 -> 0 <= s2 <= 1 -> 0 <= s1 .^ s2 <= 1.
Proof. intros H1 H2. assert (s1 = 0 \/ s1 = 1) as [->| ->] by lia; assert (s2 = 0 \/ s2 = 1) as [->| ->] by lia; by split. Qed.

(** A number without limbs, or with. *)
Lemma wf_cases r :
  bf_wf r -> (len r = 0 /\ tab r = [] /\ (expn r = BF_EXP_ZERO /\ bf_val r = VZero (bf_sign r) \/ expn r = BF_EXP_INF /\ bf_val r = VInf (bf_sign r) \/
                                           expn r = BF_EXP_NAN /\ bf_val r = VNan)) \/
  (1 <= len r /\ tab r <> [] /\ bpow (tab r) <= 2 * mpz (tab r) /\ - 2 ^ 61 <= expn r <= 2 ^ 61 /\ 0 < mpz (tab r) /\ bf_val r = VFin (bf_sign r) (mpz (tab r)) (expn r - 64 * len r)).
Proof.
  intros Hw. destruct (tab r) as [|x t] eqn:Ht.
  - left. unfold len. rewrite Ht. split; [done|]. split; [done|]. destruct Hw as [_ _ [[_ He]|((v & rest & Hv & _) & _)]]; [|congruence].
    unfold bf_val. destruct He as [->|[->| ->]]; eauto.
  - right. destruct (wf_fin r Hw ltac:(by rewrite Ht)) as (v & rest & Hv & _ & Hb & He & HM & Hval). rewrite Ht in *. split; [unfold len, zlen; rewrite Ht; simpl; lia|].
    split; [done|]. split; [done|]. split; [done|]. by split.
Qed.

Section ArithSpec.
Context `{!Allocator} `{R : !Realloc} `{F : !FftMul} {Sok : ShrinkOk} {Fok : FftMulOk}.

Lemma gives_nan o r st : gives_val (let '(o, r) := bf_set_nan o r in Some (o, r, st)) (VNan, st).
Proof. destruct (bf_set_nan_spec o r) as (o' & r' & -> & Hw & Hv). eexists _, _, _. split; [done|]. split; [done|]. left. by rewrite Hv. Qed.

Lemma gives_inf o r s st : 0 <= s <= 1 -> gives_val (let '(o, r) := bf_set_inf o r s in Some (o, r, st)) (VInf s, st).
Proof. intros Hs. destruct (bf_set_inf_spec o r s Hs) as (o' & r' & -> & Hw & Hv). eexists _, _, _. split; [done|]. split; [done|]. left. by rewrite Hv. Qed.

Lemma gives_zero o r s st : 0 <= s <= 1 -> gives_val (let '(o, r) := bf_set_zero o r s in Some (o, r, st)) (VZero s, st).
Proof. intros Hs. destruct (bf_set_zero_spec o r s Hs) as (o' & r' & -> & Hw & Hv). eexists _, _, _. split; [done|]. split; [done|]. left. by rewrite Hv. Qed.

(** The result moved to the operand. *)
Lemma gives_move (alias : bool) m r1 res :
  gives_val m res ->
  gives_val ('(o, r, ret) ← m; if alias then let '(o, r) := bf_move o r1 r in Some (o, r, ret) else Some (o, r, ret)) res.
Proof. intros (o & r & st & -> & Hg). cbn [mbind option_bind]. destruct alias; by eexists _, _, _. Qed.

(** A product of limbs, rounded. *)
Lemma mul_finish o s a b p prec flags :
  bf_wf a -> bf_wf b -> is_product (tab a) (tab b) p -> 1 <= len a -> 1 <= len b -> 64 * len a <= 2 ^ 59 -> 64 * len b <= 2 ^ 59 ->
  0 <= s <= 1 -> flags_ok prec flags -> 1 <= prec ->
  gives_val (bf_normalize_and_round o (mkBf s (i64 (expn a + expn b)) p) prec flags)
    (round_val s (mpz (tab a) * mpz (tab b)) ((expn a - 64 * len a) + (expn b - 64 * len b)) prec flags).
Proof.
  intros Ha Hb (Hp & Hlp & Hvp) Hla Hlb H1 H2 Hs Hf Hprec.
  destruct (wf_cases a Ha) as [(Hx & _)|(_ & _ & _ & Hea & Hma & _)]; [lia|]. destruct (wf_cases b Hb) as [(Hx & _)|(_ & _ & _ & Heb & Hmb & _)]; [lia|].
  rewrite i64_small by lia. assert (Hlen : zlen p = len a + len b) by (unfold len, zlen; lia).
  pose proof (bf_normalize_and_round_spec o (mkBf s (expn a + expn b) p) prec flags) as Hn. cbn [tab bf_sign expn] in Hn. unfold len at 1 2 in Hn. cbn [tab] in Hn.
  rewrite Hlen, Hvp in Hn. unfold round_any in Hn. rewrite (proj2 (Z.eqb_neq _ 0)) in Hn by nia.
  replace (expn a - 64 * len a + (expn b - 64 * len b)) with (expn a + expn b - 64 * (len a + len b)) by lia. apply Hn; [done|lia|done|lia|done|done].
Qed.

Lemma mul_ordered_spec o alias r a b prec flags :
  bf_wf a -> bf_wf b -> len b <= len a -> 64 * len a <= 2 ^ 59 -> flags_ok prec flags -> 1 <= prec -> mode_of flags <> BF_RNDF ->
  gives_val (mul_ordered o alias r a b prec flags) (mul_val (bf_val a) (bf_val b) prec flags).
Proof.
  intros Ha Hb Hle H59 Hf Hp Hm. unfold mul_ordered. pose proof (xor_sign _ _ (wf_sign _ Ha) (wf_sign _ Hb)) as Hs.
  destruct (wf_cases b Hb) as [(Hlb & _ & Hvb)|(Hlb & Hnb & _ & Heb & Hmb & Hvb)].
  - rewrite Hlb. change (0 =? 0) with true. cbv iota.
    destruct (wf_cases a Ha) as [(_ & _ & [(-> & ->)|[(-> & ->)|(-> & ->)]])|(_ & _ & _ & Hea & _ & ->)];
      destruct Hvb as [(-> & ->)|[(-> & ->)|(-> & ->)]]; cbn [mul_val];
      try (apply gives_nan || by apply gives_inf || by apply gives_zero).
    all: rewrite ?(proj2 (Z.eqb_neq (expn a) BF_EXP_NAN)), ?(proj2 (Z.eqb_neq (expn a) BF_EXP_INF)), ?(proj2 (Z.eqb_neq (expn a) BF_EXP_ZERO))
        by (unfold BF_EXP_NAN, BF_EXP_INF, BF_EXP_ZERO, BF_RAW_EXP_MAX, BF_RAW_EXP_MIN; lia); apply gives_nan || by apply gives_inf || by apply gives_zero.
  - destruct (wf_cases a Ha) as [(Hx & _)|(Hla & Hna & _ & Hea & Hma & Hva)]; [lia|]. rewrite (proj2 (Z.eqb_neq (len b) 0)) by lia. rewrite Hva, Hvb. cbn [mul_val].
    fold (mode_of flags). rewrite (proj2 (Z.eqb_neq (mode_of flags) _)) by done. rewrite !Z.sub_diag.
    assert (Hsl : forall x : bf_t, zslice (tab x) 0 (len x) = Some (tab x)) by (intros x; pose proof (zslice_head (tab x) [] (len x) eq_refl) as Hz; by rewrite app_nil_r in Hz).
    rewrite !Hsl. cbn [mbind option_bind]. pose proof (mul_finish) as Hfin. destruct (Z.leb_spec FFT_MUL_THRESHOLD (len b)) as [Hfft|Hfft].
    + destruct (fft_mul o (tab a) (tab b)) as [o1 [p|]] eqn:Hmul.
      * pose proof (fft_mul_ok _ _ _ _ _ (wf_limbs _ Ha) (wf_limbs _ Hb) Hmul) as Hpr. cbn [with_tab tab]. apply mul_finish; (done || lia).
      * apply bf_mem_error_spec. left. by apply (fft_mul_ok _ _ _ _ _ (wf_limbs _ Ha) (wf_limbs _ Hb) Hmul).
    + destruct (bf_resize_spec o (if alias then bf_init else r) (len a + len b)) as [(o1 & t & -> & Hlt & _)|(o1 & -> & _ & Href)]; [lia| |].
      * cbn [Z.eqb negb with_tab tab]. destruct (mp_mul_basecase_spec t (tab a) (tab b) (wf_limbs _ Ha) (wf_limbs _ Hb) Hnb) as (p & -> & Hpr); [unfold len, zlen in *; lia|].
        cbn [mbind option_bind]. apply gives_move. apply mul_finish; (done || lia).
      * cbn [Z.eqb negb]. apply gives_move, bf_mem_error_spec. by right.
Qed.

(** ** Division *)

(** A quotient with a sticky bit. *)
Definition quot_sticky (N D : Z) : Z := 2 * (N / D) + b2z (negb (N mod D =? 0)).

Lemma quot_sticky_parts N D : 0 < D -> quot_sticky N D / 2 = N / D /\ (quot_sticky N D mod 2 = 0 <-> N mod D = 0).
Proof.
  intros HD. unfold quot_sticky. destruct (Z.eqb_spec (N mod D) 0) as [Hz|Hz]; cbn [negb b2z]; (split; [zdm|]); (split; intros; [|try done]); zdm.
Qed.

Lemma quot_sticky_scale c D j : 0 < D -> 0 <= j -> sticky_of (quot_sticky c D) (quot_sticky (c * 2 ^ j) D) j.
Proof.
  intros HD Hj. destruct (quot_sticky_parts c D HD) as [H1 H2]. destruct (quot_sticky_parts (c * 2 ^ j) D HD) as [H3 H4]. pose proof (pow2_pos j Hj) as Hp.
  assert (E : 2 ^ (j + 1) = 2 * 2 ^ j) by (rewrite Z.pow_add_r by lia; change (2 ^ 1) with 2; ring). unfold sticky_of. rewrite H1, H2. split.
  - rewrite E, <- Z.div_div, H3, Z.div_div by lia. apply Z.div_mul_cancel_r; lia.
  - rewrite E, Z.rem_mul_r, H3 by lia. pose proof (Z.mod_pos_bound (quot_sticky (c * 2 ^ j) D) 2 ltac:(lia)) as Hm.
    pose proof (Z.mod_pos_bound (c * 2 ^ j / D) (2 ^ j) Hp) as Hm2. pose proof (Z.div_mod (c * 2 ^ j) D ltac:(lia)) as Hd. split; intros Hx.
    + apply Z.mod_divide in Hx; [|lia]. destruct Hx as [y ->]. clear H1 H2 H3 Hd Hm Hm2. assert (Hz : (y * D * 2 ^ j) mod D = 0) by (replace (y * D * 2 ^ j) with (y * 2 ^ j * D) by ring; apply Z.mod_mul; lia).
      rewrite (proj2 H4 Hz). replace (y * D * 2 ^ j) with (y * 2 ^ j * D) by ring. rewrite Z.div_mul, Z.mod_mul by lia. lia.
    + assert (Hz : (c * 2 ^ j) mod D = 0) by (apply H4; lia). assert (Hq : (c * 2 ^ j / D) mod 2 ^ j = 0) by lia. apply Z.mod_divide in Hq; [|lia]. destruct Hq as [y Hy].
      rewrite Hz, Hy in Hd. assert (c = D * y) as -> by nia. rewrite Z.mul_comm. apply Z.mod_mul. lia.
Qed.

Lemma sticky_set Q S c D : 0 < D -> 0 <= c -> Q = 2 * c / D -> S = b2z (negb (2 * c mod D =? 0)) -> Q .| S = quot_sticky c D.
Proof.
  intros HD Hc -> ->. unfold quot_sticky. pose proof (Z.div_mod c D ltac:(lia)) as H1. pose proof (Z.mod_pos_bound c D HD) as H2.
  pose proof (Z.div_mod (2 * c) D ltac:(lia)) as H3. pose proof (Z.mod_pos_bound (2 * c) D HD) as H4.
  set (q := c / D) in *. set (m := c mod D) in *. set (Q := 2 * c / D) in *. set (M := 2 * c mod D) in *. clearbody q m Q M.
  assert (HQ : Q = 2 * q \/ Q = 2 * q + 1) by nia.
  assert (Hor1 : forall x, (2 * x + 1) .| 1 = 2 * x + 1) by (intros x; destruct x as [|[]|[]]; reflexivity).
  assert (Hor0 : forall x, (2 * x) .| 1 = 2 * x + 1) by (intros x; destruct x as [|[]|[]]; reflexivity).
  destruct (Z.eqb_spec M 0), (Z.eqb_spec m 0); cbn [negb b2z]; rewrite ?Z.lor_0_r; destruct HQ as [->| ->]; rewrite ?Hor0, ?Hor1; nia.
Qed.

(** The quotient of two values rounded, with [j] more bits of the dividend. *)
Definition div_val (j : Z) (v1 v2 : bfval) (prec flags : Z) : bfval * Z :=
  match v1, v2 with
  | VNan, _ | _, VNan => (VNan, 0)
  | VInf _, VInf _ | VZero _, VZero _ => (VNan, BF_ST_INVALID_OP)
  | VInf s1, VZero s2 | VInf s1, VFin s2 _ _ => (VInf (s1 .^ s2), 0)
  | VZero s1, VInf s2 | VZero s1, VFin s2 _ _ | VFin s1 _ _, VInf s2 => (VZero (s1 .^ s2), 0)
  | VFin s1 _ _, VZero s2 => (VInf (s1 .^ s2), BF_ST_DIVIDE_ZERO)
  | VFin s1 m1 e1, VFin s2 m2 e2 => round_val (s1 .^ s2) (quot_sticky (m1 * 2 ^ j) m2) (e1 - e2 - j - 1) prec flags
  end.

(** The quotient then has two bits more than the precision. *)
Definition div_enough (j : Z) (v1 v2 : bfval) (prec : Z) : Prop :=
  match v1, v2 with VFin _ m1 _, VFin _ m2 _ => prec + 2 <= Z.log2 (quot_sticky (m1 * 2 ^ j) m2) + 1 | _, _ => True end.

Lemma log2_two x : 1 <= Z.log2 x -> 2 <= x.
Proof. intros Hx. destruct (Z.le_gt_cases 2 x) as [|Hlt]; [done|]. pose proof (Z.log2_le_mono x 1 ltac:(lia)) as Hm. change (Z.log2 1) with 0 in Hm. lia. Qed.

Lemma quot_round_indep s m D e j1 j2 prec flags :
  0 < m -> 0 < D -> 0 <= j1 -> 0 <= j2 -> 1 <= prec -> has_flag flags BF_FLAG_RADPNT_PREC = false ->
  prec + 2 <= Z.log2 (quot_sticky (m * 2 ^ j1) D) + 1 -> prec + 2 <= Z.log2 (quot_sticky (m * 2 ^ j2) D) + 1 ->
  round_val s (quot_sticky (m * 2 ^ j1) D) (e - j1) prec flags = round_val s (quot_sticky (m * 2 ^ j2) D) (e - j2) prec flags.
Proof.
  intros Hm HD. revert j1 j2.
  assert (Hle : forall j1 j2, 0 <= j1 <= j2 -> 1 <= prec -> has_flag flags BF_FLAG_RADPNT_PREC = false -> prec + 2 <= Z.log2 (quot_sticky (m * 2 ^ j1) D) + 1 ->
    round_val s (quot_sticky (m * 2 ^ j1) D) (e - j1) prec flags = round_val s (quot_sticky (m * 2 ^ j2) D) (e - j2) prec flags).
  { intros j1 j2 Hj Hp Hr Hb. pose proof (quot_sticky_scale (m * 2 ^ j1) D (j2 - j1) HD ltac:(lia)) as Hst.
    replace (m * 2 ^ j1 * 2 ^ (j2 - j1)) with (m * 2 ^ j2) in Hst by (rewrite <- Z.mul_assoc, <- Z.pow_add_r by lia; do 2 f_equal; lia).
    rewrite (round_sticky s _ _ (e - j1) (j2 - j1) prec flags Hr ltac:(lia) (log2_two (quot_sticky (m * 2 ^ j1) D) ltac:(lia)) Hb Hst).
    f_equal. lia. }
  intros j1 j2 H1 H2 Hp Hr Hb1 Hb2. destruct (Z.le_gt_cases j1 j2); [apply Hle; (done || lia)|symmetry; apply Hle; (done || lia)].
Qed.

Lemma or_one x : x .| 1 = 2 * (x / 2) + 1.
Proof.
  assert (Hor1 : forall x, (2 * x + 1) .| 1 = 2 * x + 1) by (intros y; destruct y as [|[]|[]]; reflexivity).
  assert (Hor0 : forall x, (2 * x) .| 1 = 2 * x + 1) by (intros y; destruct y as [|[]|[]]; reflexivity).
  pose proof (Z.div_mod x 2 ltac:(lia)) as Hd. pose proof (Z.mod_pos_bound x 2 ltac:(lia)) as Hm. set (y := x / 2) in *. clearbody y.
  assert (x mod 2 = 0 \/ x mod 2 = 1) as [He|He] by lia; rewrite He in Hd; rewrite Hd; [rewrite Z.add_0_r; apply Hor0|apply Hor1].
Qed.

(** The lowest bit of an array is set. *)
Lemma set_sticky q s :
  limbs q -> q <> [] -> 0 <= s <= 1 ->
  exists q', (if negb (s =? 0) then v ← zget q 0; zset q 0 (v .| 1) else Some q) = Some q' /\ limbs q' /\ length q' = length q /\ mpz q' = mpz q .| s.
Proof.
  intros Hq Hne Hs. destruct q as [|v q]; [done|]. apply Forall_cons in Hq as [Hv Hq]. destruct (Z.eqb_spec s 0) as [->|Hs0]; cbn [negb].
  { exists (v :: q). rewrite Z.lor_0_r. split; [done|]. split; [by constructor|done]. }
  assert (s = 1) as -> by lia. change (zget (v :: q) 0) with (Some v). cbn [mbind option_bind]. rewrite (zset_mid [] v q 0) by done.
  exists ((v .| 1) :: q). split; [done|]. rewrite or_one. assert (Hl : is_limb (2 * (v / 2) + 1)) by (unfold is_limb in *; rewrite limb_base_val in *; zdm).
  split; [by constructor|]. split; [done|]. rewrite or_one, !mpz_cons. assert (LIMB_BASE * mpz q = 2 * (2 ^ 63 * mpz q)) as -> by (rewrite limb_base_val; lia).
  replace (v + 2 * (2 ^ 63 * mpz q)) with (v + (2 ^ 63 * mpz q) * 2) by ring. rewrite Z.div_add by lia. lia.
Qed.

Lemma nz_range t : limbs t -> 0 <= mp_scan_nz t <= 1.
Proof. intros Ht. rewrite mp_scan_nz_spec by done. apply b2z_range. Qed.

Lemma div_round o s a b q prec flags n c :
  bf_wf a -> bf_wf b -> 1 <= len a -> 1 <= len b -> 64 * len a <= 2 ^ 59 -> 64 * len b <= 2 ^ 59 -> len a <= n -> 64 * n <= 2 ^ 59 + 192 -> prec + 2 <= 64 * n ->
  limbs q -> zlen q = n + 1 -> mpz q = quot_sticky c (mpz (tab b)) -> c = mpz (tab a) * 2 ^ (64 * (n + len b - len a) - 1) -> 0 <= s <= 1 ->
  flags_ok prec flags -> 1 <= prec -> has_flag flags BF_FLAG_RADPNT_PREC = false ->
  forall j, 0 <= j -> prec + 2 <= Z.log2 (quot_sticky (mpz (tab a) * 2 ^ j) (mpz (tab b))) + 1 ->
  gives_val (bf_normalize_and_round o (mkBf s (i64 (expn a - expn b + LIMB_BITS)) q) prec flags)
    (round_val s (quot_sticky (mpz (tab a) * 2 ^ j) (mpz (tab b))) ((expn a - 64 * len a) - (expn b - 64 * len b) - j - 1) prec flags).
Proof.
  intros Ha Hb Hla Hlb H1 H2 Hn H3 Hbits Hq Hlq Hmq Hc Hs Hf Hp Hrad j Hj Hjb.
  destruct (wf_cases a Ha) as [(Hx & _)|(_ & _ & Hna & Hea & Hma & _)]; [lia|]. destruct (wf_cases b Hb) as [(Hx & _)|(_ & _ & _ & Heb & Hmb & _)]; [lia|].
  rewrite limb_bits_val, i64_small by lia. set (t := 64 * (n + len b - len a)) in *. pose proof (mpz_range _ (wf_limbs _ Hb)) as Hrb. rewrite bpow2 in Hrb. fold (len b) in Hrb.
  rewrite bpow2 in Hna. fold (len a) in Hna. pose proof (pow2_pos (t - 1) ltac:(lia)) as Htp.
  assert (HY : prec + 2 <= Z.log2 (quot_sticky c (mpz (tab b))) + 1).
  { assert (Hge : 2 ^ (64 * n - 1) <= quot_sticky c (mpz (tab b))).
    { unfold quot_sticky. assert (2 ^ (64 * n - 2) <= c / mpz (tab b)).
      { apply Z.div_le_lower_bound; [lia|]. rewrite Hc. assert (2 ^ (64 * len a - 1) * 2 ^ (t - 1) <= mpz (tab a) * 2 ^ (t - 1)).
        { apply Z.mul_le_mono_nonneg_r; [lia|]. replace (2 ^ (64 * len a)) with (2 * 2 ^ (64 * len a - 1)) in Hna by (rewrite <- Z.pow_succ_r by lia; f_equal; lia). lia. }
        assert (mpz (tab b) * 2 ^ (64 * n - 2) <= 2 ^ (64 * len b) * 2 ^ (64 * n - 2)) by (apply Z.mul_le_mono_nonneg_r; [apply Z.lt_le_incl, pow2_pos|]; lia).
        rewrite <- !Z.pow_add_r in * by lia. replace (64 * len a - 1 + (t - 1)) with (64 * len b + (64 * n - 2)) in * by lia. lia. }
      replace (64 * n - 1) with (Z.succ (64 * n - 2)) by lia. rewrite Z.pow_succ_r by lia. pose proof (b2z_range (negb (c mod mpz (tab b) =? 0))). lia. }
    apply Z.log2_le_mono in Hge. rewrite Z.log2_pow2 in Hge by lia. lia. }
  pose proof (bf_normalize_and_round_spec o (mkBf s (expn a - expn b + 64) q) prec flags) as Hnr. cbn [tab bf_sign expn] in Hnr. unfold len at 1 2 in Hnr. cbn [tab] in Hnr.
  rewrite Hlq, Hmq in Hnr. unfold round_any in Hnr. rewrite (proj2 (Z.eqb_neq _ 0)) in Hnr by (pose proof (log2_two (quot_sticky c (mpz (tab b))) ltac:(lia)); lia).
  replace (expn a - 64 * len a - (expn b - 64 * len b) - j - 1) with (expn a - 64 * len a - (expn b - 64 * len b) - 1 - j) by lia.
  rewrite (quot_round_indep s (mpz (tab a)) (mpz (tab b)) _ j (t - 1)) by (done || lia || by rewrite <- Hc). rewrite <- Hc.
  replace (expn a - 64 * len a - (expn b - 64 * len b) - 1 - (t - 1)) with (expn a - expn b + 64 - 64 * (n + 1)) by lia. apply Hnr; (done || lia).
Qed.

Lemma fin_expn e : - 2 ^ 61 <= e <= 2 ^ 61 -> (BF_EXP_INF <=? e) = false /\ (e =? BF_EXP_NAN) = false /\ (e =? BF_EXP_INF) = false /\ (e =? BF_EXP_ZERO) = false.
Proof.
  intros He. unfold BF_EXP_NAN, BF_EXP_INF, BF_EXP_ZERO, BF_RAW_EXP_MAX, BF_RAW_EXP_MIN. rewrite Z.leb_gt, !Z.eqb_neq. lia.
Qed.

(** The dividend in the temporary array, extended by zeros at the bottom. *)
Lemma fill_dividend t a d l :
  0 <= d -> zlen t = d + zlen a + l -> 0 <= l ->
  exists rest, (t ← zsplice t 0 (replicate (Z.to_nat d) 0); zsplice t d a) = Some (replicate (Z.to_nat d) 0 ++ a ++ rest) /\ zlen rest = l.
Proof.
  intros Hd Ht Hl. set (z := replicate (Z.to_nat d) 0). assert (Hz : zlen z = d) by (unfold z, zlen; rewrite length_replicate; lia).
  rewrite <- (take_drop (length z) t). rewrite zsplice_head by (rewrite length_take; unfold zlen in *; lia). cbn [mbind option_bind].
  set (t2 := drop (length z) t). assert (Ht2 : zlen t2 = zlen a + l) by (unfold t2; rewrite zlen_drop; unfold zlen in *; lia).
  rewrite <- (take_drop (length a) t2). exists (drop (length a) t2). rewrite zsplice_part by (done || (rewrite length_take; unfold zlen in *; lia)).
  split; [done|]. rewrite zlen_drop. unfold zlen in *. lia.
Qed.

Lemma mpz_shifted d a : mpz (replicate d 0 ++ a) = mpz a * 2 ^ (64 * Z.of_nat d).
Proof. rewrite mpz_app, mpz_zeros, bpow2. unfold zlen. rewrite length_replicate. lia. Qed.

Lemma div_fin o r a b prec flags :
  bf_wf a -> bf_wf b -> 1 <= len a -> 1 <= len b -> 64 * len a <= 2 ^ 59 -> 64 * len b <= 2 ^ 59 ->
  flags_ok prec flags -> 1 <= prec <= 2 ^ 59 -> has_flag flags BF_FLAG_RADPNT_PREC = false ->
  forall j, 0 <= j -> div_enough j (bf_val a) (bf_val b) prec ->
  gives_val (__bf_div o r a b prec flags) (div_val j (bf_val a) (bf_val b) prec flags).
Proof.
  intros Ha Hb Hla Hlb H1 H2 Hf Hp Hrad j Hj Hen. unfold __bf_div. pose proof (xor_sign _ _ (wf_sign _ Ha) (wf_sign _ Hb)) as Hs.
  destruct (wf_cases a Ha) as [(Hx & _)|(_ & Hnea & Hna & Hea & Hma & Hva)]; [lia|]. destruct (wf_cases b Hb) as [(Hx & _)|(_ & Hneb & Hnb & Heb & Hmb & Hvb)]; [lia|].
  rewrite Hva, Hvb in *. cbn [div_val div_enough] in *. destruct (fin_expn _ Hea) as (-> & _ & _ & ->). destruct (fin_expn _ Heb) as (-> & _ & _ & ->). cbn [orb].
  rewrite limb_bits_val. set (precl := (prec + 2 + 64 - 1) / 64). assert (Hpl : prec + 2 <= 64 * precl <= prec + 65) by (unfold precl; zdm). clearbody precl.
  set (n := bf_max (len a) precl). assert (Hn : len a <= n /\ prec + 2 <= 64 * n /\ 64 * n <= 2 ^ 59 + 192) by (unfold n, bf_max; case_match; bool_props; lia). clearbody n.
  destruct (bf_malloc_spec o (n + len b + 1)) as [(o1 & t & -> & Ht)|(o1 & -> & Href)]; [lia| |apply bf_mem_error_spec; by left].
  assert (Hd0 : 0 <= n + len b - len a) by lia.
  destruct (fill_dividend t (tab a) (n + len b - len a) 1 Hd0) as (rest & Hfill & Hrest); [unfold len in *; lia|lia|].
  destruct (zsplice t 0 (replicate (Z.to_nat (n + len b - len a)) 0)) as [t'|]; [|done]. cbn [mbind option_bind] in *. rewrite Hfill. cbn [mbind option_bind].
  set (d := Z.to_nat (n + len b - len a)) in *. assert (Hdz : Z.of_nat d = n + len b - len a) by lia.
  destruct (bf_resize_spec o1 r (n + 1) ltac:(lia)) as [(o2 & t2 & -> & Hl2 & _)|(o2 & -> & _ & Href)]; [|apply bf_mem_error_spec; by right].
  cbn [Z.eqb negb with_tab tab]. rewrite (app_assoc _ (tab a) rest).
  assert (Hln : length (replicate d 0 ++ tab a) = Z.to_nat (n + len b)) by (rewrite length_app, length_replicate; unfold len, zlen in *; lia).
  rewrite zslice_head by (unfold zlen; rewrite Hln; lia). cbn [mbind option_bind].
  destruct (norm_of_value (tab b) (wf_limbs _ Hb) Hneb Hnb) as (bl & b1 & Hnd).
  destruct (mp_divnorm_spec o2 t2 (replicate d 0 ++ tab a) (tab b) bl b1 Hnd) as (o3 & res & -> & Hres);
    [apply Forall_app_2; [apply limbs_zeros|apply Ha]|unfold len, zlen in *; lia|rewrite Hln; unfold len, zlen in *; lia|].
  cbn [mbind option_bind]. destruct res as [[q tn]|]; [|apply bf_mem_error_spec; by left]. destruct Hres as [Dq Dl Da Dr Dv Dlt].
  set (rem := take (length (tab b)) tn) in *. assert (Hrem : zslice tn 0 (len b) = Some rem).
  { rewrite <- (take_drop (length (tab b)) tn). apply zslice_head. unfold rem. rewrite zlen_take. unfold len, zlen in *. lia. }
  rewrite Hrem. cbn [mbind option_bind]. rewrite mpz_shifted, Hdz in Dv. pose proof (mpz_range rem Dr) as Hrr.
  set (c := mpz (tab a) * 2 ^ (64 * (n + len b - len a) - 1)). assert (H2c : mpz (tab a) * 2 ^ (64 * (n + len b - len a)) = 2 * c).
  { unfold c. replace (2 ^ (64 * (n + len b - len a))) with (2 * 2 ^ (64 * (n + len b - len a) - 1)) by (rewrite <- Z.pow_succ_r by lia; f_equal; lia). ring. }
  rewrite H2c in Dv. destruct (set_sticky q (mp_scan_nz rem) Dq) as (q' & -> & Hq' & Hlq' & Hmq'); [intros ->; simpl in Dl; unfold zlen in *; lia|by apply nz_range|].
  cbn [mbind option_bind].
  assert (Hc0 : 0 <= c) by (unfold c; apply Z.mul_nonneg_nonneg; [lia|apply Z.lt_le_incl, pow2_pos; lia]).
  assert (Hst : mpz q' = quot_sticky c (mpz (tab b))).
  { rewrite Hmq'. apply sticky_set; [lia|done|apply (Z.div_unique_pos _ _ _ (mpz rem)); lia|].
    rewrite mp_scan_nz_spec by done. rewrite <- (Z.mod_unique_pos (2 * c) (mpz (tab b)) (mpz q) (mpz rem)) by lia. done. }
  pose proof (div_round (bf_free o3 (Some t)) (bf_sign a .^ bf_sign b) a b q' prec flags n c) as Hdr. rewrite limb_bits_val in Hdr.
  apply Hdr; (done || lia || (unfold zlen in *; lia)).
Qed.

Lemma __bf_div_spec o r a b prec flags :
  bf_wf a -> bf_wf b -> 64 * len a <= 2 ^ 59 -> 64 * len b <= 2 ^ 59 -> flags_ok prec flags -> 1 <= prec <= 2 ^ 59 -> has_flag flags BF_FLAG_RADPNT_PREC = false ->
  forall j, 0 <= j -> div_enough j (bf_val a) (bf_val b) prec ->
  gives_val (__bf_div o r a b prec flags) (div_val j (bf_val a) (bf_val b) prec flags).
Proof.
  intros Ha Hb H1 H2 Hf Hp Hrad j Hj Hen.
  destruct (wf_cases a Ha) as [(_ & _ & Hva)|(Hla & _ & _ & Hea & _ & Hva)]; destruct (wf_cases b Hb) as [(_ & _ & Hvb)|(Hlb & _ & _ & Heb & _ & Hvb)];
    [| | |by apply div_fin].
  all: clear Hen; unfold __bf_div; pose proof (xor_sign _ _ (wf_sign _ Ha) (wf_sign _ Hb)) as Hs.
  - destruct Hva as [(-> & ->)|[(-> & ->)|(-> & ->)]]; destruct Hvb as [(-> & ->)|[(-> & ->)|(-> & ->)]]; cbn [div_val];
      (apply gives_nan || by apply gives_inf || by apply gives_zero).
  - destruct (fin_expn _ Heb) as (-> & -> & -> & ->). rewrite Hvb. destruct Hva as [(-> & ->)|[(-> & ->)|(-> & ->)]]; cbn [div_val];
      (apply gives_nan || by apply gives_inf || by apply gives_zero).
  - destruct (fin_expn _ Hea) as (-> & -> & -> & ->). rewrite Hva. destruct Hvb as [(-> & ->)|[(-> & ->)|(-> & ->)]]; cbn [div_val];
      (apply gives_nan || by apply gives_inf || by apply gives_zero).
Qed.

(** ** Square root *)

(** An integer square root with a sticky bit. *)
Definition root_sticky (N : Z) : Z := 2 * Z.sqrt N + b2z (negb (Z.sqrt N * Z.sqrt N =? N)).

Lemma root_sticky_parts N : root_sticky N / 2 = Z.sqrt N /\ (root_sticky N mod 2 = 0 <-> Z.sqrt N * Z.sqrt N = N).
Proof. unfold root_sticky. destruct (Z.eqb_spec (Z.sqrt N * Z.sqrt N) N); cbn [negb b2z]; split; [zdm|zdm|zdm|split; [zdm|done]]. Qed.

Lemma sqrt_square_id x : 0 <= x -> Z.sqrt (x * x) = x.
Proof. apply Z.sqrt_square. Qed.

(** The root that [bf_sqrt] computes from the bits of the mantissa at or above [2 ^ g],
    and whether anything was lost. *)
Lemma root_cut N s rm low i :
  0 <= s -> 0 <= rm <= 2 * s -> 0 <= i -> 0 <= low < 2 ^ (2 * i) -> N = (s * s + rm) * 2 ^ (2 * i) + low ->
  Z.sqrt N / 2 ^ i = s /\ ((rm = 0 /\ low = 0) <-> (Z.sqrt N * Z.sqrt N = N /\ Z.sqrt N mod 2 ^ i = 0)).
Proof.
  intros Hs Hrm Hi Hlow HN. assert (HP : 2 ^ (2 * i) = 2 ^ i * 2 ^ i) by (rewrite <- Z.pow_add_r by lia; f_equal; lia). rewrite HP in *. pose proof (pow2_pos i Hi) as Hp. set (P := 2 ^ i) in *. clearbody P. clear HP.
  assert (HPP : 0 < P * P) by (apply Z.mul_pos_pos; lia). assert (Hss : 0 <= s * s * (P * P)) by (apply Z.mul_nonneg_nonneg; [apply Z.mul_nonneg_nonneg|]; lia).
  assert (Hrp : 0 <= rm * (P * P)) by (apply Z.mul_nonneg_nonneg; lia). assert (HN0 : 0 <= N) by lia.
  assert (Hlo : s * P <= Z.sqrt N).
  { apply Z.sqrt_le_square; [done|apply Z.mul_nonneg_nonneg; lia|]. replace (s * P * (s * P)) with (s * s * (P * P)) by ring. lia. }
  assert (Hhi : Z.sqrt N < (s + 1) * P).
  { apply Z.sqrt_lt_square; [done|apply Z.mul_nonneg_nonneg; lia|]. replace ((s + 1) * P * ((s + 1) * P)) with (s * s * (P * P) + (2 * s + 1) * (P * P)) by ring.
    assert (rm * (P * P) <= 2 * s * (P * P)) by (apply Z.mul_le_mono_nonneg_r; lia). lia. }
  assert (Hdiv : Z.sqrt N / P = s) by (symmetry; apply (Z.div_unique_pos _ _ _ (Z.sqrt N - s * P)); lia). split; [done|]. split.
  - intros [-> ->]. assert (HNs : N = s * P * (s * P)) by lia. rewrite HNs, sqrt_square_id by (apply Z.mul_nonneg_nonneg; lia). split; [done|]. apply Z.mod_mul. lia.
  - intros [Hsq Hmod]. pose proof (Z.div_mod (Z.sqrt N) P ltac:(lia)) as Hd. rewrite Hdiv, Hmod in Hd. rewrite Hd in Hsq.
    replace ((P * s + 0) * (P * s + 0)) with (s * s * (P * P)) in Hsq by ring. assert (rm * (P * P) + low = 0) by lia. assert (rm * (P * P) = 0) by lia. split; [nia|lia].
Qed.

(** The sticky form of the computed root and the root of the number extended. *)
Lemma root_cut_sticky N s rm low i S :
  0 <= s -> 0 <= rm <= 2 * s -> 0 <= i -> 0 <= low < 2 ^ (2 * i) -> N = (s * s + rm) * 2 ^ (2 * i) + low ->
  S = b2z (negb ((rm =? 0) && (low =? 0))) -> sticky_of (s .| S) (root_sticky N) (i + 1).
Proof.
  intros Hs Hrm Hi Hlow HN HS. destruct (root_cut N s rm low i Hs Hrm Hi Hlow HN) as [H1 H2]. destruct (root_sticky_parts N) as [H3 H4].
  pose proof (pow2_pos i Hi) as Hp. assert (E : 2 ^ (i + 1 + 1) = 2 * (2 ^ i * 2)) by (rewrite !Z.pow_add_r by lia; change (2 ^ 1) with 2; ring). unfold sticky_of. rewrite E.
  rewrite <- Z.div_div, H3, <- Z.div_div, H1 by lia.
  assert (Hor : (s .| S) / 2 = s / 2 /\ ((s .| S) mod 2 = 0 <-> s mod 2 = 0 /\ rm = 0 /\ low = 0)).
  { rewrite HS. destruct (Z.eqb_spec rm 0), (Z.eqb_spec low 0); cbn [negb andb b2z]; rewrite ?Z.lor_0_r, ?or_one; split; try lia; zdm. }
  destruct Hor as [-> Hor]. split; [done|]. rewrite Hor. rewrite Z.rem_mul_r, H3, Z.rem_mul_r, H1 by lia.
  pose proof (Z.mod_pos_bound (root_sticky N) 2 ltac:(lia)). pose proof (Z.mod_pos_bound (Z.sqrt N) (2 ^ i) Hp). pose proof (Z.mod_pos_bound s 2 ltac:(lia)).
  assert (Hx : 0 <= 2 ^ i * (s mod 2)) by (apply Z.mul_nonneg_nonneg; lia). split.
  - intros (Ha & Hb). apply H2 in Hb as [Hb1 Hb2]. rewrite Ha, Hb2, (proj2 H4 Hb1). lia.
  - intros Hz. assert (Hr0 : root_sticky N mod 2 = 0) by lia. assert (Hs0 : Z.sqrt N mod 2 ^ i = 0) by lia. assert (2 ^ i * (s mod 2) = 0) by lia.
    split; [nia|]. apply H2. split; [by apply H4|done].
Qed.

Lemma root_sticky_scale N j : 0 <= N -> 0 <= j -> sticky_of (root_sticky N) (root_sticky (N * 2 ^ (2 * j))) j.
Proof.
  intros HN Hj. destruct (root_sticky_parts N) as [H1 H2]. destruct (root_sticky_parts (N * 2 ^ (2 * j))) as [H3 H4]. pose proof (Z.sqrt_spec N HN) as [Hlo Hhi].
  pose proof (Z.sqrt_nonneg N) as Hs0. pose proof (pow2_pos (2 * j) ltac:(lia)) as Hp2.
  destruct (root_cut (N * 2 ^ (2 * j)) (Z.sqrt N) (N - Z.sqrt N * Z.sqrt N) 0 j) as [H5 H6]; [done|unfold Z.succ in *; lia|done|lia|lia|].
  pose proof (pow2_pos j Hj) as Hp. assert (E : 2 ^ (j + 1) = 2 * 2 ^ j) by (rewrite Z.pow_add_r by lia; change (2 ^ 1) with 2; ring). unfold sticky_of. rewrite E, <- Z.div_div, H3, H1, H5 by lia.
  split; [done|]. rewrite H2, Z.rem_mul_r, H3 by lia. pose proof (Z.mod_pos_bound (root_sticky (N * 2 ^ (2 * j))) 2 ltac:(lia)). pose proof (Z.mod_pos_bound (Z.sqrt (N * 2 ^ (2 * j))) (2 ^ j) Hp). split.
  - intros Hsq. destruct (proj1 H6) as [Ha Hb]; [split; [lia|done]|]. rewrite Hb, (proj2 H4 Ha). lia.
  - intros Hz. destruct (proj2 H6); [|lia]. split; [apply H4; lia|lia].
Qed.

Lemma root_round_indep s m e d j1 j2 prec flags :
  0 < m -> 0 <= d -> 0 <= j1 -> 0 <= j2 -> 1 <= prec -> has_flag flags BF_FLAG_RADPNT_PREC = false ->
  prec + 2 <= Z.log2 (root_sticky (m * 2 ^ (2 * j1 + d))) + 1 -> prec + 2 <= Z.log2 (root_sticky (m * 2 ^ (2 * j2 + d))) + 1 ->
  round_val s (root_sticky (m * 2 ^ (2 * j1 + d))) (e - j1) prec flags = round_val s (root_sticky (m * 2 ^ (2 * j2 + d))) (e - j2) prec flags.
Proof.
  intros Hm Hd. revert j1 j2.
  assert (Hle : forall j1 j2, 0 <= j1 <= j2 -> 1 <= prec -> has_flag flags BF_FLAG_RADPNT_PREC = false -> prec + 2 <= Z.log2 (root_sticky (m * 2 ^ (2 * j1 + d))) + 1 ->
    round_val s (root_sticky (m * 2 ^ (2 * j1 + d))) (e - j1) prec flags = round_val s (root_sticky (m * 2 ^ (2 * j2 + d))) (e - j2) prec flags).
  { intros j1 j2 Hj Hp Hr Hb. pose proof (root_sticky_scale (m * 2 ^ (2 * j1 + d)) (j2 - j1)) as Hst.
    replace (m * 2 ^ (2 * j1 + d) * 2 ^ (2 * (j2 - j1))) with (m * 2 ^ (2 * j2 + d)) in Hst by (rewrite <- Z.mul_assoc, <- Z.pow_add_r by lia; do 2 f_equal; lia).
    rewrite (round_sticky s _ _ (e - j1) (j2 - j1) prec flags Hr ltac:(lia) (log2_two (root_sticky (m * 2 ^ (2 * j1 + d))) ltac:(lia)) Hb
      (Hst ltac:(apply Z.mul_nonneg_nonneg; [lia|apply Z.lt_le_incl, pow2_pos; lia]) ltac:(lia))). f_equal. lia. }
  intros j1 j2 H1 H2 Hp Hr Hb1 Hb2. destruct (Z.le_gt_cases j1 j2); [apply Hle; (done || lia)|symmetry; apply Hle; (done || lia)].
Qed.

(** The root of a value rounded, with [2 j] more bits of the operand. *)
Definition sqrt_val (j : Z) (v : bfval) (prec flags : Z) : bfval * Z :=
  match v with
  | VNan => (VNan, 0)
  | VZero s => (VZero s, 0)
  | VInf s => if s =? 0 then (VInf s, 0) else (VNan, BF_ST_INVALID_OP)
  | VFin s m e => if s =? 0 then round_val 0 (root_sticky (m * 2 ^ (2 * j + e mod 2))) (e / 2 - j - 1) prec flags else (VNan, BF_ST_INVALID_OP)
  end.

Definition sqrt_enough (j : Z) (v : bfval) (prec : Z) : Prop :=
  match v with VFin s m e => prec + 2 <= Z.log2 (root_sticky (m * 2 ^ (2 * j + e mod 2))) + 1 | _ => True end.

(** The mantissa extended is the shifted operand of [mp_sqrtrem] and what was left out. *)
Lemma sqrt_operand M rest high la n n1 d T T' b i j :
  0 <= d <= 1 -> 1 <= n -> 1 <= n1 <= la -> n1 <= 2 * n -> (n1 = la \/ n1 = 2 * n) -> M = rest + high * 2 ^ (64 * (la - n1)) -> 0 <= rest < 2 ^ (64 * (la - n1)) ->
  T = high * 2 ^ (64 * (2 * n - n1)) -> T = 2 ^ d * T' + b -> 0 <= b < 2 ^ d ->
  i = j + d - 32 * (2 * n - la) -> 0 <= i -> 32 * (la - 2 * n) <= i -> 0 <= j ->
  exists low, M * 2 ^ (2 * j + d) = T' * 2 ^ (2 * i) + low /\ 0 <= low < 2 ^ (2 * i) /\ (low = 0 <-> b = 0 /\ rest = 0).
Proof.
  intros Hd Hn Hn1 Hn2 Hcase HM Hrest HT HT' Hb Hi Hi0 Hi1 Hj. set (x := 2 * i + 64 * (2 * n - la)). assert (Hx : 0 <= x) by lia.
  pose proof (pow2_pos x Hx) as Hxp. pose proof (pow2_pos (2 * i) ltac:(lia)) as Hip. pose proof (pow2_pos d ltac:(lia)) as Hdp.
  assert (Hrho : M * 2 ^ x = T * 2 ^ (2 * i) + rest * 2 ^ x).
  { rewrite HM, HT, Z.mul_add_distr_r, <- !Z.mul_assoc, <- !Z.pow_add_r by lia. replace (64 * (la - n1) + x) with (64 * (2 * n - n1) + 2 * i) by lia. lia. }
  assert (Hrl : 0 <= rest * 2 ^ x < 2 ^ (2 * i)).
  { split; [apply Z.mul_nonneg_nonneg; lia|]. destruct Hcase as [->| ->].
    - rewrite Z.sub_diag in Hrest. change (2 ^ (64 * 0)) with 1 in Hrest. assert (rest = 0) as -> by lia. lia.
    - assert (rest * 2 ^ x < 2 ^ (64 * (la - 2 * n)) * 2 ^ x) by (apply Z.mul_lt_mono_pos_r; lia). rewrite <- Z.pow_add_r in * by lia.
      replace (64 * (la - 2 * n) + x) with (2 * i) in * by lia. done. }
  assert (HN : M * 2 ^ (2 * j + d) * 2 ^ d = T' * 2 ^ (2 * i) * 2 ^ d + (b * 2 ^ (2 * i) + rest * 2 ^ x)).
  { rewrite <- Z.mul_assoc, <- Z.pow_add_r by lia. replace (2 * j + d + d) with x by lia. rewrite Hrho, HT'. ring. }
  exists (M * 2 ^ (2 * j + d) - T' * 2 ^ (2 * i)). set (low := M * 2 ^ (2 * j + d) - T' * 2 ^ (2 * i)).
  assert (Hl : low * 2 ^ d = b * 2 ^ (2 * i) + rest * 2 ^ x) by (unfold low; lia). split; [unfold low; lia|].
  assert (Hbp : 0 <= b * 2 ^ (2 * i)) by (apply Z.mul_nonneg_nonneg; lia).
  assert (Hbl : b * 2 ^ (2 * i) + 2 ^ (2 * i) <= 2 ^ d * 2 ^ (2 * i)) by (assert ((b + 1) * 2 ^ (2 * i) <= 2 ^ d * 2 ^ (2 * i)) by (apply Z.mul_le_mono_nonneg_r; lia); lia).
  clearbody low. clear HN Hrho HM HT HT'. split; [|split].
  - split; [nia|]. apply (Z.mul_lt_mono_pos_r (2 ^ d)); [done|]. lia.
  - intros ->. assert (b * 2 ^ (2 * i) = 0) by lia. assert (rest * 2 ^ x = 0) by lia. split; nia.
  - intros [-> ->]. rewrite !Z.mul_0_l in Hl. nia.
Qed.

(** The final rounding of [bf_sqrt]. *)
Lemma sqrt_round o s' e n prec flags W i :
  limbs s' -> zlen s' = n -> 1 <= n -> 64 * n <= 2 ^ 60 -> bpow s' <= 2 * mpz s' -> - 2 ^ 62 <= e <= 2 ^ 62 -> flags_ok prec flags -> 1 <= prec -> prec + 2 <= 64 * n ->
  has_flag flags BF_FLAG_RADPNT_PREC = false -> 0 <= i -> sticky_of (mpz s') W i ->
  gives_val (bf_round o (mkBf 0 e s') prec flags) (round_val 0 W (e - 64 * n - i) prec flags).
Proof.
  intros Hs Hl Hn H60 Hb He Hf Hp Hbits Hrad Hi Hst. unfold bf_round, len. cbn [tab]. rewrite Hl, (proj2 (Z.eqb_neq n 0)) by lia.
  destruct (norm_log2 s' Hs) as [_ Hlog]; [intros ->; unfold zlen in Hl; simpl in Hl; lia|done|].
  rewrite <- (round_sticky 0 (mpz s') W (e - 64 * n) i prec flags Hrad Hi) by (done || lia || (apply log2_two; lia)).
  pose proof (__bf_round_spec o (mkBf 0 e s') s' [] n prec flags) as Hr. cbn [tab bf_sign expn] in Hr. apply Hr; (done || lia || (by rewrite app_nil_r) || constructor).
Qed.

Lemma land_odd x : x .& 1 = x mod 2.
Proof. change 1 with (Z.ones 1). by rewrite Z.land_ones. Qed.

(** The shift for an odd exponent. *)
Lemma sqrt_shift t d :
  limbs t -> d = 0 \/ d = 1 -> t <> [] ->
  exists t' b, (if negb (d =? 0) then mp_shr t 1 0 else Some (t, 0)) = Some (t', b) /\ limbs t' /\ length t' = length t /\ mpz t = 2 ^ d * mpz t' + b /\ 0 <= b < 2 ^ d.
Proof.
  intros Ht [->| ->] Hne; cbn [Z.eqb negb].
  - exists t, 0. change (2 ^ 0) with 1. split; [done|]. split; [done|]. split; [done|]. lia.
  - destruct (mp_shr_spec t 1 0 Ht) as (t' & b & -> & Hl & Ht' & Hv & Hb); [lia|lia|]. exists t', b. change (2 ^ 1) with 2 in *. split; [done|]. split; [done|]. split; [done|]. lia.
Qed.

Lemma sqrt_nonzero (res x y : Z) :
  0 <= x -> 0 <= y -> (let r := if res =? 0 then x else res in if r =? 0 then y else r) = 0 <-> res = 0 /\ x = 0 /\ y = 0.
Proof. cbv zeta. destruct (Z.eqb_spec res 0); [destruct (Z.eqb_spec x 0)|rewrite (proj2 (Z.eqb_neq res 0)) by done]; lia. Qed.

(** The operand of [mp_sqrtrem] is normalized. *)
Lemma sqrt_top M rest high la n n1 d T T' b :
  0 <= d <= 1 -> 1 <= n1 <= la -> n1 <= 2 * n -> 2 ^ (64 * la) <= 2 * M -> M = rest + high * 2 ^ (64 * (la - n1)) -> 0 <= rest < 2 ^ (64 * (la - n1)) ->
  T = high * 2 ^ (64 * (2 * n - n1)) -> T = 2 ^ d * T' + b -> 0 <= b < 2 ^ d -> 2 ^ (128 * n) <= 4 * T'.
Proof.
  intros Hd Hn1 Hn Hna HM Hrr HT Hv3 Hb. assert (Hh : 2 ^ (64 * n1) <= 2 * high).
  { assert (Hlt : 2 ^ (64 * n1) * 2 ^ (64 * (la - n1)) < (2 * high + 2) * 2 ^ (64 * (la - n1))) by (rewrite <- Z.pow_add_r by lia; replace (64 * n1 + 64 * (la - n1)) with (64 * la) by lia; lia).
    apply Z.mul_lt_mono_pos_r in Hlt; [|apply pow2_pos; lia]. replace (2 ^ (64 * n1)) with (2 * 2 ^ (64 * n1 - 1)) in * by (rewrite <- Z.pow_succ_r by lia; f_equal; lia). lia. }
  assert (H2T : 2 ^ (128 * n) <= 2 * T).
  { rewrite HT. replace (128 * n) with (64 * n1 + 64 * (2 * n - n1)) by lia. rewrite Z.pow_add_r, Z.mul_assoc by lia. apply Z.mul_le_mono_nonneg_r; [apply Z.lt_le_incl, pow2_pos; lia|done]. }
  replace (2 ^ (128 * n)) with (4 * 2 ^ (128 * n - 2)) in * by (change 4 with (2 ^ 2); rewrite <- Z.pow_add_r by lia; f_equal; lia).
  assert (d = 0 \/ d = 1) as [Hd0|Hd0] by lia; rewrite Hd0 in *; [change (2 ^ 0) with 1 in *|change (2 ^ 1) with 2 in *]; lia.
Qed.

(** The root found, its sticky bit and the rounding. *)
Lemma sqrt_finish o M ea la prec flags n n1 d rest high t3 b s rm res j :
  0 < M -> - 2 ^ 61 <= ea <= 2 ^ 61 -> d = ea mod 2 -> 1 <= n1 <= la -> n1 <= 2 * n -> (n1 = la \/ n1 = 2 * n) -> M = rest + high * 2 ^ (64 * (la - n1)) -> 0 <= rest < 2 ^ (64 * (la - n1)) ->
  high * 2 ^ (64 * (2 * n - n1)) = 2 ^ d * t3 + b -> 0 <= b < 2 ^ d -> 2 ^ (128 * n) <= 4 * t3 -> 1 <= n -> prec + 2 <= 64 * n <= prec + 66 -> 1 <= prec <= 2 ^ 59 ->
  limbs s -> zlen s = n -> is_root t3 (mpz s) rm -> (res = 0 <-> b = 0 /\ rm = 0 /\ rest = 0) ->
  flags_ok prec flags -> has_flag flags BF_FLAG_RADPNT_PREC = false -> 0 <= j -> prec + 2 <= Z.log2 (root_sticky (M * 2 ^ (2 * j + d))) + 1 ->
  gives_val (s ← (if negb (res =? 0) then v ← zget s 0; zset s 0 (v .| 1) else Some s); bf_round o (mkBf 0 (i64 (ea + 1) ≫ 1) s) prec flags)
    (round_val 0 (root_sticky (M * 2 ^ (2 * j + d))) (ea / 2 - 32 * la - j - 1) prec flags).
Proof.
  intros Hma Hea Hdd Hn1 Hn2 Hn3 HM Hrr HT Hb Hbig Hn Hp2 Hp Hs Hls Hroot Hres0 Hf Hrad Hj Hen. pose proof Hroot as (Hr1 & Hr2 & Hr3). assert (Hd : 0 <= d <= 1) by (rewrite Hdd; clear; zdm).
  assert (Hed : (ea + 1) / 2 = ea / 2 + d) by (rewrite Hdd; clear; zdm). assert (Her : - 2 ^ 62 <= (ea + 1) / 2 <= 2 ^ 62) by (clear - Hea; zdm). clear Hdd.
  assert (Hss : 2 ^ (64 * n - 1) <= mpz s).
  { apply (is_root_lower t3 (mpz s) rm); [done|apply Z.lt_le_incl, pow2_pos; lia|]. rewrite <- Z.pow_add_r by lia.
    replace (2 ^ (128 * n)) with (4 * 2 ^ (64 * n - 1 + (64 * n - 1))) in Hbig by (change 4 with (2 ^ 2); rewrite <- Z.pow_add_r by lia; f_equal; lia). lia. }
  set (S0 := b2z (negb (res =? 0))).
  assert (Hset : exists s', (if negb (res =? 0) then v ← zget s 0; zset s 0 (v .| 1) else Some s) = Some s' /\ limbs s' /\ length s' = length s /\ mpz s' = mpz s .| S0).
  { destruct (set_sticky s S0 Hs) as (s' & He & Hok); [intros ->; unfold zlen in *; simpl in Hls; lia|apply b2z_range|]. exists s'. split; [|done]. rewrite <- He. unfold S0. by destruct (res =? 0). }
  destruct Hset as (s' & -> & Hs' & Hls' & Hms'). cbn [mbind option_bind].
  set (J := 64 * la + 128 * n). set (i := J + d - 32 * (2 * n - la)).
  destruct (sqrt_operand M rest high la n n1 d (high * 2 ^ (64 * (2 * n - n1))) t3 b i J) as (low & HN & Hlow & Hlow0); [done|lia|lia|lia|lia|done|done|done|done|done|done|lia|lia|lia|].
  rewrite <- Hr1 in HN.
  assert (Hst : sticky_of (mpz s') (root_sticky (M * 2 ^ (2 * J + d))) (i + 1)).
  { rewrite Hms'. apply (root_cut_sticky _ (mpz s) rm low i); [done|done|lia|done|done|]. unfold S0. do 2 f_equal. apply eq_iff_eq_true. rewrite andb_true_iff, !Z.eqb_eq. intuition. }
  assert (Hor : mpz s <= mpz s .| S0) by (unfold S0; destruct (res =? 0); cbn [negb b2z]; [rewrite Z.lor_0_r; lia|rewrite or_one; zdm]).
  assert (Hb' : bpow s' <= 2 * mpz s').
  { rewrite bpow2. replace (64 * zlen s') with (Z.succ (64 * n - 1)) by (unfold zlen in *; lia). rewrite Z.pow_succ_r by lia. lia. }
  rewrite i64_small by lia. rewrite (shiftr_div (ea + 1) 1) by lia. change (2 ^ 1) with 2.
  assert (Hlz : zlen s' = n) by (unfold zlen in *; lia).
  pose proof (sqrt_round o s' ((ea + 1) / 2) n prec flags _ (i + 1) Hs' Hlz ltac:(lia) ltac:(lia) Hb' Her Hf ltac:(lia) ltac:(lia) Hrad ltac:(lia) Hst) as Hround.
  replace (ea / 2 - 32 * la - j - 1) with (ea / 2 - 32 * la - 1 - j) by lia.
  rewrite (root_round_indep 0 M _ d j J); [|done|lia|done|lia|lia|done|done|].
  - replace (ea / 2 - 32 * la - 1 - J) with ((ea + 1) / 2 - 64 * n - (i + 1)) by lia. exact Hround.
  - destruct (sticky_log2 (mpz s') _ (i + 1) ltac:(lia) ltac:(assert (2 ^ 1 <= 2 ^ (64 * n - 1)) by (apply Z.pow_le_mono_r; lia); lia) Hst) as [-> _].
    assert (Hlg : 64 * n - 1 <= Z.log2 (mpz s')) by (rewrite <- (Z.log2_pow2 (64 * n - 1)) by lia; apply Z.log2_le_mono; lia). lia.
Qed.

Lemma sqrt_fin o stack r a prec flags :
  bf_wf a -> 1 <= len a -> bf_sign a = 0 -> 64 * len a <= 2 ^ 59 -> flags_ok prec flags -> 1 <= prec <= 2 ^ 59 -> has_flag flags BF_FLAG_RADPNT_PREC = false ->
  forall j, 0 <= j -> sqrt_enough j (bf_val a) prec -> gives_val (bf_sqrt o stack r a prec flags) (sqrt_val j (bf_val a) prec flags).
Proof.
  intros Ha Hla Hsg H59 Hf Hp Hrad j Hj Hen. unfold bf_sqrt. destruct (wf_cases a Ha) as [(Hx & _)|(_ & Hnea & Hna & Hea & Hma & Hva)]; [lia|].
  rewrite Hva in *. cbn [sqrt_val sqrt_enough] in *. rewrite Hsg in *. cbn [Z.eqb negb]. rewrite (proj2 (Z.eqb_neq (len a) 0)), limb_bits_val, land_odd by lia.
  change (2 * 64) with 128. set (n := (2 * (prec + 2) + 128 - 1) / 128). assert (Hn : prec + 2 <= 64 * n <= prec + 66) by (unfold n; zdm). clearbody n.
  assert (Hmod : (expn a - 64 * len a) mod 2 = expn a mod 2) by zdm. assert (Hdiv : (expn a - 64 * len a) / 2 = expn a / 2 - 32 * len a) by zdm. rewrite Hmod, Hdiv in *. clear Hmod Hdiv.
  destruct (bf_resize_spec o r n ltac:(lia)) as [(o1 & tr & -> & Hltr & _)|(o1 & -> & _ & Href)]; [|apply bf_mem_error_spec; by right]. cbn [Z.eqb negb with_tab tab].
  destruct (bf_malloc_spec o1 (2 * n)) as [(o2 & t & -> & Ht)|(o2 & -> & Href)]; [lia| |apply bf_mem_error_spec; by left].
  set (n1 := bf_min (2 * n) (len a)). assert (Hn1 : 1 <= n1 <= len a /\ n1 <= 2 * n /\ (n1 = len a \/ n1 = 2 * n)) by (unfold n1, bf_min; case_match; bool_props; lia). clearbody n1.
  set (rest := take (Z.to_nat (len a - n1)) (tab a)). set (high := drop (Z.to_nat (len a - n1)) (tab a)).
  assert (Hsplit : tab a = rest ++ high) by (symmetry; apply take_drop).
  assert (Hlr : zlen rest = len a - n1) by (unfold rest; rewrite zlen_take; unfold len in *; lia). assert (Hlh : zlen high = n1) by (unfold high; rewrite zlen_drop; unfold len in *; lia).
  pose proof (wf_limbs _ Ha) as Hlim. rewrite Hsplit in Hlim. apply Forall_app in Hlim as [Hrl Hhl].
  destruct (fill_dividend t high (2 * n - n1) 0) as (fill & Hfill & Hlf); [lia|lia|lia|]. assert (fill = []) as -> by (destruct fill; [done|unfold zlen in Hlf; simpl in Hlf; lia]).
  destruct (zsplice t 0 (replicate (Z.to_nat (2 * n - n1)) 0)) as [t1|]; [|done]. cbn [mbind option_bind] in *.
  rewrite Hsplit at 1. rewrite (zslice_end rest high) by lia. cbn [mbind option_bind]. rewrite Hfill, app_nil_r. cbn [mbind option_bind]. clear t1 Hfill.
  set (t2 := replicate (Z.to_nat (2 * n - n1)) 0 ++ high). assert (Hl2 : length t2 = (Z.to_nat n + Z.to_nat n)%nat) by (unfold t2; rewrite length_app, length_replicate; unfold zlen in *; lia).
  assert (Ht2 : limbs t2) by (apply Forall_app_2; [apply limbs_zeros|done]).
  assert (HT : mpz t2 = mpz high * 2 ^ (64 * (2 * n - n1))) by (unfold t2; rewrite mpz_shifted; do 2 f_equal; lia).
  assert (HM : mpz (tab a) = mpz rest + mpz high * 2 ^ (64 * (len a - n1))) by (rewrite Hsplit, mpz_app, bpow2, Hlr; ring).
  pose proof (mpz_range rest Hrl) as Hrr. rewrite bpow2, Hlr in Hrr. pose proof (mpz_range high Hhl) as Hrh.
  destruct (sqrt_shift t2 (expn a mod 2) Ht2) as (t3 & b & Hshr & Ht3 & Hl3 & Hv3 & Hb); [zdm|intros Hnil; rewrite Hnil in Hl2; simpl in Hl2; lia|].
  rewrite Hshr. cbn [mbind option_bind]. set (d := expn a mod 2) in *. assert (Hd : 0 <= d <= 1) by (unfold d; zdm).
  assert (Hbig : 2 ^ (128 * n) <= 4 * mpz t3).
  { rewrite bpow2 in Hna. apply (sqrt_top (mpz (tab a)) (mpz rest) (mpz high) (len a) n n1 d (mpz t2) (mpz t3) b); (done || lia). }
  destruct (mp_sqrtrem_spec o2 stack tr t3) as (o3 & res & -> & Hres); [unfold zlen in *; lia|unfold zlen in *; lia|done| |].
  { rewrite bpow2. replace (64 * zlen t3) with (128 * n) by (unfold zlen; lia). done. }
  cbn [mbind option_bind]. destruct res as [[s ta]|]; [|apply bf_mem_error_spec; by left]. destruct Hres as (Hs & Hls & Hlta & Hrem & Hroot).
  set (rm := take (S (length tr)) ta) in *. assert (Hzl : zslice ta 0 (n + 1) = Some rm).
  { rewrite <- (take_drop (S (length tr)) ta). apply zslice_head. unfold rm. rewrite zlen_take. unfold zlen in *. lia. }
  rewrite Hzl. cbn [mbind option_bind]. assert (Hzr : zslice (tab a) 0 (len a - n1) = Some rest) by (rewrite Hsplit; by apply zslice_head). rewrite Hzr. cbn [mbind option_bind].
  set (res := if _ =? 0 then mp_scan_nz rest else _).
  assert (Hres0 : res = 0 <-> b = 0 /\ mpz rm = 0 /\ mpz rest = 0).
  { unfold res. rewrite (sqrt_nonzero b (mp_scan_nz rm) (mp_scan_nz rest)) by (by apply nz_range). rewrite !mp_scan_nz_spec by done.
    destruct (Z.eqb_spec (mpz rm) 0), (Z.eqb_spec (mpz rest) 0); cbn; intuition lia. }
  apply (sqrt_finish _ (mpz (tab a)) (expn a) (len a) prec flags n n1 d (mpz rest) (mpz high) (mpz t3) b s (mpz rm) res j); (done || lia || (unfold zlen in *; lia)).
Qed.

Lemma bf_set_special o r a : bf_wf a -> len a = 0 -> exists o', bf_set o false r a = Some (o', a, 0).
Proof.
  intros Ha Hl. unfold bf_set. rewrite Hl. destruct (bf_resize_0 o r) as (o' & ->). cbn [Z.eqb negb with_tab tab].
  destruct (wf_cases a Ha) as [(_ & Ht & _)|(Hx & _)]; [|lia]. rewrite Ht. change (zsplice [] 0 (@nil Z)) with (Some (@nil Z)). cbn [mbind option_bind].
  exists o'. destruct a as [s e t]. cbn [tab bf_sign expn] in *. by rewrite Ht.
Qed.

Lemma bf_sqrt_spec o stack r a prec flags :
  bf_wf a -> 64 * len a <= 2 ^ 59 -> flags_ok prec flags -> 1 <= prec <= 2 ^ 59 -> has_flag flags BF_FLAG_RADPNT_PREC = false ->
  forall j, 0 <= j -> sqrt_enough j (bf_val a) prec -> gives_val (bf_sqrt o stack r a prec flags) (sqrt_val j (bf_val a) prec flags).
Proof.
  intros Ha H59 Hf Hp Hrad j Hj Hen. pose proof (wf_sign _ Ha) as Hs.
  destruct (wf_cases a Ha) as [(Hla & _ & Hva)|(Hla & _ & _ & _ & _ & Hva)].
  - assert (Hset : gives_val ('(o, r, _) ← bf_set o false r a; Some (o, r, 0)) (bf_val a, 0)).
    { destruct (bf_set_special o r a Ha Hla) as (o' & ->). cbn [mbind option_bind]. eexists _, _, _. split; [done|]. split; [done|]. by left. }
    unfold bf_sqrt. rewrite Hla. change (0 =? 0) with true. cbv iota. destruct Hva as [(He & Hv)|[(He & Hv)|(He & Hv)]]; rewrite He, Hv in *; cbn [sqrt_val].
    + exact Hset.
    + destruct (Z.eqb_spec (bf_sign a) 0); [exact Hset|apply gives_nan].
    + apply gives_nan.
  - destruct (decide (bf_sign a = 0)) as [Hs0|Hs0]; [by apply sqrt_fin|]. unfold bf_sqrt. rewrite Hva. cbn [sqrt_val].
    rewrite (proj2 (Z.eqb_neq (len a) 0)), (proj2 (Z.eqb_neq (bf_sign a) 0)) by lia. apply gives_nan.
Qed.

Lemma bf_mul_spec o alias r a b prec flags :
  bf_wf a -> bf_wf b -> 64 * len a <= 2 ^ 59 -> 64 * len b <= 2 ^ 59 -> flags_ok prec flags -> 1 <= prec -> mode_of flags <> BF_RNDF ->
  gives_val (bf_mul o alias r a b prec flags) (mul_val (bf_val a) (bf_val b) prec flags).
Proof.
  intros Ha Hb H1 H2 Hf Hp Hm. unfold bf_mul. destruct (Z.ltb_spec (len a) (len b)).
  - rewrite mul_val_comm. apply mul_ordered_spec; (done || lia).
  - apply mul_ordered_spec; (done || lia).
Qed.
End ArithSpec.
