(* ===== verification/BfCmp.v ===== *)
(** Comparison of the numbers of [libbf.c].

    [bf_cmpu], [bf_cmp] and [bf_cmp_full] are proved to order the numbers by their values,
    whatever the number of limbs the two operands are written with. *)

From S2P Require Import Prelude CutilsH DynBuf BfLimbs BfDiv BfRecip BfSqrt BfNum BfRound BfVal BfArith.

(** ** The comparisons *)

(** The loop of [bf_cmpu], from the most significant limb on. *)
Fixpoint cmpu_loop (a b : bf_t) (l : Z) (i : nat) : option Z :=
  match i with
  | O => Some 0
  | S i =>
      v1 ← get_limbz a (len a - l + Z.of_nat i);
      v2 ← get_limbz b (len b - l + Z.of_nat i);
      if negb (v1 =? v2) then Some (if v1 <? v2 then -1 else 1) else cmpu_loop a b l i
  end.

Definition bf_cmpu (a b : bf_t) : option Z :=
  if negb (expn a =? expn b) then Some (if expn a <? expn b then -1 else 1)
  else
    let l := bf_max (len a) (len b) in
    cmpu_loop a b l (Z.to_nat l).

Definition bf_cmp_full (a b : bf_t) : option Z :=
  if (expn a =? BF_EXP_NAN) || (expn b =? BF_EXP_NAN) then
    Some (if expn a =? expn b then 0 else if expn a =? BF_EXP_NAN then 1 else -1)
  else if negb (bf_sign a =? bf_sign b) then Some (1 - 2 * bf_sign a)
  else
    res ← bf_cmpu a b;
    Some (if negb (bf_sign a =? 0) then - res else res).

Definition bf_cmp (a b : bf_t) : option Z :=
  if (expn a =? BF_EXP_NAN) || (expn b =? BF_EXP_NAN) then Some 2
  else if negb (bf_sign a =? bf_sign b) then
    Some (if (expn a =? BF_EXP_ZERO) && (expn b =? BF_EXP_ZERO) then 0 else 1 - 2 * bf_sign a)
  else
    res ← bf_cmpu a b;
    Some (if negb (bf_sign a =? 0) then - res else res).

Definition bf_cmp_eq (a b : bf_t) : option bool := c ← bf_cmp a b; Some (c =? 0).
Definition bf_cmp_le (a b : bf_t) : option bool := c ← bf_cmp a b; Some (c <=? 0).
Definition bf_cmp_lt (a b : bf_t) : option bool := c ← bf_cmp a b; Some (c <? 0).

(** ** The order of values *)

(** The order of two magnitudes. *)
Definition mag_cmp (v1 v2 : bfval) : comparison :=
  match v1, v2 with
  | VZero _, VZero _ | VInf _, VInf _ => Eq
  | VZero _, _ | _, VInf _ => Lt
  | _, VZero _ | VInf _, _ => Gt
  | VFin _ m1 e1, VFin _ m2 e2 => m1 * 2 ^ (e1 - Z.min e1 e2) ?= m2 * 2 ^ (e2 - Z.min e1 e2)
  | _, _ => Eq
  end.

Definition sign_of (v : bfval) : Z := match v with VNan => 0 | VInf s | VZero s | VFin s _ _ => s end.
Definition is_zero_val (v : bfval) : bool := match v with VZero _ => true | _ => false end.
Definition cmp_int (c : comparison) : Z := match c with Lt => -1 | Eq => 0 | Gt => 1 end.

(** The order of two values that are numbers, [-0] below [+0]; and with [-0] equal to [+0]. *)
Definition total_cmp (v1 v2 : bfval) : comparison :=
  if sign_of v1 =? sign_of v2 then if sign_of v1 =? 0 then mag_cmp v1 v2 else mag_cmp v2 v1
  else if sign_of v1 =? 0 then Gt else Lt.

Definition val_cmp (v1 v2 : bfval) : comparison := if is_zero_val v1 && is_zero_val v2 then Eq else total_cmp v1 v2.

Lemma cmp_mul_r x y k : 0 < k -> (x * k ?= y * k) = (x ?= y).
Proof. intros Hk. destruct (Z.compare_spec x y) as [->|Hc|Hc]; [apply Z.compare_refl|apply Z.compare_lt_iff|apply Z.compare_gt_iff]; nia. Qed.

Lemma cmp_at m1 e1 m2 e2 b : b <= e1 -> b <= e2 ->
  (m1 * 2 ^ (e1 - Z.min e1 e2) ?= m2 * 2 ^ (e2 - Z.min e1 e2)) = (m1 * 2 ^ (e1 - b) ?= m2 * 2 ^ (e2 - b)).
Proof.
  intros H1 H2. set (c := Z.min e1 e2). assert (Hc : b <= c /\ c <= e1 /\ c <= e2) by (unfold c; lia). clearbody c.
  replace (e1 - b) with (e1 - c + (c - b)) by lia. replace (e2 - b) with (e2 - c + (c - b)) by lia. rewrite !Z.pow_add_r, !Z.mul_assoc by lia.
  symmetry. apply cmp_mul_r, pow2_pos. lia.
Qed.

(** The limbs of a number with zeros below, so that there are [l] of them. *)
Definition padded (l : Z) (a : bf_t) : list Z := replicate (Z.to_nat (l - len a)) 0 ++ tab a.

Lemma get_limbz_padded l a i : len a <= l <= 2 ^ 62 -> 0 <= i < l -> get_limbz a (len a - l + i) = padded l a !! Z.to_nat i.
Proof.
  intros Hl Hi. unfold get_limbz, padded. assert (Hn : 0 <= len a) by (unfold len, zlen; lia). destruct (Z.ltb_spec i (l - len a)).
  - rewrite lookup_app_l by (rewrite length_replicate; lia). rewrite lookup_replicate_2 by lia.
    assert (u64 (len a - l + i) = len a - l + i + 2 ^ 64) as -> by (unfold u64; symmetry; apply (Z.mod_unique_pos _ _ (-1)); lia).
    destruct (Z.leb_spec (len a) (len a - l + i + 2 ^ 64)); [done|lia].
  - rewrite lookup_app_r by (rewrite length_replicate; lia). rewrite length_replicate.
    assert (u64 (len a - l + i) = len a - l + i) as -> by (unfold u64; apply Z.mod_small; lia).
    destruct (Z.leb_spec (len a) (len a - l + i)); [unfold len, zlen in *; lia|]. unfold zget. destruct (Z.ltb_spec (len a - l + i) 0); [lia|].
    f_equal. lia.
Qed.

Lemma padded_mpz l a : len a <= l -> mpz (padded l a) = 2 ^ (64 * (l - len a)) * mpz (tab a).
Proof.
  intros Hl. unfold padded. rewrite mpz_app, mpz_zeros. rewrite bpow2. unfold zlen. rewrite length_replicate, Z2Nat.id by lia. lia.
Qed.

Lemma cmp_snoc p q v1 v2 : limbs p -> limbs q -> length p = length q -> v1 <> v2 -> (mpz (p ++ [v1]) ?= mpz (q ++ [v2])) = (v1 ?= v2).
Proof.
  intros Hp Hq Hl Hne. pose proof (mpz_range p Hp) as Hrp. pose proof (mpz_range q Hq) as Hrq. rewrite !mpz_app, !mpz_cons.
  assert (Hb : bpow q = bpow p) by (unfold bpow, zlen; by rewrite Hl). rewrite Hb in *. change (mpz []) with 0.
  destruct (Z.compare_spec v1 v2) as [->|Hc|Hc]; [done|apply Z.compare_lt_iff|apply Z.compare_gt_iff]; nia.
Qed.

Lemma cmpu_loop_spec a b l n :
  limbs (tab a) -> limbs (tab b) -> len a <= l -> len b <= l -> l <= 2 ^ 62 -> Z.of_nat n <= l ->
  cmpu_loop a b l n = Some (cmp_int (mpz (take n (padded l a)) ?= mpz (take n (padded l b)))).
Proof.
  intros Ha Hb H1 H2 H62. induction n as [|n IH]; intros Hn; [done|]. cbn [cmpu_loop]. specialize (IH ltac:(lia)).
  rewrite !get_limbz_padded, Nat2Z.id by lia.
  assert (Hlen : forall c, len c <= l -> length (padded l c) = Z.to_nat l).
  { intros c Hc. unfold padded, len, zlen in *. rewrite length_app, length_replicate. lia. }
  assert (Hlim : forall c, limbs (tab c) -> limbs (padded l c)) by (intros c Hc; apply Forall_app; split; [apply limbs_zeros|done]).
  destruct (lookup_lt_is_Some_2 (padded l a) n) as [v1 Hv1]; [rewrite Hlen; lia|]. destruct (lookup_lt_is_Some_2 (padded l b) n) as [v2 Hv2]; [rewrite Hlen; lia|].
  rewrite Hv1, Hv2, (take_S_r _ _ _ Hv1), (take_S_r _ _ _ Hv2). cbn [mbind option_bind].
  destruct (Z.eqb_spec v1 v2) as [->|Hne]; cbn [negb].
  - rewrite IH. do 2 f_equal. rewrite !mpz_app. assert (bpow (take n (padded l b)) = bpow (take n (padded l a))) as ->.
    { unfold bpow, zlen. by rewrite !length_take, !Hlen. }
    set (k := bpow _ * _). clearbody k. set (x := mpz (take n (padded l a))). set (y := mpz (take n (padded l b))). clearbody x y.
    destruct (Z.compare_spec x y); symmetry; [subst; apply Z.compare_refl|apply Z.compare_lt_iff|apply Z.compare_gt_iff]; lia.
  - rewrite cmp_snoc; [|by apply Forall_take, Hlim|by apply Forall_take, Hlim|by rewrite !length_take, !Hlen|done]. f_equal.
    destruct (Z.ltb_spec v1 v2) as [Hc|Hc].
    + by rewrite (proj2 (Z.compare_lt_iff _ _) Hc).
    + by rewrite (proj2 (Z.compare_gt_iff v1 v2)) by lia.
Qed.

(** A larger exponent is a larger magnitude. *)
Lemma mag_lt_expn m1 e1 l1 m2 e2 l2 : 0 < m1 < 2 ^ l1 -> 2 ^ l2 <= 2 * m2 -> 0 <= l1 -> 1 <= l2 -> e1 < e2 ->
  (m1 * 2 ^ (e1 - l1 - Z.min (e1 - l1) (e2 - l2)) ?= m2 * 2 ^ (e2 - l2 - Z.min (e1 - l1) (e2 - l2))) = Lt.
Proof.
  intros H1 H2 Hl1 Hl2 He. set (b := Z.min (e1 - l1) (e2 - l2)). assert (Hb : b <= e1 - l1 /\ b <= e2 - l2) by (unfold b; lia). clearbody b.
  apply Z.compare_lt_iff. apply (Z.lt_le_trans _ (2 ^ (e1 - b))).
  - replace (e1 - b) with (l1 + (e1 - l1 - b)) by lia. rewrite Z.pow_add_r by lia. pose proof (pow2_pos (e1 - l1 - b) ltac:(lia)). nia.
  - transitivity (2 ^ (l2 - 1) * 2 ^ (e2 - l2 - b)).
    + rewrite <- Z.pow_add_r by lia. apply Z.pow_le_mono_r; lia.
    + apply Z.mul_le_mono_nonneg_r; [apply Z.pow_nonneg; lia|]. replace l2 with (l2 - 1 + 1) in H2 by lia. rewrite Z.pow_add_r in H2 by lia. lia.
Qed.

Lemma mag_cmp_sym v1 v2 : mag_cmp v2 v1 = CompOpp (mag_cmp v1 v2).
Proof. destruct v1, v2; try done. cbn [mag_cmp]. rewrite (Z.min_comm e e0). apply Z.compare_antisym. Qed.

Lemma mag_cmp_expn a b : bf_wf a -> bf_wf b -> 1 <= len a -> 1 <= len b -> expn a < expn b -> mag_cmp (bf_val a) (bf_val b) = Lt.
Proof.
  intros Ha Hb Hla Hlb He. destruct (wf_cases a Ha) as [(? & _)|(_ & _ & _ & _ & Hma & ->)]; [lia|]. destruct (wf_cases b Hb) as [(? & _)|(_ & _ & Htb & _ & _ & ->)]; [lia|].
  pose proof (mpz_range _ (wf_limbs _ Ha)) as Hr. rewrite bpow2 in Hr, Htb. cbn [mag_cmp]. apply mag_lt_expn; fold (len a) (len b) in *; lia.
Qed.

Lemma mag_cmp_same a b : bf_wf a -> bf_wf b -> 1 <= len a -> 1 <= len b -> len a <= 2 ^ 62 -> len b <= 2 ^ 62 -> expn a = expn b ->
  cmpu_loop a b (bf_max (len a) (len b)) (Z.to_nat (bf_max (len a) (len b))) = Some (cmp_int (mag_cmp (bf_val a) (bf_val b))).
Proof.
  intros Ha Hb Hla Hlb H1 H2 He. assert (Hmax : bf_max (len a) (len b) = Z.max (len a) (len b)) by (unfold bf_max; destruct (Z.ltb_spec (len b) (len a)); lia).
  rewrite Hmax. set (l := Z.max (len a) (len b)). assert (Hl : len a <= l /\ len b <= l /\ l <= 2 ^ 62) by (unfold l; lia). clearbody l.
  rewrite cmpu_loop_spec; [|apply wf_limbs, Ha|apply wf_limbs, Hb|lia..]. do 2 f_equal.
  assert (Hall : forall c, len c <= l -> take (Z.to_nat l) (padded l c) = padded l c).
  { intros c Hc. apply take_ge. unfold padded, len, zlen in *. rewrite length_app, length_replicate. lia. }
  rewrite !Hall, !padded_mpz by lia. destruct (wf_cases a Ha) as [(? & _)|(_ & _ & _ & _ & Hma & ->)]; [lia|]. destruct (wf_cases b Hb) as [(? & _)|(_ & _ & Htb & _ & _ & ->)]; [lia|].
  cbn [mag_cmp]. rewrite (cmp_at _ _ _ _ (expn a - 64 * l)) by lia. rewrite !(Z.mul_comm (mpz _)). f_equal; do 2 f_equal; lia.
Qed.

(** [bf_cmpu] orders the magnitudes. *)
Lemma bf_cmpu_spec a b : bf_wf a -> bf_wf b -> len a <= 2 ^ 62 -> len b <= 2 ^ 62 -> expn a <> BF_EXP_NAN -> expn b <> BF_EXP_NAN ->
  bf_cmpu a b = Some (cmp_int (mag_cmp (bf_val a) (bf_val b))).
Proof.
  intros Ha Hb Hla Hlb Hna Hnb. unfold bf_cmpu.
  destruct (wf_cases a Ha) as [(Ha0 & Hta & Hva)|(Ha1 & _ & Hta & Hea & Hma & Hva)];
    destruct (wf_cases b Hb) as [(Hb0 & Htb & Hvb)|(Hb1 & _ & Htb & Heb & Hmb & Hvb)].
  - rewrite Ha0, Hb0. destruct Hva as [(He & Hv)|[(He & Hv)|(He & Hv)]], Hvb as [(He' & Hv')|[(He' & Hv')|(He' & Hv')]]; try done; rewrite He, He', Hv, Hv'; reflexivity.
  - rewrite Hvb. destruct Hva as [(He & Hv)|[(He & Hv)|(He & Hv)]]; try done; rewrite He, Hv; cbn [mag_cmp cmp_int].
    + rewrite (proj2 (Z.eqb_neq BF_EXP_ZERO _)), (proj2 (Z.ltb_lt BF_EXP_ZERO _)); [done|..]; cbv [BF_EXP_ZERO BF_RAW_EXP_MIN]; lia.
    + rewrite (proj2 (Z.eqb_neq BF_EXP_INF _)), (proj2 (Z.ltb_ge BF_EXP_INF _)); [done|..]; cbv [BF_EXP_INF BF_RAW_EXP_MAX]; lia.
  - rewrite Hva. destruct Hvb as [(He & Hv)|[(He & Hv)|(He & Hv)]]; try done; rewrite He, Hv; cbn [mag_cmp cmp_int].
    + rewrite (proj2 (Z.eqb_neq _ BF_EXP_ZERO)), (proj2 (Z.ltb_ge _ BF_EXP_ZERO)); [done|..]; cbv [BF_EXP_ZERO BF_RAW_EXP_MIN]; lia.
    + rewrite (proj2 (Z.eqb_neq _ BF_EXP_INF)), (proj2 (Z.ltb_lt _ BF_EXP_INF)); [done|..]; cbv [BF_EXP_INF BF_RAW_EXP_MAX]; lia.
  - destruct (Z.eqb_spec (expn a) (expn b)) as [He|He]; cbn [negb]; [by apply mag_cmp_same|]. destruct (Z.ltb_spec (expn a) (expn b)).
    + by rewrite mag_cmp_expn.
    + rewrite mag_cmp_sym, mag_cmp_expn by (done || lia). done.
Qed.

Lemma signed_cmpu a b : bf_wf a -> bf_wf b -> len a <= 2 ^ 62 -> len b <= 2 ^ 62 -> expn a <> BF_EXP_NAN -> expn b <> BF_EXP_NAN -> bf_sign a = bf_sign b ->
  (res ← bf_cmpu a b; Some (if negb (bf_sign a =? 0) then - res else res)) = Some (cmp_int (if bf_sign a =? 0 then mag_cmp (bf_val a) (bf_val b) else mag_cmp (bf_val b) (bf_val a))).
Proof.
  intros Ha Hb H1 H2 Hna Hnb Hs. rewrite bf_cmpu_spec by done. cbn [mbind option_bind]. f_equal. rewrite (mag_cmp_sym (bf_val a) (bf_val b)).
  destruct (bf_sign a =? 0), (mag_cmp (bf_val a) (bf_val b)); reflexivity.
Qed.

Lemma sign_of_val a : expn a <> BF_EXP_NAN -> sign_of (bf_val a) = bf_sign a.
Proof. intros He. unfold bf_val. rewrite (proj2 (Z.eqb_neq _ _) He). by repeat case_match. Qed.

Lemma is_zero_of_val a : is_zero_val (bf_val a) = (expn a =? BF_EXP_ZERO).
Proof.
  unfold bf_val. destruct (Z.eqb_spec (expn a) BF_EXP_NAN) as [->|]; [done|]. destruct (Z.eqb_spec (expn a) BF_EXP_INF) as [->|]; [done|].
  by destruct (expn a =? BF_EXP_ZERO).
Qed.

(** C14: The comparisons order numbers by value, whatever the number of limbs they are written
    with: [bf_cmp_full] puts [-0] below [+0] and NaN above
    everything, [bf_cmp] identifies the zeros and answers 2 for NaN. *)
Theorem bf_cmp_order a b :
  bf_wf a -> bf_wf b -> len a <= 2 ^ 62 -> len b <= 2 ^ 62 ->
  bf_cmp a b = Some (if (expn a =? BF_EXP_NAN) || (expn b =? BF_EXP_NAN) then 2 else cmp_int (val_cmp (bf_val a) (bf_val b))) /\
  bf_cmp_full a b = Some (if expn a =? BF_EXP_NAN then if expn b =? BF_EXP_NAN then 0 else 1 else if expn b =? BF_EXP_NAN then -1
                          else cmp_int (total_cmp (bf_val a) (bf_val b))).
Proof.
  intros Ha Hb H1 H2. unfold bf_cmp, bf_cmp_full, val_cmp. rewrite !is_zero_of_val.
  destruct (Z.eqb_spec (expn a) BF_EXP_NAN) as [->|Hna]; cbn [orb]; [by rewrite Z.eqb_sym; destruct (expn b =? BF_EXP_NAN)|].
  destruct (Z.eqb_spec (expn b) BF_EXP_NAN) as [->|Hnb]; cbn [orb]; [by rewrite (proj2 (Z.eqb_neq _ _) Hna)|].
  unfold total_cmp. rewrite !sign_of_val by done. pose proof (wf_sign _ Ha) as Hsa. pose proof (wf_sign _ Hb) as Hsb.
  destruct (Z.eqb_spec (bf_sign a) (bf_sign b)) as [Hs|Hs]; cbn [negb].
  - rewrite !signed_cmpu by done. split; [|done]. destruct (Z.eqb_spec (expn a) BF_EXP_ZERO) as [Hza|]; [|done]. destruct (Z.eqb_spec (expn b) BF_EXP_ZERO) as [Hzb|]; [|done].
    cbn [andb]. unfold bf_val. rewrite Hza, Hzb. by destruct (bf_sign a =? 0).
  - assert (Hz : Some (1 - 2 * bf_sign a) = Some (cmp_int (if bf_sign a =? 0 then Gt else Lt))).
    { assert (bf_sign a = 0 \/ bf_sign a = 1) as [->| ->] by lia; done. }
    rewrite Hz. split; [|done]. by destruct ((expn a =? BF_EXP_ZERO) && (expn b =? BF_EXP_ZERO)).
Qed.

Lemma bf_cmp_order_witness : bf_cmp (mkBf 1 1 [2 ^ 63]) (mkBf 1 1 [1; 2 ^ 63]) = Some 1 /\ bf_cmp_full (mkBf 1 BF_EXP_ZERO []) (mkBf 0 BF_EXP_ZERO []) = Some (-1).
Proof.
  split.
  - refine (eq_trans (proj1 (bf_cmp_order _ _ _ _ _ _)) _); [split; [cbn; lia|repeat constructor; vm_compute; congruence|right]|split; [cbn; lia|repeat constructor; vm_compute; congruence|right]|..];
      try (vm_compute; congruence); (split; [by eexists _, _|by vm_compute]).
  - refine (eq_trans (proj2 (bf_cmp_order _ _ _ _ _ _)) _); [apply wf_special; [lia|by left]|apply wf_special; [lia|by left]|..]; vm_compute; congruence.
Defined.
