(* ===== verification/BfAdd.v ===== *)
(** Addition and subtraction of the numbers of [libbf.c].

    [bf_add_internal] aligns the two mantissas, computes the limbs the rounding needs and
    folds all the limbs below into a sticky bit, skipping the gap between the operands.  It
    is proved to give the exact sum rounded once ([add_val]); [count_cancelled_bits] is
    proved to bound the leading bits that a subtraction cancels. *)

From S2P Require Import Prelude CutilsH DynBuf BfLimbs BfDiv BfRecip BfSqrt BfNum BfRound BfVal BfArith BfCmp.

(** ** Cancelled bits *)

(** The first loop of [count_cancelled_bits]: the first limbs that differ, the bits before
    them and their position. *)
Fixpoint equal_limbs (fuel : nat) (a b : bf_t) (b_offset bit_offset n : Z) : option (Z * Z * Z * Z) :=
  match fuel with
  | O => None
  | S fuel =>
      v1 ← get_limbz a (bit_offset ≫ LIMB_LOG2_BITS);
      v2 ← get_bits (tab b) (len b) (bit_offset + b_offset);
      if negb (v1 =? v2) then Some (v1, v2, bit_offset, n)
      else equal_limbs fuel a b b_offset (bit_offset - LIMB_BITS) (n + LIMB_BITS)
  end.

(** The second loop: zeros in [a], ones in [b]. *)
Fixpoint zero_one_limbs (fuel : nat) (a b : bf_t) (b_offset bit_offset n : Z) : option Z :=
  match fuel with
  | O => None
  | S fuel =>
      v1 ← get_limbz a (bit_offset ≫ LIMB_LOG2_BITS);
      v2 ← get_bits (tab b) (len b) (bit_offset + b_offset);
      if negb (v1 =? 0) || negb (v2 =? u64 (-1)) then Some (n + bf_min (clz v1) (clz (u64 (Z.lnot v2))))
      else zero_one_limbs fuel a b b_offset (bit_offset - LIMB_BITS) (n + LIMB_BITS)
  end.

(** Both loops end after the last limb of an operand. *)
Definition cancel_fuel (a b : bf_t) : nat := length (tab a) + length (tab b) + 3.

Definition count_cancelled_bits (a b : bf_t) : option Z :=
  let bit_offset := i64 (len a * LIMB_BITS - 1) in
  let b_offset := i64 ((len b - len a) * LIMB_BITS - (LIMB_BITS - 1) + expn a - expn b) in
  '(v1, v2, bit_offset, n) ← equal_limbs (cancel_fuel a b) a b b_offset bit_offset 0;
  let p := clz (v1 .^ v2) + 1 in
  let n := n + p in
  let p := LIMB_BITS - p in
  let next n := zero_one_limbs (cancel_fuel a b) a b b_offset (bit_offset - LIMB_BITS) n in
  if 0 <? p then
    let mask := limb_mask 0 (p - 1) in
    let p1 := bf_min (clz (v1 .& mask)) (clz (u64 (Z.lnot v2) .& mask)) - (LIMB_BITS - p) in
    let n := n + p1 in
    if negb (p1 =? p) then Some n else next n
  else next n.

(** ** The sum of the mantissas *)

(** One limb of the sum. *)
Definition add_step (v1 v2 carry : Z) : Z * Z :=
  let u := u64 (v1 + v2) in
  let carry1 := b2z (u <? v1) in
  let u := u64 (u + carry) in
  (u, b2z (u <? carry) .| carry1).

(** The loop over the limbs below the result: the carry and the limbs or-ed together. *)
Fixpoint low_loop (fuel : nat) (a b : bf_t) (a_offset b_bit_offset sub_mask i carry z : Z) : option (Z * Z) :=
  if i <? 0 then
    match fuel with
    | O => None
    | S fuel =>
        let ap := a_offset + i in
        let bp := b_bit_offset + i * LIMB_BITS in
        let in_a := (0 <=? ap) && (ap <? len a) in
        let in_b := (0 <? bp + LIMB_BITS) && (bp <? len b * LIMB_BITS) in
        v1 ← (if in_a then zget (tab a) ap else Some 0);
        v2 ← (if in_b then get_bits (tab b) (len b) bp else Some 0);
        let i :=
          if negb (in_a || in_b) then
            let i := if ap <? 0 then bf_min 0 (- a_offset) else 0 in
            if bp + LIMB_BITS <=? 0 then bf_min i ((- b_bit_offset) ≫ LIMB_LOG2_BITS) else i
          else i + 1 in
        let '(u, carry) := add_step v1 (v2 .^ sub_mask) carry in
        low_loop fuel a b a_offset b_bit_offset sub_mask i carry (z .| u)
    end
  else Some (carry, z).

(** The limbs of [a] and of [b], and the gap between them. *)
Definition low_fuel (a b : bf_t) : nat := length (tab a) + length (tab b) + 2.

(** The loop over the limbs of the result, which [t] holds. *)
Fixpoint high_loop (t : list Z) (a b : bf_t) (a_offset b_bit_offset sub_mask i carry : Z) : option (list Z * Z) :=
  match t with
  | [] => Some ([], carry)
  | _ :: t =>
      v1 ← get_limbz a (a_offset + i);
      v2 ← get_bits (tab b) (len b) (b_bit_offset + i * LIMB_BITS);
      let '(u, carry) := add_step v1 (v2 .^ sub_mask) carry in
      '(t, carry) ← high_loop t a b a_offset b_bit_offset sub_mask (i + 1) carry;
      Some (u :: t, carry)
  end.

Section Add.
Context `{!Allocator} `{R : !Realloc} `{F : !FftMul}.

(** The branch of [bf_add_internal] for two mantissas, [abs(a) >= abs(b)]. *)
Definition add_mantissas (o : aopaque) (r a b : bf_t) (a_sign is_sub prec flags : Z) : option (aopaque * bf_t * Z) :=
  let r := with_expn (with_sign r a_sign) (expn a) in
  let d := i64 (expn a - expn b) in
  cancelled_bits ←
    (if negb (is_sub =? 0) then if d <=? 1 then count_cancelled_bits a b else Some 1 else Some 0);
  let precl := (cancelled_bits + prec + 2 + LIMB_BITS - 1) / LIMB_BITS in
  let tot_len := bf_max (len a) (len b + (d + LIMB_BITS - 1) / LIMB_BITS) in
  let r_len := bf_min precl tot_len in
  let '(o, r, st) := bf_resize o r r_len in
  if negb (st =? 0) then Some (bf_mem_error o r)
  else
    let a_offset := i64 (len a - r_len) in
    let b_bit_offset := i64 ((len b - r_len) * LIMB_BITS + d) in
    let sub_mask := u64 (- is_sub) in
    '(carry, z) ← low_loop (low_fuel a b) a b a_offset b_bit_offset sub_mask (i64 (r_len - tot_len)) is_sub 0;
    '(t, carry) ← high_loop (tab r) a b a_offset b_bit_offset sub_mask 0 carry;
    v ← zget t 0;
    t ← zset t 0 (v .| b2z (negb (z =? 0)));
    let r := with_tab r t in
    if (is_sub =? 0) && negb (carry =? 0) then
      let '(o, r, st) := bf_resize o r (r_len + 1) in
      if negb (st =? 0) then Some (bf_mem_error o r)
      else
        t ← zset (tab r) r_len 1;
        bf_normalize_and_round o (with_expn (with_tab r t) (i64 (expn r + LIMB_BITS))) prec flags
    else bf_normalize_and_round o r prec flags.

(** [bf_add_internal] once the operands are ordered, [abs(a) >= abs(b)]. *)
Definition add_ordered (o : aopaque) (r a b : bf_t) (a_sign is_sub cmp_res prec flags : Z) : option (aopaque * bf_t * Z) :=
  if (cmp_res =? 0) && negb (is_sub =? 0) && (expn a <? BF_EXP_INF) then
    let '(o, r) := bf_set_zero o r (b2z (flags .& BF_RND_MASK =? BF_RNDD)) in Some (o, r, 0)
  else if (len a =? 0) || (len b =? 0) then
    if BF_EXP_INF <=? expn a then
      if expn a =? BF_EXP_NAN then
        let '(o, r) := bf_set_nan o r in Some (o, r, 0)
      else if (expn b =? BF_EXP_INF) && negb (is_sub =? 0) then
        let '(o, r) := bf_set_nan o r in Some (o, r, BF_ST_INVALID_OP)
      else
        let '(o, r) := bf_set_inf o r a_sign in Some (o, r, 0)
    else
      '(o, r, _) ← bf_set o false r a;
      bf_normalize_and_round o (with_sign r a_sign) prec flags
  else add_mantissas o r a b a_sign is_sub prec flags.

Definition bf_add_internal (o : aopaque) (r a b : bf_t) (prec flags b_neg : Z) : option (aopaque * bf_t * Z) :=
  let b_sign := bf_sign b .^ b_neg in
  let is_sub := bf_sign a .^ b_sign in
  cmp_res ← bf_cmpu a b;
  if cmp_res <? 0 then add_ordered o r b a b_sign is_sub cmp_res prec flags
  else add_ordered o r a b (bf_sign a) is_sub cmp_res prec flags.

Definition __bf_add (o : aopaque) (r a b : bf_t) (prec flags : Z) : option (aopaque * bf_t * Z) := bf_add_internal o r a b prec flags 0.
Definition __bf_sub (o : aopaque) (r a b : bf_t) (prec flags : Z) : option (aopaque * bf_t * Z) := bf_add_internal o r a b prec flags 1.

(** ** The operations that may write over an operand *)

(** [alias] tells that [r] is [a] or [b]. *)
Definition bf_op2 (func : aopaque -> bf_t -> bf_t -> bf_t -> Z -> Z -> option (aopaque * bf_t * Z))
    (o : aopaque) (alias : bool) (r a b : bf_t) (prec flags : Z) : option (aopaque * bf_t * Z) :=
  if alias then
    '(o, tmp, ret) ← func o bf_init a b prec flags;
    let '(o, r) := bf_move o r tmp in Some (o, r, ret)
  else func o r a b prec flags.

Definition bf_add := bf_op2 __bf_add.
Definition bf_sub := bf_op2 __bf_sub.
Definition bf_div := bf_op2 __bf_div.

Definition bf_mul_ui (o : aopaque) (alias : bool) (r a : bf_t) (b1 prec flags : Z) : option (aopaque * bf_t * Z) :=
  '(o, b, ret) ← bf_set_ui o bf_init b1;
  '(o, r, ret1) ← bf_mul o alias r a b prec flags;
  Some (bf_delete o b, r, ret .| ret1).

Definition bf_mul_si (o : aopaque) (alias : bool) (r a : bf_t) (b1 prec flags : Z) : option (aopaque * bf_t * Z) :=
  '(o, b, ret) ← bf_set_si o bf_init b1;
  '(o, r, ret1) ← bf_mul o alias r a b prec flags;
  Some (bf_delete o b, r, ret .| ret1).

Definition bf_add_si (o : aopaque) (alias : bool) (r a : bf_t) (b1 prec flags : Z) : option (aopaque * bf_t * Z) :=
  '(o, b, ret) ← bf_set_si o bf_init b1;
  '(o, r, ret1) ← bf_add o alias r a b prec flags;
  Some (bf_delete o b, r, ret .| ret1).
End Add.

(** ** The limbs of an aligned operand *)

Lemma limb_at t i : limbs t -> zlen t <= 2 ^ 57 -> - 2 ^ 62 <= i < 2 ^ 62 ->
  (if u64 i <? zlen t then zget t (u64 i) else Some 0) = Some ((mpz t ≫ (64 * i)) mod 2 ^ 64).
Proof.
  intros Ht Hl Hi. pose proof (mpz_range t Ht) as Hr. rewrite bpow2 in Hr. destruct (Z.ltb_spec i 0) as [Hn|Hn].
  - assert (u64 i = i + 2 ^ 64) as -> by (unfold u64, wrapu; symmetry; apply (Z.mod_unique_pos _ _ (-1)); lia).
    rewrite (proj2 (Z.ltb_ge _ _)) by lia. f_equal. rewrite <- Z.shiftl_opp_r, Z.shiftl_mul_pow2 by lia.
    replace (- (64 * i)) with (64 * (- i - 1) + 64) by lia. rewrite Z.pow_add_r, Z.mul_assoc by lia. by rewrite Z.mod_mul.
  - assert (u64 i = i) as -> by (unfold u64, wrapu; apply Z.mod_small; lia). rewrite Z.shiftr_div_pow2 by lia. destruct (Z.ltb_spec i (zlen t)) as [Hlt|Hge].
    + destruct (split_at t i ltac:(lia)) as (l1 & v & l2 & -> & H1 & ->). f_equal. apply Forall_app in Ht as [L1 L2]. apply Forall_cons in L2 as [Lv _].
      pose proof (mpz_range l1 L1) as Hr1. rewrite mpz_app, mpz_cons, bpow2, H1 in *. pose proof (pow2_pos (64 * i) ltac:(lia)).
      rewrite (Z.mul_comm (2 ^ (64 * i))), Z.div_add, Z.div_small by lia. rewrite Z.add_0_l. unfold is_limb in Lv. change LIMB_BASE with (2 ^ 64) in *.
      rewrite (Z.mul_comm (2 ^ 64)), Z.mod_add, Z.mod_small by lia. done.
    + f_equal. rewrite Z.div_small; [done|]. split; [lia|]. eapply Z.lt_le_trans; [apply Hr|]. apply Z.pow_le_mono_r; lia.
Qed.

Lemma get_limbz_spec a i : limbs (tab a) -> len a <= 2 ^ 57 -> - 2 ^ 62 <= i < 2 ^ 62 -> get_limbz a i = Some ((mpz (tab a) ≫ (64 * i)) mod 2 ^ 64).
Proof.
  intros Ha Hl Hi. unfold get_limbz. rewrite <- (limb_at (tab a) i) by done. fold (len a). rewrite Z.leb_antisym. by destruct (u64 i <? len a).
Qed.

Lemma get_bits_spec t pos : limbs t -> zlen t <= 2 ^ 57 -> - 2 ^ 63 <= pos < 2 ^ 63 -> get_bits t (zlen t) pos = Some ((mpz t ≫ pos) mod 2 ^ 64).
Proof.
  intros Ht Hl Hp. unfold get_bits. destruct (pos_parts pos) as [-> ->]. rewrite limb_bits_val.
  pose proof (Z.mod_pos_bound pos 64 ltac:(lia)) as Hm. pose proof (Z.div_mod pos 64 ltac:(lia)) as Hd. set (q := pos / 64) in *. set (p := pos mod 64) in *. clearbody q p.
  assert (Hwrap : u64 (u64 q + 1) = u64 (q + 1)) by (unfold u64, wrapu; by rewrite Z.add_mod_idemp_l).
  rewrite Hwrap, !limb_at by (done || lia). cbn [mbind option_bind]. set (N := mpz t ≫ (64 * q)).
  assert (HN : mpz t ≫ pos = N ≫ p) by (unfold N; rewrite Z.shiftr_shiftr by lia; f_equal; lia). rewrite HN.
  assert (HN1 : mpz t ≫ (64 * (q + 1)) = N ≫ 64) by (unfold N; rewrite Z.shiftr_shiftr by lia; f_equal; lia). rewrite HN1. clear HN HN1.
  destruct (Z.eqb_spec p 0) as [->|Hp0]; [by rewrite Z.shiftr_0_r|]. f_equal. unfold u64, wrapu.
  apply Z.bits_inj'. intros n Hn. rewrite Z.lor_spec, !(Z.shiftr_spec _ _ n), !Z.testbit_mod_pow2, Z.shiftl_spec, Z.testbit_mod_pow2, (Z.shiftr_spec N _ n) by lia.
  destruct (Z.ltb_spec n 64); cbn [andb]; [|rewrite (proj2 (Z.ltb_ge (n + p) 64)) by lia; done]. destruct (Z.ltb_spec (n + p) 64) as [Hlt|Hge]; cbn [andb orb].
  - rewrite (Z.testbit_neg_r _ (n - (64 - p))) by lia. by rewrite andb_false_r, orb_false_r.
  - rewrite (proj2 (Z.ltb_lt (n - (64 - p)) 64)), Z.shiftr_spec by lia. cbn [andb]. f_equal. lia.
Qed.

(** ** Sums limb by limb *)

Lemma add_step_spec v w c : is_limb v -> is_limb w -> 0 <= c <= 1 ->
  exists u c', add_step v w c = (u, c') /\ is_limb u /\ 0 <= c' <= 1 /\ u + 2 ^ 64 * c' = v + w + c.
Proof.
  intros Hv Hw Hc. destruct (add_digit v w c Hv Hw Hc) as [Hd Hk]. eexists _, _. split; [done|]. split; [apply limb_u64|]. split; [done|]. exact Hd.
Qed.

Lemma lnot_limb v : is_limb v -> u64 (Z.lnot v) = 2 ^ 64 - 1 - v.
Proof. unfold is_limb, u64, wrapu, Z.lnot. rewrite limb_base_val. intros Hv. symmetry. apply (Z.mod_unique_pos _ _ (-1)); lia. Qed.

Lemma xor_ones v : is_limb v -> v .^ u64 (- (1)) = u64 (Z.lnot v).
Proof.
  intros Hv. change (u64 (- (1))) with (Z.ones 64). apply Z.bits_inj'. intros n Hn. unfold u64, wrapu. rewrite Z.lxor_spec, Z.testbit_mod_pow2 by lia.
  destruct (Z.ltb_spec n 64); cbn [andb].
  - rewrite Z.ones_spec_low, Z.lnot_spec by lia. apply xorb_true_r.
  - rewrite Z.ones_spec_high by lia. rewrite <- (Z.mod_small v (2 ^ 64)) by done. rewrite Z.mod_pow2_bits_high by lia. done.
Qed.

(** The limb of [b] as it is added: its complement in a subtraction. *)
Definition sub_limb (is_sub v : Z) : Z := if is_sub =? 0 then v else 2 ^ 64 - 1 - v.

Lemma sub_limb_xor is_sub v : 0 <= is_sub <= 1 -> is_limb v -> v .^ u64 (- is_sub) = sub_limb is_sub v /\ is_limb (sub_limb is_sub v).
Proof.
  intros Hs Hv. unfold sub_limb. assert (is_sub = 0 \/ is_sub = 1) as [->| ->] by lia; cbn [Z.eqb].
  - split; [apply Z.lxor_0_r|done].
  - rewrite xor_ones, lnot_limb by done. split; [done|]. unfold is_limb in *. rewrite limb_base_val in *. lia.
Qed.

(** What is added to the first mantissa of [n] bits. *)
Definition addend (is_sub n B : Z) : Z := if is_sub =? 0 then B mod 2 ^ n else 2 ^ n - 1 - B mod 2 ^ n.

(** The sum of the lowest [n] bits: the carry, and whether the bits of the sum are all zero. *)
Definition low_sum (A B is_sub n carry z : Z) : Prop :=
  exists L, A mod 2 ^ n + addend is_sub n B + is_sub = carry * 2 ^ n + L /\ 0 <= L < 2 ^ n /\ 0 <= carry <= 1 /\ 0 <= z /\ (z = 0 <-> L = 0).

Lemma mod_split A n m : 0 <= n -> 0 <= m -> A mod 2 ^ (n + m) = A mod 2 ^ n + 2 ^ n * ((A ≫ n) mod 2 ^ m).
Proof. intros Hn Hm. rewrite Z.pow_add_r, Z.shiftr_div_pow2 by lia. pose proof (pow2_pos n Hn). pose proof (pow2_pos m Hm). apply Z.rem_mul_r; lia. Qed.

Lemma addend_split is_sub n m B : 0 <= n -> 0 <= m -> addend is_sub (n + m) B = addend is_sub n B + 2 ^ n * addend is_sub m (B ≫ n).
Proof. intros Hn Hm. unfold addend. rewrite mod_split by done. destruct (is_sub =? 0); [done|]. rewrite Z.pow_add_r by lia. lia. Qed.

Lemma addend_64 is_sub B : addend is_sub 64 B = sub_limb is_sub (B mod 2 ^ 64).
Proof. reflexivity. Qed.

Lemma limb_mod x : is_limb (x mod 2 ^ 64).
Proof. apply Z.mod_pos_bound. done. Qed.
#[local] Hint Resolve limb_mod : core.

Lemma lor_zero x y : 0 <= x -> 0 <= y -> 0 <= x .| y /\ (x .| y = 0 <-> x = 0 /\ y = 0).
Proof. intros Hx Hy. split; [by apply Z.lor_nonneg|]. apply Z.lor_eq_0_iff. Qed.

(** A step of the loop. *)
Lemma low_sum_step A B is_sub n carry z : 0 <= is_sub <= 1 -> 0 <= n -> low_sum A B is_sub n carry z ->
  exists u c, add_step ((A ≫ n) mod 2 ^ 64) ((B ≫ n) mod 2 ^ 64 .^ u64 (- is_sub)) carry = (u, c) /\ low_sum A B is_sub (n + 64) c (z .| u).
Proof.
  intros Hs Hn (L & HL & HLr & Hc & Hz & HzL). destruct (sub_limb_xor is_sub ((B ≫ n) mod 2 ^ 64) Hs ltac:(done)) as [-> Hw].
  destruct (add_step_spec ((A ≫ n) mod 2 ^ 64) _ carry ltac:(done) Hw Hc) as (u & c & Hstep & Hu & Hc' & Hsum). exists u, c. split; [done|].
  pose proof (pow2_pos n Hn) as Hp. destruct Hu as [Hu0 Hu1]. rewrite limb_base_val in Hu1. exists (L + 2 ^ n * u).
  destruct (lor_zero z u Hz Hu0) as [Hl0 Hl]. rewrite mod_split, addend_split, addend_64 by lia. rewrite Z.pow_add_r by lia.
  split; [|split; [|split; [done|split; [done|]]]].
  - set (x := (A ≫ n) mod 2 ^ 64) in *. set (y := sub_limb _ _) in *. clearbody x y. nia.
  - nia.
  - rewrite Hl, HzL. split; nia.
Qed.

Lemma zero_limbs_mod A n k : 0 <= n -> 0 <= k -> (A ≫ n) mod 2 ^ k = 0 -> A mod 2 ^ (n + k) = A mod 2 ^ n.
Proof.
  intros Hn Hk Hz. rewrite mod_split, Hz by done. lia.
Qed.

(** A step over [k] bits that are zero in both operands does what the loop over their limbs does. *)
Lemma low_sum_skip A B is_sub n k carry z : 0 <= is_sub <= 1 -> 0 <= n -> 64 <= k -> (A ≫ n) mod 2 ^ k = 0 -> (B ≫ n) mod 2 ^ k = 0 -> low_sum A B is_sub n carry z ->
  exists u c, add_step 0 (0 .^ u64 (- is_sub)) carry = (u, c) /\ low_sum A B is_sub (n + k) c (z .| u).
Proof.
  intros Hs Hn Hk HA HB (L & HL & HLr & Hc & Hz & HzL). assert (Hp : 0 < 2 ^ n) by (by apply pow2_pos). assert (Hk2 : 1 < 2 ^ k) by (apply Z.pow_gt_1; lia).
  assert (Hpk : 2 ^ (n + k) = 2 ^ n * 2 ^ k) by (apply Z.pow_add_r; lia). set (P := 2 ^ n) in *. set (K := 2 ^ k) in *. 
  assert (Hu : exists u c, add_step 0 (0 .^ u64 (- is_sub)) carry = (u, c) /\ 0 <= u /\ 0 <= c <= 1 /\
             ((is_sub = 0 /\ u = carry /\ c = 0) \/ (is_sub = 1 /\ carry = 1 /\ u = 0 /\ c = 1) \/ (is_sub = 1 /\ carry = 0 /\ u = 2 ^ 64 - 1 /\ c = 0))).
  { assert (is_sub = 0 \/ is_sub = 1) as [-> | ->] by lia; assert (carry = 0 \/ carry = 1) as [->| ->] by lia; eexists _, _; (split; [reflexivity|]); vm_compute; intuition congruence. }
  destruct Hu as (u & c & Hu & Hu0 & Hc' & Hcases). exists u, c. split; [done|]. destruct (lor_zero z u Hz Hu0) as [Hl0 Hl].
  unfold low_sum, addend in *. rewrite !zero_limbs_mod by (done || lia). rewrite Hpk. fold P in HL |- *. destruct Hcases as [(-> & -> & ->)|[(-> & -> & -> & ->)|(-> & -> & -> & ->)]]; cbn [Z.eqb] in *.
  - exists (carry * P + L). split; [lia|]. split; [nia|]. split; [done|]. split; [done|]. rewrite Hl, HzL. split; nia.
  - exists L. split; [lia|]. split; [nia|]. split; [done|]. split; [done|]. rewrite Hl, HzL. lia.
  - exists (L + P * (K - 1)). split; [lia|]. split; [nia|]. split; [done|]. split; [done|]. rewrite Hl, HzL. split; nia.
Qed.

Section Loops.
Context (a b : bf_t) (r_len tot d is_sub : Z).
Context (La : limbs (tab a)) (Lb : limbs (tab b)) (Ha : len a <= 2 ^ 53) (Hb : len b <= 2 ^ 53) (Hd : 0 <= d <= 2 ^ 62).
Context (Htot : tot = bf_max (len a) (len b + (d + LIMB_BITS - 1) / LIMB_BITS)) (Hr : 0 <= r_len <= tot) (Hsub : 0 <= is_sub <= 1).

(** The mantissas as integers of [tot] limbs. *)
Definition aligned_a : Z := mpz (tab a) ≫ (64 * (len a - tot)).
Definition aligned_b : Z := mpz (tab b) ≫ ((len b - tot) * 64 + d).

Lemma tot_cases : len a <= tot /\ 64 * len b + d <= 64 * tot /\ (tot = len a \/ 64 * tot < 64 * len b + d + 64) /\ tot <= 2 ^ 57.
Proof. rewrite Htot. unfold bf_max. rewrite limb_bits_val. destruct (Z.ltb_spec (len b + (d + 64 - 1) / 64) (len a)); zdm. Qed.

Lemma limb_a i : - tot <= i <= tot -> mpz (tab a) ≫ (64 * (len a - r_len + i)) = aligned_a ≫ (64 * (i + tot - r_len)) \/ i + tot - r_len < 0.
Proof. intros Hi. destruct (Z.ltb_spec (i + tot - r_len) 0); [by right|left]. unfold aligned_a. rewrite Z.shiftr_shiftr by lia. f_equal. lia. Qed.

Lemma read_a i : r_len - tot <= i < 0 -> 
  (if (0 <=? len a - r_len + i) && (len a - r_len + i <? len a) then zget (tab a) (len a - r_len + i) else Some 0) = Some ((aligned_a ≫ (64 * (i + tot - r_len))) mod 2 ^ 64).
Proof.
  intros Hi. destruct tot_cases as (T1 & T2 & T3 & T4). destruct (limb_a i) as [<-|]; [lia| |lia]. assert (Hn : 0 <= len a) by apply zlen_nonneg.
  rewrite <- limb_at by (done || (unfold len in *; lia)). fold (len a).
  destruct (Z.leb_spec 0 (len a - r_len + i)); cbn [andb].
  - assert (u64 (len a - r_len + i) = len a - r_len + i) as -> by (unfold u64, wrapu; apply Z.mod_small; lia). done.
  - assert (u64 (len a - r_len + i) = len a - r_len + i + 2 ^ 64) as -> by (unfold u64, wrapu; symmetry; apply (Z.mod_unique_pos _ _ (-1)); lia).
    by rewrite (proj2 (Z.ltb_ge _ _)) by lia.
Qed.

Lemma outside_bits t pos : limbs t -> pos + 64 <= 0 \/ 64 * zlen t <= pos -> (mpz t ≫ pos) mod 2 ^ 64 = 0.
Proof.
  intros Ht Hp. pose proof (mpz_range t Ht) as Hm. rewrite bpow2 in Hm. destruct Hp as [Hp|Hp].
  - rewrite <- Z.shiftl_opp_r, Z.shiftl_mul_pow2 by lia. replace (- pos) with (- pos - 64 + 64) by lia. rewrite Z.pow_add_r, Z.mul_assoc by lia. by rewrite Z.mod_mul.
  - pose proof (zlen_nonneg t). rewrite Z.shiftr_div_pow2, Z.div_small; [done| |lia]. split; [lia|]. eapply Z.lt_le_trans; [apply Hm|]. apply Z.pow_le_mono_r; lia.
Qed.

Lemma read_b i : r_len - tot <= i < 0 -> 
  let bp := (len b - r_len) * 64 + d + i * 64 in
  (if (0 <? bp + 64) && (bp <? len b * 64) then get_bits (tab b) (len b) bp else Some 0) = Some ((aligned_b ≫ (64 * (i + tot - r_len))) mod 2 ^ 64).
Proof.
  intros Hi bp. destruct tot_cases as (T1 & T2 & T3 & T4). assert (Hbp : aligned_b ≫ (64 * (i + tot - r_len)) = mpz (tab b) ≫ bp).
  { unfold aligned_b, bp. rewrite Z.shiftr_shiftr by lia. f_equal. lia. }
  rewrite Hbp. assert (Hn : 0 <= len b) by apply zlen_nonneg. destruct (Z.ltb_spec 0 (bp + 64)); cbn [andb]; [|rewrite outside_bits by (done || lia); done].
  destruct (Z.ltb_spec bp (len b * 64)); [|rewrite outside_bits by (done || (unfold len in *; lia)); done].
  apply get_bits_spec; [done|unfold len in *; lia|unfold bp; lia].
Qed.

(** The steps that are left: limbs of [a], limbs of [b] and the gap. *)
Definition low_left (i : Z) : Z :=
  let ap := len a - r_len + i in
  let bp := (len b - r_len) * 64 + d + i * 64 in
  len a - Z.max 0 ap + Z.max 0 (Z.min (len b + 1) ((64 * len b - bp + 63) / 64)) + (if ap <? 0 then 1 else 0).

Lemma low_left_fuel i : low_left i <= Z.of_nat (low_fuel a b).
Proof. unfold low_left, low_fuel. assert (0 <= len a /\ 0 <= len b) by (split; apply zlen_nonneg). unfold len, zlen in *. case_match; lia. Qed.

Lemma gap_zero i i' : r_len - tot <= i < i' -> len a - r_len + i' <= 0 -> 64 * len b <= (len b - r_len) * 64 + d + i * 64 ->
  (aligned_a ≫ (64 * (i + tot - r_len))) mod 2 ^ (64 * (i' - i)) = 0 /\ (aligned_b ≫ (64 * (i + tot - r_len))) mod 2 ^ (64 * (i' - i)) = 0.
Proof.
  intros Hi Hi' Hgap. destruct tot_cases as (T1 & T2 & T3 & T4). assert (0 <= len a /\ 0 <= len b) by (split; apply zlen_nonneg). unfold aligned_a, aligned_b. rewrite !Z.shiftr_shiftr by lia. split.
  - rewrite <- Z.shiftl_opp_r, Z.shiftl_mul_pow2 by lia. set (x := - _). replace x with (x - 64 * (i' - i) + 64 * (i' - i)) by lia.
    rewrite Z.pow_add_r, Z.mul_assoc by lia. apply Z.mod_mul. pose proof (pow2_pos (64 * (i' - i)) ltac:(lia)). lia.
  - pose proof (mpz_range _ Lb) as Hm. rewrite bpow2 in Hm. fold (len b) in Hm. rewrite Z.shiftr_div_pow2, Z.div_small; [apply Z.mod_0_l; pose proof (pow2_pos (64 * (i' - i)) ltac:(lia)); lia| |lia].
    split; [lia|]. eapply Z.lt_le_trans; [apply Hm|]. apply Z.pow_le_mono_r; lia.
Qed.

(** The index after a step, and that there is one step less. *)
Lemma low_next i :
  r_len - tot <= i < 0 ->
  let ap := len a - r_len + i in
  let bp := (len b - r_len) * 64 + d + i * 64 in
  let in_a := (0 <=? ap) && (ap <? len a) in
  let in_b := (0 <? bp + 64) && (bp <? len b * 64) in
  (in_a || in_b = true /\ low_left (i + 1) + 1 <= low_left i) \/
  (in_a || in_b = false /\ ap < 0 /\ 64 * len b <= bp /\ in_a = false /\ in_b = false /\
   (if bp + 64 <=? 0 then bf_min (if ap <? 0 then bf_min 0 (- (len a - r_len)) else 0) ((- ((len b - r_len) * 64 + d)) ≫ LIMB_LOG2_BITS)
    else if ap <? 0 then bf_min 0 (- (len a - r_len)) else 0) = Z.min 0 (- (len a - r_len)) /\
   (Z.min 0 (- (len a - r_len)) < 0 -> low_left (Z.min 0 (- (len a - r_len))) + 1 <= low_left i)).
Proof.
  intros Hi ap bp in_a in_b. destruct tot_cases as (T1 & T2 & T3 & T4). assert (Hn : 0 <= len a /\ 0 <= len b) by (split; apply zlen_nonneg).
  assert (Hap : ap < len a) by (unfold ap; lia). destruct (in_a || in_b) eqn:Hin; [left|right]; (split; [done|]).
  - unfold low_left. replace (len a - r_len + (i + 1)) with (ap + 1) by (unfold ap; lia). fold ap. replace ((len b - r_len) * 64 + d + (i + 1) * 64) with (bp + 64) by (unfold bp; lia). fold bp.
    replace ((64 * len b - (bp + 64) + 63) / 64) with ((64 * len b - bp + 63) / 64 - 1) by (clear; zdm). apply orb_true_iff in Hin as [Hin|Hin].
    + apply andb_true_iff in Hin as [H1 _]. apply Z.leb_le in H1. rewrite !(proj2 (Z.ltb_ge _ 0)) by lia. lia.
    + apply andb_true_iff in Hin as [H1 H2]. apply Z.ltb_lt in H1, H2. assert (1 <= (64 * len b - bp + 63) / 64 <= len b + 1) by (clear - H1 H2 Hn; zdm).
      destruct (Z.ltb_spec (ap + 1) 0), (Z.ltb_spec ap 0); lia.
  - apply orb_false_iff in Hin as [Hia Hib]. assert (Ha0 : ap < 0) by (apply andb_false_iff in Hia as [Hia|Hia]; [apply Z.leb_gt in Hia; lia|apply Z.ltb_ge in Hia; lia]).
    assert (Hb0 : 64 * len b <= bp) by (apply andb_false_iff in Hib as [Hib|Hib]; [apply Z.ltb_ge in Hib; unfold ap, bp in *; lia|apply Z.ltb_ge in Hib; lia]).
    split; [done|]. split; [done|]. split; [done|]. split; [done|]. rewrite (proj2 (Z.leb_gt _ 0)), (proj2 (Z.ltb_lt ap 0)) by lia.
    split; [unfold bf_min; destruct (Z.ltb_spec 0 (- (len a - r_len))); lia|]. intros Hneg. unfold low_left. fold ap bp. rewrite (proj2 (Z.ltb_lt ap 0)) by done.
    replace (len a - r_len + Z.min 0 (- (len a - r_len))) with 0 by lia. cbn [Z.ltb Z.compare].
    assert (bp <= (len b - r_len) * 64 + d + Z.min 0 (- (len a - r_len)) * 64) by (unfold ap, bp in *; lia).
    assert ((64 * len b - ((len b - r_len) * 64 + d + Z.min 0 (- (len a - r_len)) * 64) + 63) / 64 <= (64 * len b - bp + 63) / 64) by (apply Z.div_le_mono; lia). lia.
Qed.

Lemma low_loop_spec fuel i carry z :
  r_len - tot <= i <= 0 -> low_left i <= Z.of_nat fuel -> low_sum aligned_a aligned_b is_sub (64 * (i + tot - r_len)) carry z ->
  exists c' z', low_loop fuel a b (len a - r_len) ((len b - r_len) * 64 + d) (u64 (- is_sub)) i carry z = Some (c', z') /\
    low_sum aligned_a aligned_b is_sub (64 * (tot - r_len)) c' z'.
Proof.
  revert i carry z. induction fuel as [|fuel IH]; intros i carry z Hi Hf Hsum.
  - assert (i = 0) as ->.
    { destruct (Z.ltb_spec i 0) as [Hneg|]; [|lia]. exfalso. unfold low_left in Hf. assert (0 <= len a) by apply zlen_nonneg. destruct (Z.ltb_spec (len a - r_len + i) 0); lia. }
    exists carry, z. split; [done|]. by replace (0 + tot - r_len) with (tot - r_len) in Hsum by lia.
  - cbn [low_loop]. destruct (Z.ltb_spec i 0) as [Hneg|]; [|assert (i = 0) as -> by lia; exists carry, z; split; [done|]; by replace (0 + tot - r_len) with (tot - r_len) in Hsum by lia].
    rewrite limb_bits_val. pose proof (read_a i ltac:(lia)) as Hra. pose proof (read_b i ltac:(lia)) as Hrb. cbn zeta in Hrb.
    destruct (low_next i ltac:(lia)) as [(Hin & Hless)|(Hin & Hap & Hbp & Hia & Hib & Hnext & Hless)]; cbn zeta in *.
    + rewrite Hra, Hrb. cbn [mbind option_bind]. rewrite Hin. cbn [negb].
      destruct (low_sum_step _ _ _ (64 * (i + tot - r_len)) _ _ Hsub ltac:(lia) Hsum) as (u & c & -> & Hsum'). apply IH; [lia|lia|]. by replace (64 * (i + 1 + tot - r_len)) with (64 * (i + tot - r_len) + 64) by lia.
    + rewrite Hia, Hib. cbn [mbind option_bind orb negb]. rewrite Hnext. set (i' := Z.min 0 (- (len a - r_len))) in *. assert (Hi' : i < i' /\ i' <= 0 /\ len a - r_len + i' <= 0) by (unfold i'; lia).
      destruct (gap_zero i i') as [HA HB]; [lia|lia|lia|].
      destruct (low_sum_skip _ _ _ (64 * (i + tot - r_len)) (64 * (i' - i)) _ _ Hsub ltac:(lia) ltac:(lia) HA HB Hsum) as (u & c & -> & Hsum').
      replace (64 * (i + tot - r_len) + 64 * (i' - i)) with (64 * (i' + tot - r_len)) in Hsum' by lia.
      destruct (Z.eqb_spec i' 0) as [He|He].
      * rewrite He in *. exists c, (z .| u). destruct fuel; (split; [done|]; by replace (0 + tot - r_len) with (tot - r_len) in Hsum' by lia).
      * apply IH; [lia|specialize (Hless ltac:(lia)); lia|done].
Qed.

Lemma high_loop_spec t i carry :
  0 <= i -> i + zlen t = r_len -> 0 <= carry <= 1 ->
  exists t' c', high_loop t a b (len a - r_len) ((len b - r_len) * 64 + d) (u64 (- is_sub)) i carry = Some (t', c') /\ limbs t' /\ length t' = length t /\ 0 <= c' <= 1 /\
    forall n, n = 64 * (i + tot - r_len) ->
    mpz t' + c' * 2 ^ (64 * zlen t) = (aligned_a ≫ n) mod 2 ^ (64 * zlen t) + addend is_sub (64 * zlen t) (aligned_b ≫ n) + carry.
Proof.
  destruct tot_cases as (T1 & T2 & T3 & T4). assert (Hn : 0 <= len a /\ 0 <= len b) by (split; apply zlen_nonneg).
  revert i carry. induction t as [|x t IH]; intros i carry Hi Hl Hc; cbn [high_loop].
  - exists [], carry. split; [done|]. split; [constructor|]. split; [done|]. split; [done|]. intros n _. change (64 * zlen []) with 0. change (2 ^ 0) with 1. unfold addend. rewrite !Z.mod_1_r. change (mpz []) with 0. destruct (is_sub =? 0); lia.
  - rewrite zlen_cons in Hl. pose proof (zlen_nonneg t) as Hz. rewrite limb_bits_val. rewrite get_limbz_spec by (done || lia).
    change (get_bits (tab b) (len b)) with (get_bits (tab b) (zlen (tab b))). rewrite get_bits_spec by (done || (unfold len in *; lia)). cbn [mbind option_bind]. set (n := 64 * (i + tot - r_len)).
    assert (HA : mpz (tab a) ≫ (64 * (len a - r_len + i)) = aligned_a ≫ n) by (unfold aligned_a, n; rewrite Z.shiftr_shiftr by lia; f_equal; lia).
    assert (HB : mpz (tab b) ≫ ((len b - r_len) * 64 + d + i * 64) = aligned_b ≫ n) by (unfold aligned_b, n; rewrite Z.shiftr_shiftr by lia; f_equal; lia).
    rewrite HA, HB. destruct (sub_limb_xor is_sub ((aligned_b ≫ n) mod 2 ^ 64) Hsub ltac:(done)) as [-> Hw].
    destruct (add_step_spec ((aligned_a ≫ n) mod 2 ^ 64) _ carry ltac:(done) Hw Hc) as (u & c & -> & Hu & Hc' & Hsum).
    destruct (IH (i + 1) c ltac:(lia) ltac:(lia) Hc') as (t' & c' & -> & Ht' & Hlt & Hc'' & Hval). cbn [mbind option_bind].
    exists (u :: t'), c'. split; [done|]. split; [by constructor|]. split; [simpl; lia|]. split; [done|]. intros n' ->. fold n. specialize (Hval (n + 64) ltac:(unfold n; lia)).
    rewrite mpz_cons. rewrite <- !(Z.shiftr_shiftr _ n 64) in Hval by lia. set (X := aligned_a ≫ n) in *. set (Y := aligned_b ≫ n) in *. set (m := 64 * zlen t) in *.
    assert (Hm : 0 <= m) by lia. replace (64 * zlen (x :: t)) with (64 + m) by (unfold m; rewrite zlen_cons; lia).
    rewrite mod_split, addend_split, addend_64, Z.pow_add_r, limb_base_val by lia. lia.
Qed.

(** ** Leading bits of the operands *)

(** The [k] top limbs. *)
Definition top_a (k : Z) : Z := mpz (tab a) ≫ (64 * (len a - k)).
Definition top_b (k : Z) : Z := mpz (tab b) ≫ (64 * (len b - k) + d).

Lemma aligned_top : aligned_a = top_a tot /\ aligned_b = top_b tot.
Proof. unfold aligned_a, aligned_b, top_a, top_b. split; [done|f_equal; lia]. Qed.

Lemma shiftr_limbs X s n : 0 <= n -> X ≫ s = (X ≫ (s + n)) * 2 ^ n + (X ≫ s) mod 2 ^ n.
Proof. intros Hn. rewrite <- Z.shiftr_shiftr, (Z.shiftr_div_pow2 _ n) by done. pose proof (pow2_pos n Hn). rewrite Z.mul_comm. apply Z.div_mod. lia. Qed.

Lemma shiftl_limbs X s n : 0 <= n -> s + n <= 0 -> X ≫ s = (X ≫ (s + n)) * 2 ^ n.
Proof. intros Hn Hs. rewrite <- !Z.shiftl_opp_r, !Z.shiftl_mul_pow2, <- Z.mul_assoc, <- Z.pow_add_r by lia. do 2 f_equal. lia. Qed.

Lemma top_diff k T : k <= T ->
  (top_a k - top_b k - 1) * 2 ^ (64 * (T - k)) < top_a T - top_b T < (top_a k - top_b k + 1) * 2 ^ (64 * (T - k)).
Proof.
  intros Hk. unfold top_a, top_b. set (n := 64 * (T - k)). assert (Hn : 0 <= n) by lia. pose proof (pow2_pos n Hn) as Hp.
  rewrite (shiftr_limbs (mpz (tab a)) (64 * (len a - T)) n Hn), (shiftr_limbs (mpz (tab b)) (64 * (len b - T) + d) n Hn).
  replace (64 * (len a - T) + n) with (64 * (len a - k)) by lia. replace (64 * (len b - T) + d + n) with (64 * (len b - k) + d) by lia.
  set (x := mpz (tab a) ≫ (64 * (len a - T))). set (y := mpz (tab b) ≫ _ ) at 1 4. pose proof (Z.mod_pos_bound x _ Hp). pose proof (Z.mod_pos_bound (mpz (tab b) ≫ (64 * (len b - T) + d)) _ Hp). lia.
Qed.

Lemma top_next k : 
  top_a (k + 1) = top_a k * 2 ^ 64 + (mpz (tab a) ≫ (64 * (len a - 1 - k))) mod 2 ^ 64 /\
  top_b (k + 1) = top_b k * 2 ^ 64 + (mpz (tab b) ≫ (64 * (len b - 1 - k) + d)) mod 2 ^ 64.
Proof.
  unfold top_a, top_b. split.
  - replace (64 * (len a - (k + 1))) with (64 * (len a - 1 - k)) by lia. rewrite (shiftr_limbs _ (64 * (len a - 1 - k)) 64) at 1 by lia. do 3 f_equal. lia.
  - replace (64 * (len b - (k + 1)) + d) with (64 * (len b - 1 - k) + d) by lia. rewrite (shiftr_limbs _ (64 * (len b - 1 - k) + d) 64) at 1 by lia. do 3 f_equal. lia.
Qed.

(** The values the loops of [count_cancelled_bits] read. *)
Lemma read_tops k : 0 <= k <= 2 ^ 55 -> d <= 1 ->
  exists v1 v2, get_limbz a ((len a * 64 - 1 - 64 * k) ≫ LIMB_LOG2_BITS) = Some v1 /\
    get_bits (tab b) (len b) (len a * 64 - 1 - 64 * k + ((len b - len a) * 64 - 63 + d)) = Some v2 /\
    is_limb v1 /\ is_limb v2 /\ top_a (k + 1) = top_a k * 2 ^ 64 + v1 /\ top_b (k + 1) = top_b k * 2 ^ 64 + v2 /\ (tot <= k -> v2 = 0).
Proof.
  intros Hk Hd1. destruct (top_next k) as [-> ->]. assert (Hn : 0 <= len a /\ 0 <= len b) by (split; apply zlen_nonneg). destruct tot_cases as (T1 & T2 & T3 & T4).
  eexists _, _. split; [|split; [|split; [apply limb_mod|split; [apply limb_mod|split; [done|split; [done|]]]]]].
  - destruct (pos_parts (len a * 64 - 1 - 64 * k)) as [-> _]. replace ((len a * 64 - 1 - 64 * k) / 64) with (len a - 1 - k) by (clear; zdm). apply get_limbz_spec; [done|lia|lia].
  - replace (len a * 64 - 1 - 64 * k + ((len b - len a) * 64 - 63 + d)) with (64 * (len b - 1 - k) + d) by lia. apply get_bits_spec; [done|unfold len in *; lia|lia].
  - intros Hge. apply outside_bits; [done|]. left. lia.
Qed.

(** What [count_cancelled_bits] has to find: that the difference is at least a power of two. *)
Definition covers (n : Z) : Prop := 2 ^ (64 * tot) <= (aligned_a - aligned_b) * 2 ^ (n + 1).

Lemma covers_at k n : 0 <= k -> 0 <= n -> 0 <= 64 * (k + 1) - 1 - n -> 2 ^ (64 * (k + 1) - 1 - n) + 1 <= top_a (k + 1) - top_b (k + 1) -> covers n.
Proof.
  intros Hk Hn He HD. destruct aligned_top as [Eaa Eab]. unfold covers. rewrite Eaa, Eab. assert (Hn0 : 0 <= len a /\ 0 <= len b) by (split; apply zlen_nonneg). destruct tot_cases as (T1 & T2 & T3 & T4).
  set (T := Z.max tot (k + 1)). pose proof (top_diff (k + 1) T ltac:(lia)) as [HT _]. pose proof (pow2_pos (64 * (T - (k + 1))) ltac:(lia)) as Hp.
  assert (H1 : 2 ^ (64 * T - 1 - n) <= top_a T - top_b T).
  { replace (64 * T - 1 - n) with (64 * (k + 1) - 1 - n + 64 * (T - (k + 1))) by lia. rewrite Z.pow_add_r by lia. nia. }
  assert (H2 : top_a T - top_b T = (top_a tot - top_b tot) * 2 ^ (64 * (T - tot))).
  { unfold top_a, top_b. rewrite (shiftl_limbs (mpz (tab a)) (64 * (len a - T)) (64 * (T - tot))), (shiftl_limbs (mpz (tab b)) (64 * (len b - T) + d) (64 * (T - tot))) by lia.
    replace (64 * (len a - T) + 64 * (T - tot)) with (64 * (len a - tot)) by lia. replace (64 * (len b - T) + d + 64 * (T - tot)) with (64 * (len b - tot) + d) by lia. lia. }
  pose proof (pow2_pos (64 * (T - tot)) ltac:(lia)) as Hp2. apply (Z.mul_le_mono_pos_r _ _ (2 ^ (64 * (T - tot)))); [done|].
  rewrite <- Z.pow_add_r by lia. replace (64 * tot + 64 * (T - tot)) with (64 * T - 1 - n + (n + 1)) by lia. rewrite Z.pow_add_r by lia. rewrite H2 in H1. pose proof (pow2_pos (n + 1) ltac:(lia)). nia.
Qed.

Lemma clz_bounds x : is_limb x -> 0 <= clz x <= 64 /\ x < 2 ^ (64 - clz x) /\ (clz x < 64 -> 2 ^ (63 - clz x) <= x).
Proof.
  intros Hx. destruct (decide (x = 0)) as [->|Hne]; [by vm_compute|]. destruct (clz_norm x Hx Hne) as [Hc Hcb]. split; [lia|].
  pose proof (pow2_pos (clz x) ltac:(lia)) as Hp. split.
  - apply (Z.mul_lt_mono_pos_r (2 ^ clz x)); [done|]. rewrite <- Z.pow_add_r by lia. replace (64 - clz x + clz x) with 64 by lia. lia.
  - intros _. apply (Z.mul_le_mono_pos_r _ _ (2 ^ clz x)); [done|]. rewrite <- Z.pow_add_r by lia. replace (63 - clz x + clz x) with 63 by lia. lia.
Qed.

(** The smaller of two numbers of leading zeros: one of the limbs reaches it. *)
Lemma clz_min x y : is_limb x -> is_limb y -> let c := bf_min (clz x) (clz y) in 0 <= c <= 64 /\ x < 2 ^ (64 - c) /\ y < 2 ^ (64 - c) /\ (c < 64 -> 2 ^ (63 - c) <= x + y).
Proof.
  intros Hx Hy c. destruct (clz_bounds x Hx) as (X1 & X2 & X3), (clz_bounds y Hy) as (Y1 & Y2 & Y3). destruct Hx, Hy. unfold c, bf_min. destruct (Z.ltb_spec (clz x) (clz y)).
  - split; [lia|]. split; [done|]. split; [|intros; specialize (X3 ltac:(lia)); lia]. eapply Z.lt_le_trans; [done|]. apply Z.pow_le_mono_r; lia.
  - split; [lia|]. split; [|split; [done|]; intros; specialize (Y3 ltac:(lia)); lia]. eapply Z.lt_le_trans; [done|]. apply Z.pow_le_mono_r; lia.
Qed.

(** Two limbs above the first bit in which they differ. *)
Lemma first_diff v1 v2 : is_limb v1 -> is_limb v2 -> v2 < v1 -> let q := 63 - clz (v1 .^ v2) in 0 <= q <= 63 /\ v1 / 2 ^ q = v2 / 2 ^ q + 1.
Proof.
  intros H1 H2 Hlt q. pose proof H1 as [Hv1 _]. pose proof H2 as [Hv2 _]. assert (Hx : is_limb (v1 .^ v2)).
  { assert (v1 .^ v2 = (v1 .^ v2) mod 2 ^ 64) as ->; [|apply limb_mod]. apply Z.bits_inj'. intros n Hn. rewrite Z.testbit_mod_pow2, Z.lxor_spec by lia.
    destruct (Z.ltb_spec n 64); [done|]. rewrite <- (Z.mod_small v1 (2 ^ 64)), <- (Z.mod_small v2 (2 ^ 64)) by done. by rewrite !Z.mod_pow2_bits_high by lia. }
  assert (Hne : v1 .^ v2 <> 0) by (intros He; apply Z.lxor_eq in He; lia). destruct (clz_norm _ Hx Hne) as [Hc _]. destruct (clz_bounds _ Hx) as (_ & Hhi & Hlo). specialize (Hlo ltac:(lia)).
  split; [lia|]. assert (Hq : 0 <= q) by lia. pose proof (pow2_pos q Hq) as Hp. replace (64 - clz (v1 .^ v2)) with (q + 1) in Hhi by lia. replace (63 - clz (v1 .^ v2)) with q in Hlo by lia. rewrite Z.pow_add_r in Hhi by lia.
  assert (Hone : (v1 / 2 ^ q) .^ (v2 / 2 ^ q) = 1).
  { rewrite <- !Z.shiftr_div_pow2, <- Z.shiftr_lxor by lia. rewrite Z.shiftr_div_pow2 by lia. symmetry. apply (Z.div_unique_pos _ _ _ (v1 .^ v2 - 2 ^ q)); lia. }
  assert (Hge : v2 / 2 ^ q <= v1 / 2 ^ q) by (apply Z.div_le_mono; lia). assert (Hy0 : 0 <= v2 / 2 ^ q) by (apply Z.div_pos; lia). set (x := v1 / 2 ^ q) in *. set (y := v2 / 2 ^ q) in *. clearbody x y.
  assert (Hy : x = y .^ 1) by (rewrite <- Hone, (Z.lxor_comm x), <- Z.lxor_assoc, Z.lxor_nilpotent; by rewrite Z.lxor_0_l). subst x.
  assert (Hc1 : y .^ 1 = y + 1 \/ y .^ 1 = y - 1). { clear - Hy0. destruct y as [|[p|p|]|p]; [by left|by right|by left|by right|lia]. }
  lia.
Qed.

(** The loop over equal limbs ends at the first difference. *)
Lemma equal_limbs_spec fuel k :
  aligned_b < aligned_a -> d <= 1 -> 0 <= k <= tot -> tot - k < Z.of_nat fuel -> top_a k = top_b k ->
  exists v1 v2 k', equal_limbs fuel a b ((len b - len a) * 64 - 63 + d) (len a * 64 - 1 - 64 * k) (64 * k) = Some (v1, v2, len a * 64 - 1 - 64 * k', 64 * k') /\
    k <= k' < tot /\ is_limb v1 /\ is_limb v2 /\ v2 < v1 /\ top_a (k' + 1) - top_b (k' + 1) = v1 - v2.
Proof.
  intros Hlt Hd1. destruct aligned_top as [Eaa Eab]. rewrite Eaa, Eab in Hlt. destruct tot_cases as (T1 & T2 & T3 & T4).
  revert k. induction fuel as [|fuel IH]; intros k Hk Hf Heq; [lia|]. cbn [equal_limbs].
  assert (Hkt : k < tot) by (destruct (Z.eqb_spec k tot) as [->|]; lia). assert (Ht : tot <= 2 ^ 55) by (destruct T3; lia).
  destruct (read_tops k ltac:(lia) Hd1) as (v1 & v2 & -> & -> & Hv1 & Hv2 & Ea & Eb & _). cbn [mbind option_bind]. destruct (Z.eqb_spec v1 v2) as [He|Hne]; cbn [negb].
  - rewrite limb_bits_val. destruct (IH (k + 1)) as (w1 & w2 & k' & Hrun & Hk' & Hrest); [lia|lia|congruence|]. exists w1, w2, k'. split; [|split; [lia|done]].
    replace (len a * 64 - 1 - 64 * k - 64) with (len a * 64 - 1 - 64 * (k + 1)) by lia. by replace (64 * k + 64) with (64 * (k + 1)) by lia.
  - exists v1, v2, k. split; [done|]. split; [lia|]. split; [done|]. split; [done|]. split; [|lia].
    pose proof (top_diff (k + 1) tot ltac:(lia)) as [_ HT]. pose proof (pow2_pos (64 * (tot - (k + 1))) ltac:(lia)). nia.
Qed.

(** The loop over zeros and ones. *)
Lemma zero_one_limbs_spec fuel k :
  d <= 1 -> 0 <= k <= tot -> tot - k < Z.of_nat fuel -> top_a k = top_b k + 1 ->
  exists n, zero_one_limbs fuel a b ((len b - len a) * 64 - 63 + d) (len a * 64 - 1 - 64 * k) (64 * k) = Some n /\ 0 <= n <= 64 * tot + 64 /\ covers n.
Proof.
  intros Hd1. destruct tot_cases as (T1 & T2 & T3 & T4). revert k. induction fuel as [|fuel IH]; intros k Hk Hf Heq; [lia|]. cbn [zero_one_limbs].
  assert (Ht : tot <= 2 ^ 55) by (destruct T3; lia).
  destruct (read_tops k ltac:(lia) Hd1) as (v1 & v2 & -> & -> & Hv1 & Hv2 & Ea & Eb & Hend). cbn [mbind option_bind]. change (u64 (-1)) with (2 ^ 64 - 1).
  destruct (negb (v1 =? 0) || negb (v2 =? 2 ^ 64 - 1)) eqn:Hstop.
  - rewrite lnot_limb by done. assert (Hw : is_limb (2 ^ 64 - 1 - v2)) by (unfold is_limb in *; rewrite limb_base_val in *; lia).
    destruct (clz_min v1 _ Hv1 Hw) as (Hc & Hx & Hy & Hlow). set (c := bf_min _ _) in *. eexists. split; [done|]. 
    assert (Hc64 : c < 64).
    { destruct (Z.eqb_spec c 64) as [He|]; [|lia]. exfalso. rewrite He in *. change (2 ^ (64 - 64)) with 1 in *. destruct Hv1, Hv2, Hw. assert (v1 = 0) as -> by lia. assert (v2 = 2 ^ 64 - 1) as -> by lia. done. }
    specialize (Hlow Hc64). split; [lia|]. apply (covers_at k); [lia|lia|lia|]. replace (64 * (k + 1) - 1 - (64 * k + c)) with (63 - c) by lia. lia.
  - apply orb_false_iff in Hstop as [Hs1 Hs2]. apply negb_false_iff in Hs1, Hs2. apply Z.eqb_eq in Hs1, Hs2.
    assert (Hkt : k < tot) by (destruct (Z.ltb_spec k tot); [done|]; rewrite Hend in Hs2 by lia; lia). rewrite limb_bits_val.
    destruct (IH (k + 1)) as (n & Hrun & Hn); [lia|lia|lia|]. exists n. split; [|done].
    replace (len a * 64 - 1 - 64 * k - 64) with (len a * 64 - 1 - 64 * (k + 1)) by lia. by replace (64 * k + 64) with (64 * (k + 1)) by lia.
Qed.

(** The limbs with the first difference: the bits after it are counted while [v1] has zeros
    and [v2] ones. *)
Lemma cancel_limb v1 v2 : is_limb v1 -> is_limb v2 -> v2 < v1 ->
  let p := 64 - (clz (v1 .^ v2) + 1) in
  let p1 := bf_min (clz (v1 .& limb_mask 0 (p - 1))) (clz (u64 (Z.lnot v2) .& limb_mask 0 (p - 1))) - (64 - p) in
  (p = 0 /\ v1 - v2 = 1) \/
  (0 < p <= 63 /\ 0 <= p1 <= p /\ ((p1 = p /\ v1 - v2 = 1) \/ (p1 < p /\ 2 ^ (p - 1 - p1) + 1 <= v1 - v2))).
Proof.
  intros H1 H2 Hlt p p1. destruct (first_diff v1 v2 H1 H2 Hlt) as [Hq Hdiv]. replace (63 - clz (v1 .^ v2)) with p in * by (unfold p; lia). clearbody p.
  assert (Hdif : v1 - v2 = 2 ^ p + v1 mod 2 ^ p - v2 mod 2 ^ p).
  { pose proof (pow2_pos p ltac:(lia)). rewrite (Z.div_mod v1 (2 ^ p)) at 1 by lia. rewrite (Z.div_mod v2 (2 ^ p)) at 1 by lia. rewrite Hdiv. lia. }
  destruct (Z.eqb_spec p 0) as [->|Hp]; [left; split; [done|]; rewrite Hdif; change (2 ^ 0) with 1; rewrite !Z.mod_1_r; lia|right]. split; [lia|].
  unfold p1. clear p1. rewrite limb_mask_low, lnot_limb by (done || lia). replace (p - 1 + 1) with p by lia. rewrite !Z.land_ones by lia. pose proof (pow2_pos p ltac:(lia)) as Hpp.
  assert (Hn : (2 ^ 64 - 1 - v2) mod 2 ^ p = 2 ^ p - 1 - v2 mod 2 ^ p).
  { pose proof (Z.mod_pos_bound v2 _ Hpp). symmetry. apply (Z.mod_unique_pos _ _ (2 ^ (64 - p) - 1 - v2 / 2 ^ p)); [lia|].
    assert (E : 2 ^ 64 = 2 ^ p * 2 ^ (64 - p)) by (rewrite <- Z.pow_add_r by lia; f_equal; lia). pose proof (Z.div_mod v2 (2 ^ p) ltac:(lia)). rewrite E. lia. }
  rewrite Hn. pose proof (Z.mod_pos_bound v1 _ Hpp) as M1. pose proof (Z.mod_pos_bound v2 _ Hpp) as M2. set (x := v1 mod 2 ^ p) in *. set (y := 2 ^ p - 1 - v2 mod 2 ^ p).
  assert (Hle : 2 ^ p <= 2 ^ 63) by (apply Z.pow_le_mono_r; lia). assert (Hsum : v1 - v2 = x + y + 1) by (unfold y; lia). assert (Hy : 0 <= y < 2 ^ p) by (unfold y; lia). clearbody x y.
  assert (Hlx : is_limb x /\ is_limb y) by (unfold is_limb; rewrite limb_base_val; lia). destruct Hlx as [Hlx Hly].
  destruct (clz_min x y Hlx Hly) as (Hc & Hcx & Hcy & Hlow). destruct (clz_bounds x Hlx) as (_ & _ & Cx). destruct (clz_bounds y Hly) as (_ & _ & Cy).
  assert (Hge : 64 - p <= bf_min (clz x) (clz y)).
  { assert (forall z, z < 2 ^ p -> (clz z < 64 -> 2 ^ (63 - clz z) <= z) -> 64 - p <= clz z) as Hcl.
    { intros w Hw Hcw. destruct (Z.ltb_spec (clz w) (64 - p)) as [Hlt'|]; [|done]. specialize (Hcw ltac:(lia)). assert (2 ^ p <= 2 ^ (63 - clz w)) by (apply Z.pow_le_mono_r; lia). lia. }
    pose proof (Hcl x ltac:(lia) Cx). pose proof (Hcl y ltac:(lia) Cy). unfold bf_min. case_match; lia. }
  set (c := bf_min (clz x) (clz y)) in *. clearbody c. split; [lia|]. destruct (Z.eqb_spec c 64) as [->|Hne].
  - left. change (2 ^ (64 - 64)) with 1 in *. lia.
  - right. split; [lia|]. specialize (Hlow ltac:(lia)). replace (p - 1 - (c - (64 - p))) with (63 - c) by lia. lia.
Qed.

Lemma tops_start : top_a 0 = 0 /\ top_b 0 = 0.
Proof.
  assert (Hn : 0 <= len a /\ 0 <= len b) by (split; apply zlen_nonneg). unfold top_a, top_b. pose proof (mpz_range _ La) as Ra. pose proof (mpz_range _ Lb) as Rb. rewrite bpow2 in Ra, Rb.
  rewrite !Z.shiftr_div_pow2 by lia. split; apply Z.div_small; (split; [lia|]).
  - replace (64 * (len a - 0)) with (64 * len a) by lia. apply Ra.
  - eapply Z.lt_le_trans; [apply Rb|]. apply Z.pow_le_mono_r; [lia|]. unfold len in *. lia.
Qed.

(** The number of cancelled bits is enough, and is a bounded number. *)
Lemma count_cancelled_bits_spec :
  aligned_b < aligned_a -> d = expn a - expn b -> d <= 1 -> 1 <= len a ->
  exists n, count_cancelled_bits a b = Some n /\ 0 <= n <= 64 * tot + 64 /\ covers n.
Proof.
  intros Hlt Hde Hd1 Hla. destruct tot_cases as (T1 & T2 & T3 & T4). assert (Hn : 0 <= len b) by apply zlen_nonneg. unfold count_cancelled_bits. rewrite limb_bits_val.
  rewrite !i64_small by lia. replace ((len b - len a) * 64 - (64 - 1) + expn a - expn b) with ((len b - len a) * 64 - 63 + d) by lia. destruct tops_start as [S1 S2].
  assert (Hfuel : tot < Z.of_nat (cancel_fuel a b)) by (unfold cancel_fuel, len, zlen in *; lia).
  destruct (equal_limbs_spec (cancel_fuel a b) 0 Hlt Hd1) as (v1 & v2 & k & Hrun & Hk & Hv1 & Hv2 & Hv & HD); [lia|lia|congruence|].
  replace (len a * 64 - 1 - 64 * 0) with (len a * 64 - 1) in Hrun by lia. change (64 * 0) with 0 in Hrun. rewrite Hrun. cbn [mbind option_bind].
  assert (Hnext : v1 - v2 = 1 -> exists n, zero_one_limbs (cancel_fuel a b) a b ((len b - len a) * 64 - 63 + d) (len a * 64 - 1 - 64 * k - 64) (64 * (k + 1)) = Some n /\ 0 <= n <= 64 * tot + 64 /\ covers n).
  { intros Hone. replace (len a * 64 - 1 - 64 * k - 64) with (len a * 64 - 1 - 64 * (k + 1)) by lia. apply zero_one_limbs_spec; lia. }
  pose proof (cancel_limb v1 v2 Hv1 Hv2 Hv) as Hcl. cbn zeta in Hcl. set (p := 64 - (clz (v1 .^ v2) + 1)) in *. set (p1 := bf_min _ _ - _) in *. replace (64 * k + (clz (v1 .^ v2) + 1)) with (64 * k + (64 - p)) by (unfold p; lia). clearbody p p1.
  destruct Hcl as [(-> & Hone)|(Hp & Hp1 & Hcl)].
  - change (0 <? 0) with false. cbv iota. replace (64 * k + (64 - 0)) with (64 * (k + 1)) by lia. by apply Hnext.
  - rewrite (proj2 (Z.ltb_lt 0 p)) by lia. destruct Hcl as [(-> & Hone)|(Hlt1 & Hpow)].
    + rewrite Z.eqb_refl. cbn [negb]. replace (64 * k + (64 - p) + p) with (64 * (k + 1)) by lia. by apply Hnext.
    + rewrite (proj2 (Z.eqb_neq p1 p)) by lia. cbn [negb]. eexists. split; [done|]. split; [lia|]. apply (covers_at k); [lia|lia|lia|].
      replace (64 * (k + 1) - 1 - (64 * k + (64 - p) + p1)) with (p - 1 - p1) by lia. lia.
Qed.

(** ** The sum *)

Lemma aligned_ranges : bpow (tab a) <= 2 * mpz (tab a) -> 1 <= len a ->
  aligned_a = mpz (tab a) * 2 ^ (64 * (tot - len a)) /\ aligned_b = mpz (tab b) * 2 ^ (64 * (tot - len b) - d) /\
  2 ^ (64 * tot) <= 2 * aligned_a /\ aligned_a < 2 ^ (64 * tot) /\ 0 <= aligned_b < 2 ^ (64 * tot - d).
Proof.
  intros Hnorm Hla. destruct tot_cases as (T1 & T2 & T3 & T4). assert (Hn : 0 <= len b) by apply zlen_nonneg.
  pose proof (mpz_range _ La) as Ra. pose proof (mpz_range _ Lb) as Rb. rewrite bpow2 in Ra, Rb, Hnorm. fold (len a) in *. fold (len b) in *.
  assert (EA : aligned_a = mpz (tab a) * 2 ^ (64 * (tot - len a))) by (unfold aligned_a; rewrite <- Z.shiftl_opp_r, Z.shiftl_mul_pow2 by lia; do 2 f_equal; lia).
  assert (EB : aligned_b = mpz (tab b) * 2 ^ (64 * (tot - len b) - d)) by (unfold aligned_b; rewrite <- Z.shiftl_opp_r, Z.shiftl_mul_pow2 by lia; do 2 f_equal; lia).
  split; [done|]. split; [done|]. rewrite EA, EB. pose proof (pow2_pos (64 * (tot - len a)) ltac:(lia)). pose proof (pow2_pos (64 * (tot - len b) - d) ltac:(lia)).
  replace (64 * tot - d) with (64 * len b + (64 * (tot - len b) - d)) by lia. replace (64 * tot) with (64 * len a + 64 * (tot - len a)) at 1 2 by lia. rewrite !Z.pow_add_r by lia. nia.
Qed.

(** Both loops together: the limbs of the result and a sticky value for the rest. *)
Lemma sum_exact t :
  bpow (tab a) <= 2 * mpz (tab a) -> 1 <= len a -> zlen t = r_len ->
  exists carry z t' c' L,
    low_loop (low_fuel a b) a b (len a - r_len) ((len b - r_len) * 64 + d) (u64 (- is_sub)) (r_len - tot) is_sub 0 = Some (carry, z) /\
    high_loop t a b (len a - r_len) ((len b - r_len) * 64 + d) (u64 (- is_sub)) 0 carry = Some (t', c') /\
    limbs t' /\ zlen t' = r_len /\ 0 <= c' <= 1 /\ 0 <= L < 2 ^ (64 * (tot - r_len)) /\ (z = 0 <-> L = 0) /\
    aligned_a + (if is_sub =? 0 then aligned_b else 2 ^ (64 * tot) - aligned_b) = (mpz t' + c' * 2 ^ (64 * r_len)) * 2 ^ (64 * (tot - r_len)) + L.
Proof.
  intros Hnorm Hla Ht. destruct (aligned_ranges Hnorm Hla) as (_ & _ & _ & RA & RB). assert (RA0 : 0 <= aligned_a) by (unfold aligned_a; apply Z.shiftr_nonneg, mpz_range, La).
  assert (RB' : aligned_b < 2 ^ (64 * tot)) by (eapply Z.lt_le_trans; [apply RB|]; apply Z.pow_le_mono_r; lia).
  destruct (low_loop_spec (low_fuel a b) (r_len - tot) is_sub 0) as (carry & z & Hlow & L & HL & HLr & Hc & _ & Hz); [lia|apply low_left_fuel| |].
  { exists 0. replace (64 * (r_len - tot + tot - r_len)) with 0 by lia. change (2 ^ 0) with 1. unfold addend. rewrite !Z.mod_1_r. destruct (is_sub =? 0); lia. }
  destruct (high_loop_spec t 0 carry) as (t' & c' & Hhigh & Lt & Hlt & Hc' & Hval); [lia|lia|done|]. specialize (Hval _ eq_refl). rewrite Ht in Hval. replace (0 + tot - r_len) with (tot - r_len) in Hval by lia.
  exists carry, z, t', c', L. split; [done|]. split; [done|]. split; [done|]. split; [unfold zlen in *; lia|]. split; [done|]. split; [done|]. split; [done|].
  set (n := 64 * (tot - r_len)) in *. set (m := 64 * r_len) in *. assert (Hnm : 64 * tot = n + m) by lia. rewrite Hnm in *.
  assert (EA : aligned_a = aligned_a mod 2 ^ n + 2 ^ n * ((aligned_a ≫ n) mod 2 ^ m)) by (rewrite <- mod_split, Z.mod_small by lia; done).
  assert (EB : (if is_sub =? 0 then aligned_b else 2 ^ (n + m) - aligned_b) = addend is_sub n aligned_b + 2 ^ n * addend is_sub m (aligned_b ≫ n) + is_sub).
  { rewrite <- addend_split by lia. unfold addend. rewrite Z.mod_small by lia. destruct (Z.eqb_spec is_sub 0); lia. }
  rewrite EB, EA. lia.
Qed.
End Loops.

(** ** The rounded sum *)

Definition signed (s m : Z) : Z := if s =? 0 then m else - m.

Definition neg_val (neg : Z) (v : bfval) : bfval :=
  match v with VNan => VNan | VInf s => VInf (s .^ neg) | VZero s => VZero (s .^ neg) | VFin s m e => VFin (s .^ neg) m e end.

(** The sign of a zero that is the sum of opposite numbers. *)
Definition zero_sign (flags : Z) : Z := b2z (mode_of flags =? BF_RNDD).

Definition add_val (v1 v2 : bfval) (prec flags : Z) : bfval * Z :=
  match v1, v2 with
  | VNan, _ | _, VNan => (VNan, 0)
  | VInf s1, VInf s2 => if s1 =? s2 then (VInf s1, 0) else (VNan, BF_ST_INVALID_OP)
  | VInf s, _ | _, VInf s => (VInf s, 0)
  | VZero s1, VZero s2 => (VZero (if s1 =? s2 then s1 else zero_sign flags), 0)
  | VZero _, v | v, VZero _ => round_of v prec flags
  | VFin s1 m1 e1, VFin s2 m2 e2 =>
      let e := Z.min e1 e2 in
      let x := signed s1 m1 * 2 ^ (e1 - e) + signed s2 m2 * 2 ^ (e2 - e) in
      if x =? 0 then (VZero (zero_sign flags), 0) else round_val (b2z (x <? 0)) (Z.abs x) e prec flags
  end.

(** A number cut after [n] bits, with a bit set when a bit below is. *)
Lemma cut_sticky y L n z : 0 <= n -> 0 <= L < 2 ^ n -> (z = 0 <-> L = 0) ->
  sticky_of (y .| b2z (negb (z =? 0))) (y * 2 ^ n + L) n.
Proof.
  intros Hn HL Hz. pose proof (pow2_pos n Hn) as Hp. unfold sticky_of. rewrite Z.pow_add_r by lia. change (2 ^ 1) with 2. rewrite <- Z.div_div, Z.div_add_l, (Z.div_small L), Z.add_0_r by lia.
  assert (Hmod : (y * 2 ^ n + L) mod (2 ^ n * 2) = L + 2 ^ n * (y mod 2)).
  { rewrite Z.rem_mul_r by lia. rewrite Z.div_add_l, (Z.div_small L), Z.add_0_r by lia. f_equal. rewrite Z.add_comm, Z.mod_add, Z.mod_small by lia. done. }
  rewrite Hmod. pose proof (Z.mod_pos_bound y 2 ltac:(lia)). destruct (Z.eqb_spec z 0) as [He|He]; cbn [negb b2z].
  - rewrite Z.lor_0_r, (proj1 Hz He). split; [done|]. nia.
  - rewrite or_one. assert (L <> 0) by (intros HL0; by apply He, Hz). split; [zdm|]. split; [zdm|nia].
Qed.

Lemma or_low_ge y s : 0 <= s <= 1 -> y <= y .| s.
Proof. intros Hs. assert (s = 0 \/ s = 1) as [->| ->] by lia; [rewrite Z.lor_0_r; lia|rewrite or_one; zdm]. Qed.

Lemma round_cut s y L n z e prec flags :
  has_flag flags BF_FLAG_RADPNT_PREC = false -> 1 <= prec -> 0 <= n -> 0 <= L < 2 ^ n -> (z = 0 <-> L = 0) -> 0 < y * 2 ^ n + L -> n = 0 \/ 2 ^ (prec + 1) <= y ->
  round_any s (y .| b2z (negb (z =? 0))) e prec flags = round_val s (y * 2 ^ n + L) (e - n) prec flags.
Proof.
  intros Hrad Hp Hn HL Hz HW Hbits. unfold round_any. destruct Hbits as [->|Hbits].
  - change (2 ^ 0) with 1 in *. assert (L = 0) as -> by lia. rewrite (proj2 Hz eq_refl). cbn [Z.eqb negb b2z]. rewrite Z.lor_0_r, Z.mul_1_r, Z.add_0_r, Z.sub_0_r in *. by rewrite (proj2 (Z.eqb_neq y 0)) by lia.
  - pose proof (or_low_ge y (b2z (negb (z =? 0))) (b2z_range _)) as Hge. assert (2 ^ 2 <= 2 ^ (prec + 1)) by (apply Z.pow_le_mono_r; lia). change (2 ^ 2) with 4 in *.
    rewrite (proj2 (Z.eqb_neq _ 0)) by lia. apply round_sticky; [done|done|lia| |by apply cut_sticky].
    assert (Z.log2 (2 ^ (prec + 1)) <= Z.log2 (y .| b2z (negb (z =? 0)))) by (apply Z.log2_le_mono; lia). rewrite Z.log2_pow2 in * by lia. lia.
Qed.

Lemma or_lowest t s : limbs t -> 1 <= zlen t -> 0 <= s <= 1 ->
  exists v t', zget t 0 = Some v /\ zset t 0 (v .| s) = Some t' /\ limbs t' /\ zlen t' = zlen t /\ mpz t' = mpz t .| s.
Proof.
  intros Ht Hl Hs. destruct (set_sticky t s Ht ltac:(by intros ->) Hs) as (t' & Hset & Ht' & Hlen & Hm). destruct t as [|v t]; [done|]. exists v, t'. split; [done|].
  split; [|split; [done|split; [by unfold zlen; rewrite Hlen|done]]]. change (zget (v :: t) 0) with (Some v) in *. cbn [mbind option_bind] in *. destruct (Z.eqb_spec s 0) as [->|]; cbn [negb] in Hset.
  - rewrite Z.lor_0_r, (zset_mid [] v t 0) by done. exact Hset.
  - assert (s = 1) as -> by lia. exact Hset.
Qed.

Section AddSpec.
Context `{!Allocator} `{R : !Realloc} `{F : !FftMul} {Sok : ShrinkOk} {Fok : FftMulOk}.

(** The operands of [add_mantissas]. *)
Record operands (a b : bf_t) (tot d is_sub : Z) : Prop := {
  op_a : bf_wf a;
  op_b : bf_wf b;
  op_la : 1 <= len a;
  op_lb : 1 <= len b;
  op_sa : 64 * len a <= 2 ^ 58;
  op_sb : 64 * len b <= 2 ^ 58;
  op_d : d = expn a - expn b;
  op_d0 : 0 <= d;
  op_tot : tot = bf_max (len a) (len b + (d + LIMB_BITS - 1) / LIMB_BITS);
  op_sub : 0 <= is_sub <= 1;
  op_gt : is_sub = 1 -> aligned_b b tot d < aligned_a a tot }.

(** The exact sum, an integer of [tot] limbs. *)
Definition exact_sum (a b : bf_t) (tot d is_sub : Z) : Z :=
  if is_sub =? 0 then aligned_a a tot + aligned_b b tot d else aligned_a a tot - aligned_b b tot d.

Lemma operand_facts a b tot d is_sub : operands a b tot d is_sub ->
  limbs (tab a) /\ limbs (tab b) /\ bpow (tab a) <= 2 * mpz (tab a) /\ - 2 ^ 61 <= expn a <= 2 ^ 61 /\ 0 <= d <= 2 ^ 62 /\ len a <= 2 ^ 53 /\ len b <= 2 ^ 53.
Proof.
  intros [Ha Hb Hla Hlb Hsa Hsb -> Hd0 _ _ _]. destruct (wf_cases a Ha) as [(? & _)|(_ & _ & Hna & Hea & _)]; [lia|]. destruct (wf_cases b Hb) as [(? & _)|(_ & _ & _ & Heb & _)]; [lia|].
  split; [apply wf_limbs, Ha|]. split; [apply wf_limbs, Hb|]. split; [done|]. lia.
Qed.

Lemma cancel_enough a b tot d is_sub : operands a b tot d is_sub ->
  exists c, (if negb (is_sub =? 0) then if d <=? 1 then count_cancelled_bits a b else Some 1 else Some 0) = Some c /\
    0 <= c <= 2 ^ 58 + 128 /\ 2 ^ (64 * tot) <= exact_sum a b tot d is_sub * 2 ^ (c + 1).
Proof.
  intros Hop. destruct (operand_facts _ _ _ _ _ Hop) as (La & Lb & Hna & Hea & Hd & H53a & H53b). destruct Hop as [Ha Hb Hla Hlb Hsa Hsb Hde Hd0 Htot Hsub Hgt].
  destruct (aligned_ranges a b tot d La Lb H53a H53b Hd Htot Hna Hla) as (_ & _ & RA & RA' & RB). destruct (tot_cases a b tot d H53a H53b Hd Htot) as (T1 & T2 & T3 & T4). unfold exact_sum.
  destruct (Z.eqb_spec is_sub 0) as [->|Hne]; cbn [negb].
  - exists 0. split; [done|]. split; [lia|]. change (2 ^ (0 + 1)) with 2. lia.
  - specialize (Hgt ltac:(lia)). destruct (Z.leb_spec d 1) as [Hd1|Hd1].
    + destruct (count_cancelled_bits_spec a b tot d La Lb H53a H53b Hd Htot Hgt Hde Hd1 Hla) as (n & -> & Hn & Hcov). exists n. split; [done|]. split; [lia|exact Hcov].
    + exists 1. split; [done|]. split; [lia|]. change (2 ^ (1 + 1)) with 4. assert (2 ^ (64 * tot - d) <= 2 ^ (64 * tot - 2)) by (apply Z.pow_le_mono_r; lia).
      replace (64 * tot) with (64 * tot - 2 + 2) in * by lia. rewrite Z.pow_add_r in * by lia. change (2 ^ 2) with 4 in *. replace (64 * tot - 2 + 2 - 2) with (64 * tot - 2) in * by lia. lia.
Qed.

Lemma bf_resize_grow o r n : len r <= n ->
  (exists o' ext, bf_resize o r n = (o', with_tab r (tab r ++ ext), 0) /\ zlen ext = n - len r) \/ (exists o', bf_resize o r n = (o', r, -1) /\ realloc_refuses).
Proof.
  intros Hn. unfold bf_resize. pose proof (zlen_nonneg (tab r)) as H0. destruct (Z.eqb_spec n (len r)) as [->|Hne]; cbn [negb].
  - left. exists o, []. rewrite app_nil_r. split; [by destruct r|unfold zlen; simpl; lia].
  - unfold len in *. destruct (realloc_ptr o (8 * zlen (tab r)) (8 * n)) as [o1 [fill|]] eqn:Hre.
    + left. exists o1, (map fill (seq (length (tab r)) (Z.to_nat n - length (tab r)))). unfold realloc_block, zlen in *. rewrite take_ge by lia. split; [done|]. rewrite length_map, length_seq. lia.
    + right. rewrite (proj2 (Z.eqb_neq n 0)) by lia. exists o1. split; [done|]. exists o, (8 * zlen (tab r)), (8 * n), o1. split; [lia|done].
Qed.

(** The end of [add_mantissas]: the carry becomes a limb. *)
Lemma add_carry_out o s ea t c rl prec flags :
  limbs t -> zlen t = rl -> 1 <= rl -> 64 * rl + 64 <= 2 ^ 60 -> 0 <= s <= 1 -> - 2 ^ 61 <= ea <= 2 ^ 61 -> flags_ok prec flags -> 1 <= prec ->
  gives_val (if negb (c =? 0) then
      let '(o, r, st) := bf_resize o (mkBf s ea t) (rl + 1) in
      if negb (st =? 0) then Some (bf_mem_error o r)
      else t ← zset (tab r) rl 1; bf_normalize_and_round o (with_expn (with_tab r t) (i64 (expn r + 64))) prec flags
    else bf_normalize_and_round o (mkBf s ea t) prec flags)
    (round_any s (mpz t + b2z (negb (c =? 0)) * 2 ^ (64 * rl)) (ea - 64 * rl) prec flags).
Proof.
  intros Ht Hl Hrl H60 Hs He Hf Hp. destruct (Z.eqb_spec c 0) as [Hc|Hc]; cbn [negb b2z].
  - rewrite Z.mul_0_l, Z.add_0_r. pose proof (bf_normalize_and_round_spec o (mkBf s ea t) prec flags) as Hn. cbn [tab bf_sign expn] in Hn. unfold len in Hn. cbn [tab] in Hn. rewrite Hl in Hn. apply Hn; (done || lia).
  - destruct (bf_resize_grow o (mkBf s ea t) (rl + 1)) as [(o' & ext & -> & Hext)|(o' & -> & Href)]; [unfold len; cbn [tab]; lia| |apply bf_mem_error_spec; by right].
    unfold len in Hext. cbn [with_tab tab bf_sign expn Z.eqb negb] in *. destruct ext as [|x [|y ext]]; [unfold zlen in *; simpl in *; lia| |unfold zlen in *; simpl in *; lia].
    rewrite (zset_mid t x [] rl 1) by lia. cbn [mbind option_bind]. rewrite i64_small by lia.
    pose proof (bf_normalize_and_round_spec o' (mkBf s (ea + 64) (t ++ [1])) prec flags) as Hn. cbn [tab bf_sign expn] in Hn. unfold len in Hn. cbn [tab] in Hn.
    assert (Hl1 : zlen (t ++ [1]) = rl + 1) by (rewrite zlen_app; unfold zlen in *; simpl; lia). rewrite Hl1, mpz_app, mpz_cons, bpow2, Hl in Hn. change (mpz []) with 0 in Hn.
    replace (mpz t + 1 * 2 ^ (64 * rl)) with (mpz t + 2 ^ (64 * rl) * (1 + LIMB_BASE * 0)) by lia. replace (ea - 64 * rl) with (ea + 64 - 64 * (rl + 1)) by lia.
    apply Hn; [|lia|done|lia|done|done]. apply Forall_app_2; [done|]. constructor; [|constructor]. unfold is_limb. rewrite limb_base_val. lia.
Qed.

Lemma or_scaled y k n s : 1 <= n -> 0 <= s <= 1 -> (y .| s) + k * 2 ^ n = (y + k * 2 ^ n) .| s.
Proof.
  intros Hn Hs. assert (s = 0 \/ s = 1) as [->| ->] by lia; [by rewrite !Z.lor_0_r|]. rewrite !or_one. replace (2 ^ n) with (2 * 2 ^ (n - 1)) by (rewrite <- Z.pow_succ_r by lia; f_equal; lia).
  replace (k * (2 * 2 ^ (n - 1))) with (k * 2 ^ (n - 1) * 2) by ring.
  rewrite Z.div_add by lia. lia.
Qed.

(** The bits that are left after [c] have been cancelled and [n] cut off. *)
Lemma cut_bits W y L n c N prec : W = y * 2 ^ n + L -> 0 <= n -> 0 <= c -> 0 <= prec -> 0 <= L < 2 ^ n -> c + prec + 2 + n <= N -> 2 ^ N <= W * 2 ^ (c + 1) -> 2 ^ (prec + 1) <= y.
Proof.
  intros HW Hn Hc Hp HL HN Hge. destruct (Z.leb_spec (2 ^ (prec + 1)) y) as [|Hlt]; [done|exfalso]. assert (H1 : (y + 1) * 2 ^ n <= 2 ^ (prec + 1) * 2 ^ n) by (apply Z.mul_le_mono_nonneg_r; [apply Z.pow_nonneg|]; lia).
  assert (H2 : W < 2 ^ (prec + 1 + n)) by (rewrite Z.pow_add_r by lia; lia). pose proof (pow2_pos (c + 1) ltac:(lia)).
  assert (H3 : W * 2 ^ (c + 1) < 2 ^ (prec + 1 + n) * 2 ^ (c + 1)) by (apply Z.mul_lt_mono_pos_r; lia). rewrite <- Z.pow_add_r in H3 by lia.
  assert (2 ^ (prec + 1 + n + (c + 1)) <= 2 ^ N) by (apply Z.pow_le_mono_r; lia). lia.
Qed.

(** The carry of a subtraction. *)
Lemma sub_carry A B E P Q y c L : E = P * Q -> A + (E - B) = (y + c * P) * Q + L -> B < A -> 0 <= c <= 1 -> 0 <= y < P -> 0 <= L < Q -> A - B = y * Q + L.
Proof.
  intros -> Hsum Hlt Hc Hy HL. assert ((y + 1) * Q <= P * Q) by (apply Z.mul_le_mono_nonneg_r; lia). assert (c = 0 \/ c = 1) as [->| ->] by lia; lia.
Qed.

Lemma add_mantissas_spec o r a b a_sign is_sub prec flags tot d :
  operands a b tot d is_sub -> 0 <= a_sign <= 1 -> flags_ok prec flags -> 1 <= prec -> has_flag flags BF_FLAG_RADPNT_PREC = false -> (prec = BF_PREC_INF -> d <= 2 ^ 59) ->
  gives_val (add_mantissas o r a b a_sign is_sub prec flags) (round_val a_sign (exact_sum a b tot d is_sub) (expn a - 64 * tot) prec flags).
Proof.
  intros Hop Hs Hf Hp Hrad Hinf. destruct (operand_facts _ _ _ _ _ Hop) as (La & Lb & Hna & Hea & Hd & H53a & H53b).
  destruct (cancel_enough _ _ _ _ _ Hop) as (c & Hcanc & Hc & Hcov). destruct Hop as [Ha Hb Hla Hlb Hsa Hsb Hde Hd0 Htot Hsub Hgt].
  destruct (tot_cases a b tot d H53a H53b Hd Htot) as (T1 & T2 & T3 & T4). destruct (aligned_ranges a b tot d La Lb H53a H53b Hd Htot Hna Hla) as (_ & _ & RA & RA' & RB).
  unfold add_mantissas. rewrite (i64_small (expn a - expn b)), <- Hde by lia. rewrite Hcanc. cbn [mbind option_bind]. rewrite <- Htot.
  set (precl := (c + prec + 2 + LIMB_BITS - 1) / LIMB_BITS). assert (Hpl : c + prec + 2 <= 64 * precl <= c + prec + 65) by (unfold precl; rewrite limb_bits_val; clear; zdm). clearbody precl.
  set (r_len := bf_min precl tot). assert (Hrl : r_len = tot /\ tot <= precl \/ r_len = precl /\ precl < tot) by (unfold r_len, bf_min; destruct (Z.ltb_spec precl tot); lia).
  assert (Hr : 1 <= r_len <= tot /\ 64 * r_len + 64 <= 2 ^ 60) by (destruct (fo_prec _ _ Hf) as [Hpi|Hpi]; [specialize (Hinf Hpi); unfold BF_PREC_INF, BF_PREC_MAX in Hpi; vm_compute in Hpi|]; lia). clearbody r_len.
  destruct (bf_resize_spec o (with_expn (with_sign r a_sign) (expn a)) r_len ltac:(lia)) as [(o1 & t & -> & Hlt & _)|(o1 & -> & _ & Href)]; [|apply bf_mem_error_spec; by right].
  cbn [Z.eqb negb with_tab with_expn with_sign tab bf_sign expn]. rewrite limb_bits_val, !i64_small by lia.
  destruct (sum_exact a b r_len tot d is_sub La Lb H53a H53b Hd Htot ltac:(lia) Hsub t Hna Hla Hlt) as (carry & z & t' & c' & L & -> & Hhigh & Lt' & Hlt' & Hc' & HL & Hz & Hsum).
  cbn [mbind option_bind]. rewrite Hhigh. cbn [mbind option_bind].
  destruct (or_lowest t' (b2z (negb (z =? 0))) Lt' ltac:(lia) (b2z_range _)) as (v & t2 & -> & Hset & Lt2 & Hlt2 & Hm2). cbn [mbind option_bind]. rewrite Hset. cbn [mbind option_bind].
  assert (Hk : (if is_sub =? 0 then c' else 0) = 0 \/ (if is_sub =? 0 then c' else 0) = 1) by (destruct (is_sub =? 0); lia).
  set (k := if is_sub =? 0 then c' else 0) in *. 
  assert (HW : exact_sum a b tot d is_sub = (mpz t' + k * 2 ^ (64 * r_len)) * 2 ^ (64 * (tot - r_len)) + L).
  { unfold exact_sum, k. assert (E : 2 ^ (64 * tot) = 2 ^ (64 * r_len) * 2 ^ (64 * (tot - r_len))) by (clear - Hr; rewrite <- Z.pow_add_r by lia; f_equal; lia).
    destruct (Z.eqb_spec is_sub 0) as [->|Hne]; [exact Hsum|]. specialize (Hgt ltac:(lia)). pose proof (mpz_range _ Lt') as Hrt. rewrite bpow2, Hlt' in Hrt.
    rewrite Z.mul_0_l, Z.add_0_r.
    apply (sub_carry _ _ _ _ _ _ _ _ E Hsum Hgt Hc' Hrt HL). }
  assert (Hpos : 0 < exact_sum a b tot d is_sub) by (apply (Z.mul_pos_cancel_r _ (2 ^ (c + 1))); [apply pow2_pos; lia|]; eapply Z.lt_le_trans; [|apply Hcov]; apply pow2_pos; lia).
  assert (Hcarry : (is_sub =? 0) && negb (c' =? 0) = negb (k =? 0)) by (unfold k; by destruct (is_sub =? 0)). rewrite Hcarry.
  clearbody k. clear Hsum Hhigh RA RA' RB Hgt Hcanc T2 T3 T4 Hset Htot Hde H53a H53b Hsa Hsb Hinf Hc' Hcarry Hna Ha Hb La Lb Hlt Lt' Hd Hd0.
  assert (Hkb : k = b2z (negb (k =? 0))) by (destruct Hk as [->| ->]; done).
  pose proof (add_carry_out o1 a_sign (expn a) t2 k r_len prec flags Lt2 ltac:(lia) ltac:(lia) ltac:(lia) Hs Hea Hf Hp) as Hend. rewrite <- Hkb, Hm2 in Hend.
  rewrite or_scaled in Hend by (lia || apply b2z_range). rewrite round_cut with (n := 64 * (tot - r_len)) (L := L) in Hend; [|done|done|lia|done|done| |].
  - rewrite <- HW in Hend. replace (expn a - 64 * r_len - 64 * (tot - r_len)) with (expn a - 64 * tot) in Hend by lia. exact Hend.
  - by rewrite <- HW.
  - destruct Hrl as [[-> _]|[Hrl Hlt1]]; [left; lia|right]. apply (cut_bits (exact_sum a b tot d is_sub) _ L (64 * (tot - r_len)) c (64 * tot)); [exact HW|lia|lia|lia|exact HL|lia|exact Hcov].
Qed.

Lemma add_val_comm v1 v2 prec flags : add_val v1 v2 prec flags = add_val v2 v1 prec flags.
Proof.
  destruct v1 as [|s1|s1|s1 m1 e1], v2 as [|s2|s2|s2 m2 e2]; try done; cbn [add_val].
  - rewrite (Z.eqb_sym s2 s1). by destruct (Z.eqb_spec s1 s2) as [->|].
  - rewrite (Z.eqb_sym s2 s1). by destruct (Z.eqb_spec s1 s2) as [->|].
  - rewrite (Z.min_comm e2 e1). by rewrite (Z.add_comm (signed s2 m2 * _)).
Qed.

(** The value with another sign. *)
Definition sign_val (s : Z) (v : bfval) : bfval :=
  match v with VNan => VNan | VInf _ => VInf s | VZero _ => VZero s | VFin _ m e => VFin s m e end.

(** The exact sum of ordered operands. *)
Lemma exact_sum_val a b tot d is_sub s : operands a b tot d is_sub -> 0 <= s <= 1 ->
  exists m e, 0 < exact_sum a b tot d is_sub /\ deq (exact_sum a b tot d is_sub) (expn a - 64 * tot) m e /\
    forall prec flags, add_val (sign_val s (bf_val a)) (sign_val (s .^ is_sub) (bf_val b)) prec flags = round_val s m e prec flags.
Proof.
  intros Hop Hs. destruct (operand_facts _ _ _ _ _ Hop) as (La & Lb & Hna & Hea & Hd & H53a & H53b). destruct Hop as [Ha Hb Hla Hlb Hsa Hsb Hde Hd0 Htot Hsub Hgt].
  destruct (tot_cases a b tot d H53a H53b Hd Htot) as (T1 & T2 & _ & _). destruct (aligned_ranges a b tot d La Lb H53a H53b Hd Htot Hna Hla) as (EA & EB & _).
  destruct (wf_cases a Ha) as [(? & _)|(_ & _ & _ & _ & Hma & ->)]; [lia|]. destruct (wf_cases b Hb) as [(? & _)|(_ & _ & _ & _ & Hmb & ->)]; [lia|]. cbn [sign_val add_val].
  set (ea := expn a - 64 * len a). set (eb := expn b - 64 * len b). set (e := Z.min ea eb). set (e0 := expn a - 64 * tot). assert (He : e <= ea /\ e <= eb /\ e0 <= e) by (unfold e0, e, ea, eb; lia).
  assert (EA' : aligned_a a tot = mpz (tab a) * 2 ^ (ea - e) * 2 ^ (e - e0)) by (rewrite EA, <- Z.mul_assoc, <- Z.pow_add_r by lia; do 2 f_equal; unfold e0, ea; lia).
  assert (EB' : aligned_b b tot d = mpz (tab b) * 2 ^ (eb - e) * 2 ^ (e - e0)) by (rewrite EB, <- Z.mul_assoc, <- Z.pow_add_r by lia; do 2 f_equal; unfold e0, eb; lia).
  set (Xa := mpz (tab a) * 2 ^ (ea - e)) in *. set (Xb := mpz (tab b) * 2 ^ (eb - e)) in *. pose proof (pow2_pos (e - e0) ltac:(lia)) as Hg.
  assert (HXa : 0 < Xa) by (apply Z.mul_pos_pos; [done|apply pow2_pos; lia]). assert (HXb : 0 < Xb) by (apply Z.mul_pos_pos; [done|apply pow2_pos; lia]).
  exists (if is_sub =? 0 then Xa + Xb else Xa - Xb), e. unfold exact_sum. rewrite EA', EB' in *. clear EA EB EA' EB' T1 T2 Htot Hde Hea Hna.
  assert (Hx : forall m1 m2 s', signed s' m1 * m2 = signed s' (m1 * m2)) by (intros m1 m2 s'; unfold signed; destruct (s' =? 0); lia).
  rewrite !Hx. fold Xa Xb. clearbody Xa Xb. clear Hx. assert (Hlt : is_sub = 1 -> Xb < Xa) by (intros H1; apply (Z.mul_lt_mono_pos_r (2 ^ (e - e0))); [done|auto]). clear Hgt.
  assert (Hdq : forall x y, x = y * 2 ^ (e - e0) -> deq x e0 y e).
  { intros x y ->. apply (deq_at _ _ _ _ e0); [lia|lia|]. rewrite Z.sub_diag, Z.mul_1_r. done. }
  assert (is_sub = 0 \/ is_sub = 1) as [->| ->] by lia; cbn [Z.eqb].
  - split; [nia|]. split; [apply Hdq; ring|]. intros prec flags. rewrite Z.lxor_0_r.
    assert (s = 0 \/ s = 1) as [->| ->] by lia; unfold signed; cbn [Z.eqb]; rewrite (proj2 (Z.eqb_neq _ 0)) by lia.
    + rewrite (proj2 (Z.ltb_ge _ 0)) by lia. cbn [b2z]. by rewrite Z.abs_eq by lia.
    + rewrite (proj2 (Z.ltb_lt _ 0)) by lia. cbn [b2z]. f_equal; lia.
  - specialize (Hlt eq_refl). split; [nia|]. split; [apply Hdq; ring|]. intros prec flags.
    assert (s = 0 \/ s = 1) as [->| ->] by lia; unfold signed; [change (0 .^ 1) with 1|change (1 .^ 1) with 0]; cbn [Z.eqb]; rewrite (proj2 (Z.eqb_neq _ 0)) by lia.
    + rewrite (proj2 (Z.ltb_ge _ 0)) by lia. cbn [b2z]. f_equal; lia.
    + rewrite (proj2 (Z.ltb_lt _ 0)) by lia. cbn [b2z]. f_equal; lia.
Qed.

Definition is_fin_val (v : bfval) : bool := match v with VFin _ _ _ => true | _ => false end.

(** What an addition gives: the rounded sum, or NaN and a memory error; when one operand is a
    zero and the copy of the other cannot be allocated, a zero without an error. *)
Definition gives_sum (m : option (aopaque * bf_t * Z)) (v1 v2 : bfval) (res : bfval * Z) : Prop :=
  gives_val m res \/
  (is_zero_val v1 && is_fin_val v2 || is_fin_val v1 && is_zero_val v2 = true /\ realloc_refuses /\
   exists o' r', m = Some (o', r', 0) /\ bf_wf r' /\ is_zero_val (bf_val r') = true).

Lemma normalize_empty o s e prec flags : bf_normalize_and_round o (mkBf s e []) prec flags = let '(o, r, _) := bf_resize o (mkBf s BF_EXP_ZERO []) 0 in Some (o, r, 0).
Proof. reflexivity. Qed.

(** A zero is added: the other operand is copied and rounded. *)
Lemma add_zero o r a s prec flags :
  bf_wf a -> 1 <= len a -> 64 * len a <= 2 ^ 58 -> 0 <= s <= 1 -> flags_ok prec flags -> 1 <= prec ->
  let m := '(o, r, _) ← bf_set o false r a; bf_normalize_and_round o (with_sign r s) prec flags in
  gives_val m (round_of (sign_val s (bf_val a)) prec flags) \/
  (realloc_refuses /\ exists o' r', m = Some (o', r', 0) /\ bf_wf r' /\ is_zero_val (bf_val r') = true).
Proof.
  intros Ha Hla H58 Hs Hf Hp m. unfold m, bf_set. destruct (wf_cases a Ha) as [(? & _)|(_ & _ & _ & Hea & Hma & ->)]; [lia|]. cbn [sign_val round_of].
  destruct (bf_resize_spec o r (len a) ltac:(lia)) as [(o1 & t & -> & Hlt & _)|(o1 & -> & _ & Href)]; cbn [Z.eqb negb].
  - left. cbn [with_tab tab]. assert (zsplice t 0 (tab a) = Some (tab a)) as ->.
    { pose proof (zsplice_head t [] (tab a)) as Hz. rewrite !app_nil_r in Hz. apply Hz. unfold len, zlen in *. lia. }
    cbn [mbind option_bind with_sign bf_sign expn tab]. pose proof (bf_normalize_and_round_spec o1 (mkBf s (expn a) (tab a)) prec flags) as Hn. cbn [tab bf_sign expn] in Hn. unfold len at 1 2 in Hn. cbn [tab] in Hn. fold (len a) in Hn.
    unfold round_any in Hn. rewrite (proj2 (Z.eqb_neq _ 0)) in Hn by lia. apply Hn; [apply wf_limbs, Ha|lia|done|lia|done|done].
  - right. split; [done|]. unfold bf_mem_error, bf_set_nan. destruct (bf_resize_0 o1 r) as (o2 & ->). cbn [mbind option_bind].
    change (with_sign (with_sign (with_expn (with_tab r []) BF_EXP_NAN) 0) s) with (mkBf s BF_EXP_NAN []).
    rewrite normalize_empty. destruct (bf_resize_0 o2 (mkBf s BF_EXP_ZERO [])) as (o3 & ->). eexists _, _. split; [done|]. split; [apply wf_special; [done|by left]|done].
Qed.

Lemma sign_val_self a : sign_val (bf_sign a) (bf_val a) = bf_val a.
Proof. unfold bf_val. by repeat case_match. Qed.

(** The conditions under which sums are correctly rounded. *)
Record sum_ok (a b : bf_t) (prec flags : Z) : Prop := {
  so_a : bf_wf a;
  so_b : bf_wf b;
  so_sa : 64 * len a <= 2 ^ 58;
  so_sb : 64 * len b <= 2 ^ 58;
  so_flags : flags_ok prec flags;
  so_prec : 1 <= prec;
  so_rad : has_flag flags BF_FLAG_RADPNT_PREC = false;
  so_inf : prec = BF_PREC_INF -> expn a - expn b <= 2 ^ 59 /\ expn b - expn a <= 2 ^ 59 \/ len a = 0 \/ len b = 0 }.

Lemma sum_ok_sym a b prec flags : sum_ok a b prec flags -> sum_ok b a prec flags.
Proof. intros [? ? ? ? ? ? ? Hi]. split; try done. intros Hp. specialize (Hi Hp). tauto. Qed.

(** Two finite operands with [b] not above [a]. *)
Lemma add_ordered_fin o r a b s is_sub cmp_res prec flags :
  sum_ok a b prec flags -> 1 <= len a -> 1 <= len b -> 0 <= s <= 1 -> 0 <= is_sub <= 1 ->
  mag_cmp (bf_val b) (bf_val a) <> Gt -> (cmp_res = 0 <-> mag_cmp (bf_val b) (bf_val a) = Eq) ->
  gives_val (add_ordered o r a b s is_sub cmp_res prec flags) (add_val (sign_val s (bf_val a)) (sign_val (s .^ is_sub) (bf_val b)) prec flags).
Proof.
  intros [Ha Hb Hsa Hsb Hf Hp Hrad Hinf] Hla Hlb Hs Hsub Hle Hcmp.
  destruct (wf_cases a Ha) as [(? & _)|(_ & _ & Hna & Hea & Hma & Hva)]; [lia|]. destruct (wf_cases b Hb) as [(? & _)|(_ & _ & Hnb & Heb & Hmb & Hvb)]; [lia|].
  assert (Hd0 : 0 <= expn a - expn b).
  { destruct (Z.ltb_spec (expn a) (expn b)) as [Hlt|]; [|lia]. exfalso. apply Hle. rewrite mag_cmp_sym. by rewrite (mag_cmp_expn a b). }
  unfold add_ordered. rewrite (proj2 (Z.eqb_neq (len a) 0)), (proj2 (Z.eqb_neq (len b) 0)) by lia. cbn [orb].
  assert (Hfin : (expn a <? BF_EXP_INF) = true) by (apply Z.ltb_lt; unfold BF_EXP_INF, BF_RAW_EXP_MAX; lia). rewrite Hfin, andb_true_r.
  set (d := expn a - expn b) in *. set (tot := bf_max (len a) (len b + (d + LIMB_BITS - 1) / LIMB_BITS)).
  destruct (aligned_ranges a b tot d (wf_limbs _ Ha) (wf_limbs _ Hb) ltac:(lia) ltac:(lia) ltac:(lia) eq_refl Hna Hla) as (EA & EB & _).
  assert (Hal : mag_cmp (bf_val b) (bf_val a) = (aligned_b b tot d ?= aligned_a a tot)).
  { destruct (tot_cases a b tot d ltac:(lia) ltac:(lia) ltac:(lia) eq_refl) as (T1 & T2 & _ & _). rewrite Hva, Hvb. cbn [mag_cmp]. rewrite (cmp_at _ _ _ _ (expn a - 64 * tot)) by (unfold d in *; lia).
    rewrite EA, EB. f_equal; do 2 f_equal; unfold d; lia. }
  destruct ((cmp_res =? 0) && negb (is_sub =? 0)) eqn:Hz.
  - apply andb_true_iff in Hz as [Hc Hi]. apply Z.eqb_eq in Hc. apply negb_true_iff, Z.eqb_neq in Hi. assert (is_sub = 1) as -> by lia.
    assert (Heq : add_val (sign_val s (bf_val a)) (sign_val (s .^ 1) (bf_val b)) prec flags = (VZero (zero_sign flags), 0)); [|rewrite Heq; apply gives_zero, b2z_range].
    apply Hcmp in Hc. rewrite Hva, Hvb in *. cbn [mag_cmp sign_val add_val] in *. apply Z.compare_eq in Hc. rewrite Z.min_comm in Hc.
    rewrite (proj2 (Z.eqb_eq _ 0)); [done|]. assert (s = 0 \/ s = 1) as [->| ->] by lia; unfold signed; cbn [Z.eqb]; [change (0 .^ 1) with 1|change (1 .^ 1) with 0]; cbn [Z.eqb]; lia.
  - assert (Hop : operands a b tot d is_sub).
    { split; try done. intros ->. rewrite andb_true_r in Hz. apply Z.eqb_neq in Hz. destruct (Z.compare_spec (aligned_b b tot d) (aligned_a a tot)); [|done|]; exfalso; tauto. }
    destruct (exact_sum_val a b tot d is_sub s Hop Hs) as (m & e & Hpos & Hdeq & ->).
    apply (gives_round_proper _ _ _ _ _ _ _ _ Hpos Hdeq). apply add_mantissas_spec; try done. intros Hpi. destruct (Hinf Hpi) as [?|?]; lia.
Qed.

(** The operands are ordered: a NaN comes first, and otherwise [b] is not above [a]. *)
Definition in_order (a b : bf_t) (cmp_res : Z) : Prop :=
  expn a = BF_EXP_NAN \/
  (expn b <> BF_EXP_NAN /\ expn a <> BF_EXP_NAN /\ mag_cmp (bf_val b) (bf_val a) <> Gt /\ (cmp_res = 0 <-> mag_cmp (bf_val b) (bf_val a) = Eq)).

Lemma add_ordered_spec o r a b s is_sub cmp_res prec flags :
  sum_ok a b prec flags -> 0 <= s <= 1 -> 0 <= is_sub <= 1 -> in_order a b cmp_res ->
  gives_sum (add_ordered o r a b s is_sub cmp_res prec flags) (bf_val a) (bf_val b) (add_val (sign_val s (bf_val a)) (sign_val (s .^ is_sub) (bf_val b)) prec flags).
Proof.
  intros Hok Hs Hsub Hord. unfold in_order in Hord. pose proof Hok as [Ha Hb Hsa Hsb Hf Hp _ _]. assert (Hx : (s =? s .^ is_sub) = (is_sub =? 0)).
  { assert (s = 0 \/ s = 1) as [->| ->] by lia; assert (is_sub = 0 \/ is_sub = 1) as [->| ->] by lia; done. }
  destruct (wf_cases a Ha) as [(Hla & Hta & Hva)|(Hla & _ & _ & Hea & Hma & Hva)].
  - left. unfold add_ordered. rewrite Hla. cbn [Z.eqb orb]. destruct Hva as [(He & Hv)|[(He & Hv)|(He & Hv)]]; rewrite He, Hv in *; cbn [sign_val].
    + destruct Hord as [Hn0|(Hnb & _ & Hle & Hcmp)]; [vm_compute in Hn0; discriminate|]. destruct (wf_cases b Hb) as [(Hlb & _ & [(He' & Hv')|[(He' & Hv')|(He' & Hv')]])|(_ & _ & _ & _ & _ & Hv')]; rewrite ?Hv' in *; try done.
      cbn [sign_val add_val mag_cmp] in *. rewrite (proj2 Hcmp eq_refl), Hx. change (BF_EXP_ZERO <? BF_EXP_INF) with true. change (BF_EXP_INF <=? BF_EXP_ZERO) with false. cbn [Z.eqb andb]. rewrite andb_true_r.
      destruct (is_sub =? 0); cbn [negb]; [|apply gives_zero, b2z_range]. destruct (bf_set_special o r a Ha Hla) as (o1 & ->). cbn [mbind option_bind].
      destruct a as [sa ea ta]. cbn [tab expn] in Hta, He. subst ta ea. change (with_sign (mkBf sa BF_EXP_ZERO []) s) with (mkBf s BF_EXP_ZERO []). rewrite normalize_empty. apply (normalize_zero o1 (mkBf s BF_EXP_ZERO [])). done.
    + change (BF_EXP_INF <? BF_EXP_INF) with false. change (BF_EXP_INF <=? BF_EXP_INF) with true. change (BF_EXP_INF =? BF_EXP_NAN) with false. rewrite andb_false_r.
      destruct Hord as [Hn0|(Hnb & _ & Hle & _)]; [vm_compute in Hn0; discriminate|]. destruct (wf_cases b Hb) as [(Hlb & _ & [(He' & Hv')|[(He' & Hv')|(He' & Hv')]])|(_ & _ & _ & Heb & _ & Hv')]; rewrite Hv'; cbn [sign_val add_val]; [rewrite He'; by apply gives_inf|rewrite He', Hx|done|].
      * change (BF_EXP_INF =? BF_EXP_INF) with true. cbn [andb]. destruct (is_sub =? 0); cbn [negb]; [by apply gives_inf|apply gives_nan].
      * destruct (fin_expn _ Heb) as (_ & _ & -> & _). by apply gives_inf.
    + change (BF_EXP_NAN <? BF_EXP_INF) with false. change (BF_EXP_INF <=? BF_EXP_NAN) with true. rewrite andb_false_r. apply gives_nan.
  - destruct (fin_expn _ Hea) as (Hf1 & Hf2 & Hf3 & Hf4). apply Z.eqb_neq in Hf2. destruct Hord as [?|(Hnb & _ & Hle & Hcmp)]; [done|].
    destruct (wf_cases b Hb) as [(Hlb & _ & [(He' & Hv')|[(He' & Hv')|(He' & Hv')]])|(Hlb & _)]; [|rewrite Hv', Hva in Hle; done|done|left; by apply add_ordered_fin].
    rewrite Hv', Hva in Hcmp. cbn [mag_cmp] in Hcmp. assert (Hc0 : cmp_res <> 0) by (intros Hc; apply Hcmp in Hc; done).
    unfold add_ordered. rewrite (proj2 (Z.eqb_neq cmp_res 0)), Hlb, orb_true_r, Hf1 by done. cbn [andb].
    destruct (add_zero o r a s prec flags Ha Hla Hsa Hs Hf Hp) as [Hg|Hg]; [left|right; split; [by rewrite Hv', Hva|done]].
    rewrite Hv', Hva in *. exact Hg.
Qed.

Lemma cmpu_nan a b : bf_wf a -> bf_wf b -> expn a = BF_EXP_NAN \/ expn b = BF_EXP_NAN ->
  exists c, bf_cmpu a b = Some c /\ (c < 0 -> expn b = BF_EXP_NAN) /\ (0 <= c -> expn a = BF_EXP_NAN).
Proof.
  intros Ha Hb Hn. unfold bf_cmpu.
  assert (Hmax : forall x, bf_wf x -> expn x <= BF_EXP_NAN /\ (expn x = BF_EXP_NAN -> len x = 0)).
  { intros x Hx. destruct (wf_cases x Hx) as [(-> & _ & [(-> & _)|[(-> & _)|(-> & _)]])|(_ & _ & _ & He & _)]; [done..|]. unfold BF_EXP_NAN, BF_RAW_EXP_MAX. lia. }
  destruct (Hmax a Ha) as [Ma Na], (Hmax b Hb) as [Mb Nb]. destruct (Z.eqb_spec (expn a) (expn b)) as [He|He]; cbn [negb].
  - assert (expn a = BF_EXP_NAN) as Hea by (destruct Hn; congruence). rewrite Na, Nb by congruence. exists 0. split; [done|]. split; [lia|done].
  - eexists. split; [done|]. destruct (Z.ltb_spec (expn a) (expn b)); split; intros; destruct Hn; lia.
Qed.

Lemma sign_neg_val neg b : sign_val (bf_sign b .^ neg) (bf_val b) = neg_val neg (bf_val b).
Proof. unfold bf_val. by repeat case_match. Qed.

Lemma gives_sum_sym m v1 v2 res : gives_sum m v1 v2 res -> gives_sum m v2 v1 res.
Proof. intros [Hg|(Hz & Hr)]; [by left|right; split; [|done]]. by rewrite orb_comm, (andb_comm (is_zero_val v2)), (andb_comm (is_fin_val v2)). Qed.

(** [bf_add_internal] gives the rounded sum. *)
Lemma bf_add_internal_spec o r a b prec flags b_neg :
  sum_ok a b prec flags -> 0 <= b_neg <= 1 ->
  gives_sum (bf_add_internal o r a b prec flags b_neg) (bf_val a) (bf_val b) (add_val (bf_val a) (neg_val b_neg (bf_val b)) prec flags).
Proof.
  intros Hok Hneg. pose proof Hok as [Ha Hb Hsa Hsb _ _ _ _]. pose proof (wf_sign _ Ha) as Ssa. pose proof (wf_sign _ Hb) as Ssb.
  pose proof (xor_sign _ _ Ssb Hneg) as Sb. pose proof (xor_sign _ _ Ssa Sb) as Sx. unfold bf_add_internal. set (b_sign := bf_sign b .^ b_neg) in *. set (is_sub := bf_sign a .^ b_sign) in *.
  assert (Hxa : bf_sign a .^ is_sub = b_sign) by (unfold is_sub; rewrite <- Z.lxor_assoc, Z.lxor_nilpotent; apply Z.lxor_0_l).
  assert (Hxb : b_sign .^ is_sub = bf_sign a) by (rewrite <- Hxa, Z.lxor_assoc, Z.lxor_nilpotent; apply Z.lxor_0_r).
  rewrite <- sign_neg_val. fold b_sign.
  assert (Hcmp : exists c, bf_cmpu a b = Some c /\ (c < 0 -> in_order b a c) /\ (0 <= c -> in_order a b c)).
  { destruct (Z.eqb_spec (expn a) BF_EXP_NAN) as [Hna|Hna]; [|destruct (Z.eqb_spec (expn b) BF_EXP_NAN) as [Hnb|Hnb]].
    - destruct (cmpu_nan a b Ha Hb ltac:(by left)) as (c & -> & H1 & H2). exists c. split; [done|]. split; intros; left; auto.
    - destruct (cmpu_nan a b Ha Hb ltac:(by right)) as (c & -> & H1 & H2). exists c. split; [done|]. split; intros; left; auto.
    - rewrite bf_cmpu_spec by (done || lia). eexists. split; [done|]. unfold in_order. rewrite (mag_cmp_sym (bf_val a) (bf_val b)).
      destruct (mag_cmp (bf_val a) (bf_val b)); cbn [cmp_int CompOpp]; split; intros; try lia; right; repeat split; try done; lia. }
  destruct Hcmp as (c & -> & Hlt & Hge). cbn [mbind option_bind]. destruct (Z.ltb_spec c 0) as [Hc|Hc].
  - rewrite add_val_comm. apply gives_sum_sym. pose proof (add_ordered_spec o r b a b_sign is_sub c prec flags (sum_ok_sym _ _ _ _ Hok) Sb Sx (Hlt Hc)) as Hg. by rewrite Hxb, sign_val_self in Hg.
  - pose proof (add_ordered_spec o r a b (bf_sign a) is_sub c prec flags Hok Ssa Sx (Hge Hc)) as Hg. by rewrite Hxa, sign_val_self in Hg.
Qed.

(** A result that goes through a temporary number. *)
Lemma op2_gives func o alias r a b prec flags res :
  (forall r, gives_val (func o r a b prec flags) res) -> gives_val (bf_op2 func o alias r a b prec flags) res.
Proof. intros Hf. unfold bf_op2. destruct alias; [|apply Hf]. apply (gives_move true _ r). apply Hf. Qed.

Lemma op2_gives_sum func o alias r a b prec flags v1 v2 res :
  (forall r, gives_sum (func o r a b prec flags) v1 v2 res) -> gives_sum (bf_op2 func o alias r a b prec flags) v1 v2 res.
Proof.
  intros Hf. unfold bf_op2. destruct alias; [|apply Hf]. destruct (Hf bf_init) as [Hg|(Hz & Hr & o' & r' & Hm & Hw)]; [left; by apply (gives_move true _ r)|right].
  split; [done|]. split; [done|]. rewrite Hm. cbn [mbind option_bind]. unfold bf_move. by eexists _, _.
Qed.

Lemma neg_val_0 v : neg_val 0 v = v.
Proof. destruct v; cbn [neg_val]; by rewrite ?Z.lxor_0_r. Qed.

Lemma bf_add_spec o alias r a b prec flags :
  sum_ok a b prec flags -> gives_sum (bf_add o alias r a b prec flags) (bf_val a) (bf_val b) (add_val (bf_val a) (bf_val b) prec flags).
Proof. intros Hok. apply op2_gives_sum. intros r'. rewrite <- (neg_val_0 (bf_val b)) at 2. apply bf_add_internal_spec; [done|lia]. Qed.

Lemma bf_sub_spec o alias r a b prec flags :
  sum_ok a b prec flags -> gives_sum (bf_sub o alias r a b prec flags) (bf_val a) (bf_val b) (add_val (bf_val a) (neg_val 1 (bf_val b)) prec flags).
Proof. intros Hok. apply op2_gives_sum. intros r'. apply bf_add_internal_spec; [done|lia]. Qed.

Lemma bf_div_spec o alias r a b prec flags :
  bf_wf a -> bf_wf b -> 64 * len a <= 2 ^ 59 -> 64 * len b <= 2 ^ 59 -> flags_ok prec flags -> 1 <= prec <= 2 ^ 59 -> has_flag flags BF_FLAG_RADPNT_PREC = false ->
  forall j, 0 <= j -> div_enough j (bf_val a) (bf_val b) prec ->
  gives_val (bf_div o alias r a b prec flags) (div_val j (bf_val a) (bf_val b) prec flags).
Proof. intros. apply op2_gives. intros r'. by apply __bf_div_spec. Qed.
End AddSpec.

(** C12: [bf_add] and [bf_sub] give the exact sum and difference of two well-formed numbers,
    rounded once, for every distance of the exponents and every cancellation of leading bits,
    with the signs of zeros and the infinities of the standard, also when the result is one
    of the operands; a refused request for memory gives NaN and an error, or loses a sum with
    a zero. *)
Theorem bf_add_correct `{!Allocator} `{R : !Realloc} {Sok : ShrinkOk} o alias r a b prec flags :
  sum_ok a b prec flags ->
  gives_sum (bf_add o alias r a b prec flags) (bf_val a) (bf_val b) (add_val (bf_val a) (bf_val b) prec flags) /\
  gives_sum (bf_sub o alias r a b prec flags) (bf_val a) (bf_val b) (add_val (bf_val a) (neg_val 1 (bf_val b)) prec flags).
Proof. intros Hok. split; [by apply bf_add_spec|by apply bf_sub_spec]. Qed.

Definition three : bf_t := mkBf 0 2 [3 * 2 ^ 62].
Definition tiny : bf_t := mkBf 0 (-300) [2 ^ 63].

Lemma bf_add_correct_witness :
  @gives_sum malloc_ok realloc_ok (@bf_sub malloc_ok realloc_ok tt true three three tiny 53 BF_RNDN) (bf_val three) (bf_val tiny) (add_val (bf_val three) (neg_val 1 (bf_val tiny)) 53 BF_RNDN).
Proof.
  refine (proj2 (@bf_add_correct malloc_ok realloc_ok realloc_ok_shrinks tt true three three tiny 53 BF_RNDN _)). split.
  - split; [cbn; lia|repeat constructor; vm_compute; congruence|right]. split; [by eexists _, _|by vm_compute].
  - split; [cbn; lia|repeat constructor; vm_compute; congruence|right]. split; [by eexists _, _|by vm_compute].
  - vm_compute. congruence.
  - vm_compute. congruence.
  - split; try (by vm_compute); right; lia.
  - lia.
  - done.
  - intros Hp. vm_compute in Hp. discriminate.
Defined.

Example bf_sub_run : @bf_sub malloc_ok realloc_ok tt true three three tiny 53 BF_RNDN = Some (tt, three, BF_ST_INEXACT).
Proof. vm_compute. reflexivity. Qed.

(** The sum of 3 and 0 is 0, without an error, when the copy of 3 is refused. *)
Example bf_add_loses_operand :
  @bf_add malloc_ok realloc_none tt false bf_init three bf_init 53 BF_RNDN = Some (tt, bf_init, 0).
Proof. vm_compute. reflexivity. Qed.
