(* ===== verification/BfProg.v ===== *)
(** Sequences of operations on numbers of [libbf.c].

    The operations are run on a list of registers, so that the result may be one of the
    operands, the way the callers of the library use it.  Any sequence of operations is
    proved to run to its end, to keep the registers well formed and small, and to refine a
    machine on exact values that rounds each result once; a request for memory that is
    refused is the only thing that can come between. *)

From S2P Require Import Prelude CutilsH DynBuf BfLimbs BfDiv BfRecip BfSqrt BfNum BfRound BfVal BfArith BfCmp BfAdd.

(** ** Instructions *)

Inductive op2 := OpAdd | OpSub | OpMul | OpDiv.

Inductive instr :=
  | Op2 (op : op2) (r a b : nat) (prec flags : Z)
  | Sqrt (r a : nat) (prec flags : Z)
  | Round (r : nat) (prec flags : Z)
  | Neg (r : nat)
  | SetSi (r : nat) (v : Z)
  | Copy (r a : nat).

Section Exec.
Context `{!Allocator} `{R : !Realloc} `{F : !FftMul} (stack : list Z).

Definition exec_op2 (op : op2) : aopaque -> bool -> bf_t -> bf_t -> bf_t -> Z -> Z -> option (aopaque * bf_t * Z) :=
  match op with OpAdd => bf_add | OpSub => bf_sub | OpMul => bf_mul | OpDiv => bf_div end.

(** A register that is written and an operand are one object when they have one number. *)
Definition exec (o : aopaque) (regs : list bf_t) (i : instr) : option (aopaque * list bf_t * Z) :=
  match i with
  | Op2 op r a b prec flags =>
      x ← regs !! r; y ← regs !! a; z ← regs !! b;
      '(o, x, st) ← exec_op2 op o ((r =? a)%nat || (r =? b)%nat) x y z prec flags;
      Some (o, <[r := x]> regs, st)
  | Sqrt r a prec flags =>
      if (r =? a)%nat then None
      else
        x ← regs !! r; y ← regs !! a;
        '(o, x, st) ← bf_sqrt o stack x y prec flags;
        Some (o, <[r := x]> regs, st)
  | Round r prec flags =>
      x ← regs !! r;
      '(o, x, st) ← bf_round o x prec flags;
      Some (o, <[r := x]> regs, st)
  | Neg r => x ← regs !! r; Some (o, <[r := bf_neg x]> regs, 0)
  | SetSi r v =>
      x ← regs !! r;
      '(o, x, st) ← bf_set_si o x v;
      Some (o, <[r := x]> regs, st)
  | Copy r a =>
      x ← regs !! r; y ← regs !! a;
      '(o, x, st) ← bf_set o (r =? a)%nat x y;
      Some (o, <[r := x]> regs, st)
  end.

Fixpoint exec_all (o : aopaque) (regs : list bf_t) (prog : list instr) : option (aopaque * list bf_t * list Z) :=
  match prog with
  | [] => Some (o, regs, [])
  | i :: prog =>
      '(o, regs, st) ← exec o regs i;
      '(o, regs, sts) ← exec_all o regs prog;
      Some (o, regs, st :: sts)
  end.
End Exec.

(** ** The machine on values *)

Definition int_val (v : Z) : bfval := if v =? 0 then VZero 0 else VFin (b2z (v <? 0)) (Z.abs v) 0.

(** Enough bits of the quotient and of the root. *)
Definition div_bits (v2 : bfval) (prec : Z) : Z := match v2 with VFin _ m _ => prec + Z.log2 m + 2 | _ => 0 end.
Definition sqrt_bits (prec : Z) : Z := prec + 2.

Definition op2_val (op : op2) (v1 v2 : bfval) (prec flags : Z) : bfval * Z :=
  match op with
  | OpAdd => add_val v1 v2 prec flags
  | OpSub => add_val v1 (neg_val 1 v2) prec flags
  | OpMul => mul_val v1 v2 prec flags
  | OpDiv => div_val (div_bits v2 prec) v1 v2 prec flags
  end.

(** The register an instruction writes, its value and the status. *)
Definition instr_val (vals : list bfval) (i : instr) : option (nat * (bfval * Z)) :=
  match i with
  | Op2 op r a b prec flags => v1 ← vals !! a; v2 ← vals !! b; Some (r, op2_val op v1 v2 prec flags)
  | Sqrt r a prec flags => v ← vals !! a; Some (r, sqrt_val (sqrt_bits prec) v prec flags)
  | Round r prec flags => v ← vals !! r; Some (r, round_of v prec flags)
  | Neg r => v ← vals !! r; Some (r, (neg_val 1 v, 0))
  | SetSi r v => Some (r, (int_val v, 0))
  | Copy r a => v ← vals !! a; Some (r, (v, 0))
  end.

(** A step writes the value of the instruction, in some representation. *)
Inductive vstep (vals : list bfval) (i : instr) (st : Z) : list bfval -> Prop :=
  | vstep_write r res v : instr_val vals i = Some (r, res) -> veq v res.1 -> st = res.2 -> vstep vals i st (<[r := v]> vals).

Inductive vrun : list bfval -> list instr -> list Z -> list bfval -> Prop :=
  | vrun_nil vals : vrun vals [] [] vals
  | vrun_cons vals i st vals1 prog sts vals2 : vstep vals i st vals1 -> vrun vals1 prog sts vals2 -> vrun vals (i :: prog) (st :: sts) vals2.

(** ** Instructions that make sense *)

Record rounding_ok (prec flags : Z) : Prop := {
  ro_flags : flags_ok prec flags;
  ro_prec : 1 <= prec <= 2 ^ 57;
  ro_rad : has_flag flags BF_FLAG_RADPNT_PREC = false;
  ro_mode : mode_of flags <> BF_RNDF }.

Definition instr_ok (n : nat) (i : instr) : Prop :=
  match i with
  | Op2 _ r a b prec flags => (r < n)%nat /\ (a < n)%nat /\ (b < n)%nat /\ rounding_ok prec flags
  | Sqrt r a prec flags => (r < n)%nat /\ (a < n)%nat /\ r <> a /\ rounding_ok prec flags
  | Round r prec flags => (r < n)%nat /\ rounding_ok prec flags
  | Neg r => (r < n)%nat
  | SetSi r v => (r < n)%nat /\ - 2 ^ 63 <= v < 2 ^ 63
  | Copy r a => (r < n)%nat /\ (a < n)%nat
  end.

Definition is_sum (i : instr) : bool := match i with Op2 OpAdd _ _ _ _ _ | Op2 OpSub _ _ _ _ _ => true | _ => false end.

(** The invariant of the registers: well formed, and of a size that arithmetic can use. *)
Definition reg_ok (r : bf_t) : Prop := bf_wf r /\ 64 * len r <= 2 ^ 57 + 64.

(** ** The size of a rounded number *)

Definition small_val (prec : Z) (v : bfval) : Prop := match v with VFin _ q _ => 0 < q <= 2 ^ prec | _ => True end.

Lemma round_val_small s m e prec flags : 0 < m -> 1 <= prec -> has_flag flags BF_FLAG_RADPNT_PREC = false -> small_val prec (round_val s m e prec flags).1.
Proof.
  intros Hm Hp Hr. unfold round_val. pose proof (log2_bounds m Hm) as [Hb Hl]. set (n := Z.log2 m + 1) in *. pose proof (prec_at_le (e + n) prec flags Hr) as Hpa.
  set (pa := prec_at (e + n) prec flags) in *. clearbody pa. assert (H1 : 1 < 2 ^ prec) by (apply Z.pow_gt_1; lia). destruct (Z.leb_spec pa 0) as [Hle|Hgt].
  { destruct (rnd_up _ _ _ _ _); cbn [fst small_val]; [lia|done]. }
  set (k := Z.max 0 (n - pa)). assert (Hk : 0 <= k <= n - 1) by (unfold k; lia). pose proof (pow2_pos k ltac:(lia)) as Hpk.
  assert (Hq : 1 <= m / 2 ^ k < 2 ^ pa).
  { split.
    - apply Z.div_le_lower_bound; [done|]. rewrite Z.mul_1_r. transitivity (2 ^ (n - 1)); [apply Z.pow_le_mono_r; lia|]. unfold n. replace (Z.log2 m + 1 - 1) with (Z.log2 m) by lia. lia.
    - apply Z.div_lt_upper_bound; [done|]. rewrite <- Z.pow_add_r by lia. eapply Z.lt_le_trans; [apply Hb|]. apply Z.pow_le_mono_r; unfold k; lia. }
  pose proof (b2z_range (rnd_up (mode_of flags) s (m / 2 ^ k) (m mod 2 ^ k) k)) as Hu. assert (Hpow : 2 ^ pa <= 2 ^ prec) by (apply Z.pow_le_mono_r; lia).
  assert (Hy : 0 < m / 2 ^ k + b2z (rnd_up (mode_of flags) s (m / 2 ^ k) (m mod 2 ^ k) k) <= 2 ^ prec) by lia. set (y := m / 2 ^ k + _) in *. clearbody y.
  assert (Ho : small_val prec (overflow_val s prec flags)) by (unfold overflow_val; case_match; [done|cbn [small_val]; lia]).
  cbv zeta. destruct (_ && _); [done|]. destruct (exp_range flags <? _); [exact Ho|exact Hy].
Qed.

Lemma reg_small r v prec : bf_wf r -> veq (bf_val r) v -> small_val prec v -> 1 <= prec -> 64 * len r <= prec + 64.
Proof.
  intros Hw Hv Hs Hp. destruct (wf_cases r Hw) as [(-> & _)|(Hl & Hne & Hn & _ & Hm & Hval)]; [lia|]. rewrite Hval in Hv. destruct v as [| | |s q e]; try done. destruct Hv as [_ Hd]. cbn [small_val] in Hs.
  rewrite bpow2 in Hn. fold (len r) in Hn. replace (64 * len r) with (64 * len r - 1 + 1) in Hn by lia. rewrite Z.pow_add_r in Hn by lia. change (2 ^ 1) with 2 in Hn.
  assert (Hx : 64 * len r - 1 <= prec + 63); [|lia]. destruct (deq_cases _ _ _ _ Hd) as [(j & Hj & HM & _)|(j & Hj & HM & _)].
  - assert (Hj64 : j < 64).
    { destruct (Z.ltb_spec j 64) as [|Hge]; [done|exfalso]. destruct Hw as [_ Hlim [[Ht _]|((v & rest & Ht & Hv) & _)]]; [done|]. rewrite Ht, mpz_cons in HM. rewrite Ht in Hlim. apply Forall_cons in Hlim as [[Hv0 Hv1] _].
      replace j with (64 + (j - 64)) in HM by lia. rewrite Z.pow_add_r in HM by lia. change LIMB_BASE with (2 ^ 64) in *.
      apply Hv. rewrite <- (Z.mod_small v (2 ^ 64)) by lia. replace v with (q * 2 ^ (j - 64) * 2 ^ 64 - mpz rest * 2 ^ 64) by lia. rewrite <- Z.mul_sub_distr_r. by rewrite Z.mod_mul. }
    assert (Hpw : 2 ^ (64 * len r - 1) <= 2 ^ (prec + 63)); [|apply Z.pow_le_mono_r_iff in Hpw; lia].
    rewrite Z.pow_add_r by lia. assert (2 ^ j <= 2 ^ 63) by (apply Z.pow_le_mono_r; lia). pose proof (pow2_pos j Hj). assert (q * 2 ^ j <= 2 ^ prec * 2 ^ 63) by (apply Z.mul_le_mono_nonneg; lia). lia.
  - pose proof (pow2_pos j Hj). assert (Hpw : 2 ^ (64 * len r - 1) <= 2 ^ prec) by nia. apply Z.pow_le_mono_r_iff in Hpw; lia.
Qed.

(** ** Results are small and report no memory error of their own *)

Definition clean (st : Z) : Prop := st .& BF_ST_MEM_ERROR = 0.

Lemma round_val_clean s m e prec flags : clean (round_val s m e prec flags).2.
Proof.
  unfold round_val. set (inx := is_inexact _ _). set (up := rnd_up _ _ _ _ _). clearbody inx up. cbv zeta. destruct (_ <=? 0); [by destruct inx|].
  destruct (_ && negb (has_flag _ _)); [by destruct inx|]. destruct (exp_range flags <? _); [done|]. cbn [snd]. destruct (_ <? _ + 3); by destruct inx.
Qed.

Definition fine (prec : Z) (res : bfval * Z) : Prop := small_val prec res.1 /\ clean res.2.

Lemma round_fine s m e prec flags : 0 < m -> rounding_ok prec flags -> fine prec (round_val s m e prec flags).
Proof. intros Hm [_ Hp Hr _]. split; [apply round_val_small; (done || lia)|apply round_val_clean]. Qed.

(** The mantissa of a value is positive. *)
Definition pos_val (v : bfval) : Prop := match v with VFin s m _ => 0 <= s <= 1 /\ 0 < m | VInf s | VZero s => 0 <= s <= 1 | VNan => True end.

Lemma wf_pos r : bf_wf r -> pos_val (bf_val r).
Proof.
  intros Hw. pose proof (wf_sign _ Hw). destruct (wf_cases r Hw) as [(_ & _ & [(_ & ->)|[(_ & ->)|(_ & ->)]])|(_ & _ & _ & _ & Hm & ->)]; done.
Qed.

Lemma quot_sticky_pos N D : 0 < D -> 0 < N -> 0 < quot_sticky N D.
Proof.
  intros HD HN. unfold quot_sticky. pose proof (Z.div_pos N D ltac:(lia) HD). destruct (Z.eqb_spec (N mod D) 0) as [Hz|]; cbn [negb b2z]; [|lia].
  pose proof (Z.div_mod N D ltac:(lia)). assert (N / D <> 0) by (intros He; rewrite He in *; lia). lia.
Qed.

Lemma div_bits_enough v1 v2 prec : pos_val v1 -> pos_val v2 -> 1 <= prec -> 0 <= div_bits v2 prec /\ div_enough (div_bits v2 prec) v1 v2 prec.
Proof.
  intros H1 H2 Hp. destruct v2 as [|s2|s2|s2 m2 e2]; try (by destruct v1). cbn [div_bits]. destruct H2 as [_ H2]. pose proof (log2_bounds m2 H2) as [Hb Hl]. split; [lia|].
  destruct v1 as [|s1|s1|s1 m1 e1]; try done. cbn [div_enough]. destruct H1 as [_ H1]. set (j := prec + Z.log2 m2 + 2).
  assert (Hq : 2 ^ (prec + 1) <= m1 * 2 ^ j / m2).
  { apply Z.div_le_lower_bound; [done|]. transitivity (2 ^ (Z.log2 m2 + 1) * 2 ^ (prec + 1)); [apply Z.mul_le_mono_nonneg_r; [apply Z.pow_nonneg; lia|lia]|].
    rewrite <- Z.pow_add_r by lia. replace (Z.log2 m2 + 1 + (prec + 1)) with j by (unfold j; lia). pose proof (pow2_pos j ltac:(lia)). nia. }
  assert (Hs : 2 ^ (prec + 1) <= quot_sticky (m1 * 2 ^ j) m2) by (unfold quot_sticky; pose proof (b2z_range (negb ((m1 * 2 ^ j) mod m2 =? 0))); pose proof (pow2_pos (prec + 1) ltac:(lia)); lia).
  apply Z.log2_le_mono in Hs. rewrite Z.log2_pow2 in Hs by lia. lia.
Qed.

Lemma root_sticky_ge N : 0 <= N -> Z.sqrt N <= root_sticky N.
Proof. intros HN. unfold root_sticky. pose proof (b2z_range (negb (Z.sqrt N * Z.sqrt N =? N))). pose proof (Z.sqrt_nonneg N). lia. Qed.

Lemma sqrt_bits_root m d prec : 0 < m -> 1 <= prec -> 0 <= d -> 2 ^ (sqrt_bits prec) <= root_sticky (m * 2 ^ (2 * sqrt_bits prec + d)).
Proof.
  intros Hm Hp Hd. unfold sqrt_bits. set (N := m * 2 ^ (2 * (prec + 2) + d)). assert (HN : 2 ^ (prec + 2) * 2 ^ (prec + 2) <= N).
  { unfold N. rewrite <- Z.pow_add_r by lia. replace (2 * (prec + 2) + d) with (prec + 2 + (prec + 2) + d) by lia. rewrite (Z.pow_add_r 2 _ d) by lia.
    pose proof (pow2_pos (prec + 2 + (prec + 2)) ltac:(lia)). pose proof (pow2_pos d Hd). set (X := 2 ^ (prec + 2 + (prec + 2))) in *. set (D := 2 ^ d) in *.
    assert (1 <= m * D) by nia. assert (1 * X <= m * D * X) by (apply Z.mul_le_mono_nonneg_r; lia). lia. }
  transitivity (Z.sqrt N); [|apply root_sticky_ge; pose proof (pow2_pos (prec + 2) ltac:(lia)); nia]. apply Z.sqrt_le_square; [|apply Z.pow_nonneg; lia|done]. pose proof (pow2_pos (prec + 2) ltac:(lia)). nia.
Qed.

Lemma sqrt_bits_enough v prec : pos_val v -> 1 <= prec -> 0 <= sqrt_bits prec /\ sqrt_enough (sqrt_bits prec) v prec.
Proof.
  intros Hv Hp. split; [unfold sqrt_bits; lia|]. destruct v as [|s|s|s m e]; try done. cbn [sqrt_enough]. destruct Hv as [_ Hm].
  pose proof (Z.mod_pos_bound e 2 ltac:(lia)). pose proof (sqrt_bits_root m (e mod 2) prec Hm Hp ltac:(lia)) as Hs. apply Z.log2_le_mono in Hs. unfold sqrt_bits in Hs at 1. rewrite Z.log2_pow2 in Hs by lia. lia.
Qed.

Lemma special_fine prec v st : is_fin_val v = false -> clean st -> fine prec (v, st).
Proof. intros Hv Hs. split; [by destruct v|done]. Qed.

Lemma op2_fine op v1 v2 prec flags : pos_val v1 -> pos_val v2 -> rounding_ok prec flags -> fine prec (op2_val op v1 v2 prec flags).
Proof.
  intros H1 H2 Hro. pose proof (ro_prec _ _ Hro) as Hp.
  assert (Hadd : forall w1 w2, pos_val w1 -> pos_val w2 -> fine prec (add_val w1 w2 prec flags)).
  { intros w1 w2 P1 P2. destruct w1 as [| | |s1 m1 e1], w2 as [| | |s2 m2 e2]; cbn [add_val round_of]; try (by apply special_fine); try (destruct P1, P2; by apply round_fine); try (by apply round_fine; [apply P1|]); try (by apply round_fine; [apply P2|]).
    - destruct (_ =? _); by apply special_fine.
    - destruct (Z.eqb_spec (signed s1 m1 * 2 ^ (e1 - Z.min e1 e2) + signed s2 m2 * 2 ^ (e2 - Z.min e1 e2)) 0); [by apply special_fine|]. apply round_fine; [lia|done]. }
  destruct op; cbn [op2_val].
  - by apply Hadd.
  - apply Hadd; [done|]. destruct v2 as [|s|s|s m e]; cbn [neg_val pos_val] in *; try done; [apply xor_sign; lia..|]. split; [apply xor_sign; lia|tauto].
  - destruct v1 as [| | |s1 m1 e1], v2 as [| | |s2 m2 e2]; cbn [mul_val]; try (by apply special_fine). apply round_fine; [|done]. destruct H1, H2. by apply Z.mul_pos_pos.
  - destruct v1 as [| | |s1 m1 e1], v2 as [| | |s2 m2 e2]; cbn [div_val]; try (by apply special_fine). apply round_fine; [|done]. destruct H1, H2. apply quot_sticky_pos; [done|].
    apply Z.mul_pos_pos; [done|]. apply pow2_pos. cbn [div_bits]. pose proof (Z.log2_nonneg m2). lia.
Qed.

Lemma sqrt_fine v prec flags : pos_val v -> rounding_ok prec flags -> fine prec (sqrt_val (sqrt_bits prec) v prec flags).
Proof.
  intros Hv Hro. pose proof (ro_prec _ _ Hro) as Hp. destruct v as [|s|s|s m e]; cbn [sqrt_val]; try (by apply special_fine); [by destruct (s =? 0); apply special_fine|].
  destruct (s =? 0); [|by apply special_fine]. apply round_fine; [|done]. destruct Hv as [_ Hm]. pose proof (Z.mod_pos_bound e 2 ltac:(lia)).
  eapply Z.lt_le_trans; [|apply sqrt_bits_root; (done || lia)]. apply pow2_pos. unfold sqrt_bits. lia.
Qed.

(** ** A step *)

Section Run.
Context `{!Allocator} `{R : !Realloc} `{F : !FftMul} {Sok : ShrinkOk} {Fok : FftMulOk} (stack : list Z).

(** What can go wrong in a step: the result is NaN with a memory error, or a sum with a zero
    is lost. *)
Definition refused (i : instr) (v : bfval) (st : Z) : Prop :=
  mem_refused /\
  ((st = BF_ST_MEM_ERROR /\ v = VNan) \/
   (exists op r a b prec flags, i = Op2 op r a b prec flags /\ (op = OpAdd \/ op = OpSub) /\ st = 0 /\ is_zero_val v = true)).

(** What a step gives: the value of the instruction, or a failure, in one register. *)
Definition step_gives (i : instr) (m : option (aopaque * bf_t * Z)) (res : bfval * Z) : Prop :=
  exists o' r' st, m = Some (o', r', st) /\ reg_ok r' /\ ((st = res.2 /\ veq (bf_val r') res.1 /\ clean st) \/ refused i (bf_val r') st).

Lemma special_reg r : bf_wf r -> is_fin_val (bf_val r) = false -> reg_ok r.
Proof. intros Hw Hv. split; [done|]. destruct (wf_cases r Hw) as [(-> & _)|(_ & _ & _ & _ & _ & He)]; [lia|by rewrite He in Hv]. Qed.

Lemma gives_step i m res prec : gives_val m res -> fine prec res -> 1 <= prec <= 2 ^ 57 -> step_gives i m res.
Proof.
  intros (o & r & st & -> & Hw & Hg) [Hsm Hcl] Hp. exists o, r, st. split; [done|]. destruct Hg as [[-> Hv]|(-> & Hv & Href)].
  - split; [|by left]. split; [done|]. pose proof (reg_small r _ prec Hw Hv Hsm ltac:(lia)). lia.
  - split; [apply special_reg; [done|by rewrite Hv]|]. right. split; [done|]. by left.
Qed.

Lemma gives_sum_step op r a b prec flags m v1 v2 res :
  op = OpAdd \/ op = OpSub -> gives_sum m v1 v2 res -> fine prec res -> 1 <= prec <= 2 ^ 57 -> step_gives (Op2 op r a b prec flags) m res.
Proof.
  intros Hop [Hg|(_ & Href & o' & r' & -> & Hw & Hz)] Hf Hp; [by apply (gives_step _ _ _ prec)|]. exists o', r', 0. split; [done|].
  split; [apply special_reg; [done|by destruct (bf_val r')]|]. right. split; [by right|]. right. by exists op, r, a, b, prec, flags.
Qed.

Lemma bf_set_ui_spec o r a : 0 <= a < 2 ^ 64 -> gives_val (bf_set_ui o r a) (int_val a, 0).
Proof.
  intros Ha. unfold bf_set_ui, int_val. destruct (Z.eqb_spec a 0) as [->|Hne].
  - destruct (bf_resize_0 o (with_expn (with_sign r 0) BF_EXP_ZERO)) as (o' & ->). eexists _, _, _. split; [done|]. split; [apply wf_special; [done|by left]|by left].
  - destruct (bf_resize_spec o (with_sign r 0) 1 ltac:(lia)) as [(o' & t & -> & Hl & _)|(o' & -> & _ & Href)]; [|apply bf_mem_error_spec; by right].
    destruct t as [|x [|y t]]; [unfold zlen in Hl; simpl in Hl; lia| |unfold zlen in Hl; simpl in Hl; lia]. cbn [Z.eqb negb with_tab tab]. rewrite (zset_mid [] x [] 0) by done. cbn [mbind option_bind app].
    assert (Hla : is_limb a) by (unfold is_limb; rewrite limb_base_val; lia). destruct (clz_norm a Hla Hne) as [Hc Hb].
    assert (Hv : u64 (a ≪ clz a) = a * 2 ^ clz a) by (rewrite Z.shiftl_mul_pow2 by lia; unfold u64, wrapu; apply Z.mod_small; lia). rewrite Hv, limb_bits_val.
    assert (HM : mpz [a * 2 ^ clz a] = a * 2 ^ clz a) by (rewrite mpz_cons; change (mpz []) with 0; lia).
    assert (Hbf : bf_val (mkBf 0 (64 - clz a) [a * 2 ^ clz a]) = VFin 0 (a * 2 ^ clz a) (- clz a)).
    { unfold bf_val. cbn [expn bf_sign tab]. destruct (fin_expn (64 - clz a) ltac:(lia)) as (_ & -> & -> & ->). rewrite HM. unfold len, zlen. cbn [tab length]. f_equal. lia. }
    exists o', (mkBf 0 (64 - clz a) [a * 2 ^ clz a]), 0. split; [done|]. split.
    + split; cbn [bf_sign tab expn]; [lia|constructor; [unfold is_limb; rewrite limb_base_val; lia|constructor]|]. right. split; [eexists _, _; split; [done|lia]|]. rewrite HM. change (bpow [a * 2 ^ clz a]) with (2 ^ 64). split; lia.
    + left. split; [done|]. cbn [fst]. rewrite Hbf, (proj2 (Z.ltb_ge a 0)), Z.abs_eq by lia. split; [done|]. apply deq_sym, (deq_scale _ _ _ _ (clz a)); lia.
Qed.

Lemma bf_set_si_spec o r a : - 2 ^ 63 <= a < 2 ^ 63 -> gives_val (bf_set_si o r a) (int_val a, 0).
Proof.
  intros Ha. unfold bf_set_si. destruct (Z.ltb_spec a 0) as [Hneg|]; [|apply bf_set_ui_spec; lia].
  assert (u64 (- a) = - a) as -> by (unfold u64, wrapu; apply Z.mod_small; lia). destruct (bf_set_ui_spec o r (- a) ltac:(lia)) as (o' & r' & st & -> & Hw & Hg). cbn [mbind option_bind].
  eexists _, _, _. split; [done|]. assert (Hw1 : bf_wf (with_sign r' 1)) by (destruct Hw as [_ Hl Hf]; split; [cbn; lia|done|done]). split; [done|].
  assert (Hv1 : bf_val (with_sign r' 1) = sign_val 1 (bf_val r')) by (unfold bf_val; cbn [with_sign expn bf_sign tab]; by repeat case_match).
  rewrite Hv1. cbn [fst snd] in *. destruct Hg as [[-> Hv]|(-> & Hv & Href)]; [left|right; rewrite Hv; done]. split; [done|].
  unfold int_val in *. rewrite (proj2 (Z.eqb_neq (- a) 0)) in Hv by lia. rewrite (proj2 (Z.eqb_neq a 0)), (proj2 (Z.ltb_lt a 0)) by lia.
  destruct (bf_val r') as [| | |s m e]; try done. destruct Hv as [_ Hd]. split; [done|]. by rewrite Z.abs_opp in Hd.
Qed.

Lemma bf_set_step i o same r a : reg_ok a -> (same = true -> r = a) -> step_gives i (bf_set o same r a) (bf_val a, 0).
Proof.
  intros Ha Hs. unfold bf_set. destruct same; [rewrite Hs by done; exists o, a, 0; split; [done|]; split; [done|]; left; done|].
  destruct (bf_resize_spec o r (len a) (zlen_nonneg _)) as [(o1 & t & -> & Hlt & _)|(o1 & -> & _ & Href)]; cbn [Z.eqb negb].
  - cbn [with_tab tab]. assert (zsplice t 0 (tab a) = Some (tab a)) as ->.
    { pose proof (zsplice_head t [] (tab a)) as Hz. rewrite !app_nil_r in Hz. apply Hz. unfold len, zlen in *. lia. }
    cbn [mbind option_bind]. exists o1, a, 0. split; [by destruct a|]. split; [done|]. left. done.
  - destruct (bf_set_nan_spec o1 r) as (o2 & r2 & He & Hw & Hv). unfold bf_mem_error. rewrite He. exists o2, r2, BF_ST_MEM_ERROR. split; [done|].
    split; [apply special_reg; [done|by rewrite Hv]|]. right. split; [by right|]. left. by rewrite Hv.
Qed.

Lemma bf_neg_val r : bf_wf r -> bf_wf (bf_neg r) /\ bf_val (bf_neg r) = neg_val 1 (bf_val r).
Proof.
  intros [Hs Hl Hf]. split; [split; [cbn [bf_neg with_sign bf_sign]; apply xor_sign; lia|done|done]|]. unfold bf_val, bf_neg. cbn [with_sign expn bf_sign tab]. by repeat case_match.
Qed.

Lemma reg_lookup regs r : Forall reg_ok regs -> (r < length regs)%nat -> exists x, regs !! r = Some x /\ reg_ok x /\ (bf_val <$> regs) !! r = Some (bf_val x).
Proof.
  intros Hr Hlt. destruct (lookup_lt_is_Some_2 regs r Hlt) as [x Hx]. exists x. split; [done|]. split; [by eapply Forall_lookup_1|]. by rewrite list_lookup_fmap, Hx.
Qed.

Lemma reg_sum_ok x y prec flags : reg_ok x -> reg_ok y -> rounding_ok prec flags -> sum_ok x y prec flags.
Proof.
  intros [Hx Lx] [Hy Ly] [Hf Hp Hr _]. split; try (done || lia). intros Hpi. exfalso. vm_compute in Hpi. lia.
Qed.

Lemma op2_step op o (alias : bool) r a b x y z prec flags :
  reg_ok y -> reg_ok z -> rounding_ok prec flags ->
  step_gives (Op2 op r a b prec flags) (exec_op2 op o alias x y z prec flags) (op2_val op (bf_val y) (bf_val z) prec flags).
Proof.
  intros Hy Hz Hro. pose proof (op2_fine op _ _ _ _ (wf_pos _ (proj1 Hy)) (wf_pos _ (proj1 Hz)) Hro) as Hfine. pose proof Hro as [Hf Hp Hr Hm]. pose proof Hy as [Wy Ly]. pose proof Hz as [Wz Lz].
  destruct op; cbn [exec_op2 op2_val] in *.
  - eapply gives_sum_step; [by left|by apply bf_add_spec, reg_sum_ok|done|done].
  - eapply gives_sum_step; [by right|by apply bf_sub_spec, reg_sum_ok|done|done].
  - eapply gives_step; [apply bf_mul_spec; (done || lia)|done|done].
  - destruct (div_bits_enough _ _ prec (wf_pos _ Wy) (wf_pos _ Wz) ltac:(lia)) as [Hj Hen]. eapply gives_step; [apply bf_div_spec; (done || lia)|done|done].
Qed.

(** Every instruction writes one register. *)
Lemma exec_step o regs i :
  Forall reg_ok regs -> instr_ok (length regs) i ->
  exists o' st r x res, exec stack o regs i = Some (o', <[r := x]> regs, st) /\ (r < length regs)%nat /\ instr_val (bf_val <$> regs) i = Some (r, res) /\ reg_ok x /\
    ((st = res.2 /\ veq (bf_val x) res.1 /\ clean st) \/ refused i (bf_val x) st).
Proof.
  intros Hregs Hi. destruct i as [op r a b prec flags|r a prec flags|r prec flags|r|r v|r a]; cbn [instr_ok exec instr_val] in *.
  - destruct Hi as (Hr & Ha & Hb & Hro). destruct (reg_lookup _ _ Hregs Hr) as (x & -> & _ & _), (reg_lookup _ _ Hregs Ha) as (y & -> & Hy & ->), (reg_lookup _ _ Hregs Hb) as (z & -> & Hz & ->).
    cbn [mbind option_bind]. destruct (op2_step op o ((r =? a)%nat || (r =? b)%nat) r a b x y z prec flags Hy Hz Hro) as (o' & x' & st & -> & Hg). by eexists _, _, _, _, _.
  - destruct Hi as (Hr & Ha & Hne & Hro). apply Nat.eqb_neq in Hne. rewrite Hne. destruct (reg_lookup _ _ Hregs Hr) as (x & -> & _ & _), (reg_lookup _ _ Hregs Ha) as (y & -> & Hy & ->). cbn [mbind option_bind].
    pose proof Hy as [Wy Ly]. pose proof Hro as [Hf Hp Hrad Hm]. destruct (sqrt_bits_enough _ prec (wf_pos _ Wy) ltac:(lia)) as [Hj Hen].
    destruct (gives_step (Sqrt r a prec flags) _ _ prec (bf_sqrt_spec o stack x y prec flags Wy ltac:(lia) Hf ltac:(lia) Hrad _ Hj Hen) (sqrt_fine _ _ _ (wf_pos _ Wy) Hro) Hp) as (o' & x' & st & -> & Hg). by eexists _, _, _, _, _.
  - destruct Hi as (Hr & Hro). destruct (reg_lookup _ _ Hregs Hr) as (x & -> & Hx & ->). cbn [mbind option_bind]. pose proof Hx as [Wx Lx]. pose proof Hro as [Hf Hp Hrad Hm].
    assert (Hfine : fine prec (round_of (bf_val x) prec flags)).
    { pose proof (wf_pos _ Wx) as Hpos. destruct (bf_val x); cbn [round_of]; try (by apply special_fine). apply round_fine; [apply Hpos|done]. }
    destruct (gives_step (Round r prec flags) _ _ prec (bf_round_spec o x prec flags Wx ltac:(lia) Hf ltac:(lia)) Hfine Hp) as (o' & x' & st & -> & Hg). by eexists _, _, _, _, _.
  - destruct (reg_lookup _ _ Hregs Hi) as (x & -> & Hx & ->). cbn [mbind option_bind]. destruct (bf_neg_val x (proj1 Hx)) as [Hw Hv]. eexists _, _, _, _, _. split; [done|]. split; [done|]. split; [done|].
    split; [split; [done|apply Hx]|]. left. split; [done|]. by rewrite Hv.
  - destruct Hi as (Hr & Hv). destruct (reg_lookup _ _ Hregs Hr) as (x & -> & _ & _). cbn [mbind option_bind].
    assert (Hfine : fine 64 (int_val v, 0)).
    { split; [|done]. cbn [fst]. unfold int_val. destruct (Z.eqb_spec v 0); [done|]. cbn [small_val]. lia. }
    destruct (gives_step (SetSi r v) _ _ 64 (bf_set_si_spec o x v Hv) Hfine ltac:(lia)) as (o' & x' & st & -> & Hg). by eexists _, _, _, _, _.
  - destruct Hi as (Hr & Ha). destruct (reg_lookup _ _ Hregs Hr) as (x & Hx & _ & _), (reg_lookup _ _ Hregs Ha) as (y & Hy & Hok & ->). rewrite Hx, Hy. cbn [mbind option_bind].
    destruct (bf_set_step (Copy r a) o (r =? a)%nat x y Hok) as (o' & x' & st & -> & Hg). { intros He. apply Nat.eqb_eq in He. subst. congruence. }
    by eexists _, _, _, _, _.
Qed.

Lemma regs_write regs r x : Forall reg_ok regs -> reg_ok x -> Forall reg_ok (<[r := x]> regs).
Proof. intros Hr Hx. by apply Forall_insert. Qed.

(** Values of the registers after a step. *)
Lemma exec_vstep o regs i : Forall reg_ok regs -> instr_ok (length regs) i -> ~ mem_refused ->
  exists o' regs' st, exec stack o regs i = Some (o', regs', st) /\ length regs' = length regs /\ Forall reg_ok regs' /\ vstep (bf_val <$> regs) i st (bf_val <$> regs').
Proof.
  intros Hregs Hi Hmem. destruct (exec_step o regs i Hregs Hi) as (o' & st & r & x & res & -> & Hr & Hv & Hx & [(-> & Hg & _)|[Href _]]); [|done].
  eexists _, _, _. split; [done|]. split; [apply length_insert|]. split; [by apply regs_write|]. rewrite list_fmap_insert. by econstructor.
Qed.



End Run.

(** ** A program *)

(** Two thirds, and the error of the square of the square root of two, in place. *)
Definition demo : list instr :=
  [SetSi 0 2; SetSi 1 3; Op2 OpDiv 1 0 1 53 BF_RNDN; Sqrt 2 0 53 BF_RNDN; Op2 OpMul 2 2 2 53 BF_RNDN; Op2 OpSub 2 2 0 53 BF_RNDN; Round 2 10 BF_RNDD].

Definition demo_regs : list bf_t := [bf_init; bf_init; bf_init].

Lemma demo_regs_ok : Forall reg_ok demo_regs.
Proof. repeat constructor; try (apply wf_special; [lia|by left]); vm_compute; congruence. Defined.

Lemma rounding_ok_53 : rounding_ok 53 BF_RNDN.
Proof. split; [split; try (by vm_compute); right; lia|lia|done|done]. Defined.

Lemma demo_ok : Forall (instr_ok (length demo_regs)) demo.
Proof.
  assert (Hd : rounding_ok 10 BF_RNDD) by (split; [split; try (by vm_compute); right; lia|lia|done|done]).
  pose proof rounding_ok_53 as Hn. unfold demo. repeat (apply Forall_cons_2; [cbn [instr_ok length demo_regs]; repeat split; done || lia|]). constructor.
Defined.

Lemma malloc_ok_never_refuses : ~ @mem_refused malloc_ok realloc_ok.
Proof. intros [Hr|(o & old & n & o' & _ & Hr)]; [|done]. unfold alloc_refuses in Hr. by destruct Hr as (? & ? & ? & ?). Defined.




Example demo_run :
  @exec_all malloc_ok realloc_ok school_mul (replicate 64 0) tt demo_regs demo =
  Some (tt, [mkBf 0 2 [2 ^ 63]; mkBf 0 0 [0xaaaaaaaaaaaaa800]; mkBf 0 (-50) [2 ^ 63]], [0; 0; 16; 16; 16; 0; 0]).
Proof. vm_compute. reflexivity. Qed.
