(* ===== verification/BfConv.v ===== *)
(** Conversions between the numbers of [libbf.c] and machine numbers.

    A double is its 64 bits, and [f64_val] the value they stand for.  Conversion to a double
    is proved to be the rounding to 53 bits with the exponents and the subnormal numbers of a
    double, and to give back the double a number came from; conversion to integers truncates,
    and saturates or wraps. *)

From S2P Require Import Prelude CutilsH DynBuf BfLimbs BfDiv BfRecip BfSqrt BfNum BfRound BfVal BfArith BfCmp BfAdd BfProg.

Definition BF_GET_INT_MOD : Z := 1 ≪ 0.
Definition INT32_MAX : Z := 2 ^ 31 - 1.
Definition INT64_MAX : Z := 2 ^ 63 - 1.
Definition UINT64_MAX : Z := 2 ^ 64 - 1.

Definition bf_set_exp_bits (n : Z) : Z := ((BF_EXP_BITS_MAX - n) .& BF_EXP_BITS_MASK) ≪ BF_EXP_BITS_SHIFT.

(** ** Doubles *)

(** The exponent and the mantissa fields of a rounded number; a shift by the width of the
    type or more is undefined. *)
Definition f64_fields (b : bf_t) : option (Z * Z) :=
  if expn b =? BF_EXP_INF then Some ((1 ≪ 11) - 1, 0)
  else if expn b =? BF_EXP_ZERO then Some (0, 0)
  else
    let e := i32 (i64 (expn b + 1023 - 1)) in
    m ← zget (tab b) 0;
    if e <=? 0 then if 12 - e <? 64 then Some (0, m ≫ (12 - e)) else None
    else Some (e, u64 (m ≪ 1) ≫ 12).

Section Conv.
Context `{!Allocator} `{R : !Realloc}.

(** The bits of the double and the status. *)
Definition bf_get_float64 (o : aopaque) (a : bf_t) (rnd_mode : Z) : option (aopaque * Z * Z) :=
  if expn a =? BF_EXP_NAN then Some (o, 0x7ff8000000000000, 0)
  else
    '(o, b, _) ← bf_set o false bf_init a;
    '(o, b, ret) ←
      (if bf_is_finite b then bf_round o b 53 (rnd_mode .| BF_FLAG_SUBNORMAL .| bf_set_exp_bits 11) else Some (o, b, 0));
    '(e, m) ← f64_fields b;
    Some (bf_delete o b, m .| u64 (e ≪ 52) .| u64 (bf_sign b ≪ 63), ret).

(** [u] is the bits of the double. *)
Definition bf_set_float64 (o : aopaque) (a : bf_t) (u : Z) : option (aopaque * bf_t * Z) :=
  let sgn := u ≫ 63 in
  let e := (u ≫ 52) .& ((1 ≪ 11) - 1) in
  let m := u .& ((1 ≪ 52) - 1) in
  let norm e m :=
    let '(o, a, st) := bf_resize o (with_expn a (e - 1023 + 1)) 1 in
    if negb (st =? 0) then Some (bf_mem_error o a)
    else t ← zset (tab a) 0 m; Some (o, with_sign (with_tab a t) sgn, 0) in
  if e =? (1 ≪ 11) - 1 then
    if negb (m =? 0) then let '(o, a) := bf_set_nan o a in Some (o, a, 0)
    else let '(o, a) := bf_set_inf o a sgn in Some (o, a, 0)
  else if e =? 0 then
    if m =? 0 then let '(o, a) := bf_set_zero o a sgn in Some (o, a, 0)
    else
      let m := u64 (m ≪ 12) in
      shift ← clz64 m;
      norm (- shift) (u64 (m ≪ shift))
  else norm e (u64 (m ≪ 11) .| (1 ≪ 63)).
End Conv.

(** ** Integers *)

Definition bf_get_int32 (a : bf_t) (flags : Z) : option (Z * Z) :=
  let mod_ := negb (flags .& BF_GET_INT_MOD =? 0) in
  let neg v := if negb (bf_sign a =? 0) then u32 (- v) else v in
  '(v, ret) ←
    (if BF_EXP_INF <=? expn a then
       Some (if mod_ then 0 else if expn a =? BF_EXP_INF then u32 (INT32_MAX + bf_sign a) else INT32_MAX, BF_ST_INVALID_OP)
     else if expn a <=? 0 then Some (0, 0)
     else if expn a <=? 31 then
       top ← zget (tab a) (len a - 1);
       Some (neg (u32 (top ≫ (LIMB_BITS - expn a))), 0)
     else if negb mod_ then
       if negb (bf_sign a =? 0) then
         let v := INT32_MAX + 1 in
         if expn a =? 32 then
           top ← zget (tab a) (len a - 1);
           Some (v, if top ≫ (LIMB_BITS - 32) =? v then 0 else BF_ST_INVALID_OP)
         else Some (v, BF_ST_INVALID_OP)
       else Some (INT32_MAX, BF_ST_INVALID_OP)
     else
       v ← get_bits (tab a) (len a) (i64 (len a * LIMB_BITS - expn a));
       Some (neg (u32 v), 0));
  Some (i32 v, ret).

Definition bf_get_int64 (a : bf_t) (flags : Z) : option (Z * Z) :=
  let mod_ := negb (flags .& BF_GET_INT_MOD =? 0) in
  let neg v := if negb (bf_sign a =? 0) then u64 (- v) else v in
  '(v, ret) ←
    (if BF_EXP_INF <=? expn a then
       Some (if mod_ then 0 else if expn a =? BF_EXP_INF then u64 (INT64_MAX + bf_sign a) else INT64_MAX, BF_ST_INVALID_OP)
     else if expn a <=? 0 then Some (0, 0)
     else if expn a <=? 63 then
       top ← zget (tab a) (len a - 1);
       Some (neg (top ≫ (LIMB_BITS - expn a)), 0)
     else if negb mod_ then
       if negb (bf_sign a =? 0) then
         let v := INT64_MAX + 1 in
         if expn a =? 64 then
           v1 ← zget (tab a) (len a - 1);
           Some (v, if v1 =? v then 0 else BF_ST_INVALID_OP)
         else Some (v, BF_ST_INVALID_OP)
       else Some (INT64_MAX, BF_ST_INVALID_OP)
     else
       v ← get_bits (tab a) (len a) (i64 (len a * LIMB_BITS - expn a));
       Some (neg v, 0));
  Some (i64 v, ret).

Definition bf_get_uint64 (a : bf_t) : option (Z * Z) :=
  if expn a =? BF_EXP_NAN then Some (UINT64_MAX, BF_ST_INVALID_OP)
  else if expn a <=? 0 then Some (0, 0)
  else if negb (bf_sign a =? 0) then Some (0, BF_ST_INVALID_OP)
  else if expn a <=? 64 then
    top ← zget (tab a) (len a - 1);
    Some (top ≫ (LIMB_BITS - expn a), 0)
  else Some (UINT64_MAX, BF_ST_INVALID_OP).

(** ** The value of a double *)

Definition f64_val (u : Z) : bfval :=
  let s := u / 2 ^ 63 in
  let e := (u / 2 ^ 52) mod 2 ^ 11 in
  let m := u mod 2 ^ 52 in
  if e =? 2047 then if m =? 0 then VInf s else VNan
  else if e =? 0 then if m =? 0 then VZero s else VFin s m (-1074)
  else VFin s (2 ^ 52 + m) (e - 1075).

(** The parts of a double. *)
Lemma f64_parts u : 0 <= u < 2 ^ 64 ->
  u ≫ 63 = u / 2 ^ 63 /\ (u ≫ 52) .& ((1 ≪ 11) - 1) = (u / 2 ^ 52) mod 2 ^ 11 /\ u .& ((1 ≪ 52) - 1) = u mod 2 ^ 52 /\
  u = u / 2 ^ 63 * 2 ^ 63 + (u / 2 ^ 52) mod 2 ^ 11 * 2 ^ 52 + u mod 2 ^ 52 /\ 0 <= u / 2 ^ 63 <= 1.
Proof.
  intros Hu. rewrite !Z.shiftr_div_pow2 by lia. change ((1 ≪ 11) - 1) with (Z.ones 11). change ((1 ≪ 52) - 1) with (Z.ones 52). rewrite !Z.land_ones by lia. repeat split; try reflexivity; zdm.
Qed.

Lemma f64_of_parts s e m : 0 <= s <= 1 -> 0 <= e < 2 ^ 11 -> 0 <= m < 2 ^ 52 ->
  let u := s * 2 ^ 63 + e * 2 ^ 52 + m in
  0 <= u < 2 ^ 64 /\ u / 2 ^ 63 = s /\ (u / 2 ^ 52) mod 2 ^ 11 = e /\ u mod 2 ^ 52 = m /\ m .| u64 (e ≪ 52) .| u64 (s ≪ 63) = u.
Proof.
  intros Hs He Hm u. assert (Hu : 0 <= u < 2 ^ 64) by (unfold u; lia). split; [done|].
  assert (H1 : u / 2 ^ 63 = s) by (unfold u; clear Hu; zdm). assert (H3 : u mod 2 ^ 52 = m) by (unfold u; clear Hu H1; zdm). assert (H2 : (u / 2 ^ 52) mod 2 ^ 11 = e) by (unfold u; clear Hu H1 H3; zdm).
  split; [done|]. split; [done|]. split; [done|]. rewrite !Z.shiftl_mul_pow2 by lia. unfold u64, wrapu. rewrite (Z.mod_small (e * 2 ^ 52)), (Z.mod_small (s * 2 ^ 63)) by lia.
  rewrite (lor_add 52 m (e * 2 ^ 52)), (lor_add 63 _ (s * 2 ^ 63)) by (lia || apply Z.mod_mul; lia). unfold u. lia.
Qed.

Section ConvSpec.
Context `{!Allocator} `{R : !Realloc} {Sok : ShrinkOk}.

(** A number with one limb. *)
Lemma one_limb_val s E M : 0 <= s <= 1 -> 2 ^ 63 <= M < 2 ^ 64 -> - 2 ^ 61 <= E <= 2 ^ 61 -> bf_wf (mkBf s E [M]) /\ bf_val (mkBf s E [M]) = VFin s M (E - 64).
Proof.
  intros Hs HM HE. assert (Hmpz : mpz [M] = M) by (rewrite mpz_cons; change (mpz []) with 0; lia). split.
  - split; cbn [bf_sign tab expn]; [done|constructor; [unfold is_limb; rewrite limb_base_val; lia|constructor]|]. right. split; [eexists _, _; split; [done|lia]|]. rewrite Hmpz. change (bpow [M]) with (2 ^ 64). lia.
  - unfold bf_val. cbn [expn bf_sign tab]. destruct (fin_expn E HE) as (_ & -> & -> & ->). by rewrite Hmpz.
Qed.

Lemma set_norm_spec o a s e M : 0 <= s <= 1 -> 2 ^ 63 <= M < 2 ^ 64 -> - 2 ^ 60 <= e <= 2 ^ 60 ->
  gives_val (let '(o, a, st) := bf_resize o (with_expn a (e - 1023 + 1)) 1 in
    if negb (st =? 0) then Some (bf_mem_error o a) else t ← zset (tab a) 0 M; Some (o, with_sign (with_tab a t) s, 0)) (VFin s M (e - 1086), 0).
Proof.
  intros Hs HM He. destruct (bf_resize_spec o (with_expn a (e - 1023 + 1)) 1 ltac:(lia)) as [(o' & t & -> & Hl & _)|(o' & -> & _ & Href)]; [|apply bf_mem_error_spec; by right].
  destruct t as [|x [|y t]]; [unfold zlen in Hl; simpl in Hl; lia| |unfold zlen in Hl; simpl in Hl; lia]. cbn [Z.eqb negb with_tab tab]. rewrite (zset_mid [] x [] 0) by done. cbn [mbind option_bind app].
  destruct (one_limb_val s (e - 1023 + 1) M Hs HM ltac:(lia)) as [Hw Hv]. exists o', (mkBf s (e - 1023 + 1) [M]), 0. split; [done|]. split; [done|]. left. split; [done|]. cbn [fst]. rewrite Hv.
  replace (e - 1023 + 1 - 64) with (e - 1086) by lia. done.
Qed.

Lemma bf_set_float64_spec o a u : 0 <= u < 2 ^ 64 -> gives_val (bf_set_float64 o a u) (f64_val u, 0).
Proof.
  intros Hu. destruct (f64_parts u Hu) as (H1 & H2 & H3 & Hsum & Hs). unfold bf_set_float64, f64_val. rewrite H1, H2, H3. set (s := u / 2 ^ 63) in *. set (e := (u / 2 ^ 52) mod 2 ^ 11) in *. set (m := u mod 2 ^ 52) in *.
  assert (He : 0 <= e < 2048) by (apply (Z.mod_pos_bound _ (2 ^ 11)); lia). assert (Hm : 0 <= m < 2 ^ 52) by (apply Z.mod_pos_bound; lia). clearbody s e m. clear H1 H2 H3 Hsum Hu. change ((1 ≪ 11) - 1) with 2047.
  destruct (e =? 2047); [destruct (Z.eqb_spec m 0); cbn [negb]; [by apply gives_inf|apply gives_nan]|]. destruct (Z.eqb_spec e 0) as [->|He0].
  - destruct (Z.eqb_spec m 0) as [|Hm0]; [by apply gives_zero|]. assert (Hm12 : u64 (m ≪ 12) = m * 2 ^ 12) by (rewrite Z.shiftl_mul_pow2 by lia; unfold u64, wrapu; apply Z.mod_small; lia). rewrite Hm12.
    assert (Hl : is_limb (m * 2 ^ 12)) by (unfold is_limb; rewrite limb_base_val; lia). destruct (clz_norm _ Hl ltac:(lia)) as [Hc Hb].
    assert (Hclz : clz64 (m * 2 ^ 12) = Some (clz (m * 2 ^ 12))) by (unfold clz64, clz; by rewrite (proj2 (Z.eqb_neq (m * 2 ^ 12) 0)) by lia). rewrite Hclz. cbn [mbind option_bind]. set (c := clz (m * 2 ^ 12)) in *.
    assert (Hsh : u64 ((m * 2 ^ 12) ≪ c) = m * 2 ^ 12 * 2 ^ c) by (rewrite Z.shiftl_mul_pow2 by lia; unfold u64, wrapu; apply Z.mod_small; lia). rewrite Hsh.
    eapply gives_eq; [apply set_norm_spec; [done|done|lia]| |done]. split; [done|]. apply deq_sym, (deq_scale _ _ _ _ (12 + c)); [lia| |lia]. rewrite Z.pow_add_r by lia. lia.
  - assert (HM : u64 (m ≪ 11) .| (1 ≪ 63) = (2 ^ 52 + m) * 2 ^ 11).
    { rewrite Z.shiftl_mul_pow2 by lia. unfold u64, wrapu. rewrite Z.mod_small, (lor_add 63) by (done || lia). change (1 ≪ 63) with (2 ^ 52 * 2 ^ 11). lia. }
    rewrite HM. eapply gives_eq; [apply set_norm_spec; [done|lia|lia]| |done]. split; [done|]. apply deq_sym, (deq_scale _ _ _ _ 11); [lia|lia|lia].
Qed.

(** ** Rounding to a double *)

Definition f64_flags (mode : Z) : Z := mode .| BF_FLAG_SUBNORMAL .| bf_set_exp_bits 11.

Lemma f64_flags_spec mode : 0 <= mode <= 6 ->
  mode_of (f64_flags mode) = mode /\ has_flag (f64_flags mode) BF_FLAG_SUBNORMAL = true /\ has_flag (f64_flags mode) BF_FLAG_RADPNT_PREC = false /\
  exp_range (f64_flags mode) = 1024 /\ flags_ok 53 (f64_flags mode).
Proof.
  intros Hm. assert (mode = 0 \/ mode = 1 \/ mode = 2 \/ mode = 3 \/ mode = 4 \/ mode = 5 \/ mode = 6) as Hc by lia.
  repeat destruct Hc as [->|Hc]; [..|subst mode]; (split; [done|]; split; [done|]; split; [done|]; split; [done|]; split; [by vm_compute|by vm_compute|by vm_compute|right; lia|intros; lia|by vm_compute]).
Qed.

Lemma exact_up mode s q : rnd_up mode s q 0 0 = false.
Proof. unfold rnd_up. repeat case_match; try done; apply andb_false_r. Qed.

Lemma f64_prec_at mode ex : 0 <= mode <= 6 -> prec_at ex 53 (f64_flags mode) = if ex <? -1021 then 53 - (-1021 - ex) else 53.
Proof.
  intros Hm. destruct (f64_flags_spec mode Hm) as (_ & Hs & Hr & He & _). unfold prec_at. rewrite Hr, He, Hs. change (- (1024) + 3) with (-1021). by rewrite andb_true_r.
Qed.

(** A finite result fits a double. *)
Lemma f64_round_fits s m e mode s' y e' st :
  0 < m -> 0 <= mode <= 6 -> round_val s m e 53 (f64_flags mode) = (VFin s' y e', st) ->
  0 < y <= 2 ^ 53 /\ -1074 <= e' /\ y * 2 ^ (e' + 1074) < 2 ^ 2098.
Proof.
  intros Hm Hmode Hr. destruct (f64_flags_spec mode Hmode) as (Em & Hs & Hrad & He & _). pose proof (round_val_small s m e 53 (f64_flags mode) Hm ltac:(lia) Hrad) as Hy. rewrite Hr in Hy. cbn [fst small_val] in Hy. split; [done|].
  pose proof (log2_bounds m Hm) as [Hb Hl]. unfold round_val in Hr. rewrite Em, He, f64_prec_at in Hr by done. set (n := Z.log2 m + 1) in *. set (pa := if e + n <? -1021 then 53 - (-1021 - (e + n)) else 53) in *.
  assert (Hpa : (e + n < -1021 /\ e + n - pa = -1074) \/ (-1021 <= e + n /\ pa = 53)) by (unfold pa; destruct (Z.ltb_spec (e + n) (-1021)); lia). clearbody pa. set (k := Z.max 0 (n - pa)) in *. cbv zeta in Hr.
  destruct (Z.leb_spec pa 0) as [Hp0|Hp0].
  { destruct (rnd_up _ _ _ _ _); [|done]. injection Hr as _ <- <- _. split; [lia|]. rewrite Z.mul_1_l. apply Z.pow_lt_mono_r; lia. }
  rewrite Hs, andb_false_r in Hr. set (y0 := m / 2 ^ k + b2z (rnd_up mode s (m / 2 ^ k) (m mod 2 ^ k) k)) in *. destruct (Z.ltb_spec 1024 (if y0 =? 2 ^ pa then e + n + 1 else e + n)) as [Hov|Hov].
  { injection Hr as Ho _. unfold overflow_val in Ho. rewrite Em, He in Ho. destruct (_ || _) in Ho; [done|]. injection Ho as _ <- <-. split; [lia|]. by vm_compute. }
  injection Hr as _ <- <- _. assert (Hlow : -1074 <= e + k) by (unfold k; lia). split; [done|].
  assert (Hexp : forall z j, 0 <= z -> z < 2 ^ j -> 0 <= j -> j + e + k <= 1024 -> z * 2 ^ (e + k + 1074) < 2 ^ 2098).
  { intros z j Hz Hzj Hj Hle. eapply Z.lt_le_trans; [apply Z.mul_lt_mono_pos_r; [apply pow2_pos; lia|exact Hzj]|]. rewrite <- Z.pow_add_r by lia. apply Z.pow_le_mono_r; lia. }
  destruct (Z.leb_spec n pa) as [Hnp|Hnp].
  - assert (k = 0) as -> by (unfold k; lia). assert (Hy0 : y0 = m) by (unfold y0; change (2 ^ 0) with 1; rewrite Z.div_1_r, Z.mod_1_r, exact_up; cbn [b2z]; lia). rewrite Hy0 in *. apply (Hexp m n); [lia|lia|lia|]. destruct (m =? 2 ^ pa); lia.
  - assert (Hk : k = n - pa) by (unfold k; lia). assert (Hq : m / 2 ^ k < 2 ^ pa) by (apply Z.div_lt_upper_bound; [apply pow2_pos; lia|]; rewrite <- Z.pow_add_r by lia; replace (k + pa) with n by lia; lia).
    assert (Hle : y0 <= 2 ^ pa) by (unfold y0; destruct (rnd_up _ _ _ _ _); cbn [b2z]; lia). destruct (Z.eqb_spec y0 (2 ^ pa)) as [Heq|Hne].
    + rewrite Heq, <- Z.pow_add_r by lia. apply Z.pow_lt_mono_r; lia.
    + apply (Hexp y0 pa); lia.
Qed.

(** A double is not changed by the rounding. *)
Lemma f64_round_exact s m e mode :
  0 <= mode <= 5 -> (2 ^ 52 <= m < 2 ^ 53 /\ -1074 <= e <= 971) \/ (0 < m < 2 ^ 52 /\ e = -1074) ->
  round_val s m e 53 (f64_flags mode) = (VFin s m e, 0).
Proof.
  intros Hmode Hm. destruct (f64_flags_spec mode ltac:(lia)) as (Em & Hs & Hrad & He & _). unfold round_val. rewrite Em, He, f64_prec_at, Hs by lia. assert (Hm0 : 0 < m) by lia. pose proof (log2_bounds m Hm0) as [Hb Hl].
  set (n := Z.log2 m + 1) in *. set (pa := if e + n <? -1021 then 53 - (-1021 - (e + n)) else 53).
  assert (Hn : n <= 53) by (assert (Hx : 2 ^ (n - 1) < 2 ^ 53); [unfold n; replace (Z.log2 m + 1 - 1) with (Z.log2 m) by lia; lia|]; apply Z.pow_lt_mono_r_iff in Hx; lia).
  assert (Hnp : n <= pa /\ 0 < pa /\ e + n <= 1024).
  { unfold pa. destruct Hm as [[Hm He']|[Hm ->]]; [|destruct (Z.ltb_spec (-1074 + n) (-1021)); lia]. assert (n = 53) as ->; [|rewrite (proj2 (Z.ltb_ge _ _)) by lia; lia].
    assert (Hx : 2 ^ 52 < 2 ^ n) by lia. apply Z.pow_lt_mono_r_iff in Hx; lia. }
  clearbody pa. rewrite Z.max_l by lia. change (2 ^ 0) with 1. rewrite Z.div_1_r, Z.mod_1_r, exact_up. cbn [b2z]. rewrite !Z.add_0_r. rewrite (proj2 (Z.leb_gt pa 0)) by lia.
  assert (Hin : is_inexact mode 0 = false) by (unfold is_inexact; rewrite (proj2 (Z.eqb_neq mode _)) by (unfold BF_RNDF; lia); done). rewrite Hin.
  assert (Hne : m <> 2 ^ pa) by (assert (2 ^ n <= 2 ^ pa) by (apply Z.pow_le_mono_r; lia); lia). rewrite (proj2 (Z.eqb_neq m _) Hne), (proj2 (Z.ltb_ge 1024 _)) by lia. rewrite andb_false_r. cbn [add_status].
  by rewrite andb_false_r.
Qed.

(** ** Conversion to a double *)

(** The parts that [bf_get_float64] puts together. *)
Lemma f64_encode b s y e' :
  bf_wf b -> veq (bf_val b) (VFin s y e') -> 0 < y <= 2 ^ 53 -> -1074 <= e' -> y * 2 ^ (e' + 1074) < 2 ^ 2098 ->
  exists M, tab b = [M] /\ bf_sign b = s /\ -1073 <= expn b <= 1024 /\ 2 ^ 63 <= M < 2 ^ 64 /\ M mod 2 ^ 11 = 0 /\ (expn b < -1021 -> M mod 2 ^ (- 1010 - expn b) = 0) /\
    bf_val b = VFin s M (expn b - 64).
Proof.
  intros Hw Hv Hy He Hup. pose proof (reg_small b _ 53 Hw Hv Hy ltac:(lia)) as Hl. destruct (wf_cases b Hw) as [(_ & _ & Hsp)|(Hl1 & _ & Hn & Hex & Hm & Hval)].
  { exfalso. destruct Hsp as [(_ & Hx)|[(_ & Hx)|(_ & Hx)]]; by rewrite Hx in Hv. }
  assert (Hlen : len b = 1) by lia. pose proof (wf_limbs _ Hw) as Hlim. unfold len in Hlen. destruct (tab b) as [|M [|x t]] eqn:Ht; [unfold zlen in Hlen; simpl in Hlen; lia| |unfold zlen in Hlen; simpl in Hlen; lia].
  assert (HM : mpz [M] = M) by (rewrite mpz_cons; change (mpz []) with 0; lia). rewrite HM in *. change (bpow [M]) with (2 ^ 64) in Hn. apply Forall_cons in Hlim as [[_ HM1] _]. rewrite limb_base_val in HM1.
  assert (Hle : len b = 1) by (unfold len; by rewrite Ht). rewrite Hle in Hval. change (64 * 1) with 64 in Hval. rewrite Hval in Hv. destruct Hv as [Hsg Hd].
  assert (Hcase : exists j, 0 <= j /\ M = y * 2 ^ j /\ e' = expn b - 64 + j /\ (11 <= j \/ y = 2 ^ 53)).
  { destruct (deq_cases _ _ _ _ Hd) as [(j & Hj & HMj & Hej)|(j & Hj & HMj & Hej)].
    - exists j. split; [done|]. split; [done|]. split; [done|]. destruct (Z.leb_spec 11 j); [by left|right]. assert (2 ^ j <= 2 ^ 10) by (apply Z.pow_le_mono_r; lia). nia.
    - exfalso. pose proof (pow2_pos j Hj). assert (M <= y) by nia. lia. }
  destruct Hcase as (j & Hj & HMj & Hej & Hc). exists M. split; [done|]. split; [done|]. assert (Hlo : -1073 <= expn b).
  { destruct (Z.leb_spec (-1073) (expn b)); [done|exfalso]. assert (64 <= j) by lia. assert (2 ^ 64 <= 2 ^ j) by (apply Z.pow_le_mono_r; lia). nia. }
  assert (Hhi : expn b <= 1024).
  { destruct (Z.leb_spec (expn b) 1024) as [|Hgt]; [done|exfalso]. assert (Hx : M * 2 ^ (expn b - 64 + 1074) < 2 ^ 2098).
    { rewrite HMj, <- Z.mul_assoc, <- Z.pow_add_r by lia. by replace (j + (expn b - 64 + 1074)) with (e' + 1074) by lia. }
    assert (2 ^ 63 * 2 ^ (expn b - 64 + 1074) <= M * 2 ^ (expn b - 64 + 1074)) by (apply Z.mul_le_mono_nonneg_r; [apply Z.pow_nonneg; lia|lia]). rewrite <- Z.pow_add_r in * by lia.
    assert (2 ^ 2098 <= 2 ^ (63 + (expn b - 64 + 1074))) by (apply Z.pow_le_mono_r; lia). lia. }
  split; [lia|]. split; [lia|]. assert (Hdiv : forall i, 0 <= i <= j -> M mod 2 ^ i = 0).
  { intros i Hi. rewrite HMj. replace j with (j - i + i) by lia. rewrite Z.pow_add_r, Z.mul_assoc by lia. apply Z.mod_mul. pose proof (pow2_pos i ltac:(lia)). lia. }
  split; [|split; [intros Hsub; apply Hdiv; lia|by subst s]]. destruct Hc as [Hc| ->]; [apply Hdiv; lia|]. rewrite HMj. replace (2 ^ 53 * 2 ^ j) with (2 ^ 42 * 2 ^ j * 2 ^ 11) by lia. by apply Z.mod_mul.
Qed.

(** The values a double can hold. *)
Definition f64_fits (v : bfval) : Prop :=
  match v with VNan => False | VFin _ y e => 0 < y <= 2 ^ 53 /\ -1074 <= e /\ y * 2 ^ (e + 1074) < 2 ^ 2098 | _ => True end.

Lemma f64_inf s : 0 <= s <= 1 -> f64_val (s * 2 ^ 63 + 2047 * 2 ^ 52 + 0) = VInf s.
Proof. intros Hs. destruct (f64_of_parts s 2047 0 Hs ltac:(lia) ltac:(lia)) as (_ & H1 & H2 & H3 & _). unfold f64_val. by rewrite H1, H2, H3. Qed.

Lemma f64_zero s : 0 <= s <= 1 -> f64_val (s * 2 ^ 63 + 0 * 2 ^ 52 + 0) = VZero s.
Proof. intros Hs. destruct (f64_of_parts s 0 0 Hs ltac:(lia) ltac:(lia)) as (_ & H1 & H2 & H3 & _). unfold f64_val. by rewrite H1, H2, H3. Qed.

Lemma f64_fin s e m : 0 <= s <= 1 -> 0 <= e < 2047 -> 0 <= m < 2 ^ 52 -> e = 0 -> m <> 0 -> f64_val (s * 2 ^ 63 + e * 2 ^ 52 + m) = VFin s m (-1074).
Proof.
  intros Hs He Hm -> Hm0. destruct (f64_of_parts s 0 m Hs ltac:(lia) Hm) as (_ & H1 & H2 & H3 & _). unfold f64_val. rewrite H1, H2, H3. by rewrite (proj2 (Z.eqb_neq m 0) Hm0).
Qed.

Lemma f64_norm s e m : 0 <= s <= 1 -> 1 <= e < 2047 -> 0 <= m < 2 ^ 52 -> f64_val (s * 2 ^ 63 + e * 2 ^ 52 + m) = VFin s (2 ^ 52 + m) (e - 1075).
Proof.
  intros Hs He Hm. destruct (f64_of_parts s e m Hs ltac:(lia) Hm) as (_ & H1 & H2 & H3 & _). unfold f64_val. rewrite H1, H2, H3. by rewrite (proj2 (Z.eqb_neq e 2047)), (proj2 (Z.eqb_neq e 0)) by lia.
Qed.

(** The mantissa field of a normal and of a subnormal number. *)
Lemma mantissa_fields M E : 2 ^ 63 <= M < 2 ^ 64 -> -1073 <= E <= 1024 -> M mod 2 ^ 11 = 0 -> (E < -1021 -> M mod 2 ^ (- 1010 - E) = 0) ->
  exists e m, (let e := E + 1022 in if e <=? 0 then if 12 - e <? 64 then Some (0, M ≫ (12 - e)) else None else Some (e, u64 (M ≪ 1) ≫ 12)) = Some (e, m) /\
    0 <= e < 2047 /\ 0 <= m < 2 ^ 52 /\ forall s, 0 <= s <= 1 -> veq (f64_val (s * 2 ^ 63 + e * 2 ^ 52 + m)) (VFin s M (E - 64)).
Proof.
  intros HM HE H11 Hsub. cbv zeta. destruct (Z.leb_spec (E + 1022) 0) as [Hle|Hgt].
  - rewrite (proj2 (Z.ltb_lt _ 64)) by lia. set (k := 12 - (E + 1022)). specialize (Hsub ltac:(lia)). replace (-1010 - E) with k in Hsub by (unfold k; lia). assert (Hk : 12 <= k <= 63) by (unfold k; lia). pose proof (pow2_pos k ltac:(lia)) as Hp.
    pose proof (Z.div_mod M (2 ^ k) ltac:(lia)) as Hd. rewrite Hsub, Z.add_0_r in Hd. exists 0, (M / 2 ^ k). rewrite Z.shiftr_div_pow2 by lia. split; [done|]. split; [lia|].
    assert (Hr : 0 <= M / 2 ^ k < 2 ^ 52).
    { split; [apply Z.div_pos; lia|]. apply Z.div_lt_upper_bound; [done|]. rewrite <- Z.pow_add_r by lia. assert (2 ^ 64 <= 2 ^ (k + 52)) by (apply Z.pow_le_mono_r; lia). lia. }
    split; [done|]. intros s Hs. rewrite f64_fin by (done || lia || nia). split; [done|]. apply (deq_scale _ _ _ _ k); [lia|lia|]. unfold k. lia.
  - exists (E + 1022), (u64 (M ≪ 1) ≫ 12). split; [done|]. split; [lia|].
    assert (Hm : u64 (M ≪ 1) ≫ 12 = (M - 2 ^ 63) / 2 ^ 11).
    { rewrite Z.shiftl_mul_pow2, Z.shiftr_div_pow2 by lia. unfold u64, wrapu. assert ((M * 2 ^ 1) mod 2 ^ 64 = (M - 2 ^ 63) * 2) as -> by (symmetry; apply (Z.mod_unique_pos _ _ 1); lia).
      change (2 ^ 12) with (2 ^ 11 * 2). apply Z.div_mul_cancel_r; lia. }
    rewrite Hm. pose proof (Z.div_mod M (2 ^ 11) ltac:(lia)) as Hd. rewrite H11 in Hd. assert (Hq : (M - 2 ^ 63) / 2 ^ 11 = M / 2 ^ 11 - 2 ^ 52) by (replace (M - 2 ^ 63) with (M + (- 2 ^ 52) * 2 ^ 11) by lia; rewrite Z.div_add by lia; lia).
    rewrite Hq. split; [lia|]. intros s Hs. rewrite f64_norm by lia. split; [done|]. apply (deq_scale _ _ _ _ 11); [lia|lia|lia].
Qed.

Lemma f64_pack b v : bf_wf b -> veq (bf_val b) v -> f64_fits v ->
  exists e m, f64_fields b = Some (e, m) /\ let u := m .| u64 (e ≪ 52) .| u64 (bf_sign b ≪ 63) in 0 <= u < 2 ^ 64 /\ veq (f64_val u) v.
Proof.
  intros Hw Hv Hfit. pose proof (wf_sign _ Hw) as Hs. assert (Hpack : forall e m, 0 <= e < 2 ^ 11 -> 0 <= m < 2 ^ 52 -> m .| u64 (e ≪ 52) .| u64 (bf_sign b ≪ 63) = bf_sign b * 2 ^ 63 + e * 2 ^ 52 + m /\ 0 <= bf_sign b * 2 ^ 63 + e * 2 ^ 52 + m < 2 ^ 64).
  { intros e m He Hm. destruct (f64_of_parts (bf_sign b) e m Hs He Hm) as (H1 & _ & _ & _ & H5). by split. }
  destruct v as [|s|s|s y e']; cbn [f64_fits] in Hfit; [done| | |].
  - destruct (wf_cases b Hw) as [(_ & _ & [(He & Hx)|[(He & Hx)|(He & Hx)]])|(_ & _ & _ & _ & _ & Hx)]; rewrite Hx in Hv; try done. injection Hv as <-. unfold f64_fields. rewrite He. destruct (Hpack 2047 0 ltac:(lia) ltac:(lia)) as [Hp Hr]. exists 2047, 0. split; [reflexivity|].
    cbv zeta. rewrite Hp. split; [done|]. by rewrite f64_inf.
  - destruct (wf_cases b Hw) as [(_ & _ & [(He & Hx)|[(He & Hx)|(He & Hx)]])|(_ & _ & _ & _ & _ & Hx)]; rewrite Hx in Hv; try done. injection Hv as <-. unfold f64_fields. rewrite He. destruct (Hpack 0 0 ltac:(lia) ltac:(lia)) as [Hp Hr]. exists 0, 0. split; [reflexivity|].
    cbv zeta. rewrite Hp. split; [done|]. by rewrite f64_zero.
  - destruct Hfit as (Hy & He' & Hup). destruct (f64_encode b s y e' Hw Hv Hy He' Hup) as (M & Ht & Hsg & HE & HM & H11 & Hsub & Hval). unfold f64_fields. destruct (fin_expn (expn b) ltac:(lia)) as (_ & _ & -> & ->).
    destruct (mantissa_fields M (expn b) HM HE H11 Hsub) as (e & m & Hrun & Hre & Hrm & Hdec). rewrite Ht. change (zget [M] 0) with (Some M). cbn [mbind option_bind].
    assert (i32 (i64 (expn b + 1023 - 1)) = expn b + 1022) as ->. { rewrite i64_small by lia. replace (expn b + 1023 - 1) with (expn b + 1022) by lia. unfold i32, wraps. case_match; bool_props; zdm. }
    exists e, m. split; [exact Hrun|]. destruct (Hpack e m ltac:(lia) Hrm) as [Hp Hr]. cbv zeta. rewrite Hp. split; [done|]. rewrite Hsg in *. etransitivity; [by apply Hdec|]. by rewrite <- Hval.
Qed.

Lemma bf_set_copies o r a : ~ realloc_refuses -> exists o', bf_set o false r a = Some (o', a, 0).
Proof.
  intros Hno. unfold bf_set. destruct (bf_resize_spec o r (len a) (zlen_nonneg _)) as [(o1 & t & -> & Hlt & _)|(o1 & _ & _ & Href)]; [|done]. cbn [Z.eqb negb with_tab tab].
  assert (zsplice t 0 (tab a) = Some (tab a)) as ->. { pose proof (zsplice_head t [] (tab a)) as Hz. rewrite !app_nil_r in Hz. apply Hz. unfold len, zlen in *. lia. }
  cbn [mbind option_bind]. exists o1. by destruct a.
Qed.

Lemma round_val_not_nan s m e prec flags : (round_val s m e prec flags).1 <> VNan.
Proof.
  unfold round_val. cbv zeta. destruct (_ <=? 0); [by destruct (rnd_up _ _ _ _ _)|]. destruct (_ && _); [done|]. destruct (_ <? _); [|done]. cbn [fst]. unfold overflow_val. by destruct (_ || _).
Qed.

Lemma round_fits s m e mode : 0 < m -> 0 <= mode <= 6 -> f64_fits (round_val s m e 53 (f64_flags mode)).1.
Proof.
  intros Hm Hmode. pose proof (round_val_not_nan s m e 53 (f64_flags mode)) as Hn. destruct (round_val s m e 53 (f64_flags mode)) as [[|s'|s'|s' y e'] st] eqn:Hr; try done.
  cbn [fst f64_fits]. by apply (f64_round_fits s m e mode s' y e' st).
Qed.

(** [bf_get_float64] rounds to the nearest double of the mode. *)
Lemma bf_get_float64_spec o a mode :
  bf_wf a -> 64 * len a <= 2 ^ 60 -> 0 <= mode <= 6 -> ~ mem_refused ->
  exists o' u, bf_get_float64 o a mode = Some (o', u, (round_of (bf_val a) 53 (f64_flags mode)).2) /\ 0 <= u < 2 ^ 64 /\ veq (f64_val u) (round_of (bf_val a) 53 (f64_flags mode)).1.
Proof.
  intros Hw Hl Hmode Hmem. unfold bf_get_float64. fold (f64_flags mode). destruct (f64_flags_spec mode Hmode) as (_ & _ & Hrad & _ & Hok).
  destruct (bf_set_copies o bf_init a) as (o1 & ->). { intros Hr. by apply Hmem; right. }
  destruct (wf_cases a Hw) as [(Hl0 & _ & Hva)|(Hl1 & _ & _ & Hea & Hma & Hva)].
  - destruct Hva as [(He & Hv)|[(He & Hv)|(He & Hv)]]; rewrite Hv; cbn [round_of fst snd].
    + rewrite He. change (BF_EXP_ZERO =? BF_EXP_NAN) with false. cbn [mbind option_bind]. unfold bf_is_finite. rewrite He. change (BF_EXP_ZERO <? BF_EXP_INF) with true. cbv iota. unfold bf_round. rewrite Hl0. cbn [Z.eqb mbind option_bind].
      destruct (f64_pack a (VZero (bf_sign a)) Hw ltac:(by rewrite Hv) I) as (e & m & -> & Hu). cbn [mbind option_bind]. eexists _, _. split; [done|]. exact Hu.
    + rewrite He. change (BF_EXP_INF =? BF_EXP_NAN) with false. cbn [mbind option_bind]. unfold bf_is_finite. rewrite He. change (BF_EXP_INF <? BF_EXP_INF) with false. cbn [mbind option_bind].
      destruct (f64_pack a (VInf (bf_sign a)) Hw ltac:(by rewrite Hv) I) as (e & m & -> & Hu). cbn [mbind option_bind]. eexists _, _. split; [done|]. exact Hu.
    + rewrite He. eexists _, _. split; [done|]. split; [lia|done].
  - destruct (fin_expn _ Hea) as (Hf1 & -> & _ & _). cbn [mbind option_bind]. unfold bf_is_finite. rewrite Z.ltb_antisym, Hf1. cbn [negb]. rewrite Hva. cbn [round_of].
    destruct (bf_round_spec o1 a 53 (f64_flags mode) Hw Hl Hok ltac:(lia)) as (o2 & b & st & -> & Hwb & [[-> Hvb]|(_ & _ & Href)]); [|done]. cbn [mbind option_bind]. rewrite Hva in *. cbn [round_of] in *.
    destruct (f64_pack b _ Hwb Hvb (round_fits _ _ _ mode Hma Hmode)) as (e & m & -> & Hu). cbn [mbind option_bind]. eexists _, _. split; [done|]. exact Hu.
Qed.

(** A value comes from one double only. *)
Lemma f64_fin_range u s m e : 0 <= u < 2 ^ 64 -> f64_val u = VFin s m e ->
  0 <= s <= 1 /\ ((2 ^ 52 <= m < 2 ^ 53 /\ -1074 <= e <= 971 /\ u = s * 2 ^ 63 + (e + 1075) * 2 ^ 52 + (m - 2 ^ 52)) \/ (0 < m < 2 ^ 52 /\ e = -1074 /\ u = s * 2 ^ 63 + m)).
Proof.
  intros Hu. destruct (f64_parts u Hu) as (_ & _ & _ & Hsum & Hs). unfold f64_val. set (s0 := u / 2 ^ 63) in *. set (e0 := (u / 2 ^ 52) mod 2 ^ 11) in *. set (m0 := u mod 2 ^ 52) in *.
  assert (He : 0 <= e0 < 2048) by (apply (Z.mod_pos_bound _ (2 ^ 11)); lia). assert (Hm : 0 <= m0 < 2 ^ 52) by (apply Z.mod_pos_bound; lia). clearbody s0 e0 m0.
  destruct (Z.eqb_spec e0 2047); [by destruct (m0 =? 0)|]. destruct (Z.eqb_spec e0 0) as [->|].
  - destruct (Z.eqb_spec m0 0); [done|]. intros [= <- <- <-]. split; [done|]. right. lia.
  - intros [= <- <- <-]. split; [done|]. left. lia.
Qed.

Lemma f64_same m1 e1 m2 e2 : 2 ^ 52 <= m1 < 2 ^ 53 -> -1074 <= e1 -> (2 ^ 52 <= m2 < 2 ^ 53 /\ -1074 <= e2) \/ (0 < m2 < 2 ^ 52 /\ e2 = -1074) -> deq m1 e1 m2 e2 -> m1 = m2 /\ e1 = e2.
Proof.
  intros H1 He1 H2 Hd. destruct (deq_cases _ _ _ _ Hd) as [(j & Hj & Hm & He)|(j & Hj & Hm & He)].
  - destruct (Z.eqb_spec j 0) as [->|]; [lia|exfalso]. assert (2 ^ 1 <= 2 ^ j) by (apply Z.pow_le_mono_r; lia). destruct H2 as [[H2 He2]|[H2 He2]]; [nia|lia].
  - destruct (Z.eqb_spec j 0) as [->|]; [lia|exfalso]. assert (2 ^ 1 <= 2 ^ j) by (apply Z.pow_le_mono_r; lia). destruct H2 as [[H2 He2]|[H2 He2]]; nia.
Qed.

Lemma f64_val_inj u1 u2 : 0 <= u1 < 2 ^ 64 -> 0 <= u2 < 2 ^ 64 -> f64_val u1 <> VNan -> veq (f64_val u1) (f64_val u2) -> u1 = u2.
Proof.
  intros H1 H2 Hn Hv.
  assert (Hsp : forall u v, 0 <= u < 2 ^ 64 -> f64_val u = v -> match v with VInf s => u = s * 2 ^ 63 + 2047 * 2 ^ 52 | VZero s => u = s * 2 ^ 63 | _ => True end).
  { intros u v Hu. destruct (f64_parts u Hu) as (_ & _ & _ & Hsum & Hs). unfold f64_val. set (s0 := u / 2 ^ 63) in *. set (e0 := (u / 2 ^ 52) mod 2 ^ 11) in *. set (m0 := u mod 2 ^ 52) in *. clearbody s0 e0 m0.
    destruct (Z.eqb_spec e0 2047); [destruct (Z.eqb_spec m0 0); intros <-; [lia|done]|]. destruct (Z.eqb_spec e0 0); [|by intros <-]. destruct (Z.eqb_spec m0 0); intros <-; [lia|done]. }
  pose proof (Hsp u1 _ H1 eq_refl) as S1. pose proof (Hsp u2 _ H2 eq_refl) as S2. destruct (f64_val u1) as [|s1|s1|s1 m1 e1] eqn:E1, (f64_val u2) as [|s2|s2|s2 m2 e2] eqn:E2; try done; try (injection Hv as <-; lia).
  destruct Hv as [<- Hd]. destruct (f64_fin_range u1 _ _ _ H1 E1) as (_ & R1), (f64_fin_range u2 _ _ _ H2 E2) as (_ & R2).
  destruct R1 as [(R1 & Re1 & ->)|(R1 & -> & ->)]; [destruct (f64_same m1 e1 m2 e2) as [-> ->]; [lia|lia|lia|done|lia]|].
  destruct R2 as [(R2 & Re2 & ->)|(R2 & -> & ->)]; [destruct (f64_same m2 e2 m1 (-1074)) as [<- ->]; [lia|lia|lia|by apply deq_sym|lia]|].
  unfold deq in Hd. rewrite Z.min_id, Z.sub_diag in Hd. change (2 ^ 0) with 1 in Hd. lia.
Qed.

(** C0: A double that is not NaN comes back from a conversion to a number and back, bit for
    bit and without a status, in every deterministic rounding mode, and the number in between
    is well formed and has the value of the double; while no request for memory is refused. *)
Theorem bf_float64_roundtrip o a u mode :
  0 <= u < 2 ^ 64 -> f64_val u <> VNan -> 0 <= mode <= 5 -> ~ mem_refused ->
  exists o1 b o2, bf_set_float64 o a u = Some (o1, b, 0) /\ bf_wf b /\ veq (bf_val b) (f64_val u) /\ bf_get_float64 o1 b mode = Some (o2, u, 0).
Proof.
  intros Hu Hn Hmode Hmem. destruct (bf_set_float64_spec o a u Hu) as (o1 & b & st & Hset & Hw & [[-> Hv]|(_ & _ & Href)]); [|done]. cbn [fst snd] in *. rewrite Hset.
  assert (Hround : (round_of (bf_val b) 53 (f64_flags mode)).2 = 0 /\ veq (round_of (bf_val b) 53 (f64_flags mode)).1 (f64_val u)).
  { pose proof (wf_pos _ Hw) as Hpos. destruct (f64_val u) as [|s|s|s m e] eqn:E, (bf_val b) as [|s'|s'|s' m' e']; try done. destruct Hv as [-> Hd], Hpos as [_ Hpos]. cbn [round_of].
    destruct (round_val_proper s m' e' m e 53 (f64_flags mode) Hpos Hd) as [Hpv Hps]. destruct (f64_fin_range u _ _ _ Hu E) as (_ & Hr). rewrite (f64_round_exact s m e mode) in Hpv, Hps by lia. by split. }
  assert (Hlen : 64 * len b <= 2 ^ 60).
  { pose proof (reg_small b _ 53 Hw Hv) as Hsm. assert (small_val 53 (f64_val u)); [|specialize (Hsm ltac:(done) ltac:(lia)); lia]. destruct (f64_val u) as [| | |s m e] eqn:E; try done. destruct (f64_fin_range u _ _ _ Hu E) as (_ & Hr). cbn [small_val]. lia. }
  destruct (bf_get_float64_spec o1 b mode Hw Hlen ltac:(lia) Hmem) as (o2 & u2 & Hget & Hu2 & Hv2). destruct Hround as [Hst Hrv]. rewrite Hst in Hget.
  assert (u2 = u) as ->. { symmetry. apply f64_val_inj; [done|done|done|]. symmetry. etransitivity; [exact Hv2|exact Hrv]. }
  exists o1, b, o2. split; [done|]. split; [done|]. by split.
Qed.
End ConvSpec.

Lemma bf_float64_roundtrip_witness :
  exists o1 b o2, @bf_set_float64 malloc_ok realloc_ok tt bf_init 1 = Some (o1, b, 0) /\ bf_wf b /\ veq (bf_val b) (f64_val 1) /\ @bf_get_float64 malloc_ok realloc_ok o1 b BF_RNDN = Some (o2, 1, 0).
Proof. refine (@bf_float64_roundtrip malloc_ok realloc_ok realloc_ok_shrinks tt bf_init 1 BF_RNDN _ _ _ malloc_ok_never_refuses); [lia|vm_compute; congruence|vm_compute; split; congruence]. Defined.

(** When the copy of the operand is refused, [bf_get_float64] reads the limbs of a NaN. *)
Example bf_get_float64_reads_null : @bf_get_float64 malloc_ok realloc_none tt three BF_RNDN = None.
Proof. vm_compute. reflexivity. Qed.

(** ** Conversion to integers *)

(** A value as an integer, truncated. *)
Definition trunc_val (v : bfval) : Z := match v with VFin s m e => signed s (m ≪ e) | _ => 0 end.

(** An integer that is limited to a range, and whether it was outside. *)
Definition saturate (lo hi x : Z) : Z * Z := if x <? lo then (lo, BF_ST_INVALID_OP) else if hi <? x then (hi, BF_ST_INVALID_OP) else (x, 0).

(** The conversion to [w] bits with a sign. *)
Definition get_int (w : Z) (modulo : bool) (v : bfval) : Z * Z :=
  match v with
  | VNan => (if modulo then 0 else 2 ^ (w - 1) - 1, BF_ST_INVALID_OP)
  | VInf s => (if modulo then 0 else if s =? 0 then 2 ^ (w - 1) - 1 else - 2 ^ (w - 1), BF_ST_INVALID_OP)
  | _ => if modulo then (wraps w (trunc_val v), 0) else saturate (- 2 ^ (w - 1)) (2 ^ (w - 1) - 1) (trunc_val v)
  end.

Definition get_uint (w : Z) (v : bfval) : Z * Z :=
  match v with
  | VNan => (2 ^ w - 1, BF_ST_INVALID_OP)
  | VInf s => (if s =? 0 then 2 ^ w - 1 else 0, BF_ST_INVALID_OP)
  | _ => saturate 0 (2 ^ w - 1) (trunc_val v)
  end.

(** The magnitude of the truncated number. *)
Lemma trunc_facts a : bf_wf a -> 1 <= len a -> 64 * len a <= 2 ^ 60 ->
  let T := mpz (tab a) ≪ (expn a - 64 * len a) in
  (expn a <= 0 -> T = 0) /\ (0 < expn a -> 2 ^ (expn a - 1) <= T < 2 ^ expn a) /\
  (0 < expn a <= 64 -> exists top, zget (tab a) (len a - 1) = Some top /\ is_limb top /\ top ≫ (64 - expn a) = T) /\
  (0 < expn a -> get_bits (tab a) (len a) (i64 (len a * 64 - expn a)) = Some (T mod 2 ^ 64)).
Proof.
  intros Hw Hl H60 T. destruct (wf_cases a Hw) as [(? & _)|(_ & _ & Hn & He & Hm & _)]; [lia|]. pose proof (wf_limbs _ Hw) as Hlim. pose proof (mpz_range _ Hlim) as [_ Hr]. rewrite bpow2 in Hn, Hr. fold (len a) in *.
  assert (HT : expn a <= 64 * len a -> T = mpz (tab a) / 2 ^ (64 * len a - expn a)).
  { intros Hle. unfold T. rewrite <- Z.shiftr_opp_r, Z.shiftr_div_pow2 by lia. do 2 f_equal. lia. }
  split; [|split; [|split]].
  - intros H0. rewrite HT by lia. apply Z.div_small. split; [lia|]. eapply Z.lt_le_trans; [apply Hr|]. apply Z.pow_le_mono_r; lia.
  - intros H0. assert (Hn' : 2 ^ (64 * len a - 1) <= mpz (tab a)) by (replace (64 * len a) with (64 * len a - 1 + 1) in Hn by lia; rewrite Z.pow_add_r in Hn by lia; lia). destruct (Z.leb_spec (expn a) (64 * len a)) as [Hle|Hgt].
    + rewrite HT by done. pose proof (pow2_pos (64 * len a - expn a) ltac:(lia)). split.
      * apply Z.div_le_lower_bound; [done|]. rewrite <- Z.pow_add_r by lia. by replace (64 * len a - expn a + (expn a - 1)) with (64 * len a - 1) by lia.
      * apply Z.div_lt_upper_bound; [done|]. rewrite <- Z.pow_add_r by lia. by replace (64 * len a - expn a + expn a) with (64 * len a) by lia.
    + unfold T. rewrite Z.shiftl_mul_pow2 by lia. set (k := expn a - 64 * len a). pose proof (pow2_pos k ltac:(lia)). assert (E1 : 2 ^ (expn a - 1) = 2 ^ (64 * len a - 1) * 2 ^ k) by (rewrite <- Z.pow_add_r by lia; f_equal; lia).
      assert (E2 : 2 ^ expn a = 2 ^ (64 * len a) * 2 ^ k) by (rewrite <- Z.pow_add_r by lia; f_equal; lia). rewrite E1, E2. split; [apply Z.mul_le_mono_nonneg_r|apply Z.mul_lt_mono_pos_r]; lia.
  - intros H0. destruct (split_at (tab a) (len a - 1)) as (l1 & v & l2 & Ht & Hl1 & Hg); [fold (len a); lia|]. exists v. split; [done|]. rewrite HT by lia. rewrite Ht in Hlim |- *. apply Forall_app in Hlim as [L1 L2]. apply Forall_cons in L2 as [Lv L2].
    split; [done|]. assert (l2 = []) as ->. { destruct l2; [done|]. assert (Hz : len a = zlen l1 + 2 + zlen l2) by (unfold len; rewrite Ht, zlen_app, !zlen_cons; lia). pose proof (zlen_nonneg l2). lia. }
    rewrite mpz_app, mpz_cons, bpow2, Hl1. change (mpz []) with 0. rewrite Z.shiftr_div_pow2 by lia. replace (64 * len a - expn a) with (64 * (len a - 1) + (64 - expn a)) by lia. pose proof (pow2_pos (64 * (len a - 1)) ltac:(lia)). pose proof (pow2_pos (64 - expn a) ltac:(lia)).
    rewrite Z.pow_add_r, <- Z.div_div by lia. f_equal. pose proof (mpz_range l1 L1) as Hr1. rewrite bpow2, Hl1 in Hr1. rewrite Z.mul_0_r, Z.add_0_r, (Z.mul_comm _ v), Z.div_add, Z.div_small by lia. done.
  - intros H0. rewrite i64_small by lia. unfold len at 1. rewrite get_bits_spec; [|done|unfold len in *; lia|lia]. do 2 f_equal. unfold T. rewrite <- Z.shiftr_opp_r. f_equal. lia.
Qed.

Lemma signed_neg w s T : 0 < w -> 0 <= s <= 1 -> wraps w (if negb (s =? 0) then wrapu w (- T) else T) = wraps w (signed s T).
Proof.
  intros Hw Hs. unfold signed, wraps, wrapu. pose proof (pow2_pos w ltac:(lia)). assert (s = 0 \/ s = 1) as [->| ->] by lia; cbn [Z.eqb negb]; [done|]. by rewrite Z.mod_mod by lia.
Qed.

Lemma wraps_small w x : 0 < w -> - 2 ^ (w - 1) <= x < 2 ^ (w - 1) -> wraps w x = x.
Proof.
  intros Hw Hx. unfold wraps. assert (E : 2 ^ w = 2 * 2 ^ (w - 1)) by (rewrite <- Z.pow_succ_r by lia; f_equal; lia). destruct (Z.ltb_spec x 0).
  - rewrite <- (Z.mod_unique_pos x (2 ^ w) (-1) (x + 2 ^ w)) by lia. destruct (Z.ltb_spec (x + 2 ^ w) (2 ^ (w - 1))); lia.
  - rewrite Z.mod_small by lia. destruct (Z.ltb_spec x (2 ^ (w - 1))); lia.
Qed.

Lemma bf_get_int64_spec a flags : bf_wf a -> 64 * len a <= 2 ^ 60 -> bf_get_int64 a flags = Some (get_int 64 (has_flag flags BF_GET_INT_MOD) (bf_val a)).
Proof.
  intros Hw H60. unfold bf_get_int64. fold (has_flag flags BF_GET_INT_MOD). set (md := has_flag flags BF_GET_INT_MOD). clearbody md. pose proof (wf_sign _ Hw) as Hs. assert (Hs2 : bf_sign a = 0 \/ bf_sign a = 1) by lia.
  destruct (wf_cases a Hw) as [(_ & _ & Hva)|(Hl1 & _ & _ & Hea & Hma & Hva)].
  { destruct Hva as [(-> & ->)|[(-> & ->)|(-> & ->)]]; destruct md; try reflexivity; destruct Hs2 as [-> | ->]; reflexivity. }
  destruct (fin_expn _ Hea) as (-> & _). destruct (trunc_facts a Hw Hl1 H60) as (T0 & T1 & T2 & T3). rewrite Hva. cbn [get_int trunc_val]. set (T := mpz (tab a) ≪ (expn a - 64 * len a)) in *. clearbody T. change LIMB_BITS with 64.
  destruct (Z.leb_spec (expn a) 0) as [H0|H0]; [rewrite T0 by done; cbn [mbind option_bind]; destruct md, Hs2 as [-> | ->]; reflexivity|]. specialize (T1 H0).
  destruct (Z.leb_spec (expn a) 63) as [H63|H63].
  { destruct (T2 ltac:(lia)) as (top & -> & _ & Htop). cbn [mbind option_bind]. rewrite Htop. assert (HT : T < 2 ^ 63) by (assert (2 ^ expn a <= 2 ^ 63) by (apply Z.pow_le_mono_r; lia); lia). assert (Hp : 0 < 2 ^ (expn a - 1)) by (apply pow2_pos; lia).
    unfold i64, u64. rewrite signed_neg by lia. assert (Hr : - 2 ^ 63 <= signed (bf_sign a) T < 2 ^ 63) by (unfold signed; case_match; lia). rewrite wraps_small by (change (64 - 1) with 63; lia).
    destruct md; [done|]. unfold saturate. change (64 - 1) with 63. by rewrite (proj2 (Z.ltb_ge (signed (bf_sign a) T) _)), (proj2 (Z.ltb_ge _ (signed (bf_sign a) T))) by lia. }
  assert (HT : 2 ^ 63 <= T) by (assert (2 ^ 63 <= 2 ^ (expn a - 1)) by (apply Z.pow_le_mono_r; lia); lia). destruct md; cbn [negb].
  - rewrite T3 by done. cbn [mbind option_bind]. unfold i64, u64. rewrite signed_neg by lia. do 2 f_equal. unfold signed, wraps. destruct (bf_sign a =? 0); [by rewrite Z.mod_mod|]. by rewrite <- Z.sub_0_l, Zminus_mod_idemp_r, Z.sub_0_l.
  - change (64 - 1) with 63. unfold saturate, signed. destruct Hs2 as [-> | ->]; cbn [Z.eqb negb].
    + rewrite (proj2 (Z.ltb_ge T _)), (proj2 (Z.ltb_lt _ T)) by lia. reflexivity.
    + destruct (Z.eqb_spec (expn a) 64) as [H64|H64].
      * destruct (T2 ltac:(lia)) as (top & -> & _ & Htop). cbn [mbind option_bind]. rewrite H64 in Htop. change (64 - 64) with 0 in Htop. rewrite Z.shiftr_0_r in Htop. subst top. change (INT64_MAX + 1) with (2 ^ 63).
        destruct (Z.eqb_spec T (2 ^ 63)) as [->|Hne]; [reflexivity|]. by rewrite (proj2 (Z.ltb_lt (- T) _)) by lia.
      * assert (2 ^ 64 <= 2 ^ (expn a - 1)) by (apply Z.pow_le_mono_r; lia). rewrite (proj2 (Z.ltb_lt (- T) _)) by lia. reflexivity.
Qed.

Lemma bf_get_int32_spec a flags : bf_wf a -> 64 * len a <= 2 ^ 60 -> bf_get_int32 a flags = Some (get_int 32 (has_flag flags BF_GET_INT_MOD) (bf_val a)).
Proof.
  intros Hw H60. unfold bf_get_int32. fold (has_flag flags BF_GET_INT_MOD). set (md := has_flag flags BF_GET_INT_MOD). clearbody md. pose proof (wf_sign _ Hw) as Hs. assert (Hs2 : bf_sign a = 0 \/ bf_sign a = 1) by lia.
  destruct (wf_cases a Hw) as [(_ & _ & Hva)|(Hl1 & _ & _ & Hea & Hma & Hva)].
  { destruct Hva as [(-> & ->)|[(-> & ->)|(-> & ->)]]; destruct md; try reflexivity; destruct Hs2 as [-> | ->]; reflexivity. }
  destruct (fin_expn _ Hea) as (-> & _). destruct (trunc_facts a Hw Hl1 H60) as (T0 & T1 & T2 & T3). rewrite Hva. cbn [get_int trunc_val]. set (T := mpz (tab a) ≪ (expn a - 64 * len a)) in *. clearbody T. change LIMB_BITS with 64.
  destruct (Z.leb_spec (expn a) 0) as [H0|H0]; [rewrite T0 by done; cbn [mbind option_bind]; destruct md, Hs2 as [-> | ->]; reflexivity|]. specialize (T1 H0).
  destruct (Z.leb_spec (expn a) 31) as [H31|H31].
  { destruct (T2 ltac:(lia)) as (top & -> & _ & Htop). cbn [mbind option_bind]. rewrite Htop. assert (HT : T < 2 ^ 31) by (assert (2 ^ expn a <= 2 ^ 31) by (apply Z.pow_le_mono_r; lia); lia). assert (Hp : 0 < 2 ^ (expn a - 1)) by (apply pow2_pos; lia).
    assert (u32 T = T) as -> by (unfold u32, wrapu; apply Z.mod_small; lia).
    unfold i32, u32. rewrite signed_neg by lia. assert (Hr : - 2 ^ 31 <= signed (bf_sign a) T < 2 ^ 31) by (unfold signed; case_match; lia). rewrite wraps_small by (change (32 - 1) with 31; lia).
    destruct md; [done|]. unfold saturate. change (32 - 1) with 31. by rewrite (proj2 (Z.ltb_ge (signed (bf_sign a) T) _)), (proj2 (Z.ltb_ge _ (signed (bf_sign a) T))) by lia. }
  assert (HT : 2 ^ 31 <= T) by (assert (2 ^ 31 <= 2 ^ (expn a - 1)) by (apply Z.pow_le_mono_r; lia); lia). destruct md; cbn [negb].
  - rewrite T3 by done. cbn [mbind option_bind]. unfold i32, u32. rewrite signed_neg by lia. do 2 f_equal. assert (Hm : wrapu 32 (T mod 2 ^ 64) = T mod 2 ^ 32) by (unfold wrapu; change (2 ^ 64) with (2 ^ 32 * 2 ^ 32); rewrite Z.rem_mul_r by lia; rewrite (Z.mul_comm (2 ^ 32)), Z.mod_add by lia; by rewrite Z.mod_mod).
    rewrite Hm. unfold signed, wraps. destruct (bf_sign a =? 0); [by rewrite Z.mod_mod|]. by rewrite <- Z.sub_0_l, Zminus_mod_idemp_r, Z.sub_0_l.
  - change (32 - 1) with 31. unfold saturate, signed. destruct Hs2 as [-> | ->]; cbn [Z.eqb negb].
    + rewrite (proj2 (Z.ltb_ge T _)), (proj2 (Z.ltb_lt _ T)) by lia. reflexivity.
    + destruct (Z.eqb_spec (expn a) 32) as [H32|H32].
      * destruct (T2 ltac:(lia)) as (top & -> & _ & Htop). cbn [mbind option_bind]. rewrite H32 in Htop. rewrite Htop. change (INT32_MAX + 1) with (2 ^ 31).
        destruct (Z.eqb_spec T (2 ^ 31)) as [->|Hne]; [reflexivity|]. by rewrite (proj2 (Z.ltb_lt (- T) _)) by lia.
      * assert (2 ^ 32 <= 2 ^ (expn a - 1)) by (apply Z.pow_le_mono_r; lia). rewrite (proj2 (Z.ltb_lt (- T) _)) by lia. reflexivity.
Qed.

Lemma bf_get_uint64_spec a : bf_wf a -> 64 * len a <= 2 ^ 60 -> bf_get_uint64 a = Some (get_uint 64 (bf_val a)).
Proof.
  intros Hw H60. unfold bf_get_uint64. pose proof (wf_sign _ Hw) as Hs. assert (Hs2 : bf_sign a = 0 \/ bf_sign a = 1) by lia.
  destruct (wf_cases a Hw) as [(_ & _ & Hva)|(Hl1 & _ & _ & Hea & Hma & Hva)].
  { destruct Hva as [(-> & ->)|[(-> & ->)|(-> & ->)]]; destruct Hs2 as [-> | ->]; reflexivity. }
  destruct (fin_expn _ Hea) as (_ & -> & _). destruct (trunc_facts a Hw Hl1 H60) as (T0 & T1 & T2 & _). rewrite Hva. cbn [get_uint trunc_val]. set (T := mpz (tab a) ≪ (expn a - 64 * len a)) in *. clearbody T. change LIMB_BITS with 64. unfold saturate, signed.
  destruct (Z.leb_spec (expn a) 0) as [H0|H0]; [rewrite T0 by done; destruct Hs2 as [-> | ->]; reflexivity|]. specialize (T1 H0). assert (Hp : 0 < 2 ^ (expn a - 1)) by (apply pow2_pos; lia).
  destruct Hs2 as [-> | ->]; cbn [Z.eqb negb]; [|by rewrite (proj2 (Z.ltb_lt (- T) 0)) by lia]. rewrite (proj2 (Z.ltb_ge T 0)) by lia. destruct (Z.leb_spec (expn a) 64).
  - destruct (T2 ltac:(lia)) as (top & -> & _ & Htop). cbn [mbind option_bind]. rewrite Htop. assert (2 ^ expn a <= 2 ^ 64) by (apply Z.pow_le_mono_r; lia). by rewrite (proj2 (Z.ltb_ge _ T)) by lia.
  - assert (2 ^ 64 <= 2 ^ (expn a - 1)) by (apply Z.pow_le_mono_r; lia). by rewrite (proj2 (Z.ltb_lt _ T)) by lia.
Qed.

(** C0: The conversions to machine integers truncate towards zero: out of range they saturate
    with an invalid status, or wrap when asked to; infinities saturate, NaN is the largest
    integer, and no conversion reads outside the mantissa. *)
Theorem bf_get_int_correct a flags :
  bf_wf a -> 64 * len a <= 2 ^ 60 ->
  bf_get_int32 a flags = Some (get_int 32 (has_flag flags BF_GET_INT_MOD) (bf_val a)) /\
  bf_get_int64 a flags = Some (get_int 64 (has_flag flags BF_GET_INT_MOD) (bf_val a)) /\
  bf_get_uint64 a = Some (get_uint 64 (bf_val a)).
Proof. intros Hw Hl. split; [by apply bf_get_int32_spec|]. split; [by apply bf_get_int64_spec|by apply bf_get_uint64_spec]. Qed.

Lemma bf_get_int_correct_witness :
  bf_get_int32 (mkBf 1 33 [2 ^ 63 + 2 ^ 62]) 0 = Some (- 2 ^ 31, BF_ST_INVALID_OP) /\ bf_get_int64 (mkBf 1 33 [2 ^ 63 + 2 ^ 62]) 0 = Some (- (3 * 2 ^ 31), 0) /\ bf_get_uint64 (mkBf 1 33 [2 ^ 63 + 2 ^ 62]) = Some (0, BF_ST_INVALID_OP).
Proof.
  destruct (bf_get_int_correct (mkBf 1 33 [2 ^ 63 + 2 ^ 62]) 0) as (H1 & H2 & H3).
  - split; [cbn; lia|repeat constructor; vm_compute; congruence|right]. split; [by eexists _, _|by vm_compute].
  - vm_compute. congruence.
  - split; [exact H1|]. split; [exact H2|exact H3].
Defined.
