(* ===== verification/GcHeap.v ===== *)
(** The objects of [quickjs.c] that the cycle collector sees, and [mark_children]: which
    objects an object refers to.

    Pointers are integers, [NULL] is 0.  The traversal calls [mark_func] on the headers
    of the children; [mark_func] changes reference counts, marks and list links only,
    none of which the traversal reads, so [mark_children] is the list of the headers in
    the order of the calls.  [None] is an [abort()], the dereference of a pointer to
    nothing or to an object of another type, or the read of a union member that was not
    the one stored. *)

From S2P Require Import Prelude.

(** ** Values *)

Definition JS_TAG_FIRST : Z := -11.
Definition JS_TAG_STRING : Z := -7.
Definition JS_TAG_FUNCTION_BYTECODE : Z := -2.
Definition JS_TAG_OBJECT : Z := -1.
Definition JS_TAG_INT : Z := 0.
Definition JS_TAG_UNDEFINED : Z := 3.

Record JSValue := JS_MKPTR { JS_VALUE_GET_TAG : Z; JS_VALUE_GET_PTR : Z }.

Definition JS_UNDEFINED : JSValue := JS_MKPTR JS_TAG_UNDEFINED 0.

Definition JS_VALUE_HAS_REF_COUNT (v : JSValue) : bool := u32 JS_TAG_FIRST <=? u32 (JS_VALUE_GET_TAG v).

(** The headers that [JS_MarkValue] marks. *)
Definition JS_MarkValue (val : JSValue) : list Z :=
  if JS_VALUE_HAS_REF_COUNT val then
    if (JS_VALUE_GET_TAG val =? JS_TAG_OBJECT) || (JS_VALUE_GET_TAG val =? JS_TAG_FUNCTION_BYTECODE)
    then [JS_VALUE_GET_PTR val] else []
  else [].

Definition JS_MarkValues (vals : list JSValue) : list Z := flat_map JS_MarkValue vals.

(** [if (p) mark_func(rt, &p->header)]. *)
Definition mark_opt (p : Z) : list Z := if p =? 0 then [] else [p].

(** ** Properties and shapes *)

Definition JS_ATOM_NULL : Z := 0.
Definition JS_PROP_TMASK : Z := 3 ≪ 4.
Definition JS_PROP_GETSET : Z := 1 ≪ 4.
Definition JS_PROP_VARREF : Z := 2 ≪ 4.
Definition JS_PROP_AUTOINIT : Z := 3 ≪ 4.

Inductive JSProperty :=
  | PROP_value (value : JSValue)
  | PROP_getset (getter setter : Z)
  | PROP_var_ref (var_ref : Z)
  | PROP_init (realm_and_id : Z).

Record JSShapeProperty := { prs_flags : Z; prs_atom : Z }.

Record JSShape := { sh_proto : Z; sh_prop : list JSShapeProperty (* prop_count elements *) }.

Definition js_autoinit_get_realm (realm_and_id : Z) : Z := Z.ldiff realm_and_id 3.

Definition js_autoinit_mark (pr : JSProperty) : option (list Z) :=
  match pr with PROP_init realm_and_id => Some [js_autoinit_get_realm realm_and_id] | _ => None end.

(** ** The data of each class: the union [u] of [JSObject] *)

Record JSTypedArray := { ta_buffer : Z }.
Record JSBoundFunction := { bf_func_obj : JSValue; bf_this_val : JSValue; bf_argv : list JSValue }.
Record JSOperatorSetData := { op_self_ops : list Z; op_left : list (list Z); op_right : list (list Z) }.
Record JSMapState := { ms_is_weak : bool; ms_records : list (JSValue * JSValue) (* key, value *) }.
Record JSPromiseReactionData := { rd_resolving_func0 : JSValue; rd_resolving_func1 : JSValue; rd_handler : JSValue }.
Record JSPromiseData := {
  pd_reactions0 : list JSPromiseReactionData; pd_reactions1 : list JSPromiseReactionData; pd_result : JSValue }.
Record JSAsyncGeneratorRequest := {
  rq_result : JSValue; rq_promise : JSValue; rq_resolving_func0 : JSValue; rq_resolving_func1 : JSValue }.
Record JSAsyncGeneratorData := { ag_queue : list JSAsyncGeneratorRequest; ag_func_state : Z }.

(** A pointer to data that belongs to the object alone is the data, [None] for [NULL]. *)
Inductive JSObjectU :=
  | U_none
  | U_bound_function (bf : JSBoundFunction)
  | U_c_function_data_record (data : option (list JSValue))
  | U_for_in_iterator (obj : JSValue)
  | U_typed_array (ta : option JSTypedArray)
  | U_operator_set (opset : option JSOperatorSetData)
  | U_map_state (s : option JSMapState)
  | U_map_iterator_data (obj : option JSValue)
  | U_array_iterator_data (obj : option JSValue)
  | U_regexp_string_iterator_data (it : option (JSValue * JSValue))
  | U_generator_data (func_state : option Z)
  | U_proxy_data (s : option (JSValue * JSValue))
  | U_promise_data (s : option JSPromiseData)
  | U_promise_function_data (promise : option JSValue)
  | U_async_function_data (s : Z)
  | U_async_from_sync_iterator_data (s : option (JSValue * JSValue))
  | U_async_generator_data (s : option JSAsyncGeneratorData)
  | U_func (function_bytecode : Z) (var_refs : option (list Z)) (home_object : Z)
  | U_cfunc (realm : Z)
  | U_array (values : list JSValue) (count : Z)
  | U_object_data (v : JSValue)
  | U_opaque (opaque : Z).

Record JSObject := { obj_class_id : Z; obj_shape : Z; obj_prop : list JSProperty; obj_u : JSObjectU }.

(** ** The other objects *)

Record JSFunctionBytecode := { fb_cpool : list JSValue; fb_realm : Z; fb_closure_var_count : Z }.

(** [*pvalue], and [async_func] of a variable that is still on the stack. *)
Record JSVarRef := { vr_is_detached : bool; vr_value : JSValue; vr_async_func : Z }.

(** The stack of the frame, and the number of values below [cur_sp] ([None] when the
    function is running). *)
Record JSAsyncFunctionState := {
  af_is_completed : bool; af_cur_func : JSValue; af_this_val : JSValue;
  af_arg_buf : list JSValue; af_cur_sp : option Z;
  af_resolving_func0 : JSValue; af_resolving_func1 : JSValue }.

Record JSModuleDef := {
  m_export_var_refs : list (bool * Z); (* export_type == JS_EXPORT_TYPE_LOCAL, u.local.var_ref *)
  m_module_ns : JSValue; m_func_obj : JSValue; m_eval_exception : JSValue; m_meta_obj : JSValue;
  m_promise : JSValue; m_resolving_func0 : JSValue; m_resolving_func1 : JSValue }.

Record JSContext := {
  ctx_loaded_modules : list JSModuleDef;
  ctx_global_obj : JSValue; ctx_global_var_obj : JSValue;
  ctx_throw_type_error : JSValue; ctx_eval_obj : JSValue; ctx_array_proto_values : JSValue;
  ctx_native_error_proto : list JSValue; ctx_class_proto : list JSValue;
  ctx_iterator_proto : JSValue; ctx_async_iterator_proto : JSValue; ctx_promise_ctor : JSValue;
  ctx_array_ctor : JSValue; ctx_regexp_ctor : JSValue; ctx_function_ctor : JSValue; ctx_function_proto : JSValue;
  ctx_array_shape : Z }.

(** [gc_obj_type] with the object. *)
Inductive gc_object :=
  | JS_GC_OBJ_TYPE_JS_OBJECT (p : JSObject)
  | JS_GC_OBJ_TYPE_FUNCTION_BYTECODE (b : JSFunctionBytecode)
  | JS_GC_OBJ_TYPE_SHAPE (sh : JSShape)
  | JS_GC_OBJ_TYPE_VAR_REF (var_ref : JSVarRef)
  | JS_GC_OBJ_TYPE_ASYNC_FUNCTION (s : JSAsyncFunctionState)
  | JS_GC_OBJ_TYPE_JS_CONTEXT (ctx : JSContext).

Definition heap : Type := gmap Z gc_object.

(** ** The mark functions of the classes *)

(** The classes that the code below names. *)
Definition JS_CLASS_OBJECT : Z := 1.
Definition JS_CLASS_ARRAY : Z := 2.
Definition JS_CLASS_BYTECODE_FUNCTION : Z := 13.
Definition JS_CLASS_C_FUNCTION_DATA : Z := 15.
Definition JS_CLASS_OPERATOR_SET : Z := 37.
Definition JS_CLASS_MAP : Z := 38.
Definition JS_CLASS_PROXY : Z := 48.
Definition JS_CLASS_PROMISE : Z := 49.
Definition JS_CLASS_ASYNC_FROM_SYNC_ITERATOR : Z := 55.
Definition JS_CLASS_ASYNC_GENERATOR : Z := 57.
Definition JS_CLASS_INIT_COUNT : Z := 58.

(** [None] for an object of another class; the object is the one that is marked. *)
Definition JS_GetOpaque (p : JSObject) (class_id : Z) : option JSObjectU :=
  if obj_class_id p =? class_id then Some (obj_u p) else None.

Definition JSClassGCMark : Type := heap -> JSObject -> option (list Z).

Definition js_c_function_data_mark : JSClassGCMark := fun _ p =>
  match JS_GetOpaque p JS_CLASS_C_FUNCTION_DATA with
  | Some (U_c_function_data_record s) => Some (match s with Some data => JS_MarkValues data | None => [] end)
  | None => Some []
  | _ => None
  end.

Definition js_array_mark : JSClassGCMark := fun _ p =>
  match obj_u p with
  | U_array values count => JS_MarkValues <$> zslice values 0 count
  | _ => None
  end.

Definition js_object_data_mark : JSClassGCMark := fun _ p =>
  match obj_u p with U_object_data v => Some (JS_MarkValue v) | _ => None end.

Definition js_c_function_mark : JSClassGCMark := fun _ p =>
  match obj_u p with U_cfunc realm => Some (mark_opt realm) | _ => None end.

Definition js_bytecode_function_mark : JSClassGCMark := fun m p =>
  match obj_u p with
  | U_func b var_refs home_object =>
      refs ←
        (if b =? 0 then Some []
         else
           refs ← (match var_refs with
                   | None => Some []
                   | Some refs =>
                       match m !! b with
                       | Some (JS_GC_OBJ_TYPE_FUNCTION_BYTECODE fb) =>
                           flat_map mark_opt <$> zslice refs 0 (fb_closure_var_count fb)
                       | _ => None
                       end
                   end);
           Some (refs ++ JS_MarkValue (JS_MKPTR JS_TAG_FUNCTION_BYTECODE b)));
      Some ((if home_object =? 0 then [] else JS_MarkValue (JS_MKPTR JS_TAG_OBJECT home_object)) ++ refs)
  | _ => None
  end.

Definition js_bound_function_mark : JSClassGCMark := fun _ p =>
  match obj_u p with
  | U_bound_function bf =>
      Some (JS_MarkValue (bf_func_obj bf) ++ JS_MarkValue (bf_this_val bf) ++ JS_MarkValues (bf_argv bf))
  | _ => None
  end.

Definition js_for_in_iterator_mark : JSClassGCMark := fun _ p =>
  match obj_u p with U_for_in_iterator obj => Some (JS_MarkValue obj) | _ => None end.

Definition js_generator_mark : JSClassGCMark := fun _ p =>
  match obj_u p with
  | U_generator_data s => Some (match s with None => [] | Some func_state => mark_opt func_state end)
  | _ => None
  end.

Definition js_async_function_resolve_mark : JSClassGCMark := fun _ p =>
  match obj_u p with U_async_function_data s => Some (mark_opt s) | _ => None end.

Definition js_async_generator_mark : JSClassGCMark := fun _ p =>
  match JS_GetOpaque p JS_CLASS_ASYNC_GENERATOR with
  | Some (U_async_generator_data s) =>
      Some (match s with
            | None => []
            | Some s =>
                flat_map (fun req => JS_MarkValues [rq_result req; rq_promise req; rq_resolving_func0 req; rq_resolving_func1 req])
                  (ag_queue s) ++ mark_opt (ag_func_state s)
            end)
  | None => Some []
  | _ => None
  end.

Definition js_array_iterator_mark : JSClassGCMark := fun _ p =>
  match obj_u p with
  | U_array_iterator_data it => Some (match it with Some obj => JS_MarkValue obj | None => [] end)
  | _ => None
  end.

Definition js_regexp_string_iterator_mark : JSClassGCMark := fun _ p =>
  match obj_u p with
  | U_regexp_string_iterator_data it =>
      Some (match it with Some (regexp, str) => JS_MarkValue regexp ++ JS_MarkValue str | None => [] end)
  | _ => None
  end.

Definition js_proxy_mark : JSClassGCMark := fun _ p =>
  match JS_GetOpaque p JS_CLASS_PROXY with
  | Some (U_proxy_data s) => Some (match s with Some (target, handler) => JS_MarkValue target ++ JS_MarkValue handler | None => [] end)
  | None => Some []
  | _ => None
  end.

Definition js_map_mark : JSClassGCMark := fun _ p =>
  match obj_u p with
  | U_map_state s =>
      Some (match s with
            | None => []
            | Some s =>
                flat_map (fun mr => (if ms_is_weak s then [] else JS_MarkValue mr.1) ++ JS_MarkValue mr.2) (ms_records s)
            end)
  | _ => None
  end.

Definition js_map_iterator_mark : JSClassGCMark := fun _ p =>
  match obj_u p with
  | U_map_iterator_data it => Some (match it with Some obj => JS_MarkValue obj | None => [] end)
  | _ => None
  end.

Definition js_promise_resolve_function_mark : JSClassGCMark := fun _ p =>
  match obj_u p with
  | U_promise_function_data s => Some (match s with Some promise => JS_MarkValue promise | None => [] end)
  | _ => None
  end.

Definition js_promise_mark : JSClassGCMark := fun _ p =>
  match JS_GetOpaque p JS_CLASS_PROMISE with
  | Some (U_promise_data s) =>
      Some (match s with
            | None => []
            | Some s =>
                let reaction rd := JS_MarkValues [rd_resolving_func0 rd; rd_resolving_func1 rd; rd_handler rd] in
                flat_map reaction (pd_reactions0 s) ++ flat_map reaction (pd_reactions1 s) ++ JS_MarkValue (pd_result s)
            end)
  | None => Some []
  | _ => None
  end.

Definition js_async_from_sync_iterator_mark : JSClassGCMark := fun _ p =>
  match JS_GetOpaque p JS_CLASS_ASYNC_FROM_SYNC_ITERATOR with
  | Some (U_async_from_sync_iterator_data s) =>
      Some (match s with Some (sync_iter, next_method) => JS_MarkValue sync_iter ++ JS_MarkValue next_method | None => [] end)
  | None => Some []
  | _ => None
  end.

Definition js_operator_set_mark : JSClassGCMark := fun _ p =>
  let op o := if o =? 0 then [] else JS_MarkValue (JS_MKPTR JS_TAG_OBJECT o) in
  match JS_GetOpaque p JS_CLASS_OPERATOR_SET with
  | Some (U_operator_set s) =>
      Some (match s with
            | None => []
            | Some opset =>
                flat_map op (op_self_ops opset) ++ flat_map (flat_map op) (op_left opset) ++ flat_map (flat_map op) (op_right opset)
            end)
  | None => Some []
  | _ => None
  end.

Definition js_typed_array_mark : JSClassGCMark := fun _ p =>
  match obj_u p with
  | U_typed_array ta => Some (match ta with Some ta => JS_MarkValue (JS_MKPTR JS_TAG_OBJECT (ta_buffer ta)) | None => [] end)
  | _ => None
  end.

(** ** The classes *)

(** The column [gc_mark] of the tables of classes. *)
Definition js_std_class_def : list (option JSClassGCMark) :=
  [ None; (* JS_CLASS_OBJECT *)
    Some js_array_mark; (* JS_CLASS_ARRAY *)
    None; (* JS_CLASS_ERROR *)
    Some js_object_data_mark; (* JS_CLASS_NUMBER *)
    Some js_object_data_mark; (* JS_CLASS_STRING *)
    Some js_object_data_mark; (* JS_CLASS_BOOLEAN *)
    Some js_object_data_mark; (* JS_CLASS_SYMBOL *)
    Some js_array_mark; (* JS_CLASS_ARGUMENTS *)
    None; (* JS_CLASS_MAPPED_ARGUMENTS *)
    Some js_object_data_mark; (* JS_CLASS_DATE *)
    None; (* JS_CLASS_MODULE_NS *)
    Some js_c_function_mark; (* JS_CLASS_C_FUNCTION *)
    Some js_bytecode_function_mark; (* JS_CLASS_BYTECODE_FUNCTION *)
    Some js_bound_function_mark; (* JS_CLASS_BOUND_FUNCTION *)
    Some js_c_function_data_mark; (* JS_CLASS_C_FUNCTION_DATA *)
    Some js_bytecode_function_mark; (* JS_CLASS_GENERATOR_FUNCTION *)
    Some js_for_in_iterator_mark; (* JS_CLASS_FOR_IN_ITERATOR *)
    None; (* JS_CLASS_REGEXP *)
    None; (* JS_CLASS_ARRAY_BUFFER *)
    None; (* JS_CLASS_SHARED_ARRAY_BUFFER *)
    Some js_typed_array_mark; (* JS_CLASS_UINT8C_ARRAY *)
    Some js_typed_array_mark; (* JS_CLASS_INT8_ARRAY *)
    Some js_typed_array_mark; (* JS_CLASS_UINT8_ARRAY *)
    Some js_typed_array_mark; (* JS_CLASS_INT16_ARRAY *)
    Some js_typed_array_mark; (* JS_CLASS_UINT16_ARRAY *)
    Some js_typed_array_mark; (* JS_CLASS_INT32_ARRAY *)
    Some js_typed_array_mark; (* JS_CLASS_UINT32_ARRAY *)
    Some js_typed_array_mark; (* JS_CLASS_BIG_INT64_ARRAY *)
    Some js_typed_array_mark; (* JS_CLASS_BIG_UINT64_ARRAY *)
    Some js_typed_array_mark; (* JS_CLASS_FLOAT32_ARRAY *)
    Some js_typed_array_mark; (* JS_CLASS_FLOAT64_ARRAY *)
    Some js_typed_array_mark; (* JS_CLASS_DATAVIEW *)
    Some js_object_data_mark; (* JS_CLASS_BIG_INT *)
    Some js_object_data_mark; (* JS_CLASS_BIG_FLOAT *)
    None; (* JS_CLASS_FLOAT_ENV *)
    Some js_object_data_mark; (* JS_CLASS_BIG_DECIMAL *)
    Some js_operator_set_mark; (* JS_CLASS_OPERATOR_SET *)
    Some js_map_mark; (* JS_CLASS_MAP *)
    Some js_map_mark; (* JS_CLASS_SET *)
    Some js_map_mark; (* JS_CLASS_WEAKMAP *)
    Some js_map_mark; (* JS_CLASS_WEAKSET *)
    Some js_map_iterator_mark; (* JS_CLASS_MAP_ITERATOR *)
    Some js_map_iterator_mark; (* JS_CLASS_SET_ITERATOR *)
    Some js_array_iterator_mark; (* JS_CLASS_ARRAY_ITERATOR *)
    Some js_array_iterator_mark; (* JS_CLASS_STRING_ITERATOR *)
    Some js_regexp_string_iterator_mark; (* JS_CLASS_REGEXP_STRING_ITERATOR *)
    Some js_generator_mark ]. (* JS_CLASS_GENERATOR *)

Definition js_proxy_class_def : list (option JSClassGCMark) := [Some js_proxy_mark].

Definition js_async_class_def : list (option JSClassGCMark) :=
  [ Some js_promise_mark; (* JS_CLASS_PROMISE *)
    Some js_promise_resolve_function_mark; (* JS_CLASS_PROMISE_RESOLVE_FUNCTION *)
    Some js_promise_resolve_function_mark; (* JS_CLASS_PROMISE_REJECT_FUNCTION *)
    Some js_bytecode_function_mark; (* JS_CLASS_ASYNC_FUNCTION *)
    Some js_async_function_resolve_mark; (* JS_CLASS_ASYNC_FUNCTION_RESOLVE *)
    Some js_async_function_resolve_mark; (* JS_CLASS_ASYNC_FUNCTION_REJECT *)
    Some js_async_from_sync_iterator_mark; (* JS_CLASS_ASYNC_FROM_SYNC_ITERATOR *)
    Some js_bytecode_function_mark; (* JS_CLASS_ASYNC_GENERATOR_FUNCTION *)
    Some js_async_generator_mark ]. (* JS_CLASS_ASYNC_GENERATOR *)

(** [rt->class_array[].gc_mark]: a class that is not registered has none. *)
Definition class_marks : Type := gmap Z JSClassGCMark.

Fixpoint init_class_range (ca : class_marks) (tab : list (option JSClassGCMark)) (start : Z) : class_marks :=
  match tab with
  | [] => ca
  | m :: tab => init_class_range (match m with Some m => <[start := m]> ca | None => delete start ca end) tab (start + 1)
  end.

(** The classes of a runtime with all the intrinsic objects. *)
Definition std_classes : class_marks :=
  init_class_range (init_class_range (init_class_range ∅ js_std_class_def JS_CLASS_OBJECT)
    js_proxy_class_def JS_CLASS_PROXY) js_async_class_def JS_CLASS_PROMISE.

(** The tables fill the predefined classes. *)
Example class_tables_fill :
  JS_CLASS_OBJECT + zlen js_std_class_def = JS_CLASS_PROXY /\
  JS_CLASS_PROXY + zlen js_proxy_class_def = JS_CLASS_PROMISE /\
  JS_CLASS_PROMISE + zlen js_async_class_def = JS_CLASS_INIT_COUNT.
Proof. vm_compute. repeat split. Qed.

(** ** Marking *)

Section Mark.
Context (class_array : class_marks).

(** The loop over the properties of an object and of its shape. *)
Fixpoint mark_props (prs : list JSShapeProperty) (prop : list JSProperty) : option (list Z) :=
  match prs with
  | [] => Some []
  | s :: prs =>
      match prop with
      | [] => None
      | pr :: prop =>
          c ←
            (if prs_atom s =? JS_ATOM_NULL then Some []
             else if prs_flags s .& JS_PROP_TMASK =? 0 then
               match pr with PROP_value value => Some (JS_MarkValue value) | _ => None end
             else if prs_flags s .& JS_PROP_TMASK =? JS_PROP_GETSET then
               match pr with PROP_getset getter setter => Some (mark_opt getter ++ mark_opt setter) | _ => None end
             else if prs_flags s .& JS_PROP_TMASK =? JS_PROP_VARREF then
               match pr with PROP_var_ref var_ref => Some [var_ref] | _ => None end
             else if prs_flags s .& JS_PROP_TMASK =? JS_PROP_AUTOINIT then js_autoinit_mark pr
             else Some []);
          r ← mark_props prs prop;
          Some (c ++ r)
      end
  end.

Definition js_mark_module_def (m : JSModuleDef) : list Z :=
  flat_map (fun me => if (me.1 : bool) && negb (me.2 =? 0) then [me.2] else []) (m_export_var_refs m) ++
  JS_MarkValues [m_module_ns m; m_func_obj m; m_eval_exception m; m_meta_obj m; m_promise m;
                 m_resolving_func0 m; m_resolving_func1 m].

Definition JS_MarkContext (ctx : JSContext) : list Z :=
  flat_map js_mark_module_def (ctx_loaded_modules ctx) ++
  JS_MarkValues [ctx_global_obj ctx; ctx_global_var_obj ctx; ctx_throw_type_error ctx; ctx_eval_obj ctx;
                 ctx_array_proto_values ctx] ++
  JS_MarkValues (ctx_native_error_proto ctx) ++ JS_MarkValues (ctx_class_proto ctx) ++
  JS_MarkValues [ctx_iterator_proto ctx; ctx_async_iterator_proto ctx; ctx_promise_ctor ctx; ctx_array_ctor ctx;
                 ctx_regexp_ctor ctx; ctx_function_ctor ctx; ctx_function_proto ctx] ++
  mark_opt (ctx_array_shape ctx).

Definition mark_children (m : heap) (gp : Z) : option (list Z) :=
  body ← m !! gp;
  match body with
  | JS_GC_OBJ_TYPE_JS_OBJECT p =>
      match m !! obj_shape p with
      | Some (JS_GC_OBJ_TYPE_SHAPE sh) =>
          props ← mark_props (sh_prop sh) (obj_prop p);
          cls ←
            (if obj_class_id p =? JS_CLASS_OBJECT then Some []
             else match class_array !! obj_class_id p with Some gc_mark => gc_mark m p | None => Some [] end);
          Some (obj_shape p :: props ++ cls)
      | _ => None
      end
  | JS_GC_OBJ_TYPE_FUNCTION_BYTECODE b => Some (JS_MarkValues (fb_cpool b) ++ mark_opt (fb_realm b))
  | JS_GC_OBJ_TYPE_VAR_REF var_ref =>
      Some (if vr_is_detached var_ref then JS_MarkValue (vr_value var_ref) else mark_opt (vr_async_func var_ref))
  | JS_GC_OBJ_TYPE_ASYNC_FUNCTION s =>
      frame ←
        (if af_is_completed s then Some []
         else
           stack ← (match af_cur_sp s with None => Some [] | Some n => JS_MarkValues <$> zslice (af_arg_buf s) 0 n end);
           Some (JS_MarkValue (af_cur_func s) ++ JS_MarkValue (af_this_val s) ++ stack));
      Some (frame ++ JS_MarkValue (af_resolving_func0 s) ++ JS_MarkValue (af_resolving_func1 s))
  | JS_GC_OBJ_TYPE_SHAPE sh => Some (mark_opt (sh_proto sh))
  | JS_GC_OBJ_TYPE_JS_CONTEXT ctx => Some (JS_MarkContext ctx)
  end.
End Mark.
