(* ===== verification/GcCycles.v ===== *)
(** The cycle collector of [quickjs.c]: [gc_decref] and [gc_scan], which find the objects
    that only garbage refers to.

    The lists of headers are lists of pointers ([LinkedList] relates the operations of
    [list.h] to lists); a loop over a list follows the links of the current state, as the
    bodies move headers between the lists.  [Stuck] is a failed [assert], [abort()], the
    access to a header that does not exist, the unlinking of a header that is in no list
    or an overflow of [ref_count]. *)

From S2P Require Import Prelude GcHeap.

(** ** State *)

Record JSGCObjectHeader := mkHeader { ref_count : Z; mark : Z }.

Record gc_state := mkGc {
  headers : gmap Z JSGCObjectHeader;
  gc_obj_list : list Z;
  tmp_obj_list : list Z }.

Definition header (s : gc_state) (p : Z) : outcome JSGCObjectHeader := of_opt (headers s !! p).

Definition set_header (s : gc_state) (p : Z) (h : JSGCObjectHeader) : gc_state :=
  mkGc (<[p := h]> (headers s)) (gc_obj_list s) (tmp_obj_list s).

(** [p->mark = m]. *)
Definition set_mark (s : gc_state) (p m : Z) : outcome gc_state :=
  h ← header s p; Ok (set_header s p (mkHeader (ref_count h) m)).

(** [list_del(&p->link)]. *)
Definition gc_list_del (s : gc_state) (p : Z) : outcome gc_state :=
  if bool_decide (p ∈ gc_obj_list s) then Ok (mkGc (headers s) (filter (.≠ p) (gc_obj_list s)) (tmp_obj_list s))
  else if bool_decide (p ∈ tmp_obj_list s) then Ok (mkGc (headers s) (gc_obj_list s) (filter (.≠ p) (tmp_obj_list s)))
  else Stuck.

(** [list_add_tail] to each of the lists. *)
Definition add_tail_gc (s : gc_state) (p : Z) : gc_state := mkGc (headers s) (gc_obj_list s ++ [p]) (tmp_obj_list s).
Definition add_tail_tmp (s : gc_state) (p : Z) : gc_state := mkGc (headers s) (gc_obj_list s) (tmp_obj_list s ++ [p]).

(** [el->next] of an element of a list; [None] inside is the head of the list. *)
Fixpoint list_next (l : list Z) (p : Z) : option (option Z) :=
  match l with
  | [] => None
  | x :: l => if x =? p then Some (head l) else list_next l p
  end.

Definition add_gc_object (s : gc_state) (p rc : Z) : gc_state :=
  add_tail_gc (set_header s p (mkHeader rc 0)) p.

Definition remove_gc_object (s : gc_state) (p : Z) : outcome gc_state := gc_list_del s p.

(** ** The two passes *)

Section Collector.
Context (class_array : class_marks) (m : heap).

(** [mark_children(rt, p, mark_func)]. *)
Fixpoint call_marks (mark_func : gc_state -> Z -> outcome gc_state) (cs : list Z) (s : gc_state) : outcome gc_state :=
  match cs with [] => Ok s | c :: cs => s ← mark_func s c; call_marks mark_func cs s end.

Definition mark_children_with (mark_func : gc_state -> Z -> outcome gc_state) (s : gc_state) (p : Z) : outcome gc_state :=
  cs ← of_opt (mark_children class_array m p); call_marks mark_func cs s.

Definition gc_decref_child (s : gc_state) (p : Z) : outcome gc_state :=
  h ← header s p;
  _ ← assert_ (0 <? ref_count h);
  let s := set_header s p (mkHeader (ref_count h - 1) (mark h)) in
  if (ref_count h - 1 =? 0) && (mark h =? 1) then s ← gc_list_del s p; Ok (add_tail_tmp s p) else Ok s.

(** [list_for_each_safe(el, el1, &rt->gc_obj_list)]. *)
Fixpoint gc_decref_loop (fuel : nat) (el : option Z) (s : gc_state) : outcome gc_state :=
  match el with
  | None => Ok s
  | Some p =>
      match fuel with
      | O => Timeout
      | S fuel' =>
          el1 ← of_opt (list_next (gc_obj_list s) p);
          h ← header s p;
          _ ← assert_ (mark h =? 0);
          s ← mark_children_with gc_decref_child s p;
          s ← set_mark s p 1;
          h ← header s p;
          s ← (if ref_count h =? 0 then s ← gc_list_del s p; Ok (add_tail_tmp s p) else Ok s);
          gc_decref_loop fuel' el1 s
      end
  end.

Definition gc_decref (s : gc_state) : outcome gc_state :=
  gc_decref_loop (length (gc_obj_list s)) (head (gc_obj_list s)) (mkGc (headers s) (gc_obj_list s) []).

(** [p->ref_count++]. *)
Definition incref (s : gc_state) (p : Z) : outcome gc_state :=
  h ← header s p;
  if ref_count h =? INT32_MAX then Stuck else Ok (set_header s p (mkHeader (ref_count h + 1) (mark h))).

Definition gc_scan_incref_child (s : gc_state) (p : Z) : outcome gc_state :=
  s ← incref s p;
  h ← header s p;
  if ref_count h =? 1 then
    s ← gc_list_del s p;
    set_mark (add_tail_gc s p) p 0
  else Ok s.

Definition gc_scan_incref_child2 (s : gc_state) (p : Z) : outcome gc_state := incref s p.

(** [list_for_each(el, &rt->gc_obj_list)]: the list grows at its end. *)
Fixpoint gc_scan_loop (fuel : nat) (el : option Z) (s : gc_state) : outcome gc_state :=
  match el with
  | None => Ok s
  | Some p =>
      match fuel with
      | O => Timeout
      | S fuel' =>
          h ← header s p;
          _ ← assert_ (0 <? ref_count h);
          s ← set_mark s p 0;
          s ← mark_children_with gc_scan_incref_child s p;
          el ← of_opt (list_next (gc_obj_list s) p);
          gc_scan_loop fuel' el s
      end
  end.

(** [list_for_each(el, &rt->tmp_obj_list)]: the body moves nothing. *)
Fixpoint gc_restore_loop (l : list Z) (s : gc_state) : outcome gc_state :=
  match l with [] => Ok s | p :: l => s ← mark_children_with gc_scan_incref_child2 s p; gc_restore_loop l s end.

Definition gc_scan (s : gc_state) : outcome gc_state :=
  s ← gc_scan_loop (length (gc_obj_list s) + length (tmp_obj_list s)) (head (gc_obj_list s)) s;
  gc_restore_loop (tmp_obj_list s) s.

(** ** What the collector relies on *)

Definition children (p : Z) : list Z := default [] (mark_children class_array m p).

(** The references that the objects of a list hold, with repetitions. *)
Definition refs (l : list Z) : list Z := concat (map children l).

Definition count (l : list Z) (p : Z) : Z := Z.of_nat (count_occ Z.eq_dec l p).

(** A heap between two operations: every object refers to objects of the list, and the
    reference counts count these references and [ext p] others, from outside. *)
Record gc_wf (ext : Z -> Z) (s : gc_state) : Prop := {
  wf_nodup : NoDup (gc_obj_list s);
  wf_children : forall p, p ∈ gc_obj_list s -> exists cs, mark_children class_array m p = Some cs /\ Forall (.∈ gc_obj_list s) cs;
  wf_header : forall p, p ∈ gc_obj_list s -> exists rc, headers s !! p = Some (mkHeader rc 0) /\
    rc = ext p + count (refs (gc_obj_list s)) p /\ rc <= INT32_MAX;
  wf_ext : forall p, p ∈ gc_obj_list s -> 0 <= ext p }.

(** The objects that can be reached from a reference from outside. *)
Inductive reachable (ext : Z -> Z) (l : list Z) : Z -> Prop :=
  | reach_root p : p ∈ l -> 0 < ext p -> reachable ext l p
  | reach_child q p : reachable ext l q -> p ∈ children q -> reachable ext l p.
End Collector.

(** ** Counting references *)

Lemma count_cons c D p : count (c :: D) p = count D p + (if decide (p = c) then 1 else 0).
Proof. unfold count. cbn [count_occ]. destruct (Z.eq_dec c p), (decide (p = c)); subst; try done; lia. Qed.

Lemma count_app D1 D2 p : count (D1 ++ D2) p = count D1 p + count D2 p.
Proof. unfold count. rewrite count_occ_app. lia. Qed.

Lemma count_nonneg D p : 0 <= count D p.
Proof. unfold count. lia. Qed.

Lemma count_perm D D' p : D ≡ₚ D' -> count D p = count D' p.
Proof. intros HD. unfold count. f_equal. by apply Permutation_count_occ. Qed.

Lemma count_pos D p : p ∈ D <-> 0 < count D p.
Proof. unfold count. rewrite list_elem_of_In, (count_occ_In Z.eq_dec). lia. Qed.

(** A filter depends on the predicate at the elements only. *)
Lemma filter_ext_in (P Q : Z -> Prop) `{!forall x, Decision (P x), !forall x, Decision (Q x)} (l : list Z) :
  (forall x, x ∈ l -> P x <-> Q x) -> filter P l = filter Q l.
Proof.
  induction l as [|x l IH]; intros Heq; [done|]. rewrite !filter_cons, IH by (intros y Hy; apply Heq; by right).
  pose proof (Heq x ltac:(by left)). repeat case_decide; tauto || done.
Qed.

(** One more element satisfies the predicate. *)
Lemma filter_one_more (P Q : Z -> Prop) `{!forall x, Decision (P x), !forall x, Decision (Q x)} (l : list Z) c :
  NoDup l -> c ∈ l -> ~ P c -> (forall x, x ∈ l -> Q x <-> P x \/ x = c) -> filter Q l ≡ₚ filter P l ++ [c].
Proof.
  intros Hl Hc HP HQ. apply list.NoDup_Permutation.
  - by apply NoDup_filter.
  - apply list.NoDup_app. split_and!; [by apply NoDup_filter| |apply NoDup_singleton].
    intros x [Hx _]%list_elem_of_filter ->%list_elem_of_singleton. done.
  - intros x. rewrite elem_of_app, !list_elem_of_filter, list_elem_of_singleton. specialize (HQ x). split.
    + intros [Hx Hin]. destruct (proj1 (HQ Hin) Hx) as [HPx|]; auto.
    + intros [[Hx Hin]| ->]; split; auto; apply HQ; auto.
Qed.

Lemma filter_not_in (l : list Z) c : c ∉ l -> filter (.≠ c) l = l.
Proof.
  induction l as [|x l IH]; intros Hc; [done|]. rewrite filter_cons. apply not_elem_of_cons in Hc as [Hx Hc].
  rewrite decide_True by done. by rewrite IH.
Qed.

Lemma list_next_mid l1 p l2 : p ∉ l1 -> list_next (l1 ++ p :: l2) p = Some (head l2).
Proof.
  induction l1 as [|x l1 IH]; intros Hp; cbn [app list_next]; [by rewrite Z.eqb_refl|].
  apply not_elem_of_cons in Hp as [Hx Hp]. destruct (Z.eqb_spec x p); [congruence|auto].
Qed.

Section Proofs.
Context (class_array : class_marks) (m : heap).
Abbreviation children := (children class_array m).
Abbreviation refs := (refs class_array m).

Lemma refs_app l1 l2 : refs (l1 ++ l2) = refs l1 ++ refs l2.
Proof. unfold GcCycles.refs. by rewrite map_app, concat_app. Qed.

Lemma refs_perm l l' : l ≡ₚ l' -> refs l ≡ₚ refs l'.
Proof.
  unfold GcCycles.refs. induction 1; cbn [map concat]; [done|by f_equiv| |by etrans].
  rewrite !app_assoc. f_equiv. apply Permutation_app_comm.
Qed.

(** The references of some of the objects are at most those of all. *)
Lemma count_refs_le P X l p : P ++ X ≡ₚ l -> count (refs P) p <= count (refs l) p.
Proof.
  intros Hl%refs_perm. rewrite <- (count_perm _ _ p Hl), refs_app, count_app. pose proof (count_nonneg (refs X) p). lia.
Qed.

Lemma count_refs_child P q p : q ∈ P -> p ∈ children q -> 0 < count (refs P) p.
Proof.
  intros Hq Hp. apply count_pos. unfold GcCycles.refs. apply list_elem_of_In, in_concat. exists (children q).
  split; [apply in_map|]; by apply list_elem_of_In.
Qed.

(** ** Decrementing *)

Section Decref.
Context (L : list Z) (rc0 : Z -> Z) (HL : NoDup L).

(** [P] is processed and [R] is left; [D] holds the references that were removed. *)
Record dec_inv (P R D : list Z) (s : gc_state) : Prop := {
  di_split : L = P ++ R;
  di_header : forall p, p ∈ L ->
    headers s !! p = Some (mkHeader (rc0 p - count D p) (if decide (p ∈ P) then 1 else 0));
  di_pos : forall p, p ∈ L -> 0 <= rc0 p - count D p;
  di_gc : gc_obj_list s = filter (fun p => 0 < rc0 p - count D p) P ++ R;
  di_tmp : tmp_obj_list s ≡ₚ filter (fun p => rc0 p - count D p = 0) P }.

(** The two parts of the list of objects are disjoint. *)
Lemma dec_disjoint P R D s p : dec_inv P R D s -> p ∈ P -> p ∉ R.
Proof. intros Hi Hp HR. pose proof HL as HL'. rewrite (di_split _ _ _ _ Hi), list.NoDup_app in HL'. by apply (proj1 (proj2 HL') p). Qed.

Lemma dec_nodup P R D s : dec_inv P R D s -> NoDup P.
Proof. intros Hi. pose proof HL as HL'. rewrite (di_split _ _ _ _ Hi), list.NoDup_app in HL'. tauto. Qed.

Lemma gc_decref_child_spec P R D s c :
  dec_inv P R D s -> c ∈ L -> 0 < rc0 c - count D c ->
  exists s', gc_decref_child s c = Ok s' /\ dec_inv P R (c :: D) s'.
Proof.
  intros Hi Hc Hpos. pose proof (dec_nodup _ _ _ _ Hi) as HP. pose proof (dec_disjoint _ _ _ _ c Hi) as HcR.
  destruct Hi as [Hsp Hh Hp Hg Ht]. unfold gc_decref_child, header. rewrite (Hh c Hc). cbn [of_opt mbind outcome_bind ref_count mark].
  rewrite (proj2 (Z.ltb_lt _ _) Hpos). cbn [assert_ mbind outcome_bind].
  assert (Hh' : forall p, p ∈ L ->
    <[c := mkHeader (rc0 c - count D c - 1) (if decide (c ∈ P) then 1 else 0)]> (headers s) !! p =
    Some (mkHeader (rc0 p - count (c :: D) p) (if decide (p ∈ P) then 1 else 0))).
  { intros p HpL. rewrite count_cons. destruct (decide (p = c)) as [->|Hne].
    - rewrite lookup_insert_eq. f_equal. f_equal. lia.
    - rewrite lookup_insert_ne by done. rewrite (Hh p HpL). f_equal. f_equal. lia. }
  assert (Hp' : forall p, p ∈ L -> 0 <= rc0 p - count (c :: D) p).
  { intros p HpL. rewrite count_cons. pose proof (Hp p HpL). destruct (decide (p = c)); subst; lia. }
  destruct (decide (rc0 c - count D c - 1 = 0 /\ c ∈ P)) as [[Hz HcP]|Hno].
  - rewrite (decide_True (P := c ∈ P)) by done. rewrite (proj2 (Z.eqb_eq _ _) Hz). cbn [andb Z.eqb Pos.eqb].
    assert (Hin : c ∈ gc_obj_list s).
    { rewrite Hg. apply elem_of_app. left. apply list_elem_of_filter. split; [lia|done]. }
    unfold gc_list_del. cbn [gc_obj_list set_header]. rewrite bool_decide_true by done. cbn [mbind outcome_bind].
    eexists. split; [done|]. split; [done| |done| |]; cbn [headers gc_obj_list tmp_obj_list add_tail_tmp set_header].
    + rewrite (decide_True (P := c ∈ P)) in Hh' by done. done.
    + rewrite Hg, filter_app, (filter_not_in R c) by auto. f_equal. rewrite list_filter_filter.
      apply filter_ext_in. intros x Hx. rewrite count_cons. destruct (decide (x = c)); subst; split; intros; try split; try lia; naive_solver lia.
    + rewrite Ht. symmetry. apply filter_one_more; [done|done|lia|].
      intros x Hx. rewrite count_cons. destruct (decide (x = c)); subst; split; intros; try lia; naive_solver lia.
  - assert (Hb : (rc0 c - count D c - 1 =? 0) && ((if decide (c ∈ P) then 1 else 0) =? 1) = false).
    { apply andb_false_iff. destruct (Z.eqb_spec (rc0 c - count D c - 1) 0); [right|by left]. rewrite decide_False; [done|tauto]. }
    rewrite Hb. eexists. split; [done|].
    assert (Hx : forall x, x ∈ P -> (rc0 x - count (c :: D) x = 0 <-> rc0 x - count D x = 0)).
    { intros x HxP. rewrite count_cons. destruct (decide (x = c)); [subst|lia]. split; [|lia]. intros Hz. exfalso. apply Hno. split; [lia|done]. }
    assert (HPL : forall x, x ∈ P -> x ∈ L) by (intros x HxP; rewrite Hsp; apply elem_of_app; by left).
    split; [done|done|done| |]; cbn [gc_obj_list tmp_obj_list set_header].
    + rewrite Hg. f_equal. apply filter_ext_in. intros x HxP. pose proof (Hx x HxP). pose proof (Hp x (HPL x HxP)).
      pose proof (Hp' x (HPL x HxP)). lia.
    + rewrite Ht. erewrite filter_ext_in; [done|]. intros x HxP. symmetry. by apply Hx.
Qed.

Lemma call_decref_spec P R cs D s :
  dec_inv P R D s -> Forall (.∈ L) cs -> (forall c, c ∈ L -> count cs c + count D c <= rc0 c) ->
  exists s', call_marks gc_decref_child cs s = Ok s' /\ dec_inv P R (rev cs ++ D) s'.
Proof.
  intros Hi Hcs. revert D s Hi. induction Hcs as [|c cs Hc Hcs IH]; intros D s Hi Hle; [by exists s|].
  assert (Hlt : 0 < rc0 c - count D c).
  { specialize (Hle c Hc). rewrite count_cons, decide_True in Hle by done. pose proof (count_nonneg cs c). lia. }
  destruct (gc_decref_child_spec P R D s c Hi Hc Hlt) as (s1 & Hs1 & Hi1). cbn [call_marks]. rewrite Hs1.
  cbn [mbind outcome_bind]. destruct (IH (c :: D) s1 Hi1) as (s2 & Hs2 & Hi2).
  { intros x Hx. specialize (Hle x Hx). rewrite count_cons in *. lia. }
  exists s2. split; [done|]. cbn [rev]. by rewrite <- app_assoc.
Qed.

(** The end of the body of the loop. *)
Lemma dec_inv_next P p R D s :
  dec_inv P (p :: R) D s ->
  exists s1, set_mark s p 1 = Ok s1 /\ header s1 p = Ok (mkHeader (rc0 p - count D p) 1) /\ exists s2,
    (if rc0 p - count D p =? 0 then s ← gc_list_del s1 p; Ok (add_tail_tmp s p) else Ok s1) = Ok s2 /\
    dec_inv (P ++ [p]) R D s2.
Proof.
  intros Hi. pose proof (dec_nodup _ _ _ _ Hi) as HP. pose proof (dec_disjoint _ _ _ _ p Hi) as HpR.
  destruct Hi as [Hsp Hh Hp Hg Ht].
  assert (HpL : p ∈ L) by (rewrite Hsp; apply elem_of_app; right; by left).
  assert (HpP : p ∉ P) by (intros HpP; apply (HpR HpP); by left).
  assert (HpR' : p ∉ R).
  { pose proof HL as HL'. rewrite Hsp in HL'. apply list.NoDup_app in HL' as (_ & _ & HL').
    by apply NoDup_cons_1_1 in HL'. }
  unfold set_mark, header. rewrite (Hh p HpL). cbn [of_opt mbind outcome_bind ref_count]. eexists.
  split; [done|]. cbn [headers set_header]. rewrite lookup_insert_eq. split; [done|].
  assert (Hh' : forall q, q ∈ L -> <[p := mkHeader (rc0 p - count D p) 1]> (headers s) !! q =
    Some (mkHeader (rc0 q - count D q) (if decide (q ∈ P ++ [p]) then 1 else 0))).
  { intros q Hq. destruct (decide (q = p)) as [->|Hne].
    - rewrite lookup_insert_eq, decide_True; [done|]. apply elem_of_app. right. by left.
    - rewrite lookup_insert_ne, (Hh q Hq) by done. do 2 f_equal.
      destruct (decide (q ∈ P)); [rewrite decide_True|rewrite decide_False]; [done|set_solver|done|set_solver]. }
  assert (Hsp' : L = (P ++ [p]) ++ R) by (by rewrite <- app_assoc).
  destruct (Z.eqb_spec (rc0 p - count D p) 0) as [Hz|Hz].
  - unfold gc_list_del. cbn [gc_obj_list set_header]. rewrite bool_decide_true by (rewrite Hg; set_solver).
    cbn [mbind outcome_bind]. eexists. split; [reflexivity|]. split; [done|done|done| |]; cbn [gc_obj_list tmp_obj_list add_tail_tmp set_header].
    + rewrite Hg, !filter_app, !filter_cons, filter_nil, (filter_not_in R) by done.
      rewrite decide_False by (intros Hx; by apply Hx). rewrite decide_False by lia. rewrite app_nil_r. f_equal.
      apply filter_not_in. intros [_ Hx]%list_elem_of_filter. done.
    + rewrite Ht, filter_app, filter_cons, decide_True, filter_nil by lia. done.
  - eexists. split; [reflexivity|]. split; [done|done|done| |]; cbn [gc_obj_list tmp_obj_list set_header].
    + rewrite Hg, filter_app, filter_cons, decide_True, filter_nil, <- app_assoc by (pose proof (Hp p HpL); lia). done.
    + rewrite Ht, filter_app, filter_cons, decide_False, filter_nil, app_nil_r by lia. done.
Qed.

Context (Hch : forall p, p ∈ L -> exists cs, mark_children class_array m p = Some cs /\ Forall (.∈ L) cs).
Context (Hrc : forall p, p ∈ L -> count (refs L) p <= rc0 p).

Lemma children_eq p cs : mark_children class_array m p = Some cs -> children p = cs.
Proof. intros Hp. unfold GcCycles.children. by rewrite Hp. Qed.

Lemma refs_snoc P p : refs (P ++ [p]) = refs P ++ children p.
Proof. rewrite refs_app. unfold GcCycles.refs. cbn [map concat]. by rewrite app_nil_r. Qed.

Lemma gc_decref_loop_spec R P D s :
  dec_inv P R D s -> (forall p, count D p = count (refs P) p) ->
  exists s' D', gc_decref_loop class_array m (length R) (head R) s = Ok s' /\ dec_inv L [] D' s' /\
    (forall p, count D' p = count (refs L) p).
Proof.
  revert P D s. induction R as [|p R IH]; intros P D s Hi HD.
  { exists s, D. pose proof (di_split _ _ _ _ Hi) as Hsp. rewrite app_nil_r in Hsp. rewrite Hsp. done. }
  cbn [head length gc_decref_loop].
  assert (HpL : p ∈ L) by (rewrite (di_split _ _ _ _ Hi); apply elem_of_app; right; by left).
  assert (HpP : p ∉ P) by (intros HpP; apply (dec_disjoint _ _ _ _ _ Hi HpP); by left).
  rewrite (di_gc _ _ _ _ Hi), list_next_mid by (intros [_ Hx]%list_elem_of_filter; done).
  assert (Hhp : header s p = Ok (mkHeader (rc0 p - count D p) 0)).
  { unfold header. by rewrite (di_header _ _ _ _ Hi p HpL), decide_False. }
  cbn [of_opt mbind outcome_bind]. rewrite Hhp. cbn [mbind outcome_bind mark assert_ Z.eqb].
  destruct (Hch p HpL) as (cs & Hcs & Hall). unfold mark_children_with. rewrite Hcs. cbn [of_opt mbind outcome_bind].
  pose proof (refs_snoc P p) as Hsn. rewrite (children_eq _ _ Hcs) in Hsn.
  destruct (call_decref_spec P (p :: R) cs D s Hi Hall) as (s1 & Hs1 & Hi1).
  { intros c Hc. rewrite HD. specialize (Hrc c Hc). assert (Hle : count (refs (P ++ [p])) c <= count (refs L) c).
    { apply (count_refs_le _ R). rewrite <- app_assoc. by rewrite (di_split _ _ _ _ Hi). }
    rewrite Hsn, count_app in Hle. lia. }
  rewrite Hs1. destruct (dec_inv_next _ _ _ _ _ Hi1) as (s2 & Hs2 & Hh2 & s3 & Hs3 & Hi3).
  cbn [mbind outcome_bind]. rewrite Hs2. cbn [mbind outcome_bind]. rewrite Hh2. cbn [mbind outcome_bind ref_count]. rewrite Hs3.
  cbn [mbind outcome_bind]. apply (IH _ _ _ Hi3). intros q. rewrite Hsn, !count_app, HD.
  rewrite (count_perm (rev cs) cs q) by (symmetry; apply Permutation_rev). lia.
Qed.
End Decref.


(** ** Scanning *)

Section Scan.
Context (L : list Z) (ext : Z -> Z) (HL : NoDup L).
Context (Hch : forall p, p ∈ L -> exists cs, mark_children class_array m p = Some cs /\ Forall (.∈ L) cs).
Context (Hext : forall p, p ∈ L -> 0 <= ext p).
Context (Hmax : forall p, p ∈ L -> ext p + count (refs L) p <= INT32_MAX).
Abbreviation reachable := (reachable class_array m ext L).

(** [P] is scanned, [Q] is kept and not yet scanned, [T] is in [tmp_obj_list]; [D] holds
    the references that were put back. *)
Record scan_inv (P Q T D : list Z) (s : gc_state) : Prop := {
  si_gc : gc_obj_list s = P ++ Q;
  si_tmp : tmp_obj_list s = T;
  si_perm : (P ++ Q) ++ T ≡ₚ L;
  si_header : forall p, p ∈ L -> exists mk, headers s !! p = Some (mkHeader (ext p + count D p) mk) /\
    (p ∈ P -> mk = 0) /\ (p ∈ T -> mk = 1);
  si_live : forall p, p ∈ L -> p ∈ P ++ Q <-> 0 < ext p + count D p;
  si_reach : forall p, p ∈ P ++ Q -> reachable p }.

Lemma scan_disjoint P Q T D s p : scan_inv P Q T D s -> p ∈ P ++ Q -> p ∉ T.
Proof.
  intros Hi Hp HT. pose proof HL as HL'. rewrite <- (si_perm _ _ _ _ _ Hi), list.NoDup_app in HL'.
  by apply (proj1 (proj2 HL') p).
Qed.

(** The header after [p->ref_count++]. *)
Lemma incref_spec D s c mk :
  headers s !! c = Some (mkHeader (ext c + count D c) mk) -> ext c + count D c < INT32_MAX ->
  incref s c = Ok (set_header s c (mkHeader (ext c + count (c :: D) c) mk)).
Proof.
  intros Hh Hlt. unfold incref, header. rewrite Hh. cbn [of_opt mbind outcome_bind ref_count mark].
  destruct (Z.eqb_spec (ext c + count D c) INT32_MAX); [lia|]. rewrite count_cons, decide_True by done. by rewrite Z.add_assoc.
Qed.

Lemma headers_incref (s : gc_state) c h D p mk :
  (p <> c -> headers s !! p = Some (mkHeader (ext p + count D p) mk)) ->
  (p = c -> h = mkHeader (ext c + count (c :: D) c) mk) ->
  <[c := h]> (headers s) !! p = Some (mkHeader (ext p + count (c :: D) p) mk).
Proof.
  intros Hne He. destruct (decide (p = c)) as [->|Hn].
  - rewrite lookup_insert_eq, He; done.
  - rewrite lookup_insert_ne, Hne, count_cons, decide_False by done. by rewrite Z.add_0_r.
Qed.

Lemma gc_scan_incref_child_spec P Q T D s c :
  scan_inv P Q T D s -> c ∈ L -> reachable c -> ext c + count D c < INT32_MAX ->
  exists s' Q' T', gc_scan_incref_child s c = Ok s' /\ scan_inv P (Q ++ Q') T' (c :: D) s'.
Proof.
  intros Hi Hc Hr Hlt. pose proof (fun p => scan_disjoint _ _ _ _ _ p Hi) as Hdis. destruct Hi as [Hg Ht Hp Hh Hl Hre].
  destruct (Hh c Hc) as (mk & Hmk & HmkP & HmkT). unfold gc_scan_incref_child.
  rewrite (incref_spec D s c mk Hmk Hlt). cbn [mbind outcome_bind]. unfold header. cbn [headers set_header].
  rewrite lookup_insert_eq. cbn [of_opt mbind outcome_bind ref_count].
  assert (Hlive : forall p, p ∈ L -> 0 < ext p + count (c :: D) p <-> p ∈ P ++ Q \/ p = c).
  { intros p HpL. rewrite (Hl p HpL), count_cons. pose proof (Hext p HpL). pose proof (count_nonneg D p).
    destruct (decide (p = c)); intuition lia. }
  destruct (Z.eqb_spec (ext c + count (c :: D) c) 1) as [H1|H1]; rewrite count_cons, decide_True in H1 by done.
  - assert (HcK : c ∉ P ++ Q) by (rewrite (Hl c Hc); lia).
    assert (HcT : c ∈ T) by (rewrite <- Hp, elem_of_app in Hc; tauto).
    unfold gc_list_del. cbn [gc_obj_list tmp_obj_list set_header]. rewrite Hg, Ht, bool_decide_false, bool_decide_true by done.
    cbn [mbind outcome_bind]. unfold set_mark, header. cbn [headers add_tail_gc set_header]. rewrite lookup_insert_eq.
    cbn [of_opt mbind outcome_bind ref_count]. exists (mkGc (<[c := mkHeader (ext c + count (c :: D) c) 0]>
      (<[c := mkHeader (ext c + count (c :: D) c) mk]> (headers s))) ((P ++ Q) ++ [c]) (filter (.≠ c) T)), [c], (filter (.≠ c) T).
    split; [done|]. split; cbn [gc_obj_list tmp_obj_list headers].
    + by rewrite app_assoc.
    + done.
    + rewrite <- Hp, (app_assoc P), <- app_assoc. f_equiv. cbn [app]. symmetry.
      assert (HT : NoDup T) by (pose proof HL as HL'; rewrite <- Hp in HL'; apply list.NoDup_app in HL'; tauto).
      apply list.NoDup_Permutation; [done| |].
      * apply NoDup_cons. split; [|by apply NoDup_filter]. intros [Hx _]%list_elem_of_filter. done.
      * intros x. rewrite elem_of_cons, list_elem_of_filter. destruct (decide (x = c)); subst; naive_solver.
    + intros p HpL. rewrite insert_insert_eq. destruct (decide (p = c)) as [->|Hne].
      * exists 0. rewrite lookup_insert_eq. split_and!; [done|done|]. intros [Hx _]%list_elem_of_filter. done.
      * destruct (Hh p HpL) as (mk' & Hmk' & ? & HT'). exists mk'.
        rewrite lookup_insert_ne, Hmk', count_cons, decide_False, Z.add_0_r by done.
        split_and!; [done|done|]. intros [_ Hx]%list_elem_of_filter. auto.
    + intros p HpL. rewrite (Hlive p HpL). rewrite app_assoc, elem_of_app, list_elem_of_singleton. done.
    + intros p. rewrite app_assoc, elem_of_app, list_elem_of_singleton. intros [Hx| ->]; auto.
  - exists (set_header s c (mkHeader (ext c + count (c :: D) c) mk)), [], T. split; [done|]. rewrite app_nil_r.
    split; cbn [gc_obj_list tmp_obj_list headers set_header]; try done.
    + intros p HpL. destruct (Hh p HpL) as (mk' & Hmk' & ? & ?). exists mk'. split; [|done].
      apply headers_incref; [done|]. intros ->. rewrite Hmk' in Hmk. by injection Hmk as ->.
    + intros p HpL. rewrite (Hlive p HpL). split; [by left|]. intros [?| ->]; [done|]. apply Hl; [done|].
      pose proof (Hext c Hc). pose proof (count_nonneg D c). lia.
Qed.

Lemma call_incref_spec P cs Q T D s :
  scan_inv P Q T D s -> Forall (fun c => c ∈ L /\ reachable c) cs ->
  (forall c, c ∈ L -> ext c + count cs c + count D c <= INT32_MAX) ->
  exists s' Q' T', call_marks gc_scan_incref_child cs s = Ok s' /\ scan_inv P (Q ++ Q') T' (rev cs ++ D) s'.
Proof.
  intros Hi Hcs. revert Q T D s Hi. induction Hcs as [|c cs [Hc Hr] Hcs IH]; intros Q T D s Hi Hle.
  { exists s, [], T. by rewrite app_nil_r. }
  destruct (gc_scan_incref_child_spec P Q T D s c Hi Hc Hr) as (s1 & Q1 & T1 & Hs1 & Hi1).
  { specialize (Hle c Hc). rewrite count_cons, decide_True in Hle by done. pose proof (count_nonneg cs c). lia. }
  destruct (IH (Q ++ Q1) T1 (c :: D) s1 Hi1) as (s2 & Q2 & T2 & Hs2 & Hi2).
  { intros x Hx. specialize (Hle x Hx). rewrite count_cons in *. lia. }
  exists s2, (Q1 ++ Q2), T2. cbn [call_marks rev]. rewrite Hs1. cbn [mbind outcome_bind]. split; [done|].
  by rewrite <- app_assoc, app_assoc.
Qed.



(** The object at the front of [Q] is scanned. *)
Lemma scan_inv_front P p Q T D s :
  scan_inv P (p :: Q) T D s ->
  exists s1, set_mark s p 0 = Ok s1 /\ scan_inv (P ++ [p]) Q T D s1.
Proof.
  intros [Hg Ht Hp Hh Hl Hre].
  assert (HpL : p ∈ L) by (rewrite <- Hp, !elem_of_app; left; right; by left).
  destruct (Hh p HpL) as (mk & Hmk & _ & _). unfold set_mark, header. rewrite Hmk. cbn [of_opt mbind outcome_bind ref_count].
  eexists. split; [done|].
  assert (Hsp : P ++ p :: Q = (P ++ [p]) ++ Q) by (by rewrite <- app_assoc). rewrite Hsp in Hg, Hp, Hl, Hre.
  split; cbn [gc_obj_list tmp_obj_list headers set_header]; try done.
  intros q Hq. destruct (decide (q = p)) as [->|Hne].
  - exists 0. rewrite lookup_insert_eq. split_and!; [done|done|]. intros HpT. exfalso.
    pose proof HL as HL'. rewrite <- Hp, list.NoDup_app in HL'. apply (proj1 (proj2 HL') p); [|done]. set_solver.
  - destruct (Hh q Hq) as (mk' & Hmk' & HP & HT). exists mk'. rewrite lookup_insert_ne by done.
    split_and!; [done|intros Hx; apply HP; set_solver|done].
Qed.

Lemma scan_children P Q T D s p cs :
  scan_inv (P ++ [p]) Q T D s -> mark_children class_array m p = Some cs -> (forall q, count D q = count (refs P) q) ->
  Forall (fun c => c ∈ L /\ reachable c) cs /\ forall c, c ∈ L -> ext c + count cs c + count D c <= INT32_MAX.
Proof.
  intros Hi Hcs HD.
  assert (HpL : p ∈ L) by (rewrite <- (si_perm _ _ _ _ _ Hi), !elem_of_app; left; left; right; by left).
  assert (Hpr : reachable p) by (apply (si_reach _ _ _ _ _ Hi); set_solver).
  destruct (Hch p HpL) as (cs' & Hcs' & Hall). rewrite Hcs in Hcs'. injection Hcs' as <-. split.
  - apply Forall_forall. rewrite Forall_forall in Hall. intros c Hc. split; [by apply Hall|].
    apply (reach_child _ _ _ _ p); [done|]. by rewrite (children_eq _ _ Hcs).
  - intros c Hc. specialize (Hmax c Hc). rewrite HD.
    assert (Hle : count (refs (P ++ [p])) c <= count (refs L) c).
    { apply (count_refs_le _ (Q ++ T)). rewrite app_assoc. apply (si_perm _ _ _ _ _ Hi). }
    rewrite refs_snoc, count_app, (children_eq _ _ Hcs) in Hle. lia.
Qed.

Lemma gc_scan_loop_spec fuel P Q T D s :
  scan_inv P Q T D s -> (forall p, count D p = count (refs P) p) -> (length Q + length T <= fuel)%nat ->
  exists s' P' T' D', gc_scan_loop class_array m fuel (head Q) s = Ok s' /\ scan_inv P' [] T' D' s' /\
    (forall p, count D' p = count (refs P') p).
Proof.
  revert P Q T D s. induction fuel as [|fuel IH]; intros P Q T D s Hi HD Hf;
    (destruct Q as [|p Q]; [by exists s, P, T, D|]); [simpl in Hf; lia|]. cbn [head gc_scan_loop].
  assert (HpK : p ∈ P ++ p :: Q) by set_solver.
  assert (HpL : p ∈ L) by (rewrite <- (si_perm _ _ _ _ _ Hi), elem_of_app; by left).
  assert (HpP : p ∉ P).
  { pose proof HL as HL'. rewrite <- (si_perm _ _ _ _ _ Hi), <- app_assoc, list.NoDup_app in HL'.
    intros Hx. apply (proj1 (proj2 HL') p Hx). set_solver. }
  destruct (si_header _ _ _ _ _ Hi p HpL) as (mk & Hmk & _ & _).
  assert (Hh : header s p = Ok (mkHeader (ext p + count D p) mk)) by (unfold header; by rewrite Hmk).
  rewrite Hh. cbn [mbind outcome_bind ref_count]. rewrite (proj2 (Z.ltb_lt _ _) (proj1 (si_live _ _ _ _ _ Hi p HpL) HpK)).
  cbn [assert_ mbind outcome_bind]. destruct (scan_inv_front _ _ _ _ _ _ Hi) as (s1 & Hs1 & Hi1). rewrite Hs1. cbn [mbind outcome_bind].
  destruct (Hch p HpL) as (cs & Hcs & _). destruct (scan_children _ _ _ _ _ _ _ Hi1 Hcs HD) as [Hall Hle].
  destruct (call_incref_spec _ _ _ _ _ _ Hi1 Hall Hle) as (s2 & Q' & T' & Hs2 & Hi2).
  unfold mark_children_with. rewrite Hcs. cbn [of_opt mbind outcome_bind]. rewrite Hs2. cbn [mbind outcome_bind].
  rewrite (si_gc _ _ _ _ _ Hi2), <- (app_assoc P). cbn [app]. rewrite list_next_mid by done. cbn [of_opt mbind outcome_bind].
  apply (IH _ _ _ _ _ Hi2).
  - intros q. rewrite refs_snoc, (children_eq _ _ Hcs), !count_app, HD.
    rewrite (count_perm (rev cs) cs q) by (symmetry; apply Permutation_rev). lia.
  - pose proof (Permutation_length (si_perm _ _ _ _ _ Hi)) as Hl1. pose proof (Permutation_length (si_perm _ _ _ _ _ Hi2)) as Hl2.
    rewrite !length_app in *. simpl in *. lia.
Qed.

(** What is kept is what can be reached. *)
Lemma scan_kept P T D s :
  scan_inv P [] T D s -> (forall p, count D p = count (refs P) p) -> forall p, p ∈ P <-> reachable p.
Proof.
  intros Hi HD. pose proof (si_live _ _ _ _ _ Hi) as Hl. pose proof (si_reach _ _ _ _ _ Hi) as Hr. rewrite app_nil_r in Hl, Hr.
  pose proof (si_perm _ _ _ _ _ Hi) as Hp. rewrite app_nil_r in Hp.
  intros p. split; [apply Hr|]. induction 1 as [p HpL He|q p Hq IH Hqp].
  - apply Hl; [done|]. pose proof (count_nonneg D p). lia.
  - assert (HqL : q ∈ L) by (rewrite <- Hp; apply elem_of_app; by left).
    assert (HpL : p ∈ L).
    { destruct (Hch q HqL) as (cs & Hcs & Hall). rewrite Forall_forall in Hall. apply Hall. by rewrite <- (children_eq _ _ Hcs). }
    apply Hl; [done|]. rewrite HD. pose proof (count_refs_child P q p IH Hqp). pose proof (Hext p HpL). lia.
Qed.

(** The second loop of [gc_scan] puts the other references back. *)
Record restore_inv (K T D : list Z) (s : gc_state) : Prop := {
  ri_gc : gc_obj_list s = K;
  ri_tmp : tmp_obj_list s = T;
  ri_header : forall p, p ∈ L -> headers s !! p = Some (mkHeader (ext p + count D p) (if decide (p ∈ K) then 0 else 1)) }.

Lemma call_restore_spec K T cs D s :
  restore_inv K T D s -> Forall (.∈ L) cs -> (forall c, c ∈ L -> ext c + count cs c + count D c <= INT32_MAX) ->
  exists s', call_marks gc_scan_incref_child2 cs s = Ok s' /\ restore_inv K T (rev cs ++ D) s'.
Proof.
  intros Hi Hcs. revert D s Hi. induction Hcs as [|c cs Hc Hcs IH]; intros D s Hi Hle; [by exists s|].
  cbn [call_marks]. change (gc_scan_incref_child2 s c) with (incref s c). destruct Hi as [Hg Ht Hh].
  assert (Hlt : ext c + count D c < INT32_MAX).
  { specialize (Hle c Hc). rewrite count_cons, decide_True in Hle by done. pose proof (count_nonneg cs c). lia. }
  rewrite (incref_spec D s c _ (Hh c Hc) Hlt). cbn [mbind outcome_bind].
  destruct (IH (c :: D) (set_header s c (mkHeader (ext c + count (c :: D) c) (if decide (c ∈ K) then 0 else 1)))) as (s2 & Hs2 & Hi2).
  { split; [done|done|]. intros p HpL. cbn [headers set_header]. apply headers_incref; [auto|]. by intros ->. }
  { intros x Hx. specialize (Hle x Hx). rewrite count_cons in *. lia. }
  exists s2. split; [done|]. cbn [rev]. by rewrite <- app_assoc.
Qed.

Lemma gc_restore_loop_spec K T R P D s :
  restore_inv K T D s -> (forall p, count D p = count (refs P) p) -> P ++ R ≡ₚ L ->
  exists s' D', gc_restore_loop class_array m R s = Ok s' /\ restore_inv K T D' s' /\ (forall p, count D' p = count (refs L) p).
Proof.
  revert P D s. induction R as [|p R IH]; intros P D s Hi HD HP.
  { exists s, D. split_and!; [done|done|]. intros q. rewrite HD. apply count_perm, refs_perm. by rewrite app_nil_r in HP. }
  cbn [gc_restore_loop]. assert (HpL : p ∈ L) by (rewrite <- HP; set_solver).
  destruct (Hch p HpL) as (cs & Hcs & Hall). unfold mark_children_with. rewrite Hcs. cbn [of_opt mbind outcome_bind].
  assert (HP' : (P ++ [p]) ++ R ≡ₚ L) by (by rewrite <- app_assoc).
  destruct (call_restore_spec K T cs D s Hi Hall) as (s1 & Hs1 & Hi1).
  { intros c Hc. specialize (Hmax c Hc). pose proof (count_refs_le _ _ _ c HP') as Hle.
    rewrite refs_snoc, count_app, (children_eq _ _ Hcs) in Hle. rewrite HD. lia. }
  rewrite Hs1. cbn [mbind outcome_bind]. apply (IH (P ++ [p]) (rev cs ++ D) s1 Hi1); [|done].
  intros q. rewrite refs_snoc, (children_eq _ _ Hcs), !count_app, HD.
  rewrite (count_perm (rev cs) cs q) by (symmetry; apply Permutation_rev). lia.
Qed.
End Scan.

(** ** The two passes together *)

Lemma gc_decref_spec ext s :
  gc_wf class_array m ext s ->
  exists s1, gc_decref class_array m s = Ok s1 /\
    scan_inv (gc_obj_list s) ext [] (gc_obj_list s1) (tmp_obj_list s1) [] s1.
Proof.
  intros [HL Hch Hh Hext]. set (L := gc_obj_list s) in *. pose (rc0 := fun p => ext p + count (refs L) p).
  destruct (gc_decref_loop_spec L rc0 HL Hch) with (R := L) (P := @nil Z) (D := @nil Z) (s := mkGc (headers s) L [])
    as (s1 & D & Hs1 & [_ Hh1 Hp1 Hg1 Ht1] & HD).
  { intros p Hp. specialize (Hext p Hp). unfold rc0. lia. }
  { split; cbn [headers gc_obj_list tmp_obj_list]; try done.
    - intros p Hp. destruct (Hh p Hp) as (rc & Hrc & -> & _). rewrite Hrc, decide_False by apply not_elem_of_nil.
      f_equal. f_equal. unfold rc0, count. simpl. lia.
    - intros p Hp. specialize (Hext p Hp). unfold rc0, count. simpl. lia. }
  { done. }
  exists s1. split; [done|]. assert (Hrc : forall p, rc0 p - count D p = ext p) by (intros p; rewrite HD; unfold rc0; lia).
  assert (Hg : forall p, p ∈ gc_obj_list s1 <-> 0 < ext p /\ p ∈ L).
  { intros p. by rewrite Hg1, app_nil_r, list_elem_of_filter, Hrc. }
  assert (Ht : forall p, p ∈ tmp_obj_list s1 <-> ext p = 0 /\ p ∈ L).
  { intros p. by rewrite Ht1, list_elem_of_filter, Hrc. }
  split; cbn [app]; try done.
  - rewrite Ht1, Hg1, app_nil_r. rewrite <- (filter_app_complement (fun p => 0 < rc0 p - count D p) L) at 3. f_equiv.
    rewrite (filter_ext_in _ (fun p => ~ 0 < rc0 p - count D p)); [done|]. intros p Hp. specialize (Hp1 p Hp). lia.
  - intros p Hp. exists 1. rewrite (Hh1 p Hp), decide_True, Hrc by done. split_and!; [|by intros ?%not_elem_of_nil|done].
    f_equal. f_equal. unfold count. simpl. lia.
  - intros p Hp. rewrite Hg. unfold count. simpl. rewrite Z.add_0_r. tauto.
  - intros p Hp. apply Hg in Hp as [He Hp]. by apply reach_root.
Qed.

Lemma gc_passes_spec ext s :
  gc_wf class_array m ext s ->
  exists s', (s1 ← gc_decref class_array m s; gc_scan class_array m s1) = Ok s' /\
    gc_obj_list s' ++ tmp_obj_list s' ≡ₚ gc_obj_list s /\
    (forall p, p ∈ gc_obj_list s' <-> reachable class_array m ext (gc_obj_list s) p) /\
    (forall p, p ∈ gc_obj_list s -> exists rc, headers s !! p = Some (mkHeader rc 0) /\
      headers s' !! p = Some (mkHeader rc (if decide (p ∈ gc_obj_list s') then 0 else 1))).
Proof.
  intros Hwf. destruct (gc_decref_spec ext s Hwf) as (s1 & Hs1 & Hi1). destruct Hwf as [HL Hch Hh Hext].
  assert (Hmax : forall p, p ∈ gc_obj_list s -> ext p + count (refs (gc_obj_list s)) p <= INT32_MAX).
  { intros p Hp. destruct (Hh p Hp) as (rc & _ & -> & ?). done. }
  rewrite Hs1. cbn [mbind outcome_bind]. unfold gc_scan.
  destruct (gc_scan_loop_spec _ _ HL Hch Hext Hmax _ _ _ _ _ _ Hi1 (fun p => eq_refl) (Nat.le_refl _)) as (s2 & P & T & D & Hs2 & Hi2 & HD).
  rewrite Hs2. cbn [mbind outcome_bind]. pose proof (scan_kept _ _ Hch Hext _ _ _ _ Hi2 HD) as Hkept.
  pose proof (si_perm _ _ _ _ _ _ _ Hi2) as Hperm. pose proof (si_tmp _ _ _ _ _ _ _ Hi2) as Htmp.
  pose proof (si_gc _ _ _ _ _ _ _ Hi2) as Hgc. rewrite app_nil_r in Hperm, Hgc. rewrite Htmp.
  assert (Hri : restore_inv (gc_obj_list s) ext P T D s2).
  { split; [done|done|]. intros p Hp. destruct (si_header _ _ _ _ _ _ _ Hi2 p Hp) as (mk & Hmk & HmP & HmT). rewrite Hmk.
    f_equal. f_equal. destruct (decide (p ∈ P)) as [HpP|HpP]; [auto|]. apply HmT. rewrite <- Hperm, elem_of_app in Hp. tauto. }
  destruct (gc_restore_loop_spec _ _ HL Hch Hext Hmax P T T P D s2 Hri HD Hperm) as (s3 & D' & Hs3 & [Hg3 Ht3 Hh3] & HD').
  exists s3. rewrite Hg3, Ht3. split_and!; try done.
  intros p Hp. destruct (Hh p Hp) as (rc & Hrc & -> & _). exists (ext p + count (refs (gc_obj_list s)) p).
  split; [done|]. by rewrite (Hh3 p Hp), HD'.
Qed.
End Proofs.

(** ** Properties *)


(** Four objects of one shape: 1 is in use and refers to 2; 3 and 4 refer to each other,
    3 through an array. *)
Definition gc_example_heap : heap :=
  <[100 := JS_GC_OBJ_TYPE_SHAPE {| sh_proto := 0; sh_prop := [{| prs_flags := 7; prs_atom := 5 |}] |}]>
  (<[1 := JS_GC_OBJ_TYPE_JS_OBJECT {| obj_class_id := JS_CLASS_OBJECT; obj_shape := 100;
            obj_prop := [PROP_value (JS_MKPTR JS_TAG_OBJECT 2)]; obj_u := U_none |}]>
  (<[2 := JS_GC_OBJ_TYPE_JS_OBJECT {| obj_class_id := JS_CLASS_OBJECT; obj_shape := 100;
            obj_prop := [PROP_value JS_UNDEFINED]; obj_u := U_none |}]>
  (<[3 := JS_GC_OBJ_TYPE_JS_OBJECT {| obj_class_id := JS_CLASS_ARRAY; obj_shape := 100;
            obj_prop := [PROP_value (JS_MKPTR JS_TAG_INT 1)]; obj_u := U_array [JS_MKPTR JS_TAG_OBJECT 4] 1 |}]>
  (<[4 := JS_GC_OBJ_TYPE_JS_OBJECT {| obj_class_id := JS_CLASS_OBJECT; obj_shape := 100;
            obj_prop := [PROP_value (JS_MKPTR JS_TAG_OBJECT 3)]; obj_u := U_none |}]> ∅)))).

Definition gc_example_state : gc_state :=
  add_gc_object (add_gc_object (add_gc_object (add_gc_object (add_gc_object (mkGc ∅ [] []) 100 4) 4 1) 1 1) 3 1) 2 1.

Definition gc_example_ext (p : Z) : Z := if p =? 1 then 1 else 0.

Lemma gc_example_wf : gc_wf std_classes gc_example_heap gc_example_ext gc_example_state.
Proof.
  split.
  - change (NoDup [100; 4; 1; 3; 2]). by apply (bool_decide_eq_true_1 _).
  - intros p Hp. change (p ∈ [100; 4; 1; 3; 2]) in Hp.
    change (exists cs, mark_children std_classes gc_example_heap p = Some cs /\ Forall (.∈ [100; 4; 1; 3; 2]) cs).
    rewrite !elem_of_cons, elem_of_nil in Hp.
    destruct Hp as [->|[->|[->|[->|[->|[]]]]]]; (eexists; split; [vm_compute; reflexivity|]);
      repeat constructor; by apply (bool_decide_eq_true_1 _).
  - intros p Hp. change (p ∈ [100; 4; 1; 3; 2]) in Hp. rewrite !elem_of_cons, elem_of_nil in Hp.
    destruct Hp as [->|[->|[->|[->|[->|[]]]]]]; (eexists; split; [vm_compute; reflexivity|]);
      split; vm_compute; congruence.
  - intros p _. unfold gc_example_ext. destruct (p =? 1); lia.
Qed.


(** The garbage of the example is found. *)
Example gc_example_run :
  (s1 ← gc_decref std_classes gc_example_heap gc_example_state; gc_scan std_classes gc_example_heap s1) ≫=
    (fun s => Ok (gc_obj_list s, tmp_obj_list s)) = Ok ([1; 100; 2], [4; 3]).
Proof. vm_compute. reflexivity. Qed.
