(* ===== verification/RegexpCode.v ===== *)
(** The regexp bytecode of [libregexp.c] and [libregexp-opcode.h]: opcodes, their
    sizes, the header, and the analyses the compiler makes on emitted code. *)

From S2P Require Import Prelude CutilsH.

(** ** Opcodes *)

Inductive REOPCodeEnum :=
  | REOP_invalid | REOP_char | REOP_char32 | REOP_dot | REOP_any | REOP_line_start | REOP_line_end
  | REOP_goto | REOP_split_goto_first | REOP_split_next_first | REOP_match
  | REOP_save_start | REOP_save_end | REOP_save_reset | REOP_loop | REOP_push_i32 | REOP_drop
  | REOP_word_boundary | REOP_not_word_boundary | REOP_back_reference
  | REOP_backward_back_reference | REOP_range | REOP_range32 | REOP_lookahead
  | REOP_negative_lookahead | REOP_push_char_pos | REOP_check_advance | REOP_prev
  | REOP_simple_greedy_quant.

#[export] Instance REOPCodeEnum_eq_dec : EqDecision REOPCodeEnum.
Proof. solve_decision. Defined.

(** The opcodes in the order of [libregexp-opcode.h]; the code is the index. *)
Definition reopcodes : list REOPCodeEnum :=
  [REOP_invalid; REOP_char; REOP_char32; REOP_dot; REOP_any; REOP_line_start; REOP_line_end;
   REOP_goto; REOP_split_goto_first; REOP_split_next_first; REOP_match;
   REOP_save_start; REOP_save_end; REOP_save_reset; REOP_loop; REOP_push_i32; REOP_drop;
   REOP_word_boundary; REOP_not_word_boundary; REOP_back_reference;
   REOP_backward_back_reference; REOP_range; REOP_range32; REOP_lookahead;
   REOP_negative_lookahead; REOP_push_char_pos; REOP_check_advance; REOP_prev;
   REOP_simple_greedy_quant].

Definition REOP_COUNT : Z := zlen reopcodes.

(** The byte of an opcode and the opcode of a byte. *)
Definition op2z (op : REOPCodeEnum) : Z :=
  match op with
  | REOP_invalid => 0 | REOP_char => 1 | REOP_char32 => 2 | REOP_dot => 3 | REOP_any => 4
  | REOP_line_start => 5 | REOP_line_end => 6 | REOP_goto => 7 | REOP_split_goto_first => 8
  | REOP_split_next_first => 9 | REOP_match => 10 | REOP_save_start => 11 | REOP_save_end => 12
  | REOP_save_reset => 13 | REOP_loop => 14 | REOP_push_i32 => 15 | REOP_drop => 16
  | REOP_word_boundary => 17 | REOP_not_word_boundary => 18 | REOP_back_reference => 19
  | REOP_backward_back_reference => 20 | REOP_range => 21 | REOP_range32 => 22
  | REOP_lookahead => 23 | REOP_negative_lookahead => 24 | REOP_push_char_pos => 25
  | REOP_check_advance => 26 | REOP_prev => 27 | REOP_simple_greedy_quant => 28
  end.

Definition z2op (z : Z) : option REOPCodeEnum := zget reopcodes z.

(** [reopcode_info[op].size]. *)
Definition reop_size (op : REOPCodeEnum) : Z :=
  match op with
  | REOP_char | REOP_save_reset | REOP_range | REOP_range32 => 3
  | REOP_char32 | REOP_goto | REOP_split_goto_first | REOP_split_next_first | REOP_loop
  | REOP_push_i32 | REOP_lookahead | REOP_negative_lookahead => 5
  | REOP_save_start | REOP_save_end | REOP_back_reference | REOP_backward_back_reference => 2
  | REOP_simple_greedy_quant => 17
  | _ => 1
  end.

Definition CAPTURE_COUNT_MAX : Z := 255.
Definition STACK_SIZE_MAX : Z := 255.
Definition TMP_BUF_SIZE : Z := 128.

Definition RE_HEADER_FLAGS : Z := 0.
Definition RE_HEADER_CAPTURE_COUNT : Z := 1.
Definition RE_HEADER_STACK_SIZE : Z := 2.
Definition RE_HEADER_BYTECODE_LEN : Z := 3.
Definition RE_HEADER_LEN : Z := 7.

Definition LRE_FLAG_GLOBAL : Z := 1 ≪ 0.
Definition LRE_FLAG_IGNORECASE : Z := 1 ≪ 1.
Definition LRE_FLAG_MULTILINE : Z := 1 ≪ 2.
Definition LRE_FLAG_DOTALL : Z := 1 ≪ 3.
Definition LRE_FLAG_UNICODE : Z := 1 ≪ 4.
Definition LRE_FLAG_STICKY : Z := 1 ≪ 5.
Definition LRE_FLAG_INDICES : Z := 1 ≪ 6.
Definition LRE_FLAG_NAMED_GROUPS : Z := 1 ≪ 7.

Definition is_digit (c : Z) : bool := (48 <=? c) && (c <=? 57).

(** ** Analyses of emitted code *)

(** The length of the instruction at [pos], with the variable part of ranges;
    [None] is a read outside the code or an invalid opcode. *)
Definition reop_len (bc : list Z) (pos : Z) : option (REOPCodeEnum * Z) :=
  b ← zget bc pos;
  op ← z2op b;
  match op with
  | REOP_range => val ← get_u16 bc (pos + 1); Some (op, reop_size op + val * 4)
  | REOP_range32 => val ← get_u16 bc (pos + 1); Some (op, reop_size op + val * 8)
  | _ => Some (op, reop_size op)
  end.

(** [re_need_check_advance]: true if the code may not advance the character
    pointer. *)
Fixpoint re_need_check_advance_loop (fuel : nat) (bc : list Z) (pos : Z) (ret : bool) : option bool :=
  match fuel with
  | O => None
  | S fuel' =>
      if pos <? zlen bc then
        '(op, len) ← reop_len bc pos;
        match op with
        | REOP_range | REOP_range32 | REOP_char | REOP_char32 | REOP_dot | REOP_any =>
            re_need_check_advance_loop fuel' bc (pos + len) false
        | REOP_line_start | REOP_line_end | REOP_push_i32 | REOP_push_char_pos | REOP_drop
        | REOP_word_boundary | REOP_not_word_boundary | REOP_prev
        | REOP_save_start | REOP_save_end | REOP_save_reset
        | REOP_back_reference | REOP_backward_back_reference =>
            re_need_check_advance_loop fuel' bc (pos + len) ret
        | _ => Some true
        end
      else Some ret
  end.

Definition re_need_check_advance (bc : list Z) : option bool :=
  re_need_check_advance_loop (S (length bc)) bc 0 true.

(** [re_is_simple_quantifier]: -1 if a simple quantifier cannot be used, otherwise
    the number of characters of the atom. *)
Fixpoint re_is_simple_quantifier_loop (fuel : nat) (bc : list Z) (pos count : Z) : option Z :=
  match fuel with
  | O => None
  | S fuel' =>
      if pos <? zlen bc then
        '(op, len) ← reop_len bc pos;
        match op with
        | REOP_range | REOP_range32 | REOP_char | REOP_char32 | REOP_dot | REOP_any =>
            re_is_simple_quantifier_loop fuel' bc (pos + len) (count + 1)
        | REOP_line_start | REOP_line_end | REOP_word_boundary | REOP_not_word_boundary =>
            re_is_simple_quantifier_loop fuel' bc (pos + len) count
        | _ => Some (-1)
        end
      else Some count
  end.

Definition re_is_simple_quantifier (bc : list Z) : option Z :=
  re_is_simple_quantifier_loop (S (length bc)) bc 0 0.

(** [compute_stack_size]: the number of stack slots the code needs, -1 above
    [STACK_SIZE_MAX]; the code starts after the header.  [None] is a failed
    assertion or a read outside the code. *)
Fixpoint compute_stack_size_loop (fuel : nat) (bc : list Z) (pos stack_size stack_size_max : Z) : option Z :=
  match fuel with
  | O => None
  | S fuel' =>
      if pos <? zlen bc then
        '(op, len) ← reop_len bc pos;
        if zlen bc <? pos + reop_size op then None
        else match op with
        | REOP_push_i32 | REOP_push_char_pos =>
            let stack_size := stack_size + 1 in
            if stack_size_max <? stack_size then
              if STACK_SIZE_MAX <? stack_size then Some (-1)
              else compute_stack_size_loop fuel' bc (pos + len) stack_size stack_size
            else compute_stack_size_loop fuel' bc (pos + len) stack_size stack_size_max
        | REOP_drop | REOP_check_advance =>
            if stack_size <=? 0 then None
            else compute_stack_size_loop fuel' bc (pos + len) (stack_size - 1) stack_size_max
        | _ => compute_stack_size_loop fuel' bc (pos + len) stack_size stack_size_max
        end
      else Some stack_size_max
  end.

Definition compute_stack_size (bc_buf : list Z) : option Z :=
  let bc := drop (Z.to_nat RE_HEADER_LEN) bc_buf in
  compute_stack_size_loop (S (length bc)) bc 0 0 0.

(** ** Basic facts *)

Lemma z2op_op2z op : z2op (op2z op) = Some op.
Proof. by destruct op. Qed.

Lemma z2op_Some z op : z2op z = Some op -> z = op2z op.
Proof.
  unfold z2op. intros H. pose proof (zget_Some_range _ _ _ H) as Hr.
  assert (Hz : In z (map Z.of_nat (seq 0 29))).
  { apply in_map_iff. exists (Z.to_nat z). split; [lia|]. apply in_seq. unfold zlen in Hr. simpl in Hr. lia. }
  simpl in Hz. repeat destruct Hz as [<-|Hz]; try (by injection H as <-). done.
Qed.

Lemma op2z_byte op : is_byte (op2z op).
Proof. by destruct op. Qed.

Lemma reop_size_pos op : 1 <= reop_size op.
Proof. destruct op; simpl; lia. Qed.
#[export] Hint Resolve z2op_op2z op2z_byte reop_size_pos : cmach.
