(* ===== verification/RegexpExec.v ===== *)
(** The backtracking matcher of [libregexp.c]: the character macros, the state
    stack, every bytecode instruction and [lre_exec_backtrack]/[lre_exec].

    The subject is a list of code units and a character pointer an index into it;
    [pc] is an index into the bytecode (header included).  [Stuck] stands for an
    access outside the bytecode, the subject, the capture array or the backtrack
    stack, for a read of an uninitialised stack slot, for a failed [assert] and for
    [abort()]. *)

From S2P Require Import Prelude CutilsH CaseConv RegexpCode DynBuf.

Definition CP_LS : Z := 0x2028.
Definition CP_PS : Z := 0x2029.

Definition is_line_terminator (c : Z) : bool :=
  (c =? 10) || (c =? 13) || (c =? CP_LS) || (c =? CP_PS).

Definition is_word_char (c : Z) : bool :=
  ((48 <=? c) && (c <=? 57)) || ((97 <=? c) && (c <=? 122)) ||
  ((65 <=? c) && (c <=? 90)) || (c =? 95).

(** ** Reading characters *)

Section Chars.
Context (cbuf_type : Z) (cbuf : list Z).

(** [GET_CHAR(c, cptr, cbuf_end, cbuf_type)]: the character and the new pointer. *)
Definition GET_CHAR (cptr cbuf_end : Z) : option (Z * Z) :=
  c ← zget cbuf cptr;
  if cbuf_type =? 0 then Some (c, cptr + 1)
  else
    let p := cptr + 1 in
    if is_hi_surrogate c && (cbuf_type =? 2) && (p <? cbuf_end) then
      lo ← zget cbuf p;
      if is_lo_surrogate lo then Some (from_surrogate c lo, p + 1) else Some (c, p)
    else Some (c, p).

Definition PEEK_CHAR (cptr cbuf_end : Z) : option Z :=
  c ← zget cbuf cptr;
  if cbuf_type =? 0 then Some c
  else
    let p := cptr + 1 in
    if is_hi_surrogate c && (cbuf_type =? 2) && (p <? cbuf_end) then
      lo ← zget cbuf p;
      if is_lo_surrogate lo then Some (from_surrogate c lo) else Some c
    else Some c.

Definition PEEK_PREV_CHAR (cptr cbuf_start : Z) : option Z :=
  let p := cptr - 1 in
  c ← zget cbuf p;
  if cbuf_type =? 0 then Some c
  else if is_lo_surrogate c && (cbuf_type =? 2) && (cbuf_start <? p) then
    hi ← zget cbuf (p - 1);
    if is_hi_surrogate hi then Some (from_surrogate hi c) else Some c
  else Some c.

Definition GET_PREV_CHAR (cptr cbuf_start : Z) : option (Z * Z) :=
  let p := cptr - 1 in
  c ← zget cbuf p;
  if cbuf_type =? 0 then Some (c, p)
  else if is_lo_surrogate c && (cbuf_type =? 2) && (cbuf_start <? p) then
    hi ← zget cbuf (p - 1);
    if is_hi_surrogate hi then Some (from_surrogate hi c, p - 1) else Some (c, p)
  else Some (c, p).

(** [PREV_CHAR]; a pointer before the start of the subject is undefined. *)
Definition PREV_CHAR (cptr cbuf_start : Z) : option Z :=
  let p := cptr - 1 in
  if cbuf_type =? 0 then if p <? 0 then None else Some p
  else
    c ← zget cbuf p;
    if is_lo_surrogate c && (cbuf_type =? 2) && (cbuf_start <? p) then
      hi ← zget cbuf (p - 1);
      if is_hi_surrogate hi then Some (p - 1) else Some p
    else Some p.

(** [for (i = 0; i < char_count; i++) PREV_CHAR(...)]. *)
Fixpoint prev_chars (n : nat) (cptr cbuf_start : Z) : option Z :=
  match n with
  | O => Some cptr
  | S n' => p ← PREV_CHAR cptr cbuf_start; prev_chars n' p cbuf_start
  end.
End Chars.

(** ** The state of the matcher *)

Inductive REExecStateEnum :=
  | RE_EXEC_STATE_SPLIT
  | RE_EXEC_STATE_LOOKAHEAD
  | RE_EXEC_STATE_NEGATIVE_LOOKAHEAD
  | RE_EXEC_STATE_GREEDY_QUANT.

(** A saved state; [buf] holds the captures, then the saved stack. *)
Record REExecState := {
  rs_type : REExecStateEnum;
  rs_stack_len : Z;
  rs_count : Z;
  rs_cptr : Z;
  rs_pc : Z;
  rs_capture : list (option Z);
  rs_stack : list (option Z)
}.

(** The fields of [REExecContext] that [lre_exec] sets once, with the bytecode. *)
Record REExecContext := {
  bc : list Z;
  cbuf : list Z;
  cbuf_type : Z;
  capture_count : Z;
  stack_size_max : Z;
  multi_line : bool;
  ignore_case : bool;
  is_unicode : bool;
  state_size : Z
}.

Definition cbuf_end (s : REExecContext) : Z := zlen (cbuf s).

(** The part that changes: the capture array ([None] is [NULL]), the stack array
    ([None] is an uninitialised slot), the state stack (top first) with its
    allocated size and the allocator's state. *)
Record REExecData `{Allocator} := {
  capture : list (option Z);
  stack : list (option Z);
  state_stack : list REExecState;
  state_stack_size : Z;
  re_opaque : aopaque
}.

(** What one instruction does. *)
Inductive step_result `{Allocator} :=
  | SNext (pc cptr stack_len : Z) (d : REExecData)
  | SNoMatch (d : REExecData)
  | SError (d : REExecData).

(** [lre_exec_backtrack] returns 1, 0, -1, or the pointer when [no_recurse]. *)
Inductive exec_result :=
  | RetMatch
  | RetNoMatch
  | RetError
  | RetCptr (cptr : Z).

Section Exec.
Context `{Allocator} (s : REExecContext).

Definition set_capture (c : list (option Z)) (d : REExecData) : REExecData :=
  {| capture := c; stack := stack d; state_stack := state_stack d;
     state_stack_size := state_stack_size d; re_opaque := re_opaque d |}.

Definition set_stack (st : list (option Z)) (d : REExecData) : REExecData :=
  {| capture := capture d; stack := st; state_stack := state_stack d;
     state_stack_size := state_stack_size d; re_opaque := re_opaque d |}.

Definition set_states (l : list REExecState) (d : REExecData) : REExecData :=
  {| capture := capture d; stack := stack d; state_stack := l;
     state_stack_size := state_stack_size d; re_opaque := re_opaque d |}.

(** *** The state stack *)

(** [push_state]: grows the state stack when it is full; false is the -1 of an
    allocation failure. *)
Definition push_state (stack_len pc cptr : Z) (type : REExecStateEnum) (count : Z)
    (d : REExecData) : outcome (bool * REExecData) :=
  let grown :=
    if state_stack_size d <? zlen (state_stack d) + 1 then
      let new_size := u64 (state_stack_size d * 3) / 2 in
      let new_size := if new_size <? 8 then 8 else new_size in
      let '(o, r) := realloc_func (re_opaque d) (u64 (new_size * state_size s)) in
      match r with
      | None => (false, {| capture := capture d; stack := stack d; state_stack := state_stack d;
                           state_stack_size := state_stack_size d; re_opaque := o |})
      | Some _ => (true, {| capture := capture d; stack := stack d; state_stack := state_stack d;
                            state_stack_size := new_size; re_opaque := o |})
      end
    else (true, d) in
  match grown with
  | (false, d) => Ok (false, d)
  | (true, d) =>
      c ← of_opt (zslice (capture d) 0 (2 * capture_count s));
      st ← of_opt (zslice (stack d) 0 stack_len);
      let rs := {| rs_type := type; rs_stack_len := u8 stack_len; rs_count := count;
                   rs_cptr := cptr; rs_pc := pc; rs_capture := c; rs_stack := st |} in
      Ok (true, set_states (rs :: state_stack d) d)
  end.

(** [memcpy(capture, rs->buf, ...)] and [memcpy(stack, rs->buf + n, ...)]. *)
Definition restore_capture (rs : REExecState) (d : REExecData) : outcome REExecData :=
  c ← of_opt (zsplice (capture d) 0 (rs_capture rs));
  Ok (set_capture c d).

Definition restore_stack (rs : REExecState) (d : REExecData) : outcome REExecData :=
  b ← of_opt (zslice (rs_stack rs) 0 (rs_stack_len rs));
  st ← of_opt (zsplice (stack d) 0 b);
  Ok (set_stack st d).

(** The outcome of the loop at [recurse:]: the stack was emptied, or a state was
    resumed. *)
Inductive recurse_result :=
  | RDone (ret : bool) (d : REExecData)
  | RResume (pc cptr stack_len : Z) (d : REExecData).

(** [pop_state1:]. *)
Definition pop_state1 (rs : REExecState) (rest : list REExecState) (d : REExecData) : outcome recurse_result :=
  d ← restore_stack rs d;
  Ok (RResume (rs_pc rs) (rs_cptr rs) (rs_stack_len rs) (set_states rest d)).

(** [pop_state:]. *)
Definition pop_state (rs : REExecState) (rest : list REExecState) (d : REExecData) : outcome recurse_result :=
  d ← restore_capture rs d;
  pop_state1 rs rest d.

(** The [RE_EXEC_STATE_GREEDY_QUANT] case when the last attempt failed. *)
Definition greedy_retry (rs : REExecState) (rest : list REExecState) (d : REExecData) : outcome recurse_result :=
  d ← restore_capture rs d;
  d ← restore_stack rs d;
  let pc := rs_pc rs in
  char_count ← of_opt (get_u32 (bc s) (pc + 12));
  cptr ← of_opt (prev_chars (cbuf_type s) (cbuf s) (Z.to_nat char_count) (rs_cptr rs) 0);
  off ← of_opt (get_u32 (bc s) pc);
  let count := u64 (rs_count rs - 1) in
  let rs' := {| rs_type := rs_type rs; rs_stack_len := rs_stack_len rs; rs_count := count;
                rs_cptr := cptr; rs_pc := rs_pc rs; rs_capture := rs_capture rs;
                rs_stack := rs_stack rs |} in
  Ok (RResume (pc + 16 + i32 off) cptr (rs_stack_len rs)
        (set_states (if count =? 0 then rest else rs' :: rest) d)).

(** The loop at [recurse:]. *)
Fixpoint recurse_loop (ret : bool) (states : list REExecState) (d : REExecData) : outcome recurse_result :=
  match states with
  | [] => Ok (RDone ret (set_states [] d))
  | rs :: rest =>
      match rs_type rs with
      | RE_EXEC_STATE_SPLIT => if ret then recurse_loop ret rest d else pop_state rs rest d
      | RE_EXEC_STATE_GREEDY_QUANT => if ret then recurse_loop ret rest d else greedy_retry rs rest d
      | RE_EXEC_STATE_LOOKAHEAD => if ret then pop_state1 rs rest d else recurse_loop false rest d
      | RE_EXEC_STATE_NEGATIVE_LOOKAHEAD => if ret then recurse_loop false rest d else pop_state rs rest d
      end
  end.

(** *** Instructions that consume a character *)

(** The character at [cptr], in canonical form when case is ignored. *)
Definition canon (c : Z) : Z := if ignore_case s then lre_canonicalize c (is_unicode s) else c.

Definition get_char (cptr : Z) : outcome (Z * Z) :=
  of_opt (GET_CHAR (cbuf_type s) (cbuf s) cptr (cbuf_end s)).

(** [test_char:]. *)
Definition test_char (val pc cptr stack_len : Z) (d : REExecData) : outcome step_result :=
  if cbuf_end s <=? cptr then Ok (SNoMatch d)
  else
    '(c, cptr) ← get_char cptr;
    if val =? canon c then Ok (SNext pc cptr stack_len d) else Ok (SNoMatch d).

Definition op_dot (pc cptr stack_len : Z) (d : REExecData) : outcome step_result :=
  if cptr =? cbuf_end s then Ok (SNoMatch d)
  else
    '(c, cptr) ← get_char cptr;
    if is_line_terminator c then Ok (SNoMatch d) else Ok (SNext pc cptr stack_len d).

Definition op_any (pc cptr stack_len : Z) (d : REExecData) : outcome step_result :=
  if cptr =? cbuf_end s then Ok (SNoMatch d)
  else
    '(c, cptr) ← get_char cptr;
    Ok (SNext pc cptr stack_len d).

(** The binary search of [REOP_range] and [REOP_range32]; [get] reads a bound and
    [sz] is the size of a bound. *)
Section RangeSearch.
Context (get : list Z -> Z -> option Z) (sz : Z).

Fixpoint range_search (fuel : nat) (pc c idx_min idx_max : Z) : outcome bool :=
  match fuel with
  | O => Timeout
  | S fuel' =>
      if idx_min <=? idx_max then
        let idx := u32 (idx_min + idx_max) / 2 in
        low ← of_opt (get (bc s) (pc + u32 (idx * (2 * sz))));
        high ← of_opt (get (bc s) (pc + u32 (idx * (2 * sz) + sz)));
        if c <? low then range_search fuel' pc c idx_min (u32 (idx - 1))
        else if high <? c then range_search fuel' pc c (u32 (idx + 1)) idx_max
        else Ok true
      else Ok false
  end.
End RangeSearch.

Definition op_range (pc cptr stack_len : Z) (d : REExecData) : outcome step_result :=
  n ← of_opt (get_u16 (bc s) pc);
  let pc := pc + 2 in
  if cbuf_end s <=? cptr then Ok (SNoMatch d)
  else
    '(c, cptr) ← get_char cptr;
    let c := canon c in
    low ← of_opt (get_u16 (bc s) pc);
    if c <? low then Ok (SNoMatch d)
    else
      let idx_max := u32 (n - 1) in
      high ← of_opt (get_u16 (bc s) (pc + u32 (idx_max * 4 + 2)));
      if (0xffff <=? c) && (high =? 0xffff) then Ok (SNext (pc + 4 * n) cptr stack_len d)
      else if high <? c then Ok (SNoMatch d)
      else
        found ← range_search get_u16 2 (S (Z.to_nat n)) pc c 0 idx_max;
        if found : bool then Ok (SNext (pc + 4 * n) cptr stack_len d) else Ok (SNoMatch d).

Definition op_range32 (pc cptr stack_len : Z) (d : REExecData) : outcome step_result :=
  n ← of_opt (get_u16 (bc s) pc);
  let pc := pc + 2 in
  if cbuf_end s <=? cptr then Ok (SNoMatch d)
  else
    '(c, cptr) ← get_char cptr;
    let c := canon c in
    low ← of_opt (get_u32 (bc s) pc);
    if c <? low then Ok (SNoMatch d)
    else
      let idx_max := u32 (n - 1) in
      high ← of_opt (get_u32 (bc s) (pc + u32 (idx_max * 8 + 4)));
      if high <? c then Ok (SNoMatch d)
      else
        found ← range_search get_u32 4 (S (Z.to_nat n)) pc c 0 idx_max;
        if found : bool then Ok (SNext (pc + 8 * n) cptr stack_len d) else Ok (SNoMatch d).

(** *** Assertions *)

Definition op_line_start (pc cptr stack_len : Z) (d : REExecData) : outcome step_result :=
  if cptr =? 0 then Ok (SNext pc cptr stack_len d)
  else if negb (multi_line s) then Ok (SNoMatch d)
  else
    c ← of_opt (PEEK_PREV_CHAR (cbuf_type s) (cbuf s) cptr 0);
    if is_line_terminator c then Ok (SNext pc cptr stack_len d) else Ok (SNoMatch d).

Definition op_line_end (pc cptr stack_len : Z) (d : REExecData) : outcome step_result :=
  if cptr =? cbuf_end s then Ok (SNext pc cptr stack_len d)
  else if negb (multi_line s) then Ok (SNoMatch d)
  else
    c ← of_opt (PEEK_CHAR (cbuf_type s) (cbuf s) cptr (cbuf_end s));
    if is_line_terminator c then Ok (SNext pc cptr stack_len d) else Ok (SNoMatch d).

(** [not] is true for [REOP_not_word_boundary]: [REOP_not_word_boundary - opcode]
    is then 0, and 1 for [REOP_word_boundary]. *)
Definition op_word_boundary (not : bool) (pc cptr stack_len : Z) (d : REExecData) : outcome step_result :=
  v1 ← (if cptr =? 0 then Ok false
        else c ← of_opt (PEEK_PREV_CHAR (cbuf_type s) (cbuf s) cptr 0); Ok (is_word_char c));
  v2 ← (if cbuf_end s <=? cptr then Ok false
        else c ← of_opt (PEEK_CHAR (cbuf_type s) (cbuf s) cptr (cbuf_end s)); Ok (is_word_char c));
  if xorb (xorb v1 v2) (negb not) then Ok (SNoMatch d) else Ok (SNext pc cptr stack_len d).

(** *** Captures and back references *)

Definition op_save (which val pc cptr stack_len : Z) (d : REExecData) : outcome step_result :=
  assert_ (val <? capture_count s) ;;
  c ← of_opt (zset (capture d) (2 * val + which) (Some cptr));
  Ok (SNext pc cptr stack_len (set_capture c d)).

Fixpoint save_reset_loop (n : nat) (val : Z) (c : list (option Z)) : option (list (option Z)) :=
  match n with
  | O => Some c
  | S n' =>
      c ← zset c (2 * val) None;
      c ← zset c (2 * val + 1) None;
      save_reset_loop n' (val + 1) c
  end.

Definition op_save_reset (pc cptr stack_len : Z) (d : REExecData) : outcome step_result :=
  val ← of_opt (zget (bc s) pc);
  val2 ← of_opt (zget (bc s) (pc + 1));
  assert_ (val2 <? capture_count s) ;;
  c ← of_opt (save_reset_loop (Z.to_nat (val2 - val + 1)) val (capture d));
  Ok (SNext (pc + 2) cptr stack_len (set_capture c d)).

(** The loop of [REOP_back_reference]: [None] is a mismatch, otherwise the pointer
    after the repeated text. *)
Fixpoint back_reference_loop (fuel : nat) (cptr1 cptr1_end cptr : Z) : outcome (option Z) :=
  match fuel with
  | O => Timeout
  | S fuel' =>
      if cptr1 <? cptr1_end then
        if cbuf_end s <=? cptr then Ok None
        else
          '(c1, cptr1) ← of_opt (GET_CHAR (cbuf_type s) (cbuf s) cptr1 cptr1_end);
          '(c2, cptr) ← get_char cptr;
          if canon c1 =? canon c2 then back_reference_loop fuel' cptr1 cptr1_end cptr else Ok None
      else Ok (Some cptr)
  end.

Fixpoint backward_back_reference_loop (fuel : nat) (cptr1 cptr1_start cptr : Z) : outcome (option Z) :=
  match fuel with
  | O => Timeout
  | S fuel' =>
      if cptr1_start <? cptr1 then
        if cptr =? 0 then Ok None
        else
          '(c1, cptr1) ← of_opt (GET_PREV_CHAR (cbuf_type s) (cbuf s) cptr1 cptr1_start);
          '(c2, cptr) ← of_opt (GET_PREV_CHAR (cbuf_type s) (cbuf s) cptr 0);
          if canon c1 =? canon c2 then backward_back_reference_loop fuel' cptr1 cptr1_start cptr
          else Ok None
      else Ok (Some cptr)
  end.

Definition op_back_reference (backward : bool) (pc cptr stack_len : Z) (d : REExecData) : outcome step_result :=
  val ← of_opt (zget (bc s) pc);
  let pc := pc + 1 in
  if capture_count s <=? val then Ok (SNoMatch d)
  else
    cptr1_start ← of_opt (zget (capture d) (2 * val));
    cptr1_end ← of_opt (zget (capture d) (2 * val + 1));
    match cptr1_start, cptr1_end with
    | Some st, Some en =>
        r ← (if backward then backward_back_reference_loop (S (length (cbuf s))) en st cptr
             else back_reference_loop (S (length (cbuf s))) st en cptr);
        match r with
        | None => Ok (SNoMatch d)
        | Some cptr => Ok (SNext pc cptr stack_len d)
        end
    | _, _ => Ok (SNext pc cptr stack_len d)
    end.

(** *** Control flow and the stack *)

Definition op_split (goto_first : bool) (pc cptr stack_len : Z) (d : REExecData) : outcome step_result :=
  val ← of_opt (get_u32 (bc s) pc);
  let pc := pc + 4 in
  let '(pc1, pc) := if goto_first then (pc, pc + i32 val) else (pc + i32 val, pc) in
  '(ok, d) ← push_state stack_len pc1 cptr RE_EXEC_STATE_SPLIT 0 d;
  if ok : bool then Ok (SNext pc cptr stack_len d) else Ok (SError d).

Definition op_lookahead (type : REExecStateEnum) (pc cptr stack_len : Z) (d : REExecData) : outcome step_result :=
  val ← of_opt (get_u32 (bc s) pc);
  let pc := pc + 4 in
  '(ok, d) ← push_state stack_len (pc + i32 val) cptr type 0 d;
  if ok : bool then Ok (SNext pc cptr stack_len d) else Ok (SError d).

Definition op_goto (pc cptr stack_len : Z) (d : REExecData) : outcome step_result :=
  val ← of_opt (get_u32 (bc s) pc);
  Ok (SNext (pc + 4 + i32 val) cptr stack_len d).

Definition op_push (val pc cptr stack_len : Z) (d : REExecData) : outcome step_result :=
  st ← of_opt (zset (stack d) stack_len (Some val));
  Ok (SNext pc cptr (stack_len + 1) (set_stack st d)).

Definition op_loop (pc cptr stack_len : Z) (d : REExecData) : outcome step_result :=
  val ← of_opt (get_u32 (bc s) pc);
  let pc := pc + 4 in
  x ← of_opt (zget (stack d) (stack_len - 1));
  x ← of_opt x;
  let x := u64 (x - 1) in
  st ← of_opt (zset (stack d) (stack_len - 1) (Some x));
  Ok (SNext (if x =? 0 then pc else pc + i32 val) cptr stack_len (set_stack st d)).

Definition op_check_advance (pc cptr stack_len : Z) (d : REExecData) : outcome step_result :=
  x ← of_opt (zget (stack d) (stack_len - 1));
  x ← of_opt x;
  if x =? cptr then Ok (SNoMatch d) else Ok (SNext pc cptr (stack_len - 1) d).

Definition op_prev (pc cptr stack_len : Z) (d : REExecData) : outcome step_result :=
  if cptr =? 0 then Ok (SNoMatch d)
  else
    cptr ← of_opt (PREV_CHAR (cbuf_type s) (cbuf s) cptr 0);
    Ok (SNext pc cptr stack_len d).

(** *** The interpreter *)

(** One instruction other than [REOP_match] and [REOP_simple_greedy_quant]; [pc] is
    after the opcode. *)
Definition exec_step (op : REOPCodeEnum) (pc cptr stack_len : Z) (d : REExecData) : outcome step_result :=
  match op with
  | REOP_char32 => val ← of_opt (get_u32 (bc s) pc); test_char val (pc + 4) cptr stack_len d
  | REOP_char => val ← of_opt (get_u16 (bc s) pc); test_char val (pc + 2) cptr stack_len d
  | REOP_split_goto_first => op_split true pc cptr stack_len d
  | REOP_split_next_first => op_split false pc cptr stack_len d
  | REOP_lookahead => op_lookahead RE_EXEC_STATE_LOOKAHEAD pc cptr stack_len d
  | REOP_negative_lookahead => op_lookahead RE_EXEC_STATE_NEGATIVE_LOOKAHEAD pc cptr stack_len d
  | REOP_goto => op_goto pc cptr stack_len d
  | REOP_line_start => op_line_start pc cptr stack_len d
  | REOP_line_end => op_line_end pc cptr stack_len d
  | REOP_dot => op_dot pc cptr stack_len d
  | REOP_any => op_any pc cptr stack_len d
  | REOP_save_start => val ← of_opt (zget (bc s) pc); op_save 0 val (pc + 1) cptr stack_len d
  | REOP_save_end => val ← of_opt (zget (bc s) pc); op_save 1 val (pc + 1) cptr stack_len d
  | REOP_save_reset => op_save_reset pc cptr stack_len d
  | REOP_push_i32 => val ← of_opt (get_u32 (bc s) pc); op_push val (pc + 4) cptr stack_len d
  | REOP_drop => Ok (SNext pc cptr (stack_len - 1) d)
  | REOP_loop => op_loop pc cptr stack_len d
  | REOP_push_char_pos => op_push cptr pc cptr stack_len d
  | REOP_check_advance => op_check_advance pc cptr stack_len d
  | REOP_word_boundary => op_word_boundary false pc cptr stack_len d
  | REOP_not_word_boundary => op_word_boundary true pc cptr stack_len d
  | REOP_back_reference => op_back_reference false pc cptr stack_len d
  | REOP_backward_back_reference => op_back_reference true pc cptr stack_len d
  | REOP_range => op_range pc cptr stack_len d
  | REOP_range32 => op_range32 pc cptr stack_len d
  | REOP_prev => op_prev pc cptr stack_len d
  | REOP_invalid | REOP_match | REOP_simple_greedy_quant => Stuck
  end.

(** The loop of [REOP_simple_greedy_quant]: runs the atom with [exec] as often as it
    matches, at most [quant_max] times; [None] is an error. *)
Section Greedy.
Context (exec : Z -> REExecData -> outcome (exec_result * REExecData)).

Fixpoint greedy_loop (fuel : nat) (quant_max q cptr : Z) (d : REExecData)
    : outcome (option (Z * Z) * REExecData) :=
  match fuel with
  | O => Timeout
  | S fuel' =>
      '(res, d) ← exec cptr d;
      match res with
      | RetError => Ok (None, d)
      | RetNoMatch => Ok (Some (q, cptr), d)
      | RetCptr cptr =>
          let q := q + 1 in
          if (quant_max <=? q) && negb (quant_max =? INT32_MAX) then Ok (Some (q, cptr), d)
          else greedy_loop fuel' quant_max q cptr d
      | RetMatch => Stuck
      end
  end.

Definition op_simple_greedy_quant (fuel : nat) (pc cptr stack_len : Z) (d : REExecData) : outcome step_result :=
  next_pos ← of_opt (get_u32 (bc s) pc);
  quant_min ← of_opt (get_u32 (bc s) (pc + 4));
  quant_max ← of_opt (get_u32 (bc s) (pc + 8));
  let pc1 := pc + 16 in
  let pc := pc1 + i32 next_pos in
  '(r, d) ← greedy_loop fuel quant_max 0 cptr d;
  match r with
  | None => Ok (SError d)
  | Some (q, cptr) =>
      if q <? quant_min then Ok (SNoMatch d)
      else if quant_min <? q then
        '(ok, d) ← push_state stack_len (pc1 - 16) cptr RE_EXEC_STATE_GREEDY_QUANT (q - quant_min) d;
        if ok : bool then Ok (SNext pc cptr stack_len d) else Ok (SError d)
      else Ok (SNext pc cptr stack_len d)
  end.
End Greedy.

(** [lre_exec_backtrack]; [fuel] bounds the number of instructions on one path. *)
Fixpoint lre_exec_backtrack (fuel : nat) (stack_len pc cptr : Z) (no_recurse : bool)
    (d : REExecData) : outcome (exec_result * REExecData) :=
  match fuel with
  | O => Timeout
  | S fuel' =>
      let recurse (ret : bool) (d : REExecData) :=
        r ← recurse_loop ret (state_stack d) d;
        match r with
        | RDone ret d => Ok (if ret : bool then RetMatch else RetNoMatch, d)
        | RResume pc cptr stack_len d => lre_exec_backtrack fuel' stack_len pc cptr no_recurse d
        end in
      b ← of_opt (zget (bc s) pc);
      op ← of_opt (z2op b);
      match op with
      | REOP_match => if no_recurse then Ok (RetCptr cptr, d) else recurse true d
      | _ =>
          r ← (if decide (op = REOP_simple_greedy_quant)
               then op_simple_greedy_quant
                      (fun cptr d => lre_exec_backtrack fuel' stack_len (pc + 1 + 16) cptr true d)
                      fuel' (pc + 1) cptr stack_len d
               else exec_step op (pc + 1) cptr stack_len d);
          match r with
          | SNext pc cptr stack_len d => lre_exec_backtrack fuel' stack_len pc cptr no_recurse d
          | SNoMatch d => if no_recurse then Ok (RetNoMatch, d) else recurse false d
          | SError d => Ok (RetError, d)
          end
      end
  end.
End Exec.

(** ** Entry points *)

Definition lre_get_capture_count (bc_buf : list Z) : option Z := zget bc_buf RE_HEADER_CAPTURE_COUNT.
Definition lre_get_flags (bc_buf : list Z) : option Z := zget bc_buf RE_HEADER_FLAGS.

(** [Some None] is the [NULL] of a regexp without group names. *)
Definition lre_get_groupnames (bc_buf : list Z) : option (option Z) :=
  fl ← lre_get_flags bc_buf;
  if fl .& LRE_FLAG_NAMED_GROUPS =? 0 then Some None
  else
    re_bytecode_len ← get_u32 bc_buf RE_HEADER_BYTECODE_LEN;
    Some (Some (RE_HEADER_LEN + re_bytecode_len)).

(** [sizeof(REExecState)] without the flexible array member. *)
Definition sizeof_REExecState : Z := 32.

(** The context [lre_exec] sets up; the subject is the whole of [cbuf]. *)
Definition lre_exec_context (bc_buf cbuf : list Z) (cbuf_type : Z) : option REExecContext :=
  re_flags ← lre_get_flags bc_buf;
  cc ← zget bc_buf RE_HEADER_CAPTURE_COUNT;
  ss ← zget bc_buf RE_HEADER_STACK_SIZE;
  let is_unicode := negb (re_flags .& LRE_FLAG_UNICODE =? 0) in
  Some {| bc := bc_buf; cbuf := cbuf;
          cbuf_type := if (cbuf_type =? 1) && is_unicode then 2 else cbuf_type;
          capture_count := cc; stack_size_max := ss;
          multi_line := negb (re_flags .& LRE_FLAG_MULTILINE =? 0);
          ignore_case := negb (re_flags .& LRE_FLAG_IGNORECASE =? 0);
          is_unicode := is_unicode;
          state_size := sizeof_REExecState + cc * 8 * 2 + ss * 8 |}.

(** [for (i = 0; i < s->capture_count * 2; i++) capture[i] = NULL]. *)
Definition clear_captures (n : Z) (capture : list (option Z)) : option (list (option Z)) :=
  zsplice capture 0 (replicate (Z.to_nat n) None).

(** [lre_exec]: 1 on a match, 0 on none, -1 on an error, with the captures and the
    allocator's state. *)
Definition lre_exec `{Allocator} (fuel : nat) (capture : list (option Z)) (bc_buf cbuf : list Z)
    (cindex cbuf_type : Z) (opaque : aopaque) : outcome (Z * list (option Z) * aopaque) :=
  s ← of_opt (lre_exec_context bc_buf cbuf cbuf_type);
  capture ← of_opt (clear_captures (capture_count s * 2) capture);
  let d := {| capture := capture; stack := replicate (Z.to_nat (stack_size_max s)) None;
              state_stack := []; state_stack_size := 0; re_opaque := opaque |} in
  '(ret, d) ← lre_exec_backtrack s fuel 0 RE_HEADER_LEN cindex false d;
  let opaque := fst (realloc_func (re_opaque d) 0) in
  match ret with
  | RetMatch => Ok (1, RegexpExec.capture d, opaque)
  | RetNoMatch => Ok (0, RegexpExec.capture d, opaque)
  | RetError => Ok (-1, RegexpExec.capture d, opaque)
  | RetCptr _ => Stuck
  end.
