(* ===== verification/RegexpParse.v ===== *)
(** The regexp compiler of [libregexp.c]: the parser state, the emission of
    bytecode, escapes, character classes, groups and [lre_compile].

    A parsing function is a computation in the monad [parser]: it threads the
    [REParseState] and either goes on with a value or returns -1.  The pattern is the
    list of its bytes with the terminating NUL; a pointer into it is an index.  The
    allocator state behind [opaque] is shared by all the buffers. *)

From S2P Require Import Prelude CutilsH CString Utf8 DynBuf CharRange UnicodeTables CaseConv UnicodeSet UnicodeProp.
From S2P Require Import RegexpCode.

(** ** State and monad *)

Record REParseState `{Allocator} := mkREParseState {
  byte_code : DynBuf;
  buf : list Z;
  buf_ptr : Z;
  buf_end : Z;
  re_flags : Z;
  is_unicode : bool;
  ignore_case : bool;
  dotall : bool;
  capture_count : Z;
  total_capture_count : Z;
  has_named_captures : Z;
  opaque : aopaque;
  group_names : DynBuf;
  u_buf : list Z
}.

(** A computation on the state: [None] is a return of -1. *)
Definition parser `{Allocator} (A : Type) : Type := REParseState -> outcome (option A * REParseState).

#[export] Instance parser_ret `{Allocator} : MRet parser := fun A a s => Ok (Some a, s).
#[export] Instance parser_bind `{Allocator} : MBind parser := fun A B f m s =>
  '(r, s) ← m s;
  match r with Some a => f a s | None => Ok (None, s) end.

Definition CLASS_RANGE_BASE : Z := 0x40000000.

Definition char_range_d : list Z := [1; 0x0030; 0x0039 + 1].
Definition char_range_w : list Z :=
  [4; 0x0030; 0x0039 + 1; 0x0041; 0x005A + 1; 0x005F; 0x005F + 1; 0x0061; 0x007A + 1].

Inductive CharRangeEnum :=
  | CHAR_RANGE_d | CHAR_RANGE_D | CHAR_RANGE_s | CHAR_RANGE_S | CHAR_RANGE_w | CHAR_RANGE_W.

(** [char_range_table[c >> 1]] and [c & 1]. *)
Definition char_range_table (c : CharRangeEnum) : list Z :=
  match c with
  | CHAR_RANGE_d | CHAR_RANGE_D => char_range_d
  | CHAR_RANGE_s | CHAR_RANGE_S => char_range_s
  | CHAR_RANGE_w | CHAR_RANGE_W => char_range_w
  end.
Definition char_range_inverted (c : CharRangeEnum) : bool :=
  match c with CHAR_RANGE_D | CHAR_RANGE_S | CHAR_RANGE_W => true | _ => false end.

(** ** Lexical helpers, on the pattern only *)

Section Lexer.
Context (buf : list Z).

(** [parse_digits]: the number (or -1 on an overflow that is not allowed) and the
    pointer after it. *)
Fixpoint parse_digits_loop (fuel : nat) (p v : Z) (allow_overflow : bool) : option (option (Z * Z)) :=
  match fuel with
  | O => None
  | S fuel' =>
      c ← zget buf p;
      if (c <? ch "0") || (ch "9" <? c) then Some (Some (v, p))
      else
        let v := u64 (v * 10 + c - ch "0") in
        if INT32_MAX <=? v then
          if allow_overflow then parse_digits_loop fuel' (p + 1) INT32_MAX allow_overflow
          else Some None
        else parse_digits_loop fuel' (p + 1) v allow_overflow
  end.

Definition parse_digits (p : Z) (allow_overflow : bool) : option (Z * Z) :=
  r ← parse_digits_loop (S (length buf)) p 0 allow_overflow;
  Some (match r with Some (v, p') => (v, p') | None => (-1, p) end).

(** The digits of [\u{...}]; [None] inside is a malformed escape. *)
Fixpoint escape_braces (fuel : nat) (p c : Z) : option (option (Z * Z)) :=
  match fuel with
  | O => None
  | S fuel' =>
      b ← zget buf p;
      let p := p + 1 in
      let h := from_hex b in
      if h <? 0 then Some None
      else
        let c := u32 (c ≪ 4) .| h in
        if 0x10FFFF <? c then Some None
        else
          b ← zget buf p;
          if b =? ch "}" then Some (Some (c, p)) else escape_braces fuel' p c
  end.

(** [n] hexadecimal digits. *)
Fixpoint escape_hex (n : nat) (p c : Z) : option (option (Z * Z)) :=
  match n with
  | O => Some (Some (c, p))
  | S n' =>
      b ← zget buf p;
      let h := from_hex b in
      if h <? 0 then Some None else escape_hex n' (p + 1) (u32 (c ≪ 4) .| h)
  end.

(** The cases ['x'] and ['u'] of [lre_parse_escape]; [p] is after the letter. *)
Definition escape_xu (c p allow_utf16 : Z) : option (option (Z * Z)) :=
  b ← zget buf p;
  if (b =? ch "{") && negb (allow_utf16 =? 0) then
    r ← escape_braces (S (length buf)) (p + 1) 0;
    match r with
    | None => Some None
    | Some (c, p) => Some (Some (c, p + 1))
    end
  else
    r ← escape_hex (if c =? ch "x" then 2%nat else 4%nat) p 0;
    match r with
    | None => Some None
    | Some (c, p) =>
        if is_hi_surrogate c && (allow_utf16 =? 2) then
          b0 ← zget buf p;
          if b0 =? ch "\" then
            b1 ← zget buf (p + 1);
            if b1 =? ch "u" then
              (* convert an escaped surrogate pair into a unicode char *)
              r ← escape_hex 4 (p + 2) 0;
              match r with
              | Some (c1, _) =>
                  if is_lo_surrogate c1 then Some (Some (from_surrogate c c1, p + 6)) else Some (Some (c, p))
              | None => Some (Some (c, p))
              end
            else Some (Some (c, p))
          else Some (Some (c, p))
        else Some (Some (c, p))
    end.

(** The octal digits of a legacy escape; [c] is the first digit. *)
Definition escape_octal (c p : Z) : option (Z * Z) :=
  b ← zget buf p;
  let v := u32 (b - ch "0") in
  if 7 <? v then Some (c, p)
  else
    let c := (c ≪ 3) .| v in
    let p := p + 1 in
    if 32 <=? c then Some (c, p)
    else
      b ← zget buf p;
      let v := u32 (b - ch "0") in
      if 7 <? v then Some (c, p) else Some ((c ≪ 3) .| v, p + 1).

(** [lre_parse_escape]: the character, -1 (malformed) or -2 (not an escape), and
    the new pointer. *)
Definition lre_parse_escape (p0 allow_utf16 : Z) : option (Z * Z) :=
  c ← zget buf p0;
  let p := p0 + 1 in
  if c =? ch "b" then Some (8, p)
  else if c =? ch "f" then Some (12, p)
  else if c =? ch "n" then Some (10, p)
  else if c =? ch "r" then Some (13, p)
  else if c =? ch "t" then Some (9, p)
  else if c =? ch "v" then Some (11, p)
  else if (c =? ch "x") || (c =? ch "u") then
    r ← escape_xu c p allow_utf16;
    Some (match r with Some (c, p) => (c, p) | None => (-1, p0) end)
  else if (ch "0" <=? c) && (c <=? ch "7") then
    let c := c - ch "0" in
    if allow_utf16 =? 2 then
      b ← zget buf p;
      if negb (c =? 0) || is_digit b then Some (-1, p0) else Some (c, p)
    else escape_octal c p
  else Some (-2, p0).

(** [re_parse_group_name]: writes the name into [name] ([buf_size] bytes); the
    result is the return value, the buffer and the new pointer. *)
Fixpoint group_name_loop (fuel : nat) (name : list Z) (buf_size q p : Z) : option (Z * list Z * Z) :=
  match fuel with
  | O => None
  | S fuel' =>
      let fail := Some (-1, name, p) in
      let add (c p : Z) :=
        if 0x10FFFF <? u32 c then fail
        else
          ok ← (if q =? 0 then lre_js_is_ident_first c else lre_js_is_ident_next c);
          if negb ok then fail
          else if buf_size <? q + UTF8_CHAR_LEN_MAX + 1 then fail
          else if c <? 128 then
            name ← zset name q c;
            group_name_loop fuel' name buf_size (q + 1) p
          else
            let bytes := unicode_to_utf8 c in
            name ← zsplice name q bytes;
            group_name_loop fuel' name buf_size (q + zlen bytes) p in
      c ← zget buf p;
      if c =? ch "\" then
        b ← zget buf (p + 1);
        if negb (b =? ch "u") then fail
        else
          '(c, p) ← lre_parse_escape (p + 1) 2;
          add c p
      else if c =? ch ">" then
        if q =? 0 then fail
        else name ← zset name q 0; Some (0, name, p + 1)
      else if 128 <=? c then
        '(c, p) ← unicode_from_utf8 buf p UTF8_CHAR_LEN_MAX;
        if is_hi_surrogate c then
          '(d, p1) ← unicode_from_utf8 buf p UTF8_CHAR_LEN_MAX;
          if is_lo_surrogate d then add (from_surrogate c d) p1 else add c p
        else add c p
      else add c (p + 1)
  end.

Definition re_parse_group_name (name : list Z) (buf_size p : Z) : option (Z * list Z * Z) :=
  '(ret, name, p') ← group_name_loop (S (length buf)) name buf_size 0 p;
  Some (ret, name, if ret <? 0 then p else p').

(** The inner loop over a class in [re_parse_captures]. *)
Fixpoint skip_class (fuel : nat) (buf_end p : Z) : option Z :=
  match fuel with
  | O => None
  | S fuel' =>
      if p <? buf_end then
        c ← zget buf p;
        if c =? ch "]" then Some p
        else skip_class fuel' buf_end (if c =? ch "\" then p + 2 else p + 1)
      else Some p
  end.

(** [re_parse_captures]: the return value and [*phas_named_captures]. *)
Fixpoint captures_loop (fuel : nat) (buf_end : Z) (capture_name : option (list Z))
    (p capture_index has_named : Z) : option (Z * Z) :=
  let done_ ci hn := Some (match capture_name with Some _ => -1 | None => ci end, hn) in
  match fuel with
  | O => None
  | S fuel' =>
      if p <? buf_end then
        let next p ci hn :=
          if CAPTURE_COUNT_MAX <=? ci then done_ ci hn
          else captures_loop fuel' buf_end capture_name (p + 1) ci hn in
        c ← zget buf p;
        if c =? ch "(" then
          b1 ← zget buf (p + 1);
          if b1 =? ch "?" then
            b2 ← zget buf (p + 2);
            if b2 =? ch "<" then
              b3 ← zget buf (p + 3);
              if negb (b3 =? ch "=") && negb (b3 =? ch "!") then
                match capture_name with
                | None => next p (capture_index + 1) 1
                | Some cname =>
                    '(r, name, p) ← re_parse_group_name (replicate (Z.to_nat TMP_BUF_SIZE) 0) TMP_BUF_SIZE (p + 3);
                    if r =? 0 then
                      same ← streq name cname;
                      if same : bool then Some (capture_index, 1) else next p (capture_index + 1) 1
                    else next p (capture_index + 1) 1
                end
              else captures_loop fuel' buf_end capture_name (p + 1) capture_index has_named
            else captures_loop fuel' buf_end capture_name (p + 1) capture_index has_named
          else next p (capture_index + 1) has_named
        else if c =? ch "\" then
          captures_loop fuel' buf_end capture_name (p + 2) capture_index has_named
        else if c =? ch "[" then
          p ← skip_class (S (length buf)) buf_end (p + 1 + b2z (c =? ch "]"));
          captures_loop fuel' buf_end capture_name (p + 1) capture_index has_named
        else captures_loop fuel' buf_end capture_name (p + 1) capture_index has_named
      else done_ capture_index has_named
  end.

Definition re_parse_captures (buf_end : Z) (capture_name : option (list Z)) : option (Z * Z) :=
  captures_loop (S (length buf)) buf_end capture_name 0 1 0.
End Lexer.

(** ** The parser *)

Section Parser.
Context `{HA : Allocator}.

(** [lre_check_stack_overflow], as a function of the depth of recursion: it compares
    the stack pointer of the host with a limit. *)
Context (check_stack_overflow : Z -> bool).

(** *** State access *)

(** The record with the fields that change replaced. *)
Definition upd (s : REParseState) (bcd : DynBuf) (ptr cc tcc hnc : Z) (o : aopaque)
    (gn : DynBuf) (u : list Z) : REParseState :=
  mkREParseState _ bcd (buf s) ptr (buf_end s) (re_flags s) (is_unicode s) (ignore_case s)
    (dotall s) cc tcc hnc o gn u.

Definition set_buf_ptr (p : Z) (s : REParseState) : REParseState :=
  upd s (byte_code s) p (capture_count s) (total_capture_count s) (has_named_captures s) (opaque s)
    (group_names s) (u_buf s).
Definition set_capture_count (n : Z) (s : REParseState) : REParseState :=
  upd s (byte_code s) (buf_ptr s) n (total_capture_count s) (has_named_captures s) (opaque s)
    (group_names s) (u_buf s).
Definition set_captures_info (tcc hnc : Z) (s : REParseState) : REParseState :=
  upd s (byte_code s) (buf_ptr s) (capture_count s) tcc hnc (opaque s) (group_names s) (u_buf s).
Definition set_u (u : list Z) (s : REParseState) : REParseState :=
  upd s (byte_code s) (buf_ptr s) (capture_count s) (total_capture_count s) (has_named_captures s)
    (opaque s) (group_names s) u.
Definition set_opaque (o : aopaque) (s : REParseState) : REParseState :=
  upd s (byte_code s) (buf_ptr s) (capture_count s) (total_capture_count s) (has_named_captures s)
    o (group_names s) (u_buf s).
Definition set_byte_code (d : DynBuf) (s : REParseState) : REParseState :=
  upd s d (buf_ptr s) (capture_count s) (total_capture_count s) (has_named_captures s)
    (opaque s) (group_names s) (u_buf s).
Definition set_group_names (d : DynBuf) (s : REParseState) : REParseState :=
  upd s (byte_code s) (buf_ptr s) (capture_count s) (total_capture_count s) (has_named_captures s)
    (opaque s) d (u_buf s).

Definition gets {A} (f : REParseState -> A) : parser A := fun s => Ok (Some (f s), s).
Definition modify (f : REParseState -> REParseState) : parser unit := fun s => Ok (Some tt, f s).
Definition pfail {A} : parser A := fun s => Ok (None, s).
Definition lift {A} (o : option A) : parser A := fun s => a ← of_opt o; Ok (Some a, s).

(** The value of an expression that reads the pattern or the buffers. *)
Definition reads {A} (f : REParseState -> option A) : parser A := fun s => a ← of_opt (f s); Ok (Some a, s).

(** [*p]. *)
Definition deref (p : Z) : parser Z := reads (fun s => zget (buf s) p).

(** *** Buffers that share the allocator *)

Definition with_opaque (d : DynBuf) (o : aopaque) : DynBuf :=
  mkDynBuf _ (db_buf d) (db_size d) (db_allocated_size d) (db_error d) o.

(** An operation on [s->byte_code] and its return value. *)
Definition on_code (f : DynBuf -> option (DynBuf * Z)) : parser Z := fun s =>
  '(d, r) ← of_opt (f (with_opaque (byte_code s) (opaque s)));
  Ok (Some r, set_opaque (db_opaque d) (set_byte_code d s)).

Definition on_names (f : DynBuf -> option (DynBuf * Z)) : parser Z := fun s =>
  '(d, r) ← of_opt (f (with_opaque (group_names s) (opaque s)));
  Ok (Some r, set_opaque (db_opaque d) (set_group_names d s)).

(** [s->byte_code.size] and [dbuf_error(&s->byte_code)]. *)
Definition code_size : parser Z := gets (fun s => db_size (byte_code s)).
Definition code_error : parser bool := gets (fun s => db_error (byte_code s)).

(** A store into [s->byte_code.buf]. *)
Definition code_store (f : list Z -> option (list Z)) : parser unit := fun s =>
  b ← of_opt (f (db_buf (byte_code s)));
  Ok (Some tt, set_byte_code (set_buf (byte_code s) b) s).
Definition code_put8 (pos v : Z) : parser unit := code_store (fun b => zset b pos (u8 v)).
Definition code_put32 (pos v : Z) : parser unit := code_store (fun b => put_u32 b pos v).

(** [s->byte_code.size = n]. *)
Definition code_set_size (n : Z) : parser unit :=
  modify (fun s => set_byte_code (set_size (byte_code s) n) s).

(** *** Emission *)

Definition re_emit_op (op : Z) : parser unit := _ ← on_code (fun d => dbuf_putc d op); mret tt.

Definition re_emit_op_u32 (op val : Z) : parser Z :=
  _ ← on_code (fun d => dbuf_putc d op);
  pos ← code_size;
  _ ← on_code (fun d => dbuf_put_u32 d val);
  mret pos.

Definition re_emit_goto (op val : Z) : parser Z :=
  _ ← on_code (fun d => dbuf_putc d op);
  pos ← code_size;
  _ ← on_code (fun d => dbuf_put_u32 d (val - (pos + 4)));
  mret pos.

Definition re_emit_op_u8 (op val : Z) : parser unit :=
  _ ← on_code (fun d => dbuf_putc d op);
  _ ← on_code (fun d => dbuf_putc d val);
  mret tt.

Definition re_emit_op_u16 (op val : Z) : parser unit :=
  _ ← on_code (fun d => dbuf_putc d op);
  _ ← on_code (fun d => dbuf_put_u16 d val);
  mret tt.

(** [vsnprintf] into [s->u.error_msg]; then -1. *)
Definition re_parse_error {A} (msg : list Z) : parser A := fun s =>
  u ← of_opt (vsnprintf (u_buf s) 0 TMP_BUF_SIZE msg);
  Ok (None, set_u u s).

Definition re_parse_out_of_memory {A} : parser A := re_parse_error (str "out of memory").

Definition re_parse_expect (p c : Z) : parser Z :=
  b ← deref p;
  if negb (b =? c) then re_parse_error (str "expecting '" ++ [c] ++ str "'") else mret (p + 1).

(** *** Character classes *)

(** An operation on a character set, on the shared allocator. *)
Definition on_cr (cr : CharRange) (f : CharRange -> option (CharRange * Z)) : parser (CharRange * Z) := fun s =>
  '(cr, r) ← of_opt (f (set_cr_opaque cr (opaque s)));
  Ok (Some (cr, r), set_opaque (cr_opaque cr) s).

(** [cr_free(cr)]. *)
Definition free_cr (cr : CharRange) : parser unit :=
  modify (fun s => set_opaque (cr_free (set_cr_opaque cr (opaque s))) s).

Definition new_cr : parser CharRange := gets (fun s => cr_init (opaque s)).

(** The loop of [cr_init_char_range]. *)
Fixpoint cr_add_points (cr : CharRange) (l : list Z) : option (CharRange * Z) :=
  match l with
  | [] => Some (cr, 0)
  | v :: l =>
      '(cr, r) ← cr_add_point cr v;
      if r <? 0 then Some (cr, -1) else cr_add_points cr l
  end.

Definition cr_init_char_range (c : CharRangeEnum) : parser CharRange :=
  let c_pt := char_range_table c in
  cr ← new_cr;
  '(cr, r) ← on_cr cr (fun cr => cr_add_points cr (take (Z.to_nat (2 * ztab c_pt 0)) (drop 1 c_pt)));
  if r <? 0 then _ ← free_cr cr; pfail
  else if char_range_inverted c then
    '(cr, r) ← on_cr cr cr_invert;
    if r <? 0 then _ ← free_cr cr; pfail else mret cr
  else mret cr.

Definition is_unicode_char (c : Z) : bool :=
  ((ch "0" <=? c) && (c <=? ch "9")) || ((ch "A" <=? c) && (c <=? ch "Z")) ||
  ((ch "a" <=? c) && (c <=? ch "z")) || (c =? ch "_").

(** The characters of a property name or value, at most 63 of them; [None] is one
    too many. *)
Fixpoint prop_name (fuel : nat) (b : list Z) (p q : Z) : option (option (list Z * Z)) :=
  match fuel with
  | O => None
  | S fuel' =>
      c ← zget b p;
      if is_unicode_char c then
        if 64 - 1 <=? q then Some None
        else
          r ← prop_name fuel' b (p + 1) (q + 1);
          Some (match r with Some (l, p) => Some (c :: l, p) | None => None end)
      else Some (Some ([], p))
  end.

(** [!strcmp(name, s)]. *)
Definition is_named (name : list Z) (s : String.string) : bool := bool_decide (name = str s).
#[local] Arguments is_named name s%_string_scope.

(** The end of [parse_unicode_property]: what the return values of the set
    functions mean. *)
Definition prop_result (cr : CharRange) (ret : Z) (unknown : list Z) : parser CharRange :=
  if ret =? 0 then mret cr
  else
    _ ← free_cr cr;
    if ret =? -2 then re_parse_error unknown else re_parse_out_of_memory.

Definition parse_unicode_property (p : Z) (is_inv : bool) : parser (CharRange * Z) :=
  let unknown_name : parser (CharRange * Z) := re_parse_error (str "unknown unicode property name") in
  c ← deref p;
  if negb (c =? ch "{") then re_parse_error (str "expecting '{' after \p") else
  r ← reads (fun s => prop_name (S (length (buf s))) (buf s) (p + 1) 0);
  match r with
  | None => unknown_name
  | Some (name, p) =>
      c ← deref p;
      r ← (if c =? ch "=" then reads (fun s => prop_name (S (length (buf s))) (buf s) (p + 1) 0)
           else mret (Some ([], p)));
      match r with
      | None => re_parse_error (str "unknown unicode property value")
      | Some (value, p) =>
          c ← deref p;
          if negb (c =? ch "}") then re_parse_error (str "expecting '}'") else
          let p := p + 1 in
          cr ← new_cr;
          let script (ext : bool) : parser CharRange :=
            '(cr, ret) ← on_cr cr (fun cr => unicode_script cr value ext);
            prop_result cr ret (str "unknown unicode script") in
          cr ←
            (if is_named name "Script" || is_named name "sc" then script false
             else if is_named name "Script_Extensions" || is_named name "scx" then script true
             else if is_named name "General_Category" || is_named name "gc" then
               '(cr, ret) ← on_cr cr (fun cr => unicode_general_category cr value);
               prop_result cr ret (str "unknown unicode general category")
             else if bool_decide (value = []) then
               '(cr, ret) ← on_cr cr (fun cr => unicode_general_category cr name);
               if ret =? -1 then _ ← free_cr cr; re_parse_out_of_memory
               else if ret <? 0 then
                 '(cr, ret) ← on_cr cr (fun cr => unicode_prop cr name);
                 prop_result cr ret (str "unknown unicode property name")
               else mret cr
             else re_parse_error (str "unknown unicode property name"));
          if is_inv then
            '(cr, r) ← on_cr cr cr_invert;
            if r <? 0 then _ ← free_cr cr; pfail else mret (cr, p)
          else mret (cr, p)
      end
  end.

(** Run [m]; when it returns -1, free [cr] first (the label [fail:]). *)
Definition or_free {A} (cr : CharRange) (m : parser A) : parser A := fun s =>
  '(r, s) ← m s;
  match r with
  | Some a => Ok (Some a, s)
  | None => '(_, s) ← free_cr cr s; Ok (None, s)
  end.

(** The label [normal_char:] of [get_class_atom]. *)
Definition class_normal_char (c p : Z) : parser (Z * option CharRange * Z) :=
  if 128 <=? c then
    '(c, p) ← reads (fun s => unicode_from_utf8 (buf s) p UTF8_CHAR_LEN_MAX);
    u ← gets is_unicode;
    if (0xffff <? u32 c) && negb u then re_parse_error (str "malformed unicode char")
    else mret (c, None, p)
  else mret (c, None, p + 1).

Definition invalid_escape {A} : parser A :=
  re_parse_error (str "invalid escape sequence in regular expression").

(** The [default:] case after a backslash; [p] is at the escaped character [c]. *)
Definition class_escape (c p : Z) : parser (Z * option CharRange * Z) :=
  u ← gets is_unicode;
  '(ret, p') ← reads (fun s => lre_parse_escape (buf s) p (b2z (is_unicode s) * 2));
  if 0 <=? ret then mret (ret, None, p')
  else
    b ← deref p;
    if (ret =? -2) && negb (b =? 0) && bool_decide (b ∈ str "^$\.*+?()[]{}|/") then class_normal_char c p
    else if u : bool then invalid_escape
    else class_normal_char c p.

(** [get_class_atom]: a character, or [CLASS_RANGE_BASE] with a character set. *)
Definition get_class_atom (p : Z) (inclass : bool) : parser (Z * option CharRange * Z) :=
  e ← gets buf_end;
  u ← gets is_unicode;
  c ← deref p;
  if c =? ch "\" then
    let p := p + 1 in
    if e <=? p then re_parse_error (str "unexpected end") else
    c ← deref p;
    let p := p + 1 in
    let class_range (k : CharRangeEnum) : parser (Z * option CharRange * Z) :=
      cr ← cr_init_char_range k; mret (CLASS_RANGE_BASE, Some cr, p) in
    if c =? ch "d" then class_range CHAR_RANGE_d
    else if c =? ch "D" then class_range CHAR_RANGE_D
    else if c =? ch "s" then class_range CHAR_RANGE_s
    else if c =? ch "S" then class_range CHAR_RANGE_S
    else if c =? ch "w" then class_range CHAR_RANGE_w
    else if c =? ch "W" then class_range CHAR_RANGE_W
    else if c =? ch "c" then
      c ← deref p;
      if ((ch "a" <=? c) && (c <=? ch "z")) || ((ch "A" <=? c) && (c <=? ch "Z")) ||
         ((((ch "0" <=? c) && (c <=? ch "9")) || (c =? ch "_")) && inclass && negb u)
      then mret (c .& 0x1f, None, p + 1)
      else if u : bool then invalid_escape
      else mret (ch "\", None, p - 1)
    else if ((c =? ch "p") || (c =? ch "P")) && u then
      '(cr, p) ← parse_unicode_property p (c =? ch "P");
      mret (CLASS_RANGE_BASE, Some cr, p)
    else class_escape c (p - 1)
  else if (c =? 0) && (e <=? p) then re_parse_error (str "unexpected end")
  else class_normal_char c p.

(** The loops of [re_emit_range]. *)
Fixpoint emit_range16 (l : list Z) : parser unit :=
  match l with
  | [] => mret tt
  | [_] => lift None
  | a :: b :: l =>
      _ ← on_code (fun d => dbuf_put_u16 d a);
      let high := u32 (b - 1) in
      let high := if high =? UINT32_MAX - 1 then 0xffff else high in
      _ ← on_code (fun d => dbuf_put_u16 d high);
      emit_range16 l
  end.

Fixpoint emit_range32 (l : list Z) : parser unit :=
  match l with
  | [] => mret tt
  | [_] => lift None
  | a :: b :: l =>
      _ ← on_code (fun d => dbuf_put_u32 d a);
      _ ← on_code (fun d => dbuf_put_u32 d (u32 (b - 1)));
      emit_range32 l
  end.

Definition re_emit_range (cr : CharRange) : parser unit :=
  let len := cr_len cr / 2 in
  if 65535 <=? len then re_parse_error (str "too many ranges")
  else if len =? 0 then
    _ ← re_emit_op_u32 (op2z REOP_char32) (-1); mret tt
  else
    high ← lift (zget (cr_points cr) (cr_len cr - 1));
    high ← (if high =? UINT32_MAX then lift (zget (cr_points cr) (cr_len cr - 2)) else mret high);
    if high <=? 0xffff then
      _ ← re_emit_op_u16 (op2z REOP_range) len;
      emit_range16 (pts cr)
    else
      _ ← re_emit_op_u16 (op2z REOP_range32) len;
      emit_range32 (pts cr).

(** The label [class_atom:] of [re_parse_char_class]. *)
Definition class_atom (cr : CharRange) (c1 : Z) (cr1 : option CharRange) : parser CharRange :=
  if CLASS_RANGE_BASE <=? c1 then
    cr1 ← lift cr1;
    '(cr, r) ← on_cr cr (fun cr => cr_union1 cr (pts cr1));
    _ ← free_cr cr1;
    if r <? 0 then or_free cr re_parse_out_of_memory else mret cr
  else
    '(cr, r) ← on_cr cr (fun cr => cr_union_interval cr c1 c1);
    if r <? 0 then or_free cr re_parse_out_of_memory else mret cr.

(** The loop of [re_parse_char_class]: the set and the pointer to the ']'. *)
Fixpoint char_class_loop (fuel : nat) (cr : CharRange) (p : Z) : parser (CharRange * Z) :=
  match fuel with
  | O => fun _ => Timeout
  | S fuel' =>
      u ← gets is_unicode;
      b ← deref p;
      if b =? ch "]" then mret (cr, p)
      else
        '(c1, cr1, p) ← or_free cr ('(c1, cr1, p) ← get_class_atom p true;
                                    if c1 <? 0 then pfail else mret (c1, cr1, p));
        let invalid : parser (CharRange * Z) := or_free cr (re_parse_error (str "invalid class range")) in
        b0 ← deref p;
        range ← (if b0 =? ch "-" then b1 ← deref (p + 1); mret (negb (b1 =? ch "]")) else mret false);
        if range : bool then
          if CLASS_RANGE_BASE <=? c1 then
            if u : bool then cr1 ← lift cr1; _ ← free_cr cr1; invalid
            else cr ← class_atom cr c1 cr1; char_class_loop fuel' cr p
          else
            '(c2, cr2, p0) ← or_free cr ('(c2, cr2, p0) ← get_class_atom (p + 1) true;
                                         if c2 <? 0 then pfail else mret (c2, cr2, p0));
            if CLASS_RANGE_BASE <=? c2 then
              cr2 ← lift cr2;
              _ ← free_cr cr2;
              if u : bool then invalid
              else cr ← class_atom cr c1 cr1; char_class_loop fuel' cr p
            else if c2 <? c1 then invalid
            else
              '(cr, r) ← on_cr cr (fun cr => cr_union_interval cr c1 c2);
              if r <? 0 then or_free cr re_parse_out_of_memory
              else char_class_loop fuel' cr p0
        else cr ← class_atom cr c1 cr1; char_class_loop fuel' cr p
  end.

Definition re_parse_char_class (p : Z) : parser Z :=
  ic ← gets ignore_case;
  u ← gets is_unicode;
  n ← gets (fun s => length (buf s));
  cr ← new_cr;
  let p := p + 1 in
  b ← deref p;
  let invert := b =? ch "^" in
  let p := if invert then p + 1 else p in
  '(cr, p) ← char_class_loop (S n) cr p;
  '(cr, r) ← (if ic : bool then on_cr cr (fun cr => cr_regexp_canonicalize cr u) else mret (cr, 0));
  if r <? 0 then or_free cr re_parse_out_of_memory else
  '(cr, r) ← (if invert then on_cr cr cr_invert else mret (cr, 0));
  if r <? 0 then or_free cr re_parse_out_of_memory else
  _ ← or_free cr (re_emit_range cr);
  _ ← free_cr cr;
  mret (p + 1).

(** *** Captures *)

Definition re_count_captures : parser Z :=
  t ← gets total_capture_count;
  if t <? 0 then
    '(n, h) ← reads (fun s => re_parse_captures (buf s) (buf_end s) None);
    _ ← modify (set_captures_info n h);
    mret n
  else mret t.

Definition re_has_named_captures : parser bool :=
  h ← gets has_named_captures;
  if h <? 0 then
    _ ← re_count_captures;
    h ← gets has_named_captures;
    mret (negb (h =? 0))
  else mret (negb (h =? 0)).

(** The loop of [find_group_name]. *)
Fixpoint find_group_loop (fuel : nat) (b : list Z) (size p : Z) (name : list Z) (capture_index : Z) : option Z :=
  match fuel with
  | O => None
  | S fuel' =>
      if p <? size then
        len ← strlen (drop (Z.to_nat p) b);
        same ← (if len =? zlen name then t ← zslice b p len; Some (bool_decide (t = name)) else Some false);
        if same : bool then Some capture_index
        else find_group_loop fuel' b size (p + len + 1) name (capture_index + 1)
      else Some (-1)
  end.

(** [find_group_name(s, s->u.tmp_buf)]. *)
Definition find_group_name : parser Z := reads (fun s =>
  name ← cstr (u_buf s);
  match db_buf (group_names s) with
  | [] => Some (-1)
  | b => find_group_loop (S (length b)) b (db_size (group_names s)) 0 name 1
  end).

(** [re_parse_group_name(s->u.tmp_buf, sizeof(s->u.tmp_buf), &p)]: 0 or -1, and the
    new pointer. *)
Definition parse_group_name_u (p : Z) : parser (Z * Z) := fun s =>
  '(r, name, p) ← of_opt (re_parse_group_name (buf s) (u_buf s) TMP_BUF_SIZE p);
  Ok (Some (r, p), set_u name s).

(** *** Terms *)

(** What the first [switch] of [re_parse_term] leaves: the pointer,
    [last_atom_start] and [last_capture_count]. *)
Definition atom_result : Type := Z * Z * Z.

(** An assertion: nothing a quantifier can apply to. *)
Definition no_atom (p : Z) : parser atom_result := mret (p, -1, 0).

(** The label [normal_char:]. *)
Definition emit_char (is_backward_dir : bool) (c : Z) (cr : option CharRange) (p : Z) : parser atom_result :=
  ic ← gets ignore_case;
  u ← gets is_unicode;
  last_atom_start ← code_size;
  last_capture_count ← gets capture_count;
  _ ← (if is_backward_dir then re_emit_op (op2z REOP_prev) else mret tt);
  _ ← (if CLASS_RANGE_BASE <=? c then
         cr ← lift cr;
         _ ← or_free cr (re_emit_range cr);
         free_cr cr
       else
         let c := if ic : bool then lre_canonicalize c u else c in
         if c <=? 0xffff then re_emit_op_u16 (op2z REOP_char) c
         else _ ← re_emit_op_u32 (op2z REOP_char32) c; mret tt);
  _ ← (if is_backward_dir then re_emit_op (op2z REOP_prev) else mret tt);
  mret (p, last_atom_start, last_capture_count).

(** The label [parse_class_atom:]. *)
Definition parse_class_atom (is_backward_dir : bool) (p : Z) : parser atom_result :=
  '(c, cr, p) ← get_class_atom p false;
  if c <? 0 then pfail else emit_char is_backward_dir c cr p.

(** The label [emit_back_reference:]. *)
Definition emit_back_reference (is_backward_dir : bool) (c p : Z) : parser atom_result :=
  last_atom_start ← code_size;
  last_capture_count ← gets capture_count;
  _ ← re_emit_op_u8 (op2z REOP_back_reference + b2z is_backward_dir) c;
  mret (p, last_atom_start, last_capture_count).

Definition is_octal (b : Z) : bool := (ch "0" <=? b) && (b <=? ch "7").

(** The case ['0'] of an escape: legacy octal digits after [\0]. *)
Definition term_escape_0 (is_backward_dir : bool) (p : Z) : parser atom_result :=
  u ← gets is_unicode;
  let p := p + 2 in
  b ← deref p;
  if u : bool then
    if is_digit b then re_parse_error (str "invalid decimal escape in regular expression")
    else emit_char is_backward_dir 0 None p
  else if is_octal b then
    b1 ← deref (p + 1);
    if is_octal b1 then emit_char is_backward_dir (((b - ch "0") ≪ 3) + b1 - ch "0") None (p + 2)
    else emit_char is_backward_dir (b - ch "0") None (p + 1)
  else emit_char is_backward_dir 0 None p.

(** Legacy octal after a back reference that is out of range; [q] is at the first
    digit. *)
Definition term_legacy_octal (is_backward_dir : bool) (q : Z) : parser atom_result :=
  b ← deref q;
  if b <=? ch "7" then
    let '(c, p) := if b <=? ch "3" then (b - ch "0", q + 1) else (0, q) in
    b ← deref p;
    if is_octal b then
      let c := (c ≪ 3) + b - ch "0" in
      let p := p + 1 in
      b ← deref p;
      if is_octal b then emit_char is_backward_dir ((c ≪ 3) + b - ch "0") None (p + 1)
      else emit_char is_backward_dir c None p
    else emit_char is_backward_dir c None p
  else emit_char is_backward_dir b None (q + 1).

(** The cases ['1'] to ['9'] of an escape. *)
Definition term_back_reference (is_backward_dir : bool) (p : Z) : parser atom_result :=
  u ← gets is_unicode;
  cc ← gets capture_count;
  let q := p + 1 in
  '(c, p) ← reads (fun s => parse_digits (buf s) q false);
  bad ← (if c <? 0 then mret true
         else if cc <=? c then n ← re_count_captures; mret (n <=? c)
         else mret false);
  if bad : bool then
    if u : bool then re_parse_error (str "back reference out of range in regular expression")
    else term_legacy_octal is_backward_dir q
  else emit_back_reference is_backward_dir c p.

(** The case ['k'] of an escape: a named back reference. *)
Definition term_named_reference (is_backward_dir : bool) (p : Z) : parser atom_result :=
  u ← gets is_unicode;
  let tolerate (msg : list Z) : parser atom_result :=
    h ← (if u : bool then mret true else re_has_named_captures);
    if h : bool then re_parse_error msg else parse_class_atom is_backward_dir p in
  b2 ← deref (p + 2);
  if negb (b2 =? ch "<") then tolerate (str "expecting group name")
  else
    '(r, p1) ← parse_group_name_u (p + 3);
    if negb (r =? 0) then tolerate (str "invalid group name")
    else
      c ← find_group_name;
      if c <? 0 then
        '(c, _) ← reads (fun s => name ← cstr (u_buf s);
                                  re_parse_captures (buf s) (buf_end s) (Some (name ++ [0])));
        if c <? 0 then tolerate (str "group name not defined")
        else emit_back_reference is_backward_dir c p1
      else emit_back_reference is_backward_dir c p1.

Definition term_escape (is_backward_dir : bool) (p : Z) : parser atom_result :=
  b1 ← deref (p + 1);
  if (b1 =? ch "b") || (b1 =? ch "B") then
    _ ← re_emit_op (op2z REOP_word_boundary + b2z (negb (b1 =? ch "b")));
    no_atom (p + 2)
  else if b1 =? ch "k" then term_named_reference is_backward_dir p
  else if b1 =? ch "0" then term_escape_0 is_backward_dir p
  else if (ch "1" <=? b1) && (b1 <=? ch "9") then term_back_reference is_backward_dir p
  else parse_class_atom is_backward_dir p.

(** The case ['{']: an error when it looks like a repetition count. *)
Definition term_brace (is_backward_dir : bool) (p : Z) : parser atom_result :=
  u ← gets is_unicode;
  let nothing : parser atom_result := re_parse_error (str "nothing to repeat") in
  if u : bool then re_parse_error (str "syntax error")
  else
    b1 ← deref (p + 1);
    if negb (is_digit b1) then parse_class_atom is_backward_dir p
    else
      '(_, p1) ← reads (fun s => parse_digits (buf s) (p + 1) true);
      b ← deref p1;
      p1 ← (if b =? ch "," then
              b ← deref (p1 + 1);
              if is_digit b then
                '(_, p2) ← reads (fun s => parse_digits (buf s) (p1 + 1) true); mret p2
              else mret (p1 + 1)
            else mret p1);
      b ← deref p1;
      if negb (b =? ch "}") then parse_class_atom is_backward_dir p else nothing.

(** *** Groups *)

Section Term.
(** [re_parse_disjunction], called recursively on the contents of a group. *)
Context (re_parse_disjunction : bool -> parser unit).

(** [s->buf_ptr = p; re_parse_disjunction(s, dir); p = s->buf_ptr]. *)
Definition sub_disjunction (dir : bool) (p : Z) : parser Z :=
  _ ← modify (set_buf_ptr p);
  _ ← re_parse_disjunction dir;
  gets buf_ptr.

(** The label [lookahead:]. *)
Definition term_lookahead (is_neg is_backward_lookahead : bool) (p : Z) : parser atom_result :=
  u ← gets is_unicode;
  size ← code_size;
  cc ← gets capture_count;
  let '(last_atom_start, last_capture_count) :=
    if negb u && negb is_backward_lookahead then (size, cc) else (-1, 0) in
  pos ← re_emit_op_u32 (op2z REOP_lookahead + b2z is_neg) 0;
  p ← sub_disjunction is_backward_lookahead p;
  p ← re_parse_expect p (ch ")");
  _ ← re_emit_op (op2z REOP_match);
  e ← code_error;
  if e : bool then pfail
  else
    size ← code_size;
    _ ← code_put32 pos (size - (pos + 4));
    mret (p, last_atom_start, last_capture_count).

(** The label [parse_capture:]. *)
Definition term_capture (is_backward_dir : bool) (p : Z) : parser atom_result :=
  cc ← gets capture_count;
  if CAPTURE_COUNT_MAX <=? cc then re_parse_error (str "too many captures")
  else
    last_atom_start ← code_size;
    _ ← modify (set_capture_count (cc + 1));
    _ ← re_emit_op_u8 (op2z REOP_save_start + b2z is_backward_dir) cc;
    p ← sub_disjunction is_backward_dir p;
    _ ← re_emit_op_u8 (op2z REOP_save_start + 1 - b2z is_backward_dir) cc;
    p ← re_parse_expect p (ch ")");
    mret (p, last_atom_start, cc).

(** The case ['(']. *)
Definition term_group (is_backward_dir : bool) (p : Z) : parser atom_result :=
  b1 ← deref (p + 1);
  if b1 =? ch "?" then
    b2 ← deref (p + 2);
    if b2 =? ch ":" then
      last_atom_start ← code_size;
      last_capture_count ← gets capture_count;
      p ← sub_disjunction is_backward_dir (p + 3);
      p ← re_parse_expect p (ch ")");
      mret (p, last_atom_start, last_capture_count)
    else if (b2 =? ch "=") || (b2 =? ch "!") then term_lookahead (b2 =? ch "!") false (p + 3)
    else if b2 =? ch "<" then
      b3 ← deref (p + 3);
      if (b3 =? ch "=") || (b3 =? ch "!") then term_lookahead (b3 =? ch "!") true (p + 4)
      else
        '(r, p) ← parse_group_name_u (p + 3);
        if negb (r =? 0) then re_parse_error (str "invalid group name")
        else
          f ← find_group_name;
          if 0 <? f then re_parse_error (str "duplicate group name")
          else
            name ← reads (fun s => cstr (u_buf s));
            _ ← on_names (fun d => dbuf_put d (name ++ [0]));
            t ← gets total_capture_count;
            _ ← modify (set_captures_info t 1);
            term_capture is_backward_dir p
    else re_parse_error (str "invalid group")
  else
    _ ← on_names (fun d => dbuf_putc d 0);
    term_capture is_backward_dir (p + 1).

(** The first [switch] of [re_parse_term]. *)
Definition re_parse_atom (is_backward_dir : bool) : parser atom_result :=
  u ← gets is_unicode;
  da ← gets dotall;
  p ← gets buf_ptr;
  c ← deref p;
  if c =? ch "^" then _ ← re_emit_op (op2z REOP_line_start); no_atom (p + 1)
  else if c =? ch "$" then _ ← re_emit_op (op2z REOP_line_end); no_atom (p + 1)
  else if c =? ch "." then
    last_atom_start ← code_size;
    last_capture_count ← gets capture_count;
    _ ← (if is_backward_dir then re_emit_op (op2z REOP_prev) else mret tt);
    _ ← re_emit_op (op2z (if da : bool then REOP_any else REOP_dot));
    _ ← (if is_backward_dir then re_emit_op (op2z REOP_prev) else mret tt);
    mret (p + 1, last_atom_start, last_capture_count)
  else if c =? ch "{" then term_brace is_backward_dir p
  else if (c =? ch "*") || (c =? ch "+") || (c =? ch "?") then re_parse_error (str "nothing to repeat")
  else if c =? ch "(" then term_group is_backward_dir p
  else if c =? ch "\" then term_escape is_backward_dir p
  else if c =? ch "[" then
    last_atom_start ← code_size;
    last_capture_count ← gets capture_count;
    _ ← (if is_backward_dir then re_emit_op (op2z REOP_prev) else mret tt);
    p ← re_parse_char_class p;
    _ ← (if is_backward_dir then re_emit_op (op2z REOP_prev) else mret tt);
    mret (p, last_atom_start, last_capture_count)
  else if ((c =? ch "]") || (c =? ch "}")) && u then re_parse_error (str "syntax error")
  else parse_class_atom is_backward_dir p.

(** *** Quantifiers *)

(** The second [switch]: [quant_min], [quant_max] and the new pointer, or [None]
    when no quantifier follows. *)
Definition re_parse_quantifier (p : Z) : parser (option (Z * Z * Z)) :=
  u ← gets is_unicode;
  c ← deref p;
  if c =? ch "*" then mret (Some (0, INT32_MAX, p + 1))
  else if c =? ch "+" then mret (Some (1, INT32_MAX, p + 1))
  else if c =? ch "?" then mret (Some (0, 1, p + 1))
  else if c =? ch "{" then
    let p1 := p in
    b1 ← deref (p + 1);
    if negb (is_digit b1) then
      if u : bool then re_parse_error (str "invalid repetition count") else mret None
    else
      '(quant_min, p) ← reads (fun s => parse_digits (buf s) (p + 1) true);
      b ← deref p;
      '(quant_max, p) ←
        (if b =? ch "," then
           b ← deref (p + 1);
           if is_digit b then
             '(quant_max, p) ← reads (fun s => parse_digits (buf s) (p + 1) true);
             if quant_max <? quant_min then re_parse_error (str "invalid repetition count")
             else mret (quant_max, p)
           else mret (INT32_MAX, p + 1)
         else mret (quant_min, p));
      b ← deref p;
      if negb (b =? ch "}") && negb u then mret None
      else p ← re_parse_expect p (ch "}"); mret (Some (quant_min, quant_max, p))
  else mret None.

(** [dbuf_insert(&s->byte_code, pos, len)], with [goto out_of_memory]. *)
Definition code_insert (pos len : Z) : parser unit :=
  r ← on_code (fun d => dbuf_insert d pos len);
  if r <? 0 then re_parse_out_of_memory else mret tt.

(** The code from [pos] on. *)
Definition code_from (pos : Z) : parser (list Z) :=
  reads (fun s => zslice (db_buf (byte_code s)) pos (db_size (byte_code s) - pos)).

(** The quantifier of a simple atom of [len] characters. *)
Definition emit_simple_quantifier (last_atom_start quant_min quant_max len : Z) : parser unit :=
  _ ← re_emit_op (op2z REOP_match);
  _ ← code_insert last_atom_start 17;
  let pos := last_atom_start in
  _ ← code_put8 pos (op2z REOP_simple_greedy_quant);
  size ← code_size;
  _ ← code_put32 (pos + 1) (size - last_atom_start - 17);
  _ ← code_put32 (pos + 5) quant_min;
  _ ← code_put32 (pos + 9) quant_max;
  code_put32 (pos + 13) len.

(** The quantifiers with [quant_min == 0]. *)
Definition emit_quantifier_0 (greedy check : bool) (last_atom_start last_capture_count quant_max len : Z) : parser unit :=
  cc ← gets capture_count;
  let chk := b2z check in
  let split := op2z REOP_split_goto_first + b2z greedy in
  last_atom_start ←
    (if negb (last_capture_count =? cc) then
       _ ← code_insert last_atom_start 3;
       _ ← code_put8 last_atom_start (op2z REOP_save_reset);
       _ ← code_put8 (last_atom_start + 1) last_capture_count;
       _ ← code_put8 (last_atom_start + 2) (cc - 1);
       mret (last_atom_start + 3)
     else mret last_atom_start);
  if quant_max =? 0 then code_set_size last_atom_start
  else if (quant_max =? 1) || (quant_max =? INT32_MAX) then
    let has_goto := quant_max =? INT32_MAX in
    _ ← code_insert last_atom_start (5 + chk);
    _ ← code_put8 last_atom_start split;
    _ ← code_put32 (last_atom_start + 1) (len + 5 * b2z has_goto + chk * 2);
    _ ← (if check then
           _ ← code_put8 (last_atom_start + 1 + 4) (op2z REOP_push_char_pos);
           re_emit_op (op2z REOP_check_advance)
         else mret tt);
    if has_goto then _ ← re_emit_goto (op2z REOP_goto) last_atom_start; mret tt else mret tt
  else
    _ ← code_insert last_atom_start (10 + chk);
    let pos := last_atom_start in
    _ ← code_put8 pos (op2z REOP_push_i32);
    _ ← code_put32 (pos + 1) quant_max;
    _ ← code_put8 (pos + 5) split;
    _ ← code_put32 (pos + 6) (len + 5 + chk * 2);
    _ ← (if check then
           _ ← code_put8 (pos + 10) (op2z REOP_push_char_pos);
           re_emit_op (op2z REOP_check_advance)
         else mret tt);
    _ ← re_emit_goto (op2z REOP_loop) (last_atom_start + 5);
    re_emit_op (op2z REOP_drop).

(** The copy of the atom after the mandatory repetitions, and its loop. *)
Definition emit_atom_copy (greedy check : bool) (last_atom_start len : Z) : parser Z :=
  let chk := b2z check in
  pos ← code_size;
  _ ← re_emit_op_u32 (op2z REOP_split_goto_first + b2z greedy) (len + 5 + chk * 2);
  _ ← (if check then re_emit_op (op2z REOP_push_char_pos) else mret tt);
  _ ← on_code (fun d => dbuf_put_self d last_atom_start len);
  _ ← (if check then re_emit_op (op2z REOP_check_advance) else mret tt);
  mret pos.

(** The quantifiers with [quant_min >= 1]. *)
Definition emit_quantifier_1 (greedy check : bool) (last_atom_start quant_min quant_max len : Z) : parser unit :=
  if (quant_min =? 1) && (quant_max =? INT32_MAX) && negb check then
    _ ← re_emit_goto (op2z REOP_split_next_first - b2z greedy) last_atom_start; mret tt
  else
    last_atom_start ←
      (if quant_min =? 1 then mret last_atom_start
       else
         _ ← code_insert last_atom_start 5;
         _ ← code_put8 last_atom_start (op2z REOP_push_i32);
         _ ← code_put32 (last_atom_start + 1) quant_min;
         _ ← re_emit_goto (op2z REOP_loop) (last_atom_start + 5);
         _ ← re_emit_op (op2z REOP_drop);
         mret (last_atom_start + 5));
    if quant_max =? INT32_MAX then
      pos ← emit_atom_copy greedy check last_atom_start len;
      _ ← re_emit_goto (op2z REOP_goto) pos; mret tt
    else if quant_min <? quant_max then
      _ ← re_emit_op_u32 (op2z REOP_push_i32) (quant_max - quant_min);
      pos ← emit_atom_copy greedy check last_atom_start len;
      _ ← re_emit_goto (op2z REOP_loop) pos;
      re_emit_op (op2z REOP_drop)
    else mret tt.

(** The label [quantifier:]: the code for a quantified atom; the new pointer. *)
Definition emit_quantifier (last_atom_start last_capture_count quant_min quant_max p : Z) : parser Z :=
  b ← deref p;
  let greedy := negb (b =? ch "?") in
  let p := if greedy then p else p + 1 in
  err ← code_error;
  if greedy && err then re_parse_out_of_memory else
  len ← (if greedy && (0 <? quant_max) then
           code ← code_from last_atom_start; lift (re_is_simple_quantifier code)
         else mret 0);
  if 0 <? len then
    _ ← emit_simple_quantifier last_atom_start quant_min quant_max len;
    mret p
  else
    code ← code_from last_atom_start;
    check ← lift (re_need_check_advance code);
    size ← code_size;
    let len := size - last_atom_start in
    _ ← (if quant_min =? 0
         then emit_quantifier_0 greedy check last_atom_start last_capture_count quant_max len
         else emit_quantifier_1 greedy check last_atom_start quant_min quant_max len);
    mret p.

Definition re_parse_term (is_backward_dir : bool) : parser unit :=
  '(p, last_atom_start, last_capture_count) ← re_parse_atom is_backward_dir;
  p ← (if 0 <=? last_atom_start then
         q ← re_parse_quantifier p;
         match q with
         | None => mret p
         | Some (quant_min, quant_max, p) =>
             emit_quantifier last_atom_start last_capture_count quant_min quant_max p
         end
       else mret p);
  modify (set_buf_ptr p).

(** *** Alternatives *)

(** Terms of a lookbehind are emitted in reverse order: the last term, from
    [term_start], moves to [start]. *)
Definition reverse_term (start term_start : Z) : parser unit :=
  end_ ← code_size;
  let term_size := end_ - term_start in
  r ← on_code (fun d => Some (dbuf_realloc d (end_ + term_size)));
  if r <? 0 then pfail
  else
    _ ← code_store (fun b => t ← zslice b start (end_ - start); zsplice b (start + term_size) t);
    code_store (fun b => t ← zslice b end_ term_size; zsplice b start t).

Fixpoint alternative_loop (fuel : nat) (is_backward_dir : bool) (start : Z) : parser unit :=
  match fuel with
  | O => fun _ => Timeout
  | S fuel' =>
      p ← gets buf_ptr;
      e ← gets buf_end;
      if e <=? p then mret tt
      else
        c ← deref p;
        if (c =? ch "|") || (c =? ch ")") then mret tt
        else
          term_start ← code_size;
          _ ← re_parse_term is_backward_dir;
          _ ← (if is_backward_dir then reverse_term start term_start else mret tt);
          alternative_loop fuel' is_backward_dir start
  end.

Definition re_parse_alternative (is_backward_dir : bool) : parser unit :=
  n ← gets (fun s => length (buf s));
  start ← code_size;
  alternative_loop (S n) is_backward_dir start.

(** The loop of [re_parse_disjunction] over the alternatives after the first. *)
Fixpoint disjunction_loop (fuel : nat) (is_backward_dir : bool) (start : Z) : parser unit :=
  match fuel with
  | O => fun _ => Timeout
  | S fuel' =>
      p ← gets buf_ptr;
      c ← deref p;
      if c =? ch "|" then
        _ ← modify (set_buf_ptr (p + 1));
        size ← code_size;
        let len := size - start in
        _ ← code_insert start 5;
        _ ← code_put8 start (op2z REOP_split_next_first);
        _ ← code_put32 (start + 1) (len + 5);
        pos ← re_emit_op_u32 (op2z REOP_goto) 0;
        _ ← re_parse_alternative is_backward_dir;
        size ← code_size;
        _ ← code_put32 pos (size - (pos + 4));
        disjunction_loop fuel' is_backward_dir start
      else mret tt
  end.
End Term.

Fixpoint re_parse_disjunction (fuel : nat) (depth : Z) (is_backward_dir : bool) : parser unit :=
  match fuel with
  | O => fun _ => Timeout
  | S fuel' =>
      if check_stack_overflow depth then re_parse_error (str "stack overflow")
      else
        let rec := re_parse_disjunction fuel' (depth + 1) in
        n ← gets (fun s => length (buf s));
        start ← code_size;
        _ ← re_parse_alternative rec is_backward_dir;
        disjunction_loop rec (S n) is_backward_dir start
  end.

(** *** Compilation *)

Definition flag (re_flags f : Z) : bool := negb (re_flags .& f =? 0).

(** The state [lre_compile] starts from; [pattern] is the string without its
    terminator. *)
Definition init_state (pattern : list Z) (re_flags : Z) (o : aopaque) : REParseState :=
  mkREParseState _ (dbuf_init2 o) (pattern ++ [0]) 0 (zlen pattern) re_flags
    (flag re_flags LRE_FLAG_UNICODE) (flag re_flags LRE_FLAG_IGNORECASE) (flag re_flags LRE_FLAG_DOTALL)
    1 (-1) (-1) o (dbuf_init2 o) (replicate (Z.to_nat TMP_BUF_SIZE) 0).

(** The header and the loop over all start positions. *)
Definition emit_prologue : parser unit :=
  fl ← gets re_flags;
  _ ← re_emit_op fl;
  _ ← re_emit_op 0;
  _ ← re_emit_op 0;
  _ ← on_code (fun d => dbuf_put_u32 d 0);
  _ ← (if flag fl LRE_FLAG_STICKY then mret tt
       else
         _ ← re_emit_op_u32 (op2z REOP_split_goto_first) (1 + 5);
         _ ← re_emit_op (op2z REOP_any);
         _ ← re_emit_op_u32 (op2z REOP_goto) (-(5 + 1 + 5));
         mret tt);
  re_emit_op_u8 (op2z REOP_save_start) 0.

(** The end of [lre_compile]: checks, header fields and group names. *)
Definition emit_epilogue : parser unit :=
  _ ← re_emit_op_u8 (op2z REOP_save_end) 0;
  _ ← re_emit_op (op2z REOP_match);
  p ← gets buf_ptr;
  c ← deref p;
  if negb (c =? 0) then re_parse_error (str "extraneous characters at the end") else
  e ← code_error;
  if e : bool then re_parse_out_of_memory else
  code ← code_from 0;
  stack_size ← lift (compute_stack_size code);
  if stack_size <? 0 then re_parse_error (str "too many imbricated quantifiers") else
  cc ← gets capture_count;
  size ← code_size;
  _ ← code_put8 RE_HEADER_CAPTURE_COUNT cc;
  _ ← code_put8 RE_HEADER_STACK_SIZE stack_size;
  _ ← code_put32 RE_HEADER_BYTECODE_LEN (size - RE_HEADER_LEN);
  gn ← gets group_names;
  if cc - 1 <? db_size gn then
    names ← lift (zslice (db_buf gn) 0 (db_size gn));
    _ ← on_code (fun d => dbuf_put d names);
    code_store (fun b => f ← zget b RE_HEADER_FLAGS; zset b RE_HEADER_FLAGS (u8 (f .| LRE_FLAG_NAMED_GROUPS)))
  else mret tt.

(** The result of [lre_compile]: the bytecode, or [NULL] and the message that
    [pstrcpy] leaves in [error_msg]. *)
Inductive compile_result :=
  | Compiled (bytecode : list Z)
  | CompileError (error_msg : list Z).

(** [fuel] bounds the nesting of groups. *)
Definition lre_compile (fuel : nat) (error_msg : list Z) (pattern : list Z) (re_flags : Z) (o : aopaque)
    : outcome (compile_result * aopaque) :=
  let prog : parser unit :=
    _ ← emit_prologue;
    _ ← re_parse_disjunction fuel 0 false;
    emit_epilogue in
  '(r, s) ← prog (init_state pattern re_flags o);
  match r with
  | Some _ =>
      let gn := dbuf_free (with_opaque (group_names s) (opaque s)) in
      Ok (Compiled (contents (byte_code s)), db_opaque gn)
  | None =>
      let bcd := dbuf_free (with_opaque (byte_code s) (opaque s)) in
      let gn := dbuf_free (with_opaque (group_names s) (db_opaque bcd)) in
      msg ← of_opt (pstrcpy error_msg (zlen error_msg) (u_buf s));
      Ok (CompileError msg, db_opaque gn)
  end.
End Parser.
