(* ===== verification/RegexpLex.v ===== *)
(** The lexical helpers of the regexp compiler: numbers, escapes, group names and the
    scan for captures.  They read a pattern that ends with a NUL byte through bare
    pointers, with no length; the theorems say what they return and that they never
    read past the NUL. *)

From S2P Require Import Prelude CutilsH CString Utf8 DynBuf CharRange UnicodeTables CaseConv UnicodeIndex UnicodeSet.
From S2P Require Import RegexpCode RegexpParse.

(** ** Numbers *)

Definition digits_value (ds : list Z) : Z := fold_left (fun v c => v * 10 + (c - 48)) ds 0.

Lemma fold_digits_ge ds v :
  0 <= v -> Forall (fun c => is_digit c = true) ds -> v <= fold_left (fun v c => v * 10 + (c - 48)) ds v.
Proof.
  intros Hv Hd. revert v Hv. induction Hd as [|c ds Hc Hd IH]; intros v Hv; simpl; [lia|].
  unfold is_digit in Hc. bool_props. specialize (IH (v * 10 + (c - 48)) ltac:(lia)). lia.
Qed.

Section Digits.
Context (buf : list Z).

Lemma is_digit_test c : (c <? ch "0") || (ch "9" <? c) = negb (is_digit c).
Proof.
  unfold is_digit. change (ch "0") with 48. change (ch "9") with 57.
  destruct (Z.ltb_spec c 48), (Z.ltb_spec 57 c), (Z.leb_spec 48 c), (Z.leb_spec c 57); simpl; done || lia.
Qed.

(** The loop on a run of digits: [V] is the exact value so far. *)
Lemma parse_digits_loop_spec fuel pre ds c post V allow :
  buf = pre ++ ds ++ c :: post -> Forall (fun x => is_digit x = true) ds -> is_digit c = false ->
  0 <= V -> (V < INT32_MAX \/ allow = true) -> (length ds < fuel)%nat ->
  let N := fold_left (fun v x => v * 10 + (x - 48)) ds V in
  parse_digits_loop buf fuel (zlen pre) (Z.min INT32_MAX V) allow =
    Some (if (N <? INT32_MAX) || allow then Some (Z.min INT32_MAX N, zlen pre + zlen ds) else None).
Proof.
  intros Hbuf Hds Hc. revert fuel pre V Hbuf.
  induction Hds as [|x ds Hx Hds IH]; intros fuel pre V Hbuf HV Hlt Hf; (destruct fuel as [|fuel]; [simpl in Hf; lia|]);
    cbn [parse_digits_loop fold_left].
  - assert (Hz : zget buf (zlen pre) = Some c) by (rewrite Hbuf; by apply zget_mid). rewrite Hz. cbn [mbind option_bind]. rewrite is_digit_test, Hc. simpl.
    rewrite zlen_nil, Z.add_0_r. destruct Hlt as [Hlt| ->]; [|by rewrite orb_true_r].
    by rewrite (proj2 (Z.ltb_lt _ _) Hlt).
  - assert (Hz : zget buf (zlen pre) = Some x) by (rewrite Hbuf; by apply (zget_mid pre x)). rewrite Hz.
    cbn [mbind option_bind]. rewrite is_digit_test, Hx. cbn [negb].
    assert (Hx' : 48 <= x <= 57) by (unfold is_digit in Hx; bool_props; lia).
    rewrite u64_small by (unfold INT32_MAX, ch; simpl; lia).
    replace (Z.min INT32_MAX V * 10 + x - ch "0") with (Z.min INT32_MAX V * 10 + (x - 48)) by (unfold ch; simpl; lia).
    assert (Hbuf' : buf = (pre ++ [x]) ++ ds ++ c :: post) by (by rewrite Hbuf, <- app_assoc).
    assert (Hpre : zlen (pre ++ [x]) = zlen pre + 1) by zlen_lia.
    replace (zlen pre + zlen (x :: ds)) with (zlen (pre ++ [x]) + zlen ds) by zlen_lia.
    rewrite <- Hpre. simpl in Hf.
    destruct (Z.leb_spec INT32_MAX (Z.min INT32_MAX V * 10 + (x - 48))) as [Hge|Hlt2].
    + assert (HV2 : INT32_MAX <= V * 10 + (x - 48)) by lia. destruct allow.
      * replace INT32_MAX with (Z.min INT32_MAX (V * 10 + (x - 48))) at 1 by lia. apply IH; auto; lia.
      * pose proof (fold_digits_ge ds (V * 10 + (x - 48)) ltac:(lia) Hds). rewrite orb_false_r.
        destruct (Z.ltb_spec (fold_left (fun v x => v * 10 + (x - 48)) ds (V * 10 + (x - 48))) INT32_MAX); [lia|done].
    + assert (V < INT32_MAX) by (unfold INT32_MAX in *; lia).
      replace (Z.min INT32_MAX V * 10 + (x - 48)) with (Z.min INT32_MAX (V * 10 + (x - 48))) by lia.
      apply IH; auto; lia.
Qed.
End Digits.

Lemma parse_digits_spec buf pre ds c post allow :
  buf = pre ++ ds ++ c :: post -> Forall (fun x => is_digit x = true) ds -> is_digit c = false ->
  parse_digits buf (zlen pre) allow =
    Some (if digits_value ds <? INT32_MAX then (digits_value ds, zlen pre + zlen ds)
          else if allow then (INT32_MAX, zlen pre + zlen ds) else (-1, zlen pre)).
Proof.
  intros Hbuf Hds Hc. unfold parse_digits.
  pose proof (parse_digits_loop_spec buf (S (length buf)) pre ds c post 0 allow Hbuf Hds Hc) as Hl.
  change (Z.min INT32_MAX 0) with 0 in Hl. cbv zeta in Hl. rewrite Hl; [|lia|by left|rewrite Hbuf, !length_app; simpl; lia].
  cbn [mbind option_bind]. fold (digits_value ds). f_equal.
  destruct (Z.ltb_spec (digits_value ds) INT32_MAX); simpl.
  - f_equal. lia.
  - destruct allow; simpl; [|done]. f_equal. lia.
Qed.

(** ** Escapes *)

Section Escapes.
Context (buf : list Z) (e : Z) (Hb : bytes_ok buf) (He : zget buf e = Some 0).

(** A read at or before the NUL. *)
Lemma read_at p : 0 <= p <= e -> exists b, zget buf p = Some b /\ 0 <= b < 256 /\ (b <> 0 -> p < e).
Proof.
  intros Hp. pose proof (zget_Some_range _ _ _ He). destruct (zget_in_range buf p) as [b Eb]; [lia|].
  exists b. split; [done|]. split; [by eapply zget_byte|]. intros Hne.
  destruct (Z.eq_dec p e) as [->|]; [congruence|lia].
Qed.

Ltac read p b := let E := fresh "E" in
  destruct (read_at p) as (b & E & ? & ?); [lia|]; rewrite E; cbn [mbind option_bind].

Lemma from_hex_range b : -1 <= from_hex b < 16 /\ (0 <= from_hex b -> b <> 0).
Proof. unfold from_hex. repeat case_match; bool_props; lia. Qed.

Lemma shift_or c h : 0 <= c < 2 ^ 28 -> 0 <= h < 16 -> u32 (c ≪ 4) .| h = c * 16 + h.
Proof. intros Hc Hh. rewrite shiftl_mul, u32_small by lia. change (2 ^ 4) with 16. apply (lor_add_comm 4); [lia|lia|]. by apply Z.mod_mul. Qed.

Lemma escape_hex_spec n p c :
  0 <= p <= e -> 0 <= c -> (c + 1) * 16 ^ Z.of_nat n <= 2 ^ 28 ->
  escape_hex buf n p c = Some None \/
  exists c', escape_hex buf n p c = Some (Some (c', p + Z.of_nat n)) /\ p + Z.of_nat n <= e /\
    0 <= c' < (c + 1) * 16 ^ Z.of_nat n.
Proof.
  revert p c. induction n as [|n IH]; intros p c Hp Hc Hn; cbn [escape_hex].
  { right. exists c. rewrite Z.add_0_r. split; [done|lia]. }
  read p b. destruct (from_hex_range b) as [Hh Hne]. destruct (Z.ltb_spec (from_hex b) 0); [by left|].
  replace (Z.of_nat (S n)) with (Z.of_nat n + 1) in * by lia. rewrite Z.pow_add_r in * by lia.
  assert (0 < 16 ^ Z.of_nat n) by lia. rewrite shift_or by nia.
  destruct (IH (p + 1) (c * 16 + from_hex b)) as [->|(c' & -> & Hle & Hc')]; [lia|lia|nia|by left|].
  right. exists c'. replace (p + 1 + Z.of_nat n) with (p + (Z.of_nat n + 1)) by lia. split; [done|]. split; [lia|nia].
Qed.

Lemma escape_braces_spec fuel p c :
  0 <= p <= e -> 0 <= c -> e - p < Z.of_nat fuel ->
  escape_braces buf fuel p c = Some None \/
  exists c' p', escape_braces buf fuel p c = Some (Some (c', p')) /\ p < p' < e /\ 0 <= c' <= 0x10FFFF.
Proof.
  revert p c. induction fuel as [|fuel IH]; intros p c Hp Hc Hf; [lia|]. cbn [escape_braces].
  read p b. destruct (from_hex_range b) as [Hh Hne]. destruct (Z.ltb_spec (from_hex b) 0); [by left|].
  destruct (Z.ltb_spec 0x10FFFF (u32 (c ≪ 4) .| from_hex b)); [by left|].
  assert (0 <= u32 (c ≪ 4) .| from_hex b) by (apply Z.lor_nonneg; split; [apply u32_range|lia]).
  read (p + 1) b1. destruct (Z.eqb_spec b1 (ch "}")) as [->|].
  { right. eexists _, _. split; [done|]. split; [split; [lia|match goal with Hx : ch _ <> 0 -> _ |- _ => by apply Hx end]|lia]. }
  destruct (IH (p + 1) (u32 (c ≪ 4) .| from_hex b)) as [->|(c' & p' & -> & Hp' & Hc')]; [lia|lia|lia|by left|].
  right. exists c', p'. split; [done|]. lia.
Qed.

Lemma surrogate_range c : is_hi_surrogate c = true -> 0xD800 <= c < 0xDC00.
Proof. unfold is_hi_surrogate. intros H%Z.eqb_eq. rewrite !shiftr_div in H by lia. change (0xD800 / 2 ^ 10) with 54 in H. zdm. Qed.

Lemma lo_surrogate_range c : is_lo_surrogate c = true -> 0xDC00 <= c < 0xE000.
Proof. unfold is_lo_surrogate. intros H%Z.eqb_eq. rewrite !shiftr_div in H by lia. change (0xDC00 / 2 ^ 10) with 55 in H. zdm. Qed.

Lemma from_surrogate_range hi lo :
  is_hi_surrogate hi = true -> is_lo_surrogate lo = true -> 0x10000 <= from_surrogate hi lo <= 0x10FFFF.
Proof.
  intros Hh%surrogate_range Hl%lo_surrogate_range. unfold from_surrogate. rewrite u32_small by lia. lia.
Qed.

(** An escape: a value of [lre_parse_escape], with the pointer inside the pattern. *)
Definition escape_ok (p : Z) (r : option (Z * Z)) : Prop :=
  exists c p', r = Some (c, p') /\ -2 <= c <= 0x10FFFF /\ p <= p' <= e.

Lemma escape_xu_spec c p allow :
  0 <= p <= e ->
  escape_xu buf c p allow = Some None \/
  exists c' p', escape_xu buf c p allow = Some (Some (c', p')) /\ p < p' <= e /\ 0 <= c' <= 0x10FFFF.
Proof.
  intros Hp. pose proof (zget_Some_range _ _ _ He) as Hle. unfold escape_xu. read p b.
  destruct ((b =? ch "{") && negb (allow =? 0)) eqn:Hbr.
  - bool_props. assert (p < e) by (match goal with Hx : b <> 0 -> _ |- _ => apply Hx; subst b; discriminate end).
    destruct (escape_braces_spec (S (length buf)) (p + 1) 0) as [->|(c' & p' & -> & Hp' & Hc')];
      [lia|lia|unfold zlen in Hle; lia|by left|].
    right. exists c', (p' + 1). split; [done|]. lia.
  - set (n := if c =? ch "x" then 2%nat else 4%nat).
    assert (Hn : (2 <= n <= 4)%nat /\ (0 + 1) * 16 ^ Z.of_nat n <= 65536) by (subst n; case_match; (split; [lia|done])).
    clearbody n. destruct Hn as [Hn Hpow].
    destruct (escape_hex_spec n p 0) as [->|(c' & -> & Hle' & Hc')]; [lia|lia|lia|by left|]. cbn [mbind option_bind].
    assert (Hplain : exists c1 p1, Some (Some (c', p + Z.of_nat n)) = Some (Some (c1, p1)) /\ p < p1 <= e /\ 0 <= c1 <= 0x10FFFF)
      by (eexists _, _; split; [done|lia]).
    destruct (is_hi_surrogate c') eqn:Hhi; [|by right]. destruct (allow =? 2); [|by right]. cbn [andb].
    read (p + Z.of_nat n) b0. destruct (Z.eqb_spec b0 (ch "\")) as [->|]; [|by right].
    assert (p + Z.of_nat n < e) by (match goal with Hx : ch "\" <> 0 -> _ |- _ => by apply Hx end).
    read (p + Z.of_nat n + 1) b1. destruct (Z.eqb_spec b1 (ch "u")) as [->|]; [|by right].
    assert (p + Z.of_nat n + 1 < e) by (match goal with Hx : ch "u" <> 0 -> _ |- _ => by apply Hx end).
    destruct (escape_hex_spec 4 (p + Z.of_nat n + 2) 0) as [->|(c1 & -> & Hle1 & Hc1)]; [lia|lia|done|by right|].
    cbn [mbind option_bind]. destruct (is_lo_surrogate c1) eqn:Hlo; [|by right].
    right. exists (from_surrogate c' c1), (p + Z.of_nat n + 6). split; [done|].
    pose proof (from_surrogate_range c' c1 Hhi Hlo). lia.
Qed.

Lemma escape_octal_spec c p : 0 <= c <= 7 -> 0 <= p <= e -> escape_ok p (escape_octal buf c p).
Proof.
  intros Hc Hp. unfold escape_octal, escape_ok. read p b.
  destruct (Z.ltb_spec 7 (u32 (b - ch "0"))); [eexists _, _; split; [done|lia]|].
  assert (Hd : forall x, 0 <= x < 256 -> u32 (x - ch "0") <= 7 -> x <> 0 /\ 0 <= u32 (x - ch "0")).
  { intros x Hx Hu. split; [|apply u32_range]. intros ->. vm_compute in Hu. congruence. }
  destruct (Hd b) as [Hb0 Hv]; [done|done|].
  assert (Hor : forall x v, 0 <= x < 2 ^ 20 -> 0 <= v < 8 -> (x ≪ 3) .| v = x * 8 + v).
  { intros x v Hx Hv'. rewrite shiftl_mul by lia. change (2 ^ 3) with 8. apply (lor_add_comm 3); [lia|lia|]. by apply Z.mod_mul. }
  rewrite Hor by lia. destruct (Z.leb_spec 32 (c * 8 + u32 (b - ch "0"))); [eexists _, _; split; [done|lia]|].
  read (p + 1) b1. destruct (Z.ltb_spec 7 (u32 (b1 - ch "0"))); [eexists _, _; split; [done|lia]|].
  destruct (Hd b1) as [Hb1 Hv1]; [done|done|]. rewrite Hor by lia. eexists _, _. split; [done|lia].
Qed.

Lemma lre_parse_escape_ok p allow : 0 <= p <= e -> escape_ok p (lre_parse_escape buf p allow).
Proof.
  intros Hp. unfold lre_parse_escape. read p c.
  assert (Hsimple : forall v, 0 <= v <= 0x10FFFF -> c <> 0 -> escape_ok p (Some (v, p + 1)))
    by (intros v Hv Hc; eexists _, _; split; [done|lia]).
  do 6 match goal with |- context [if c =? ?x then _ else _] =>
    destruct (Z.eqb_spec c x) as [->|]; [apply Hsimple; [lia|done]|] end.
  destruct ((c =? ch "x") || (c =? ch "u")) eqn:Hxu.
  { assert (c <> 0) by (intros ->; discriminate Hxu).
    destruct (escape_xu_spec c (p + 1) allow) as [->|(c' & p' & -> & Hp' & Hc')]; [lia|..]; cbn [mbind option_bind];
      eexists _, _; (split; [done|lia]). }
  destruct ((ch "0" <=? c) && (c <=? ch "7")) eqn:Hoct; [|eexists _, _; split; [done|lia]].
  change (ch "0") with 48 in *. change (ch "7") with 55 in *. bool_props. destruct (allow =? 2).
  - read (p + 1) b. case_match; eexists _, _; (split; [done|lia]).
  - destruct (escape_octal_spec (c - 48) (p + 1)) as (c' & p' & -> & Hc' & Hp'); [lia|lia|]. eexists _, _. split; [done|lia].
Qed.

(** ** Group names *)

Lemma ident_total q c : 0 <= c -> exists b, (if q =? 0 then lre_js_is_ident_first c else lre_js_is_ident_next c) = Some b.
Proof.
  intros Hc. unfold lre_js_is_ident_first, lre_js_is_ident_next.
  rewrite lre_is_id_start_mem, lre_is_id_continue_mem by done. repeat case_match; eauto.
Qed.

(** Decoding a character before the NUL ends before it. *)
Lemma utf8_nonzero c : 0 < c -> Forall (fun b => b <> 0) (unicode_to_utf8 c).
Proof.
  intros Hc. rewrite unicode_to_utf8_eq by lia. pose proof (fun k => utf8_cont_range k c) as Hk.
  assert (Hd : forall n t, 0 <= n -> 0 < t -> c / 2 ^ n + t <> 0)
    by (intros n t Hn Ht; pose proof (Z.div_pos c (2 ^ n) ltac:(lia) ltac:(lia)); lia).
  repeat case_match; bool_props; repeat constructor; try (apply Hd; lia); try lia;
    match goal with |- utf8_cont ?k _ <> 0 => specialize (Hk k); lia end.
Qed.

Lemma utf8_at p :
  0 <= p <= e -> zget buf p <> Some 0 ->
  exists c p', unicode_from_utf8 buf p UTF8_CHAR_LEN_MAX = Some (c, p') /\
    ((c = -1 /\ p' = p) \/ (0 <= c < 0x80000000 /\ p < p' <= e)).
Proof.
  intros Hp Hnz. destruct (unicode_from_utf8_total buf p UTF8_CHAR_LEN_MAX e Hb Hp He) as [[c p'] E].
  exists c, p'. split; [done|]. destruct (unicode_from_utf8_end _ _ _ _ _ Hb E) as [?|[Hc Hp']]; [auto|]. right.
  destruct (utf8_encode_decode _ _ _ _ _ Hb E Hc) as (Hc' & Hs & _). split; [lia|]. split; [lia|].
  destruct (Z.leb_spec p' e); [done|]. exfalso.
  assert (Hnz' : Forall (fun b => b <> 0) (unicode_to_utf8 c)).
  { apply utf8_nonzero. destruct (Z.eq_dec c 0) as [->|]; [|lia]. exfalso. apply Hnz.
    change (unicode_to_utf8 0) with [0] in Hs. pose proof (zlen_zslice _ _ _ _ Hs) as Hl. rewrite zlen_cons, zlen_nil in Hl.
    pose proof (zget_zslice _ _ _ _ 0 Hs ltac:(lia)) as Hz. by rewrite Z.add_0_r in Hz. }
  pose proof (zget_zslice _ _ _ _ (e - p) Hs ltac:(lia)) as Hz. replace (p + (e - p)) with e in Hz by lia.
  rewrite He in Hz. rewrite Forall_lookup in Hnz'. unfold zget in Hz. case_match; [done|]. by eapply Hnz'.
Qed.

(** The result of parsing a group name at [p]: the buffer keeps its size; on success
    it holds a terminated string and the pointer is after the ['>']. *)
Definition group_name_ok (name : list Z) (p : Z) (r : option (Z * list Z * Z)) : Prop :=
  exists ret name' p', r = Some (ret, name', p') /\ zlen name' = zlen name /\
    (ret = -1 \/ (ret = 0 /\ p < p' <= e /\ exists i, 0 < i < zlen name /\ zget name' i = Some 0)).

Lemma group_name_fail name p name' p' : zlen name' = zlen name -> group_name_ok name p (Some (-1, name', p')).
Proof. intros. eexists _, _, _. split; [done|]. auto. Qed.

Lemma group_name_weaken name name' p p1 r :
  zlen name' = zlen name -> p <= p1 -> group_name_ok name' p1 r -> group_name_ok name p r.
Proof.
  intros Hl Hp (ret & n & p' & -> & Hn & Hr). eexists _, _, _. split; [done|]. split; [lia|].
  destruct Hr as [?|(? & ? & i & ? & ?)]; [auto|]. right. split; [done|]. split; [lia|]. exists i. split; [lia|done].
Qed.

Lemma group_name_loop_ok fuel name q p :
  0 <= q -> q <= zlen name - 1 -> 0 <= p <= e -> e - p < Z.of_nat fuel ->
  group_name_ok name p (group_name_loop buf fuel name (zlen name) q p).
Proof.
  revert name q p. induction fuel as [|fuel IH]; intros name q p Hq Hql Hp Hf; [lia|]. cbn [group_name_loop].
  (* storing the character [c] and going on at [p1] *)
  assert (Hadd : forall c p1, -2 <= c < 0x80000000 -> p <= p1 -> (0 < c -> p < p1 <= e) ->
    group_name_ok name p
      (if 0x10FFFF <? u32 c then Some (-1, name, p)
       else
         ok ← (if q =? 0 then lre_js_is_ident_first c else lre_js_is_ident_next c);
         if negb ok then Some (-1, name, p)
         else if zlen name <? q + UTF8_CHAR_LEN_MAX + 1 then Some (-1, name, p)
         else if c <? 128 then
           name0 ← zset name q c;
           group_name_loop buf fuel name0 (zlen name) (q + 1) p1
         else
           name0 ← zsplice name q (unicode_to_utf8 c);
           group_name_loop buf fuel name0 (zlen name) (q + zlen (unicode_to_utf8 c)) p1)).
  { intros c p1 Hc Hp1 Hadv. destruct (Z.ltb_spec 0x10FFFF (u32 c)) as [|Hu]; [by apply group_name_fail|].
    assert (0 <= c).
    { destruct (Z.leb_spec 0 c); [done|]. exfalso. assert (c = -1 \/ c = -2) as [-> | ->] by lia; by vm_compute in Hu. }
    destruct (Z.eq_dec c 0) as [->|]; [by destruct (q =? 0); apply group_name_fail|].
    destruct (ident_total q c) as [b ->]; [done|]. cbn [mbind option_bind].
    destruct b; [|by apply group_name_fail]. cbn [negb]. unfold UTF8_CHAR_LEN_MAX.
    destruct (Z.ltb_spec (zlen name) (q + 6 + 1)); [by apply group_name_fail|].
    destruct (c <? 128).
    - destruct (zset name q c) as [n1|] eqn:Hz; [|by rewrite zset_in_range in Hz by lia]. cbn [mbind option_bind].
      rewrite <- (zlen_zset _ _ _ _ Hz). eapply group_name_weaken; [by apply (zlen_zset _ _ _ _ Hz)| |apply IH]; 
        rewrite ?(zlen_zset _ _ _ _ Hz); lia.
    - pose proof (unicode_to_utf8_len c ltac:(lia)) as Hul. unfold UTF8_CHAR_LEN_MAX in Hul.
      destruct (zsplice name q (unicode_to_utf8 c)) as [n1|] eqn:Hz; [|by rewrite zsplice_in_range in Hz by lia].
      cbn [mbind option_bind]. pose proof (proj1 (zsplice_spec _ _ _ _ Hz)) as Hl.
      rewrite <- Hl. eapply group_name_weaken; [exact Hl| |apply IH]; rewrite ?Hl; lia. }
  read p c. destruct (Z.eqb_spec c (ch "\")) as [->|].
  { assert (p < e) by (match goal with Hx : ch _ <> 0 -> _ |- _ => by apply Hx end).
    read (p + 1) b. destruct (b =? ch "u"); [|by apply group_name_fail]. cbn [negb].
    destruct (lre_parse_escape_ok (p + 1) 2) as (c & p1 & -> & Hc & Hp1); [lia|]. cbn [mbind option_bind].
    apply Hadd; lia. }
  destruct (Z.eqb_spec c (ch ">")) as [->|].
  { assert (p < e) by (match goal with Hx : ch _ <> 0 -> _ |- _ => by apply Hx end).
    destruct (Z.eqb_spec q 0); [by apply group_name_fail|].
    destruct (zset name q 0) as [n1|] eqn:Hz; [|by rewrite zset_in_range in Hz by lia]. cbn [mbind option_bind].
    eexists _, _, _. split; [done|]. split; [by apply (zlen_zset _ _ _ _ Hz)|]. right. split; [done|]. split; [lia|].
    exists q. split; [lia|]. rewrite (zget_zset _ _ _ _ _ Hz). by rewrite Z.eqb_refl. }
  destruct (Z.leb_spec 128 c) as [H128|H128].
  - destruct (utf8_at p) as (c1 & p1 & -> & Hc1);
      [lia|match goal with E1 : zget buf p = Some c |- _ => rewrite E1; intros [= ->]; lia end|]. cbn [mbind option_bind].
    destruct (is_hi_surrogate c1) eqn:Hhi; [|apply Hadd; lia].
    pose proof (surrogate_range _ Hhi). destruct (read_at p1) as (b1 & Eb1 & _ & _); [lia|]. destruct (Z.eq_dec b1 0) as [->|Hb1].
    { (* the NUL follows *)
      replace (unicode_from_utf8 buf p1 UTF8_CHAR_LEN_MAX) with (Some (0, p1 + 1)); [apply Hadd; lia|].
      unfold unicode_from_utf8. by rewrite Eb1. }
    destruct (utf8_at p1) as (d & p2 & -> & Hd); [lia|congruence|]. cbn [mbind option_bind].
    destruct (is_lo_surrogate d) eqn:Hlo; [|apply Hadd; lia].
    pose proof (from_surrogate_range _ _ Hhi Hlo). pose proof (lo_surrogate_range _ Hlo). apply Hadd; lia.
  - apply Hadd; lia.
Qed.

Lemma re_parse_group_name_ok name p :
  0 < zlen name -> 0 <= p <= e ->
  exists ret name' p', re_parse_group_name buf name (zlen name) p = Some (ret, name', p') /\ zlen name' = zlen name /\
    ((ret = -1 /\ p' = p) \/ (ret = 0 /\ p < p' <= e /\ exists i, 0 < i < zlen name /\ zget name' i = Some 0)).
Proof.
  intros Hn Hp. unfold re_parse_group_name. pose proof (zget_Some_range _ _ _ He) as Hle.
  destruct (group_name_loop_ok (S (length buf)) name 0 p) as (ret & n & p' & -> & Hl & Hr);
    [lia|lia|lia|unfold zlen in *; lia|].
  cbn [mbind option_bind]. eexists _, _, _. split; [done|]. split; [done|]. destruct Hr as [->|(-> & ?)]; auto.
Qed.

(** ** Scanning for captures *)

Lemma strlen_total l i : zget l i = Some 0 -> is_Some (strlen l).
Proof.
  revert i. induction l as [|c l IH]; intros i Hi; [apply zget_Some_range in Hi; unfold zlen in Hi; simpl in Hi; lia|].
  simpl. destruct (Z.eqb_spec c 0); [eauto|]. assert (Hl : zget l (i - 1) = Some 0).
  { unfold zget in *. destruct (Z.ltb_spec i 0); [done|]. destruct (Z.to_nat i) as [|k] eqn:Hk; [by injection Hi|].
    destruct (Z.ltb_spec (i - 1) 0); [lia|]. replace (Z.to_nat (i - 1)) with k by lia. done. }
  destruct (IH _ Hl) as [m ->]. by eexists.
Qed.

Lemma skip_class_ok fuel p :
  0 <= p -> Z.max 0 (e - p) < Z.of_nat fuel -> exists p', skip_class buf fuel e p = Some p' /\ p <= p'.
Proof.
  revert p. induction fuel as [|fuel IH]; intros p Hp Hf; cbn [skip_class].
  { lia. }
  destruct (Z.ltb_spec p e); [|exists p; split; [done|lia]]. read p c.
  destruct (c =? ch "]"); [exists p; split; [done|lia]|].
  destruct (IH (if c =? ch "\" then p + 2 else p + 1)) as (p' & -> & Hp'); [case_match; lia..|].
  exists p'. split; [done|]. case_match; lia.
Qed.

(** The answers of the scan. *)
Definition captures_ok (named : bool) (r : option (Z * Z)) : Prop :=
  exists n h, r = Some (n, h) /\ 0 <= h <= 1 /\
    if named then n = -1 \/ 1 <= n < CAPTURE_COUNT_MAX else 1 <= n <= CAPTURE_COUNT_MAX.

Lemma captures_loop_ok fuel cname p ci h :
  match cname with Some t => is_Some (strlen t) | None => True end ->
  0 <= p -> 1 <= ci < CAPTURE_COUNT_MAX -> 0 <= h <= 1 -> Z.max 0 (e - p) < Z.of_nat fuel ->
  captures_ok (match cname with Some _ => true | None => false end) (captures_loop buf fuel e cname p ci h).
Proof.
  intros Hname. revert p ci h. induction fuel as [|fuel IH]; intros p ci h Hp Hci Hh Hf; [lia|]. cbn [captures_loop].
  assert (Hdone : forall ci h, 1 <= ci <= CAPTURE_COUNT_MAX -> 0 <= h <= 1 ->
    captures_ok (match cname with Some _ => true | None => false end)
      (Some (match cname with Some _ => -1 | None => ci end, h))).
  { intros ci' h' Hci' Hh'. eexists _, _. split; [done|]. split; [done|]. destruct cname; [by left|done]. }
  destruct (Z.ltb_spec p e); [|apply Hdone; unfold CAPTURE_COUNT_MAX in *; lia].
  assert (Hnext : forall p1 h1, p <= p1 -> 0 <= h1 <= 1 ->
    captures_ok (match cname with Some _ => true | None => false end)
      (if CAPTURE_COUNT_MAX <=? ci + 1 then Some (match cname with Some _ => -1 | None => ci + 1 end, h1)
       else captures_loop buf fuel e cname (p1 + 1) (ci + 1) h1)).
  { intros p1 h1 Hp1 Hh1. unfold CAPTURE_COUNT_MAX in *. destruct (Z.leb_spec 255 (ci + 1)); [apply Hdone; lia|apply IH; lia]. }
  assert (Hskip : forall p1, p < p1 -> captures_ok (match cname with Some _ => true | None => false end)
      (captures_loop buf fuel e cname p1 ci h)) by (intros; apply IH; lia).
  read p c. destruct (Z.eqb_spec c (ch "(")) as [->|].
  - read (p + 1) b1. destruct (Z.eqb_spec b1 (ch "?")) as [->|]; [|apply Hnext; lia].
    assert (p + 1 < e) by (match goal with Hx : ch "?" <> 0 -> _ |- _ => by apply Hx end).
    read (p + 2) b2. destruct (Z.eqb_spec b2 (ch "<")) as [->|]; [|apply Hskip; lia].
    assert (p + 2 < e) by (match goal with Hx : ch "<" <> 0 -> _ |- _ => by apply Hx end).
    read (p + 3) b3. destruct (negb (b3 =? ch "=") && negb (b3 =? ch "!")); [|apply Hskip; lia].
    destruct cname as [t|]; [|apply Hnext; lia].
    assert (Hz : zlen (replicate (Z.to_nat TMP_BUF_SIZE) 0) = TMP_BUF_SIZE) by (rewrite zlen_replicate; done).
    destruct (re_parse_group_name_ok (replicate (Z.to_nat TMP_BUF_SIZE) 0) (p + 3)) as (r & name & p' & Eg & Hl & Hr); [by rewrite Hz|lia|].
    rewrite Hz in Eg. rewrite Eg. cbn [mbind option_bind].
    destruct Hr as [[-> ->]|(-> & Hp' & i & Hi & Hz0)]; simpl; [apply Hnext; lia|].
    destruct (strlen_total _ _ Hz0) as [m Hm]. destruct Hname as [k Hk]. unfold streq, cstr. rewrite Hm, Hk.
    cbn [mbind option_bind]. destruct (bool_decide _); [|apply Hnext; lia].
    eexists _, _. split; [done|]. split; [lia|]. by right.
  - destruct (c =? ch "\"); [apply Hskip; lia|]. destruct (Z.eqb_spec c (ch "[")) as [->|]; [|apply Hskip; lia].
    destruct (skip_class_ok (S (length buf)) (p + 1 + b2z (ch "[" =? ch "]"))) as (p' & -> & Hp').
    { simpl. lia. } { pose proof (zget_Some_range _ _ _ He). unfold zlen in *. simpl. lia. }
    cbn [mbind option_bind]. simpl in Hp'. apply Hskip. lia.
Qed.
End Escapes.

(** ** Claims *)

(** [parse_digits] on a run of decimal digits returns its value and the pointer
    after the run; from [INT32_MAX] on it returns [INT32_MAX] when overflow is allowed,
    and -1 with the pointer unchanged otherwise, however many digits there are. *)
Theorem parse_digits_value buf pre ds c post allow :
  buf = pre ++ ds ++ c :: post -> Forall (fun x => is_digit x = true) ds -> is_digit c = false ->
  parse_digits buf (zlen pre) allow =
    Some (if digits_value ds <? INT32_MAX then (digits_value ds, zlen pre + zlen ds)
          else if allow then (INT32_MAX, zlen pre + zlen ds) else (-1, zlen pre)).
Proof. apply parse_digits_spec. Qed.

Lemma parse_digits_value_witness :
  parse_digits (str "a{4294967297}" ++ [0]) 2 true = Some (INT32_MAX, 12).
Proof.
  apply (parse_digits_value (str "a{4294967297}" ++ [0]) (str "a{") (str "4294967297") (ch "}") [0] true);
    [reflexivity|repeat constructor|reflexivity].
Defined.

(** C31: [lre_parse_escape] stays inside a NUL-terminated pattern.  From any pointer up
    to the NUL it returns: a code point, -1 or -2, with the new pointer still at most at
    the NUL, for braces, surrogate pairs and octal digits alike. *)
Theorem lre_parse_escape_safe buf e p allow :
  bytes_ok buf -> zget buf e = Some 0 -> 0 <= p <= e ->
  exists c p', lre_parse_escape buf p allow = Some (c, p') /\ -2 <= c <= 0x10FFFF /\ p <= p' <= e.
Proof. intros. by apply lre_parse_escape_ok. Qed.

Lemma lre_parse_escape_safe_witness :
  exists c p', lre_parse_escape (str "\u{1F60" ++ [0]) 1 2 = Some (c, p') /\ -2 <= c <= 0x10FFFF /\ 1 <= p' <= 7.
Proof. apply (lre_parse_escape_safe (str "\u{1F60" ++ [0]) 7 1 2); [repeat constructor; compute; done|done|done]. Defined.

(** C30: [re_parse_group_name] stays inside a NUL-terminated pattern and inside the
    name buffer, whose size it is given.  It returns -1 with the pointer unchanged, or 0
    with the pointer after the ['>'] and a terminated, non-empty name in the buffer. *)
Theorem re_parse_group_name_safe buf e name p :
  bytes_ok buf -> zget buf e = Some 0 -> 0 < zlen name -> 0 <= p <= e ->
  exists ret name' p', re_parse_group_name buf name (zlen name) p = Some (ret, name', p') /\ zlen name' = zlen name /\
    ((ret = -1 /\ p' = p) \/ (ret = 0 /\ p < p' <= e /\ exists i, 0 < i < zlen name /\ zget name' i = Some 0)).
Proof. intros. by apply re_parse_group_name_ok. Qed.

Lemma re_parse_group_name_safe_witness :
  exists ret name' p', re_parse_group_name (str "a\u{62}>" ++ [0]) (replicate 16 7) 16 0 = Some (ret, name', p') /\
    zlen name' = 16 /\
    ((ret = -1 /\ p' = 0) \/ (ret = 0 /\ 0 < p' <= 8 /\ exists i, 0 < i < 16 /\ zget name' i = Some 0)).
Proof.
  apply (re_parse_group_name_safe (str "a\u{62}>" ++ [0]) 8 (replicate 16 7) 0); [repeat constructor; compute; done|done..].
Defined.

(** C29: the scan for captures ends and stays inside a NUL-terminated pattern, with or
    without a name to look for.  The count it returns is between 1 and
    [CAPTURE_COUNT_MAX]; looking for a name gives -1 or an index below the maximum. *)
Theorem re_parse_captures_safe buf e cname :
  bytes_ok buf -> zget buf e = Some 0 -> 0 <= e ->
  match cname with Some t => is_Some (strlen t) | None => True end ->
  captures_ok (match cname with Some _ => true | None => false end) (re_parse_captures buf e cname).
Proof.
  intros Hb He H0 Hn. unfold re_parse_captures. pose proof (zget_Some_range _ _ _ He).
  apply captures_loop_ok; try done; unfold zlen in *; lia.
Qed.

Lemma re_parse_captures_safe_witness :
  captures_ok true (re_parse_captures (str "(?<a>x)[(](?<b" ++ [0]) 14 (Some (str "b" ++ [0]))).
Proof.
  apply (re_parse_captures_safe (str "(?<a>x)[(](?<b" ++ [0]) 14 (Some (str "b" ++ [0])));
    [repeat constructor; compute; done|done|done|vm_compute; eauto].
Defined.
