(* ===== verification/RegexpChars.v ===== *)
(** Facts about the character macros of the matcher: reading forward and backward
    are inverse to each other except in the middle of a surrogate pair, and the
    binary search of a range instruction decides membership. *)

From S2P Require Import Prelude CutilsH CaseConv RegexpCode DynBuf RegexpExec.

Section Chars.
Context (cbuf_type : Z) (cbuf : list Z).

Abbreviation GET := (GET_CHAR cbuf_type cbuf).
Abbreviation PREV := (PREV_CHAR cbuf_type cbuf).

(** [p] is inside a surrogate pair of a subject read as UTF-16. *)
Definition mid_pair (p : Z) : Prop :=
  cbuf_type = 2 /\ exists hi lo, zget cbuf (p - 1) = Some hi /\ zget cbuf p = Some lo /\
    is_hi_surrogate hi = true /\ is_lo_surrogate lo = true.

Lemma hi_not_lo c : is_hi_surrogate c = true -> is_lo_surrogate c = false.
Proof.
  unfold is_hi_surrogate, is_lo_surrogate. intros H%Z.eqb_eq. rewrite H. reflexivity.
Qed.

Lemma lo_not_hi c : is_lo_surrogate c = true -> is_hi_surrogate c = false.
Proof.
  unfold is_hi_surrogate, is_lo_surrogate. intros H%Z.eqb_eq. rewrite H. reflexivity.
Qed.

(** What [GET_CHAR] consumes: one code unit, or a surrogate pair. *)
Lemma GET_CHAR_cases p c q :
  GET p (zlen cbuf) = Some (c, q) ->
  (q = p + 1 /\ zget cbuf p = Some c /\ ~ mid_pair q) \/
  (q = p + 2 /\ cbuf_type = 2 /\ exists hi lo, zget cbuf p = Some hi /\ zget cbuf (p + 1) = Some lo /\
     is_hi_surrogate hi = true /\ is_lo_surrogate lo = true /\ c = from_surrogate hi lo).
Proof.
  unfold GET_CHAR. destruct (zget cbuf p) as [u|] eqn:Hu; [|done]. cbn [mbind option_bind].
  destruct (Z.eqb_spec cbuf_type 0) as [H0|].
  { intros [= <- <-]. left. split_and!; [done|done|]. intros [? _]. lia. }
  destruct (is_hi_surrogate u) eqn:Hhi; cbn [andb].
  2:{ intros [= <- <-]. left. split_and!; [done|done|]. intros (_ & h & l & Hh & _ & Hh' & _).
      rewrite Z.add_simpl_r, Hu in Hh. congruence. }
  destruct (Z.eqb_spec cbuf_type 2); cbn [andb].
  2:{ intros [= <- <-]. left. split_and!; [done|done|]. by intros [? _]. }
  destruct (Z.ltb_spec (p + 1) (zlen cbuf)).
  2:{ intros [= <- <-]. left. split_and!; [done|done|]. intros (_ & h & l & _ & Hl & _).
      apply zget_Some_range in Hl. lia. }
  destruct (zget cbuf (p + 1)) as [lo|] eqn:Hlo; [|done]. cbn [mbind option_bind].
  destruct (is_lo_surrogate lo) eqn:Hls; intros [= <- <-].
  - right. split_and!; [lia|done|]. exists u, lo. auto.
  - left. split_and!; [done|done|]. intros (_ & h & l & _ & Hl & _ & Hl'). congruence.
Qed.

Lemma GET_CHAR_total p e : 0 <= p < zlen cbuf -> e <= zlen cbuf -> exists c q, GET p e = Some (c, q) /\ p < q.
Proof.
  intros Hp He. unfold GET_CHAR. destruct (zget_in_range cbuf p) as [u Hu]; [lia|]. rewrite Hu.
  cbn [mbind option_bind]. destruct (cbuf_type =? 0); [eexists _, _; split; [done|lia]|].
  destruct (is_hi_surrogate u && (cbuf_type =? 2) && (p + 1 <? e)) eqn:Hb; [|eexists _, _; split; [done|lia]].
  bool_props. destruct (zget_in_range cbuf (p + 1)) as [lo Hlo]; [lia|]. rewrite Hlo. cbn [mbind option_bind].
  destruct (is_lo_surrogate lo); eexists _, _; (split; [done|lia]).
Qed.

Lemma GET_CHAR_bounds p e c q : GET p e = Some (c, q) -> e <= zlen cbuf -> 0 <= p < q /\ q <= zlen cbuf.
Proof.
  unfold GET_CHAR. intros H He. destruct (zget cbuf p) as [u|] eqn:Hu; [|done]. cbn [mbind option_bind] in H.
  apply zget_Some_range in Hu. destruct (cbuf_type =? 0); [injection H as <- <-; lia|].
  destruct (is_hi_surrogate u && (cbuf_type =? 2) && (p + 1 <? e)) eqn:Hb; [|injection H as <- <-; lia].
  bool_props. destruct (zget cbuf (p + 1)) as [lo|]; [|done]. cbn [mbind option_bind] in H.
  destruct (is_lo_surrogate lo); injection H as <- <-; lia.
Qed.

(** A character just read does not end inside a pair. *)
Lemma GET_CHAR_boundary p c q : GET p (zlen cbuf) = Some (c, q) -> ~ mid_pair q.
Proof.
  intros [(-> & _ & H)|(-> & _ & hi & lo & Hhi & Hlo & _ & Hls & _)]%GET_CHAR_cases; [done|].
  intros (_ & h & l & Hh & _ & Hh' & _). replace (p + 2 - 1) with (p + 1) in Hh by lia.
  apply lo_not_hi in Hls. congruence.
Qed.

(** Stepping back over a character just read. *)
Lemma PREV_GET_CHAR p c q :
  GET p (zlen cbuf) = Some (c, q) ->
  PREV q 0 = Some p \/ (mid_pair p /\ 0 <= p - 1 /\ PREV q 0 = Some (p - 1)).
Proof.
  intros HG. pose proof (GET_CHAR_bounds _ _ _ _ HG ltac:(lia)) as Hb.
  apply GET_CHAR_cases in HG as [(-> & Hc & _)|(-> & Ht & hi & lo & Hhi & Hlo & Hh & Hl & _)].
  - unfold PREV_CHAR. rewrite Z.add_simpl_r, Hc. cbn [mbind option_bind].
    destruct (Z.eqb_spec cbuf_type 0); [destruct (Z.ltb_spec p 0); [lia|by left]|].
    destruct (is_lo_surrogate c) eqn:Hl; cbn [andb]; [|by left].
    destruct (Z.eqb_spec cbuf_type 2); cbn [andb]; [|by left].
    destruct (Z.ltb_spec 0 p); [|by left].
    destruct (zget_in_range cbuf (p - 1)) as [h Hh]; [lia|]. rewrite Hh. cbn [mbind option_bind].
    destruct (is_hi_surrogate h) eqn:Hhs; [|by left].
    right. split; [|split; [lia|done]]. split; [done|]. eauto 8.
  - left. unfold PREV_CHAR. replace (p + 2 - 1) with (p + 1) by lia. rewrite Hlo. cbn [mbind option_bind].
    destruct (Z.eqb_spec cbuf_type 0); [lia|]. rewrite Hl, Ht. cbn [andb Z.eqb Pos.eqb].
    destruct (Z.ltb_spec 0 (p + 1)); [|lia]. rewrite Z.add_simpl_r, Hhi. cbn [mbind option_bind].
    by rewrite Hh.
Qed.

(** [n] characters lead from [p] to [q]. *)
Inductive advances : nat -> Z -> Z -> Prop :=
  | adv_0 p : 0 <= p <= zlen cbuf -> advances 0 p p
  | adv_S n p c r q : GET p (zlen cbuf) = Some (c, r) -> advances n r q -> advances (S n) p q.

Lemma advances_bounds n p q : advances n p q -> 0 <= p /\ p + Z.of_nat n <= q /\ q <= zlen cbuf.
Proof.
  induction 1 as [p Hp|n p c r q HG _ IH]; [lia|].
  apply GET_CHAR_bounds in HG; [|lia]. lia.
Qed.

Lemma advances_add n m p q r : advances n p q -> advances m q r -> advances (n + m) p r.
Proof. induction 1; [done|]. intros. simpl. econstructor; eauto. Qed.

Lemma prev_chars_add a b q :
  prev_chars cbuf_type cbuf (a + b) q 0 =
  (p ← prev_chars cbuf_type cbuf a q 0; prev_chars cbuf_type cbuf b p 0).
Proof.
  revert q. induction a as [|a IH]; intros q; simpl; [done|].
  destruct (PREV q 0); simpl; [apply IH|done].
Qed.

Lemma prev_chars_advances n p q :
  advances n p q -> ~ mid_pair p -> prev_chars cbuf_type cbuf n q 0 = Some p.
Proof.
  induction 1 as [p Hp|n p c r q HG Ha IH]; intros Hmid; [done|].
  replace (S n) with (n + 1)%nat by lia. rewrite prev_chars_add, IH by (by eapply GET_CHAR_boundary).
  simpl. destruct (PREV_GET_CHAR _ _ _ HG) as [-> | [? _]]; done.
Qed.

(** Going back as many characters as were read stays inside the subject. *)
Lemma prev_chars_back n p q :
  advances n p q -> exists p', prev_chars cbuf_type cbuf n q 0 = Some p' /\ 0 <= p' <= q.
Proof.
  intros Ha. pose proof (advances_bounds _ _ _ Ha). destruct Ha as [p Hp|n p c r q HG Ha]; [exists p; split; [done|lia]|].
  replace (S n) with (n + 1)%nat by lia.
  rewrite prev_chars_add, (prev_chars_advances _ _ _ Ha) by (by eapply GET_CHAR_boundary).
  simpl. destruct (PREV_GET_CHAR _ _ _ HG) as [-> | (_ & ? & ->)]; simpl; eexists; (split; [done|lia]).
Qed.

Lemma prev_chars_bounds n q p : prev_chars cbuf_type cbuf n q 0 = Some p -> q <= zlen cbuf -> 0 <= q -> 0 <= p <= q.
Proof.
  revert q. induction n as [|n IH]; intros q; simpl; [intros [= ->]; lia|].
  destruct (PREV q 0) as [r|] eqn:Hr; [|done]. simpl. intros H Hq Hq0.
  assert (0 <= r < q).
  { revert Hr. unfold PREV_CHAR. destruct (cbuf_type =? 0).
    - destruct (Z.ltb_spec (q - 1) 0); [done|]. intros [= <-]. lia.
    - destruct (zget cbuf (q - 1)) eqn:Hz; [|done]. apply zget_Some_range in Hz. cbn [mbind option_bind].
      destruct (_ && _ && _) eqn:Hb; [|intros [= <-]; lia]. bool_props.
      destruct (zget cbuf (q - 1 - 1)) eqn:Hz2; [|done]. apply zget_Some_range in Hz2. cbn [mbind option_bind].
      destruct (is_hi_surrogate _); intros [= <-]; lia. }
  apply IH in H; lia.
Qed.
End Chars.

(** ** The binary search of the range instructions *)

Section Range.
Context (s : REExecContext) (get : list Z -> Z -> option Z) (sz : Z) (lo hi : Z -> Z) (pc n : Z).

(** The [n] pairs of bounds after [pc]. *)
Definition bounds_at : Prop :=
  forall k, 0 <= k < n ->
    get (bc s) (pc + k * (2 * sz)) = Some (lo k) /\ get (bc s) (pc + k * (2 * sz) + sz) = Some (hi k).

Lemma range_search_bsearch fuel c i j :
  bounds_at -> 0 < sz <= 4 -> n < 65536 -> 0 <= i -> i <= j + 1 -> j < n -> lo 0 <= c -> j - i + 1 < Z.of_nat fuel ->
  range_search s get sz fuel pc c i j =
    Ok (match bsearch lo (fun k => hi k + 1) fuel c i j with Some _ => true | None => false end).
Proof.
  intros Hb Hsz Hn. revert i j. induction fuel as [|fuel IH]; intros i j Hi Hij Hj Hc Hf; [lia|].
  cbn [range_search bsearch]. destruct (Z.leb_spec i j); [|done]. cbv zeta.
  rewrite (Z.add_comm i j), (u32_small (j + i)) by lia.
  assert (Hm : i <= (j + i) / 2 <= j) by zdm. set (m := (j + i) / 2) in *. clearbody m.
  rewrite !(u32_small (m * _)), !(u32_small (m * _ + _)) by nia.
  destruct (Hb m) as [Hl Hh]; [lia|]. rewrite Hl, Z.add_assoc, Hh. cbn [mbind outcome_bind of_opt].
  destruct (Z.ltb_spec c (lo m)).
  - assert (0 < m) by (destruct (Z.eq_dec m 0); [subst; lia|lia]).
    rewrite u32_small by lia. apply IH; lia.
  - destruct (Z.ltb_spec (hi m) c), (Z.leb_spec (hi m + 1) c); try lia; [|done].
    rewrite u32_small by lia. apply IH; lia.
Qed.

(** The search decides membership in one of the ranges. *)
Lemma range_search_spec fuel c :
  bounds_at -> 0 < sz <= 4 -> 1 <= n < 65536 -> lo 0 <= c -> n < Z.of_nat fuel ->
  (forall k l, 0 <= k -> k < l -> l < n -> hi k < lo l) -> (forall k, 0 <= k < n -> lo k <= hi k) ->
  exists b, range_search s get sz fuel pc c 0 (n - 1) = Ok b /\
    (b = true <-> exists k, 0 <= k < n /\ lo k <= c <= hi k).
Proof.
  intros Hb Hsz Hn Hc Hf Hord Hne. rewrite range_search_bsearch by lia || done.
  eexists. split; [done|].
  pose proof (bsearch_spec lo (fun k => hi k + 1) fuel c 0 (n - 1)) as Hs.
  destruct (bsearch _ _ fuel c 0 (n - 1)) as [k|].
  - destruct Hs as [Hk Hkc]; [intros a b ? ? ?; specialize (Hord a b); lia|
      intros a ?; specialize (Hne a); lia|lia|].
    split; [|done]. intros _. exists k. lia.
  - split; [done|]. intros (k & Hk & Hkc). exfalso. revert Hkc. 
    assert (Hno : ~ (lo k <= c < hi k + 1)); [|lia]. apply Hs; [intros a b ? ? ?; specialize (Hord a b); lia|
      intros a ?; specialize (Hne a); lia|lia|lia].
Qed.

(** Without the order the search still ends, inside the table. *)
Lemma range_search_total fuel c :
  bounds_at -> 0 < sz <= 4 -> 1 <= n < 65536 -> lo 0 <= c -> n < Z.of_nat fuel ->
  exists b, range_search s get sz fuel pc c 0 (n - 1) = Ok b.
Proof. intros. rewrite range_search_bsearch by lia || done. eauto. Qed.
End Range.

(** ** Claims *)

(** stepping back undoes reading.  From a position that is not inside a surrogate
    pair, after reading any number of characters forward with [GET_CHAR], the same
    number of [PREV_CHAR] leads back to the start, in all three character modes. *)
Theorem prev_chars_undo cbuf_type cbuf n p q :
  advances cbuf_type cbuf n p q -> ~ mid_pair cbuf_type cbuf p -> prev_chars cbuf_type cbuf n q 0 = Some p.
Proof. apply prev_chars_advances. Qed.

(** A pair and a single unit, in UTF-16 mode. *)
Lemma prev_chars_undo_witness : prev_chars 2 [0xd834; 0xdf06; 97] 2 3 0 = Some 0.
Proof.
  apply (prev_chars_undo 2 [0xd834; 0xdf06; 97] 2 0 3).
  - econstructor; [vm_compute; reflexivity|]. econstructor; [vm_compute; reflexivity|]. constructor. vm_compute. split; discriminate.
  - intros (_ & hi & lo & H & _). discriminate.
Defined.

(** the binary search of the range instructions is a membership test: on bounds in
    increasing order it ends, stays inside the table and answers whether one of the
    ranges contains the character, for 16-bit and for 32-bit bounds. *)
Theorem range_search_membership s get sz lo hi pc n fuel c :
  bounds_at s get sz lo hi pc n -> 0 < sz <= 4 -> 1 <= n < 65536 -> lo 0 <= c -> n < Z.of_nat fuel ->
  (forall k l, 0 <= k -> k < l -> l < n -> hi k < lo l) -> (forall k, 0 <= k < n -> lo k <= hi k) ->
  exists b, range_search s get sz fuel pc c 0 (n - 1) = Ok b /\
    (b = true <-> exists k, 0 <= k < n /\ lo k <= c <= hi k).
Proof. apply range_search_spec. Qed.

(** The digits and the lower-case letters. *)
Lemma range_search_membership_witness :
  let s := {| bc := [48; 0; 57; 0; 97; 0; 122; 0]; cbuf := []; cbuf_type := 1; capture_count := 1; stack_size_max := 0;
              multi_line := false; ignore_case := false; is_unicode := false; state_size := 48 |} in
  exists b, range_search s get_u16 2 3 0 100 0 1 = Ok b /\
    (b = true <-> exists k, 0 <= k < 2 /\ (if k =? 0 then 48 else 97) <= 100 <= (if k =? 0 then 57 else 122)).
Proof.
  intros s.
  apply (range_search_membership s get_u16 2 (fun k => if k =? 0 then 48 else 97) (fun k => if k =? 0 then 57 else 122) 0 2 3 100);
    try lia; try (vm_compute; congruence).
  - intros k Hk. assert (k = 0 \/ k = 1) as [-> | ->] by lia; split; reflexivity.
  - intros k l ? ? ?. assert (k = 0) as -> by lia. assert (l = 1) as -> by lia. reflexivity.
  - intros k Hk. destruct (k =? 0); lia.
Defined.
