(* ===== verification/RegexpSafe.v ===== *)
(** Safety of the regexp matcher: a checker for bytecode and the proof that
    [lre_exec] never leaves its buffers on bytecode that passes it.

    The checker assigns a stack depth to every instruction by one scan of the code
    (the scan of [compute_stack_size]) and requires that every jump respects it.
    The proof is a one-step theorem for the instructions and the state stack, lifted
    to the interpreter by induction on its fuel. *)

From S2P Require Import Prelude CutilsH CaseConv RegexpCode DynBuf RegexpExec RegexpChars.

(** ** The checker *)

Definition is_char_op (op : REOPCodeEnum) : bool :=
  match op with
  | REOP_char | REOP_char32 | REOP_dot | REOP_any | REOP_range | REOP_range32 => true
  | _ => false
  end.

Definition is_assert_op (op : REOPCodeEnum) : bool :=
  match op with
  | REOP_line_start | REOP_line_end | REOP_word_boundary | REOP_not_word_boundary => true
  | _ => false
  end.

(** The instruction at [pos] lies inside the code and a range has a bound. *)
Definition instr_fits (bc : list Z) (pos : Z) (op : REOPCodeEnum) (len : Z) : bool :=
  (0 <=? pos) && (pos + len <=? zlen bc) &&
  match op with
  | REOP_range | REOP_range32 => match get_u16 bc (pos + 1) with Some n => 1 <=? n | None => false end
  | _ => true
  end.

(** The atom of a simple quantifier: single-character instructions and assertions
    from [pos] up to [end_]; the number of characters. *)
Fixpoint simple_atom (fuel : nat) (bc : list Z) (pos end_ : Z) : option nat :=
  match fuel with
  | O => None
  | S fuel' =>
      if pos =? end_ then Some 0%nat
      else
        '(op, len) ← reop_len bc pos;
        if instr_fits bc pos op len then
          if is_char_op op then n ← simple_atom fuel' bc (pos + len) end_; Some (S n)
          else if is_assert_op op then simple_atom fuel' bc (pos + len) end_
          else None
        else None
  end.

(** The stack depth after an instruction. *)
Definition depth_after (op : REOPCodeEnum) (d : Z) : Z :=
  match op with
  | REOP_push_i32 | REOP_push_char_pos => d + 1
  | REOP_drop | REOP_check_advance => d - 1
  | _ => d
  end.

(** The stack depth before every instruction, by a linear scan. *)
Fixpoint scan_depths (fuel : nat) (bc : list Z) (pos end_ d : Z) : option (gmap Z Z) :=
  match fuel with
  | O => None
  | S fuel' =>
      if pos <? end_ then
        '(op, len) ← reop_len bc pos;
        D ← scan_depths fuel' bc (pos + len) end_ (depth_after op d);
        Some (<[pos := d]> D)
      else Some ∅
  end.

Section Check.
Context (bc : list Z) (D : gmap Z Z) (cc smax : Z).

Definition at_depth (p d : Z) : bool := bool_decide (D !! p = Some d).

(** The target of the jump whose offset is at [p]. *)
Definition target_ok (p d : Z) : bool :=
  match get_u32 bc p with Some v => at_depth (p + 4 + i32 v) d | None => false end.

Definition byte_below (p n : Z) : bool :=
  match zget bc p with Some v => v <? n | None => false end.

(** The simple quantifier at [pos]: its atom ends with a [REOP_match], advances by
    the stored number of characters, and the code after it is reached. *)
Definition greedy_ok (pos d : Z) : bool :=
  match get_u32 bc (pos + 1), get_u32 bc (pos + 13) with
  | Some off, Some char_count =>
      let e := pos + 17 + i32 off in
      at_depth e d && (0 <? char_count) &&
      bool_decide (zget bc (e - 1) = Some (op2z REOP_match)) &&
      bool_decide (simple_atom (S (length bc)) bc (pos + 17) (e - 1) = Some (Z.to_nat char_count))
  | _, _ => false
  end.

Definition instr_ok (pos d : Z) : bool :=
  match reop_len bc pos with
  | None => false
  | Some (op, len) =>
      instr_fits bc pos op len && (0 <=? d) && (d <=? smax) &&
      match op with
      | REOP_invalid => false
      | REOP_match => true
      | REOP_char | REOP_char32 | REOP_dot | REOP_any | REOP_line_start | REOP_line_end
      | REOP_word_boundary | REOP_not_word_boundary | REOP_back_reference
      | REOP_backward_back_reference | REOP_range | REOP_range32 | REOP_prev => at_depth (pos + len) d
      | REOP_goto => target_ok (pos + 1) d
      | REOP_split_goto_first | REOP_split_next_first | REOP_lookahead | REOP_negative_lookahead =>
          at_depth (pos + len) d && target_ok (pos + 1) d
      | REOP_save_start | REOP_save_end => byte_below (pos + 1) cc && at_depth (pos + len) d
      | REOP_save_reset => byte_below (pos + 2) cc && at_depth (pos + len) d
      | REOP_loop => (0 <? d) && at_depth (pos + len) d && target_ok (pos + 1) d
      | REOP_push_i32 | REOP_push_char_pos => (d <? smax) && at_depth (pos + len) (d + 1)
      | REOP_drop | REOP_check_advance => (0 <? d) && at_depth (pos + len) (d - 1)
      | REOP_simple_greedy_quant => greedy_ok pos d
      end
  end.

Definition code_ok : bool := forallb (fun '(pos, d) => instr_ok pos d) (map_to_list D).
End Check.

Definition is_byteb (x : Z) : bool := (0 <=? x) && (x <? 256).

(** The whole of a compiled regexp. *)
Definition check_code (bc_buf : list Z) : bool :=
  forallb is_byteb bc_buf &&
  match zget bc_buf RE_HEADER_CAPTURE_COUNT, zget bc_buf RE_HEADER_STACK_SIZE,
        get_u32 bc_buf RE_HEADER_BYTECODE_LEN with
  | Some cc, Some ss, Some len =>
      match scan_depths (S (length bc_buf)) bc_buf RE_HEADER_LEN (RE_HEADER_LEN + len) 0 with
      | Some D => at_depth D RE_HEADER_LEN 0 && code_ok bc_buf D cc ss
      | None => false
      end
  | _, _, _ => false
  end.

(** ** Reading operands *)

Lemma get_u16_in bc p : bytes_ok bc -> 0 <= p -> p + 2 <= zlen bc -> exists v, get_u16 bc p = Some v /\ 0 <= v < 65536.
Proof.
  intros Hb Hp Hl. unfold get_u16. rewrite zslice_in_range by lia. eexists. split; [done|].
  pose proof (le_combine_range (take (Z.to_nat 2) (drop (Z.to_nat p) bc))) as Hr.
  rewrite zlen_take, zlen_drop in Hr. replace (Z.min _ _) with 2 in Hr by lia. apply Hr.
  by apply Forall_take, Forall_drop.
Qed.

Lemma get_u32_in bc p : bytes_ok bc -> 0 <= p -> p + 4 <= zlen bc -> exists v, get_u32 bc p = Some v /\ 0 <= v < 2 ^ 32.
Proof.
  intros Hb Hp Hl. unfold get_u32. rewrite zslice_in_range by lia. eexists. split; [done|].
  pose proof (le_combine_range (take (Z.to_nat 4) (drop (Z.to_nat p) bc))) as Hr.
  rewrite zlen_take, zlen_drop in Hr. replace (Z.min _ _) with 4 in Hr by lia. apply Hr.
  by apply Forall_take, Forall_drop.
Qed.

(** The length of an instruction is the size of its opcode, plus the bounds of a
    range. *)
Lemma reop_len_op bc pos op len :
  reop_len bc pos = Some (op, len) ->
  zget bc pos = Some (op2z op) /\
  len = match op with
        | REOP_range => 3 + default 0 (get_u16 bc (pos + 1)) * 4
        | REOP_range32 => 3 + default 0 (get_u16 bc (pos + 1)) * 8
        | _ => reop_size op
        end.
Proof.
  unfold reop_len. destruct (zget bc pos) as [b|] eqn:Hb; [|done]. cbn [mbind option_bind].
  destruct (z2op b) as [o|] eqn:Ho; [|done]. cbn [mbind option_bind]. apply z2op_Some in Ho as ->.
  destruct o; try (intros [= <- <-]; done);
    (destruct (get_u16 bc (pos + 1)) as [v|]; [|done]; cbn [mbind option_bind]; intros [= <- <-]; done).
Qed.

(** ** One character or one assertion *)

Section Simple.
Context `{!Allocator} (s : REExecContext) (Hbytes : bytes_ok (bc s)).

Abbreviation GETC := (GET_CHAR (cbuf_type s) (cbuf s)).

(** A read of [bc] that the checker guarantees. *)
Ltac read16 p := let v := fresh "v" in let H := fresh "Hv" in
  destruct (get_u16_in (bc s) p Hbytes) as (v & H & ?); [lia|lia|]; rewrite H; cbn [mbind outcome_bind of_opt].
Ltac read32 p := let v := fresh "v" in let H := fresh "Hv" in
  destruct (get_u32_in (bc s) p Hbytes) as (v & H & ?); [lia|lia|]; rewrite H; cbn [mbind outcome_bind of_opt].

(** The two outcomes of an instruction that consumes a character. *)
Definition char_result (r : outcome step_result) (pc' cptr sl : Z) (d : REExecData) : Prop :=
  r = Ok (SNoMatch d) \/
  exists c q, GETC cptr (cbuf_end s) = Some (c, q) /\ r = Ok (SNext pc' q sl d).

Lemma test_char_result val pc cptr sl d :
  0 <= cptr <= cbuf_end s -> char_result (test_char s val pc cptr sl d) pc cptr sl d.
Proof.
  intros Hc. unfold test_char, char_result. destruct (Z.leb_spec (cbuf_end s) cptr); [by left|].
  destruct (GET_CHAR_total (cbuf_type s) (cbuf s) cptr (cbuf_end s)) as (c & q & Hg & _);
    [unfold cbuf_end in *; lia|unfold cbuf_end; lia|].
  unfold get_char. rewrite Hg. cbn [mbind outcome_bind of_opt].
  destruct (val =? canon s c); [right; eauto|by left].
Qed.

(** The bounds of a range instruction at [pc]. *)
Lemma range_bounds16 pc n :
  0 <= pc -> pc + n * 4 <= zlen (bc s) ->
  bounds_at s get_u16 2 (fun k => default 0 (get_u16 (bc s) (pc + k * 4)))
    (fun k => default 0 (get_u16 (bc s) (pc + k * 4 + 2))) pc n.
Proof.
  intros Hp Hl k Hk.
  destruct (get_u16_in (bc s) (pc + k * 4) Hbytes) as (v & Hv & _); [lia|lia|].
  destruct (get_u16_in (bc s) (pc + k * 4 + 2) Hbytes) as (w & Hw & _); [lia|lia|].
  change (2 * 2) with 4. by rewrite Hv, Hw.
Qed.

Lemma range_bounds32 pc n :
  0 <= pc -> pc + n * 8 <= zlen (bc s) ->
  bounds_at s get_u32 4 (fun k => default 0 (get_u32 (bc s) (pc + k * 8)))
    (fun k => default 0 (get_u32 (bc s) (pc + k * 8 + 4))) pc n.
Proof.
  intros Hp Hl k Hk.
  destruct (get_u32_in (bc s) (pc + k * 8) Hbytes) as (v & Hv & _); [lia|lia|].
  destruct (get_u32_in (bc s) (pc + k * 8 + 4) Hbytes) as (w & Hw & _); [lia|lia|].
  change (2 * 4) with 8. by rewrite Hv, Hw.
Qed.

Lemma op_range_result pc cptr sl d n :
  0 <= pc -> get_u16 (bc s) pc = Some n -> 1 <= n < 65536 -> pc + 2 + 4 * n <= zlen (bc s) ->
  0 <= cptr <= cbuf_end s -> char_result (op_range s pc cptr sl d) (pc + 2 + 4 * n) cptr sl d.
Proof.
  intros Hp Hn Hn1 Hl Hc. unfold op_range, char_result. rewrite Hn. cbn [mbind outcome_bind of_opt].
  destruct (Z.leb_spec (cbuf_end s) cptr); [by left|].
  destruct (GET_CHAR_total (cbuf_type s) (cbuf s) cptr (cbuf_end s)) as (c & q & Hg & _);
    [unfold cbuf_end in *; lia|unfold cbuf_end; lia|].
  unfold get_char. rewrite Hg. cbn [mbind outcome_bind of_opt].
  pose proof (range_bounds16 (pc + 2) n ltac:(lia) ltac:(lia)) as Hb.
  destruct (get_u16_in (bc s) (pc + 2) Hbytes) as (lo & Hlo & _); [lia|lia|]. rewrite Hlo.
  cbn [mbind outcome_bind of_opt]. destruct (Z.ltb_spec (canon s c) lo); [by left|].
  rewrite (u32_small (n - 1)), (u32_small ((n - 1) * 4 + 2)) by lia.
  read16 (pc + 2 + ((n - 1) * 4 + 2)).
  destruct ((0xffff <=? canon s c) && (v =? 0xffff)); [right; eauto|].
  destruct (v <? canon s c); [by left|].
  destruct (range_search_total s get_u16 2 _ _ (pc + 2) n (S (Z.to_nat n)) (canon s c) Hb) as [b ->];
    [lia|lia|rewrite Z.mul_0_l, Z.add_0_r, Hlo; simpl; lia|lia|].
  cbn [mbind outcome_bind]. destruct b; [right; eauto|by left].
Qed.

Lemma op_range32_result pc cptr sl d n :
  0 <= pc -> get_u16 (bc s) pc = Some n -> 1 <= n < 65536 -> pc + 2 + 8 * n <= zlen (bc s) ->
  0 <= cptr <= cbuf_end s -> char_result (op_range32 s pc cptr sl d) (pc + 2 + 8 * n) cptr sl d.
Proof.
  intros Hp Hn Hn1 Hl Hc. unfold op_range32, char_result. rewrite Hn. cbn [mbind outcome_bind of_opt].
  destruct (Z.leb_spec (cbuf_end s) cptr); [by left|].
  destruct (GET_CHAR_total (cbuf_type s) (cbuf s) cptr (cbuf_end s)) as (c & q & Hg & _);
    [unfold cbuf_end in *; lia|unfold cbuf_end; lia|].
  unfold get_char. rewrite Hg. cbn [mbind outcome_bind of_opt].
  pose proof (range_bounds32 (pc + 2) n ltac:(lia) ltac:(lia)) as Hb.
  destruct (get_u32_in (bc s) (pc + 2) Hbytes) as (lo & Hlo & _); [lia|lia|]. rewrite Hlo.
  cbn [mbind outcome_bind of_opt]. destruct (Z.ltb_spec (canon s c) lo); [by left|].
  rewrite (u32_small (n - 1)), (u32_small ((n - 1) * 8 + 4)) by lia.
  read32 (pc + 2 + ((n - 1) * 8 + 4)).
  destruct (v <? canon s c); [by left|].
  destruct (range_search_total s get_u32 4 _ _ (pc + 2) n (S (Z.to_nat n)) (canon s c) Hb) as [b ->];
    [lia|lia|rewrite Z.mul_0_l, Z.add_0_r, Hlo; simpl; lia|lia|].
  cbn [mbind outcome_bind]. destruct b; [right; eauto|by left].
Qed.

Lemma instr_fits_spec pos op len :
  instr_fits (bc s) pos op len = true -> 0 <= pos /\ pos + len <= zlen (bc s) /\
  (op = REOP_range \/ op = REOP_range32 -> exists n, get_u16 (bc s) (pos + 1) = Some n /\ 1 <= n).
Proof.
  unfold instr_fits. intros Hf. bool_props. split; [done|]. split; [done|].
  intros [->| ->]; (destruct (get_u16 (bc s) (pos + 1)) as [n|]; [|done]); exists n; bool_props; auto.
Qed.

Lemma char_step op pos len cptr sl d :
  reop_len (bc s) pos = Some (op, len) -> is_char_op op = true -> instr_fits (bc s) pos op len = true ->
  0 <= cptr <= cbuf_end s ->
  char_result (exec_step s op (pos + 1) cptr sl d) (pos + len) cptr sl d.
Proof.
  intros Hop Hc Hfit Hcp. apply reop_len_op in Hop as [_ Hlen].
  apply instr_fits_spec in Hfit as (Hp & Hl & Hr).
  assert (Hget : cptr <> cbuf_end s -> exists c q, GETC cptr (cbuf_end s) = Some (c, q)).
  { intros Hne. destruct (GET_CHAR_total (cbuf_type s) (cbuf s) cptr (cbuf_end s)) as (c & q & Hg & _);
      [unfold cbuf_end in *; lia|unfold cbuf_end; lia|eauto]. }
  destruct op; try discriminate Hc; cbn [reop_size] in Hlen; cbn [exec_step].
  - subst len. read16 (pos + 1). replace (pos + 3) with (pos + 1 + 2) by lia. by apply test_char_result.
  - subst len. read32 (pos + 1). replace (pos + 5) with (pos + 1 + 4) by lia. by apply test_char_result.
  - subst len. unfold op_dot, char_result. destruct (Z.eqb_spec cptr (cbuf_end s)); [by left|].
    destruct Hget as (c & q & Hg); [done|]. unfold get_char. rewrite Hg. cbn [mbind outcome_bind of_opt].
    destruct (is_line_terminator c); [by left|right; eauto].
  - subst len. unfold op_any, char_result. destruct (Z.eqb_spec cptr (cbuf_end s)); [by left|].
    destruct Hget as (c & q & Hg); [done|]. unfold get_char. rewrite Hg. cbn [mbind outcome_bind of_opt].
    right; eauto.
  - destruct Hr as (n & Hn & Hn1); [by left|]. rewrite Hn in Hlen. simpl in Hlen.
    destruct (get_u16_in (bc s) (pos + 1) Hbytes) as (n' & Hn' & ?); [lia|lia|]. replace n' with n in * by congruence.
    replace (pos + len) with (pos + 1 + 2 + 4 * n) by lia. apply op_range_result; try done; lia.
  - destruct Hr as (n & Hn & Hn1); [by right|]. rewrite Hn in Hlen. simpl in Hlen.
    destruct (get_u16_in (bc s) (pos + 1) Hbytes) as (n' & Hn' & ?); [lia|lia|]. replace n' with n in * by congruence.
    replace (pos + len) with (pos + 1 + 2 + 8 * n) by lia. apply op_range32_result; try done; lia.
Qed.

Lemma PEEK_CHAR_total p : 0 <= p < cbuf_end s -> exists c, PEEK_CHAR (cbuf_type s) (cbuf s) p (cbuf_end s) = Some c.
Proof.
  intros Hp. unfold PEEK_CHAR, cbuf_end in *. destruct (zget_in_range (cbuf s) p) as [u Hu]; [lia|].
  rewrite Hu. cbn [mbind option_bind]. destruct (cbuf_type s =? 0); [eauto|].
  destruct (_ && _ && _) eqn:Hb; [|eauto]. bool_props.
  destruct (zget_in_range (cbuf s) (p + 1)) as [lo Hlo]; [lia|]. rewrite Hlo. cbn [mbind option_bind].
  destruct (is_lo_surrogate lo); eauto.
Qed.

Lemma PEEK_PREV_CHAR_total p : 0 < p <= cbuf_end s -> exists c, PEEK_PREV_CHAR (cbuf_type s) (cbuf s) p 0 = Some c.
Proof.
  intros Hp. unfold PEEK_PREV_CHAR, cbuf_end in *. destruct (zget_in_range (cbuf s) (p - 1)) as [u Hu]; [lia|].
  rewrite Hu. cbn [mbind option_bind]. destruct (cbuf_type s =? 0); [eauto|].
  destruct (_ && _ && _) eqn:Hb; [|eauto]. bool_props.
  destruct (zget_in_range (cbuf s) (p - 1 - 1)) as [hi Hhi]; [lia|]. rewrite Hhi. cbn [mbind option_bind].
  destruct (is_hi_surrogate hi); eauto.
Qed.

Lemma word_boundary_result b pc cptr sl d :
  0 <= cptr <= cbuf_end s ->
  op_word_boundary s b pc cptr sl d = Ok (SNoMatch d) \/
  op_word_boundary s b pc cptr sl d = Ok (SNext pc cptr sl d).
Proof.
  intros Hc. unfold op_word_boundary.
  assert (Hv1 : exists v1, (if cptr =? 0 then Ok false else
    c ← of_opt (PEEK_PREV_CHAR (cbuf_type s) (cbuf s) cptr 0); Ok (is_word_char c)) = Ok v1).
  { destruct (Z.eqb_spec cptr 0); [eauto|].
    destruct (PEEK_PREV_CHAR_total cptr) as [c ->]; [lia|]. eauto. }
  assert (Hv2 : exists v2, (if cbuf_end s <=? cptr then Ok false else
    c ← of_opt (PEEK_CHAR (cbuf_type s) (cbuf s) cptr (cbuf_end s)); Ok (is_word_char c)) = Ok v2).
  { destruct (Z.leb_spec (cbuf_end s) cptr); [eauto|].
    destruct (PEEK_CHAR_total cptr) as [c ->]; [lia|]. eauto. }
  destruct Hv1 as [v1 ->], Hv2 as [v2 ->]. cbn [mbind outcome_bind]. case_match; auto.
Qed.

Lemma assert_step op pos len cptr sl d :
  reop_len (bc s) pos = Some (op, len) -> is_assert_op op = true -> 0 <= cptr <= cbuf_end s ->
  exec_step s op (pos + 1) cptr sl d = Ok (SNoMatch d) \/
  exec_step s op (pos + 1) cptr sl d = Ok (SNext (pos + len) cptr sl d).
Proof.
  intros Hop Ha Hc. apply reop_len_op in Hop as [_ Hlen].
  destruct op; try discriminate Ha; cbn [reop_size] in Hlen; subst len; cbn [exec_step];
    try by apply word_boundary_result.
  - unfold op_line_start. destruct (Z.eqb_spec cptr 0); [auto|]. destruct (multi_line s); cbn [negb]; [|auto].
    destruct (PEEK_PREV_CHAR_total cptr) as [c ->]; [lia|]. cbn [mbind outcome_bind of_opt]. case_match; auto.
  - unfold op_line_end. destruct (Z.eqb_spec cptr (cbuf_end s)); [auto|]. destruct (multi_line s); cbn [negb]; [|auto].
    destruct (PEEK_CHAR_total cptr) as [c ->]; [lia|]. cbn [mbind outcome_bind of_opt]. case_match; auto.
Qed.

(** ** The atom of a simple quantifier *)

(** [n] single-character instructions, and assertions, from [pos] to [e]. *)
Inductive simple_at (e : Z) : Z -> nat -> Prop :=
  | sa_end : simple_at e e 0
  | sa_char pos op len n :
      reop_len (bc s) pos = Some (op, len) -> is_char_op op = true ->
      instr_fits (bc s) pos op len = true -> simple_at e (pos + len) n -> simple_at e pos (S n)
  | sa_assert pos op len n :
      reop_len (bc s) pos = Some (op, len) -> is_assert_op op = true ->
      instr_fits (bc s) pos op len = true -> simple_at e (pos + len) n -> simple_at e pos n.

Lemma simple_atom_at fuel pos e n : simple_atom fuel (bc s) pos e = Some n -> simple_at e pos n.
Proof.
  revert pos n. induction fuel as [|fuel IH]; intros pos n; cbn [simple_atom]; [done|].
  destruct (Z.eqb_spec pos e) as [->|]; [intros [= <-]; constructor|].
  destruct (reop_len (bc s) pos) as [[op len]|] eqn:Hop; [|done]. cbn [mbind option_bind].
  destruct (instr_fits (bc s) pos op len) eqn:Hf; [|done].
  destruct (is_char_op op) eqn:Hc.
  - destruct (simple_atom fuel (bc s) (pos + len) e) as [m|] eqn:Hm; [|done].
    cbn [mbind option_bind]. intros [= <-]. by eapply sa_char; eauto.
  - destruct (is_assert_op op) eqn:Ha; [|done]. intros Hm. by eapply sa_assert; eauto.
Qed.

Lemma reop_len_pos bc pos op len : reop_len bc pos = Some (op, len) -> bytes_ok bc -> 1 <= len.
Proof.
  intros Hop%reop_len_op Hb. destruct Hop as [_ ->].
  assert (Hd : 0 <= default 0 (get_u16 bc (pos + 1))).
  { unfold get_u16. destruct (zslice bc (pos + 1) 2) as [l|] eqn:Hz; simpl; [|lia].
    apply le_combine_range. unfold zslice in Hz. case_match; [|done]. injection Hz as <-.
    by apply Forall_take, Forall_drop. }
  destruct op; try apply reop_size_pos; lia.
Qed.

Lemma simple_at_le e pos n : simple_at e pos n -> pos <= e.
Proof.
  induction 1 as [|? ? ? ? Hop _ _ _ IH|? ? ? ? Hop _ _ _ IH];
    [lia|apply reop_len_pos in Hop; [lia|done]..].
Qed.

Lemma exec_step_match op : is_char_op op = true \/ is_assert_op op = true ->
  op <> REOP_match /\ op <> REOP_simple_greedy_quant.
Proof. intros [?|?]; destruct op; done. Qed.

(** One instruction of the interpreter, other than the two special ones. *)
Lemma backtrack_step fuel sl pc cptr nr d op :
  zget (bc s) pc = Some (op2z op) -> op <> REOP_match -> op <> REOP_simple_greedy_quant ->
  lre_exec_backtrack s (S fuel) sl pc cptr nr d =
  (r ← exec_step s op (pc + 1) cptr sl d;
   match r with
   | SNext pc cptr stack_len d => lre_exec_backtrack s fuel stack_len pc cptr nr d
   | SNoMatch d =>
       if nr then Ok (RetNoMatch, d) else
       r ← recurse_loop s false (state_stack d) d;
       match r with
       | RDone ret d => Ok (if ret : bool then RetMatch else RetNoMatch, d)
       | RResume pc cptr stack_len d => lre_exec_backtrack s fuel stack_len pc cptr nr d
       end
   | SError d => Ok (RetError, d)
   end).
Proof.
  intros Hb Hm Hg. cbn [lre_exec_backtrack]. rewrite Hb. cbn [mbind outcome_bind of_opt].
  rewrite z2op_op2z. cbn [mbind outcome_bind of_opt]. rewrite decide_False by done.
  destruct op; done.
Qed.

(** Running the atom: it terminates within its length, changes nothing but the
    character pointer, and either fails or advances by exactly [n] characters. *)
Lemma simple_run e pos n fuel sl cptr d :
  simple_at e pos n -> zget (bc s) e = Some (op2z REOP_match) -> 0 <= cptr <= cbuf_end s ->
  let r := lre_exec_backtrack s fuel sl pos cptr true d in
  (r = Timeout /\ Z.of_nat fuel <= e - pos) \/ r = Ok (RetNoMatch, d) \/
  exists q, r = Ok (RetCptr q, d) /\ advances (cbuf_type s) (cbuf s) n cptr q.
Proof.
  intros Hs He. revert fuel cptr.
  induction Hs as [|pos op len n Hop Hc Hf Hs IH|pos op len n Hop Ha Hf Hs IH]; intros fuel cptr Hcp r.
  - destruct fuel as [|fuel]; [left; split; [done|lia]|]. subst r. cbn [lre_exec_backtrack].
    rewrite He. cbn [mbind outcome_bind of_opt]. rewrite z2op_op2z. right. right.
    exists cptr. split; [done|]. constructor. unfold cbuf_end in *. lia.
  - destruct fuel as [|fuel].
    { left. split; [done|]. apply simple_at_le in Hs. apply reop_len_pos in Hop; [lia|done]. }
    subst r. pose proof (reop_len_op _ _ _ _ Hop) as [Hb _]. pose proof (reop_len_pos _ _ _ _ Hop Hbytes).
    destruct (exec_step_match op ltac:(auto)) as [? ?]. rewrite (backtrack_step _ _ _ _ _ _ op) by done.
    destruct (char_step op pos len cptr sl d Hop Hc Hf Hcp) as [-> | (c & q & Hg & ->)];
      cbn [mbind outcome_bind]; [by right; left|].
    pose proof (GET_CHAR_bounds _ _ _ _ _ _ Hg ltac:(unfold cbuf_end; lia)).
    destruct (IH fuel q) as [[-> ?]|[-> |(q' & -> & Hadv)]]; [unfold cbuf_end; lia|left; split; [done|lia]|by right; left|].
    right. right. exists q'. split; [done|]. econstructor; [exact Hg|done].
  - destruct fuel as [|fuel].
    { left. split; [done|]. apply simple_at_le in Hs. apply reop_len_pos in Hop; [lia|done]. }
    subst r. pose proof (reop_len_op _ _ _ _ Hop) as [Hb _]. pose proof (reop_len_pos _ _ _ _ Hop Hbytes).
    destruct (exec_step_match op ltac:(auto)) as [? ?]. rewrite (backtrack_step _ _ _ _ _ _ op) by done.
    destruct (assert_step op pos len cptr sl d Hop Ha Hcp) as [-> | ->]; cbn [mbind outcome_bind]; [by right; left|].
    destruct (IH fuel cptr Hcp) as [[-> ?]|[-> |Hq]]; [left; split; [done|lia]|by right; left|by right; right].
Qed.
End Simple.

(** ** The invariant *)

Section Safe.
Context `{!Allocator} (s : REExecContext) (D : gmap Z Z).

Abbreviation cc := (capture_count s).
Abbreviation smax := (stack_size_max s).

(** What the checker established, and the sizes of the header fields. *)
Record code_checked : Prop := {
  ck_bytes : bytes_ok (bc s);
  ck_code : forall pos d, D !! pos = Some d -> instr_ok (bc s) D cc smax pos d = true;
  ck_smax : 0 <= smax < 256;
  ck_cc : 0 <= cc;
  ck_len : zlen (cbuf s) < 2 ^ 31 }.
Context (Hck : code_checked).

Definition cptr_ok (p : Z) : Prop := 0 <= p <= cbuf_end s.

(** The first [2 * capture_count] captures are [NULL] or point into the subject. *)
Definition caps_ok (c : list (option Z)) : Prop :=
  2 * cc <= zlen c /\
  forall i p, 0 <= i < 2 * cc -> zget c i = Some (Some p) -> cptr_ok p.

(** The first [n] slots of a stack are initialised. *)
Definition filled (st : list (option Z)) (n : Z) : Prop :=
  0 <= n <= zlen st /\ forall i, 0 <= i < n -> exists v, zget st i = Some (Some v).

(** A greedy state: a quantifier of the code, and room to step back. *)
Definition greedy_state (rs : REExecState) : Prop :=
  D !! (rs_pc rs - 1) = Some (rs_stack_len rs) /\
  reop_len (bc s) (rs_pc rs - 1) = Some (REOP_simple_greedy_quant, 17) /\
  1 <= rs_count rs < 2 ^ 64 /\
  exists chars p, get_u32 (bc s) (rs_pc rs + 12) = Some chars /\
    prev_chars (cbuf_type s) (cbuf s) (Z.to_nat (rs_count rs) * Z.to_nat chars) (rs_cptr rs) 0 = Some p.

Record state_ok (rs : REExecState) : Prop := {
  so_caps : caps_ok (rs_capture rs);
  so_caps_len : zlen (rs_capture rs) = 2 * cc;
  so_stack : filled (rs_stack rs) (rs_stack_len rs);
  so_smax : rs_stack_len rs <= smax;
  so_cptr : cptr_ok (rs_cptr rs);
  so_pc : match rs_type rs with
          | RE_EXEC_STATE_GREEDY_QUANT => greedy_state rs
          | _ => D !! rs_pc rs = Some (rs_stack_len rs)
          end }.

Record data_ok (d : REExecData) : Prop := {
  do_caps : caps_ok (capture d);
  do_stack : zlen (stack d) = smax;
  do_states : Forall state_ok (state_stack d) }.

Record thread_ok (pc cptr sl : Z) (d : REExecData) : Prop := {
  to_pc : D !! pc = Some sl;
  to_cptr : cptr_ok cptr;
  to_filled : filled (stack d) sl }.

Definition step_ok (r : step_result) : Prop :=
  match r with
  | SNext pc cptr sl d => data_ok d /\ thread_ok pc cptr sl d
  | SNoMatch d | SError d => data_ok d
  end.

Lemma depth_bounds pos d : D !! pos = Some d -> 0 <= d <= smax.
Proof.
  intros Hd%(ck_code Hck). unfold instr_ok in Hd. destruct (reop_len (bc s) pos) as [[op len]|]; [|done].
  bool_props. lia.
Qed.

(** *** Saving and restoring *)

Lemma filled_zslice st n sl : filled st n -> zslice st 0 n = Some sl -> filled sl n.
Proof.
  intros [Hn Hf] Hs. pose proof (zlen_zslice _ _ _ _ Hs). split; [lia|].
  intros i Hi. rewrite (zget_zslice _ _ _ _ _ Hs) by lia. by apply Hf.
Qed.

Lemma push_state_ok sl pc cptr type count d :
  data_ok d -> filled (stack d) sl -> sl <= smax -> cptr_ok cptr ->
  (forall c st, match type with
    | RE_EXEC_STATE_GREEDY_QUANT => greedy_state (Build_REExecState type (u8 sl) count cptr pc c st)
    | _ => D !! pc = Some sl end) ->
  exists b d', push_state s sl pc cptr type count d = Ok (b, d') /\ data_ok d' /\ stack d' = stack d.
Proof.
  intros [Hc Hst Hss] Hf Hsl Hcp Hpc. unfold push_state.
  set (grown := if _ <? _ then _ else (true, d)).
  assert (Hgrow : exists b d1, grown = (b, d1) /\
      capture d1 = capture d /\ stack d1 = stack d /\ state_stack d1 = state_stack d).
  { subst grown. destruct (_ <? _); [|exists true, d; auto]. cbv zeta. destruct (realloc_func _ _) as [o [f|]]; eauto 10. }
  destruct Hgrow as (b & d1 & Hg & Ec & Es & Ess). clearbody grown. subst grown. cbv zeta. destruct b.
  2:{ exists false, d1. split; [done|]. split; [|done]. split; by rewrite ?Ec, ?Es, ?Ess. }
  pose proof (ck_cc Hck). pose proof (ck_smax Hck). destruct Hc as [Hcl Hci].
  destruct (zslice (capture d1) 0 (2 * cc)) as [c|] eqn:Hzc; [|by rewrite zslice_in_range in Hzc by (rewrite ?Ec; lia)].
  cbn [mbind outcome_bind of_opt]. destruct (zslice (stack d1) 0 sl) as [st|] eqn:Hzs.
  2:{ destruct Hf as [? _]. by rewrite zslice_in_range in Hzs by (rewrite ?Es; lia). }
  cbn [mbind outcome_bind of_opt]. eexists _, _. split; [done|]. split; [|done].
  assert (u8 sl = sl) as Hu by (apply u8_small; destruct Hf; lia).
  split; simpl; rewrite ?Ec, ?Es, ?Ess; [by split|done|]. constructor; [|done].
  rewrite Ec in Hzc. rewrite Es in Hzs. pose proof (zlen_zslice _ _ _ _ Hzc).
  split; simpl; rewrite ?Hu; try done.
  - split; [lia|]. intros i p Hi Hp. rewrite (zget_zslice _ _ _ _ _ Hzc) in Hp by lia. by apply (Hci i).
  - by eapply filled_zslice.
  - specialize (Hpc c st). rewrite Hu in Hpc. by destruct type.
Qed.

Lemma restore_capture_ok rs d :
  state_ok rs -> data_ok d ->
  exists d', restore_capture rs d = Ok d' /\ data_ok d' /\ stack d' = stack d /\ state_stack d' = state_stack d.
Proof.
  intros Hrs [[Hcl Hci] Hst Hss]. unfold restore_capture. pose proof (so_caps_len _ Hrs) as Hl.
  destruct (zsplice (capture d) 0 (rs_capture rs)) as [c|] eqn:Hz;
    [|by rewrite zsplice_in_range in Hz by lia].
  cbn [mbind outcome_bind of_opt]. eexists. split; [done|]. split; [|done]. split; simpl; try done.
  pose proof (proj1 (zsplice_spec _ _ _ _ Hz)). split; [lia|]. intros i p Hi Hp.
  rewrite (zget_zsplice _ _ _ _ _ Hz) in Hp. case_match; bool_props.
  - rewrite Z.sub_0_r in Hp. by apply (proj2 (so_caps _ Hrs) i).
  - by apply (Hci i).
Qed.

Lemma restore_stack_ok rs d :
  state_ok rs -> data_ok d ->
  exists d', restore_stack rs d = Ok d' /\ data_ok d' /\ filled (stack d') (rs_stack_len rs) /\
    state_stack d' = state_stack d.
Proof.
  intros Hrs [Hc Hst Hss]. unfold restore_stack. destruct (so_stack _ Hrs) as [Hn Hf].
  pose proof (so_smax _ Hrs).
  destruct (zslice (rs_stack rs) 0 (rs_stack_len rs)) as [b|] eqn:Hz; [|by rewrite zslice_in_range in Hz by lia].
  cbn [mbind outcome_bind of_opt]. pose proof (zlen_zslice _ _ _ _ Hz) as Hb.
  destruct (zsplice (stack d) 0 b) as [st|] eqn:Hz2; [|by rewrite zsplice_in_range in Hz2 by lia].
  cbn [mbind outcome_bind of_opt]. pose proof (proj1 (zsplice_spec _ _ _ _ Hz2)).
  eexists. split; [done|]. split; [split; simpl; [done|lia|done]|]. split; [|done]. simpl.
  split; [lia|]. intros i Hi. rewrite (zget_zsplice _ _ _ _ _ Hz2).
  destruct (Z.leb_spec 0 i); [|lia]. destruct (Z.ltb_spec i (0 + zlen b)); [|lia]. simpl.
  rewrite Z.sub_0_r, (zget_zslice _ _ _ _ _ Hz) by lia. by apply Hf.
Qed.

Definition recurse_ok (r : recurse_result) : Prop :=
  match r with
  | RDone _ d => data_ok d
  | RResume pc cptr sl d => data_ok d /\ thread_ok pc cptr sl d
  end.

Lemma set_states_ok d l : data_ok d -> Forall state_ok l -> data_ok (set_states l d).
Proof. intros [? ? ?] ?. by split. Qed.

Lemma pop_state1_ok rs rest d :
  state_ok rs -> rs_type rs <> RE_EXEC_STATE_GREEDY_QUANT -> Forall state_ok rest -> data_ok d ->
  exists r, pop_state1 rs rest d = Ok r /\ recurse_ok r.
Proof.
  intros Hrs Ht Hrest Hd. unfold pop_state1.
  destruct (restore_stack_ok rs d Hrs Hd) as (d1 & -> & Hd1 & Hf & _). cbn [mbind outcome_bind].
  eexists. split; [done|]. split; [by apply set_states_ok|]. pose proof (so_pc _ Hrs) as Hpc.
  split; [by destruct (rs_type rs)|by apply so_cptr|done].
Qed.

Lemma pop_state_ok rs rest d :
  state_ok rs -> rs_type rs <> RE_EXEC_STATE_GREEDY_QUANT -> Forall state_ok rest -> data_ok d ->
  exists r, pop_state rs rest d = Ok r /\ recurse_ok r.
Proof.
  intros Hrs Ht Hrest Hd. unfold pop_state.
  destruct (restore_capture_ok rs d Hrs Hd) as (d1 & -> & Hd1 & _). cbn [mbind outcome_bind].
  by apply pop_state1_ok.
Qed.

(** *** The simple quantifier *)

Lemma instr_at pos d op len :
  D !! pos = Some d -> reop_len (bc s) pos = Some (op, len) ->
  0 <= pos /\ pos + len <= zlen (bc s) /\ instr_ok (bc s) D cc smax pos d = true.
Proof.
  intros Hd Hop. pose proof (ck_code Hck _ _ Hd) as Hi. split_and!; try done;
    unfold instr_ok in Hi; rewrite Hop in Hi; bool_props;
    by match goal with Hf : instr_fits _ _ _ _ = true |- _ => apply instr_fits_spec in Hf as (? & ? & _) end.
Qed.

Lemma greedy_at pos d :
  D !! pos = Some d -> reop_len (bc s) pos = Some (REOP_simple_greedy_quant, 17) ->
  exists off chars, get_u32 (bc s) (pos + 1) = Some off /\ get_u32 (bc s) (pos + 13) = Some chars /\
    D !! (pos + 17 + i32 off) = Some d /\ 0 < chars /\
    zget (bc s) (pos + 17 + i32 off - 1) = Some (op2z REOP_match) /\
    simple_at s (pos + 17 + i32 off - 1) (pos + 17) (Z.to_nat chars).
Proof.
  intros Hd Hop. destruct (instr_at _ _ _ _ Hd Hop) as (_ & _ & Hi).
  unfold instr_ok in Hi. rewrite Hop in Hi. apply andb_true_iff in Hi as [_ Hi]. unfold greedy_ok in Hi.
  destruct (get_u32 (bc s) (pos + 1)) as [off|]; [|done].
  destruct (get_u32 (bc s) (pos + 13)) as [chars|]; [|done]. unfold at_depth in Hi. bool_props.
  exists off, chars. split_and!; try done; try lia. by eapply simple_atom_at.
Qed.

(** Stepping back one iteration of a simple quantifier. *)
Lemma greedy_retry_ok rs rest d :
  state_ok rs -> rs_type rs = RE_EXEC_STATE_GREEDY_QUANT -> Forall state_ok rest -> data_ok d ->
  exists r, greedy_retry s rs rest d = Ok r /\ recurse_ok r.
Proof.
  intros Hrs Ht Hrest Hd. unfold greedy_retry. pose proof (so_pc _ Hrs) as Hg. rewrite Ht in Hg.
  destruct Hg as (Hpc & Hop & Hcount & chars & p & Hch & Hback).
  destruct (greedy_at _ _ Hpc Hop) as (off & chars' & Hoff & Hch' & Hnext & _).
  replace (rs_pc rs - 1 + 1) with (rs_pc rs) in Hoff by lia.
  replace (rs_pc rs - 1 + 17 + i32 off) with (rs_pc rs + 16 + i32 off) in Hnext by lia.
  destruct (restore_capture_ok rs d Hrs Hd) as (d1 & -> & Hd1 & _). cbn [mbind outcome_bind].
  destruct (restore_stack_ok rs d1 Hrs Hd1) as (d2 & -> & Hd2 & Hf & _). cbn [mbind outcome_bind].
  rewrite Hch. cbn [mbind outcome_bind of_opt].
  replace (Z.to_nat (rs_count rs) * Z.to_nat chars)%nat
    with (Z.to_nat chars + Z.to_nat (rs_count rs - 1) * Z.to_nat chars)%nat in Hback by nia.
  rewrite prev_chars_add in Hback.
  destruct (prev_chars (cbuf_type s) (cbuf s) (Z.to_nat chars) (rs_cptr rs) 0) as [q|] eqn:Hq; [|done].
  cbn [mbind option_bind] in Hback. cbn [mbind outcome_bind of_opt]. rewrite Hoff. cbn [mbind outcome_bind of_opt].
  pose proof (so_cptr _ Hrs) as Hc. unfold cptr_ok, cbuf_end in Hc.
  pose proof (prev_chars_bounds _ _ _ _ _ Hq ltac:(lia) ltac:(lia)).
  assert (cptr_ok q) by (unfold cptr_ok, cbuf_end; lia).
  rewrite (u64_small (rs_count rs - 1)) by lia.
  eexists. split; [done|]. split; [|by split].
  apply set_states_ok; [done|]. destruct (Z.eqb_spec (rs_count rs - 1) 0); [done|]. constructor; [|done].
  destruct Hrs as [? ? ? ? ? ?]. split; try done. simpl. rewrite Ht.
  split; [done|]. split; [done|]. split; [simpl; lia|]. exists chars, p. by split.
Qed.

Lemma recurse_loop_ok ret states d :
  Forall state_ok states -> data_ok d -> exists r, recurse_loop s ret states d = Ok r /\ recurse_ok r.
Proof.
  intros Hs Hd. revert ret. induction Hs as [|rs rest Hrs Hrest IH]; intros ret; cbn [recurse_loop].
  { eexists. split; [done|]. by apply set_states_ok. }
  destruct (rs_type rs) eqn:Ht, ret; try apply IH;
    try (apply pop_state_ok || apply pop_state1_ok || apply greedy_retry_ok); try done; by rewrite Ht.
Qed.

(** The loop of the quantifier reads [q] times the characters of its atom. *)
Lemma greedy_loop_ok e pos chars fuel1 fuel sl qmax q cptr0 cptr d :
  simple_at s e pos chars -> zget (bc s) e = Some (op2z REOP_match) -> 0 <= q ->
  advances (cbuf_type s) (cbuf s) (Z.to_nat q * chars) cptr0 cptr ->
  let r := greedy_loop (fun cptr d => lre_exec_backtrack s fuel1 sl pos cptr true d) fuel qmax q cptr d in
  r = Timeout \/ exists q' cptr', r = Ok (Some (q', cptr'), d) /\ 0 <= q' /\
    advances (cbuf_type s) (cbuf s) (Z.to_nat q' * chars) cptr0 cptr'.
Proof.
  intros Hs He. revert q cptr. induction fuel as [|fuel IH]; intros q cptr Hq Ha r; subst r; cbn [greedy_loop].
  { by left. }
  pose proof (advances_bounds _ _ _ _ _ Ha).
  destruct (simple_run s (ck_bytes Hck) e pos chars fuel1 sl cptr d Hs He ltac:(unfold cbuf_end; lia))
    as [[-> _]|[-> |(c & -> & Hadv)]]; cbn [mbind outcome_bind]; [by left|right; eauto|].
  assert (Ha' : advances (cbuf_type s) (cbuf s) (Z.to_nat (q + 1) * chars) cptr0 c).
  { replace (Z.to_nat (q + 1) * chars)%nat with (Z.to_nat q * chars + chars)%nat by nia.
    by eapply advances_add. }
  case_match; [right; exists (q + 1), c; split_and!; [done|lia|done]|]. apply IH; [lia|done].
Qed.

Lemma op_simple_greedy_quant_ok fuel1 fuel pos cptr sl d :
  thread_ok pos cptr sl d -> data_ok d -> reop_len (bc s) pos = Some (REOP_simple_greedy_quant, 17) ->
  let r := op_simple_greedy_quant s (fun cptr d => lre_exec_backtrack s fuel1 sl (pos + 1 + 16) cptr true d)
             fuel (pos + 1) cptr sl d in
  r = Timeout \/ exists r', r = Ok r' /\ step_ok r'.
Proof.
  intros [Hpc Hcp Hf] Hd Hop r. subst r. unfold op_simple_greedy_quant.
  destruct (greedy_at _ _ Hpc Hop) as (off & chars & Hoff & Hch & Hnext & Hchars & Hm & Hs).
  destruct (instr_at _ _ _ _ Hpc Hop) as (Hpos & Hlen & _). pose proof (ck_bytes Hck) as Hb.
  rewrite Hoff. cbn [mbind outcome_bind of_opt].
  destruct (get_u32_in _ (pos + 1 + 4) Hb) as (qmin & -> & Hqmin); [lia|lia|]. cbn [mbind outcome_bind of_opt].
  destruct (get_u32_in _ (pos + 1 + 8) Hb) as (qmax & -> & Hqmax); [lia|lia|]. cbn [mbind outcome_bind of_opt].
  replace (pos + 17) with (pos + 1 + 16) in * by lia.
  assert (H0 : advances (cbuf_type s) (cbuf s) (Z.to_nat 0 * Z.to_nat chars) cptr cptr) by (by constructor).
  destruct (greedy_loop_ok _ _ _ fuel1 fuel sl qmax 0 cptr cptr d Hs Hm ltac:(lia) H0)
    as [-> |(q & c & -> & Hq & Ha)]; [by left|]. right. cbn [mbind outcome_bind].
  pose proof (advances_bounds _ _ _ _ _ Ha). assert (Hcq : cptr_ok c) by (unfold cptr_ok, cbuf_end; lia).
  destruct (q <? qmin) eqn:Hlt; [by eexists|]. destruct (qmin <? q) eqn:Hgt.
  2:{ eexists. split; [done|]. by split. }
  bool_props. replace (pos + 1 + 16 - 16) with (pos + 1) by lia. pose proof (depth_bounds _ _ Hpc) as Hsl.
  pose proof (ck_smax Hck). pose proof (ck_len Hck). assert (q <= zlen (cbuf s)) by nia.
  edestruct (push_state_ok sl (pos + 1) c RE_EXEC_STATE_GREEDY_QUANT (q - qmin) d) as (b & d' & -> & Hd' & Hst);
    try done; [lia| |].
  - intros cs st. rewrite u8_small by lia. unfold greedy_state. simpl. replace (pos + 1 - 1) with pos by lia.
    split; [done|]. split; [done|]. split; [lia|].
    destruct (prev_chars_back _ _ _ _ _ Ha) as (p & Hp & _).
    replace (Z.to_nat q * Z.to_nat chars)%nat
      with (Z.to_nat (q - qmin) * Z.to_nat chars + Z.to_nat qmin * Z.to_nat chars)%nat in Hp by nia.
    rewrite prev_chars_add in Hp. destruct (prev_chars _ _ (Z.to_nat (q - qmin) * _) _ _) as [p'|] eqn:Hp'; [|done].
    exists chars, p'. split; [|done]. by replace (pos + 1 + 12) with (pos + 13) by lia.
  - cbn [mbind outcome_bind]. destruct b; eexists; (split; [done|]); [|done].
    split; [done|]. split; [done..|by rewrite Hst].
Qed.

(** *** Back references *)

Lemma GET_PREV_CHAR_total p st :
  0 < p <= cbuf_end s -> 0 <= st ->
  exists c q, GET_PREV_CHAR (cbuf_type s) (cbuf s) p st = Some (c, q) /\ 0 <= q < p.
Proof.
  intros Hp Hst. unfold GET_PREV_CHAR, cbuf_end in *. destruct (zget_in_range (cbuf s) (p - 1)) as [u Hu]; [lia|].
  rewrite Hu. cbn [mbind option_bind]. destruct (cbuf_type s =? 0); [eexists _, _; split; [done|lia]|].
  destruct (_ && _ && _) eqn:Hb; [|eexists _, _; split; [done|lia]]. bool_props.
  destruct (zget_in_range (cbuf s) (p - 1 - 1)) as [hi Hhi]; [lia|]. rewrite Hhi. cbn [mbind option_bind].
  destruct (is_hi_surrogate hi); eexists _, _; (split; [done|lia]).
Qed.

Lemma PREV_CHAR_total p :
  0 < p <= cbuf_end s -> exists q, PREV_CHAR (cbuf_type s) (cbuf s) p 0 = Some q /\ 0 <= q < p.
Proof.
  intros Hp. unfold PREV_CHAR, cbuf_end in *. destruct (cbuf_type s =? 0).
  { destruct (Z.ltb_spec (p - 1) 0); [lia|]. eexists; split; [done|lia]. }
  destruct (zget_in_range (cbuf s) (p - 1)) as [u Hu]; [lia|].
  rewrite Hu. cbn [mbind option_bind].
  destruct (_ && _ && _) eqn:Hb; [|eexists; split; [done|lia]]. bool_props.
  destruct (zget_in_range (cbuf s) (p - 1 - 1)) as [hi Hhi]; [lia|]. rewrite Hhi. cbn [mbind option_bind].
  destruct (is_hi_surrogate hi); eexists; (split; [done|lia]).
Qed.

Lemma back_reference_loop_ok fuel p e c :
  cptr_ok p -> cptr_ok e -> cptr_ok c -> cbuf_end s - p < Z.of_nat fuel ->
  exists r, back_reference_loop s fuel p e c = Ok r /\ forall q, r = Some q -> cptr_ok q.
Proof.
  intros Hp He. unfold cptr_ok in *. revert p c Hp. induction fuel as [|fuel IH]; intros p c Hp Hc Hf; [lia|].
  cbn [back_reference_loop]. destruct (Z.ltb_spec p e); [|eexists; split; [done|congruence]].
  destruct (Z.leb_spec (cbuf_end s) c); [by eexists|]. unfold cbuf_end in *.
  destruct (GET_CHAR_total (cbuf_type s) (cbuf s) p e) as (c1 & p' & Hg & ?); [lia|lia|].
  pose proof (GET_CHAR_bounds _ _ _ _ _ _ Hg ltac:(lia)). rewrite Hg. cbn [mbind outcome_bind of_opt].
  unfold get_char, cbuf_end. destruct (GET_CHAR_total (cbuf_type s) (cbuf s) c (zlen (cbuf s))) as (c2 & c' & Hg2 & ?); [lia|lia|].
  pose proof (GET_CHAR_bounds _ _ _ _ _ _ Hg2 ltac:(lia)). rewrite Hg2. cbn [mbind outcome_bind of_opt].
  destruct (_ =? _); [apply IH; lia|by eexists].
Qed.

Lemma backward_back_reference_loop_ok fuel p st c :
  cptr_ok p -> cptr_ok st -> cptr_ok c -> p < Z.of_nat fuel ->
  exists r, backward_back_reference_loop s fuel p st c = Ok r /\ forall q, r = Some q -> cptr_ok q.
Proof.
  intros Hp Hst. unfold cptr_ok in *. revert p c Hp. induction fuel as [|fuel IH]; intros p c Hp Hc Hf; [lia|].
  cbn [backward_back_reference_loop]. destruct (Z.ltb_spec st p); [|eexists; split; [done|congruence]].
  destruct (Z.eqb_spec c 0); [by eexists|].
  destruct (GET_PREV_CHAR_total p st) as (c1 & p' & -> & ?); [lia|lia|]. cbn [mbind outcome_bind of_opt].
  destruct (GET_PREV_CHAR_total c 0) as (c2 & c' & -> & ?); [lia|lia|]. cbn [mbind outcome_bind of_opt].
  destruct (_ =? _); [apply IH; lia|by eexists].
Qed.

Lemma caps_get c i : caps_ok c -> 0 <= i < 2 * cc -> exists v, zget c i = Some v /\ forall p, v = Some p -> cptr_ok p.
Proof.
  intros [Hl Hp] Hi. destruct (zget_in_range c i) as [v Hv]; [lia|]. exists v. split; [done|].
  intros p ->. by apply (Hp i).
Qed.

Lemma caps_set c i v :
  caps_ok c -> 0 <= i < 2 * cc -> (forall p, v = Some p -> cptr_ok p) ->
  exists c', zset c i v = Some c' /\ caps_ok c'.
Proof.
  intros [Hl Hp] Hi Hv. destruct (zset c i v) as [c'|] eqn:Hz; [|by rewrite zset_in_range in Hz by lia].
  exists c'. split; [done|]. split; [by rewrite (zlen_zset _ _ _ _ Hz)|].
  intros j p Hj. rewrite (zget_zset _ _ _ _ _ Hz). case_match; [intros [= ->]; by apply Hv|by apply Hp].
Qed.

Lemma byte_at p : 0 <= p < zlen (bc s) -> exists v, zget (bc s) p = Some v /\ 0 <= v < 256.
Proof.
  intros Hp. destruct (zget_in_range (bc s) p Hp) as [v Hv]. exists v. split; [done|].
  by eapply zget_byte; [apply ck_bytes|].
Qed.

Lemma op_back_reference_ok bw pos cptr sl d :
  0 <= pos -> pos + 2 <= zlen (bc s) -> D !! (pos + 2) = Some sl -> thread_ok pos cptr sl d -> data_ok d ->
  exists r, op_back_reference s bw (pos + 1) cptr sl d = Ok r /\ step_ok r.
Proof.
  intros Hp Hl Hn [_ Hcp Hf] Hd. unfold op_back_reference.
  destruct (byte_at (pos + 1)) as (v & -> & Hv); [lia|]. cbn [mbind outcome_bind of_opt].
  destruct (Z.leb_spec cc v); [by eexists|]. replace (pos + 1 + 1) with (pos + 2) by lia.
  destruct (caps_get (capture d) (2 * v)) as (st & -> & Hst); [by destruct Hd|lia|].
  destruct (caps_get (capture d) (2 * v + 1)) as (en & -> & Hen); [by destruct Hd|lia|]. cbn [mbind outcome_bind of_opt].
  destruct st as [st|], en as [en|]; try (eexists; split; [done|by split]).
  specialize (Hst _ eq_refl). specialize (Hen _ eq_refl).
  assert (Hr : exists r, (if bw then backward_back_reference_loop s (S (length (cbuf s))) en st cptr
             else back_reference_loop s (S (length (cbuf s))) st en cptr) = Ok r /\ forall q, r = Some q -> cptr_ok q).
  { destruct bw; [apply backward_back_reference_loop_ok|apply back_reference_loop_ok]; try done;
      unfold cptr_ok, cbuf_end, zlen in *; lia. }
  destruct Hr as ([q|] & -> & Hq); cbn [mbind outcome_bind]; eexists; (split; [done|]); [|done].
  split; [done|]. split; auto.
Qed.

(** *** Captures, jumps and the stack *)

Lemma save_reset_loop_ok n v c :
  caps_ok c -> 0 <= v -> v + Z.of_nat n <= cc -> exists c', save_reset_loop n v c = Some c' /\ caps_ok c'.
Proof.
  revert v c. induction n as [|n IH]; intros v c Hc Hv Hn; cbn [save_reset_loop]; [eauto|].
  destruct (caps_set c (2 * v) None) as (c1 & -> & Hc1); [done|lia|done|]. cbn [mbind option_bind].
  destruct (caps_set c1 (2 * v + 1) None) as (c2 & -> & Hc2); [done|lia|done|]. cbn [mbind option_bind].
  apply IH; [done|lia..].
Qed.

Lemma filled_set st i n v st' :
  filled st n -> zset st i (Some v) = Some st' -> i <= n -> filled st' (Z.max n (i + 1)).
Proof.
  intros [Hn Hf] Hz Hi. pose proof (zset_spec _ _ _ _ Hz) as [? _].
  rewrite <- (zlen_zset _ _ _ _ Hz) in *. split; [lia|]. intros j Hj. rewrite (zget_zset _ _ _ _ _ Hz).
  destruct (Z.eqb_spec j i); [eauto|]. apply Hf. lia.
Qed.

Lemma filled_le st n m : filled st n -> 0 <= m <= n -> filled st m.
Proof. intros [Hn Hf] Hm. split; [lia|]. intros i Hi. apply Hf. lia. Qed.

Lemma set_capture_ok c d : data_ok d -> caps_ok c -> data_ok (set_capture c d).
Proof. intros [? ? ?] ?. by split. Qed.

Lemma set_stack_ok st d : data_ok d -> zlen st = zlen (stack d) -> data_ok (set_stack st d).
Proof. intros [? ? ?] ?. split; simpl; [done|congruence|done]. Qed.

Lemma op_save_ok which v pc cptr sl d :
  which = 0 \/ which = 1 -> 0 <= v < cc -> D !! pc = Some sl -> cptr_ok cptr -> filled (stack d) sl -> data_ok d ->
  exists r, op_save s which v pc cptr sl d = Ok r /\ step_ok r.
Proof.
  intros Hw Hv Hn Hcp Hf Hd. unfold op_save, assert_. destruct (Z.ltb_spec v cc); [|lia].
  cbn [mbind outcome_bind]. destruct (caps_set (capture d) (2 * v + which) (Some cptr)) as (c & -> & Hc);
    [by destruct Hd|lia|by intros p [= <-]|].
  cbn [mbind outcome_bind of_opt]. eexists. split; [done|]. split; [by apply set_capture_ok|by split].
Qed.

Lemma op_save_reset_ok pos cptr sl d :
  0 <= pos -> pos + 3 <= zlen (bc s) -> byte_below (bc s) (pos + 2) cc = true -> D !! (pos + 3) = Some sl ->
  thread_ok pos cptr sl d -> data_ok d ->
  exists r, op_save_reset s (pos + 1) cptr sl d = Ok r /\ step_ok r.
Proof.
  intros Hp Hl Hb Hn [_ Hcp Hf] Hd. unfold op_save_reset, byte_below in *.
  destruct (byte_at (pos + 1)) as (v & -> & Hv); [lia|]. cbn [mbind outcome_bind of_opt].
  replace (pos + 1 + 1) with (pos + 2) by lia. destruct (zget (bc s) (pos + 2)) as [w|]; [|done].
  cbn [mbind outcome_bind of_opt]. unfold assert_. rewrite Hb. bool_props. cbn [mbind outcome_bind].
  destruct (Z.leb_spec v w).
  - destruct (save_reset_loop_ok (Z.to_nat (w - v + 1)) v (capture d)) as (c & -> & Hc); [by destruct Hd|lia..|].
    cbn [mbind outcome_bind of_opt]. replace (pos + 1 + 2) with (pos + 3) by lia.
    eexists. split; [done|]. split; [by apply set_capture_ok|by split].
  - replace (Z.to_nat (w - v + 1)) with 0%nat by lia. cbn [save_reset_loop mbind outcome_bind of_opt].
    replace (pos + 1 + 2) with (pos + 3) by lia. eexists. split; [done|].
    split; [apply set_capture_ok; [done|by destruct Hd]|by split].
Qed.

(** The jump whose offset is at [p]. *)
Lemma target_at p sl :
  target_ok (bc s) D p sl = true -> exists v, get_u32 (bc s) p = Some v /\ D !! (p + 4 + i32 v) = Some sl.
Proof. unfold target_ok, at_depth. destruct (get_u32 (bc s) p) as [v|]; [|done]. intros. bool_props. eauto. Qed.

Lemma push_goto_ok sl pc1 pc cptr type d :
  type <> RE_EXEC_STATE_GREEDY_QUANT -> D !! pc1 = Some sl -> D !! pc = Some sl -> cptr_ok cptr ->
  filled (stack d) sl -> data_ok d ->
  exists r, ('(ok, d) ← push_state s sl pc1 cptr type 0 d;
             if ok : bool then Ok (SNext pc cptr sl d) else Ok (SError d)) = Ok r /\ step_ok r.
Proof.
  intros Ht H1 H2 Hcp Hf Hd. pose proof (depth_bounds _ _ H1).
  destruct (push_state_ok sl pc1 cptr type 0 d) as (b & d' & -> & Hd' & Hst); try done; [lia|by destruct type|].
  cbn [mbind outcome_bind]. destruct b; eexists; (split; [done|]); [|done].
  split; [done|]. split; [done..|by rewrite Hst].
Qed.

Lemma op_push_ok v pc cptr sl d :
  sl < smax -> 0 <= sl -> D !! pc = Some (sl + 1) -> cptr_ok cptr -> filled (stack d) sl -> data_ok d ->
  exists r, op_push v pc cptr sl d = Ok r /\ step_ok r.
Proof.
  intros Hs H0 Hn Hcp Hf Hd. unfold op_push. pose proof (do_stack _ Hd).
  destruct (zset (stack d) sl (Some v)) as [st|] eqn:Hz; [|by rewrite zset_in_range in Hz by lia].
  cbn [mbind outcome_bind of_opt]. eexists. split; [done|].
  split; [apply set_stack_ok; [done|by rewrite (zlen_zset _ _ _ _ Hz)]|]. split; try done. simpl.
  replace (sl + 1) with (Z.max sl (sl + 1)) by lia. by eapply filled_set.
Qed.

Lemma op_loop_ok pos cptr sl d :
  0 < sl -> D !! (pos + 5) = Some sl -> target_ok (bc s) D (pos + 1) sl = true -> thread_ok pos cptr sl d -> data_ok d ->
  exists r, op_loop s (pos + 1) cptr sl d = Ok r /\ step_ok r.
Proof.
  intros Hs Hn Ht [_ Hcp Hf] Hd. unfold op_loop. destruct (target_at _ _ Ht) as (v & -> & Hv).
  cbn [mbind outcome_bind of_opt]. destruct (proj2 Hf (sl - 1)) as [x Hx]; [lia|]. rewrite Hx.
  cbn [mbind outcome_bind of_opt]. pose proof (proj1 Hf).
  destruct (zset (stack d) (sl - 1) _) as [st|] eqn:Hz; [|by rewrite zset_in_range in Hz by lia].
  cbn [mbind outcome_bind of_opt]. replace (pos + 5) with (pos + 1 + 4) in Hn by lia. eexists. split; [done|].
  split; [apply set_stack_ok; [done|by rewrite (zlen_zset _ _ _ _ Hz)]|]. split; try done; [by case_match|]. simpl.
  replace sl with (Z.max sl (sl - 1 + 1)) by lia. eapply filled_set; [done..|lia].
Qed.

Lemma op_check_advance_ok pc cptr sl d :
  0 < sl -> D !! pc = Some (sl - 1) -> cptr_ok cptr -> filled (stack d) sl -> data_ok d ->
  exists r, op_check_advance pc cptr sl d = Ok r /\ step_ok r.
Proof.
  intros Hs Hn Hcp Hf Hd. unfold op_check_advance. destruct (proj2 Hf (sl - 1)) as [x Hx]; [lia|]. rewrite Hx.
  cbn [mbind outcome_bind of_opt]. case_match; eexists; (split; [done|]); [done|].
  split; [done|]. split; [done..|]. eapply filled_le; [done|lia].
Qed.

Lemma op_prev_ok pc cptr sl d :
  D !! pc = Some sl -> cptr_ok cptr -> filled (stack d) sl -> data_ok d ->
  exists r, op_prev s pc cptr sl d = Ok r /\ step_ok r.
Proof.
  intros Hn Hcp Hf Hd. unfold op_prev. destruct (Z.eqb_spec cptr 0); [by eexists|].
  destruct (PREV_CHAR_total cptr) as (q & -> & Hq); [unfold cptr_ok in Hcp; lia|].
  cbn [mbind outcome_bind of_opt]. eexists. split; [done|]. split; [done|]. split; try done. unfold cptr_ok in *. lia.
Qed.

(** *** One instruction *)

Lemma char_step_ok op pos len cptr sl d :
  reop_len (bc s) pos = Some (op, len) -> is_char_op op = true -> instr_fits (bc s) pos op len = true ->
  D !! (pos + len) = Some sl -> thread_ok pos cptr sl d -> data_ok d ->
  exists r, exec_step s op (pos + 1) cptr sl d = Ok r /\ step_ok r.
Proof.
  intros Hop Hc Hfit Hn [_ Hcp Hf] Hd.
  destruct (char_step s (ck_bytes Hck) op pos len cptr sl d Hop Hc Hfit Hcp) as [-> |(c & q & Hg & ->)];
    eexists; (split; [done|]); [done|]. split; [done|]. split; try done.
  pose proof (GET_CHAR_bounds _ _ _ _ _ _ Hg ltac:(unfold cbuf_end; lia)). unfold cptr_ok, cbuf_end. lia.
Qed.

Lemma assert_step_ok op pos len cptr sl d :
  reop_len (bc s) pos = Some (op, len) -> is_assert_op op = true ->
  D !! (pos + len) = Some sl -> thread_ok pos cptr sl d -> data_ok d ->
  exists r, exec_step s op (pos + 1) cptr sl d = Ok r /\ step_ok r.
Proof.
  intros Hop Ha Hn [_ Hcp Hf] Hd.
  destruct (assert_step s op pos len cptr sl d Hop Ha Hcp) as [-> | ->];
    eexists; (split; [done|]); [done|]. split; [done|]. by split.
Qed.

(** Every instruction of checked code, on a thread in the invariant, stays inside
    the buffers and gives a thread in the invariant. *)
Lemma exec_step_ok op pos len cptr sl d :
  reop_len (bc s) pos = Some (op, len) -> op <> REOP_match -> op <> REOP_simple_greedy_quant ->
  thread_ok pos cptr sl d -> data_ok d ->
  exists r, exec_step s op (pos + 1) cptr sl d = Ok r /\ step_ok r.
Proof.
  intros Hop Hm Hg Ht Hd. destruct Ht as [Hpc Hcp Hf] eqn:Et. clear Et.
  destruct (instr_at _ _ _ _ Hpc Hop) as (Hp & Hl & Hi). pose proof (reop_len_op _ _ _ _ Hop) as [_ Hlen].
  pose proof (depth_bounds _ _ Hpc) as Hdb. pose proof (ck_bytes Hck) as Hb.
  unfold instr_ok in Hi. rewrite Hop in Hi. apply andb_true_iff in Hi as [Hfit Hi].
  apply andb_true_iff in Hfit as [Hfit _]. apply andb_true_iff in Hfit as [Hfit _].
  destruct op; try done; unfold at_depth, byte_below in Hi; cbn [reop_size] in Hlen;
    (* single characters and assertions *)
    try (apply bool_decide_eq_true_1 in Hi; (by eapply char_step_ok) || (by eapply assert_step_ok));
    subst len; cbn [exec_step].
  all: bool_props; replace (pos + 5) with (pos + 1 + 4) in * by lia.
  - destruct (target_at _ _ Hi) as (v & Hv & HD). unfold op_goto. rewrite Hv. cbn [mbind outcome_bind of_opt].
    eexists. split; [done|]. split; [done|]. by split.
  - destruct (target_at (pos + 1) sl) as (v & Hv & HD); [done|]. unfold op_split. rewrite Hv.
    cbn [mbind outcome_bind of_opt]. by apply push_goto_ok.
  - destruct (target_at (pos + 1) sl) as (v & Hv & HD); [done|]. unfold op_split. rewrite Hv.
    cbn [mbind outcome_bind of_opt]. by apply push_goto_ok.
  - destruct (byte_at (pos + 1)) as (v & Hv & ?); [lia|]. rewrite Hv in *. bool_props.
    cbn [mbind outcome_bind of_opt]. replace (pos + 2) with (pos + 1 + 1) in * by lia.
    apply op_save_ok; auto; lia.
  - destruct (byte_at (pos + 1)) as (v & Hv & ?); [lia|]. rewrite Hv in *. bool_props.
    cbn [mbind outcome_bind of_opt]. replace (pos + 2) with (pos + 1 + 1) in * by lia.
    apply op_save_ok; auto; lia.
  - by apply op_save_reset_ok.
  - replace (pos + 1 + 4) with (pos + 5) in * by lia. by apply op_loop_ok.
  - destruct (get_u32_in _ (pos + 1) Hb) as (v & -> & _); [lia|lia|]. cbn [mbind outcome_bind of_opt].
    apply op_push_ok; try done; lia.
  - eexists. split; [done|]. split; [done|]. split; [done..|]. eapply filled_le; [done|lia].
  - by apply op_back_reference_ok.
  - by apply op_back_reference_ok.
  - destruct (target_at (pos + 1) sl) as (v & Hv & HD); [done|]. unfold op_lookahead. rewrite Hv.
    cbn [mbind outcome_bind of_opt]. by apply push_goto_ok.
  - destruct (target_at (pos + 1) sl) as (v & Hv & HD); [done|]. unfold op_lookahead. rewrite Hv.
    cbn [mbind outcome_bind of_opt]. by apply push_goto_ok.
  - apply op_push_ok; try done; lia.
  - by apply op_check_advance_ok.
  - by apply op_prev_ok.
Qed.

(** *** The interpreter *)

Lemma thread_op pos cptr sl d :
  thread_ok pos cptr sl d -> exists op len, reop_len (bc s) pos = Some (op, len).
Proof.
  intros [Hpc _ _]. pose proof (ck_code Hck _ _ Hpc) as Hi. unfold instr_ok in Hi.
  destruct (reop_len (bc s) pos) as [[op len]|]; [eauto|done].
Qed.

(** A run that is in the invariant when it ends, with a result for [lre_exec]. *)
Definition run_ok (r : outcome (exec_result * REExecData)) : Prop :=
  r = Timeout \/ exists ret d', r = Ok (ret, d') /\ data_ok d' /\ forall c, ret <> RetCptr c.

Section Continue.
Context (k : Z -> Z -> Z -> REExecData -> outcome (exec_result * REExecData)).
Context (Hk : forall sl pc cptr d, thread_ok pc cptr sl d -> data_ok d -> run_ok (k sl pc cptr d)).

Lemma recurse_run_ok ret d :
  data_ok d ->
  run_ok (r ← recurse_loop s ret (state_stack d) d;
    match r with
    | RDone ret d => Ok (if ret : bool then RetMatch else RetNoMatch, d)
    | RResume pc cptr stack_len d => k stack_len pc cptr d
    end).
Proof.
  intros Hd. destruct (recurse_loop_ok ret (state_stack d) d) as (rr & -> & Hrr); [by apply do_states|done|].
  cbn [mbind outcome_bind]. destruct rr as [ret' d1|pc' cptr' sl' d1]; [|destruct Hrr; by apply Hk].
  right. eexists _, _. split; [done|]. split; [done|]. intros c. by destruct ret'.
Qed.

Lemma step_run_ok ro :
  ro = Timeout \/ (exists r, ro = Ok r /\ step_ok r) ->
  run_ok (r ← ro;
    match r with
    | SNext pc cptr stack_len d => k stack_len pc cptr d
    | SNoMatch d =>
        r ← recurse_loop s false (state_stack d) d;
        match r with
        | RDone ret d => Ok (if ret : bool then RetMatch else RetNoMatch, d)
        | RResume pc cptr stack_len d => k stack_len pc cptr d
        end
    | SError d => Ok (RetError, d)
    end).
Proof.
  intros [-> |(r & -> & Hr)]; [by left|]. cbn [mbind outcome_bind].
  destruct r as [pc' cptr' sl' d1|d1|d1]; [destruct Hr; by apply Hk|by apply recurse_run_ok|].
  right. by eexists _, _.
Qed.
End Continue.

Lemma backtrack_ok fuel pc cptr sl d :
  thread_ok pc cptr sl d -> data_ok d -> run_ok (lre_exec_backtrack s fuel sl pc cptr false d).
Proof.
  revert pc cptr sl d. induction fuel as [|fuel IH]; intros pc cptr sl d Ht Hd; [by left|].
  destruct (thread_op _ _ _ _ Ht) as (op & len & Hop). pose proof (reop_len_op _ _ _ _ Hop) as [Hb Hlen].
  set (k := fun sl pc cptr d => lre_exec_backtrack s fuel sl pc cptr false d).
  assert (Hk : forall sl pc cptr d, thread_ok pc cptr sl d -> data_ok d -> run_ok (k sl pc cptr d)) by (intros; by apply IH).
  destruct (decide (op = REOP_match)) as [->|Hm]; [|destruct (decide (op = REOP_simple_greedy_quant)) as [->|Hg]].
  - cbn [lre_exec_backtrack]. rewrite Hb. cbn [mbind outcome_bind of_opt]. rewrite z2op_op2z.
    by apply (recurse_run_ok k Hk).
  - cbn [lre_exec_backtrack]. rewrite Hb. cbn [mbind outcome_bind of_opt]. rewrite z2op_op2z.
    cbn [mbind outcome_bind of_opt]. rewrite decide_True by done. apply (step_run_ok k Hk).
    apply op_simple_greedy_quant_ok; try done. by rewrite Hop, Hlen.
  - rewrite (backtrack_step _ _ _ _ _ _ _ op) by done. apply (step_run_ok k Hk). right. by eapply exec_step_ok.
Qed.
End Safe.

(** ** Whole regexps *)

Lemma is_byteb_spec l : forallb is_byteb l = true -> bytes_ok l.
Proof.
  rewrite forallb_forall, Forall_forall. intros Hl x Hx. apply list_elem_of_In, Hl in Hx.
  unfold is_byteb, is_byte in *. bool_props. lia.
Qed.

(** What a successful check gives for the context that [lre_exec] builds. *)
Lemma check_code_context bc_buf cbuf cbuf_type :
  check_code bc_buf = true -> zlen cbuf < 2 ^ 31 ->
  exists s D, lre_exec_context bc_buf cbuf cbuf_type = Some s /\ code_checked s D /\
    bc s = bc_buf /\ RegexpExec.cbuf s = cbuf /\ lre_get_capture_count bc_buf = Some (capture_count s) /\
    D !! RE_HEADER_LEN = Some 0.
Proof.
  intros Hc Hl. unfold check_code in Hc. apply andb_true_iff in Hc as [Hb%is_byteb_spec Hc].
  destruct (zget bc_buf RE_HEADER_CAPTURE_COUNT) as [cc|] eqn:Hcc; [|done].
  destruct (zget bc_buf RE_HEADER_STACK_SIZE) as [ss|] eqn:Hss; [|done].
  destruct (get_u32 bc_buf RE_HEADER_BYTECODE_LEN) as [len|]; [|done].
  destruct (scan_depths _ _ _ _ _) as [D|]; [|done]. unfold at_depth in Hc. bool_props.
  pose proof (zget_byte _ _ _ Hb Hcc). pose proof (zget_byte _ _ _ Hb Hss).
  assert (Hfl : exists fl, zget bc_buf RE_HEADER_FLAGS = Some fl).
  { apply zget_in_range. apply zget_Some_range in Hcc. unfold RE_HEADER_CAPTURE_COUNT, RE_HEADER_FLAGS in *. lia. }
  destruct Hfl as [fl Hfl]. unfold lre_exec_context, lre_get_flags, lre_get_capture_count.
  rewrite Hfl, Hcc, Hss. cbn [mbind option_bind]. eexists _, D. split; [done|]. split; [|done].
  split; simpl; try done; [|unfold is_byte in *; lia..].
  intros pos d Hd. unfold code_ok in *. rewrite forallb_forall in *.
  match goal with Hf : forall x, In x _ -> _ |- _ => apply (Hf (pos, d)) end.
  by apply list_elem_of_In, elem_of_map_to_list.
Qed.

Lemma start_ok `{!Allocator} s D capture opaque :
  code_checked s D -> 2 * capture_count s <= zlen capture ->
  exists c, clear_captures (capture_count s * 2) capture = Some c /\
    data_ok s D {| capture := c; stack := replicate (Z.to_nat (stack_size_max s)) None;
                   state_stack := []; state_stack_size := 0; re_opaque := opaque |}.
Proof.
  intros Hck Hl. unfold clear_captures. pose proof (ck_cc _ _ Hck). pose proof (ck_smax _ _ Hck).
  destruct (zsplice capture 0 _) as [c|] eqn:Hz;
    [|by rewrite zsplice_in_range in Hz by (rewrite ?zlen_replicate; lia)].
  exists c. split; [done|]. split; simpl; [|rewrite zlen_replicate; lia|done].
  pose proof (proj1 (zsplice_spec _ _ _ _ Hz)). split; [lia|]. intros i p Hi Hp.
  rewrite (zget_zsplice _ _ _ _ _ Hz) in Hp. rewrite zlen_replicate in Hp.
  destruct (Z.leb_spec 0 i); [|lia]. destruct (Z.ltb_spec i (0 + Z.of_nat (Z.to_nat (capture_count s * 2)))); [|lia].
  simpl in Hp. by rewrite zget_replicate in Hp by lia.
Qed.

(** The captures reported are [NULL] or inside the subject. *)
Definition captures_in (cc clen : Z) (c : list (option Z)) : Prop :=
  2 * cc <= zlen c /\ forall i p, 0 <= i < 2 * cc -> zget c i = Some (Some p) -> 0 <= p <= clen.

Lemma lre_exec_ok `{!Allocator} fuel capture bc_buf cbuf cindex cbuf_type opaque cc :
  check_code bc_buf = true -> lre_get_capture_count bc_buf = Some cc -> 2 * cc <= zlen capture ->
  zlen cbuf < 2 ^ 31 -> 0 <= cindex <= zlen cbuf ->
  let r := lre_exec fuel capture bc_buf cbuf cindex cbuf_type opaque in
  r = Timeout \/ exists ret c o, r = Ok (ret, c, o) /\ -1 <= ret <= 1 /\ captures_in cc (zlen cbuf) c.
Proof.
  intros Hc Hcc Hcap Hl Hi r. subst r.
  destruct (check_code_context bc_buf cbuf cbuf_type Hc Hl) as (s & D & Hs & Hck & <- & <- & Hcc' & HD).
  rewrite Hcc in Hcc'. injection Hcc' as ->. unfold lre_exec. rewrite Hs. cbn [mbind outcome_bind of_opt].
  destruct (start_ok s D capture opaque Hck Hcap) as (c & -> & Hd). cbn [mbind outcome_bind of_opt].
  set (d := Build_REExecData _ _ _ _ _ _) in *.
  destruct (backtrack_ok s D Hck fuel RE_HEADER_LEN cindex 0 d) as [-> |(ret & d' & -> & Hd' & Hret)];
    [|done|by left|].
  { split; [done|done|]. split; [unfold d; simpl; pose proof (zlen_nonneg (replicate (Z.to_nat (stack_size_max s)) (@None Z))); lia|].
    intros; lia. }
  right. cbn [mbind outcome_bind]. pose proof (do_caps _ _ _ Hd') as Hcap'.
  destruct ret as [| | |q]; [..|by destruct (Hret q)]; eexists _, _, _; (split; [done|]; split; [lia|done]).
Qed.

(** ** Backtracking restores the state *)

(** What a successful [push_state] saves. *)
Lemma push_state_spec `{!Allocator} s sl pc cptr type count d d1 :
  push_state s sl pc cptr type count d = Ok (true, d1) ->
  exists c st, zslice (capture d) 0 (2 * capture_count s) = Some c /\ zslice (stack d) 0 sl = Some st /\
    state_stack d1 = {| rs_type := type; rs_stack_len := u8 sl; rs_count := count; rs_cptr := cptr;
                        rs_pc := pc; rs_capture := c; rs_stack := st |} :: state_stack d.
Proof.
  unfold push_state. set (grown := if _ <? _ then _ else (true, d)).
  assert (Hg : forall d', grown = (true, d') ->
    capture d' = capture d /\ stack d' = stack d /\ state_stack d' = state_stack d).
  { intros d'. subst grown. destruct (_ <? _); [|by intros [= <-]]. cbv zeta.
    destruct (realloc_func _ _) as [o [f|]]; [by intros [= <-]|done]. }
  clearbody grown. destruct grown as [[|] d']; [|done]. destruct (Hg d' eq_refl) as (-> & -> & Hss).
  destruct (zslice (capture d) 0 _) as [c|]; [|done]. cbn [mbind outcome_bind of_opt].
  destruct (zslice (stack d) 0 sl) as [st|]; [|done]. cbn [mbind outcome_bind of_opt].
  intros [= <-]. exists c, st. simpl. by rewrite Hss.
Qed.

Lemma restored `{!Allocator} s sl pc cptr d d1 d2 :
  push_state s sl pc cptr RE_EXEC_STATE_SPLIT 0 d = Ok (true, d1) ->
  0 <= sl < 256 -> 0 <= capture_count s -> state_stack d2 = state_stack d1 ->
  zlen (capture d2) = zlen (capture d) -> zlen (stack d2) = zlen (stack d) ->
  exists d3, recurse_loop s false (state_stack d2) d2 = Ok (RResume pc cptr sl d3) /\
    state_stack d3 = state_stack d /\
    (forall i, 0 <= i < 2 * capture_count s -> zget (capture d3) i = zget (capture d) i) /\
    (forall i, 0 <= i < sl -> zget (stack d3) i = zget (stack d) i).
Proof.
  intros Hp Hsl Hcc Hss Hlc Hls. destruct (push_state_spec _ _ _ _ _ _ _ _ Hp) as (c & st & Hc & Hst & Hd1).
  rewrite Hss, Hd1. cbn [recurse_loop rs_type]. unfold pop_state, restore_capture. cbn [rs_capture].
  pose proof (zlen_zslice _ _ _ _ Hc). pose proof (zlen_zslice _ _ _ _ Hst).
  pose proof (zslice_spec _ _ _ _ Hc) as (_ & _ & Hcl). pose proof (zslice_spec _ _ _ _ Hst) as (_ & _ & Hsl').
  assert (2 * capture_count s <= zlen (capture d)).
  { unfold zslice in Hc. case_match; [|done]. bool_props. lia. }
  assert (sl <= zlen (stack d)). { unfold zslice in Hst. case_match; [|done]. bool_props. lia. }
  destruct (zsplice (capture d2) 0 c) as [c3|] eqn:Hz; [|by rewrite zsplice_in_range in Hz by lia].
  cbn [mbind outcome_bind of_opt]. unfold pop_state1, restore_stack. cbn [rs_stack rs_stack_len rs_pc rs_cptr].
  rewrite u8_small by lia. destruct (zslice st 0 sl) as [b|] eqn:Hb; [|by rewrite zslice_in_range in Hb by lia].
  cbn [mbind outcome_bind of_opt]. pose proof (zlen_zslice _ _ _ _ Hb).
  destruct (zsplice (stack (set_capture c3 d2)) 0 b) as [st3|] eqn:Hz3;
    [|by rewrite zsplice_in_range in Hz3 by (simpl; lia)].
  cbn [mbind outcome_bind of_opt]. eexists. split; [done|]. split; [done|]. simpl in *. split; intros i Hi.
  - rewrite (zget_zsplice _ _ _ _ _ Hz). destruct (Z.leb_spec 0 i), (Z.ltb_spec i (0 + zlen c)); try lia. simpl.
    by rewrite Z.sub_0_r, (zget_zslice _ _ _ _ _ Hc) by lia.
  - rewrite (zget_zsplice _ _ _ _ _ Hz3). destruct (Z.leb_spec 0 i), (Z.ltb_spec i (0 + zlen b)); try lia. simpl.
    by rewrite Z.sub_0_r, (zget_zslice _ _ _ _ _ Hb), (zget_zslice _ _ _ _ _ Hst) by lia.
Qed.

(** ** Claims *)



(** The code of [((a|b)*?c{2,3}|[^a-c]+\b)(?=x)\1]. *)
Definition example_code : list Z :=
  [0; 3; 1; 127; 0; 0; 0; 8; 6; 0; 0; 0; 4; 7; 245; 255; 255; 255;
   11; 0; 11; 1; 9; 61; 0; 0; 0; 13; 2; 2; 8; 27; 0; 0; 0; 25; 11;
   2; 9; 8; 0; 0; 0; 1; 97; 0; 7; 3; 0; 0; 0; 1; 98; 0; 12; 2; 26;
   7; 224; 255; 255; 255; 28; 4; 0; 0; 0; 2; 0; 0; 0; 3; 0; 0; 0;
   1; 0; 0; 0; 1; 99; 0; 10; 7; 30; 0; 0; 0; 28; 12; 0; 0; 0; 1; 0;
   0; 0; 255; 255; 255; 127; 1; 0; 0; 0; 21; 2; 0; 0; 0; 96; 0;
   100; 0; 255; 255; 10; 17; 12; 1; 23; 4; 0; 0; 0; 1; 120; 0; 10;
   19; 1; 12; 0; 10].


