(* ===== verification/RegexpStatic.v ===== *)
(** Soundness of the compiler's static analyses of emitted code:
    [re_is_simple_quantifier], [re_need_check_advance] and [compute_stack_size].

    A fragment is a part of the bytecode that a sequence of whole instructions tiles.
    The theorems relate what an analysis answers for a fragment to what the matcher
    does when it runs the fragment, anywhere in the bytecode. *)

From S2P Require Import Prelude CutilsH CaseConv RegexpCode DynBuf RegexpExec RegexpChars RegexpSafe.

(** ** Fragments *)

(** Whole instructions, all allowed by [ok], from [pos] to the end of [a]. *)
Fixpoint tiles_from (ok : REOPCodeEnum -> bool) (fuel : nat) (a : list Z) (pos : Z) : bool :=
  match fuel with
  | O => false
  | S fuel' =>
      if pos =? zlen a then true
      else match reop_len a pos with
           | Some (op, len) => ok op && instr_fits a pos op len && tiles_from ok fuel' a (pos + len)
           | None => false
           end
  end.
Definition tiles (ok : REOPCodeEnum -> bool) (a : list Z) : bool := tiles_from ok (S (length a)) a 0.

(** Instructions that do not move the character pointer backwards. *)
Definition is_forward_op (op : REOPCodeEnum) : bool :=
  match op with REOP_prev | REOP_backward_back_reference => false | _ => true end.

Lemma zget_middle {A} (pre a post : list A) i :
  0 <= i < zlen a -> zget (pre ++ a ++ post) (zlen pre + i) = zget a i.
Proof.
  intros Hi. unfold zget, zlen in *. bool_cases; try lia.
  rewrite lookup_app_r by lia. rewrite lookup_app_l by lia. f_equal. lia.
Qed.

Lemma zslice_mid {A} (pre a post : list A) p n :
  0 <= p -> 0 <= n -> p + n <= zlen a -> zslice (pre ++ a ++ post) (zlen pre + p) n = zslice a p n.
Proof.
  intros Hp Hn Hl. rewrite (zslice_in_range a) by lia.
  rewrite zslice_in_range by zlen_lia. f_equal. unfold zlen in *.
  replace (Z.to_nat (Z.of_nat (length pre) + p)) with (length pre + Z.to_nat p)%nat by lia.
  rewrite drop_app_add', drop_app_le, take_app_le by (rewrite ?length_drop; lia). done.
Qed.

Section Fragment.
Context `{!Allocator} (s : REExecContext) (Hbytes : bytes_ok (bc s)).
Context (pre a post : list Z) (Hbc : bc s = pre ++ a ++ post).

Abbreviation base := (zlen pre).

Lemma frag_bytes : bytes_ok a.
Proof. rewrite Hbc in Hbytes. by apply Forall_app in Hbytes as [_ [? _]%Forall_app]. Qed.

(** An instruction of the fragment is the same instruction of the whole code. *)
Lemma reop_len_mid pos op len :
  reop_len a pos = Some (op, len) -> instr_fits a pos op len = true ->
  reop_len (bc s) (base + pos) = Some (op, len) /\ instr_fits (bc s) (base + pos) op len = true.
Proof.
  intros Hop Hf. pose proof (reop_len_pos _ _ _ _ Hop frag_bytes) as Hlen1.
  assert (Hpos : 0 <= pos /\ pos + len <= zlen a) by (unfold instr_fits in Hf; bool_props; lia).
  pose proof (zlen_nonneg pre). pose proof (zlen_nonneg post).
  assert (Hle : base + pos + len <= zlen (bc s)) by (rewrite Hbc; zlen_lia).
  assert (H16 : forall v, get_u16 a (pos + 1) = Some v -> get_u16 (bc s) (base + pos + 1) = Some v).
  { intros v Hv. rewrite <- Hv. unfold get_u16 in *. destruct (zslice a (pos + 1) 2) as [l|] eqn:Hz; [|done].
    unfold zslice in Hz. case_match; [|done]. bool_props.
    replace (base + pos + 1) with (base + (pos + 1)) by lia. rewrite Hbc, zslice_mid by lia.
    rewrite zslice_in_range by lia. by injection Hz as <-. }
  split.
  - unfold reop_len in *. rewrite Hbc, zget_middle by lia. rewrite <- Hbc.
    destruct (zget a pos) as [b|]; [|done]. cbn [mbind option_bind] in *.
    destruct (z2op b) as [o|]; [|done]. cbn [mbind option_bind] in *.
    destruct o; try done; (destruct (get_u16 a (pos + 1)) as [v|]; [|done]); by rewrite (H16 v).
  - unfold instr_fits in *. bool_cases; try lia. simpl.
    destruct op; try done; (destruct (get_u16 a (pos + 1)) as [v|]; [|bool_props; done]);
      rewrite (H16 v) by done; bool_props; by apply Z.leb_le.
Qed.

(** *** Simple quantifiers *)

Lemma simple_loop_at ok fuel fuel' pos count n :
  re_is_simple_quantifier_loop fuel a pos count = Some n -> 0 <= n ->
  tiles_from ok fuel' a pos = true ->
  exists k, n = count + Z.of_nat k /\ simple_at s (base + zlen a) (base + pos) k.
Proof.
  intros Hn H0. revert fuel' pos count Hn.
  induction fuel as [|fuel IH]; intros fuel' pos count; cbn [re_is_simple_quantifier_loop]; [done|].
  intros Hn Ht. destruct fuel' as [|fuel']; [done|]. cbn [tiles_from] in Ht.
  destruct (Z.eqb_spec pos (zlen a)) as [->|Hne].
  { rewrite Z.ltb_irrefl in Hn. injection Hn as <-. exists 0%nat. split; [lia|constructor]. }
  destruct (reop_len a pos) as [[op len]|] eqn:Hop; [|done]. bool_props.
  destruct (reop_len_mid pos op len Hop) as [Hop' Hf']; [done|].
  assert (Hlt : pos < zlen a).
  { pose proof (reop_len_pos _ _ _ _ Hop frag_bytes). unfold instr_fits in *. bool_props. lia. }
  destruct (Z.ltb_spec pos (zlen a)); [|lia]. cbn [mbind option_bind] in Hn.
  destruct op; try (injection Hn as <-; lia).
  all: destruct (IH _ _ _ Hn ltac:(eassumption)) as (k & -> & Hk); replace (base + (pos + len)) with (base + pos + len) in Hk by lia.
  all: first [exists (S k); split; [lia|]; by eapply sa_char | exists k; split; [lia|]; by eapply sa_assert].
Qed.

(** *** Advancing *)

(** A run from [pc] that falls through to [e]: the character pointer there. *)
Inductive run_to (e : Z) : Z -> Z -> Z -> REExecData -> Z -> Prop :=
  | run_end cptr sl d : run_to e e cptr sl d cptr
  | run_step pc op cptr sl d pc1 cptr1 sl1 d1 cptr' :
      pc <> e -> zget (bc s) pc = Some (op2z op) ->
      exec_step s op (pc + 1) cptr sl d = Ok (SNext pc1 cptr1 sl1 d1) ->
      run_to e pc1 cptr1 sl1 d1 cptr' -> run_to e pc cptr sl d cptr'.

Lemma back_reference_loop_advances fuel p e c q :
  back_reference_loop s fuel p e c = Ok (Some q) -> c <= cbuf_end s -> c <= q <= cbuf_end s.
Proof.
  revert p c. induction fuel as [|fuel IH]; intros p c; cbn [back_reference_loop]; [done|].
  destruct (p <? e); [|intros [= ->]; lia]. destruct (cbuf_end s <=? c); [done|].
  destruct (GET_CHAR _ _ p e) as [[c1 p1]|]; [|done]. cbn [mbind outcome_bind of_opt]. unfold get_char.
  destruct (GET_CHAR _ _ c _) as [[c2 q2]|] eqn:Hg; [|done]. cbn [mbind outcome_bind of_opt].
  destruct (_ =? _); [|done]. intros Hq Hc.
  apply GET_CHAR_bounds in Hg; [|unfold cbuf_end; lia]. apply IH in Hq; unfold cbuf_end in *; lia.
Qed.

(** The instructions [re_need_check_advance] lets through, other than those that
    consume a character. *)
Definition is_quiet_op (op : REOPCodeEnum) : bool :=
  match op with
  | REOP_line_start | REOP_line_end | REOP_push_i32 | REOP_push_char_pos | REOP_drop
  | REOP_word_boundary | REOP_not_word_boundary | REOP_save_start | REOP_save_end | REOP_save_reset
  | REOP_back_reference => true
  | _ => false
  end.

(** Consuming one step of the error monad in a hypothesis. *)
Ltac step_in H :=
  match type of H with
  | context [of_opt ?x ≫= _] => destruct x eqn:?; [|done]; cbn [mbind outcome_bind of_opt] in H
  end.

Lemma quiet_step op pos len cptr sl d pc1 cptr1 sl1 d1 :
  reop_len (bc s) pos = Some (op, len) -> is_quiet_op op = true -> 0 <= cptr <= cbuf_end s ->
  exec_step s op (pos + 1) cptr sl d = Ok (SNext pc1 cptr1 sl1 d1) -> pc1 = pos + len /\ cptr <= cptr1 <= cbuf_end s.
Proof.
  intros Hop Hq Hc Hs. pose proof (reop_len_op _ _ _ _ Hop) as [_ Hlen].
  destruct (is_assert_op op) eqn:Ha.
  { destruct (assert_step s op pos len cptr sl d Hop Ha Hc) as [E|E]; rewrite E in Hs; [done|].
    injection Hs as <- <- <- <-. lia. }
  destruct op; try discriminate Hq; try discriminate Ha; cbn [reop_size] in Hlen; cbn [exec_step] in Hs; subst len.
  - step_in Hs. unfold op_save, assert_ in Hs. case_match; [|done]. cbn [mbind outcome_bind] in Hs. step_in Hs.
    injection Hs as <- <- <- <-. lia.
  - step_in Hs. unfold op_save, assert_ in Hs. case_match; [|done]. cbn [mbind outcome_bind] in Hs. step_in Hs.
    injection Hs as <- <- <- <-. lia.
  - unfold op_save_reset, assert_ in Hs. do 2 step_in Hs. case_match; [|done]. cbn [mbind outcome_bind] in Hs. step_in Hs.
    injection Hs as <- <- <- <-. lia.
  - step_in Hs. unfold op_push in Hs. step_in Hs. injection Hs as <- <- <- <-. lia.
  - injection Hs as <- <- <- <-. lia.
  - unfold op_back_reference in Hs. step_in Hs. destruct (_ <=? _); [injection Hs; intros; discriminate|].
    do 2 step_in Hs. destruct o as [st|]; [|injection Hs as <- <- <- <-; lia].
    destruct o0 as [en|]; [|injection Hs as <- <- <- <-; lia].
    destruct (back_reference_loop _ _ _ _ _) as [[q|]| |] eqn:Hb; try done. cbn [mbind outcome_bind] in Hs.
    injection Hs as <- <- <- <-. apply back_reference_loop_advances in Hb; lia.
  - unfold op_push in Hs. step_in Hs. injection Hs as <- <- <- <-. lia.
Qed.

Lemma advance_loop_run fuel fuel' pos ret cptr sl d cptr' :
  re_need_check_advance_loop fuel a pos ret = Some false -> tiles_from is_forward_op fuel' a pos = true ->
  0 <= cptr <= cbuf_end s -> run_to (base + zlen a) (base + pos) cptr sl d cptr' ->
  cptr <= cptr' /\ (ret = true -> cptr < cptr').
Proof.
  revert fuel' pos ret cptr sl d. induction fuel as [|fuel IH]; intros fuel' pos ret cptr sl d;
    cbn [re_need_check_advance_loop]; [done|].
  intros Hn Ht Hc Hr. destruct fuel' as [|fuel']; [done|]. cbn [tiles_from] in Ht.
  destruct (Z.eqb_spec pos (zlen a)) as [->|Hne].
  { rewrite Z.ltb_irrefl in Hn. injection Hn as ->. inversion Hr; subst; [split; [lia|done]|done]. }
  destruct (reop_len a pos) as [[op len]|] eqn:Hop; [|done]. bool_props.
  destruct (reop_len_mid pos op len Hop) as [Hop' Hf']; [done|].
  pose proof (reop_len_pos _ _ _ _ Hop frag_bytes).
  destruct (Z.ltb_spec pos (zlen a)) as [Hlt|]; [|unfold instr_fits in *; bool_props; lia].
  cbn [mbind option_bind] in Hn.
  inversion Hr as [|pc op1 ? ? ? pc1 cptr1 sl1 d1 ? Hpc Hb Hs Hrest]; subst; [lia|].
  pose proof (reop_len_op _ _ _ _ Hop') as [Hb' _]. rewrite Hb' in Hb. injection Hb as Hb.
  assert (op1 = op) as -> by (pose proof (z2op_op2z op1) as E; rewrite <- Hb, z2op_op2z in E; congruence).
  destruct (is_char_op op) eqn:Hcop.
  - destruct (char_step s Hbytes op _ len cptr sl d Hop' Hcop Hf' Hc) as [E|(c & q & Hg & E)]; rewrite E in Hs; [done|].
    injection Hs as <- <- <- <-. pose proof (GET_CHAR_bounds _ _ _ _ _ _ Hg ltac:(unfold cbuf_end; lia)).
    replace (base + pos + len) with (base + (pos + len)) in Hrest by lia.
    assert (re_need_check_advance_loop fuel a (pos + len) false = Some false) as Hn' by (by destruct op).
    eapply IH in Hrest; [|exact Hn'|eassumption|unfold cbuf_end in *; lia]. lia.
  - assert (is_quiet_op op = true /\ re_need_check_advance_loop fuel a (pos + len) ret = Some false) as [Hq Hn'] by (by destruct op).
    destruct (quiet_step _ _ _ _ _ _ _ _ _ _ Hop' Hq Hc Hs) as [-> Hle].
    replace (base + pos + len) with (base + (pos + len)) in Hrest by lia.
    eapply IH in Hrest as [? Hst]; [|exact Hn'|eassumption|lia].
    split; [lia|]. intros Hret%Hst. lia.
Qed.
End Fragment.

(** ** The stack size *)

(** The depths of the scan stay between 0 and the computed maximum. *)
Lemma stack_size_loop_bounds fuel fuel' code pos d0 m n D :
  compute_stack_size_loop fuel code pos d0 m = Some n -> 0 <= n -> 0 <= d0 <= m -> m <= STACK_SIZE_MAX ->
  scan_depths fuel' code pos (zlen code) d0 = Some D ->
  m <= n <= STACK_SIZE_MAX /\ forall p d, D !! p = Some d -> 0 <= d <= n.
Proof.
  intros Hn H0. revert fuel' pos d0 m D Hn.
  induction fuel as [|fuel IH]; intros fuel' pos d0 m D Hn Hd Hmax Hs; cbn [compute_stack_size_loop] in Hn; [done|].
  destruct fuel' as [|fuel']; [done|]. cbn [scan_depths] in Hs.
  destruct (pos <? zlen code). 2:{ injection Hn as <-. injection Hs as <-. split; [lia|]. intros p d. by rewrite lookup_empty. }
  destruct (reop_len code pos) as [[op len]|]; [|done]. cbn [mbind option_bind] in *.
  destruct (scan_depths fuel' code (pos + len) (zlen code) (depth_after op d0)) as [D'|] eqn:HD; [|done].
  cbn [mbind option_bind] in Hs. injection Hs as <-.
  destruct (zlen code <? pos + reop_size op); [done|].
  assert (Hgo : exists m', m <= m' <= STACK_SIZE_MAX /\ 0 <= depth_after op d0 <= m' /\
    compute_stack_size_loop fuel code (pos + len) (depth_after op d0) m' = Some n).
  { destruct op; cbn [depth_after]; try (exists m; split_and!; [lia..|done]).
    all: try (destruct (Z.leb_spec d0 0); [done|]; exists m; split_and!; [lia..|done]).
    all: destruct (Z.ltb_spec m (d0 + 1)); [|exists m; split_and!; [lia..|done]].
    all: destruct (Z.ltb_spec STACK_SIZE_MAX (d0 + 1)); [injection Hn as <-; lia|exists (d0 + 1); split_and!; [lia..|done]]. }
  destruct Hgo as (m' & Hm & Hda & Hn'). destruct (IH _ _ _ _ _ Hn' Hda ltac:(lia) HD) as [Hmn HDb].
  split; [lia|]. intros p d. rewrite lookup_insert_Some. intros [[<- <-]|[_ Hp]]; [lia|by eapply HDb].
Qed.

(** ** Repeating an atom *)

Section Repeat.
Context `{!Allocator} (exec : Z -> REExecData -> outcome (exec_result * REExecData)) (clen : Z).

(** [k] consecutive matches of the atom. *)
Inductive repeats (d : REExecData) : nat -> Z -> Z -> Prop :=
  | rep_0 c : repeats d 0 c c
  | rep_S k c c1 c2 : exec c d = Ok (RetCptr c1, d) -> repeats d k c1 c2 -> repeats d (S k) c c2.

(** An atom that leaves the state alone and reads at least one character. *)
Definition reading_atom : Prop := forall c d, 0 <= c <= clen ->
  exec c d = Ok (RetNoMatch, d) \/ exists q, exec c d = Ok (RetCptr q, d) /\ c < q <= clen.

Lemma greedy_loop_repeats fuel quant_max q c d :
  reading_atom -> 0 <= c <= clen -> clen - c < Z.of_nat fuel ->
  q < quant_max \/ quant_max = INT32_MAX ->
  exists k c', greedy_loop exec fuel quant_max q c d = Ok (Some (q + Z.of_nat k, c'), d) /\ repeats d k c c' /\
    ((q + Z.of_nat k = quant_max /\ quant_max <> INT32_MAX) \/
     (exec c' d = Ok (RetNoMatch, d) /\ (q + Z.of_nat k < quant_max \/ quant_max = INT32_MAX))).
Proof.
  intros Hx. revert q c. induction fuel as [|fuel IH]; intros q c Hc Hf Hq; [lia|]. cbn [greedy_loop].
  destruct (Hx c d Hc) as [E|(c1 & E & Hc1)]; rewrite E; cbn [mbind outcome_bind].
  { exists 0%nat, c. rewrite Z.add_0_r. split; [done|]. split; [constructor|]. right. auto. }
  destruct ((quant_max <=? q + 1) && negb (quant_max =? INT32_MAX)) eqn:Hstop.
  - bool_props. exists 1%nat, c1. split; [done|]. split; [econstructor; [done|constructor]|]. left. lia.
  - destruct (IH (q + 1) c1) as (k & c' & -> & Hrep & Hend); [lia|lia| |].
    { destruct (Z.eqb_spec quant_max INT32_MAX); [by right|]. left.
      destruct (Z.leb_spec quant_max (q + 1)); [done|lia]. }
    exists (S k), c'. replace (q + Z.of_nat (S k)) with (q + 1 + Z.of_nat k) by lia.
    split; [done|]. split; [by econstructor|done].
Qed.
End Repeat.

(** The atom of a simple quantifier, with enough fuel, is such an atom. *)
Lemma simple_atom_reading `{!Allocator} s pre a post n fuel sl :
  bytes_ok (bc s) -> bc s = pre ++ a ++ op2z REOP_match :: post ->
  tiles (fun _ => true) a = true -> re_is_simple_quantifier a = Some n -> 0 <= n -> zlen a < Z.of_nat fuel ->
  forall cptr d, 0 <= cptr <= cbuf_end s ->
  lre_exec_backtrack s fuel sl (zlen pre) cptr true d = Ok (RetNoMatch, d) \/
  exists q, lre_exec_backtrack s fuel sl (zlen pre) cptr true d = Ok (RetCptr q, d) /\
    advances (cbuf_type s) (cbuf s) (Z.to_nat n) cptr q.
Proof.
  intros Hb Hbc Ht Hn H0 Hf cptr d Hc.
  destruct (simple_loop_at s Hb pre a _ Hbc _ _ _ 0 0 n Hn H0 Ht) as (k & Hk & Hs). rewrite Z.add_0_r in Hs.
  assert (Hm : zget (bc s) (zlen pre + zlen a) = Some (op2z REOP_match)).
  { rewrite Hbc. replace (pre ++ a ++ op2z REOP_match :: post) with ((pre ++ a) ++ [op2z REOP_match] ++ post) by (by rewrite <- app_assoc).
    rewrite <- (zlen_app pre a), <- (Z.add_0_r (zlen (pre ++ a))). by rewrite zget_middle. }
  replace (Z.to_nat n) with k by lia.
  destruct (simple_run s Hb _ _ _ fuel sl cptr d Hs Hm Hc) as [[_ ?]|[?|?]]; [lia|auto..].
Qed.

(** C25: [re_is_simple_quantifier] is sound.  When it counts [n] characters for a
    fragment of code, the matcher runs the fragment (followed by [REOP_match], without
    backtracking) within its length: it never fails, changes neither captures nor the
    stacks, and either does not match or advances the character pointer by exactly [n]
    characters. *)
Theorem simple_quantifier_atom `{!Allocator} s pre a post n fuel sl cptr d :
  bytes_ok (bc s) -> bc s = pre ++ a ++ op2z REOP_match :: post ->
  tiles (fun _ => true) a = true -> re_is_simple_quantifier a = Some n -> 0 <= n ->
  0 <= cptr <= cbuf_end s -> zlen a < Z.of_nat fuel ->
  lre_exec_backtrack s fuel sl (zlen pre) cptr true d = Ok (RetNoMatch, d) \/
  exists q, lre_exec_backtrack s fuel sl (zlen pre) cptr true d = Ok (RetCptr q, d) /\
    advances (cbuf_type s) (cbuf s) (Z.to_nat n) cptr q.
Proof. intros Hb Hbc Ht Hn H0 Hc Hf. by eapply simple_atom_reading. Qed.

(** C26: the loop of [REOP_simple_greedy_quant] is greedy and terminates.  On an atom
    of [n > 0] characters, with fuel for one iteration more than the subject has
    characters, it returns the number of consecutive matches of the atom and the
    pointer after them, and it stopped because the maximum was reached or because the
    atom does not match there; captures and stacks are unchanged. *)
Theorem simple_quantifier_greedy `{!Allocator} s pre a post n fuel fuel1 sl quant_max cptr d :
  bytes_ok (bc s) -> bc s = pre ++ a ++ op2z REOP_match :: post ->
  tiles (fun _ => true) a = true -> re_is_simple_quantifier a = Some n -> 0 < n ->
  0 <= cptr <= cbuf_end s -> zlen a < Z.of_nat fuel1 -> cbuf_end s < Z.of_nat fuel -> 0 < quant_max ->
  let exec := fun cptr d => lre_exec_backtrack s fuel1 sl (zlen pre) cptr true d in
  exists k c, greedy_loop exec fuel quant_max 0 cptr d = Ok (Some (Z.of_nat k, c), d) /\ repeats exec d k cptr c /\
    ((Z.of_nat k = quant_max /\ quant_max <> INT32_MAX) \/
     (exec c d = Ok (RetNoMatch, d) /\ (Z.of_nat k < quant_max \/ quant_max = INT32_MAX))).
Proof.
  intros Hb Hbc Ht Hn H0 Hc Hf1 Hf Hq exec.
  apply (greedy_loop_repeats exec (cbuf_end s) fuel quant_max 0 cptr d); try lia.
  intros c d' Hc'. unfold exec.
  destruct (simple_atom_reading s pre a post n fuel1 sl Hb Hbc Ht Hn ltac:(lia) Hf1 c d' Hc') as [?|(q & E & Hadv)]; [auto|].
  right. exists q. split; [done|]. pose proof (advances_bounds _ _ _ _ _ Hadv). unfold cbuf_end. lia.
Qed.



(** ** Concrete instances *)

(** A context with the given code and subject. *)
Definition context_of (code subject : list Z) : REExecContext :=
  {| bc := code; cbuf := subject; cbuf_type := 1; capture_count := 1; stack_size_max := 1;
     multi_line := false; ignore_case := false; is_unicode := false; state_size := 56 |}.

Definition empty_data : @REExecData malloc_ok := @Build_REExecData malloc_ok [None; None] [None] [] 0 tt.

(** [\ba] between two [REOP_match], on ["aab"]. *)
Definition atom_code : list Z := [17; 1; 97; 0].
Definition atom_ctx : REExecContext := context_of ([10] ++ atom_code ++ [10]) [97; 97; 98].

Lemma atom_bytes : bytes_ok (bc atom_ctx).
Proof. repeat constructor; compute; done. Qed.

Lemma simple_quantifier_atom_witness :
  lre_exec_backtrack atom_ctx 5 0 1 0 true empty_data = Ok (RetNoMatch, empty_data) \/
  exists q, lre_exec_backtrack atom_ctx 5 0 1 0 true empty_data = Ok (RetCptr q, empty_data) /\
    advances 1 [97; 97; 98] 1 0 q.
Proof.
  apply (@simple_quantifier_atom malloc_ok atom_ctx [10] atom_code [] 1 5 0 0 empty_data).
  - apply atom_bytes.
  - reflexivity.
  - vm_compute. reflexivity.
  - vm_compute. reflexivity.
  - lia.
  - vm_compute. split; discriminate.
  - vm_compute. reflexivity.
Defined.

Lemma simple_quantifier_greedy_witness :
  let exec := fun cptr d => lre_exec_backtrack atom_ctx 5 0 1 cptr true d in
  exists k c, greedy_loop exec 4 2 0 0 empty_data = Ok (Some (Z.of_nat k, c), empty_data) /\
    repeats exec empty_data k 0 c /\
    ((Z.of_nat k = 2 /\ 2 <> INT32_MAX) \/
     (exec c empty_data = Ok (RetNoMatch, empty_data) /\ (Z.of_nat k < 2 \/ 2 = INT32_MAX))).
Proof.
  apply (@simple_quantifier_greedy malloc_ok atom_ctx [10] atom_code [] 1 4 5 0 2 0 empty_data).
  - apply atom_bytes.
  - reflexivity.
  - vm_compute. reflexivity.
  - vm_compute. reflexivity.
  - lia.
  - vm_compute. split; discriminate.
  - vm_compute. reflexivity.
  - vm_compute. reflexivity.
  - lia.
Defined.


(** A loop over an atom that may be empty: one [push_char_pos], one [check_advance]. *)
Definition loop_code : list Z := [0; 1; 1; 12; 0; 0; 0; 25; 1; 97; 0; 26; 7; 245; 255; 255; 255; 10].

