(* ===== verification/RegexpRange.v ===== *)
(** Character classes from the compiler to the matcher: the code that
    [re_emit_range] emits for a set of characters makes the matcher accept exactly the
    members of the set.

    The first part is a specification of emission: a parser computation [emits] a
    sequence of bytes when it appends them to the bytecode or leaves the error flag
    set.  The second part reads the emitted bounds back and uses the binary search of
    the matcher. *)

From S2P Require Import Prelude CutilsH CaseConv DynBuf CharRange UnicodeSet RegexpCode RegexpExec RegexpChars RegexpSafe RegexpStatic.
From S2P Require Import RegexpParse.

(** Lists two elements at a time. *)
Lemma pair_ind {A} (P : list A -> Prop) :
  P [] -> (forall a, P [a]) -> (forall a b l, P l -> P (a :: b :: l)) -> forall l, P l.
Proof.
  intros H0 H1 H2. fix IH 1. intros [|a [|b l]]; [apply H0|apply H1|apply H2, IH].
Qed.

(** ** Emission *)

Section Emits.
Context `{!Allocator}.

(** [m] returns a value and appends [bs], or sets the error flag; it keeps the buffer
    well formed and never clears the flag. *)
Definition emits {A} (m : parser A) (bs : list Z) : Prop := forall st,
  db_ok (byte_code st) -> db_size (byte_code st) + zlen bs < 2 ^ 64 ->
  exists r st', m st = Ok (Some r, st') /\ db_ok (byte_code st') /\
    db_size (byte_code st') <= db_size (byte_code st) + zlen bs /\
    (db_error (byte_code st) = true -> db_error (byte_code st') = true) /\
    (db_error (byte_code st') = false -> contents (byte_code st') = contents (byte_code st) ++ bs).

Lemma emits_ret {A} (a : A) : emits (mret a) [].
Proof.
  intros st Hok Hsz. exists a, st. rewrite zlen_nil, app_nil_r. split_and!; auto. lia.
Qed.

Lemma emits_bind {A B} (m : parser A) (f : A -> parser B) b1 b2 :
  emits m b1 -> (forall a, emits (f a) b2) -> emits (m ≫= f) (b1 ++ b2).
Proof.
  intros Hm Hf st Hok Hsz. rewrite zlen_app in Hsz. pose proof (zlen_nonneg b2).
  destruct (Hm st Hok) as (a & st1 & E1 & Hok1 & Hs1 & He1 & Hc1); [lia|].
  destruct (Hf a st1 Hok1) as (b & st2 & E2 & Hok2 & Hs2 & He2 & Hc2); [lia|].
  exists b, st2. split. { unfold mbind, parser_bind. cbn. by rewrite E1. }
  rewrite zlen_app. split_and!; [done|lia|auto|]. intros He. rewrite Hc2, Hc1, app_assoc; [done| |done].
  destruct (db_error (byte_code st1)); [rewrite He2 in He by done; done|done].
Qed.

Lemma emits_put (f : DynBuf -> option (DynBuf * Z)) bs :
  (forall d, f d = dbuf_put d bs) -> emits (on_code f) bs.
Proof.
  intros Hf st Hok Hsz. unfold on_code. rewrite Hf.
  set (d := with_opaque (byte_code st) (opaque st)).
  assert (Hd : db_ok d) by (destruct Hok; by split).
  destruct (dbuf_put_spec d bs Hd Hsz) as (d' & r & E & Hok' & Hc). rewrite E. cbn [mbind outcome_bind of_opt].
  eexists r, _. split; [done|]. simpl. split; [done|].
  pose proof (zlen_contents _ Hok') as Hz'. pose proof (zlen_contents _ Hd) as Hz. simpl in Hz. pose proof (zlen_nonneg bs).
  change (contents (byte_code st)) with (contents d). change (db_error (byte_code st)) with (db_error d).
  destruct Hc as [(_ & Hc & He)|(_ & Hc & He & _)]; rewrite Hc in Hz'.
  - split_and!; [zlen_lia|congruence|done].
  - split_and!; [lia|done|congruence].
Qed.

(** Emitting an opcode with a 16-bit or a 32-bit operand. *)
Lemma emits_op_u16 op v : emits (re_emit_op_u16 op v) (u8 op :: le_split 2 (u16 v)).
Proof.
  change (u8 op :: le_split 2 (u16 v)) with ([u8 op] ++ le_split 2 (u16 v)).
  apply emits_bind; [by apply emits_put|]. intros _. rewrite <- (app_nil_r (le_split 2 (u16 v))).
  apply emits_bind; [by apply emits_put|]. intros _. apply emits_ret.
Qed.

Lemma emits_op_u32 op v : emits (re_emit_op_u32 op v) (u8 op :: le_split 4 (u32 v)).
Proof.
  change (u8 op :: le_split 4 (u32 v)) with ([u8 op] ++ ([] ++ le_split 4 (u32 v))).
  apply emits_bind; [by apply emits_put|]. intros _. apply emits_bind.
  { intros st Hok _. unfold code_size, gets. eexists _, st. rewrite zlen_nil, app_nil_r. split_and!; auto. lia. }
  intros pos. rewrite <- (app_nil_r (le_split 4 (u32 v))).
  apply emits_bind; [by apply emits_put|]. intros _. apply emits_ret.
Qed.

(** The inclusive upper bound that a 16-bit range stores for the point [b]. *)
Definition high16 (b : Z) : Z :=
  let high := u32 (b - 1) in if high =? UINT32_MAX - 1 then 0xffff else high.

(** The bounds of a list of intervals, [w] bytes each. *)
Definition bounds_bytes (w : nat) (high : Z -> Z) (P : list (Z * Z)) : list Z :=
  concat (map (fun '(a, b) => le_split w a ++ le_split w (high b)) P).

Lemma le_split_mod n x : le_split n (x mod 2 ^ (8 * Z.of_nat n)) = le_split n x.
Proof.
  rewrite <- le_combine_split. rewrite <- (length_le_split n x) at 1. apply le_split_combine, le_split_bytes.
Qed.

Lemma le_split_u16 v : le_split 2 (u16 v) = le_split 2 v.
Proof. apply (le_split_mod 2). Qed.

Lemma le_split_u32 v : le_split 4 (u32 v) = le_split 4 v.
Proof. apply (le_split_mod 4). Qed.

Lemma emits_range16 l :
  Nat.Even (length l) -> emits (emit_range16 l) (bounds_bytes 2 high16 (to_pairs l)).
Proof.
  induction l as [|a|a b l IH] using pair_ind; intros Hev.
  - apply emits_ret.
  - by destruct Hev as [[|n] Hn]; simpl in Hn; lia.
  - cbn [to_pairs bounds_bytes map concat emit_range16]. rewrite <- app_assoc.
    apply emits_bind; [apply emits_put; intros d; unfold dbuf_put_u16; by rewrite le_split_u16|].
    intros _. apply emits_bind; [apply emits_put; intros d; unfold dbuf_put_u16; by rewrite le_split_u16|].
    intros _. apply IH. destruct Hev as [[|n] Hn]; simpl in Hn; [lia|]. exists n. lia.
Qed.

Lemma emits_range32 l :
  Nat.Even (length l) -> emits (emit_range32 l) (bounds_bytes 4 (fun b => u32 (b - 1)) (to_pairs l)).
Proof.
  induction l as [|a|a b l IH] using pair_ind; intros Hev.
  - apply emits_ret.
  - by destruct Hev as [[|n] Hn]; simpl in Hn; lia.
  - cbn [to_pairs bounds_bytes map concat emit_range32]. rewrite <- app_assoc.
    apply emits_bind; [apply emits_put; intros d; unfold dbuf_put_u32; by rewrite le_split_u32|].
    intros _. apply emits_bind; [apply emits_put; intros d; unfold dbuf_put_u32; by rewrite le_split_u32|].
    intros _. apply IH. destruct Hev as [[|n] Hn]; simpl in Hn; [lia|]. exists n. lia.
Qed.
End Emits.

(** ** Reading the bounds back *)

Lemma length_bounds_bytes w high P : length (bounds_bytes w high P) = (length P * (2 * w))%nat.
Proof.
  induction P as [|[a b] P IH]; [done|]. unfold bounds_bytes in *. cbn [map concat].
  rewrite !length_app, !length_le_split, IH. simpl. lia.
Qed.

Lemma bounds_bytes_app w high P Q : bounds_bytes w high (P ++ Q) = bounds_bytes w high P ++ bounds_bytes w high Q.
Proof. unfold bounds_bytes. by rewrite map_app, concat_app. Qed.

(** The two bounds of the interval [k]. *)
Lemma bounds_slices w high P pre post k a b :
  P !! k = Some (a, b) ->
  let bs := pre ++ bounds_bytes w high P ++ post in
  let p := zlen pre + Z.of_nat k * (2 * Z.of_nat w) in
  zslice bs p (Z.of_nat w) = Some (le_split w a) /\
  zslice bs (p + Z.of_nat w) (Z.of_nat w) = Some (le_split w (high b)).
Proof.
  intros Hk bs p. pose proof (lookup_lt_Some _ _ _ Hk) as Hlt.
  assert (Hbs : bs = (pre ++ bounds_bytes w high (take k P)) ++ le_split w a ++ le_split w (high b) ++
                     bounds_bytes w high (drop (S k) P) ++ post).
  { subst bs. rewrite <- (take_drop_middle P k (a, b) Hk) at 1. rewrite bounds_bytes_app.
    change (bounds_bytes w high ((a, b) :: drop (S k) P))
      with ((le_split w a ++ le_split w (high b)) ++ bounds_bytes w high (drop (S k) P)).
    by rewrite <- !app_assoc. }
  assert (Hp : p = zlen (pre ++ bounds_bytes w high (take k P))).
  { subst p. rewrite zlen_app. unfold zlen. rewrite length_bounds_bytes, length_take. lia. }
  split.
  - pose proof (zslice_app (pre ++ bounds_bytes w high (take k P)) (le_split w a)
      (le_split w (high b) ++ bounds_bytes w high (drop (S k) P) ++ post)) as Hz.
    rewrite zlen_le_split in Hz. by rewrite Hbs, Hp.
  - pose proof (zslice_app ((pre ++ bounds_bytes w high (take k P)) ++ le_split w a) (le_split w (high b))
      (bounds_bytes w high (drop (S k) P) ++ post)) as Hz.
    rewrite (zlen_app (pre ++ _)), !zlen_le_split, <- Hp in Hz. rewrite Hbs. by rewrite <- app_assoc in Hz.
Qed.

Lemma get_u16_here pre v post : 0 <= v < 65536 -> get_u16 (pre ++ le_split 2 v ++ post) (zlen pre) = Some v.
Proof.
  intros Hv. unfold get_u16. pose proof (zslice_app pre (le_split 2 v) post) as Hz. rewrite zlen_le_split in Hz.
  change (Z.of_nat 2) with 2 in Hz. rewrite Hz. cbn [fmap option_fmap option_map]. rewrite le_combine_split.
  by rewrite Z.mod_small.
Qed.

(** Intervals in increasing order, separated by gaps. *)
Record intervals_ok (P : list (Z * Z)) : Prop := {
  iv_in : forall k a b, P !! k = Some (a, b) -> 0 <= a /\ a < b /\ b <= UINT32_MAX;
  iv_lt : forall k j a b a' b', P !! k = Some (a, b) -> P !! j = Some (a', b') -> (k < j)%nat -> b < a' }.

Lemma to_pairs_lookup l k a b :
  to_pairs l !! k = Some (a, b) -> l !! (2 * k)%nat = Some a /\ l !! (2 * k + 1)%nat = Some b.
Proof.
  revert k. induction l as [|x|x y l IH] using pair_ind; intros k; [done..|]. cbn [to_pairs].
  destruct k as [|k]; cbn [lookup list_lookup]; [by intros [= -> ->]|]. intros [H1 H2]%IH.
  replace (2 * S k)%nat with (S (S (2 * k))) by lia. by replace (S (S (2 * k)) + 1)%nat with (S (S (2 * k + 1))) by lia.
Qed.

Lemma sorted_lookup_lt l i j x y :
  StronglySorted Z.lt l -> l !! i = Some x -> l !! j = Some y -> (i < j)%nat -> x < y.
Proof.
  intros Hs. revert i j. induction Hs as [|z l Hs IH Hf]; intros i j Hi Hj Hlt; [done|].
  destruct j as [|j]; [lia|]. cbn [lookup list_lookup] in Hj. destruct i as [|i]; cbn [lookup list_lookup] in Hi.
  - injection Hi as ->. rewrite Forall_lookup in Hf. by eapply Hf.
  - eapply IH; [done..|lia].
Qed.

Lemma sorted_lt_le l : StronglySorted Z.lt l -> StronglySorted Z.le l.
Proof.
  induction 1 as [|x l Hs IH Hf]; constructor; [done|]. eapply Forall_impl; [exact Hf|]. intros; simpl in *; lia.
Qed.

Lemma canonical_intervals l :
  StronglySorted Z.lt l -> Forall (fun p => 0 <= p <= UINT32_MAX) l -> intervals_ok (to_pairs l).
Proof.
  intros Hs Hr. rewrite Forall_lookup in Hr. split.
  - intros k a b [H1 H2]%to_pairs_lookup. pose proof (Hr _ _ H1). pose proof (Hr _ _ H2).
    pose proof (sorted_lookup_lt l _ _ _ _ Hs H1 H2 ltac:(lia)). lia.
  - intros k j a b a' b' [H1 H2]%to_pairs_lookup [H3 H4]%to_pairs_lookup Hlt.
    apply (sorted_lookup_lt l _ _ _ _ Hs H2 H3). lia.
Qed.

(** ** Running the emitted code *)

Definition iv_lo (P : list (Z * Z)) (k : Z) : Z := match P !! Z.to_nat k with Some (a, _) => a | None => 0 end.
Definition iv_hi (high : Z -> Z) (P : list (Z * Z)) (k : Z) : Z :=
  match P !! Z.to_nat k with Some (_, b) => high b | None => 0 end.

Section Run.
Context `{!Allocator} (s : REExecContext) (P : list (Z * Z)) (HP : intervals_ok P).

Lemma iv_get k : 0 <= k < zlen P -> exists a b, P !! Z.to_nat k = Some (a, b).
Proof.
  intros Hk. destruct (lookup_lt_is_Some_2 P (Z.to_nat k)) as [[a b] E]; [unfold zlen in Hk; lia|eauto].
Qed.

Lemma bounds_at_emitted w get high pre post :
  bc s = pre ++ bounds_bytes w high P ++ post ->
  (forall tab p, get tab p = le_combine <$> zslice tab p (Z.of_nat w)) ->
  (forall k a b, P !! k = Some (a, b) -> a < 2 ^ (8 * Z.of_nat w) /\ 0 <= high b < 2 ^ (8 * Z.of_nat w)) ->
  bounds_at s get (Z.of_nat w) (iv_lo P) (iv_hi high P) (zlen pre) (zlen P).
Proof.
  intros Hbc Hget Hr k Hk. destruct (iv_get k Hk) as (a & b & E). unfold iv_lo, iv_hi. rewrite E, !Hget, Hbc.
  destruct (bounds_slices w high P pre post _ a b E) as [H1 H2]. rewrite Z2Nat.id in H1, H2 by lia.
  rewrite H1, H2. cbn [fmap option_fmap option_map]. rewrite !le_combine_split.
  destruct (Hr _ _ _ E). pose proof (iv_in P HP _ _ _ E). rewrite !Z.mod_small by lia. done.
Qed.

(** Membership by index, and the order that the search needs. *)
Lemma in_pairs_index c : in_pairs P c <-> exists k, 0 <= k < zlen P /\ iv_lo P k <= c < iv_hi id P k.
Proof.
  unfold in_pairs, iv_lo, iv_hi. split.
  - intros (a & b & [k E]%list_elem_of_lookup & Hc). exists (Z.of_nat k).
    rewrite Nat2Z.id, E. split; [|done]. apply lookup_lt_Some in E. unfold zlen. lia.
  - intros (k & Hk & Hc). destruct (iv_get k Hk) as (a & b & E). rewrite E in Hc.
    exists a, b. split; [|done]. apply list_elem_of_lookup. eauto.
Qed.

Lemma iv_order k j : 0 <= k -> k < j -> j < zlen P -> iv_hi id P k < iv_lo P j.
Proof.
  intros. destruct (iv_get k) as (a & b & E); [lia|]. destruct (iv_get j) as (a' & b' & E'); [lia|].
  unfold iv_lo, iv_hi. rewrite E, E'. eapply (iv_lt P HP); [done..|lia].
Qed.

Lemma iv_nonempty k : 0 <= k < zlen P -> 0 <= iv_lo P k /\ iv_lo P k < iv_hi id P k <= UINT32_MAX.
Proof.
  intros Hk. destruct (iv_get k Hk) as (a & b & E). unfold iv_lo, iv_hi. rewrite E.
  pose proof (iv_in P HP _ _ _ E). unfold id. lia.
Qed.

Lemma iv_first c : c < iv_lo P 0 -> ~ in_pairs P c.
Proof.
  intros Hc (k & Hk & Hkc)%in_pairs_index. destruct (Z.eq_dec k 0) as [->|]; [lia|].
  pose proof (iv_order 0 k ltac:(lia) ltac:(lia) ltac:(lia)). pose proof (iv_nonempty 0 ltac:(lia)). lia.
Qed.

Lemma iv_last c : 0 < zlen P -> iv_hi id P (zlen P - 1) <= c -> ~ in_pairs P c.
Proof.
  intros Hn Hc (k & Hk & Hkc)%in_pairs_index. destruct (Z.eq_dec k (zlen P - 1)) as [->|]; [lia|].
  pose proof (iv_order k (zlen P - 1) ltac:(lia) ltac:(lia) ltac:(lia)).
  pose proof (iv_nonempty (zlen P - 1) ltac:(lia)). lia.
Qed.

(** What a range instruction must do on the character [c]. *)
Definition class_step (c : Z) (pc' q sl : Z) (d : REExecData) (r : outcome step_result) : Prop :=
  (in_pairs P c /\ r = Ok (SNext pc' q sl d)) \/ (~ in_pairs P c /\ r = Ok (SNoMatch d)).

Lemma op_range32_class pre post cptr sl d c q :
  bc s = (pre ++ le_split 2 (zlen P)) ++ bounds_bytes 4 (fun b => u32 (b - 1)) P ++ post ->
  1 <= zlen P < 65535 -> cptr < cbuf_end s -> get_char s cptr = Ok (c, q) ->
  class_step (canon s c) (zlen pre + 2 + 8 * zlen P) q sl d (op_range32 s (zlen pre) cptr sl d).
Proof.
  intros Hbc Hn Hcp Hg. unfold op_range32, class_step.
  assert (Hb : bounds_at s get_u32 4 (iv_lo P) (iv_hi (fun b => u32 (b - 1)) P) (zlen pre + 2) (zlen P)).
  { change 4 with (Z.of_nat 4). replace (zlen pre + 2) with (zlen (pre ++ le_split 2 (zlen P))) by zlen_lia.
    eapply (bounds_at_emitted 4); [exact Hbc|done|]. intros k a b E. pose proof (iv_in P HP _ _ _ E).
    unfold UINT32_MAX in *. rewrite u32_small by lia. lia. }
  assert (Hhi : forall k, 0 <= k < zlen P -> iv_hi (fun b => u32 (b - 1)) P k = iv_hi id P k - 1).
  { intros k Hk. destruct (iv_get k Hk) as (a & b & E). unfold iv_hi. rewrite E.
    pose proof (iv_in P HP _ _ _ E). unfold UINT32_MAX, id in *. apply u32_small. lia. }
  assert (Hu16 : get_u16 (bc s) (zlen pre) = Some (zlen P)).
  { rewrite Hbc, <- app_assoc. apply get_u16_here. lia. }
  rewrite Hu16. cbn [mbind outcome_bind of_opt]. destruct (Z.leb_spec (cbuf_end s) cptr); [lia|].
  rewrite Hg. cbn [mbind outcome_bind]. destruct (Hb 0) as [Hlo _]; [lia|].
  rewrite Z.mul_0_l, Z.add_0_r in Hlo. rewrite Hlo. cbn [mbind outcome_bind of_opt].
  destruct (Z.ltb_spec (canon s c) (iv_lo P 0)); [right; split; [by apply iv_first|done]|].
  rewrite (u32_small (zlen P - 1)), (u32_small ((zlen P - 1) * 8 + 4)) by lia.
  destruct (Hb (zlen P - 1)) as [_ Hh]; [lia|]. change (2 * 4) with 8 in Hh. rewrite Z.add_assoc, Hh, Hhi by lia.
  cbn [mbind outcome_bind of_opt]. destruct (Z.ltb_spec (iv_hi id P (zlen P - 1) - 1) (canon s c)).
  { right. split; [apply iv_last; lia|done]. }
  destruct (range_search_spec s get_u32 4 _ _ _ _ (S (Z.to_nat (zlen P))) (canon s c) Hb) as (r & -> & Hr); [lia..| | |].
  { intros k j ? ? ?. rewrite Hhi by lia. pose proof (iv_order k j ltac:(lia) ltac:(lia) ltac:(lia)). lia. }
  { intros k Hk. rewrite Hhi by lia. pose proof (iv_nonempty k Hk). lia. }
  cbn [mbind outcome_bind]. assert (Hm : r = true <-> in_pairs P (canon s c)).
  { rewrite Hr, in_pairs_index. split; intros (k & Hk & Hkc); exists k; (split; [done|]); rewrite Hhi in * by lia; lia. }
  destruct r; [left; split; [by apply Hm|done]|right; split; [by intros ?%Hm|done]].
Qed.

(** Sixteen-bit bounds are possible: points up to 0xffff, except an infinite end. *)
Definition fits16 : Prop := forall k, 0 <= k < zlen P ->
  iv_lo P k <= 0xffff /\ (iv_hi id P k <= 0xffff \/ iv_hi id P k = UINT32_MAX).

Lemma iv_high16 k :
  0 <= k < zlen P ->
  iv_hi high16 P k = if iv_hi id P k =? UINT32_MAX then 0xffff else iv_hi id P k - 1.
Proof.
  intros Hk. destruct (iv_get k Hk) as (a & b & E). unfold iv_hi. rewrite E. pose proof (iv_in P HP _ _ _ E).
  unfold high16, id, UINT32_MAX in *. rewrite u32_small by lia.
  destruct (Z.eqb_spec b 4294967295); destruct (Z.eqb_spec (b - 1) (4294967295 - 1)); lia.
Qed.

Lemma bounds_at_16 pre post :
  bc s = pre ++ bounds_bytes 2 high16 P ++ post -> fits16 ->
  bounds_at s get_u16 2 (iv_lo P) (iv_hi high16 P) (zlen pre) (zlen P).
Proof.
  intros Hbc H16. change 2 with (Z.of_nat 2). eapply (bounds_at_emitted 2); [exact Hbc|done|].
  intros k a b E. pose proof (lookup_lt_Some _ _ _ E) as Hlt.
  assert (Hk : 0 <= Z.of_nat k < zlen P) by (unfold zlen; lia).
  pose proof (H16 _ Hk) as [Ha Hb]. pose proof (iv_high16 _ Hk) as Hh. pose proof (iv_nonempty _ Hk) as Hne.
  unfold iv_lo, iv_hi in *. rewrite Nat2Z.id, E in *. unfold id in *. rewrite Hh.
  destruct (Z.eqb_spec b UINT32_MAX); lia.
Qed.

Lemma op_range_class pre post cptr sl d c q :
  bc s = (pre ++ le_split 2 (zlen P)) ++ bounds_bytes 2 high16 P ++ post ->
  1 <= zlen P < 65535 -> fits16 -> cptr < cbuf_end s -> get_char s cptr = Ok (c, q) -> canon s c < UINT32_MAX ->
  class_step (canon s c) (zlen pre + 2 + 4 * zlen P) q sl d (op_range s (zlen pre) cptr sl d).
Proof.
  intros Hbc Hn H16 Hcp Hg Hmax. unfold op_range, class_step.
  pose proof (bounds_at_16 _ _ Hbc H16) as Hb.
  replace (zlen (pre ++ le_split 2 (zlen P))) with (zlen pre + 2) in Hb by zlen_lia.
  assert (Hu16 : get_u16 (bc s) (zlen pre) = Some (zlen P)).
  { rewrite Hbc, <- app_assoc. apply get_u16_here. lia. }
  rewrite Hu16. cbn [mbind outcome_bind of_opt]. destruct (Z.leb_spec (cbuf_end s) cptr); [lia|].
  rewrite Hg. cbn [mbind outcome_bind]. destruct (Hb 0) as [Hlo _]; [lia|].
  rewrite Z.mul_0_l, Z.add_0_r in Hlo. rewrite Hlo. cbn [mbind outcome_bind of_opt].
  destruct (Z.ltb_spec (canon s c) (iv_lo P 0)); [right; split; [by apply iv_first|done]|].
  rewrite (u32_small (zlen P - 1)), (u32_small ((zlen P - 1) * 4 + 2)) by lia.
  destruct (Hb (zlen P - 1)) as [_ Hh]; [lia|]. change (2 * 2) with 4 in Hh.
  rewrite Z.add_assoc, Hh. cbn [mbind outcome_bind of_opt].
  pose proof (H16 (zlen P - 1) ltac:(lia)) as [Hl16 Hh16]. pose proof (iv_high16 (zlen P - 1) ltac:(lia)) as Hlast.
  destruct ((0xffff <=? canon s c) && (iv_hi high16 P (zlen P - 1) =? 0xffff)) eqn:Hinf.
  { bool_props. left. split; [|done]. apply in_pairs_index. exists (zlen P - 1). split; [lia|].
    destruct (Z.eqb_spec (iv_hi id P (zlen P - 1)) UINT32_MAX); lia. }
  destruct (Z.ltb_spec (iv_hi high16 P (zlen P - 1)) (canon s c)) as [Hgt|Hle].
  { right. split; [|done]. apply iv_last; [lia|].
    destruct (Z.eqb_spec (iv_hi id P (zlen P - 1)) UINT32_MAX); [|lia].
    rewrite Hlast in Hinf, Hgt. apply andb_false_iff in Hinf as [Hinf|Hinf]; bool_props; lia. }
  destruct (range_search_spec s get_u16 2 _ _ _ _ (S (Z.to_nat (zlen P))) (canon s c) Hb) as (r & -> & Hr); [lia..| | |].
  { intros k j ? ? ?. rewrite iv_high16 by lia. pose proof (iv_order k j ltac:(lia) ltac:(lia) ltac:(lia)).
    pose proof (iv_nonempty j ltac:(lia)). destruct (Z.eqb_spec (iv_hi id P k) UINT32_MAX); lia. }
  { intros k Hk. rewrite iv_high16 by lia. pose proof (iv_nonempty k Hk). pose proof (H16 k Hk).
    destruct (Z.eqb_spec (iv_hi id P k) UINT32_MAX); lia. }
  cbn [mbind outcome_bind]. assert (Hm : r = true <-> in_pairs P (canon s c)).
  { rewrite Hr, in_pairs_index. split; intros (k & Hk & Hkc); exists k; (split; [done|]);
      rewrite iv_high16 in * by lia; destruct (Z.eqb_spec (iv_hi id P k) UINT32_MAX); try lia.
    assert (canon s c <= 0xffff); [|lia]. destruct (Z.eqb_spec (iv_hi id P (zlen P - 1)) UINT32_MAX); lia. }
  destruct r; [left; split; [by apply Hm|done]|right; split; [by intros ?%Hm|done]].
Qed.
End Run.

(** ** From the set to the match *)

(** Whether [re_emit_range] chooses 16-bit bounds for the points [l]. *)
Definition use16 (l : list Z) : bool :=
  match zget l (zlen l - 1), zget l (zlen l - 2) with
  | Some high, Some low => (if high =? UINT32_MAX then low else high) <=? 0xffff
  | _, _ => false
  end.

(** The code of a set of characters. *)
Definition range_code (l : list Z) : list Z :=
  let P := to_pairs l in
  if zlen P =? 0 then u8 (op2z REOP_char32) :: le_split 4 (u32 (-1))
  else if use16 l then u8 (op2z REOP_range) :: le_split 2 (zlen P) ++ bounds_bytes 2 high16 P
  else u8 (op2z REOP_range32) :: le_split 2 (zlen P) ++ bounds_bytes 4 (fun b => u32 (b - 1)) P.

Lemma zlen_to_pairs l : Nat.Even (length l) -> zlen l = 2 * zlen (to_pairs l).
Proof.
  unfold zlen. induction l as [|a|a b l IH] using pair_ind; intros Hev; [done| |].
  - by destruct Hev as [[|n] Hn]; simpl in Hn; lia.
  - cbn [to_pairs length]. destruct Hev as [[|n] Hn]; simpl in Hn; [lia|].
    specialize (IH ltac:(exists n; lia)). lia.
Qed.

Section EmitRange.
Context `{!Allocator}.

Lemma emits_lift {A B} (a : A) (f : A -> parser B) bs : emits (f a) bs -> emits (lift (Some a) ≫= f) bs.
Proof. done. Qed.

Lemma emits_range cr :
  cr_ok cr -> Nat.Even (length (pts cr)) -> cr_len cr < 2 * 65535 ->
  emits (re_emit_range cr) (range_code (pts cr)).
Proof.
  intros Hok Hev Hlt. pose proof (zlen_pts cr Hok) as Hl. pose proof (zlen_to_pairs _ Hev) as H2.
  pose proof (zlen_nonneg (to_pairs (pts cr))).
  assert (Hn : cr_len cr / 2 = zlen (to_pairs (pts cr))) by (rewrite <- Hl, H2, Z.mul_comm; apply Z.div_mul; lia).
  unfold re_emit_range, range_code. cbv zeta. rewrite Hn. destruct (Z.leb_spec 65535 (zlen (to_pairs (pts cr)))); [lia|].
  destruct (Z.eqb_spec (zlen (to_pairs (pts cr))) 0).
  { rewrite <- (app_nil_r (u8 _ :: _)). apply emits_bind; [apply emits_op_u32|intros; apply emits_ret]. }
  assert (Hget : forall i, 0 <= i < cr_len cr -> zget (cr_points cr) i = zget (pts cr) i).
  { intros i Hi. unfold pts. symmetry. apply zget_take. lia. }
  unfold use16. rewrite Hl, !Hget by lia.
  destruct (zget_in_range (pts cr) (cr_len cr - 1)) as [hi Ehi]; [lia|].
  destruct (zget_in_range (pts cr) (cr_len cr - 2)) as [lo Elo]; [lia|].
  rewrite Ehi, Elo. apply emits_lift.
  assert (Hcode : forall high, emits (if high <=? 0xffff
      then _ ← re_emit_op_u16 (op2z REOP_range) (zlen (to_pairs (pts cr))); emit_range16 (pts cr)
      else _ ← re_emit_op_u16 (op2z REOP_range32) (zlen (to_pairs (pts cr))); emit_range32 (pts cr))
    (if high <=? 0xffff then u8 (op2z REOP_range) :: le_split 2 (zlen (to_pairs (pts cr))) ++ bounds_bytes 2 high16 (to_pairs (pts cr))
     else u8 (op2z REOP_range32) :: le_split 2 (zlen (to_pairs (pts cr))) ++ bounds_bytes 4 (fun b => u32 (b - 1)) (to_pairs (pts cr)))).
  { intros high. rewrite <- (le_split_u16 (zlen (to_pairs (pts cr)))).
    destruct (high <=? 0xffff); rewrite app_comm_cons;
      (apply emits_bind; [apply emits_op_u16|intros _; by apply emits_range16 || by apply emits_range32]). }
  destruct (hi =? UINT32_MAX); [apply emits_lift|]; apply Hcode.
Qed.
End EmitRange.

Section RunRange.
Context `{!Allocator} (s : REExecContext) (l : list Z).
Context (Hs : StronglySorted Z.lt l) (Hev : Nat.Even (length l)) (Hr : Forall (fun p => 0 <= p <= UINT32_MAX) l).

Abbreviation P := (to_pairs l).

(** The choice of 16-bit bounds is sound. *)
Lemma use16_fits : use16 l = true -> fits16 P.
Proof.
  intros Hu k Hk. pose proof (zlen_to_pairs l Hev) as H2. pose proof (canonical_intervals l Hs Hr) as HP.
  unfold use16 in Hu. destruct (zget l (zlen l - 1)) as [hi|] eqn:Ehi; [|done].
  destruct (zget l (zlen l - 2)) as [lo|] eqn:Elo; [|done].
  destruct (iv_get P (zlen P - 1)) as (a & b & E); [lia|]. pose proof (to_pairs_lookup _ _ _ _ E) as [Ea Eb].
  assert (a = lo /\ b = hi) as [-> ->].
  { unfold zget in *. destruct (Z.ltb_spec (zlen l - 1) 0); [done|]. destruct (Z.ltb_spec (zlen l - 2) 0); [done|].
    replace (2 * Z.to_nat (zlen P - 1) + 1)%nat with (Z.to_nat (zlen l - 1)) in Eb by lia.
    replace (2 * Z.to_nat (zlen P - 1))%nat with (Z.to_nat (zlen l - 2)) in Ea by lia.
    split; congruence. }
  assert (Hlast : iv_lo P (zlen P - 1) = lo /\ iv_hi id P (zlen P - 1) = hi) by (unfold iv_lo, iv_hi; rewrite E; done).
  pose proof (iv_in P HP _ _ _ E). destruct (Z.eq_dec k (zlen P - 1)) as [->|Hne].
  - destruct Hlast as [-> ->]. destruct (Z.eqb_spec hi UINT32_MAX); bool_props; lia.
  - pose proof (iv_order P HP k (zlen P - 1) ltac:(lia) ltac:(lia) ltac:(lia)). pose proof (iv_nonempty P HP k Hk).
    destruct (Z.eqb_spec hi UINT32_MAX); bool_props; lia.
Qed.

(** The outcome of [class_step] in terms of [cr_mem]. *)
Lemma class_step_mem c pc' q sl d r :
  class_step P c pc' q sl d r -> r = Ok (if cr_mem l c then SNext pc' q sl d else SNoMatch d).
Proof.
  assert (Hsort : cr_sorted l). { split; [|done]. by apply sorted_lt_le. }
  pose proof (cr_mem_in_pairs l c Hsort) as Hm. intros [[Hin ->]|[Hin ->]].
  - by rewrite (proj2 Hm Hin).
  - destruct (cr_mem l c); [by destruct Hin; apply Hm|done].
Qed.

Lemma range_code_run pre post cptr sl d c q :
  bc s = pre ++ range_code l ++ post -> zlen l < 2 * 65535 -> get_char s cptr = Ok (c, q) ->
  cptr < cbuf_end s -> 0 <= canon s c < UINT32_MAX ->
  exists op, zget (bc s) (zlen pre) = Some (op2z op) /\
    exec_step s op (zlen pre + 1) cptr sl d =
      Ok (if cr_mem l (canon s c) then SNext (zlen pre + zlen (range_code l)) q sl d else SNoMatch d).
Proof.
  intros Hbc Hn Hg Hcp Hc. pose proof (zlen_to_pairs l Hev) as H2. pose proof (zlen_nonneg P).
  pose proof (canonical_intervals l Hs Hr) as HP. pose proof (use16_fits) as Hf. unfold range_code in *. cbv zeta in *.
  assert (Hop : forall op bs, bc s = pre ++ (u8 (op2z op) :: bs) ++ post -> zget (bc s) (zlen pre) = Some (op2z op)).
  { intros op bs ->. rewrite <- (Z.add_0_r (zlen pre)), zget_middle by zlen_lia. by destruct op. }
  destruct (Z.eqb_spec (zlen P) 0) as [Hz0|Hne].
  - exists REOP_char32. split; [by eapply Hop|]. cbn [exec_step].
    assert (l = []) as -> by (destruct l; [done|rewrite zlen_cons in H2; pose proof (zlen_nonneg l0); lia]).
    replace (get_u32 (bc s) (zlen pre + 1)) with (Some UINT32_MAX).
    2:{ rewrite Hbc. unfold get_u32. rewrite zslice_mid by (vm_compute; congruence). reflexivity. }
    cbn [mbind outcome_bind of_opt]. unfold test_char. destruct (Z.leb_spec (cbuf_end s) cptr); [lia|].
    rewrite Hg. cbn [mbind outcome_bind]. destruct (Z.eqb_spec UINT32_MAX (canon s c)); [lia|done].
  - assert (Hlen : forall w high, zlen (u8 (op2z REOP_range) :: le_split 2 (zlen P) ++ bounds_bytes w high P) =
        3 + 2 * Z.of_nat w * zlen P).
    { intros w high. unfold zlen. cbn [length]. rewrite length_app, length_le_split, length_bounds_bytes. lia. }
    assert (Hassoc : forall op w high, pre ++ (u8 (op2z op) :: le_split 2 (zlen P) ++ bounds_bytes w high P) ++ post =
        ((pre ++ [u8 (op2z op)]) ++ le_split 2 (zlen P)) ++ bounds_bytes w high P ++ post).
    { intros. rewrite <- !app_assoc. cbn [app]. by rewrite <- ?app_assoc. }
    assert (Hpre : forall x : Z, zlen (pre ++ [x]) = zlen pre + 1) by (intros; zlen_lia).
    destruct (use16 l).
    + exists REOP_range. split; [by eapply Hop|]. apply class_step_mem. rewrite Hlen, <- (Hpre (u8 (op2z REOP_range))).
      rewrite Hassoc in Hbc.
      replace (zlen pre + (3 + 2 * Z.of_nat 2 * zlen P)) with (zlen (pre ++ [u8 (op2z REOP_range)]) + 2 + 4 * zlen P) by (rewrite Hpre; lia).
      eapply op_range_class; try done; [lia|by apply Hf|lia].
    + exists REOP_range32. split; [by eapply Hop|]. apply class_step_mem.
      rewrite Hassoc in Hbc. rewrite <- (Hpre (u8 (op2z REOP_range32))).
      replace (zlen pre + zlen _) with (zlen (pre ++ [u8 (op2z REOP_range32)]) + 2 + 8 * zlen P).
      2:{ rewrite Hpre. specialize (Hlen 4%nat (fun b => u32 (b - 1))). rewrite !zlen_cons in *. lia. }
      eapply op_range32_class; try done; lia.
Qed.
End RunRange.

Lemma zlen_range_code l : zlen (range_code l) <= 5 + 8 * zlen (to_pairs l).
Proof.
  unfold range_code. cbv zeta. pose proof (zlen_nonneg (to_pairs l)). unfold zlen in *.
  destruct (_ =? 0); [simpl; lia|]. destruct (use16 l); cbn [length];
    rewrite length_app, length_le_split, length_bounds_bytes; lia.
Qed.

(** C2: character classes are compiled correctly.  For every canonical set of
    characters, [re_emit_range] succeeds and, unless the buffer reports an error,
    appends code to the bytecode such that the matcher, wherever the code is placed and
    whatever character [c] it reads, continues after the code when [c] (canonicalized if
    case is ignored) belongs to the set and fails otherwise: both encodings, the
    convention that 0xffff is infinity, the empty set and the binary search included. *)
Theorem char_class_matches `{!Allocator} cr st :
  cr_ok cr -> cr_canonical (pts cr) -> Forall (fun p => 0 <= p <= UINT32_MAX) (pts cr) ->
  cr_len cr < 2 * 65535 -> db_ok (byte_code st) -> db_size (byte_code st) < 2 ^ 63 ->
  exists st' code, re_emit_range cr st = Ok (Some tt, st') /\
    (db_error (byte_code st') = false -> contents (byte_code st') = contents (byte_code st) ++ code) /\
    forall s pre post cptr sl d c q,
      bc s = pre ++ code ++ post -> cptr < cbuf_end s -> get_char s cptr = Ok (c, q) ->
      0 <= canon s c <= 0x10ffff ->
      exists op, zget (bc s) (zlen pre) = Some (op2z op) /\
        exec_step s op (zlen pre + 1) cptr sl d =
          Ok (if cr_mem (pts cr) (canon s c) then SNext (zlen pre + zlen code) q sl d else SNoMatch d).
Proof.
  intros Hok [Hs Hev] Hr Hlen Hdb Hsz. pose proof (zlen_range_code (pts cr)). pose proof (zlen_to_pairs _ Hev).
  pose proof (zlen_pts cr Hok).
  destruct (emits_range cr Hok Hev Hlen st Hdb) as ([] & st' & E & _ & _ & _ & Hc); [lia|].
  exists st', (range_code (pts cr)). split; [done|]. split; [done|]. intros s pre post cptr sl d c q Hbc Hcp Hg Hcan.
  eapply range_code_run; try done; [lia|unfold UINT32_MAX; lia].
Qed.

(** The class [\d], compiled into an empty buffer. *)
Lemma char_class_matches_witness :
  exists st' code, re_emit_range cr_digits (@init_state malloc_ok [] 0 tt) = Ok (Some tt, st') /\
    (db_error (byte_code st') = false -> contents (byte_code st') = [] ++ code) /\
    forall s pre post cptr sl (d : @REExecData malloc_ok) c q,
      bc s = pre ++ code ++ post -> cptr < cbuf_end s -> get_char s cptr = Ok (c, q) ->
      0 <= canon s c <= 0x10ffff ->
      exists op, zget (bc s) (zlen pre) = Some (op2z op) /\
        exec_step s op (zlen pre + 1) cptr sl d =
          Ok (if cr_mem [48; 58] (canon s c) then SNext (zlen pre + zlen code) q sl d else SNoMatch d).
Proof.
  apply (@char_class_matches malloc_ok cr_digits (@init_state malloc_ok [] 0 tt)).
  - split; vm_compute; intuition congruence.
  - split; [repeat constructor|by exists 1%nat].
  - repeat constructor; vm_compute; congruence.
  - reflexivity.
  - split; vm_compute; intuition congruence.
  - reflexivity.
Defined.
