(* ===== verification/RegexpExamples.v ===== *)
(** Whole runs of the regexp component, compiled and matched by evaluation: checks of
    the model on concrete patterns, and the runs behind the recorded findings. *)

From S2P Require Import Prelude CutilsH CString DynBuf CharRange RegexpCode RegexpParse RegexpExec RegexpSafe.

(** Compiling with an allocator that refuses requests above [lim] bytes. *)
Definition compile (lim : Z) (pattern : list Z) (flags : Z) : outcome (compile_result * unit) :=
  @lre_compile (malloc_limit lim) (fun _ => false) 100 (replicate 64 0) pattern flags tt.

(** Compiling, then matching [subject] from [cindex] with [n] captures. *)
Definition match_at (pattern : list Z) (flags n : Z) (subject : list Z) (cindex cbuf_type : Z)
    : outcome (Z * list (option Z)) :=
  '(r, _) ← compile 1000 pattern flags;
  match r with
  | Compiled bc =>
      '(ret, c, _) ← @lre_exec malloc_ok 1000 (replicate (Z.to_nat (2 * n)) None) bc subject cindex cbuf_type tt;
      Ok (ret, c)
  | CompileError _ => Stuck
  end.

(** Alternation, captures, lazy and bounded quantifiers. *)
Example match_alternation :
  match_at (str "(a|b)*?c{2,3}") 0 2 (str "xabcccc") 0 0 = Ok (1, [Some 1; Some 6; Some 2; Some 3]).
Proof. vm_compute. reflexivity. Qed.

(** Lookbehind and a back reference, case-insensitively. *)
Example match_lookbehind :
  match_at (str "(?<=(A)b)\1") LRE_FLAG_IGNORECASE 2 (str "xaBa") 0 0 = Ok (1, [Some 3; Some 4; Some 1; Some 2]).
Proof. vm_compute. reflexivity. Qed.

(** The compiled code of these patterns passes the checker of the safety theorem. *)
Example compiled_code_checks :
  forallb (fun p => match compile 1000 p 0 with Ok (Compiled bc, _) => check_code bc | _ => false end)
    [str "(a|b)*?c{2,3}"; str "(?<=ab)c\1(x)"; str "[^a-c]+\b"; str "((a{3,}|[a-z]{2}?)+){3,7}(?!x(y*)*)$";
     str "(?<!(a+)b*)c??"; str "(?<a>(?<b>x))\k<b>"] = true.
Proof. vm_compute. reflexivity. Qed.

(** ** Findings *)

(** A forward reference to a named group just after the name of another group: the
    scan of [re_parse_captures] skips one character after the name, so the group is not
    found, although the same reference after the groups compiles. *)
Theorem named_group_scan_skips_a_character :
  (exists msg, compile 1000 (str "\k<b>(?<a>(?<b>x))") 0 = Ok (CompileError (str "group name not defined" ++ msg), tt)) /\
  (exists bc, compile 1000 (str "(?<a>(?<b>x))\k<b>") 0 = Ok (Compiled bc, tt)).
Proof. split; eexists; vm_compute; reflexivity. Qed.

(** In Unicode mode, a match that starts inside a surrogate pair steps back over the
    whole pair: the capture group then starts before the match. *)
Theorem capture_before_match_start :
  match_at (str "\udf06*(.)") LRE_FLAG_UNICODE 2 [0xd834; 0xdf06] 1 1 = Ok (1, [Some 1; Some 2; Some 0; Some 2]).
Proof. vm_compute. reflexivity. Qed.

(** The captures of an atom are not reset at each iteration of a quantifier: the last
    iteration matches [b], and the group keeps the text of the one before. *)
Theorem loop_keeps_old_captures :
  match_at (str "(?:(a)|b)*") 0 2 (str "abab") 0 0 = Ok (1, [Some 0; Some 4; Some 2; Some 3]).
Proof. vm_compute. reflexivity. Qed.

(** [re_parse_disjunction] patches the jump of an alternative without testing that it
    was emitted: when its allocation failed, the store is outside the buffer. *)
Theorem disjunction_patches_outside_buffer : compile 40 (str "aa|b") 0 = Stuck.
Proof. vm_compute. reflexivity. Qed.

(** The group names are appended without testing the result: when the allocation
    failed, the regexp is returned with the flag of named groups, and the names start
    past its end. *)
Theorem group_names_lost :
  exists bc, compile 40 (str "(?<name>aa)") 0 = Ok (Compiled bc, tt) /\ lre_get_groupnames bc = Some (Some (zlen bc)).
Proof. eexists. split; vm_compute; reflexivity. Qed.
